(* ===== verification/_CoqProject ===== *)
-Q . S2P
Prelude.v
RustString.v
Net.v
Prog.v
Lru.v
Ring.v
RingSafety.v
Slab.v
Page.v
Channel.v
ChannelSafety.v
Trust.v
Canon.v
Models.v
Records.v
External.v
Validation.v
Risk.v
Caches.v
Budget.v
Ssrf.v
Egress.v
Bans.v
Agents.v
Receipts.v
Approvals.v
Runtime.v
Admit.v
Cedar.v
Preflight.v
Guard.v
Metadata.v
Evaluate.v
Effects.v
Pipeline.v
Service.v
Pages.v
Gateway.v
ApprovalApi.v
AgentApi.v
McpStore.v
Soc.v
Manifest.v
Inspect.v
McpApi.v
SocStore.v
Detect.v
Ingest.v
Correlate.v
Respond.v
Drain.v
BrokerCore.v
Broker.v
BrokerApi.v
System.v
EgressApi.v
Sni.v
Proxy.v
ProxySafety.v
ProxyScenarios.v
Spool.v
SpoolSafety.v
Shipper.v
SpoolScenarios.v
RunStore.v
Signing.v
Sensor.v
RunApi.v
RunSafety.v
CommandSafety.v
Cage.v
Runner.v
RunnerSafety.v
RunScenarios.v
GatewaySafety.v
Containment.v
McpSafety.v
Scenarios.v
SocScenarios.v
McpScenarios.v
