(* ===== verification/Prelude.v ===== *)
(** * AegisAgent: a verification development

    AegisAgent is a gateway that decides, for every tool call an AI agent wants
    to make, whether the call is allowed, denied, redacted, held for approval
    or answered by quarantining the agent, and that keeps evidence of what it
    decided.  This library models the decision path of the Rust implementation
    and the components it relies on, and proves what makes them correct.

    ** The program and the files

    A request goes through five stages ([src/lib/decision/src]), composed by
    [run_authorize_pipeline]; each stage may end the request with an outcome.

    - [Admit.v], [admit.rs]: parse the body, compute the effective trust, apply
      the lockout, resolve the credential (token or mTLS name) to an agent,
      check the body signature and the environment.
    - [Preflight.v], [preflight.rs]: tool permission, replay timestamp and
      nonce, idempotent replay, rate limit and quota.
    - [Guard.v], [guard.rs]: frozen and revoked agents, the admission webhook,
      bans and quarantines.
    - [Metadata.v], [metadata.rs]: registered action, MCP server and tool.
    - [Evaluate.v], [evaluate.rs]: Cedar, overrides, the decision row, receipts,
      quarantine, approval, escalation, notification, the response.
    - [Pipeline.v], [pipeline.rs]: the composition and its theorems.

    The stages talk to the host through the trait [DecisionRuntime]
    ([runtime.rs]).  [Runtime.v] has the trait as an effect signature
    [DecisionE], one constructor per method, and a stage is a program over it:
    a tree of calls ([Prog.v]).  A theorem about every run of such a tree holds
    for every implementor of the trait, for every failure of a call and for
    every interference of other requests between two calls.  [Effects.v] has
    the lemmas on the calls each stage makes.

    [Gateway.v] models the gateway's implementor [GatewayDecisionRuntime]
    ([src/src/src/decision_runtime.rs], with [routes/authorize_decision.rs],
    [routes/authorize_receipts.rs] and [gh_comment.rs]): every method of the
    trait as a program over the storage operations, caches, clocks and clients
    it uses ([HostE]).  [interp gateway] composes the two layers, and
    [GatewaySafety.v] proves what the whole guarantees.  [Scenarios.v] has an
    executable host and runs the gateway on it.

    The components:

    - [Models.v], [Records.v]: requests, responses, outcomes, errors and stored
      records ([src/lib/api/src/models.rs], [lib/decision/src/outcome.rs],
      [context.rs], [agent.rs], [write.rs], [error_map.rs],
      [lib/soc/src/events.rs]).
    - [Canon.v]: canonical JSON ([src/src/canon/src/lib.rs]).
    - [External.v]: the class of third-party functions of the decision path, and
      the request signature ([lib/common/src/hash.rs]).
    - [Trust.v], [Validation.v], [Risk.v]: trust propagation, input checks and
      decision overrides, risk scores ([lib/policy/src], [lib/decision/src/risk.rs]).
    - [Cedar.v]: the policy engine around the Cedar crate ([lib/policy/src/cedar.rs]).
    - [Lru.v], [Caches.v]: the recency caches and the cached action hash
      ([routes/mod.rs], [routes/authorize_canon.rs], [lib/common/src/budget.rs]).
    - [Budget.v]: quota and lockout ([routes/mod.rs], [lib/common/src/budget.rs]).
    - [Ssrf.v]: the guard on callback URLs ([lib/common/src/ssrf.rs]).
    - [Egress.v], [EgressApi.v], [Bans.v]: the egress policy crate, its HTTP
      handlers, and the ban and quarantine tables they consult.
    - [Sni.v], [Proxy.v]: the egress proxy of a caged agent, one connection from
      its head to its last event, with the TLS server name, the two deciders and
      the command line ([bins/aegis-egress-proxy]).  [ProxySafety.v] composes it
      with the gateway's egress handler; [ProxyScenarios.v] runs it.
    - [Receipts.v]: the hash chain of receipts, its appends (one step on SQLite,
      interleaved steps on Postgres) and the handlers that verify it
      ([lib/storage/src/db/receipts.rs], [routes/receipts.rs]).
    - [Service.v]: errors and outcomes on the wire, REST and gRPC, and the header
      edge ([error.rs], [authorize_service.rs]).
    - [Pages.v]: pagination and cursors ([routes/mod.rs], [lib/storage/src/db]).
    - [Approvals.v]: the approvals table and the life of one approval as a state
      machine ([lib/storage/src/db/approvals.rs]).  [ApprovalApi.v]: the handlers
      over it ([routes/approval.rs], the Slack callback of [routes/webhooks.rs]
      with its approver gate, the gRPC method).
    - [BrokerCore.v], [Broker.v]: the tool broker process, its connectors,
      execution engine and redaction ([lib/tool-broker-core],
      [lib/tool-broker-connectors], [bins/aegis-tool-broker]).  [BrokerApi.v]: the
      gateway's side of it ([routes/broker.rs], [tool_broker_client.rs],
      [lib/storage/src/db/broker_tools.rs]).
    - [System.v]: all of these handlers at once over one approvals table.
    - [Agents.v], [AgentApi.v]: the [agents] and permission tables, risk
      escalation, and the routes that register agents and change their status
      ([lib/storage/src/db/agents.rs], [tenant.rs], [risk_escalation.rs],
      [routes/agents.rs]).
    - [Soc.v], [SocStore.v]: the records of the security operations centre, its
      calls on storage, and the tables of alerts, incidents, baselines, webhook
      health and silences ([lib/storage/src/db/soc.rs], [webhooks.rs],
      [alerting.rs]).
    - [Detect.v]: the rule language, the detector and the backtests, the
      prompt-injection and poisoning scanners ([lib/soc/src/rule_dsl.rs],
      [detect.rs], [backtest.rs], [prompt_injection.rs], [rag_poisoning.rs]).
    - [Ingest.v]: events of agents that do not call the gateway
      ([lib/soc/src/ingest.rs], [routes/webhooks.rs]).
    - [Correlate.v]: the windows and the five correlation rules
      ([lib/soc/src/correlate.rs]).
    - [Respond.v]: playbooks, the response engine and its gates
      ([lib/soc/src/playbook.rs], [respond.rs]).
    - [Drain.v]: the loop that takes each event through detection, correlation
      and response, with the baseline, triage and the webhook export
      ([lib/soc/src/events.rs], [baseline.rs], [triage.rs],
      [webhook_export.rs]).
    - [Containment.v]: the drain, the agent table and the decision pipeline
      together.  [SocScenarios.v] runs them on a concrete host.
    - [McpStore.v], [McpApi.v]: the tables of MCP servers, tools and manifest
      snapshots, and the routes that register, discover, approve, quarantine and
      delete ([lib/storage/src/db/mcp.rs], [routes/mcp.rs]).  [Manifest.v]: the
      canonical manifest, its hash and the classes of drift ([routes/mod.rs]).
      [Inspect.v]: the scanner of tool responses ([lib/soc/src/mcp_inspect.rs]).
    - [McpSafety.v]: these routes, their tables, the caches of the decision path
      and the pipeline together.  [McpScenarios.v] runs them.
    - [Ring.v], [RingSafety.v]: the lock-free event ring ([lib/event/src/ring.rs]).
    - [Slab.v], [Page.v]: telemetry descriptors, sealed pages of frames, and pages
      that are read while they are written ([lib/event/src/descriptor.rs],
      [slab.rs], [published_slab.rs]).
    - [Channel.v], [ChannelSafety.v]: the admission channel of a page, a ring and a
      terminal word ([lib/event/src/admission.rs]).

    - [RunStore.v]: the tables of runs, control commands and runtime events
      ([lib/storage/src/db/agent_runs.rs], [control_commands.rs],
      [runtime_events.rs]).  [Signing.v]: signed commands on both sides
      ([src/src/src/sign.rs], [command_receiver.rs]).  [RunApi.v]: the handlers
      that register, claim and control runs, and those of bans, quarantines and
      commands ([routes/runtime.rs], [routes/control.rs]).
    - [Sensor.v]: the node sensor's side of a command, its poll and its process
      enforcer; [Spool.v], [Shipper.v]: the events it keeps on disk and sends
      ([bins/aegis-node-sensor]).
    - [Cage.v], [Runner.v]: the cage runner, its sandboxes and docker's command
      lines, and the execution of one run from claim to cleanup
      ([bins/aegis-cage-runner]).
    - [RunSafety.v], [CommandSafety.v], [SpoolSafety.v], [RunnerSafety.v] have the
      theorems on these; [RunScenarios.v] and [SpoolScenarios.v] run them.

    The decision pipeline creates an approval ([Gateway.create_approval]); an
    approver decides it through the approval API; an SDK consumes it through
    the API or the broker route consumes it and has the broker run the action.
    [System.v] is where these meet: its log interleaves the calls of any number
    of handlers, and the table answers them one statement at a time.

    Every decision is also an event of the SOC, which runs after the answer was
    given: its drain looks for alerts and incidents and may freeze the agent,
    and the guard stage of the next request refuses a frozen agent.
    [Containment.v] follows that loop.

    A caged agent is a run: the gateway stores it and issues a signed command, a
    runner verifies the command, claims the run under a lease, executes it in a
    container without a network of its own, and follows the commands that are
    issued for it; a sensor does the same for the processes of its host.  The
    traffic of the container goes through the egress proxy, which asks the
    gateway.  [RunnerSafety.v], [CommandSafety.v] and [ProxySafety.v] are where
    these meet.

    [Prelude.v] and [RustString.v] hold what all share: results, machine
    integers, tactics, and the string functions of the standard library with its
    UTF-8 decoding; [Net.v] is its parsing of addresses.

    ** How the code is modelled

    - Names are the source's.  A stage that is one long function in Rust is cut
      at its comments into definitions that are called in the same order.
    - A Rust integer is a [Z] with its width written out where it can wrap
      ([i32] scores, [u64] sequences); a string is its bytes; a [HashMap] is a
      [gmap], a [VecDeque] a list.
    - [?] and early returns are [Err] values in the result of a program; an
      HTTP answer is an outcome value.
    - Code outside the repository is a parameter: JSON parsing and printing,
      HMAC, hex, percent decoding, Unicode normalisation, UUIDs, the URL
      parser, name resolution, the Cedar crate, [ipnet], the HTTP client, the
      file system and the processes of the broker, YAML, base64, the clock of
      the database, Ed25519, CRC-32, the disk of the spool, and docker.  What a
      theorem needs of it is a named hypothesis ([num_seconds_truncates],
      [hex_roundtrip], [Ed25519Laws], [json_round_trips]) and holds of the
      concrete instances its witness uses.
    - The atomics of the ring, the pages and the channel follow release/acquire:
      a load may answer any value stored since the last one its thread has seen.
      An atomic word is the list of the values stored in it, and a plain cell
      remembers the store that publishes it, so that a read which no acquired
      store covers is a race and has no answer.

    Programs are finite trees, so every operation ends; no definition of the
    pipeline needs fuel.  [RustString.trim] recurses with the length of its
    argument as fuel, one unit per byte at least being removed per turn
    ([strip_many_done]).  [retry_on_busy] recurses on its number of retries,
    as the loop does.  [Pages.walk] has as fuel one more than the number of rows, and
    [pages_list_everything] shows that it is enough.  [Proxy.read_head_from] has
    as fuel the reads that can grow the head to its limit ([read_head_fuel]); the
    theorems on its relay hold for every number of turns of the pump.
    [Spool.make_room] and the scan past a corrupt frame have as fuel the bytes
    they can still remove or skip; [Shipper.ship_lane] counts records, and
    [shipper_drains_lane] has as many turns as there are.  The loops of the cage
    runner that wait for a container take a number of turns, [Unfinished] being a
    loop that goes on: safety holds for every number, and [wait_ends_by_deadline]
    gives the number of looks after which the wait has ended.  [Panicked] is the
    overflow of its deadline.

    ** What is proved

    - Decisions: an [allow] has passed every check, against any host
      ([Pipeline.v]) and in terms of what the gateway's stores answered
      ([GatewaySafety.v]); the overrides ([Validation.v]) and the policy engine
      ([Cedar.v]) only tighten, and a reload of policies replaces all or nothing.
    - Evidence ([Pipeline.v], [GatewaySafety.v]): nothing takes effect before
      its row is written, a protected decision carries a durable receipt, a dry
      run writes nothing, a request writes one row at most, and what exactly an
      audit outage leaves out.
    - Isolation and replay: calls stay in the tenant of the connection, a
      recorded decision is replayed only to its own request and reproduces it;
      [Scenarios.v] has the two runs in which a refusal is replayed as [allow].
    - Containment ([Correlate.v], [Containment.v]): the correlator's bounded
      windows yield the incidents of the rules read over the whole history, so a
      storm is never missed and is answered by freezing the agent; the response
      stays in the tenant and agent of the event and behind the two switches of
      the tenant; a frozen agent gets no [allow] that was not recorded before for
      the same request id.
    - Agents and the SOC tables: the agent table stays well formed under every
      statement, and only the deletion of a tenant removes rows; grants and revocations have exactly the stated effect
      ([Agents.v]); the detector reports exactly the rules that match and a
      backtest agrees with it ([Detect.v]); a merge of incidents loses no
      evidence ([SocStore.v]); ingestion only emits events ([Ingest.v]).
    - MCP ([Manifest.v], [McpSafety.v], [McpScenarios.v]): the manifest hash
      changes exactly when the tools do; a changed manifest leaves its server
      quarantined and its tools unapproved, unless the quarantine cannot be
      written, and the pipeline refuses them; an unsigned manifest leaves no
      trace; the caches of the decision path cannot be seen in any serial history
      of keys without the separator, and the runs of [McpScenarios.v] show where
      that ends.
    - Bindings: an approval is bound to the action it was asked for
      ([GatewaySafety.v]), canonical forms are equal exactly for equal actions
      ([Canon.v]), signatures ([External.v]), cached action hashes ([Caches.v]).
    - Components, each by an exact characterisation: trust chains, input checks,
      caches as recency lists, quota and lockout as counts, the SSRF ranges, the
      risk formula, the egress rules, the ban table.
    - The egress proxy ([Sni.v], [ProxySafety.v]): a connection dials at most one
      host, the one its head named and its decider allowed; it relays exactly
      the bytes of the two sides, with the counters and events that go with
      them; through the gateway's decider, a dialled host was allowed by the
      gateway's policy and bans, and its event was handed to storage; the server
      name is read
      exactly as the grammar of the hello gives it.
    - Runs and commands ([RunSafety.v], [CommandSafety.v]): a run has one runner
      at a time, which was given it after the bans and quarantines were looked
      up; a command that a sensor executes was signed by the gateway, is of its
      tenant, has not expired and is not executed twice; a kill that is issued
      reaches the process.
    - The spool ([SpoolSafety.v], [Shipper.v]): the file of a lane is a bounded queue;
      with failing disk calls, torn appends and stops at any call, an accepted
      critical event is shipped or still a whole record of the file (a compaction
      that is cut short after its rename is the exception, [SpoolScenarios.v]); a
      gateway that answers drains the lane.
    - The cage runner ([RunnerSafety.v]): every container is confined whatever
      the specification says, a run that ends leaves no container and reports
      its end, the wait for a container ends by its deadline, and what is
      executed is what was registered; [RunScenarios.v] has the runs in which
      pausing, quarantining or a huge timeout goes wrong.
    - Receipts ([Receipts.v]): on SQLite what was appended is one chain and
      verifies, on Postgres overlapping appends can fork it; a change that still
      verifies is a hash collision.
    - Approvals: the table runs the state machine of each approval
      ([Approvals.v]); an approved action runs at most once, as it was approved
      and after a decision by a request that may approve, in every interleaving
      of the handlers ([System.v]).
    - The tool broker: its effects are authorised and confined, its answers
      carry no credential, and the shell connector is the exception to the
      approval gate ([Broker.v]); what the gateway sends it is authorised and
      recorded ([BrokerApi.v]).
    - The wire ([Service.v], [Pages.v]): REST and gRPC give answers of the same
      class, headers carry the context, and following the cursors lists every
      row once.
    - The ring ([RingSafety.v]): a bounded queue in every interleaving, without
      races, stuck endpoints or values lost at shutdown, and dropped exactly.
    - Slabs ([Slab.v]): a sealed page gives back each frame that was appended, and
      nothing for a descriptor of another page.
    - The channel ([ChannelSafety.v]): in every interleaving the consumer gets the
      admitted frames, intact and in order, and a clean end only after all of
      them; no endpoint is stuck and every schedule ends.

    ** What is not modelled

    The listings and searches of the storage and the SQL of the remaining
    tables, the servers and the other administration routes, the periodic agents
    of the SOC (narration, threat hunting, permission review, policy advice), the
    notification sink, the Postgres mode of the correlator, the Redis mode of the
    caches, the floating-point token bucket (its answer is an input of the
    pipeline), the receipt signer, the rotation of pages in [lib/event], the batch
    writers of receipts and audit events, the receipt checkpoints, the policy
    compiler, the collectors, configuration and registration of the node sensor,
    the configuration, snapshots and event sink of the cage runner, the SDKs and
    the UI.  They are listings, text generation, configuration or transport
    around the modelled parts, or (rotation, batch writers, checkpoints) parts
    whose interface to the modelled code is the one the theorems already use. *)

From Stdlib Require Export ZArith Lia Ascii.
From stdpp Require Export base option list strings gmap numbers.
From stdpp Require Import sorting.

Set Default Proof Using "Type".

(** ** Results

    Rust's [Result<T, E>].  [Ok] and [Err] keep the source's names. *)

Inductive Result (A E : Type) : Type :=
| Ok (a : A)
| Err (e : E).
Arguments Ok {A E} a.
Arguments Err {A E} e.

#[export] Instance Result_eq_dec {A E} `{EqDecision A, EqDecision E} : EqDecision (Result A E).
Proof. solve_decision. Defined.

(** [result.map_err(f)] *)
Definition map_err {A E F} (f : E → F) (r : Result A E) : Result A F :=
  match r with Ok a => Ok a | Err e => Err (f e) end.

Definition is_ok {A E} (r : Result A E) : bool :=
  match r with Ok _ => true | Err _ => false end.

(** ** Machine integers

    A [w]-bit unsigned integer is a [Z] in [0, 2^w); an [i32] is a [Z] in
    [-2^31, 2^31).  Wrap-around is written out where the source has it. *)

Definition u16_max : Z := 65535.
Definition u32_max : Z := 4294967295.
Definition two64 : Z := 18446744073709551616.
Definition usize_max : Z := two64 - 1.

Definition wrap64 (z : Z) : Z := z `mod` two64.
Definition wrapping_add64 (a b : Z) : Z := wrap64 (a + b).
Definition wrapping_sub64 (a b : Z) : Z := wrap64 (a - b).

Definition i32_wrap (z : Z) : Z := (z + 2147483648) `mod` 4294967296 - 2147483648.
Definition in_i32 (z : Z) : Prop := (-2147483648 ≤ z < 2147483648)%Z.
Definition in_u64 (z : Z) : Prop := (0 ≤ z < two64)%Z.

(** [x.clamp(lo, hi)] for [lo <= hi] *)
Definition clamp (lo hi x : Z) : Z :=
  if (x <? lo)%Z then lo else if (hi <? x)%Z then hi else x.

Lemma clamp_bounds lo hi x : (lo ≤ hi → lo ≤ clamp lo hi x ≤ hi)%Z.
Proof. unfold clamp. intros. destruct (Z.ltb_spec x lo), (Z.ltb_spec hi x); lia. Qed.

Lemma clamp_mono lo hi x y : (lo ≤ hi → x ≤ y → clamp lo hi x ≤ clamp lo hi y)%Z.
Proof.
  unfold clamp. intros.
  destruct (Z.ltb_spec x lo), (Z.ltb_spec hi x), (Z.ltb_spec y lo), (Z.ltb_spec hi y); lia.
Qed.

Lemma i32_wrap_id z : in_i32 z → i32_wrap z = z.
Proof. unfold in_i32, i32_wrap. intros. rewrite Z.mod_small; lia. Qed.

Lemma i32_wrap_range z : in_i32 (i32_wrap z).
Proof.
  unfold in_i32, i32_wrap.
  pose proof (Z.mod_pos_bound (z + 2147483648) 4294967296). lia.
Qed.

Lemma wrap64_range z : in_u64 (wrap64 z).
Proof. unfold in_u64, wrap64. apply Z.mod_pos_bound. reflexivity. Qed.

Lemma wrap64_id z : in_u64 z → wrap64 z = z.
Proof. unfold in_u64, wrap64. intros. by apply Z.mod_small. Qed.

(** ** Tactics *)

Ltac destruct_units := repeat match goal with u : unit |- _ => destruct u end.

(** Boolean tests in the context as equations. *)
Ltac bool_hyps :=
  repeat match goal with
  | H : negb _ = false |- _ => apply negb_false_iff in H
  | H : negb _ = true |- _ => apply negb_true_iff in H
  | H : _ && _ = true |- _ => apply andb_true_iff in H as [? ?]
  | H : _ || _ = false |- _ => apply orb_false_iff in H as [? ?]
  end; simplify_eq/=.

(** An element of a list that is spelled out. *)
Ltac list_in := solve [repeat first [apply list_elem_of_here | apply list_elem_of_further]].

(** ** Lists *)

Lemma NoDup_map_inj {A B} (f : A → B) l x y :
  NoDup (map f l) → x ∈ l → y ∈ l → f x = f y → x = y.
Proof.
  induction l as [|z l IH]; [by intros _ ?%elem_of_nil|]. intros [Hz Hl]%NoDup_cons.
  intros [->|Hx]%elem_of_cons [->|Hy]%elem_of_cons Heq; [done| | |by apply IH].
  - destruct Hz. rewrite Heq. by apply list_elem_of_fmap_2.
  - destruct Hz. rewrite <- Heq. by apply list_elem_of_fmap_2.
Qed.

(** Rows selected by [sel] are replaced: what a test that does not see the
    change finds is the same row, replaced. *)
Lemma find_map_update {A} (sel test : A → bool) (f : A → A) rows :
  (∀ r, sel r = true → test (f r) = test r) →
  find test (map (λ r, if sel r then f r else r) rows) =
  (λ r, if sel r then f r else r) <$> find test rows.
Proof.
  intros Ht. induction rows as [|r rows IH]; [done|]. simpl.
  replace (test (if sel r then f r else r)) with (test r)
    by (destruct (sel r) eqn:Hs; [by rewrite Ht|done]).
  by destruct (test r).
Qed.

Lemma find_snoc {A} (test : A → bool) rows r :
  find test (rows ++ [r]) =
  match find test rows with Some x => Some x | None => if test r then Some r else None end.
Proof. induction rows as [|x rows IH]; simpl; [done|]. by destruct (test x). Qed.

(** ** Filters of lists *)

Lemma filter_keeps {A} (P : A → Prop) `{!∀ x, Decision (P x)} l : Forall P l → filter P l = l.
Proof. induction 1 as [|x l Hx _ IH]; [done|]. by rewrite list.filter_cons_True, IH. Qed.

Lemma filter_drops {A} (P : A → Prop) `{!∀ x, Decision (P x)} l :
  Forall (λ x, ¬ P x) l → filter P l = [].
Proof. induction 1 as [|x l Hx _ IH]; [done|]. by rewrite list.filter_cons_False. Qed.

Lemma StronglySorted_filter {A} (R : relation A) (P : A → Prop) `{!∀ x, Decision (P x)} l :
  StronglySorted R l → StronglySorted R (filter P l).
Proof.
  induction 1 as [|x l Hl IH Hx]; [constructor|].
  destruct (decide (P x)); [rewrite list.filter_cons_True by done|by rewrite list.filter_cons_False].
  constructor; [done|]. apply list.Forall_forall. intros y [_ Hin]%list_elem_of_filter.
  exact (proj1 (list.Forall_forall _ _) Hx y Hin).
Qed.
