(* ===== verification/RustString.v ===== *)
(** * The [str] operations of the Rust standard library the sources use

    A Rust [String] is its UTF-8 byte sequence, here a Rocq [string] (one
    [ascii] per byte), so [==] and [Ord] are bytewise.  [trim] recognises the
    byte sequences of every character with the Unicode [White_Space] property,
    as [str::trim] does. *)

From S2P Require Import Prelude.

Declare Scope rust_scope.
Delimit Scope rust_scope with rust.
Open Scope rust_scope.

#[global] Arguments String.eqb : simpl never.

(** [a == b] on [&str] *)
Notation "a == b" := (String.eqb a b) (at level 70, no associativity) : rust_scope.
Notation "a != b" := (negb (String.eqb a b)) (at level 70, no associativity) : rust_scope.

Lemma eqb_spec_true (a b : string) : (a == b) = true ↔ a = b.
Proof. apply String.eqb_eq. Qed.
Lemma eqb_spec_false (a b : string) : (a == b) = false ↔ a ≠ b.
Proof. apply String.eqb_neq. Qed.
Lemma eqb_refl (a : string) : (a == a) = true.
Proof. apply String.eqb_refl. Qed.

(** Every comparison of strings in a hypothesis or in the goal as a
    proposition; equal strings substituted. *)
Ltac str_eq :=
  repeat match goal with
  | H : (_ == _) = true |- _ => apply eqb_spec_true in H; subst
  | H : (_ == _) = false |- _ => apply eqb_spec_false in H
  | H : true = (_ == _) |- _ => symmetry in H
  | H : false = (_ == _) |- _ => symmetry in H
  | |- context [?a == ?a] => rewrite (eqb_refl a)
  end.

(** Case analysis on every string comparison of the goal. *)
Ltac case_str :=
  repeat match goal with
  | |- context [?a == ?b] => let H := fresh "Hs" in destruct (a == b) eqn:H
  | H : context [?a == ?b] |- _ =>
      lazymatch type of H with
      | (_ == _) = _ => fail
      | _ => let H' := fresh "Hs" in destruct (a == b) eqn:H'
      end
  end; str_eq.

(** [s.is_empty()] *)
Definition is_empty (s : string) : bool := match s with EmptyString => true | _ => false end.

Lemma is_empty_spec s : is_empty s = true ↔ s = "".
Proof. by destruct s. Qed.

(** [s.strip_prefix(p)] *)
Fixpoint strip_prefix (p s : string) : option string :=
  match p, s with
  | EmptyString, _ => Some s
  | String a p', String b s' => if Ascii.eqb a b then strip_prefix p' s' else None
  | String _ _, EmptyString => None
  end.

(** [s.starts_with(p)] *)
Definition starts_with (p s : string) : bool :=
  match strip_prefix p s with Some _ => true | None => false end.

(** [s.ends_with(p)] *)
Definition ends_with (p s : string) : bool := starts_with (String.rev p) (String.rev s).

Lemma strip_prefix_Some p s r : strip_prefix p s = Some r ↔ s = p +:+ r.
Proof.
  revert s. induction p as [|a p IH]; intros s; simpl.
  - split; [intros [= ->]|intros ->]; done.
  - destruct s as [|b s]; simpl; [done|].
    destruct (Ascii.eqb_spec a b) as [->|Hne].
    + rewrite IH. split; [intros ->|intros [=]]; done.
    + split; [done|intros [=]]; congruence.
Qed.

Lemma strip_prefix_app p r : strip_prefix p (p +:+ r) = Some r.
Proof. by apply strip_prefix_Some. Qed.

(** One byte, ASCII-lowercased: [u8::to_ascii_lowercase]. *)
Definition ascii_lower (a : ascii) : ascii :=
  let n := nat_of_ascii a in
  if (65 <=? n)%nat && (n <=? 90)%nat then ascii_of_nat (n + 32) else a.

Definition ascii_upper (a : ascii) : ascii :=
  let n := nat_of_ascii a in
  if (97 <=? n)%nat && (n <=? 122)%nat then ascii_of_nat (n - 32) else a.

Fixpoint string_map (f : ascii → ascii) (s : string) : string :=
  match s with EmptyString => EmptyString | String a s' => String (f a) (string_map f s') end.

(** [s.to_ascii_lowercase()] and [s.to_ascii_uppercase()] *)
Definition to_ascii_lowercase : string → string := string_map ascii_lower.
Definition to_ascii_uppercase : string → string := string_map ascii_upper.

Lemma ascii_lower_idemp a : ascii_lower (ascii_lower a) = ascii_lower a.
Proof. destruct a as [[] [] [] [] [] [] [] []]; reflexivity. Qed.

Lemma to_ascii_lowercase_idemp s : to_ascii_lowercase (to_ascii_lowercase s) = to_ascii_lowercase s.
Proof.
  unfold to_ascii_lowercase. induction s as [|a s IH]; simpl; [done|].
  by rewrite ascii_lower_idemp, IH.
Qed.

(** [s.split(c)]: one piece more than there are separators. *)
Fixpoint split_on (c : ascii) (s : string) : list string :=
  match s with
  | EmptyString => [""]
  | String a s' =>
      match split_on c s' with
      | w :: ws => if Ascii.eqb a c then "" :: w :: ws else String a w :: ws
      | [] => []
      end
  end.

(** [pieces.join(sep)] for a one-byte separator *)
Fixpoint join_with (c : ascii) (ws : list string) : string :=
  match ws with
  | [] => ""
  | [w] => w
  | w :: ws' => w +:+ String c (join_with c ws')
  end.


Lemma split_on_cons c s : ∃ w ws, split_on c s = w :: ws.
Proof.
  induction s as [|a s (w & ws & IH)]; simpl; [eauto|].
  rewrite IH. destruct (Ascii.eqb a c); eauto.
Qed.

(** Whether the byte [c] occurs in [s]. *)
Fixpoint has_byte (c : ascii) (s : string) : bool :=
  match s with EmptyString => false | String a s' => Ascii.eqb a c || has_byte c s' end.

Lemma split_on_no_sep c s : has_byte c s = false → split_on c s = [s].
Proof.
  induction s as [|a s IH]; simpl; [done|].
  intros [Ha Hs]%orb_false_iff. by rewrite IH, Ha.
Qed.

Lemma split_on_app c w s :
  has_byte c w = false → split_on c (w +:+ String c s) = w :: split_on c s.
Proof.
  induction w as [|a w IH]; simpl.
  - intros _. destruct (split_on_cons c s) as (x & xs & ->).
    by rewrite Ascii.eqb_refl.
  - intros [Ha Hw]%orb_false_iff. by rewrite IH, Ha.
Qed.

(** [join] then [split] gives the pieces back, when no piece has the separator. *)
Lemma split_join c ws :
  ws ≠ [] → Forall (λ w, has_byte c w = false) ws → split_on c (join_with c ws) = ws.
Proof.
  intros Hne Hall. induction Hall as [|w ws Hw Hall IH]; [done|].
  destruct ws as [|w' ws].
  - simpl. by apply split_on_no_sep.
  - change (join_with c (w :: w' :: ws)) with (w +:+ String c (join_with c (w' :: ws))).
    rewrite split_on_app by done. f_equal. by apply IH.
Qed.

(** [split] then [join] is the identity. *)
Lemma join_split c s : join_with c (split_on c s) = s.
Proof.
  induction s as [|a s IH]; [done|]. simpl.
  destruct (split_on_cons c s) as (w & ws & Hs). rewrite Hs in IH |- *.
  destruct (Ascii.eqb_spec a c) as [->|_].
  - change (String c (join_with c (w :: ws)) = String c s). by rewrite IH.
  - transitivity (String a (join_with c (w :: ws))); [by destruct ws|]. by rewrite IH.
Qed.

(** A separator-free prefix determines the rest: the cache keys of the gateway
    ([format!("{a}\x1f{b}")]) are injective on such components. *)
Lemma sep_inj c a a' b b' :
  has_byte c a = false → has_byte c a' = false →
  a +:+ String c b = a' +:+ String c b' → a = a' ∧ b = b'.
Proof.
  revert a'. induction a as [|x a IH]; intros [|y a'] Ha Ha'; simpl in *.
  - by intros [= ->].
  - intros [= -> _]. by rewrite Ascii.eqb_refl in Ha'.
  - intros [= -> _]. by rewrite Ascii.eqb_refl in Ha.
  - apply orb_false_iff in Ha as [_ Ha], Ha' as [_ Ha'].
    intros [= -> Heq]. destruct (IH a') as [-> ->]; done.
Qed.

Lemma string_app_assoc (a b c : string) : (a +:+ b) +:+ c = a +:+ (b +:+ c).
Proof.
  induction a as [|x a IH]; [reflexivity|].
  change (String x ((a +:+ b) +:+ c) = String x (a +:+ (b +:+ c))). by rewrite IH.
Qed.

Lemma string_app_nil (a : string) : a +:+ "" = a.
Proof.
  induction a as [|x a IH]; [reflexivity|]. change (String x (a +:+ "") = String x a). by rewrite IH.
Qed.

(** Splitting at one separator more. *)
Lemma split_on_app_sep c p s :
  split_on c (p +:+ String c s) = split_on c p ++ split_on c s.
Proof.
  induction p as [|a p IH]; simpl.
  - destruct (split_on_cons c s) as (w & ws & ->). by rewrite Ascii.eqb_refl.
  - rewrite IH. destruct (split_on_cons c p) as (w & ws & ->). simpl.
    by destruct (Ascii.eqb a c).
Qed.

Lemma join_with_app c ws ws' :
  ws ≠ [] → ws' ≠ [] → join_with c (ws ++ ws') = join_with c ws +:+ String c (join_with c ws').
Proof.
  intros Hws Hws'. induction ws as [|w ws IH]; [done|]. destruct ws as [|w2 ws].
  - simpl. by destruct ws'.
  - change (w +:+ String c (join_with c ((w2 :: ws) ++ ws')) =
      (w +:+ String c (join_with c (w2 :: ws))) +:+ String c (join_with c ws')).
    rewrite IH by done. by rewrite string_app_assoc.
Qed.

(** The pieces of [s] are the last pieces of [s'] exactly when [s'] is [s]
    or ends in the separator and [s]. *)
Lemma split_suffix c s s' :
  split_on c s `suffix_of` split_on c s' ↔ s' = s ∨ ∃ p, s' = p +:+ String c s.
Proof.
  split.
  - intros [k Hk]. rewrite <- (join_split c s'), Hk. destruct k as [|w k].
    + left. apply join_split.
    + right. exists (join_with c (w :: k)).
      destruct (split_on_cons c s) as (x & xs & Hs).
      rewrite join_with_app; [by rewrite join_split|done|by rewrite Hs].
  - intros [->|[p ->]]; [done|]. rewrite split_on_app_sep. by exists (split_on c p).
Qed.

(** [s.trim_end_matches(c)] for a one-byte [c] *)
Fixpoint trim_end_byte (c : ascii) (s : string) : string :=
  match s with
  | EmptyString => ""
  | String a s' =>
      match trim_end_byte c s' with
      | EmptyString => if Ascii.eqb a c then "" else String a ""
      | r => String a r
      end
  end.

Lemma trim_end_byte_idemp c s : trim_end_byte c (trim_end_byte c s) = trim_end_byte c s.
Proof.
  induction s as [|a s IH]; [done|]. simpl.
  destruct (trim_end_byte c s) as [|x r] eqn:Hr.
  - destruct (Ascii.eqb a c) eqn:Ha; simpl; [done|]. by rewrite Ha.
  - simpl. simpl in IH. by rewrite IH.
Qed.

(** [s.trim_matches(c)] for a one-byte [c] *)
Fixpoint trim_start_byte (c : ascii) (s : string) : string :=
  match s with
  | EmptyString => ""
  | String a s' => if Ascii.eqb a c then trim_start_byte c s' else s
  end.

Definition trim_matches (c : ascii) (s : string) : string := trim_end_byte c (trim_start_byte c s).

(** ** [str::trim] *)

Definition bytes (l : list nat) : string :=
  foldr (λ n s, String (ascii_of_nat n) s) "" l.

(** The UTF-8 encodings of the [White_Space] characters. *)
Definition whitespace_seqs : list string :=
  map bytes
    ([[9]; [10]; [11]; [12]; [13]; [32]; [194; 133]; [194; 160]; [225; 154; 128];
      [226; 128; 128]; [226; 128; 129]; [226; 128; 130]; [226; 128; 131]; [226; 128; 132];
      [226; 128; 133]; [226; 128; 134]; [226; 128; 135]; [226; 128; 136]; [226; 128; 137];
      [226; 128; 138]; [226; 128; 168]; [226; 128; 169]; [226; 128; 175]; [226; 129; 159];
      [227; 128; 128]])%nat.

(** The first sequence of [ws] that starts [s], removed. *)
Fixpoint strip_one (ws : list string) (s : string) : option string :=
  match ws with
  | [] => None
  | w :: ws' => match strip_prefix w s with Some r => Some r | None => strip_one ws' s end
  end.

Fixpoint strip_many (fuel : nat) (ws : list string) (s : string) : string :=
  match fuel with
  | O => s
  | S n => match strip_one ws s with Some r => strip_many n ws r | None => s end
  end.

Definition trim_start (s : string) : string := strip_many (String.length s) whitespace_seqs s.
Definition trim_end (s : string) : string :=
  String.rev (strip_many (String.length s) (map String.rev whitespace_seqs) (String.rev s)).
Definition trim (s : string) : string := trim_end (trim_start s).

Lemma strip_one_Some ws s r : strip_one ws s = Some r → ∃ w, w ∈ ws ∧ s = w +:+ r.
Proof.
  induction ws as [|w ws IH]; simpl; [done|].
  destruct (strip_prefix w s) eqn:Hw.
  - intros [= ->]. apply strip_prefix_Some in Hw. exists w. split; [by left|done].
  - intros (w' & ? & ?)%IH. exists w'. split; [by right|done].
Qed.

Lemma string_length_app a b : String.length (a +:+ b) = (String.length a + String.length b)%nat.
Proof. induction a; simpl; [done|]. by rewrite IHa. Qed.

(** The fuel is enough: what is left starts with no white space. *)
Lemma strip_many_done ws n s :
  Forall (λ w, w ≠ "") ws → (String.length s ≤ n)%nat →
  strip_one ws (strip_many n ws s) = None.
Proof.
  intros Hne. revert s. induction n as [|n IH]; intros s Hlen; simpl.
  - destruct s; [|simpl in Hlen; lia].
    destruct (strip_one ws "") eqn:Hs; [|done].
    apply strip_one_Some in Hs as (w & Hw & Heq).
    rewrite list.Forall_forall in Hne. destruct w; [|done]. by destruct (Hne _ Hw).
  - destruct (strip_one ws s) as [r|] eqn:Hs; [|done].
    apply IH. apply strip_one_Some in Hs as (w & Hw & ->).
    rewrite list.Forall_forall in Hne. specialize (Hne _ Hw).
    rewrite string_length_app in Hlen. destruct w; [done|]. simpl in Hlen. lia.
Qed.

(** ** Searching and replacing *)

(** [s.contains(p)] *)
Fixpoint contains (p s : string) : bool :=
  starts_with p s || match s with EmptyString => false | String _ s' => contains p s' end.

(** [s.replace(from, to)] for a [from] that is not empty: the matches are taken
    from the left and do not overlap; [skip] bytes are left of the last one. *)
Fixpoint replace_from (skip : nat) (from to s : string) : string :=
  match s with
  | EmptyString => EmptyString
  | String a s' =>
      match skip with
      | S k => replace_from k from to s'
      | O =>
          if starts_with from s
          then to +:+ replace_from (String.length from - 1) from to s'
          else String a (replace_from 0 from to s')
      end
  end.
Definition replace (from to s : string) : string := replace_from 0 from to s.

Lemma starts_with_cons a p b s :
  starts_with (String a p) (String b s) = Ascii.eqb a b && starts_with p s.
Proof. unfold starts_with. simpl. by destruct (Ascii.eqb a b). Qed.

Lemma contains_cons p a s : contains p (String a s) = starts_with p (String a s) || contains p s.
Proof. done. Qed.

(** A byte [10xxxxxx] continues a character. *)
Definition continues (a : ascii) : bool :=
  let n := Ascii.nat_of_ascii a in (128 <=? n)%nat && (n <? 192)%nat.

(** [s.chars().take(n)] *)
Fixpoint take_chars (n : Z) (s : string) : string :=
  match s with
  | EmptyString => EmptyString
  | String a s' =>
      if continues a then String a (take_chars n s')
      else if (n <=? 0)%Z then EmptyString
      else String a (take_chars (n - 1) s')
  end.

(** ** Cutting *)

(** [s.split_once(c)] *)
Fixpoint split_once (c : ascii) (s : string) : option (string * string) :=
  match s with
  | EmptyString => None
  | String a s' =>
      if Ascii.eqb a c then Some (EmptyString, s')
      else '(l, r) ← split_once c s'; Some (String a l, r)
  end.

(** [s.rsplit_once(c)] *)
Fixpoint rsplit_once (c : ascii) (s : string) : option (string * string) :=
  match s with
  | EmptyString => None
  | String a s' =>
      match rsplit_once c s' with
      | Some (l, r) => Some (String a l, r)
      | None => if Ascii.eqb a c then Some (EmptyString, s') else None
      end
  end.

(** [s.strip_suffix(p)] *)
Definition strip_suffix (p s : string) : option string :=
  String.rev <$> strip_prefix (String.rev p) (String.rev s).

(** [s.split_at(n)], and [n] beyond the end gives all *)
Fixpoint split_at (n : nat) (s : string) : string * string :=
  match n, s with
  | S n, String a s' => let '(l, r) := split_at n s' in (String a l, r)
  | _, _ => (EmptyString, s)
  end.

Lemma split_at_app n s : (split_at n s).1 +:+ (split_at n s).2 = s.
Proof.
  revert n. induction s as [|a s IH]; intros [|n]; try done. simpl.
  specialize (IH n). destruct (split_at n s) as [l r]. simpl in *.
  change (String a (l +:+ r) = String a s). by rewrite IH.
Qed.

(** [s.split], the separator being a carriage return and a line feed *)
Fixpoint split_crlf (s : string) : list string :=
  match s with
  | EmptyString => [EmptyString]
  | String a s1 =>
      let keep := match split_crlf s1 with
                  | w :: ws => String a w :: ws
                  | [] => [String a EmptyString]
                  end in
      match s1 with
      | String b s2 => if Ascii.eqb a "013" && Ascii.eqb b "010" then EmptyString :: split_crlf s2 else keep
      | EmptyString => keep
      end
  end.

(** ** [str::split_whitespace] *)

(** The length of the white-space character [s] starts with. *)
Definition whitespace_len (s : string) : option nat :=
  match strip_one whitespace_seqs s with
  | Some r => Some (String.length s - String.length r)%nat
  | None => None
  end.

Definition token (cur : string) : list string := if is_empty cur then [] else [cur].

(** [text.split_whitespace()]; [skip] bytes are left of the last separator. *)
Fixpoint split_whitespace_from (skip : nat) (cur s : string) : list string :=
  match s with
  | EmptyString => token cur
  | String a s' =>
      match skip with
      | S n => split_whitespace_from n cur s'
      | O =>
          match whitespace_len s with
          | Some n => token cur ++ split_whitespace_from (n - 1) "" s'
          | None => split_whitespace_from 0 (cur +:+ String a "") s'
          end
      end
  end.
Definition split_whitespace (s : string) : list string := split_whitespace_from 0 "" s.

(** A comma-separated column gives back the names it was built from. *)
Lemma split_join_policies ps :
  Forall (λ p, p ≠ "" ∧ has_byte "," p = false) ps →
  List.filter (λ s, negb (is_empty s)) (split_on "," (join_with "," ps)) = ps.
Proof.
  intros Hps. destruct ps as [|p ps]; [done|].
  rewrite split_join; [|done|by eapply list.Forall_impl; [exact Hps|intros ? []]].
  revert Hps. generalize (p :: ps). clear p ps. intros ps Hps.
  induction Hps as [|p ps [Hne _] _ IH]; [done|]. simpl.
  destruct p; [done|]. simpl. by rewrite IH.
Qed.

(** * UTF-8 as the standard library decodes it

    Models [str::from_utf8] and [String::from_utf8_lossy]: bytes are cut into
    characters and into the longest prefixes of characters that are not
    completed, each of which the lossy form replaces by U+FFFD. *)

Module Utf8.

Definition within (lo hi : nat) (a : ascii) : bool :=
  let n := nat_of_ascii a in (lo <=? n)%nat && (n <=? hi)%nat.

(** The second byte of a character of three or four bytes. *)
Definition second_of_three (a b : ascii) : bool :=
  (within 224 224 a && within 160 191 b) || (within 225 236 a && within 128 191 b)
  || (within 237 237 a && within 128 159 b) || (within 238 239 a && within 128 191 b).
Definition second_of_four (a b : ascii) : bool :=
  (within 240 240 a && within 144 191 b) || (within 241 243 a && within 128 191 b)
  || (within 244 244 a && within 128 143 b).

(** The characters of [s]; [None] stands for a piece that is none. *)
Fixpoint chars (s : string) : list (option string) :=
  match s with
  | EmptyString => []
  | String a s1 =>
      if within 0 127 a then Some (String a "") :: chars s1
      else if within 194 223 a then
        match s1 with
        | String b s2 =>
            if continues b then Some (String a (String b "")) :: chars s2 else None :: chars s1
        | EmptyString => [None]
        end
      else if within 224 239 a then
        match s1 with
        | String b s2 =>
            if second_of_three a b then
              match s2 with
              | String c s3 =>
                  if continues c then Some (String a (String b (String c ""))) :: chars s3
                  else None :: chars s2
              | EmptyString => [None]
              end
            else None :: chars s1
        | EmptyString => [None]
        end
      else if within 240 244 a then
        match s1 with
        | String b s2 =>
            if second_of_four a b then
              match s2 with
              | String c s3 =>
                  if continues c then
                    match s3 with
                    | String d s4 =>
                        if continues d
                        then Some (String a (String b (String c (String d "")))) :: chars s4
                        else None :: chars s3
                    | EmptyString => [None]
                    end
                  else None :: chars s2
              | EmptyString => [None]
              end
            else None :: chars s1
        | EmptyString => [None]
        end
      else None :: chars s1
  end.

Definition replacement : string := bytes [239; 191; 189]%nat.

Definition concat_strings (l : list string) : string := foldr String.append "" l.

(** [String::from_utf8_lossy] *)
Definition from_utf8_lossy (s : string) : string := concat_strings (map (default replacement) (chars s)).

Definition valid (s : string) : bool := forallb (λ o, bool_decide (is_Some o)) (chars s).

(** [String::from_utf8(..).ok()] *)
Definition from_utf8 (s : string) : option string := if valid s then Some s else None.

(** ** The lossy form *)

(** A character that is complete is the first one, whatever comes after it. *)
Ltac piece :=
  lazymatch goal with
  | Hs : ∀ c r, _ → _ → ?P (c +:+ r) (Some c :: chars r) |- ?P _ (Some ?c :: chars ?r) =>
      apply (Hs c r); [simpl in *; lia|];
      let q := fresh in intros q; cbv [String.append]; cbn [chars];
      repeat match goal with H : ?b = _ |- context [?b] => rewrite H end; reflexivity
  end.

(** Induction by the pieces. *)
Lemma chars_ind (P : string → list (option string) → Prop) :
  P "" [] →
  (∀ c s l, chars s = l → P s l → (∀ r, chars (c +:+ r) = Some c :: chars r) → P (c +:+ s) (Some c :: l)) →
  (∀ c s l, chars s = l → P s l → P (c +:+ s) (None :: l)) →
  ∀ s, P s (chars s).
Proof.
  intros H0 Hsome Hnone s. remember (String.length s) as n eqn:Hn.
  assert (String.length s <= n)%nat as Hle by lia. clear Hn. revert s Hle.
  induction n as [|n IH]; intros s Hle; [by destruct s; [|simpl in Hle; lia]|].
  destruct s as [|a s1]; [done|]. simpl in Hle. cbn [chars].
  assert (∀ c r, (String.length r <= n)%nat → P (c +:+ r) (None :: chars r)) as Hn by eauto.
  assert (∀ c r, (String.length r <= n)%nat → (∀ q, chars (c +:+ q) = Some c :: chars q) →
    P (c +:+ r) (Some c :: chars r)) as Hs by eauto.
  destruct (within 0 127 a) eqn:H1; [piece|].
  destruct (within 194 223 a) eqn:H2.
  { destruct s1 as [|b s2]; [apply (Hn (String a "") ""); simpl; lia|]. simpl in Hle.
    destruct (continues b) eqn:?; [piece|apply (Hn (String a "")); simpl; lia]. }
  destruct (within 224 239 a) eqn:H3.
  { destruct s1 as [|b s2]; [apply (Hn (String a "") ""); simpl; lia|]. simpl in Hle.
    destruct (second_of_three a b) eqn:?; [|apply (Hn (String a "")); simpl; lia].
    destruct s2 as [|c s3]; [apply (Hn (String a (String b "")) ""); simpl; lia|]. simpl in Hle.
    destruct (continues c) eqn:?; [piece|apply (Hn (String a (String b ""))); simpl; lia]. }
  destruct (within 240 244 a) eqn:H4; [|apply (Hn (String a "")); lia].
  destruct s1 as [|b s2]; [apply (Hn (String a "") ""); simpl; lia|]. simpl in Hle.
  destruct (second_of_four a b) eqn:?; [|apply (Hn (String a "")); simpl; lia].
  destruct s2 as [|c s3]; [apply (Hn (String a (String b "")) ""); simpl; lia|]. simpl in Hle.
  destruct (continues c) eqn:?; [|apply (Hn (String a (String b ""))); simpl; lia].
  destruct s3 as [|d s4]; [apply (Hn (String a (String b (String c ""))) ""); simpl; lia|]. simpl in Hle.
  destruct (continues d) eqn:?; [piece|apply (Hn (String a (String b (String c "")))); simpl; lia].
Qed.

(** Valid bytes are kept as they are. *)
Lemma lossy_valid s : valid s = true → from_utf8_lossy s = s.
Proof.
  unfold valid, from_utf8_lossy.
  apply (chars_ind (λ s l, forallb (λ o, bool_decide (is_Some o)) l = true →
    concat_strings (map (default replacement) l) = s)); [done| |done].
  intros c r l _ IH _ Hv. cbn [map default from_option concat_strings foldr] in *. f_equal. by apply IH.
Qed.

(** What the lossy form gives is always a valid string. *)
Lemma lossy_is_valid s : valid (from_utf8_lossy s) = true.
Proof.
  unfold from_utf8_lossy. apply (chars_ind (λ _ l, valid (concat_strings (map (default replacement) l)) = true)).
  - done.
  - intros c r l _ IH Hc. cbn. unfold valid in *. unfold concat_strings in IH. by rewrite Hc.
  - intros c r l _ IH. exact IH.
Qed.
End Utf8.
