(* ===== verification/Net.v ===== *)
(** * Internet addresses as the standard library reads them

    Models what the code uses of [core::net]: [IpAddr] and
    [str::parse::<IpAddr>], whose parser accepts the dotted quad without leading
    zeros and the textual forms of IPv6, and nothing else. *)

From Stdlib Require Import Lia.
From stdpp Require Import pretty.
From S2P Require Import Prelude RustString.

Local Open Scope Z_scope.

(** [Ipv4Addr] as its octets and [Ipv6Addr] as its segments. *)
Record Ipv4Addr := { v4_a : Z; v4_b : Z; v4_c : Z; v4_d : Z }.
Record Ipv6Addr := { v6_segments : list Z }.

Inductive IpAddr := V4 (ip : Ipv4Addr) | V6 (ip : Ipv6Addr).

#[export] Instance Ipv4Addr_eq_dec : EqDecision Ipv4Addr.
Proof. solve_decision. Defined.
#[export] Instance Ipv6Addr_eq_dec : EqDecision Ipv6Addr.
Proof. solve_decision. Defined.
#[export] Instance IpAddr_eq_dec : EqDecision IpAddr.
Proof. solve_decision. Defined.

(** Octets are bytes; there are eight 16-bit segments. *)
Definition octet (z : Z) : Prop := 0 <= z < 256.
Definition v4_wf (ip : Ipv4Addr) : Prop := octet (v4_a ip) ∧ octet (v4_b ip) ∧ octet (v4_c ip) ∧ octet (v4_d ip).
Definition v6_wf (ip : Ipv6Addr) : Prop :=
  length (v6_segments ip) = 8%nat ∧ Forall (λ s, 0 <= s < 65536) (v6_segments ip).
Definition ip_wf (ip : IpAddr) : Prop := match ip with V4 v4 => v4_wf v4 | V6 v6 => v6_wf v6 end.

Module Net.

(** ** The parser

    A parser takes the bytes that are left and answers a value with what is left
    after it; [None] restores the position, which the caller still has. *)

Definition to_digit (radix : Z) (a : ascii) : option Z :=
  let n := Z.of_nat (nat_of_ascii a) in
  let d := if (48 <=? n) && (n <=? 57) then n - 48
           else if (97 <=? n) && (n <=? 122) then n - 87
           else if (65 <=? n) && (n <=? 90) then n - 55 else 36 in
  if d <? radix then Some d else None.

(** The loop of [read_number]: [max] is the largest value of the type. *)
Fixpoint read_digits (radix max max_digits result count : Z) (s : string) : option (Z * Z * string) :=
  match s with
  | EmptyString => Some (result, count, s)
  | String a s' =>
      match to_digit radix a with
      | None => Some (result, count, s)
      | Some d =>
          if max <? result * radix then None
          else if max <? result * radix + d then None
          else if max_digits <? count + 1 then None
          else read_digits radix max max_digits (result * radix + d) (count + 1) s'
      end
  end.

Definition read_number (radix max max_digits : Z) (allow_zero_prefix : bool) (s : string) :
    option (Z * string) :=
  let has_leading_zero := starts_with "0" s in
  '(result, count, rest) ← read_digits radix max max_digits 0 0 s;
  if count =? 0 then None
  else if negb allow_zero_prefix && has_leading_zero && (1 <? count) then None
  else Some (result, rest).

Definition read_given_char (c : ascii) (s : string) : option string := strip_prefix (String c "") s.

(** [read_separator]: the separator comes before every item but the first. *)
Definition read_separator {A} (c : ascii) (first : bool) (inner : string → option (A * string))
    (s : string) : option (A * string) :=
  if first then inner s else s' ← read_given_char c s; inner s'.

Definition read_octet : string → option (Z * string) := read_number 10 255 3 false.

Definition read_ipv4_addr (s : string) : option (Ipv4Addr * string) :=
  '(a, s) ← read_octet s;
  '(b, s) ← read_separator "." false read_octet s;
  '(c, s) ← read_separator "." false read_octet s;
  '(d, s) ← read_separator "." false read_octet s;
  Some ({| v4_a := a; v4_b := b; v4_c := c; v4_d := d |}, s).

(** Up to [left] groups of hexadecimal digits; an IPv4 address may stand for
    the last two.  The groups, whether they end in an IPv4 address, the rest. *)
Fixpoint read_groups (left : nat) (first : bool) (s : string) : list Z * bool * string :=
  match left with
  | O => ([], false, s)
  | S n =>
      match (if (0 <? n)%nat then read_separator ":" first read_ipv4_addr s else None) with
      | Some (ip, s') => ([v4_a ip * 256 + v4_b ip; v4_c ip * 256 + v4_d ip], true, s')
      | None =>
          match read_separator ":" first (read_number 16 65535 4 true) s with
          | Some (g, s') => let '(gs, ipv4, rest) := read_groups n false s' in (g :: gs, ipv4, rest)
          | None => ([], false, s)
          end
      end
  end.

Definition read_ipv6_addr (s : string) : option (Ipv6Addr * string) :=
  let '(head, head_ipv4, s) := read_groups 8 true s in
  if (length head =? 8)%nat then Some ({| v6_segments := head |}, s)
  else if head_ipv4 then None
  else
    s ← read_given_char ":" s;
    s ← read_given_char ":" s;
    let '(tail, _, s) := read_groups (7 - length head) true s in
    Some ({| v6_segments := head ++ replicate (8 - length head - length tail) 0 ++ tail |}, s).

Definition read_ip_addr (s : string) : option (IpAddr * string) :=
  match read_ipv4_addr s with
  | Some (ip, s') => Some (V4 ip, s')
  | None => '(ip, s') ← read_ipv6_addr s; Some (V6 ip, s')
  end.

(** [s.parse::<IpAddr>().ok()] *)
Definition ip_parse (s : string) : option IpAddr :=
  '(ip, rest) ← read_ip_addr s;
  if is_empty rest then Some ip else None.

(** ** What it reads is an address *)

Lemma read_digits_range radix max max_digits result count s r c rest :
  0 <= radix → 0 <= result <= max →
  read_digits radix max max_digits result count s = Some (r, c, rest) → 0 <= r <= max.
Proof.
  intros Hr. revert result count. induction s as [|a s IH]; intros result count Hb; simpl; [naive_solver|].
  destruct (to_digit radix a) as [d|] eqn:Hd; [|naive_solver].
  destruct (Z.ltb_spec max (result * radix)); [done|].
  destruct (Z.ltb_spec max (result * radix + d)); [done|].
  destruct (max_digits <? count + 1); [done|]. apply IH. split; [|done].
  assert (0 <= d); [|nia]. unfold to_digit in Hd.
  set (n := Z.of_nat (nat_of_ascii a)) in Hd.
  destruct (48 <=? n) eqn:?, (n <=? 57) eqn:?, (97 <=? n) eqn:?, (n <=? 122) eqn:?, (65 <=? n) eqn:?,
    (n <=? 90) eqn:?; simpl in Hd; case_match; simplify_eq; lia.
Qed.

Lemma read_number_range radix max max_digits z s v rest :
  0 <= radix → 0 <= max → read_number radix max max_digits z s = Some (v, rest) → 0 <= v <= max.
Proof.
  unfold read_number. intros ??. destruct (read_digits _ _ _ _ _ _) as [[[r c] s']|] eqn:Hd; [|done]. simpl.
  repeat case_match; intros; simplify_eq. eapply (read_digits_range radix max max_digits 0 0); [done|lia|eassumption].
Qed.

Lemma read_ipv4_wf s ip rest : read_ipv4_addr s = Some (ip, rest) → v4_wf ip.
Proof.
  unfold read_ipv4_addr, read_separator. intros H.
  do 4 (apply bind_Some in H as ([? ?] & ? & H)). simplify_eq.
  repeat match goal with
  | H : (_ ≫= _) = Some _ |- _ => apply bind_Some in H as (? & _ & H)
  end.
  repeat match goal with
  | H : read_octet _ = Some _ |- _ => apply read_number_range in H; [|done..]
  end. unfold v4_wf, octet. simpl. lia.
Qed.

Lemma read_groups_wf n first s gs ipv4 rest :
  read_groups n first s = (gs, ipv4, rest) →
  (length gs <= n)%nat ∧ Forall (λ g, 0 <= g < 65536) gs.
Proof.
  revert first s gs ipv4 rest. induction n as [|n IH]; intros first s gs ipv4 rest; cbn [read_groups];
    [intros; simplify_eq; by split|].
  destruct (if (0 <? n)%nat then _ else _) as [[ip s']|] eqn:H4.
  - intros [= <- <- <-]. destruct (Nat.ltb_spec 0 n); [|done].
    assert (v4_wf ip) as (?&?&?&?).
    { destruct first; simpl in H4; [by eapply read_ipv4_wf|].
      apply bind_Some in H4 as (? & _ & ?). by eapply read_ipv4_wf. }
    unfold octet in *. split; [simpl; lia|]. repeat constructor; lia.
  - destruct (read_separator ":" first (read_number 16 65535 4 true) s) as [[g s']|] eqn:Hg; [|intros [= <- <- <-]; split; [simpl; lia|done]].
    destruct (read_groups n false s') as [[gs' v4] r] eqn:Hr. intros [= <- <- <-].
    apply IH in Hr as [Hl Hf]. split; [simpl; lia|]. constructor; [|done].
    assert (0 <= g <= 65535); [|lia]. destruct first; simpl in Hg; [by eapply read_number_range in Hg|].
    apply bind_Some in Hg as (? & _ & Hg). by eapply read_number_range in Hg.
Qed.

Lemma read_ipv6_wf s ip rest : read_ipv6_addr s = Some (ip, rest) → v6_wf ip.
Proof.
  unfold read_ipv6_addr. destruct (read_groups 8 true s) as [[head v4] s1] eqn:Hh.
  apply read_groups_wf in Hh as [Hl Hf].
  destruct (Nat.eqb_spec (length head) 8); [intros; simplify_eq; by split|].
  destruct v4; [done|]. intros (s2 & _ & (s3 & _ & H)%bind_Some)%bind_Some.
  destruct (read_groups _ true s3) as [[tail v4] s4] eqn:Ht. apply read_groups_wf in Ht as [Hlt Hft].
  simplify_eq. split; simpl.
  - rewrite !length_app, length_replicate. lia.
  - apply Forall_app. split; [done|]. apply Forall_app. split; [|done]. by apply Forall_replicate.
Qed.

(** Every address that is read is well formed. *)
Lemma ip_parse_wf s ip : ip_parse s = Some ip → ip_wf ip.
Proof.
  unfold ip_parse, read_ip_addr. intros ([ip' rest] & H & Hr)%bind_Some.
  destruct (is_empty rest); [|done]. simplify_eq.
  destruct (read_ipv4_addr s) as [[v4 s']|] eqn:H4; [simplify_eq; by eapply read_ipv4_wf|].
  apply bind_Some in H as ([v6 s'] & H & ?). simplify_eq. by eapply read_ipv6_wf.
Qed.

(** ** A dotted quad has one spelling *)

Definition display_v4 (ip : Ipv4Addr) : string :=
  pretty (v4_a ip) +:+ "." +:+ pretty (v4_b ip) +:+ "." +:+ pretty (v4_c ip) +:+ "." +:+ pretty (v4_d ip).

Definition digit_char (d : Z) : ascii := ascii_of_nat (Z.to_nat (48 + d)).
Definition starts_with_digit (s : string) : bool :=
  match s with String a _ => bool_decide (is_Some (to_digit 10 a)) | EmptyString => false end.

Lemma to_digit_10 a d : to_digit 10 a = Some d → a = digit_char d ∧ 0 <= d < 10.
Proof.
  intros H. assert (∀ b : ascii, match to_digit 10 b with
    | Some d => bool_decide (b = digit_char d ∧ 0 <= d < 10) | None => true end = true) as Hall.
  { intros [[] [] [] [] [] [] [] []]; reflexivity. }
  specialize (Hall a). rewrite H in Hall. by apply bool_decide_eq_true in Hall.
Qed.

Lemma decimal_cases d : 0 <= d < 10 →
  d = 0 ∨ d = 1 ∨ d = 2 ∨ d = 3 ∨ d = 4 ∨ d = 5 ∨ d = 6 ∨ d = 7 ∨ d = 8 ∨ d = 9.
Proof. lia. Qed.

(** The decimal spellings of up to three digits, by cases. *)
Definition spelled (ds : list Z) (rest : string) : string :=
  foldr (λ d s, String (digit_char d) s) rest ds.
Definition value_of (ds : list Z) : Z := foldl (λ v d, v * 10 + d) 0 ds.

Lemma spelled_small ds rest :
  (length ds <= 3)%nat → ds ≠ [] → Forall (λ d, 0 <= d < 10) ds →
  (head ds = Some 0 → length ds = 1%nat) → spelled ds rest = pretty (value_of ds) +:+ rest.
Proof.
  intros Hl Hne Hd Hz.
  assert (∀ s : string, s = pretty (value_of ds) → spelled ds rest = s +:+ rest → 
    spelled ds rest = pretty (value_of ds) +:+ rest) as Hgo by (intros; congruence).
  assert (∀ l, spelled l rest = spelled l "" +:+ rest) as Happ.
  { intros l. induction l as [|d l IH]; [done|]. simpl. by rewrite IH. }
  apply (Hgo (spelled ds "")); [|apply Happ].
  destruct ds as [|a [|b [|c [|]]]]; simpl in *; [done| | | |lia].
  - apply list.Forall_cons in Hd as [Ha _]. apply decimal_cases in Ha.
    repeat destruct Ha as [->|Ha]; [reflexivity..|by subst].
  - apply list.Forall_cons in Hd as [Ha [Hb _]%list.Forall_cons].
    assert (a ≠ 0) by (intros ->; by specialize (Hz eq_refl)).
    apply decimal_cases in Ha, Hb.
    repeat destruct Ha as [->|Ha]; try lia; subst; repeat destruct Hb as [->|Hb]; subst; reflexivity.
  - apply list.Forall_cons in Hd as [Ha [Hb [Hc _]%list.Forall_cons]%list.Forall_cons].
    assert (a ≠ 0) by (intros ->; by specialize (Hz eq_refl)).
    apply decimal_cases in Ha, Hb, Hc.
    repeat destruct Ha as [->|Ha]; try lia; subst; repeat destruct Hb as [->|Hb]; subst;
      repeat destruct Hc as [->|Hc]; subst; vm_compute; reflexivity.
Qed.

Lemma to_digit_char d : 0 <= d < 10 → to_digit 10 (digit_char d) = Some d.
Proof. intros Hd%decimal_cases. repeat destruct Hd as [->|Hd]; [reflexivity..|by subst]. Qed.

Lemma foldl_digits_mono v ds : 0 <= v → Forall (λ d, 0 <= d < 10) ds → v <= foldl (λ v d, v * 10 + d) v ds.
Proof.
  revert v. induction ds as [|d ds IH]; intros v Hv; simpl; [done|]. intros [Hd Hds]%list.Forall_cons.
  etrans; [|apply IH; [lia|done]]. lia.
Qed.

Lemma read_digits_spelled max md v c ds rest :
  0 <= v → Forall (λ d, 0 <= d < 10) ds → starts_with_digit rest = false →
  foldl (λ v d, v * 10 + d) v ds <= max → c + Z.of_nat (length ds) <= md →
  read_digits 10 max md v c (spelled ds rest)
    = Some (foldl (λ v d, v * 10 + d) v ds, c + Z.of_nat (length ds), rest).
Proof.
  revert v c. induction ds as [|d ds IH]; intros v c Hv Hd Hr; simpl.
  - intros _ _. rewrite Z.add_0_r. destruct rest as [|a rest]; [done|]. simpl in *.
    apply bool_decide_eq_false in Hr. destruct (to_digit 10 a); [|done]. by destruct Hr.
  - apply list.Forall_cons in Hd as [Hd Hds]. intros Hmax Hmd. rewrite to_digit_char by done.
    pose proof (foldl_digits_mono (v * 10 + d) ds) as Hmono.
    rewrite (proj2 (Z.ltb_ge _ _)) by (etrans; [|apply Hmax]; etrans; [|apply Hmono; [lia|done]]; lia).
    rewrite (proj2 (Z.ltb_ge _ _)) by (etrans; [|apply Hmax]; apply Hmono; [lia|done]).
    rewrite (proj2 (Z.ltb_ge _ _)) by lia. rewrite IH by (done || lia). do 3 f_equal. lia.
Qed.

Lemma read_digits_spells max md v c s r n rest :
  read_digits 10 max md v c s = Some (r, n, rest) →
  ∃ ds, s = spelled ds rest ∧ Forall (λ d, 0 <= d < 10) ds ∧ r = foldl (λ v d, v * 10 + d) v ds ∧
    n = c + Z.of_nat (length ds) ∧ (ds = [] ∨ n <= md) ∧ starts_with_digit rest = false.
Proof.
  revert v c. induction s as [|a s IH]; intros v c; simpl.
  - intros [= <- <- <-]. exists []. rewrite Z.add_0_r. naive_solver.
  - destruct (to_digit 10 a) as [d|] eqn:Hd.
    + destruct (max <? v * 10); [done|]. destruct (max <? v * 10 + d); [done|].
      destruct (Z.ltb_spec md (c + 1)); [done|]. intros (ds & -> & Hds & -> & -> & Hn & Hr)%IH.
      apply to_digit_10 in Hd as [-> Hd]. exists (d :: ds). simpl. split; [done|]. split; [by constructor|].
      split; [done|]. split; [lia|]. split; [right|done]. destruct Hn as [->|?]; simpl; lia.
    + intros [= <- <- <-]. exists []. rewrite Z.add_0_r. split_and!; auto. simpl. by rewrite Hd.
Qed.

Definition octet_digits (v : Z) : list Z :=
  if v <? 10 then [v] else if v <? 100 then [v / 10; v mod 10] else [v / 100; (v / 10) mod 10; v mod 10].

Lemma octet_digits_ok v : octet v →
  let ds := octet_digits v in
  value_of ds = v ∧ Forall (λ d, 0 <= d < 10) ds ∧ ds ≠ [] ∧ (length ds <= 3)%nat ∧
  (head ds = Some 0 → length ds = 1%nat).
Proof.
  unfold octet, octet_digits, value_of. intros Hv.
  pose proof (Z.div_mod v 10). pose proof (Z.mod_pos_bound v 10).
  pose proof (Z.div_mod (v / 10) 10). pose proof (Z.mod_pos_bound (v / 10) 10).
  assert (v / 10 / 10 = v / 100) as Hq by (rewrite Z.div_div; done).
  destruct (Z.ltb_spec v 10); [|destruct (Z.ltb_spec v 100)]; simpl; split_and!; try done; try lia;
    repeat constructor; try lia; intros [= ?]; lia.
Qed.

(** An octet is read from its decimal form only, and takes all the digits. *)
Lemma read_octet_exact s v rest :
  read_octet s = Some (v, rest) ↔ octet v ∧ s = pretty v +:+ rest ∧ starts_with_digit rest = false.
Proof.
  split.
  - intros H. pose proof (read_number_range 10 255 3 false s v rest ltac:(done) ltac:(done) H) as Hv.
    unfold read_octet, read_number in H.
    apply bind_Some in H as ([[r n] rest'] & (ds & -> & Hds & -> & -> & Hn & Hr)%read_digits_spells & H).
    destruct (Z.eqb_spec (0 + Z.of_nat (length ds)) 0) as [|Hlen]; [done|].
    destruct (_ && (1 <? _)) eqn:Hz; [done|]. injection H as <- ->.
    split; [unfold octet in *; lia|]. split; [|done].
    apply spelled_small; [destruct Hn as [->|]; simpl in *; lia|by intros ->|done|].
    intros Hh. destruct ds as [|d ds]; [done|]. injection Hh as ->. simpl in *.
    destruct (Z.ltb_spec 1 (0 + Z.of_nat (S (length ds)))); [|lia].
    unfold starts_with in Hz. simpl in Hz. done.
  - intros (Hv & -> & Hr). destruct (octet_digits_ok v Hv) as (Hval & Hds & Hne & Hlen & Hz).
    rewrite <- Hval at 1. rewrite <- spelled_small by done. unfold read_octet, read_number.
    rewrite read_digits_spelled by (done || unfold value_of, octet in *; lia).
    change (foldl (λ v d, v * 10 + d) 0 (octet_digits v)) with (value_of (octet_digits v)). rewrite Hval. simpl.
    rewrite (proj2 (Z.eqb_neq _ _)) by (destruct (octet_digits v); simpl in *; [done|lia]).
    destruct (starts_with "0" _ && _) eqn:Hb; [|done]. apply andb_true_iff in Hb as [Hs Hl].
    exfalso. apply Z.ltb_lt in Hl. destruct (octet_digits v) as [|d ds]; [done|].
    apply list.Forall_cons in Hds as [Hd _].
    assert (d = 0) as ->; [|specialize (Hz eq_refl); simpl in *; lia].
    apply decimal_cases in Hd. repeat destruct Hd as [->|Hd]; [done..|by subst].
Qed.

Lemma read_dot_octet s v rest :
  read_separator "." false read_octet s = Some (v, rest) ↔
  octet v ∧ s = "." +:+ pretty v +:+ rest ∧ starts_with_digit rest = false.
Proof.
  unfold read_separator, read_given_char. rewrite bind_Some. setoid_rewrite read_octet_exact.
  setoid_rewrite strip_prefix_Some. naive_solver.
Qed.

Lemma read_ipv4_exact s ip rest :
  read_ipv4_addr s = Some (ip, rest) ↔
  v4_wf ip ∧ s = display_v4 ip +:+ rest ∧ starts_with_digit rest = false.
Proof.
  unfold read_ipv4_addr, display_v4, v4_wf. rewrite !string_app_assoc. split.
  - intros H. apply bind_Some in H as ([a s1] & (Ha & -> & _)%read_octet_exact & H).
    apply bind_Some in H as ([b s2] & (Hb & -> & _)%read_dot_octet & H).
    apply bind_Some in H as ([c s3] & (Hc & -> & _)%read_dot_octet & H).
    apply bind_Some in H as ([d s4] & (Hd & -> & Hr)%read_dot_octet & H). simplify_eq. simpl.
    rewrite ?string_app_assoc. done.
  - intros ((? & ? & ? & ?) & -> & Hr). rewrite ?string_app_assoc. destruct ip as [a b c d]. simpl in *.
    rewrite (proj2 (read_octet_exact _ a ("." +:+ pretty b +:+ "." +:+ pretty c +:+ "." +:+ pretty d +:+ rest)))
      by done. simpl.
    rewrite (proj2 (read_octet_exact _ b ("." +:+ pretty c +:+ "." +:+ pretty d +:+ rest))) by done. simpl.
    rewrite (proj2 (read_octet_exact _ c ("." +:+ pretty d +:+ rest))) by done. simpl.
    rewrite (proj2 (read_octet_exact _ d rest)) by done. done.
Qed.

(** An IPv4 address has exactly one spelling: [ip_parse] answers [V4 ip] for
    what [ip] is displayed as and for nothing else, no octal, hexadecimal,
    shortened or zero-padded form. *)
Theorem v4_has_one_spelling s ip : ip_parse s = Some (V4 ip) ↔ v4_wf ip ∧ s = display_v4 ip.
Proof.
  unfold ip_parse, read_ip_addr. split.
  - intros ([ip' rest] & H & Hr)%bind_Some. destruct rest; [|done]. simplify_eq/=.
    destruct (read_ipv4_addr s) as [[v4 s']|] eqn:H4.
    + simplify_eq. apply read_ipv4_exact in H4 as (? & -> & _). split; [done|]. apply string_app_nil.
    + by apply bind_Some in H as ([? ?] & _ & ?).
  - intros [Hwf ->]. rewrite (proj2 (read_ipv4_exact _ ip "")); [done|]. by rewrite string_app_nil.
Qed.

(** The textual forms of IPv6, and what is not one. *)
Example v6_forms :
  (ip_parse <$> ["::1"; "::"; "fe80::1:2"; "::ffff:10.0.0.1"; "1:2:3:4:5:6:7:8"; "1:2:3:4:5:6:7::"])
    = [Some (V6 {| v6_segments := [0; 0; 0; 0; 0; 0; 0; 1] |});
       Some (V6 {| v6_segments := [0; 0; 0; 0; 0; 0; 0; 0] |});
       Some (V6 {| v6_segments := [65152; 0; 0; 0; 0; 0; 1; 2] |});
       Some (V6 {| v6_segments := [0; 0; 0; 0; 0; 65535; 2560; 1] |});
       Some (V6 {| v6_segments := [1; 2; 3; 4; 5; 6; 7; 8] |});
       Some (V6 {| v6_segments := [1; 2; 3; 4; 5; 6; 7; 0] |})] ∧
  (ip_parse <$> ["1::2::3"; "1:2:3:4:5:6:7"; "12345::"; "::1%eth0"; "[::1]"; "2130706433"; "0177.0.0.1";
                 "127.1"; "127.0.0.1."; ""])
    = replicate 10 None.
Proof. split; reflexivity. Qed.
End Net.
