(* ===== verification/Prog.v ===== *)
(** * Effectful programs

    A program over an effect signature [E] is a tree of calls: [E T] is a call
    whose answer has type [T].  A trait object the code calls through
    ([&dyn DecisionRuntime], the atomics of a shared ring) is such a signature,
    and the code is the tree, so a theorem about every run of the tree holds
    for every implementor of the trait and for every interference of other
    tasks between two calls.  [run] executes a tree against one concrete
    implementor, so the definitions compute. *)

From S2P Require Import Prelude.

Section Prog.
Context {E : Type → Type}.

Inductive prog (A : Type) : Type :=
| Ret (a : A)
| Vis (T : Type) (e : E T) (k : T → prog A).

(** One call with the answer it got. *)
Inductive event : Type :=
| Call (T : Type) (e : E T) (r : T).

Fixpoint prog_bind {A B} (f : A → prog B) (p : prog A) : prog B :=
  match p with
  | Ret _ a => f a
  | Vis _ T e k => Vis _ T e (λ r, prog_bind f (k r))
  end.

(** [runs p t a]: the tree [p] can make the calls [t], with the answers
    recorded in [t], and finish with [a]. *)
Fixpoint runs {A} (p : prog A) (t : list event) (a : A) : Prop :=
  match p with
  | Ret _ x => t = [] ∧ a = x
  | Vis _ T e k => ∃ r t', t = Call T e r :: t' ∧ runs (k r) t' a
  end.

(** Every call [p] can make satisfies [P], whatever the answers are. *)
Fixpoint all_calls (P : ∀ T, E T → Prop) {A} (p : prog A) : Prop :=
  match p with
  | Ret _ _ => True
  | Vis _ T e k => P T e ∧ ∀ r, all_calls P (k r)
  end.

(** An implementor of the signature over a host state [W]. *)
Definition handler (W : Type) : Type := ∀ T, E T → W → T * W.

Fixpoint run {W A} (h : handler W) (p : prog A) (w : W) : A * W * list event :=
  match p with
  | Ret _ a => (a, w, [])
  | Vis _ T e k =>
      let '(r, w1) := h T e w in
      let '(a, w2, t) := run h (k r) w1 in
      (a, w2, Call T e r :: t)
  end.

Lemma runs_bind {A B} (f : A → prog B) (p : prog A) t b :
  runs (prog_bind f p) t b ↔ ∃ t1 a t2, t = t1 ++ t2 ∧ runs p t1 a ∧ runs (f a) t2 b.
Proof.
  revert t. induction p as [x|T e k IH]; intros t; simpl.
  - split.
    + intros Hf. exists [], x, t. done.
    + intros (t1 & a & t2 & -> & (-> & ->) & Hf). done.
  - split.
    + intros (r & t' & -> & (t1 & a & t2 & -> & H1 & H2)%IH).
      exists (Call T e r :: t1), a, t2. split; [done|]. split; [|done]. by exists r, t1.
    + intros (t1 & a & t2 & -> & (r & t' & -> & H1) & H2).
      exists r, (t' ++ t2). split; [done|]. apply IH. by exists t', a, t2.
Qed.

(** What a concrete implementor does is a run. *)
Lemma run_runs {W A} (h : handler W) (p : prog A) w :
  runs p (run h p w).2 (run h p w).1.1.
Proof.
  revert w. induction p as [x|T e k IH]; intros w; simpl; [done|].
  destruct (h T e w) as [r w1]. specialize (IH r w1).
  destruct (run h (k r) w1) as [[a w2] t]. simpl in *. by exists r, t.
Qed.

(** What an implementor always answers, it answers in every run. *)
Lemma run_answers {W A} (h : handler W) (P : ∀ T, E T → T → Prop) (p : prog A) w T (e : E T) r :
  (∀ T e w, P T e (h T e w).1) → Call T e r ∈ (run h p w).2 → P T e r.
Proof.
  intros HP. revert w. induction p as [x|T' e' k IH]; intros w; simpl; [by intros ?%elem_of_nil|].
  pose proof (HP T' e' w) as He. destruct (h T' e' w) as [r' w1]. specialize (IH r' w1).
  destruct (run h (k r') w1) as [[a w2] t]. simpl in *. intros [Heq|Hin]%elem_of_cons; [|by apply IH].
  change (match Call T e r with Call T e r => P T e r end). by rewrite Heq.
Qed.

Definition event_sat (P : ∀ T, E T → Prop) (ev : event) : Prop :=
  match ev with Call T e _ => P T e end.

Lemma all_calls_runs P {A} (p : prog A) t a :
  all_calls P p → runs p t a → Forall (event_sat P) t.
Proof.
  revert t. induction p as [x|T e k IH]; intros t; simpl.
  - by intros _ (-> & _).
  - intros (HP & Hk) (r & t' & -> & Hr). constructor; [done|]. by apply (IH r).
Qed.

Lemma all_calls_bind P {A B} (f : A → prog B) (p : prog A) :
  all_calls P p → (∀ a, all_calls P (f a)) → all_calls P (prog_bind f p).
Proof.
  intros Hp Hf. induction p as [x|T e k IH]; simpl in *; [done|].
  destruct Hp as [HP Hk]. split; [done|]. eauto.
Qed.

Lemma all_calls_impl (P Q : ∀ T, E T → Prop) {A} (p : prog A) :
  (∀ T e, P T e → Q T e) → all_calls P p → all_calls Q p.
Proof.
  intros HPQ. induction p as [x|T e k IH]; simpl; [done|].
  intros [HP Hk]. split; [by apply HPQ|]. eauto.
Qed.

(** A monitor [step] over the calls, from the state [s]: [wp] is what the
    program must establish for [Q] of the last state and the result. *)
Fixpoint wp {S A} (step : ∀ T, E T → T → S → S) (Q : S → A → Prop) (s : S) (p : prog A) : Prop :=
  match p with
  | Ret _ a => Q s a
  | Vis _ T e k => ∀ r, wp step Q (step T e r s) (k r)
  end.

Definition monitor {S} (step : ∀ T, E T → T → S → S) (s : S) (t : list event) : S :=
  fold_left (λ s ev, match ev with Call T e r => step T e r s end) t s.

Lemma wp_runs {S A} (step : ∀ T, E T → T → S → S) (Q : S → A → Prop) s p t a :
  wp step Q s p → runs p t a → Q (monitor step s t) a.
Proof.
  revert s t. induction p as [x|T e k IH]; intros s t; simpl.
  - by intros HQ (-> & ->).
  - intros HQ (r & t' & -> & Hr). exact (IH r _ _ (HQ r) Hr).
Qed.

Lemma wp_bind {S A B} (step : ∀ T, E T → T → S → S) (Q : S → B → Prop) s (f : A → prog B) p :
  wp step (λ s a, wp step Q s (f a)) s p → wp step Q s (prog_bind f p).
Proof. revert s. induction p as [x|T e k IH]; intros s; simpl; [done|]. eauto. Qed.

(** A protocol for the calls: [rule e s post] says that a program in state [s]
    may make the call [e], and that [post] holds of every answer it can get and
    the state after it.  [safe] is what a program that follows the protocol
    establishes. *)
Definition protocol (S : Type) : Type := ∀ T, E T → S → (T → S → Prop) → Prop.

Definition monotone {S} (rule : protocol S) : Prop :=
  ∀ T (e : E T) s (P Q : T → S → Prop), (∀ r s', P r s' → Q r s') → rule T e s P → rule T e s Q.

Fixpoint safe {S A} (rule : protocol S) (Q : S → A → Prop) (s : S) (p : prog A) : Prop :=
  match p with
  | Ret _ a => Q s a
  | Vis _ T e k => rule T e s (λ r s', safe rule Q s' (k r))
  end.

Lemma safe_bind {S A B} (rule : protocol S) (Q : S → B → Prop) s (f : A → prog B) p :
  monotone rule →
  safe rule (λ s a, safe rule Q s (f a)) s p → safe rule Q s (prog_bind f p).
Proof.
  intros Hm. revert s. induction p as [x|T e k IH]; intros s; simpl; [done|].
  apply Hm. eauto.
Qed.

Lemma safe_impl {S A} (rule : protocol S) (P Q : S → A → Prop) s p :
  monotone rule → (∀ s a, P s a → Q s a) → safe rule P s p → safe rule Q s p.
Proof.
  intros Hm HPQ. revert s. induction p as [x|T e k IH]; intros s; simpl; [auto|].
  apply Hm. eauto.
Qed.

(** [partial p t]: the calls [t] are the first ones of a run of [p]. *)
Fixpoint partial {A} (p : prog A) (t : list event) : Prop :=
  match p with
  | Ret _ _ => t = []
  | Vis _ T e k => t = [] ∨ ∃ r t', t = Call T e r :: t' ∧ partial (k r) t'
  end.

Lemma runs_partial {A} (p : prog A) t a : runs p t a → partial p t.
Proof.
  revert t. induction p as [x|T e k IH]; intros t; simpl; [by intros [-> _]|].
  intros (r & t' & -> & Hr). right. exists r, t'. split; [done|]. by apply IH.
Qed.

(** The protocol in which the state is the trace so far and a call must be
    permitted by it. *)
Definition checked (C : list event → ∀ T, E T → Prop) : protocol (list event) :=
  λ T e s post, C s T e ∧ ∀ r, post r (s ++ [Call T e r]).

Lemma checked_monotone C : monotone (checked C).
Proof. intros T e s P Q HPQ [HC HP]. split; [done|]. auto. Qed.

Lemma checked_runs C {A} (Q : list event → A → Prop) p s t a :
  safe (checked C) Q s p → runs p t a → Q (s ++ t) a.
Proof.
  revert s t. induction p as [x|T e k IH]; intros s t; simpl.
  - intros HQ [-> ->]. by rewrite app_nil_r.
  - intros [_ Hk] (r & t' & -> & Hr). specialize (IH r _ _ (Hk r) Hr).
    by rewrite <- app_assoc in IH.
Qed.

(** Every call of a run, finished or not, was permitted when it was made. *)
Lemma checked_partial C {A} (Q : list event → A → Prop) p s t1 T e r t2 :
  safe (checked C) Q s p → partial p (t1 ++ Call T e r :: t2) → C (s ++ t1) T e.
Proof.
  revert s t1. induction p as [x|T' e' k IH]; intros s t1; simpl.
  - by destruct t1.
  - intros [HC Hk] [?|(r' & t' & Heq & Hr)]; [by destruct t1|].
    destruct t1 as [|ev t1]; simpl in Heq.
    + pose proof (inj Some _ _ (f_equal head Heq) : Call T e r = Call T' e' r') as Hc.
      rewrite app_nil_r. change (event_sat (C s) (Call T e r)). rewrite Hc. exact HC.
    + pose proof (f_equal tail Heq) as Ht. simpl in Ht. subst t'.
      pose proof (inj Some _ _ (f_equal head Heq) : ev = Call T' e' r') as ->.
      specialize (IH r' _ t1 (Hk r') Hr). by rewrite <- app_assoc in IH.
Qed.

(** A program whose calls are permitted in any state adds one of its runs. *)
Lemma all_calls_checked_runs (P : ∀ T, E T → Prop) C {A} (p : prog A) s :
  (∀ s T e, P T e → C s T e) → all_calls P p →
  safe (checked C) (λ s' a, ∃ t, s' = s ++ t ∧ runs p t a) s p.
Proof.
  intros HPC. assert (∀ t0 (Q : list event → A → Prop), all_calls P p →
    (∀ t a, runs p t a → Q (s ++ t0 ++ t) a) → safe (checked C) Q (s ++ t0) p) as H.
  { induction p as [x|T e k IH]; intros t0 Q; simpl.
    - intros _ HQ. specialize (HQ [] x). rewrite app_nil_r in HQ. auto.
    - intros [He Hk] HQ. split; [by apply HPC|]. intros r. rewrite <- app_assoc. apply IH; [done|].
      intros t a Hr. rewrite <- app_assoc. apply HQ. eauto. }
  intros Hp. specialize (H []). rewrite app_nil_r in H. apply H; [done|]. eauto.
Qed.

(** A program whose calls are permitted in any state keeps the trace. *)
Lemma all_calls_checked (P : ∀ T, E T → Prop) C {A} (p : prog A) s :
  (∀ s T e, P T e → C s T e) → all_calls P p → safe (checked C) (λ t _, s ⊆ t) s p.
Proof.
  intros HPC. assert (∀ s0, s ⊆ s0 → all_calls P p → safe (checked C) (λ t _, s ⊆ t) s0 p) as H;
    [|by apply H].
  induction p as [x|T e k IH]; intros s0 Hs; simpl; [done|]. intros [He Hk].
  split; [by apply HPC|]. intros r. apply IH; [set_solver|done].
Qed.
End Prog.
Arguments prog : clear implicits.
Arguments event : clear implicits.
Arguments Ret {E A} a.
Arguments Vis {E A T} e k.
Arguments Call {E T} e r.
Arguments handler : clear implicits.

#[export] Instance prog_mret E : MRet (prog E) := λ A a, Ret a.
#[export] Instance prog_mbind E : MBind (prog E) := λ A B f p, prog_bind f p.

Lemma safe_mbind {E : Type → Type} {S A B} (rule : protocol (E := E) S) (P : S → A → Prop)
    (Q : S → B → Prop) s (f : A → prog E B) (p : prog E A) :
  monotone rule → safe rule P s p → (∀ s' a, P s' a → safe rule Q s' (f a)) →
  safe rule Q s (p ≫= f).
Proof.
  intros Hm Hp Hf. apply safe_bind; [done|]. by eapply safe_impl.
Qed.

(** One call, its answer returned. *)
Definition trigger {E : Type → Type} {T} (e : E T) : prog E T := Vis e (λ r, Ret r).

(** [p?]: an [Err] returns early. *)
Definition try_bind {E A B X} (f : A → prog E (Result B X)) (p : prog E (Result A X)) :
    prog E (Result B X) :=
  r ← p; match r with Ok a => f a | Err e => mret (Err e) end.

Notation "x ←? p ; q" := (try_bind (λ x, q) p)
  (at level 20, p at level 100, q at level 200, format "x  ←?  p ;  '/' q").
Notation "' x ←? p ; q" := (try_bind (λ x, q) p)
  (at level 20, x pattern, p at level 100, q at level 200).

Lemma runs_trigger {E : Type → Type} {T} (e : E T) t r :
  runs (trigger e) t r ↔ t = [Call e r].
Proof.
  simpl. split.
  - intros (x & t' & -> & (-> & ->)). done.
  - intros ->. by exists r, [].
Qed.

Lemma runs_try_bind {E A B X} (f : A → prog E (Result B X)) (p : prog E (Result A X)) t b :
  runs (try_bind f p) t b ↔
  (∃ t1 a t2, t = t1 ++ t2 ∧ runs p t1 (Ok a) ∧ runs (f a) t2 b) ∨
  (∃ e, b = Err e ∧ runs p t (Err e)).
Proof.
  unfold try_bind, mbind, prog_mbind. rewrite runs_bind. split.
  - intros (t1 & [a|e] & t2 & -> & H1 & H2); [left; eauto 10|].
    destruct H2 as [-> ->]. right. rewrite app_nil_r. eauto.
  - intros [(t1 & a & t2 & -> & H1 & H2)|(e & -> & H1)]; [eauto 10|].
    exists t, (Err e), []. rewrite app_nil_r. done.
Qed.

(** ** Implementing a signature by another *)

(** [interp h p]: [p] with every call replaced by the program [h] gives. *)
Fixpoint interp {E F : Type → Type} {A} (h : ∀ T, E T → prog F T) (p : prog E A) : prog F A :=
  match p with
  | Ret a => Ret a
  | Vis e k => prog_bind (λ r, interp h (k r)) (h _ e)
  end.

(** The trace [tr] of the implementation is what the call [ev] did. *)
Definition implements {E F : Type → Type} (h : ∀ T, E T → prog F T) (ev : event E)
    (tr : list (event F)) : Prop :=
  match ev with Call e r => runs (h _ e) tr r end.

(** A run of the implementation is a run of the program, call by call. *)
Lemma interp_runs {E F : Type → Type} {A} (h : ∀ T, E T → prog F T) (p : prog E A) t a :
  runs (interp h p) t a →
  ∃ t' ts, runs p t' a ∧ t = concat ts ∧ Forall2 (implements h) t' ts.
Proof.
  revert t. induction p as [x|T e k IH]; intros t; simpl.
  - intros [-> ->]. exists [], []. repeat split; constructor.
  - intros (t1 & r & t2 & -> & H1 & (t' & ts & Hr & -> & Hf)%IH)%runs_bind.
    exists (Call e r :: t'), (t1 :: ts). split; [by exists r, t'|]. split; [done|].
    by constructor.
Qed.

(** A call of the program was implemented inside the trace. *)
Lemma implements_in {E F : Type → Type} (h : ∀ T, E T → prog F T) t' ts ev :
  Forall2 (implements h) t' ts → ev ∈ t' → ∃ tr, implements h ev tr ∧ tr ⊆ concat ts.
Proof.
  induction 1 as [|ev' tr t' ts Hi _ IH]; [by intros ?%elem_of_nil|].
  intros [->|Hin]%elem_of_cons.
  - exists tr. split; [done|]. simpl. set_solver.
  - destruct (IH Hin) as (tr' & ? & ?). exists tr'. split; [done|]. simpl. set_solver.
Qed.

Lemma implements_all {E F : Type → Type} (h : ∀ T, E T → prog F T) (P : ∀ T, E T → Prop)
    (Q : ∀ T, F T → Prop) t' ts :
  (∀ T (e : E T), P T e → all_calls Q (h T e)) →
  Forall2 (implements h) t' ts → Forall (event_sat P) t' → Forall (event_sat Q) (concat ts).
Proof.
  intros Hpq. induction 1 as [|[T e r] tr t' ts Hi _ IH]; simpl; [done|].
  intros [He Ht']%list.Forall_cons. apply Forall_app. split; [|by apply IH].
  eapply all_calls_runs; [by apply Hpq|exact Hi].
Qed.

(** ** Programs on a state that takes steps

    [step e r s s'] says that the call [e] may answer [r] and leave [s'].  A
    program executes to its end, or stops in the middle. *)
Section Stepping.
Context {E : Type → Type} {S : Type} (step : ∀ T, E T → T → S → S → Prop).

Fixpoint executes {A} (p : prog E A) (s : S) (a : A) (s' : S) : Prop :=
  match p with
  | Ret x => a = x ∧ s' = s
  | Vis e k => ∃ r s1, step _ e r s s1 ∧ executes (k r) s1 a s'
  end.

Fixpoint stops {A} (p : prog E A) (s s' : S) : Prop :=
  match p with
  | Ret _ => s' = s
  | Vis e k => s' = s ∨ ∃ r s1, step _ e r s s1 ∧ stops (k r) s1 s'
  end.

(** The protocol in which [I] holds whenever a call is made. *)
Definition stepping (I : S → Prop) : protocol (E := E) S :=
  λ T e s post, I s ∧ ∀ r s', step T e r s s' → post r s'.

Lemma stepping_monotone I : monotone (stepping I).
Proof. intros T e s P Q HPQ [HI HP]. split; [done|]. eauto. Qed.

Lemma stepping_executes I {A} (Q : S → A → Prop) p s a s' :
  safe (stepping I) Q s p → executes p s a s' → Q s' a.
Proof.
  revert s. induction p as [x|T e k IH]; intros s; simpl.
  - by intros HQ [-> ->].
  - intros [_ Hk] (r & s1 & Hs & Hx). eauto.
Qed.

Lemma stepping_stops I {A} (Q : S → A → Prop) p s s' :
  safe (stepping I) Q s p → (∀ s a, Q s a → I s) → stops p s s' → I s'.
Proof.
  intros Hp HQI. revert s Hp. induction p as [x|T e k IH]; intros s; simpl.
  - intros HQ ->. eauto.
  - intros [HI Hk] [->|(r & s1 & Hs & Hx)]; [done|]. eauto.
Qed.
(** A handler that takes allowed steps executes. *)
Lemma run_executes (h : handler E S) {A} (p : prog E A) s :
  (∀ T e s, step T e (h T e s).1 s (h T e s).2) →
  executes p s (run h p s).1.1 (run h p s).1.2.
Proof.
  intros Hh. revert s. induction p as [x|T e k IH]; intros s; simpl; [done|].
  pose proof (Hh T e s) as He. destruct (h T e s) as [r s1]. specialize (IH r s1).
  destruct (run h (k r) s1) as [[a s2] t]. simpl in *. eauto.
Qed.
End Stepping.

(** ** Symbolic execution of a run in the context *)

Ltac prog_red H :=
  cbv [mret prog_mret mbind prog_mbind trigger try_bind] in H; cbn [runs prog_bind] in H.

(** One step of the run [H]; leaves [H] about what is left to run. *)
Ltac prog_step H :=
  prog_red H;
  lazymatch type of H with
  | runs (prog_bind _ _) _ _ =>
      let t1 := fresh "t" in let a := fresh "a" in let t2 := fresh "t" in let H1 := fresh H in
      apply runs_bind in H; destruct H as (t1 & a & t2 & -> & H1 & H)
  | ∃ _ _, _ = Call ?e _ :: _ ∧ _ =>
      let r := fresh "r" in let t := fresh "t" in
      destruct H as (r & t & -> & H)
  | _ = [] ∧ _ = _ => destruct H as [-> H]; try discriminate H
  | runs (if ?b then _ else _) _ _ => let Hb := fresh "Hb" in destruct b eqn:Hb
  | runs (match ?m with _ => _ end) _ _ => let Hm := fresh "Hm" in destruct m eqn:Hm
  | runs (let '(_, _) := ?m in _) _ _ => let Hm := fresh "Hm" in destruct m eqn:Hm
  end.

(** All the steps of the run [H], every branch. *)
Ltac prog_run H := repeat prog_step H.

(** A call is in a trace that is spelled out. *)
Ltac in_trace :=
  lazymatch goal with
  | |- _ ∈ _ :: _ => apply elem_of_cons; first [ left; reflexivity | right; in_trace ]
  | |- _ ∈ _ ++ _ => apply elem_of_app; first [ left; in_trace | right; in_trace ]
  | |- _ => assumption
  end.

(** The calls of a program, on every branch. *)
Ltac calls :=
  repeat match goal with
  | |- all_calls _ (prog_bind _ _) => apply all_calls_bind; [|intros ?]
  | |- all_calls _ (try_bind _ _) => unfold try_bind
  | |- all_calls _ (mbind _ _) => unfold mbind, prog_mbind
  | |- all_calls _ (trigger _) => unfold trigger
  | |- all_calls _ (Vis _ _) => cbn [all_calls]; split; [|intros ?]
  | |- all_calls _ (mret _) => exact I
  | |- all_calls _ (Ret _) => exact I
  | |- all_calls _ (let '(_, _) := ?x in _) => destruct x eqn:?
  | |- all_calls _ (if ?b then _ else _) => destruct b eqn:?
  | |- all_calls _ (match ?x with _ => _ end) => destruct x eqn:?
  | |- True => exact I
  end.
