(* ===== verification/Lru.v ===== *)
(** * The bounded LRU of the gateway's caches

    [CanonicalHashCache], [SkillActionCache], [McpServerCache], [McpToolCache]
    and [ReplayNonceCache] all hold a [HashMap] and a recency queue, least
    recent first, and share the code of [touch], [get], [insert] and
    [invalidate]; this file is that code once, for any value type.  The
    abstract cache is the recency list: the key-value pairs by last use, cut
    to the capacity.  [get], [insert] and [invalidate] implement it. *)

From S2P Require Import Prelude RustString.

Record lru (V : Type) := { lru_map : gmap string V; lru_order : list string }.
Arguments lru_map {V} _.
Arguments lru_order {V} _.
Arguments Build_lru {V} _ _.

Module Lru.
Section Lru.
Context {V : Type}.
Implicit Types (c : lru V) (key : string).

Definition empty : lru V := Build_lru ∅ [].

(** [order.iter().position(|k| k == key)] and [order.remove(pos)]: the first
    occurrence goes. *)
Fixpoint remove_first (key : string) (order : list string) : list string :=
  match order with
  | [] => []
  | k :: order => if k == key then order else k :: remove_first key order
  end.

Definition touch (order : list string) (key : string) : list string :=
  remove_first key order ++ [key].

(** [while map.len() > capacity { pop_front; remove }] *)
Fixpoint evict (capacity : nat) (m : gmap string V) (order : list string) : lru V :=
  if (capacity <? size m)%nat then
    match order with
    | [] => Build_lru m []
    | k :: order => evict capacity (delete k m) order
    end
  else Build_lru m order.

Definition get (capacity : nat) (c : lru V) (key : string) : option V * lru V :=
  if (capacity =? 0)%nat then (None, c)
  else
    match lru_map c !! key with
    | Some v => (Some v, Build_lru (lru_map c) (touch (lru_order c) key))
    | None => (None, c)
    end.

Definition insert (capacity : nat) (c : lru V) (key : string) (value : V) : lru V :=
  if (capacity =? 0)%nat then c
  else evict capacity (<[key := value]> (lru_map c)) (touch (lru_order c) key).

Definition invalidate (c : lru V) (key : string) : lru V :=
  Build_lru (delete key (lru_map c)) (remove_first key (lru_order c)).

(** [retain(|k| !k.starts_with(prefix))] on both. *)
Definition invalidate_prefix (c : lru V) (prefix : string) : lru V :=
  Build_lru (filter (λ kv, starts_with prefix kv.1 = false) (lru_map c))
            (filter (λ k, starts_with prefix k = false) (lru_order c)).

(** ** Invariant *)

(** Every cached key is queued once, and nothing else is queued. *)
Definition queued (c : lru V) : Prop :=
  NoDup (lru_order c) ∧ ∀ k, k ∈ lru_order c ↔ is_Some (lru_map c !! k).

Definition wf (capacity : nat) (c : lru V) : Prop :=
  queued c ∧ (size (lru_map c) ≤ capacity)%nat.

(** ** The recency list *)

Definition entries (c : lru V) : list (string * V) :=
  omap (λ k, (k,.) <$> lru_map c !! k) (lru_order c).

Definition without {A} (key : string) (l : list (string * A)) : list (string * A) :=
  filter (λ kv, kv.1 ≠ key) l.

(** The last [n] of a list. *)
Definition lastn {A} (n : nat) (l : list A) : list A := drop (length l - n) l.

(** ** Lemmas *)

Lemma filter_keep {A} (P : A → Prop) `{∀ x, Decision (P x)} (l : list A) :
  (∀ x, x ∈ l → P x) → filter P l = l.
Proof.
  induction l as [|x l IH]; intros HP; [done|].
  rewrite list.filter_cons_True by (apply HP; by left). f_equal. apply IH. intros y Hy. apply HP. by right.
Qed.

Lemma remove_first_filter key order :
  NoDup order → remove_first key order = filter (λ k, k ≠ key) order.
Proof.
  induction 1 as [|k order Hk _ IH]; [done|]. simpl. case_str.
  - rewrite list.filter_cons_False by naive_solver. symmetry. apply filter_keep. by intros x Hx ->.
  - rewrite list.filter_cons_True by done. by rewrite IH.
Qed.

Lemma elem_of_remove_first key order k :
  NoDup order → k ∈ remove_first key order ↔ k ∈ order ∧ k ≠ key.
Proof. intros H. rewrite remove_first_filter by done. rewrite list_elem_of_filter. naive_solver. Qed.

Lemma NoDup_remove_first key order : NoDup order → NoDup (remove_first key order).
Proof. intros H. rewrite remove_first_filter by done. by apply list.NoDup_filter. Qed.

Lemma NoDup_touch key order : NoDup order → NoDup (touch order key).
Proof.
  intros H. unfold touch. apply list.NoDup_app. split; [by apply NoDup_remove_first|].
  split; [|apply list.NoDup_singleton]. intros k Hk. rewrite elem_of_remove_first in Hk by done.
  rewrite list_elem_of_singleton. naive_solver.
Qed.

Lemma elem_of_touch key order k : NoDup order → k ∈ touch order key ↔ k = key ∨ k ∈ order.
Proof.
  intros H. unfold touch. rewrite elem_of_app, elem_of_remove_first, list_elem_of_singleton by done.
  destruct (decide (k = key)); naive_solver.
Qed.

Lemma queued_length c : queued c → length (lru_order c) = size (lru_map c).
Proof.
  intros [Hnd Hk]. rewrite <- size_dom, <- (size_list_to_set (C := gset string)) by done.
  f_equal. apply set_eq. intros k. rewrite elem_of_list_to_set, Hk. symmetry. apply elem_of_dom.
Qed.

Lemma omap_lookup_ext (m m' : gmap string V) (order : list string) :
  (∀ k, k ∈ order → m !! k = m' !! k) →
  omap (λ k, (k,.) <$> m !! k) order = omap (λ k, (k,.) <$> m' !! k) order.
Proof.
  induction order as [|k order IH]; intros H; [done|]. csimpl.
  rewrite H by (by left). rewrite IH by (intros; apply H; by right). done.
Qed.

Lemma entries_length c : queued c → length (entries c) = length (lru_order c).
Proof.
  intros [_ Hk]. unfold entries. destruct c as [m order]. simpl in *.
  assert (∀ k, k ∈ order → is_Some (m !! k)) as H by naive_solver. clear Hk.
  induction order as [|k order IH]; [done|]. csimpl.
  destruct (H k) as [v ->]; [by left|]. csimpl. f_equal. apply IH. intros; apply H; by right.
Qed.

Lemma filter_entries (P : string → Prop) `{∀ k, Decision (P k)} (m m' : gmap string V)
    (order : list string) :
  (∀ k, k ∈ order → P k → m' !! k = m !! k) →
  entries (Build_lru m' (filter P order)) = filter (λ kv, P kv.1) (entries (Build_lru m order)).
Proof.
  unfold entries. csimpl. intros Hm. induction order as [|k order IH]; [done|].
  specialize (IH ltac:(intros; apply Hm; [by right|done])). csimpl. destruct (decide (P k)) as [Hp|Hp].
  - rewrite list.filter_cons_True by done. csimpl. rewrite Hm by (done || by left).
    destruct (m !! k) as [v|]; simpl; rewrite ?list.filter_cons_True by done; rewrite IH; done.
  - rewrite list.filter_cons_False by done. rewrite IH.
    destruct (m !! k) as [v|]; simpl; rewrite ?list.filter_cons_False by done; done.
Qed.

Lemma evict_spec capacity m order :
  queued (Build_lru m order) →
  wf capacity (evict capacity m order) ∧
  lru_order (evict capacity m order) = lastn capacity order ∧
  entries (evict capacity m order) = lastn capacity (entries (Build_lru m order)).
Proof.
  revert m. induction order as [|k order IH]; intros m Hq.
  - pose proof (queued_length _ Hq) as Hlen. simpl in *.
    destruct (capacity <? size m)%nat eqn:Hs; [apply Nat.ltb_lt in Hs; lia|].
    split; [split; [done|simpl; lia]|]. done.
  - pose proof (queued_length _ Hq) as Hlen. csimpl.
    destruct (capacity <? size m)%nat eqn:Hs.
    + apply Nat.ltb_lt in Hs. destruct Hq as [Hnd Hk]. simpl in *.
      apply list.NoDup_cons in Hnd as [Hnk Hnd].
      assert (is_Some (m !! k)) as [v Hv] by (apply Hk; by left).
      assert (queued (Build_lru (delete k m) order)) as Hq'.
      { split; [done|]. intros k'. csimpl. destruct (decide (k' = k)) as [->|Hne].
        - rewrite lookup_delete_eq. split; [done|by intros [? ?]].
        - rewrite lookup_delete_ne by done. rewrite <- Hk, elem_of_cons. naive_solver. }
      destruct (IH (delete k m) Hq') as (Hwf & Hord & Hent).
      split; [done|]. split.
      * rewrite Hord. unfold lastn. simpl length.
        replace (S (length order) - capacity)%nat with (S (length order - capacity)) by lia. done.
      * rewrite Hent. unfold entries, lastn. csimpl. rewrite Hv. simpl length.
        rewrite (omap_lookup_ext (delete k m) m) by
          (intros k' Hk'; apply lookup_delete_ne; by intros ->).
        assert (length (omap (λ k, (k,.) <$> m !! k) order) = length order) as He.
        { rewrite <- (omap_lookup_ext (delete k m) m) by
            (intros k' Hk'; apply lookup_delete_ne; by intros ->). apply (entries_length _ Hq'). }
        rewrite He. replace (S (length order) - capacity)%nat with (S (length order - capacity)) by lia.
        done.
    + apply Nat.ltb_ge in Hs. split; [split; [done|simpl; lia]|].
      unfold lastn. rewrite (entries_length _ Hq). simpl in *.
      replace (S (length order) - capacity)%nat with 0%nat by lia. done.
Qed.

Lemma queued_touch m order key v :
  queued (Build_lru m order) → queued (Build_lru (<[key := v]> m) (touch order key)).
Proof.
  intros [Hnd Hk]. simpl in *. split; [by apply NoDup_touch|]. intros k. simpl.
  rewrite elem_of_touch, Hk by done. destruct (decide (k = key)) as [->|Hne].
  - rewrite lookup_insert_eq. naive_solver.
  - rewrite lookup_insert_ne by done. naive_solver.
Qed.

Lemma entries_touch m order key v :
  queued (Build_lru m order) →
  entries (Build_lru (<[key := v]> m) (touch order key)) =
  without key (entries (Build_lru m order)) ++ [(key, v)].
Proof.
  intros [Hnd Hk]. simpl in *. unfold touch. rewrite remove_first_filter by done.
  assert (∀ k, k ∈ order → k ≠ key → <[key := v]> m !! k = m !! k) as Hm
    by (intros k _ Hne; by apply lookup_insert_ne).
  pose proof (filter_entries (λ k, k ≠ key) m (<[key := v]> m) order Hm) as E.
  unfold entries in E |- *. cbn [lru_order lru_map] in *. rewrite omap_app. f_equal; [exact E|].
  csimpl. by rewrite lookup_insert_eq.
Qed.

Lemma elem_of_entries c k v :
  queued c → (k, v) ∈ entries c ↔ lru_map c !! k = Some v.
Proof.
  intros [_ Hk]. unfold entries. rewrite list_elem_of_omap. split.
  - intros (k' & _ & Heq). destruct (lru_map c !! k') as [v'|] eqn:Hv; simplify_eq/=. done.
  - intros Hv. exists k. rewrite Hk, Hv. naive_solver.
Qed.

(** ** The operations implement the recency list *)

Lemma insert_refines capacity c key v :
  wf capacity c → (0 < capacity)%nat →
  wf capacity (insert capacity c key v) ∧
  entries (insert capacity c key v) = lastn capacity (without key (entries c) ++ [(key, v)]).
Proof.
  intros [Hq _] Hc. unfold insert. destruct (capacity =? 0)%nat eqn:E; [apply Nat.eqb_eq in E; lia|].
  destruct c as [m order]. cbn [lru_map lru_order].
  destruct (evict_spec capacity _ _ (queued_touch m order key v Hq)) as (Hwf & _ & Hent).
  split; [done|]. rewrite Hent. f_equal. by apply entries_touch.
Qed.

Lemma get_refines capacity c key :
  wf capacity c → (0 < capacity)%nat →
  wf capacity (get capacity c key).2 ∧ (get capacity c key).1 = lru_map c !! key ∧
  entries (get capacity c key).2 =
    match lru_map c !! key with
    | Some v => without key (entries c) ++ [(key, v)]
    | None => entries c
    end.
Proof.
  intros [Hq Hs] Hc. unfold get. destruct (capacity =? 0)%nat eqn:E; [apply Nat.eqb_eq in E; lia|].
  destruct c as [m order]. cbn [lru_map lru_order] in *.
  destruct (m !! key) as [v|] eqn:Hv; [|done]. cbn [fst snd].
  pose proof (queued_touch m order key v Hq) as Hq'.
  pose proof (entries_touch m order key v Hq) as He. rewrite insert_id in Hq', He by done.
  split; [by split|]. done.
Qed.

Lemma invalidate_refines capacity c key :
  wf capacity c →
  wf capacity (invalidate c key) ∧ entries (invalidate c key) = without key (entries c).
Proof.
  intros [[Hnd Hk] Hs]. destruct c as [m order]. unfold invalidate. cbn [lru_map lru_order] in *.
  split; [split; [split|]|].
  - by apply NoDup_remove_first.
  - intros k. cbn [lru_map lru_order]. rewrite elem_of_remove_first, Hk by done.
    destruct (decide (k = key)) as [->|Hne].
    + rewrite lookup_delete_eq. split; [naive_solver|by intros [? ?]].
    + rewrite lookup_delete_ne by done. naive_solver.
  - cbn [lru_map]. rewrite map_size_delete. destruct (m !! key); simpl; lia.
  - rewrite remove_first_filter by done. unfold without.
    refine (filter_entries (λ k, k ≠ key) m (delete key m) order _).
    intros k _ Hne. by apply lookup_delete_ne.
Qed.

Lemma invalidate_prefix_refines capacity c prefix :
  wf capacity c →
  wf capacity (invalidate_prefix c prefix) ∧
  entries (invalidate_prefix c prefix) = filter (λ kv, starts_with prefix kv.1 = false) (entries c).
Proof.
  intros [[Hnd Hk] Hs]. destruct c as [m order]. unfold invalidate_prefix. cbn [lru_map lru_order] in *.
  split; [split; [split|]|].
  - by apply list.NoDup_filter.
  - intros k. cbn [lru_map lru_order]. rewrite list_elem_of_filter, Hk. split.
    + intros [Hp [v Hv]]. exists v. by apply map_lookup_filter_Some.
    + intros [v [Hv Hp]%map_lookup_filter_Some]. split; [done|by exists v].
  - cbn [lru_map]. etrans; [|exact Hs]. rewrite <- !size_dom. apply subseteq_size, dom_filter_subseteq.
  - refine (filter_entries (λ k, starts_with prefix k = false) m _ order _). intros k _ Hp.
    destruct (m !! k) as [v|] eqn:Hv.
    + by apply map_lookup_filter_Some.
    + apply map_lookup_filter_None. by left.
Qed.

Lemma empty_wf capacity : wf capacity empty.
Proof.
  repeat split; simpl.
  - constructor.
  - by intros ?%elem_of_nil.
  - rewrite lookup_empty. by intros [? ?].
  - rewrite map_size_empty. lia.
Qed.

(** Eviction only forgets. *)
Lemma evict_subseteq capacity m order : lru_map (evict capacity m order) ⊆ m.
Proof.
  revert m. induction order as [|k order IH]; intros m; simpl;
    destruct (capacity <? size m)%nat; simpl; try done.
  etrans; [apply IH|]. apply delete_subseteq.
Qed.

(** ** The last elements of a list *)

Lemma lastn_all {A} n (l : list A) : (length l ≤ n)%nat → lastn n l = l.
Proof. intros H. unfold lastn. replace (length l - n)%nat with 0%nat by lia. done. Qed.

Lemma lastn_app_ge {A} n (l k : list A) : (n ≤ length k)%nat → lastn n (l ++ k) = lastn n k.
Proof.
  intros H. unfold lastn. rewrite length_app, drop_app_ge by lia. f_equal. lia.
Qed.

Lemma lastn_elem {A} n (l : list A) x : (0 < n)%nat → x ∈ lastn n (l ++ [x]).
Proof.
  intros H. unfold lastn. rewrite length_app. simpl. rewrite drop_app_le by lia.
  apply elem_of_app. right. by left.
Qed.

(** A list is what is cut off and the last [n]; nothing is cut off unless
    [n] remain. *)
Lemma lastn_split {A} n (l : list A) :
  ∃ l', l = l' ++ lastn n l ∧ (length (lastn n l) ≤ n)%nat ∧ (l' = [] ∨ length (lastn n l) = n).
Proof.
  exists (take (length l - n) l). unfold lastn. rewrite take_drop, length_drop.
  split; [done|]. split; [lia|]. destruct (decide (length l ≤ n)%nat).
  - left. by replace (length l - n)%nat with 0%nat by lia.
  - right. lia.
Qed.

Lemma filter_snoc_length (B : list string) k :
  NoDup B → k ∈ B → length (filter (λ x, x ≠ k) B ++ [k]) = length B.
Proof.
  intros Hnd Hin. rewrite <- remove_first_filter by done. rewrite length_app. simpl. clear Hnd.
  induction B as [|x B IH]; [by apply elem_of_nil in Hin|]. simpl. case_str; [simpl; lia|].
  apply elem_of_cons in Hin as [->|Hin]; [done|]. simpl. specialize (IH Hin). lia.
Qed.

(** Using a key in the last [n] commutes with cutting to the last [n]. *)
Lemma lastn_touch_hit n (R : list string) k :
  NoDup R → k ∈ lastn n R →
  filter (λ x, x ≠ k) (lastn n R) ++ [k] = lastn n (filter (λ x, x ≠ k) R ++ [k]).
Proof.
  intros Hnd Hin. destruct (lastn_split n R) as (A & HR & Hle & HA).
  remember (lastn n R) as B eqn:HB. clear HB. subst R.
  apply list.NoDup_app in Hnd as (HndA & Hdisj & HndB).
  rewrite list.filter_app, <- app_assoc.
  destruct HA as [->|HA].
  - simpl. rewrite lastn_all; [done|]. rewrite filter_snoc_length by done. done.
  - rewrite lastn_app_ge by (rewrite filter_snoc_length by done; lia).
    rewrite lastn_all; [done|]. rewrite filter_snoc_length by done. lia.
Qed.

Lemma lastn_touch_miss n (R : list string) k :
  k ∉ lastn n R → lastn n (lastn n R ++ [k]) = lastn n (filter (λ x, x ≠ k) R ++ [k]).
Proof.
  intros Hin. destruct (lastn_split n R) as (A & HR & Hle & HA).
  remember (lastn n R) as B eqn:HB. clear HB. subst R.
  rewrite list.filter_app, <- app_assoc, (filter_keep _ B) by (intros x Hx ->; done).
  destruct HA as [->|HA]; [done|]. symmetry. apply lastn_app_ge. rewrite length_app. simpl. lia.
Qed.
End Lru.
End Lru.
