(* ===== verification/Ring.v ===== *)
(** * The single-producer single-consumer ring

    Models [src/lib/event/src/ring.rs].  Each endpoint operation is a program
    over the accesses it makes to the shared [Inner]: atomic loads and stores
    of the two sequences and the two closed flags, and the accesses to slots.
    The memory follows the release/acquire protocol the source relies on: a
    cursor is the list of the values stored to it, and a load by the other
    endpoint may answer any of them from the last one it has seen on; seeing
    the producer's closed flag also shows every head stored before it.  A slot
    that was never written, or whose value was moved out, holds nothing, and
    reading it, like an index out of range, is an access that cannot be made:
    an endpoint in front of one is stuck.

    Sequences are [u64] with their wrap-around.  The final drop of [Inner] is
    [drop_inner]. *)

From S2P Require Import Prelude Prog.
#[local] Open Scope Z_scope.

Inductive RingConfigError :=
| ZeroCapacity
| NotPowerOfTwo (capacity : Z)
| SequenceAmbiguous (capacity : Z).

Inductive RingInvariantError :=
| CursorDistanceExceedsCapacity (published_head consumed_tail capacity : Z)
| SlotIndexOutOfBounds (sequence index slot_count : Z).

Inductive TryReserveError :=
| ReserveFull
| ReserveDisconnected
| ReserveInvariant (e : RingInvariantError).

Inductive TryClaimError :=
| ClaimEmpty
| ClaimDisconnected
| ClaimInvariant (e : RingInvariantError).

Inductive TryPushError (V : Type) :=
| PushFull (value : V)
| PushDisconnected (value : V).
Arguments PushFull {V} value.
Arguments PushDisconnected {V} value.

Inductive TryPopError :=
| PopEmpty
| PopDisconnected.

(** The accesses to [Inner]. *)
Inductive RingE (V : Type) : Type → Type :=
| LoadConsumerClosed : RingE V bool
| LoadProducerClosed : RingE V bool
| LoadHead : RingE V Z
| LoadTail : RingE V Z
| StoreHead (v : Z) : RingE V unit
| StoreTail (v : Z) : RingE V unit
| StoreProducerClosed : RingE V unit
| StoreConsumerClosed : RingE V unit
| HasSlot (index : Z) : RingE V bool
| WriteSlot (index : Z) (value : V) : RingE V unit
| ReadSlot (index : Z) : RingE V V
| CopySlot (index : Z) : RingE V V.
Arguments LoadConsumerClosed {V}.
Arguments LoadProducerClosed {V}.
Arguments LoadHead {V}.
Arguments LoadTail {V}.
Arguments StoreHead {V} v.
Arguments StoreTail {V} v.
Arguments StoreProducerClosed {V}.
Arguments StoreConsumerClosed {V}.
Arguments HasSlot {V} index.
Arguments WriteSlot {V} index value.
Arguments ReadSlot {V} index.
Arguments CopySlot {V} index.

(** [usize::is_power_of_two] *)
Definition is_power_of_two (n : Z) : bool := (0 <? n) && (n =? 2 ^ Z.log2 n).

Definition validate_capacity (N : Z) : Result unit RingConfigError :=
  if N =? 0 then Err ZeroCapacity
  else if negb (is_power_of_two N) then Err (NotPowerOfTwo N)
  else if 2 ^ 63 <=? N then Err (SequenceAmbiguous N)
  else Ok tt.

(** The endpoint-local fields of [Producer] and [Consumer]. *)
Record Producer := { p_next : Z; p_cached_tail : Z }.
Record Consumer := { c_next : Z; c_cached_head : Z }.

Module Ring.
Section Endpoints.
Context {V : Type} (N : Z).
Notation Prog A := (prog (RingE V) A).

Definition slot_index (sequence : Z) : Z := Z.land sequence (N - 1).

(** ** Producer *)

(** The capability [try_reserve] answers is the sequence of its slot. *)
Definition reserve_at (p : Producer) : Prog (Result Z TryReserveError * Producer) :=
  let sequence := p_next p in
  let index := slot_index sequence in
  found ← trigger (HasSlot index);
  if (found : bool) then mret (Ok sequence, p)
  else mret (Err (ReserveInvariant (SlotIndexOutOfBounds sequence index N)), p).

Definition try_reserve (p : Producer) : Prog (Result Z TryReserveError * Producer) :=
  closed ← trigger LoadConsumerClosed;
  if (closed : bool) then mret (Err ReserveDisconnected, p) else
  let distance := wrapping_sub64 (p_next p) (p_cached_tail p) in
  if N <? distance then
    mret (Err (ReserveInvariant (CursorDistanceExceedsCapacity (p_next p) (p_cached_tail p) N)), p)
  else if distance =? N then
    tail ← trigger LoadTail;
    let p := {| p_next := p_next p; p_cached_tail := tail |} in
    let distance := wrapping_sub64 (p_next p) tail in
    if N <? distance then
      mret (Err (ReserveInvariant (CursorDistanceExceedsCapacity (p_next p) tail N)), p)
    else if distance =? N then mret (Err ReserveFull, p)
    else reserve_at p
  else reserve_at p.

(** [VacantSlot::publish]; [cancel] and drop do nothing. *)
Definition publish (sequence : Z) (value : V) (p : Producer) : Prog Producer :=
  let next := wrapping_add64 sequence 1 in
  _ ← trigger (WriteSlot (slot_index sequence) value);
  _ ← trigger (StoreHead next);
  mret {| p_next := next; p_cached_tail := p_cached_tail p |}.

(** The end of [try_push], once a slot is free. *)
Definition push_at (value : V) (p : Producer) : Prog (Result unit (TryPushError V) * Producer) :=
  _ ← trigger (WriteSlot (slot_index (p_next p)) value);
  let next := wrapping_add64 (p_next p) 1 in
  _ ← trigger (StoreHead next);
  mret (Ok tt, {| p_next := next; p_cached_tail := p_cached_tail p |}).

Definition try_push (value : V) (p : Producer) : Prog (Result unit (TryPushError V) * Producer) :=
  closed ← trigger LoadConsumerClosed;
  if (closed : bool) then mret (Err (PushDisconnected value), p) else
  if N <=? wrapping_sub64 (p_next p) (p_cached_tail p) then
    tail ← trigger LoadTail;
    let p := {| p_next := p_next p; p_cached_tail := tail |} in
    if N <=? wrapping_sub64 (p_next p) tail then mret (Err (PushFull value), p)
    else push_at value p
  else push_at value p.

Definition close_producer : Prog unit := trigger StoreProducerClosed.

(** ** Consumer *)

Definition occupied_at (c : Consumer) : Prog (Result (Z * Z) TryClaimError * Consumer) :=
  mret (Ok (c_next c, slot_index (c_next c)), c).

Definition exceeds (c : Consumer) : Result (Z * Z) TryClaimError * Consumer :=
  (Err (ClaimInvariant (CursorDistanceExceedsCapacity (c_cached_head c) (c_next c) N)), c).

Definition next_occupied_slot (c : Consumer) : Prog (Result (Z * Z) TryClaimError * Consumer) :=
  let available := wrapping_sub64 (c_cached_head c) (c_next c) in
  if N <? available then mret (exceeds c)
  else if available =? 0 then
    head ← trigger LoadHead;
    let c := {| c_next := c_next c; c_cached_head := head |} in
    let available := wrapping_sub64 head (c_next c) in
    if N <? available then mret (exceeds c)
    else if available =? 0 then
      closed ← trigger LoadProducerClosed;
      if (closed : bool) then
        head ← trigger LoadHead;
        let c := {| c_next := c_next c; c_cached_head := head |} in
        let available := wrapping_sub64 head (c_next c) in
        if N <? available then mret (exceeds c)
        else if available =? 0 then mret (Err ClaimDisconnected, c)
        else occupied_at c
      else mret (Err ClaimEmpty, c)
    else occupied_at c
  else occupied_at c.

(** The claim [try_claim] answers is its sequence and the copy of the value. *)
Definition try_claim (c : Consumer) : Prog (Result (Z * V) TryClaimError * Consumer) :=
  '(r, c) ← next_occupied_slot c;
  match r with
  | Err (ClaimInvariant e) => _ ← trigger StoreConsumerClosed; mret (Err (ClaimInvariant e), c)
  | Err e => mret (Err e, c)
  | Ok (sequence, index) =>
      found ← trigger (HasSlot index);
      if (found : bool) then
        value ← trigger (CopySlot index);
        mret (Ok (sequence, value), c)
      else
        _ ← trigger StoreConsumerClosed;
        mret (Err (ClaimInvariant (SlotIndexOutOfBounds sequence index N)), c)
  end.

(** [OccupiedSlot::commit] *)
Definition commit (sequence : Z) (c : Consumer) : Prog (V * Consumer) :=
  let next := wrapping_add64 sequence 1 in
  value ← trigger (ReadSlot (slot_index sequence));
  _ ← trigger (StoreTail next);
  mret (value, {| c_next := next; c_cached_head := c_cached_head c |}).

Definition pop_at (c : Consumer) : Prog (Result V TryPopError * Consumer) :=
  value ← trigger (ReadSlot (slot_index (c_next c)));
  let next := wrapping_add64 (c_next c) 1 in
  _ ← trigger (StoreTail next);
  mret (Ok value, {| c_next := next; c_cached_head := c_cached_head c |}).

Definition try_pop (c : Consumer) : Prog (Result V TryPopError * Consumer) :=
  if c_next c =? c_cached_head c then
    head ← trigger LoadHead;
    let c := {| c_next := c_next c; c_cached_head := head |} in
    if c_next c =? head then
      closed ← trigger LoadProducerClosed;
      if (closed : bool) then
        head ← trigger LoadHead;
        let c := {| c_next := c_next c; c_cached_head := head |} in
        if c_next c =? head then mret (Err PopDisconnected, c) else pop_at c
      else mret (Err PopEmpty, c)
    else pop_at c
  else pop_at c.

Definition close_consumer : Prog unit := trigger StoreConsumerClosed.

(** ** Clients

    What the owner of an endpoint does with it: any sequence of operations,
    each chosen by the answers so far, ended by the drop of the endpoint.  The
    programs collect the values that were accepted, or taken, in order, and
    the invariant errors that were answered. *)
Inductive pclient :=
| PDone
| PPush (value : V) (k : Result unit (TryPushError V) → pclient)
| PReserve (fill : Z → option V) (k : Result bool TryReserveError → pclient).

Inductive cclient :=
| CDone
| CPop (k : Result V TryPopError → cclient)
| CClaim (accept : V → bool) (k : Result (V * bool) TryClaimError → cclient).

Record produced := { pd_values : list V; pd_faults : list RingInvariantError }.
Record consumed := {
  cd_values : list V; cd_disconnected : bool; cd_faults : list RingInvariantError }.

Definition accepted (v : V) (d : produced) : produced :=
  {| pd_values := pd_values d ++ [v]; pd_faults := pd_faults d |}.
Definition taken (v : V) (d : consumed) : consumed :=
  {| cd_values := cd_values d ++ [v]; cd_disconnected := cd_disconnected d;
     cd_faults := cd_faults d |}.
Definition disconnected (d : consumed) : consumed :=
  {| cd_values := cd_values d; cd_disconnected := true; cd_faults := cd_faults d |}.

Fixpoint produce (cl : pclient) (p : Producer) (d : produced) : Prog produced :=
  match cl with
  | PDone => _ ← close_producer; mret d
  | PPush v k =>
      '(r, p) ← try_push v p;
      produce (k r) p (match r with Ok _ => accepted v d | Err _ => d end)
  | PReserve fill k =>
      '(r, p) ← try_reserve p;
      match r with
      | Ok sequence =>
          match fill sequence with
          | Some v => p ← publish sequence v p; produce (k (Ok true)) p (accepted v d)
          | None => produce (k (Ok false)) p d
          end
      | Err (ReserveInvariant e) =>
          produce (k (Err (ReserveInvariant e))) p
            {| pd_values := pd_values d; pd_faults := pd_faults d ++ [e] |}
      | Err e => produce (k (Err e)) p d
      end
  end.

Fixpoint consume (cl : cclient) (c : Consumer) (d : consumed) : Prog consumed :=
  match cl with
  | CDone => _ ← close_consumer; mret d
  | CPop k =>
      '(r, c) ← try_pop c;
      consume (k r) c
        match r with
        | Ok v => taken v d
        | Err PopDisconnected => disconnected d
        | Err PopEmpty => d
        end
  | CClaim accept k =>
      '(r, c) ← try_claim c;
      match r with
      | Ok (sequence, v) =>
          if accept v then
            '(v', c) ← commit sequence c; consume (k (Ok (v', true))) c (taken v' d)
          else consume (k (Ok (v, false))) c d
      | Err ClaimDisconnected => consume (k (Err ClaimDisconnected)) c (disconnected d)
      | Err ClaimEmpty => consume (k (Err ClaimEmpty)) c d
      | Err (ClaimInvariant e) =>
          consume (k (Err (ClaimInvariant e))) c
            {| cd_values := cd_values d; cd_disconnected := cd_disconnected d;
               cd_faults := cd_faults d ++ [e] |}
      end
  end.
End Endpoints.

(** ** The shared memory *)

Section Memory.
Context {V : Type}.

(** [in_pclosed]: the place of the last head stored before the flag.  [in_pview]
    and [in_cview]: the last tail the producer, and the last head the consumer,
    is known to have seen.  [in_written] and [in_read] are the values written
    to, and moved out of, slots so far. *)
Record Inner := {
  in_head : list Z;
  in_tail : list Z;
  in_pclosed : option nat;
  in_cclosed : bool;
  in_slots : list (option V);
  in_pview : nat;
  in_cview : nat;
  in_written : list V;
  in_read : list V }.

(** [SpscRing::new_with_sequence] *)
Definition new_with_sequence (N sequence : Z) : Result Inner RingConfigError :=
  match validate_capacity N with
  | Err e => Err e
  | Ok _ => Ok {| in_head := [sequence]; in_tail := [sequence]; in_pclosed := None;
                  in_cclosed := false; in_slots := replicate (Z.to_nat N) None; in_pview := 0;
                  in_cview := 0; in_written := []; in_read := [] |}
  end.

(** [SpscRing::split] *)
Definition split (sequence : Z) : Producer * Consumer :=
  ({| p_next := sequence; p_cached_tail := sequence |},
   {| c_next := sequence; c_cached_head := sequence |}).

(** The current values of the cursors. *)
Definition head_now (m : Inner) : Z := default 0 (list.last (in_head m)).
Definition tail_now (m : Inner) : Z := default 0 (list.last (in_tail m)).

Definition see_head (j : nat) (m : Inner) : Inner :=
  {| in_head := in_head m; in_tail := in_tail m; in_pclosed := in_pclosed m;
     in_cclosed := in_cclosed m; in_slots := in_slots m; in_pview := in_pview m; in_cview := j;
     in_written := in_written m; in_read := in_read m |}.
Definition see_tail (j : nat) (m : Inner) : Inner :=
  {| in_head := in_head m; in_tail := in_tail m; in_pclosed := in_pclosed m;
     in_cclosed := in_cclosed m; in_slots := in_slots m; in_pview := j; in_cview := in_cview m;
     in_written := in_written m; in_read := in_read m |}.
Definition store_head (v : Z) (m : Inner) : Inner :=
  {| in_head := in_head m ++ [v]; in_tail := in_tail m; in_pclosed := in_pclosed m;
     in_cclosed := in_cclosed m; in_slots := in_slots m; in_pview := in_pview m;
     in_cview := in_cview m; in_written := in_written m; in_read := in_read m |}.
Definition store_tail (v : Z) (m : Inner) : Inner :=
  {| in_head := in_head m; in_tail := in_tail m ++ [v]; in_pclosed := in_pclosed m;
     in_cclosed := in_cclosed m; in_slots := in_slots m; in_pview := in_pview m;
     in_cview := in_cview m; in_written := in_written m; in_read := in_read m |}.
Definition store_pclosed (m : Inner) : Inner :=
  {| in_head := in_head m; in_tail := in_tail m; in_pclosed := Some (length (in_head m) - 1)%nat;
     in_cclosed := in_cclosed m; in_slots := in_slots m; in_pview := in_pview m;
     in_cview := in_cview m; in_written := in_written m; in_read := in_read m |}.
Definition store_cclosed (m : Inner) : Inner :=
  {| in_head := in_head m; in_tail := in_tail m; in_pclosed := in_pclosed m; in_cclosed := true;
     in_slots := in_slots m; in_pview := in_pview m; in_cview := in_cview m;
     in_written := in_written m; in_read := in_read m |}.
Definition write_slot (i : nat) (v : V) (m : Inner) : Inner :=
  {| in_head := in_head m; in_tail := in_tail m; in_pclosed := in_pclosed m;
     in_cclosed := in_cclosed m; in_slots := <[i := Some v]> (in_slots m);
     in_pview := in_pview m; in_cview := in_cview m; in_written := in_written m ++ [v];
     in_read := in_read m |}.
Definition move_slot (i : nat) (v : V) (m : Inner) : Inner :=
  {| in_head := in_head m; in_tail := in_tail m; in_pclosed := in_pclosed m;
     in_cclosed := in_cclosed m; in_slots := <[i := None]> (in_slots m);
     in_pview := in_pview m; in_cview := in_cview m; in_written := in_written m;
     in_read := in_read m ++ [v] |}.

(** The access [e] can answer [r] and leave [m']. *)
Definition access {T} (e : RingE V T) (m : Inner) (r : T) (m' : Inner) : Prop :=
  match e in RingE _ T return T → Prop with
  | LoadConsumerClosed => λ r, (r = true → in_cclosed m = true) ∧ m' = m
  | LoadProducerClosed => λ r,
      r = false ∧ m' = m ∨
      ∃ j, r = true ∧ in_pclosed m = Some j ∧ m' = see_head (in_cview m `max` j) m
  | LoadHead => λ r, ∃ j, (in_cview m ≤ j)%nat ∧ in_head m !! j = Some r ∧ m' = see_head j m
  | LoadTail => λ r, ∃ j, (in_pview m ≤ j)%nat ∧ in_tail m !! j = Some r ∧ m' = see_tail j m
  | StoreHead v => λ _, m' = store_head v m
  | StoreTail v => λ _, m' = store_tail v m
  | StoreProducerClosed => λ _, m' = store_pclosed m
  | StoreConsumerClosed => λ _, m' = store_cclosed m
  | HasSlot i => λ r, r = bool_decide (0 ≤ i < Z.of_nat (length (in_slots m))) ∧ m' = m
  | WriteSlot i v => λ _,
      0 ≤ i < Z.of_nat (length (in_slots m)) ∧ m' = write_slot (Z.to_nat i) v m
  | ReadSlot i => λ v,
      0 ≤ i ∧ in_slots m !! Z.to_nat i = Some (Some v) ∧ m' = move_slot (Z.to_nat i) v m
  | CopySlot i => λ v, 0 ≤ i ∧ in_slots m !! Z.to_nat i = Some (Some v) ∧ m' = m
  end r.

(** ** Interleavings *)

Record config := {
  cf_mem : Inner;
  cf_producer : prog (RingE V) (@produced V);
  cf_consumer : prog (RingE V) (@consumed V) }.

Inductive step : config → config → Prop :=
| step_producer m T (e : RingE V T) k r m' c :
    access e m r m' →
    step {| cf_mem := m; cf_producer := Vis e k; cf_consumer := c |}
         {| cf_mem := m'; cf_producer := k r; cf_consumer := c |}
| step_consumer m p T (e : RingE V T) k r m' :
    access e m r m' →
    step {| cf_mem := m; cf_producer := p; cf_consumer := Vis e k |}
         {| cf_mem := m'; cf_producer := p; cf_consumer := k r |}.

(** Two clients at work on a new ring. *)
Definition start (N sequence : Z) (m : Inner) (pc : pclient) (cc : cclient) : config :=
  let '(p, c) := split sequence in
  {| cf_mem := m;
     cf_producer := produce N pc p {| pd_values := []; pd_faults := [] |};
     cf_consumer := consume N cc c
       {| cd_values := []; cd_disconnected := false; cd_faults := [] |} |}.

(** [Inner::drop]: the slots whose value it drops, in order. *)
Definition drop_inner (m : Inner) : list nat :=
  let slots := Z.of_nat (length (in_slots m)) in
  let tail := tail_now m in
  let remaining := wrapping_sub64 (head_now m) tail in
  if slots <? remaining then []
  else map (λ distance, Z.to_nat (Z.land (wrapping_add64 tail (Z.of_nat distance)) (slots - 1)))
         (seq 0 (Z.to_nat remaining)).
End Memory.
End Ring.
