(* ===== verification/RingSafety.v ===== *)
(** * The ring is a bounded queue

    Thread-modular proof for {!Ring}.  Each endpoint follows a protocol on what
    it knows alone: how many values it has published or consumed, how far it
    has seen the other one ([pstate], [cstate], with the rules [prule] and
    [crule]).  [wf] ties the memory to the two, and every access that follows a
    protocol can be made and keeps it, in every interleaving. *)

From S2P Require Import Prelude Prog Ring.
#[local] Open Scope Z_scope.

Module RingSafety.
Import Ring.

(** ** Sequences *)

Section Sequences.
Context (N start : Z).
Hypothesis HN : validate_capacity N = Ok tt.

(** The sequence after [i] steps. *)
Definition sq (i : nat) : Z := wrap64 (start + Z.of_nat i).

Lemma capacity_pow : ∃ k, 0 ≤ k < 63 ∧ N = 2 ^ k.
Proof using HN.
  unfold validate_capacity, is_power_of_two in HN.
  destruct (N =? 0) eqn:H0; [done|].
  destruct (0 <? N) eqn:Hp; [|done]. destruct (N =? 2 ^ Z.log2 N) eqn:He; [|done].
  destruct (2 ^ 63 <=? N) eqn:Hb; [done|]. simpl in *.
  exists (Z.log2 N). split; [|lia]. split; [apply Z.log2_nonneg|].
  apply Z.log2_lt_pow2; lia.
Qed.

Lemma capacity_bounds : 0 < N < 2 ^ 63.
Proof using HN.
  destruct capacity_pow as (k & Hk & ->). split; [lia|]. apply Z.pow_lt_mono_r; lia.
Qed.

Lemma sq_next i : wrapping_add64 (sq i) 1 = sq (S i).
Proof.
  unfold wrapping_add64, sq, wrap64. rewrite Zplus_mod_idemp_l. f_equal. lia.
Qed.

Lemma sq_distance i j :
  (i ≤ j)%nat → Z.of_nat j - Z.of_nat i ≤ N → wrapping_sub64 (sq j) (sq i) = Z.of_nat j - Z.of_nat i.
Proof using HN.
  intros Hij Hd. unfold wrapping_sub64, sq, wrap64.
  rewrite <- Zminus_mod. pose proof capacity_bounds as Hb.
  rewrite Z.mod_small; [lia|]. unfold two64. lia.
Qed.

Lemma sq_inj i j : (i ≤ j)%nat → Z.of_nat j - Z.of_nat i ≤ N → sq i = sq j → i = j.
Proof using HN.
  intros Hij Hd He. pose proof (sq_distance i j Hij Hd) as H. rewrite He in H.
  unfold wrapping_sub64, wrap64 in H. rewrite Z.sub_diag in H. change (0 `mod` two64) with 0 in H. lia.
Qed.

Lemma slot_index_mod i : slot_index N (sq i) = (start + Z.of_nat i) `mod` N.
Proof using HN.
  unfold slot_index, sq, wrap64. destruct capacity_pow as (k & Hk & ->).
  replace (2 ^ k - 1) with (Z.ones k) by (rewrite Z.ones_equiv; lia).
  rewrite Z.land_ones by lia. unfold two64.
  change 18446744073709551616 with (2 ^ 64).
  replace (2 ^ 64) with (2 ^ k * 2 ^ (64 - k)) by (rewrite <- Z.pow_add_r by lia; f_equal; lia).
  rewrite Z.rem_mul_r by lia. rewrite Z.mul_comm, Z_mod_plus_full. apply Z.mod_mod. lia.
Qed.

(** The slot of a sequence. *)
Definition ix (i : nat) : nat := Z.to_nat (slot_index N (sq i)).

Lemma slot_index_range i : 0 ≤ slot_index N (sq i) < N.
Proof using HN. rewrite slot_index_mod. pose proof capacity_bounds. apply Z.mod_pos_bound. lia. Qed.

Lemma ix_inj i j :
  (i ≤ j)%nat → Z.of_nat j < Z.of_nat i + N → ix i = ix j → i = j.
Proof using HN.
  intros Hij Hd He. unfold ix in He.
  pose proof (slot_index_range i). pose proof (slot_index_range j).
  assert (slot_index N (sq i) = slot_index N (sq j)) as He' by lia.
  rewrite !slot_index_mod in He'. pose proof capacity_bounds.
  pose proof (Z.div_mod (start + Z.of_nat i) N ltac:(lia)).
  pose proof (Z.div_mod (start + Z.of_nat j) N ltac:(lia)).
  set (q := (start + Z.of_nat i) / N) in *. set (q' := (start + Z.of_nat j) / N) in *.
  assert (Z.of_nat j - Z.of_nat i = N * (q' - q)) as Hq by lia.
  assert (q' - q = 0) by nia. lia.
Qed.

(** ** Protocols *)

Context {V : Type}.

(** What an endpoint knows.  [ps_pub]: values published; [ps_view]: tails seen
    consumed; [ps_log]: values written, the one about to be published included. *)
Record pstate := { ps_pub : nat; ps_view : nat; ps_log : list V; ps_closed : bool }.

(** [cs_fin]: the count the producer closed at, once that was seen. *)
Record cstate := { cs_con : nat; cs_view : nat; cs_log : list V; cs_fin : option nat }.

Definition prule : protocol (E := RingE V) pstate := λ T e g,
  match e in RingE _ T return (T → pstate → Prop) → Prop with
  | LoadConsumerClosed => λ post, ∀ b, post b g
  | LoadTail => λ post, ∀ j, (ps_view g ≤ j ≤ ps_pub g)%nat →
      post (sq j) {| ps_pub := ps_pub g; ps_view := j; ps_log := ps_log g; ps_closed := ps_closed g |}
  | HasSlot i => λ post, post (bool_decide (0 ≤ i < N)) g
  | WriteSlot i v => λ post,
      ps_closed g = false ∧ length (ps_log g) = ps_pub g ∧ i = slot_index N (sq (ps_pub g)) ∧
      Z.of_nat (ps_pub g) < Z.of_nat (ps_view g) + N ∧
      post tt {| ps_pub := ps_pub g; ps_view := ps_view g; ps_log := ps_log g ++ [v];
                 ps_closed := false |}
  | StoreHead v => λ post,
      length (ps_log g) = S (ps_pub g) ∧ v = sq (S (ps_pub g)) ∧
      post tt {| ps_pub := S (ps_pub g); ps_view := ps_view g; ps_log := ps_log g;
                 ps_closed := ps_closed g |}
  | StoreProducerClosed => λ post,
      length (ps_log g) = ps_pub g ∧
      post tt {| ps_pub := ps_pub g; ps_view := ps_view g; ps_log := ps_log g; ps_closed := true |}
  | _ => λ _, False
  end.

Definition crule : protocol (E := RingE V) cstate := λ T e h,
  match e in RingE _ T return (T → cstate → Prop) → Prop with
  | LoadHead => λ post, ∀ j,
      (cs_view h ≤ j)%nat → Z.of_nat j ≤ Z.of_nat (cs_con h) + N →
      (∀ f, cs_fin h = Some f → j = f) →
      post (sq j) {| cs_con := cs_con h; cs_view := j; cs_log := cs_log h; cs_fin := cs_fin h |}
  | LoadProducerClosed => λ post,
      post false h ∧
      ∀ f, (cs_view h ≤ f)%nat → Z.of_nat f ≤ Z.of_nat (cs_con h) + N →
        (∀ f', cs_fin h = Some f' → f = f') →
        post true {| cs_con := cs_con h; cs_view := f; cs_log := cs_log h; cs_fin := Some f |}
  | HasSlot i => λ post, post (bool_decide (0 ≤ i < N)) h
  | CopySlot i => λ post,
      length (cs_log h) = cs_con h ∧ i = slot_index N (sq (cs_con h)) ∧
      (cs_con h < cs_view h)%nat ∧ ∀ v, post v h
  | ReadSlot i => λ post,
      length (cs_log h) = cs_con h ∧ i = slot_index N (sq (cs_con h)) ∧
      (cs_con h < cs_view h)%nat ∧
      ∀ v, post v {| cs_con := cs_con h; cs_view := cs_view h; cs_log := cs_log h ++ [v];
                     cs_fin := cs_fin h |}
  | StoreTail v => λ post,
      length (cs_log h) = S (cs_con h) ∧ v = sq (S (cs_con h)) ∧
      post tt {| cs_con := S (cs_con h); cs_view := cs_view h; cs_log := cs_log h;
                 cs_fin := cs_fin h |}
  | StoreConsumerClosed => λ post, post tt h
  | _ => λ _, False
  end.

Lemma prule_monotone : monotone prule.
Proof. intros T e g P Q HPQ. destruct e; simpl; naive_solver. Qed.

Lemma crule_monotone : monotone crule.
Proof. intros T e h P Q HPQ. destruct e; simpl; naive_solver. Qed.

(** ** The invariant *)

Record wf (m : Inner) (g : pstate) (h : cstate) : Prop := {
  wf_head : in_head m = sq <$> seq 0 (S (ps_pub g));
  wf_tail : in_tail m = sq <$> seq 0 (S (cs_con h));
  wf_views : in_pview m = ps_view g ∧ in_cview m = cs_view h;
  wf_logs : in_written m = ps_log g ∧ in_read m = cs_log h;
  wf_order : (ps_view g ≤ cs_con h ∧ cs_con h ≤ length (cs_log h) ≤ S (cs_con h) ∧
              length (cs_log h) ≤ cs_view h ∧ cs_view h ≤ ps_pub g ∧
              ps_pub g ≤ length (ps_log g) ≤ S (ps_pub g))%nat;
  wf_room : Z.of_nat (length (ps_log g)) ≤ Z.of_nat (ps_view g) + N;
  wf_prefix : cs_log h `prefix_of` ps_log g;
  wf_count : length (in_slots m) = Z.to_nat N;
  wf_full : ∀ s, (length (cs_log h) ≤ s < length (ps_log g))%nat →
            in_slots m !! ix s = Some (ps_log g !! s);
  wf_only : ∀ i v, in_slots m !! i = Some (Some v) →
            ∃ s, (length (cs_log h) ≤ s < length (ps_log g))%nat ∧ i = ix s;
  wf_closed : in_pclosed m = (if ps_closed g then Some (ps_pub g) else None) ∧
              (ps_closed g = true → length (ps_log g) = ps_pub g);
  wf_fin : ∀ f, cs_fin h = Some f → in_pclosed m = Some f ∧ cs_view h = f }.

Lemma cursor_lookup n j z : (sq <$> seq 0 n) !! j = Some z → (j < n)%nat ∧ z = sq j.
Proof.
  rewrite list_lookup_fmap, fmap_Some. intros (i & [-> Hi]%lookup_seq & ->). done.
Qed.

Lemma cursor_lookup_lt n j : (j < n)%nat → (sq <$> seq 0 n) !! j = Some (sq j).
Proof. intros Hj. rewrite list_lookup_fmap, lookup_seq_lt by done. done. Qed.

Lemma cursor_snoc n : (sq <$> seq 0 n) ++ [sq n] = sq <$> seq 0 (S n).
Proof. by rewrite seq_S, fmap_app. Qed.

(** ** The protocols keep the invariant *)

Lemma write_wf m g h v :
  wf m g h → ps_closed g = false → length (ps_log g) = ps_pub g →
  Z.of_nat (ps_pub g) < Z.of_nat (ps_view g) + N →
  wf (write_slot (ix (ps_pub g)) v m)
     {| ps_pub := ps_pub g; ps_view := ps_view g; ps_log := ps_log g ++ [v]; ps_closed := false |} h.
Proof using HN.
  intros [] Hc Hl Hr. pose proof capacity_bounds as HNb.
  assert (ix (ps_pub g) < length (in_slots m))%nat as Hix.
  { unfold ix. pose proof (slot_index_range (ps_pub g)). lia. }
  assert (∀ s, (length (cs_log h) ≤ s < ps_pub g)%nat → ix (ps_pub g) ≠ ix s) as Hne.
  { intros s Hs He. symmetry in He.
    apply ix_inj in He; lia. }
  split; simpl; rewrite ?length_app; simpl; try lia; try done.
  - by destruct wf_logs0 as [-> ->].
  - by apply prefix_app_r.
  - by rewrite length_insert.
  - intros s Hs. destruct (decide (s = ps_pub g)) as [->|Hsn].
    + rewrite list_lookup_insert_eq by done. f_equal. rewrite lookup_app_r by lia.
      by rewrite Hl, Nat.sub_diag.
    + rewrite list_lookup_insert_ne by (apply Hne; lia).
      rewrite wf_full0 by lia. f_equal. by rewrite lookup_app_l by lia.
  - intros i x Hi. destruct (decide (i = ix (ps_pub g))) as [->|Hin]; [exists (ps_pub g); lia|].
    rewrite list_lookup_insert_ne in Hi by done.
    destruct (wf_only0 i x Hi) as (s & Hs & ->). exists s. split; [lia|done].
  - destruct wf_closed0 as [Hp _]. rewrite Hc in Hp. split; [done|done].
Qed.

(** The slot the consumer is about to read holds the next value. *)
Lemma next_value m g h :
  wf m g h → length (cs_log h) = cs_con h → (cs_con h < cs_view h)%nat →
  ∃ v, ps_log g !! cs_con h = Some v ∧ in_slots m !! ix (cs_con h) = Some (Some v).
Proof.
  intros [] Hl Hv. destruct (lookup_lt_is_Some_2 (ps_log g) (cs_con h)) as [v Hg]; [lia|].
  exists v. split; [done|]. rewrite wf_full0 by lia. by rewrite Hg.
Qed.

Lemma move_wf m g h v :
  wf m g h → length (cs_log h) = cs_con h → (cs_con h < cs_view h)%nat →
  in_slots m !! ix (cs_con h) = Some (Some v) →
  wf (move_slot (ix (cs_con h)) v m) g
     {| cs_con := cs_con h; cs_view := cs_view h; cs_log := cs_log h ++ [v]; cs_fin := cs_fin h |}.
Proof using HN.
  intros Hwf Hl Hv Hs. destruct (next_value m g h Hwf Hl Hv) as (v' & Hg & Hs').
  rewrite Hs in Hs'. injection Hs' as <-. destruct Hwf.
  assert (∀ s, (cs_con h < s < length (ps_log g))%nat → ix (cs_con h) ≠ ix s) as Hne.
  { intros s Hb He. apply ix_inj in He; lia. }
  split; simpl; rewrite ?length_app; simpl; try lia; try done.
  - by destruct wf_logs0 as [-> ->].
  - destruct wf_prefix0 as [k Hk]. rewrite Hk in Hg |- *.
    rewrite lookup_app_r, Hl, Nat.sub_diag in Hg by lia.
    destruct k as [|x k]; simplify_eq/=. exists k. by rewrite <- app_assoc.
  - by rewrite length_insert.
  - intros s Hb. rewrite list_lookup_insert_ne by (apply Hne; lia). apply wf_full0. lia.
  - intros i x Hi. destruct (decide (i = ix (cs_con h))) as [->|Hin].
    + rewrite list_lookup_insert_eq in Hi by (by eapply lookup_lt_Some). done.
    + rewrite list_lookup_insert_ne in Hi by done.
      destruct (wf_only0 i x Hi) as (s & Hb & ->). exists s. split; [|done].
      destruct (decide (s = cs_con h)) as [->|]; [done|]. lia.
Qed.

(** An access of the producer that follows its protocol keeps the invariant. *)
Lemma producer_step {T} (e : RingE V T) m r m' g h post :
  wf m g h → prule T e g post → access e m r m' → ∃ g', wf m' g' h ∧ post r g'.
Proof using HN.
  intros Hwf. destruct e; destruct_units; simpl; try done.
  - intros Hp [_ ->]. eauto.
  - intros Hp (j & Hj & Hz & ->). pose proof Hwf as []. rewrite wf_tail0 in Hz.
    apply cursor_lookup in Hz as [Hlt ->]. destruct wf_views0 as [Hpv Hcv]. rewrite Hpv in Hj.
    eexists. split; [|apply Hp; lia]. split; simpl; try done; lia.
  - intros (Hl & -> & Hp) ->. eexists. split; [|exact Hp]. pose proof Hwf as [].
    split; simpl; try done; try lia.
    + by rewrite wf_head0, cursor_snoc.
    + destruct wf_closed0 as [H1 H2]. destruct (ps_closed g); [|done].
      specialize (H2 eq_refl). lia.
  - intros (Hl & Hp) ->. eexists. split; [|exact Hp]. pose proof Hwf as [].
    split; simpl; try done; try lia.
    + rewrite wf_head0, length_fmap, length_seq. split; [f_equal; lia|done].
    + intros f Hf. destruct (wf_fin0 f Hf) as [Hpc ?]. split; [|done].
      destruct wf_closed0 as [Hc _].
      rewrite Hc in Hpc. destruct (ps_closed g); simplify_eq.
      rewrite wf_head0, length_fmap, length_seq. f_equal. lia.
  - intros Hp [-> ->]. pose proof Hwf as []. exists g. split; [done|].
    rewrite wf_count0, Z2Nat.id by (pose proof capacity_bounds; lia). exact Hp.
  - intros (Hc & Hl & -> & Hr & Hp) [Hi ->]. eexists. split; [|exact Hp].
    by apply write_wf.
Qed.

Lemma consumer_step {T} (e : RingE V T) m r m' g h post :
  wf m g h → crule T e h post → access e m r m' → ∃ h', wf m' g h' ∧ post r h'.
Proof using HN.
  intros Hwf. destruct e; destruct_units; simpl; try done.
  - intros [Hf Ht] [[-> ->]|(j & -> & Hpc & ->)]; [eauto|]. pose proof Hwf as [].
    destruct wf_closed0 as [Hc Hc']. rewrite Hpc in Hc. destruct (ps_closed g) eqn:Hcl; [|done].
    injection Hc as ->. specialize (Hc' eq_refl).
    eexists. split; [|apply (Ht (ps_pub g))]; [|lia|lia|].
    + split; simpl; try done; try lia.
      * by rewrite Hcl.
      * by intros f [= <-].
    + intros f' Hf'. destruct (wf_fin0 f' Hf') as [? _]. congruence.
  - intros Hp (j & Hj & Hz & ->). pose proof Hwf as []. rewrite wf_head0 in Hz.
    apply cursor_lookup in Hz as [Hlt ->]. destruct wf_views0 as [Hpv Hcv]. rewrite Hcv in Hj.
    eexists. split; [|apply Hp]; [|lia|lia|].
    + split; simpl; try done; try lia. intros f Hf.
      destruct (wf_fin0 f Hf) as [Hpc <-]. split; [done|].
      destruct wf_closed0 as [Hc _]. rewrite Hpc in Hc. destruct (ps_closed g); simplify_eq. lia.
    + intros f Hf. destruct (wf_fin0 f Hf) as [Hpc Hvf]. destruct wf_closed0 as [Hc _].
      rewrite Hpc in Hc. destruct (ps_closed g); simplify_eq. lia.
  - intros (Hl & -> & Hp) ->. eexists. split; [|exact Hp]. pose proof Hwf as [].
    split; simpl; try done; try lia. by rewrite wf_tail0, cursor_snoc.
  - intros Hp ->. eexists. split; [|exact Hp]. pose proof Hwf as []. by split.
  - intros Hp [-> ->]. pose proof Hwf as []. exists h. split; [done|].
    rewrite wf_count0, Z2Nat.id by (pose proof capacity_bounds; lia). exact Hp.
  - intros (Hl & -> & Hv & Hp) (_ & Hs & ->). eexists. split; [|exact (Hp r)].
    by apply move_wf.
  - intros (Hl & -> & Hv & Hp) (_ & _ & ->). eauto.
Qed.

(** No access of either protocol is out of range or reads an empty slot. *)
Lemma producer_progress {T} (e : RingE V T) m g h post :
  wf m g h → prule T e g post → ∃ r m', access e m r m'.
Proof using HN.
  intros [] Hr. pose proof capacity_bounds. destruct e; simpl in Hr |- *; try done; eauto; try (exists tt; by eauto).
  - destruct wf_views0 as [Hpv _].
    exists (sq (ps_view g)). eexists. exists (ps_view g). rewrite Hpv, wf_tail0.
    split; [lia|]. split; [apply cursor_lookup_lt; lia|done].
  - destruct Hr as (_ & _ & -> & _). exists tt. eexists. split; [|done].
    pose proof (slot_index_range (ps_pub g)). lia.
Qed.

Lemma consumer_progress {T} (e : RingE V T) m g h post :
  wf m g h → crule T e h post → ∃ r m', access e m r m'.
Proof using HN.
  intros Hwf Hr. pose proof (next_value m g h Hwf) as Hnext. destruct Hwf.
  destruct e; simpl in Hr |- *; try done; eauto; try (exists tt; by eauto).
  - destruct wf_views0 as [_ Hcv].
    exists (sq (cs_view h)). eexists. exists (cs_view h). rewrite Hcv, wf_head0.
    split; [lia|]. split; [apply cursor_lookup_lt; lia|done].
  - destruct Hr as (Hl & -> & Hv & _). destruct (Hnext Hl Hv) as (v & _ & Hs).
    exists v. eexists. split; [apply slot_index_range|]. split; [exact Hs|done].
  - destruct Hr as (Hl & -> & Hv & _). destruct (Hnext Hl Hv) as (v & _ & Hs).
    exists v. eexists. split; [apply slot_index_range|]. split; [exact Hs|done].
Qed.

(** ** The operations follow the protocols *)

(** The fields of an endpoint agree with what it knows. *)
Record pready (p : Producer) (g : pstate) : Prop := {
  pr_next : p_next p = sq (ps_pub g);
  pr_log : length (ps_log g) = ps_pub g;
  pr_open : ps_closed g = false;
  pr_view : (ps_view g ≤ ps_pub g)%nat;
  pr_tail : ∃ ct, p_cached_tail p = sq ct ∧ (ct ≤ ps_view g)%nat ∧
                  Z.of_nat (ps_pub g) ≤ Z.of_nat ct + N }.

Record cready (c : Consumer) (h : cstate) : Prop := {
  cr_next : c_next c = sq (cs_con h);
  cr_log : length (cs_log h) = cs_con h;
  cr_room : Z.of_nat (cs_view h) ≤ Z.of_nat (cs_con h) + N;
  cr_fin : ∀ f, cs_fin h = Some f → cs_view h = f;
  cr_head : ∃ ch, c_cached_head c = sq ch ∧ (cs_con h ≤ ch ≤ cs_view h)%nat }.

Ltac safe_red :=
  cbv [mret prog_mret mbind prog_mbind trigger]; cbn [safe prog_bind prule crule].

(** By the cached tail, the next slot is free. *)
Definition proom (p : Producer) (g : pstate) : Prop :=
  ∃ ct, p_cached_tail p = sq ct ∧ (ct ≤ ps_view g)%nat ∧ Z.of_nat (ps_pub g) < Z.of_nat ct + N.

Lemma publish_safe value p g :
  pready p g → proom p g →
  safe prule (λ g' p', pready p' g' ∧ ps_log g' = ps_log g ++ [value]) g
    (publish N (p_next p) value p).
Proof.
  intros [] (ct & Hct & Hle & Hr). unfold publish. safe_red. rewrite pr_next0.
  repeat split; try done; simpl; rewrite ?length_app, ?sq_next; simpl; try done; try lia.
  exists ct. split; [done|]. lia.
Qed.

Lemma push_at_safe value p g :
  pready p g → proom p g →
  safe prule (λ g' rp, pready rp.2 g' ∧ rp.1 = Ok tt ∧ ps_log g' = ps_log g ++ [value]) g
    (push_at N value p).
Proof.
  intros [] (ct & Hct & Hle & Hr). unfold push_at. safe_red. rewrite pr_next0.
  repeat split; try done; simpl; rewrite ?length_app, ?sq_next; simpl; try done; try lia.
  exists ct. split; [done|]. lia.
Qed.

(** What the cached tail says about room. *)
Lemma cached_distance p g :
  pready p g →
  ∃ ct, p_cached_tail p = sq ct ∧ (ct ≤ ps_view g)%nat ∧ (ct ≤ ps_pub g)%nat ∧
    Z.of_nat (ps_pub g) ≤ Z.of_nat ct + N ∧
    wrapping_sub64 (p_next p) (p_cached_tail p) = Z.of_nat (ps_pub g) - Z.of_nat ct.
Proof using HN.
  intros [? ? ? ? (ct & Hct & Hle & Hr)]. exists ct.
  repeat split; try done; [lia|]. rewrite pr_next0, Hct. apply sq_distance; lia.
Qed.

Lemma saw_tail p g j :
  pready p g → (ps_view g ≤ j ≤ ps_pub g)%nat →
  pready {| p_next := p_next p; p_cached_tail := sq j |}
    {| ps_pub := ps_pub g; ps_view := j; ps_log := ps_log g; ps_closed := ps_closed g |}.
Proof.
  intros [? ? ? ? (ct & Hct & Hle & Hr)] Hj. split; simpl; try done; [lia|].
  exists j. repeat split; [done|lia].
Qed.

Lemma try_push_safe value p g :
  pready p g →
  safe prule (λ g' rp, pready rp.2 g' ∧
    ps_log g' = ps_log g ++ (if rp.1 is Ok _ then [value] else [])) g (try_push N value p).
Proof using HN.
  intros Hp. unfold try_push. safe_red. intros [|]; [simpl; by rewrite app_nil_r|].
  destruct (cached_distance p g Hp) as (ct & Hct & Hle & Hle' & Hr & Hd).
  rewrite Hd. destruct (Z.leb_spec N (Z.of_nat (ps_pub g) - Z.of_nat ct)).
  - safe_red. intros j Hj. pose proof (saw_tail p g j Hp Hj) as Hp'.
    destruct (cached_distance _ _ Hp') as (ct' & Hct' & Hl2 & Hl3 & Hr2 & Hd2). simpl in *.
    rewrite Hd2. destruct (Z.leb_spec N (Z.of_nat (ps_pub g) - Z.of_nat ct')).
    + split; [exact Hp'|]. simpl. by rewrite app_nil_r.
    + eapply safe_impl; [apply prule_monotone| |apply push_at_safe; [exact Hp'|exists ct'; simpl; lia]].
      intros g' [r p'] (? & -> & ?). done.
  - eapply safe_impl; [apply prule_monotone| |apply push_at_safe; [exact Hp|exists ct; lia]].
    intros g' [r p'] (? & -> & ?). done.
Qed.

Lemma reserve_at_safe p g :
  pready p g →
  safe prule (λ g' rp, g' = g ∧ rp = (Ok (p_next p), p)) g (reserve_at N p).
Proof using HN.
  intros []. unfold reserve_at. safe_red. rewrite pr_next0.
  rewrite bool_decide_eq_true_2 by apply slot_index_range. done.
Qed.

(** What [try_reserve] answers: a capability for the next slot, which is free,
    or that there is no room; never an invariant error. *)
Definition reserved (g : pstate) (g' : pstate) (rp : Result Z TryReserveError * Producer) : Prop :=
  pready rp.2 g' ∧ ps_log g' = ps_log g ∧
  match rp.1 with
  | Ok sequence => sequence = p_next rp.2 ∧ proom rp.2 g'
  | Err (ReserveInvariant _) => False
  | Err _ => True
  end.

Lemma try_reserve_safe p g :
  pready p g → safe prule (reserved g) g (try_reserve N p).
Proof using HN.
  intros Hp. unfold try_reserve. safe_red. intros [|]; [by split|].
  destruct (cached_distance p g Hp) as (ct & Hct & Hle & Hle' & Hr & Hd).
  rewrite Hd. destruct (Z.ltb_spec N (Z.of_nat (ps_pub g) - Z.of_nat ct)); [lia|].
  destruct (Z.eqb_spec (Z.of_nat (ps_pub g) - Z.of_nat ct) N).
  - safe_red. intros j Hj. pose proof (saw_tail p g j Hp Hj) as Hp'.
    destruct (cached_distance _ _ Hp') as (ct' & Hct' & Hl2 & Hl3 & Hr2 & Hd2). simpl in *.
    rewrite Hd2. destruct (Z.ltb_spec N (Z.of_nat (ps_pub g) - Z.of_nat ct')); [lia|].
    destruct (Z.eqb_spec (Z.of_nat (ps_pub g) - Z.of_nat ct') N); [by split|].
    eapply safe_impl; [apply prule_monotone| |by apply reserve_at_safe].
    intros g' rp [-> ->]. split; [done|]. split; [done|]. split; [done|]. exists ct'. simpl. lia.
  - eapply safe_impl; [apply prule_monotone| |by apply reserve_at_safe].
    intros g' rp [-> ->]. split; [done|]. split; [done|]. split; [done|]. exists ct. simpl. lia.
Qed.

(** A producing client has every accepted value written, in order, and meets
    no invariant error. *)
Lemma produce_safe cl p d g :
  pready p g → ps_log g = pd_values d → pd_faults d = [] →
  safe prule (λ g' d', ps_log g' = pd_values d' ∧ pd_faults d' = [] ∧
                       length (ps_log g') = ps_pub g' ∧ ps_closed g' = true) g
    (produce N cl p d).
Proof using HN.
  revert p d g. induction cl as [|v k IH|fill k IH]; intros p d g Hp Hlog Hf; cbn [produce].
  - safe_red. destruct Hp. done.
  - eapply safe_mbind; [apply prule_monotone|by apply try_push_safe|].
    intros g' [[[]|e] p'] [Hp' Hl']; apply IH; try done; simpl in *.
    + by rewrite Hl', Hlog.
    + by rewrite Hl', app_nil_r.
  - eapply safe_mbind; [apply prule_monotone|by apply try_reserve_safe|].
    intros g' [[s|[| |e]] p'] (Hp' & Hl' & Hr); cbn [fst snd] in *;
      [|apply IH; congruence|apply IH; congruence|done].
    destruct Hr as [-> Hroom]. destruct (fill _) as [v|]; [|apply IH; congruence].
    eapply safe_mbind; [apply prule_monotone|by apply publish_safe|].
    intros g2 p2 [Hp2 Hl2]. apply IH; simpl; congruence.
Qed.

(** By the cached head, there is a value to take. *)
Definition cavail (c : Consumer) (h : cstate) : Prop :=
  ∃ ch, c_cached_head c = sq ch ∧ (cs_con h < ch ≤ cs_view h)%nat.

Lemma cached_available c h :
  cready c h →
  wrapping_sub64 (c_cached_head c) (c_next c) = 0 ∧ c_next c = c_cached_head c ∨
  0 < wrapping_sub64 (c_cached_head c) (c_next c) ≤ N ∧ c_next c ≠ c_cached_head c ∧ cavail c h.
Proof using HN.
  intros [? ? ? ? (ch & Hch & Hb)]. rewrite Hch, cr_next0, sq_distance by lia.
  destruct (decide (ch = cs_con h)) as [->|Hne]; [left; split; [lia|done]|right].
  split; [lia|]. split; [|exists ch; split; [done|lia]].
  intros He. apply sq_inj in He; lia.
Qed.

Lemma saw_head c h j :
  cready c h → (cs_view h ≤ j)%nat → Z.of_nat j ≤ Z.of_nat (cs_con h) + N →
  (∀ f, cs_fin h = Some f → j = f) →
  cready {| c_next := c_next c; c_cached_head := sq j |}
    {| cs_con := cs_con h; cs_view := j; cs_log := cs_log h; cs_fin := cs_fin h |}.
Proof.
  intros [? ? ? ? (ch & Hch & Hb)] Hj Hr Hf. split; simpl; try done. exists j. split; [done|lia].
Qed.

Lemma saw_closed c h f :
  cready c h → (cs_view h ≤ f)%nat → Z.of_nat f ≤ Z.of_nat (cs_con h) + N →
  cready c {| cs_con := cs_con h; cs_view := f; cs_log := cs_log h; cs_fin := Some f |}.
Proof.
  intros [? ? ? ? (ch & Hch & Hb)] Hf Hr. split; simpl; try done; [by intros f' [= ->]|].
  exists ch. split; [done|lia].
Qed.

(** A consumer that has seen the end of the stream has nothing left to take. *)
Definition at_end (h : cstate) : Prop := cs_fin h = Some (cs_con h).

Lemma at_end_empty c h : cready c h → at_end h → ¬ cavail c h.
Proof. intros [] He (ch & _ & Hch). specialize (cr_fin0 _ He). lia. Qed.

(** Nothing was taken, and no knowledge of the end was lost. *)
Definition same_log (h h' : cstate) : Prop :=
  cs_con h' = cs_con h ∧ cs_log h' = cs_log h ∧ (at_end h → at_end h').

Lemma empty_at_end c h :
  cready c h → c_next c = c_cached_head c → ∀ f, cs_fin h = Some f →
  c_cached_head c = sq (cs_view h) → at_end h.
Proof using HN.
  intros [? ? ? ? (ch & _ & Hch)] He f Hf Hc. unfold at_end. rewrite Hf.
  specialize (cr_fin0 f Hf). subst f. rewrite Hc, cr_next0 in He. f_equal.
  apply sq_inj in He; lia.
Qed.

Lemma pop_at_safe c h :
  cready c h → cavail c h →
  safe crule (λ h' rc, ∃ v, rc.1 = Ok v ∧ cready rc.2 h' ∧ cs_log h' = cs_log h ++ [v]) h (pop_at N c).
Proof.
  intros [] (ch & Hch & Hb). unfold pop_at. safe_red. rewrite cr_next0.
  split; [done|]. split; [done|]. split; [lia|]. intros v. simpl. rewrite length_app. simpl.
  split; [lia|]. split; [apply sq_next|]. exists v. split; [done|]. split; [|done].
  split; simpl; rewrite ?length_app, ?sq_next; simpl; try done; try lia.
  exists ch. split; [done|lia].
Qed.

Lemma commit_safe c h :
  cready c h → cavail c h →
  safe crule (λ h' rc, cready rc.2 h' ∧ cs_log h' = cs_log h ++ [rc.1]) h
    (commit N (c_next c) c).
Proof.
  intros [] (ch & Hch & Hb). unfold commit. safe_red. rewrite cr_next0.
  split; [done|]. split; [done|]. split; [lia|]. intros v. simpl. rewrite length_app. simpl.
  split; [lia|]. split; [apply sq_next|]. split; [|done].
  split; simpl; rewrite ?length_app, ?sq_next; simpl; try done; try lia.
  exists ch. split; [done|lia].
Qed.

Definition popped (h : cstate) (h' : cstate) (rc : Result V TryPopError * Consumer) : Prop :=
  cready rc.2 h' ∧
  match rc.1 with
  | Ok v => cs_log h' = cs_log h ++ [v] ∧ ¬ at_end h
  | Err PopEmpty => same_log h h'
  | Err PopDisconnected => cs_log h' = cs_log h ∧ at_end h'
  end.

Lemma pop_found c1 h h1 :
  cready c1 h1 → cavail c1 h1 → same_log h h1 → safe crule (popped h) h1 (pop_at N c1).
Proof.
  intros Hc Hav (Hcon & Hlog & Hend).
  eapply safe_impl; [apply crule_monotone| |by apply pop_at_safe].
  intros h' [r c'] (v & Hr & Hc' & Hl). simpl in *. subst r. split; [done|]. simpl.
  split; [by rewrite Hl, Hlog|]. intros He. by apply (at_end_empty c1 h1 Hc (Hend He)).
Qed.

Lemma saw_head_same h j :
  same_log h {| cs_con := cs_con h; cs_view := j; cs_log := cs_log h; cs_fin := cs_fin h |}.
Proof. done. Qed.

Lemma saw_closed_same h f :
  (∀ f', cs_fin h = Some f' → f = f') →
  same_log h {| cs_con := cs_con h; cs_view := f; cs_log := cs_log h; cs_fin := Some f |}.
Proof.
  intros Hf. split; [done|]. split; [done|]. unfold at_end. simpl. intros He. by rewrite (Hf _ He).
Qed.

Lemma same_log_trans h1 h2 h3 : same_log h1 h2 → same_log h2 h3 → same_log h1 h3.
Proof. unfold same_log. intuition congruence. Qed.

(** The head reloaded after the closed flag was seen is the last one. *)
Lemma saw_end c h f :
  cready c h → (cs_view h ≤ f)%nat → Z.of_nat f ≤ Z.of_nat (cs_con h) + N →
  (∀ f', cs_fin h = Some f' → f = f') →
  let h' := {| cs_con := cs_con h; cs_view := f; cs_log := cs_log h; cs_fin := Some f |} in
  cready {| c_next := c_next c; c_cached_head := sq f |} h' ∧ same_log h h' ∧
  (c_next c = sq f → at_end h').
Proof using HN.
  intros Hc Hf Hr Hff h'. pose proof (saw_closed c h f Hc Hf Hr) as Hc2.
  assert (cready {| c_next := c_next c; c_cached_head := sq f |} h') as Hc3.
  { apply (saw_head c _ f Hc2 (le_n f) Hr). by intros ? [= ->]. }
  split; [done|]. split; [by apply saw_closed_same|].
  intros He. by apply (empty_at_end _ _ Hc3 He f).
Qed.

Lemma try_pop_safe c h : cready c h → safe crule (popped h) h (try_pop N c).
Proof using HN.
  intros Hc. unfold try_pop.
  destruct (cached_available c h Hc) as [[_ He]|(_ & Hne & Hav)].
  2:{ rewrite (proj2 (Z.eqb_neq _ _) Hne). by apply pop_found. }
  rewrite (proj2 (Z.eqb_eq _ _) He). safe_red. intros j Hj Hjr Hjf.
  pose proof (saw_head c h j Hc Hj Hjr Hjf) as Hc1. pose proof (saw_head_same h j) as Hs1.
  revert Hc1 Hs1. generalize {| cs_con := cs_con h; cs_view := j; cs_log := cs_log h;
    cs_fin := cs_fin h |} as h1. cbn [c_next]. intros h1 Hc1 Hs1.
  destruct (cached_available _ _ Hc1) as [[_ He1]|(_ & Hne1 & Hav1)]; cbn [c_next c_cached_head] in *.
  2:{ rewrite (proj2 (Z.eqb_neq _ _) Hne1). by apply pop_found. }
  rewrite (proj2 (Z.eqb_eq _ _) He1). safe_red. split; [by split|].
  intros f Hf Hfr Hff i _ _ Hif. specialize (Hif f eq_refl). subst i.
  destruct (saw_end _ h1 f Hc1 Hf Hfr Hff) as (Hc2 & Hs2 & Hend). cbn [c_next cs_con cs_log cs_fin] in *.
  pose proof (same_log_trans _ _ _ Hs1 Hs2) as Hs.
  destruct (cached_available _ _ Hc2) as [[_ He2]|(_ & Hne2 & Hav2)]; cbn [c_next c_cached_head] in *.
  - rewrite (proj2 (Z.eqb_eq _ _) He2). split; [done|]. split; [apply Hs|by apply Hend].
  - rewrite (proj2 (Z.eqb_neq _ _) Hne2). by apply pop_found.
Qed.

(** What a search for an occupied slot finds; never an invariant error. *)
Definition searched {X} (ok : Consumer → cstate → X → Prop) (h h' : cstate)
    (rc : Result X TryClaimError * Consumer) : Prop :=
  cready rc.2 h' ∧ same_log h h' ∧
  match rc.1 with
  | Ok x => cavail rc.2 h' ∧ ok rc.2 h' x
  | Err ClaimEmpty => True
  | Err ClaimDisconnected => at_end h'
  | Err (ClaimInvariant _) => False
  end.

Definition at_next (c : Consumer) (_ : cstate) (x : Z * Z) : Prop :=
  x = (c_next c, slot_index N (c_next c)).

Lemma occupied_safe c h h1 :
  cready c h1 → same_log h h1 → cavail c h1 →
  safe crule (searched at_next h) h1 (occupied_at N c).
Proof. intros Hc Hs Hav. split; [done|]. split; [done|]. by split. Qed.

Lemma next_occupied_safe c h :
  cready c h → safe crule (searched at_next h) h (next_occupied_slot N c).
Proof using HN.
  assert (∀ z, 0 < z ≤ N → (N <? z) = false ∧ (z =? 0) = false) as Hpos.
  { intros z Hz. destruct (Z.ltb_spec N z), (Z.eqb_spec z 0); lia || done. }
  pose proof capacity_bounds as HNb.
  assert ((N <? 0) = false) as H0 by (destruct (Z.ltb_spec N 0); lia || done).
  intros Hc. unfold next_occupied_slot.
  destruct (cached_available c h Hc) as [[Hz He]|(Hp & _ & Hav)].
  2:{ destruct (Hpos _ Hp) as [-> ->]. by apply occupied_safe. }
  rewrite Hz, H0. change (0 =? 0) with true. safe_red. intros j Hj Hjr Hjf.
  pose proof (saw_head c h j Hc Hj Hjr Hjf) as Hc1. pose proof (saw_head_same h j) as Hs1.
  revert Hc1 Hs1. generalize {| cs_con := cs_con h; cs_view := j; cs_log := cs_log h;
    cs_fin := cs_fin h |} as h1. cbn [c_next]. intros h1 Hc1 Hs1.
  destruct (cached_available _ _ Hc1) as [[Hz1 He1]|(Hp1 & _ & Hav1)]; cbn [c_next c_cached_head] in *.
  2:{ destruct (Hpos _ Hp1) as [-> ->]. by apply occupied_safe. }
  rewrite Hz1, H0. change (0 =? 0) with true. safe_red. split; [by split|].
  intros f Hf Hfr Hff i _ _ Hif. specialize (Hif f eq_refl). subst i.
  destruct (saw_end _ h1 f Hc1 Hf Hfr Hff) as (Hc2 & Hs2 & Hend). cbn [c_next cs_con cs_log cs_fin] in *.
  pose proof (same_log_trans _ _ _ Hs1 Hs2) as Hs.
  destruct (cached_available _ _ Hc2) as [[Hz2 He2]|(Hp2 & _ & Hav2)]; cbn [c_next c_cached_head] in *.
  - rewrite Hz2, H0. change (0 =? 0) with true. split; [done|]. split; [done|]. by apply Hend.
  - destruct (Hpos _ Hp2) as [-> ->]. by apply occupied_safe.
Qed.

Lemma try_claim_safe c h :
  cready c h →
  safe crule (searched (λ c' _ x, x.1 = c_next c') h) h (try_claim N c).
Proof using HN.
  intros Hc. unfold try_claim.
  eapply safe_mbind; [apply crule_monotone|by apply next_occupied_safe|].
  intros h' [[[s i]|[| |e]] c'] (Hc' & Hs & Hr); cbn [fst snd] in *; [|by split..|done].
  destruct Hr as [Hav [= -> ->]]. pose proof Hc' as []. pose proof Hav as (ch & Hch & Hb).
  safe_red. rewrite cr_next0, bool_decide_eq_true_2 by apply slot_index_range. safe_red.
  split; [done|]. split; [done|]. split; [lia|]. intros v. by split.
Qed.

(** A consuming client takes the values in the order they were moved out,
    meets no invariant error, and knows the end when it was told so. *)
Lemma consume_safe cl c d h :
  cready c h → cs_log h = cd_values d → cd_faults d = [] → (cd_disconnected d = true → at_end h) →
  safe crule (λ h' d', cs_log h' = cd_values d' ∧ cd_faults d' = [] ∧
                       length (cs_log h') = cs_con h' ∧ (cd_disconnected d' = true → at_end h')) h
    (consume N cl c d).
Proof using HN.
  revert c d h. induction cl as [|k IH|accept k IH]; intros c d h Hc Hlog Hf Hend; cbn [consume].
  - safe_red. by destruct Hc.
  - eapply safe_mbind; [apply crule_monotone|by apply try_pop_safe|].
    intros h' [[v|[|]] c'] [Hc' Hr]; cbn [fst snd] in *; apply IH; try done; simpl.
    + by rewrite (proj1 Hr), Hlog.
    + intros Hd. by destruct (proj2 Hr (Hend Hd)).
    + destruct Hr as (_ & -> & _). done.
    + destruct Hr as (_ & _ & Hr). auto.
    + by rewrite (proj1 Hr).
    + intros _. apply Hr.
  - eapply safe_mbind; [apply crule_monotone|by apply try_claim_safe|].
    intros h' [[[s v]|[| |e]] c'] (Hc' & (Hcon & Hl & He) & Hr); cbn [fst snd] in *; [|..|done].
    + destruct Hr as [Hav ->]. destruct (accept v); [|apply IH; auto; congruence].
      eapply safe_mbind; [apply crule_monotone|by apply commit_safe|].
      intros h2 [v2 c2] [Hc2 Hl2]. apply IH; simpl in *; try done; [congruence|].
      intros Hd. by destruct (at_end_empty _ _ Hc' (He (Hend Hd)) Hav).
    + apply IH; auto; congruence.
    + apply IH; simpl; auto; congruence.
Qed.

(** ** Every interleaving *)

Definition producer_done (g : pstate) (d : @produced V) : Prop :=
  ps_log g = pd_values d ∧ pd_faults d = [] ∧ length (ps_log g) = ps_pub g ∧ ps_closed g = true.

Definition consumer_done (h : cstate) (d : @consumed V) : Prop :=
  cs_log h = cd_values d ∧ cd_faults d = [] ∧ length (cs_log h) = cs_con h ∧
  (cd_disconnected d = true → at_end h).

Definition conforms (c : config) : Prop :=
  ∃ g h, wf (cf_mem c) g h ∧ safe prule producer_done g (cf_producer c) ∧
         safe crule consumer_done h (cf_consumer c).

Lemma conforms_start m pc cc :
  in_u64 start → new_with_sequence N start = Ok m → conforms (Ring.start N start m pc cc).
Proof using HN.
  intros Hu. unfold new_with_sequence. rewrite HN. intros [= <-].
  assert (sq 0 = start) as H0.
  { unfold sq. rewrite Z.add_0_r. by apply wrap64_id. }
  pose proof capacity_bounds.
  exists {| ps_pub := 0; ps_view := 0; ps_log := []; ps_closed := false |},
         {| cs_con := 0; cs_view := 0; cs_log := []; cs_fin := None |}.
  split; [|split].
  - split; simpl; rewrite ?H0; try done; try lia.
    + by rewrite length_replicate.
    + intros i v Hi. apply lookup_replicate in Hi as [[=] _].
  - apply produce_safe; try done. split; simpl; rewrite ?H0; try done; [].
    exists 0%nat. rewrite H0. split; [done|]. lia.
  - apply consume_safe; try done. split; simpl; rewrite ?H0; try done; [lia|].
    exists 0%nat. by rewrite H0.
Qed.

Lemma conforms_step c c' : conforms c → step c c' → conforms c'.
Proof using HN.
  intros (g & h & Hwf & Hp & Hc) Hs. destruct Hs as [m T e k r m' cc Ha|m pp T e k r m' Ha].
  - destruct (producer_step e m r m' g h _ Hwf Hp Ha) as (g' & Hwf' & Hp'). by exists g', h.
  - destruct (consumer_step e m r m' g h _ Hwf Hc Ha) as (h' & Hwf' & Hc'). by exists g, h'.
Qed.

Lemma conforms_reached c c' : conforms c → rtc step c c' → conforms c'.
Proof using HN. induction 2; eauto using conforms_step. Qed.

(** The slot the next call of an endpoint is about to access. *)
Definition touches {A} (p : prog (RingE V) A) : option Z :=
  match p with
  | Ret _ => None
  | Vis e _ =>
      match e with WriteSlot i _ => Some i | ReadSlot i => Some i | CopySlot i => Some i | _ => None end
  end.

Lemma producer_touches {A} (p : prog (RingE V) A) Q g i :
  safe prule Q g p → touches p = Some i →
  i = slot_index N (sq (ps_pub g)) ∧ Z.of_nat (ps_pub g) < Z.of_nat (ps_view g) + N.
Proof. destruct p as [|T e k]; [done|]. simpl. destruct e; simpl; naive_solver. Qed.

Lemma consumer_touches {A} (p : prog (RingE V) A) Q h i :
  safe crule Q h p → touches p = Some i →
  i = slot_index N (sq (cs_con h)) ∧ (cs_con h < cs_view h)%nat.
Proof. destruct p as [|T e k]; [done|]. simpl. destruct e; simpl; naive_solver. Qed.

Lemma no_race c i j :
  conforms c → touches (cf_producer c) = Some i → touches (cf_consumer c) = Some j → i ≠ j.
Proof using HN.
  intros (g & h & [] & Hp & Hc) Hi Hj.
  destruct (producer_touches _ _ _ _ Hp Hi) as [-> Hroom].
  destruct (consumer_touches _ _ _ _ Hc Hj) as [-> Hav].
  intros He. assert (ix (cs_con h) = ix (ps_pub g)) as Hix by (unfold ix; by rewrite He).
  apply ix_inj in Hix; lia.
Qed.

Lemma producer_moves c :
  conforms c → (∃ d, cf_producer c = Ret d) ∨ ∃ c', step c c' ∧ cf_consumer c' = cf_consumer c.
Proof using HN.
  intros (g & h & Hwf & Hp & _). destruct c as [m [d|T e k] cc]; [eauto|right].
  destruct (producer_progress e m g h _ Hwf Hp) as (r & m' & Ha).
  eexists. split; [by constructor|done].
Qed.

Lemma consumer_moves c :
  conforms c → (∃ d, cf_consumer c = Ret d) ∨ ∃ c', step c c' ∧ cf_producer c' = cf_producer c.
Proof using HN.
  intros (g & h & Hwf & _ & Hc). destruct c as [m pp [d|T e k]]; [eauto|right].
  destruct (consumer_progress e m g h _ Hwf Hc) as (r & m' & Ha).
  eexists. split; [by constructor|done].
Qed.

(** The slots the final drop visits are those of the values not taken. *)
Lemma cursor_last n : list.last (sq <$> seq 0 (S n)) = Some (sq n).
Proof. rewrite seq_S, fmap_app. simpl. apply last_snoc. Qed.

Lemma sq_add i d : wrapping_add64 (sq i) (Z.of_nat d) = sq (i + d).
Proof. unfold wrapping_add64, sq, wrap64. rewrite Zplus_mod_idemp_l. f_equal. lia. Qed.

Lemma drop_inner_wf m g h :
  wf m g h → length (ps_log g) = ps_pub g → length (cs_log h) = cs_con h →
  drop_inner m = ix <$> seq (cs_con h) (ps_pub g - cs_con h).
Proof using HN.
  intros [] Hp Hc. pose proof capacity_bounds.
  unfold drop_inner, head_now, tail_now. rewrite wf_head0, wf_tail0, !cursor_last, wf_count0. simpl.
  rewrite sq_distance, Z2Nat.id by lia.
  destruct (Z.ltb_spec N (Z.of_nat (ps_pub g) - Z.of_nat (cs_con h))); [lia|].
  replace (Z.to_nat (Z.of_nat (ps_pub g) - Z.of_nat (cs_con h)))
    with (ps_pub g - cs_con h)%nat by lia.
  pose proof (fmap_add_seq (cs_con h) 0 (ps_pub g - cs_con h)) as Hseq.
  rewrite Nat.add_0_r in Hseq. rewrite <- Hseq, <- list_fmap_compose.
  apply map_ext. intros d. simpl. unfold ix, slot_index. by rewrite sq_add.
Qed.
End Sequences.

Lemma conforms_run {V} N sequence (m : @Inner V) pc cc c :
  in_u64 sequence → new_with_sequence N sequence = Ok m →
  rtc step (start N sequence m pc cc) c →
  validate_capacity N = Ok tt ∧ conforms N sequence c.
Proof.
  intros Hu Hnew Hr.
  assert (validate_capacity N = Ok tt) as HN.
  { unfold new_with_sequence in Hnew. by destruct (validate_capacity N) as [[]|]. }
  split; [done|]. eauto using conforms_reached, conforms_start.
Qed.

(** Every step shortens the program of one endpoint. *)
Definition shorter {V A} (p' p : prog (RingE V) A) : Prop :=
  match p with Ret _ => False | Vis _ k => ∃ r, p' = k r end.

Lemma step_shorter {V} (c c' : @config V) :
  step c c' →
  shorter (cf_producer c') (cf_producer c) ∧ cf_consumer c' = cf_consumer c ∨
  cf_producer c' = cf_producer c ∧ shorter (cf_consumer c') (cf_consumer c).
Proof. intros []; [left|right]; simpl; eauto. Qed.

Lemma runs_end {V} (c : @config V) : Acc (λ c' c, step c c') c.
Proof.
  destruct c as [m p q]. revert m q.
  induction p as [d|T e k IHp]; intros m q; revert m;
    (induction q as [d'|T' e' k' IHq]; intros m; constructor; intros [m' p' q'] Hs;
     apply step_shorter in Hs as [[Hp Hq]|[Hp Hq]]; simpl in *;
     repeat match goal with H : ∃ _, _ |- _ => destruct H | H : False |- _ => destruct H end;
     subst; auto).
Qed.

(** C33: the ring is a bounded queue in every interleaving. For clients that use
    the two endpoints in any way, in every state that any schedule and any
    stale cursor read can reach: the values taken are the first of the values
    put in, in order; at most [N] values are in the ring; the two endpoints are
    never about to access the same slot; and an endpoint that has not finished
    can go on, so no index is out of range, no empty slot is read and no
    operation waits for the other endpoint. Sequences may start anywhere and
    wrap around. *)
Theorem ring_is_bounded_queue {V} N sequence (m : @Inner V) pc cc c :
  in_u64 sequence → new_with_sequence N sequence = Ok m →
  rtc step (start N sequence m pc cc) c →
  in_read (cf_mem c) `prefix_of` in_written (cf_mem c) ∧
  Z.of_nat (length (in_written (cf_mem c))) ≤ Z.of_nat (length (in_tail (cf_mem c))) - 1 + N ∧
  (∀ i j, touches (cf_producer c) = Some i → touches (cf_consumer c) = Some j → i ≠ j) ∧
  ((∃ d, cf_producer c = Ret d) ∨ ∃ c', step c c' ∧ cf_consumer c' = cf_consumer c) ∧
  ((∃ d, cf_consumer c = Ret d) ∨ ∃ c', step c c' ∧ cf_producer c' = cf_producer c).
Proof.
  intros Hu Hnew Hr. destruct (conforms_run N sequence m pc cc c Hu Hnew Hr) as [HN Hc].
  pose proof (producer_moves N sequence HN c Hc). pose proof (consumer_moves N sequence HN c Hc).
  assert (∀ i j, touches (cf_producer c) = Some i → touches (cf_consumer c) = Some j → i ≠ j)
    by (intros i j; by apply (no_race N sequence HN)).
  destruct Hc as (g & h & [] & _ & _). destruct wf_logs0 as [-> ->].
  split; [done|]. split; [|done].
  rewrite wf_tail0, length_fmap, length_seq. lia.
Qed.

(** What the clients are told is true, and every run ends. No schedule runs
    for ever. When the consumer has finished, the values it was handed are the
    first of those written, it met no invariant error, and if it was ever told
    that the producer is gone, the producer had closed and the values it was
    handed are all of them: closing loses nothing. When both have finished, the
    values handed out are the first of the values the producer was told were
    accepted, and neither met an invariant error. *)
Theorem ring_delivers_everything_before_disconnect {V} N sequence (m : @Inner V) pc cc c :
  in_u64 sequence → new_with_sequence N sequence = Ok m →
  rtc step (start N sequence m pc cc) c →
  Acc (λ c' c, step c c') c ∧
  (∀ d, cf_consumer c = Ret d →
     cd_values d `prefix_of` in_written (cf_mem c) ∧ cd_faults d = [] ∧
     (cd_disconnected d = true →
      in_pclosed (cf_mem c) ≠ None ∧ cd_values d = in_written (cf_mem c))) ∧
  (∀ dp dc, cf_producer c = Ret dp → cf_consumer c = Ret dc →
     pd_faults dp = [] ∧ cd_values dc `prefix_of` pd_values dp ∧
     (cd_disconnected dc = true → cd_values dc = pd_values dp)).
Proof.
  intros Hu Hnew Hr. split; [apply runs_end|].
  destruct (conforms_run N sequence m pc cc c Hu Hnew Hr) as [HN (g & h & Hwf & Hp & Hc)].
  assert (at_end h → in_pclosed (cf_mem c) ≠ None ∧ cs_log h = ps_log g) as Hend.
  { intros He. destruct Hwf. destruct (wf_fin0 _ He) as [Hpc Hv]. rewrite Hpc. split; [done|].
    destruct wf_closed0 as [Hcl Hlen]. rewrite Hcl in Hpc.
    destruct (ps_closed g); simplify_eq. specialize (Hlen eq_refl).
    apply prefix_length_eq; [done|lia]. }
  destruct Hwf. destruct wf_logs0 as [Hw _]. rewrite Hw.
  assert (∀ d, cf_consumer c = Ret d → cs_log h = cd_values d ∧ cd_faults d = [] ∧
    (cd_disconnected d = true → at_end h)) as Hd.
  { intros d Hd. rewrite Hd in Hc. destruct Hc as (? & ? & _ & ?). done. }
  split.
  - intros d Hcd. destruct (Hd d Hcd) as (<- & Hf & He). auto.
  - intros dp dc Hpd Hcd. destruct (Hd dc Hcd) as (<- & Hf & He).
    rewrite Hpd in Hp. destruct Hp as (<- & Hpf & _). split; [done|]. split; [done|].
    intros Hdis. by apply Hend, He.
Qed.

(** The final drop releases what is left, once. When both endpoints are gone,
    [Inner::drop] drops the value of every slot that still holds one, none
    twice, and no slot that holds none. *)
Theorem ring_drop_releases_exactly_the_rest {V} N sequence (m : @Inner V) pc cc c dp dc :
  in_u64 sequence → new_with_sequence N sequence = Ok m →
  rtc step (start N sequence m pc cc) c →
  cf_producer c = Ret dp → cf_consumer c = Ret dc →
  NoDup (drop_inner (cf_mem c)) ∧
  (∀ i, i ∈ drop_inner (cf_mem c) ↔ ∃ v, in_slots (cf_mem c) !! i = Some (Some v)) ∧
  length (drop_inner (cf_mem c)) = (length (pd_values dp) - length (cd_values dc))%nat.
Proof.
  intros Hu Hnew Hr Hpd Hcd.
  destruct (conforms_run N sequence m pc cc c Hu Hnew Hr) as [HN (g & h & Hwf & Hp & Hc)].
  rewrite Hpd in Hp. rewrite Hcd in Hc.
  destruct Hp as (<- & _ & Hpl & _). destruct Hc as (<- & _ & Hcl & _).
  rewrite (drop_inner_wf N sequence HN (cf_mem c) g h) by done. destruct Hwf.
  split; [|split].
  - apply NoDup_fmap_2_strong; [|apply NoDup_seq].
    intros s s' Hs%elem_of_seq Hs'%elem_of_seq He.
    destruct (decide (s ≤ s')%nat); [|symmetry; symmetry in He]; apply (ix_inj N sequence HN) in He; lia.
  - intros i. rewrite list_elem_of_fmap. split.
    + intros (s & -> & Hs%elem_of_seq). rewrite wf_full0 by lia.
      destruct (lookup_lt_is_Some_2 (ps_log g) s) as [v ->]; [lia|]. eauto.
    + intros (v & Hv). destruct (wf_only0 i v Hv) as (s & Hs & ->). exists s. split; [done|].
      apply elem_of_seq. lia.
  - rewrite length_fmap, length_seq. lia.
Qed.

(** ** Running a schedule

    The accesses as a function that answers the latest values, and the
    configuration a schedule of endpoints ([true]: the producer) leads to. *)

Definition access_now {V T} (e : RingE V T) (m : @Inner V) : option (T * @Inner V) :=
  let in_range i := bool_decide (0 ≤ i < Z.of_nat (length (in_slots m))) in
  match e in RingE _ T return option (T * Inner) with
  | LoadConsumerClosed => Some (in_cclosed m, m)
  | LoadProducerClosed =>
      Some match in_pclosed m with
           | Some j => (true, see_head (in_cview m `max` j) m)
           | None => (false, m)
           end
  | LoadHead =>
      let j := (length (in_head m) - 1)%nat in
      if (in_cview m <=? j)%nat then (λ z, (z, see_head j m)) <$> in_head m !! j else None
  | LoadTail =>
      let j := (length (in_tail m) - 1)%nat in
      if (in_pview m <=? j)%nat then (λ z, (z, see_tail j m)) <$> in_tail m !! j else None
  | StoreHead v => Some (tt, store_head v m)
  | StoreTail v => Some (tt, store_tail v m)
  | StoreProducerClosed => Some (tt, store_pclosed m)
  | StoreConsumerClosed => Some (tt, store_cclosed m)
  | HasSlot i => Some (in_range i, m)
  | WriteSlot i v => if in_range i then Some (tt, write_slot (Z.to_nat i) v m) else None
  | ReadSlot i =>
      if in_range i
      then v ← mjoin (in_slots m !! Z.to_nat i); Some (v, move_slot (Z.to_nat i) v m)
      else None
  | CopySlot i =>
      if in_range i then v ← mjoin (in_slots m !! Z.to_nat i); Some (v, m) else None
  end.

Lemma access_now_ok {V T} (e : RingE V T) m r m' :
  access_now e m = Some (r, m') → access e m r m'.
Proof.
  destruct e; destruct_units; simpl; intros H; try naive_solver.
  - destruct (in_pclosed m) eqn:Hc; simplify_eq; eauto 10.
  - destruct (Nat.leb_spec (in_cview m) (length (in_head m) - 1)); [|done].
    apply fmap_Some in H as (z & Hz & [= -> ->]). eauto.
  - destruct (Nat.leb_spec (in_pview m) (length (in_tail m) - 1)); [|done].
    apply fmap_Some in H as (z & Hz & [= -> ->]). eauto.
  - case_bool_decide; simplify_eq. done.
  - case_bool_decide; [|done]. destruct (in_slots m !! _) as [[v|]|] eqn:Hs; simplify_eq/=.
    split; [lia|done].
  - case_bool_decide; [|done]. destruct (in_slots m !! _) as [[v|]|] eqn:Hs; simplify_eq/=.
    split; [lia|done].
Qed.

Definition step_now {V} (producer : bool) (c : @config V) : option config :=
  if producer then
    match cf_producer c with
    | Ret _ => None
    | Vis e k =>
        '(r, m') ← access_now e (cf_mem c);
        Some {| cf_mem := m'; cf_producer := k r; cf_consumer := cf_consumer c |}
    end
  else
    match cf_consumer c with
    | Ret _ => None
    | Vis e k =>
        '(r, m') ← access_now e (cf_mem c);
        Some {| cf_mem := m'; cf_producer := cf_producer c; cf_consumer := k r |}
    end.

Lemma step_now_ok {V} b (c c' : @config V) : step_now b c = Some c' → step c c'.
Proof.
  destruct b, c as [m [dp|Tp ep kp] [dc|Tc ec kc]]; simpl; try done;
    (destruct (access_now _ m) as [[r m']|] eqn:Ha; simpl; [|done]; intros [= <-];
     apply access_now_ok in Ha; by constructor).
Qed.

(** An endpoint that has finished is skipped. *)
Fixpoint schedule {V} (turns : list bool) (c : @config V) : config :=
  match turns with
  | [] => c
  | b :: turns => schedule turns (default c (step_now b c))
  end.

Lemma schedule_reaches {V} turns (c : @config V) : rtc step c (schedule turns c).
Proof.
  revert c. induction turns as [|b turns IH]; intros c; simpl; [done|].
  destruct (step_now b c) as [c'|] eqn:Hs; simpl; [|done].
  eapply rtc_l; [by eapply step_now_ok|done].
Qed.

(** Two slots, a sequence about to wrap; three pushes, of which the third finds
    the ring full, against pops until the end of the stream. *)
Definition demo_producer : pclient := PPush 10%nat (λ _, PPush 20%nat (λ _, PPush 30%nat (λ _, PDone))).
Definition demo_consumer : @cclient nat :=
  CPop (λ _, CClaim (λ _, true) (λ _, CPop (λ _, CPop (λ _, CDone)))).

Definition demo_ring : @Inner nat :=
  {| in_head := [two64 - 1]; in_tail := [two64 - 1]; in_pclosed := None; in_cclosed := false;
     in_slots := [None; None]; in_pview := 0; in_cview := 0; in_written := []; in_read := [] |}.

Definition demo_end : @config nat :=
  schedule (replicate 9 true ++ replicate 2 false ++ replicate 30 true ++ replicate 40 false)
    (start 2 (two64 - 1) demo_ring demo_producer demo_consumer).

Lemma ring_is_bounded_queue_witness :
  in_written (cf_mem demo_end) = [10; 20]%nat ∧
  in_read (cf_mem demo_end) `prefix_of` in_written (cf_mem demo_end).
Proof.
  split; [vm_compute; reflexivity|].
  apply (ring_is_bounded_queue 2 (two64 - 1) demo_ring demo_producer demo_consumer demo_end).
  - split; vm_compute; congruence.
  - vm_compute. reflexivity.
  - apply schedule_reaches.
Defined.

Lemma ring_delivers_everything_before_disconnect_witness :
  ∃ dp dc, cf_producer demo_end = Ret dp ∧ cf_consumer demo_end = Ret dc ∧
    cd_disconnected dc = true ∧ cd_values dc = pd_values dp ∧ pd_values dp = [10; 20]%nat.
Proof.
  destruct (ring_delivers_everything_before_disconnect 2 (two64 - 1) demo_ring demo_producer
    demo_consumer demo_end) as (_ & _ & Hall).
  - split; vm_compute; congruence.
  - vm_compute. reflexivity.
  - apply schedule_reaches.
  - exists {| pd_values := [10; 20]%nat; pd_faults := [] |},
      {| cd_values := [10; 20]%nat; cd_disconnected := true; cd_faults := [] |}.
    assert (cf_producer demo_end = Ret {| pd_values := [10; 20]%nat; pd_faults := [] |}) as Hp
      by (vm_compute; reflexivity).
    assert (cf_consumer demo_end =
      Ret {| cd_values := [10; 20]%nat; cd_disconnected := true; cd_faults := [] |}) as Hc
      by (vm_compute; reflexivity).
    destruct (Hall _ _ Hp Hc) as (_ & _ & He).
    split; [exact Hp|]. split; [exact Hc|]. split; [reflexivity|]. split; [by apply He|reflexivity].
Defined.

(** The same clients, the consumer dropped after one pop. *)
Definition demo_drop : @config nat :=
  schedule (replicate 20 true ++ replicate 20 false)
    (start 2 (two64 - 1) demo_ring demo_producer (CPop (λ _, CDone))).

Lemma ring_drop_releases_exactly_the_rest_witness :
  drop_inner (cf_mem demo_drop) = [0%nat] ∧ NoDup (drop_inner (cf_mem demo_drop)).
Proof.
  split; [vm_compute; reflexivity|].
  apply (ring_drop_releases_exactly_the_rest 2 (two64 - 1) demo_ring demo_producer
    (CPop (λ _, CDone)) demo_drop
    {| pd_values := [10; 20]%nat; pd_faults := [] |}
    {| cd_values := [10%nat]; cd_disconnected := false; cd_faults := [] |}).
  - split; vm_compute; congruence.
  - vm_compute. reflexivity.
  - apply schedule_reaches.
  - vm_compute. reflexivity.
  - vm_compute. reflexivity.
Defined.
End RingSafety.
