(* ===== verification/Slab.v ===== *)
(** * Slab pages

    Models [src/lib/event/src/descriptor.rs] and [slab.rs]: the descriptor of a
    frame, the limits of a page, and a page that is filled by its one owner,
    sealed, and then read through descriptors.  [table] is what the descriptors
    of a sequence of frames are; the sealed page here and the published page of
    {!Page} are both measured against it.

    CRC-32C is the crate's and a parameter.  An allocation may fail: [alloc]
    says whether it succeeds. *)

From Stdlib Require Export Strings.Byte.
From S2P Require Import Prelude.
#[local] Open Scope Z_scope.

(** [payload.len()] *)
Definition len {A} (l : list A) : Z := Z.of_nat (length l).

Lemma len_app {A} (l k : list A) : len (l ++ k) = len l + len k.
Proof. unfold len. rewrite length_app. lia. Qed.

Lemma len_nonneg {A} (l : list A) : 0 ≤ len l.
Proof. unfold len. lia. Qed.

(** ** Descriptors *)

Definition MAX_FRAME_BYTES : Z := Z.shiftl 1 20.

Record TelemetryDescriptor := {
  td_sequence : Z;
  td_arena_generation : Z;
  td_arena_id : Z;
  td_flags : Z;
  td_offset : Z;
  td_len : Z;
  td_crc32c : Z;
  td_schema_id : Z }.

#[export] Instance TelemetryDescriptor_eq_dec : EqDecision TelemetryDescriptor.
Proof. solve_decision. Defined.

Inductive DescriptorError :=
| DescFrameTooLarge (l maximum : Z)
| DescOffsetLengthOverflow (offset l : Z)
| DescOutOfBounds (end_ page_len : Z).

Definition checked_payload_range (d : TelemetryDescriptor) (page_len : Z) :
    Result (Z * Z) DescriptorError :=
  if MAX_FRAME_BYTES <? td_len d then Err (DescFrameTooLarge (td_len d) MAX_FRAME_BYTES)
  else
    let end_ := td_offset d + td_len d in
    if u32_max <? end_ then Err (DescOffsetLengthOverflow (td_offset d) (td_len d))
    else if page_len <? end_ then Err (DescOutOfBounds end_ page_len)
    else Ok (td_offset d, end_).

(** ** Limits *)

Definition MAX_SLAB_PAGE_BYTES : Z := Z.shiftl 64 20.
Definition MAX_SLAB_DESCRIPTORS : Z := Z.shiftl 1 16.

Record SlabPageConfig := {
  sc_arena_id : Z;
  sc_arena_generation : Z;
  sc_byte_capacity : Z;
  sc_descriptor_capacity : Z;
  sc_first_sequence : Z }.

Inductive SlabResource := PayloadBytes | Descriptors.

Inductive SlabConfigError :=
| ZeroByteCapacity
| ByteCapacityTooLarge (requested maximum : Z)
| ZeroDescriptorCapacity
| DescriptorCapacityTooLarge (requested maximum : Z)
| AllocationFailed (resource : SlabResource) (requested : Z).

Inductive SlabAppendError :=
| WriterPoisoned
| EmptyPayload
| FrameTooLarge (l maximum : Z)
| DescriptorCapacityExhausted (capacity : Z)
| OffsetLengthOverflow (offset l : Z)
| PageFull (requested remaining : Z)
| OffsetNotAddressable (offset : Z)
| LengthNotAddressable (l : Z).

Inductive SlabReadError :=
| ArenaIdMismatch (page descriptor : Z)
| GenerationMismatch (page descriptor : Z)
| ReadEmptyPayload
| ReadDescriptor (e : DescriptorError)
| CrcMismatch (sequence : Z)
| UnknownSequence (first count descriptor : Z)
| DescriptorMismatch (sequence : Z).

Definition validate_config (config : SlabPageConfig) : Result unit SlabConfigError :=
  if sc_byte_capacity config =? 0 then Err ZeroByteCapacity
  else if MAX_SLAB_PAGE_BYTES <? sc_byte_capacity config then
    Err (ByteCapacityTooLarge (sc_byte_capacity config) MAX_SLAB_PAGE_BYTES)
  else if sc_descriptor_capacity config =? 0 then Err ZeroDescriptorCapacity
  else if MAX_SLAB_DESCRIPTORS <? sc_descriptor_capacity config then
    Err (DescriptorCapacityTooLarge (sc_descriptor_capacity config) MAX_SLAB_DESCRIPTORS)
  else Ok tt.

(** A page's fields are machine integers. *)
Definition in_range (config : SlabPageConfig) : Prop :=
  0 ≤ sc_byte_capacity config ∧ 0 ≤ sc_descriptor_capacity config ∧
  in_u64 (sc_first_sequence config).

Lemma valid_config config :
  in_range config → validate_config config = Ok tt →
  0 < sc_byte_capacity config ≤ MAX_SLAB_PAGE_BYTES ∧
  0 < sc_descriptor_capacity config ≤ MAX_SLAB_DESCRIPTORS.
Proof.
  intros (Hb & Hd & _). unfold validate_config.
  destruct (Z.eqb_spec (sc_byte_capacity config) 0); [done|].
  destruct (Z.ltb_spec MAX_SLAB_PAGE_BYTES (sc_byte_capacity config)); [done|].
  destruct (Z.eqb_spec (sc_descriptor_capacity config) 0); [done|].
  destruct (Z.ltb_spec MAX_SLAB_DESCRIPTORS (sc_descriptor_capacity config)); [done|]. lia.
Qed.

(** ** The descriptors of a sequence of frames *)

(** The arguments of [try_append]. *)
Record Frame := { fr_payload : list byte; fr_schema_id : Z; fr_flags : Z }.

(** The bytes of the frames, one after the other. *)
Definition payload_bytes (frames : list Frame) : list byte := concat (map fr_payload frames).

Section Table.
Context (crc32c : list byte → Z) (config : SlabPageConfig).

(** The descriptor of the frame that follows [before]. *)
Definition describe (before : list Frame) (f : Frame) : TelemetryDescriptor := {|
  td_sequence := wrap64 (sc_first_sequence config + len before);
  td_arena_generation := sc_arena_generation config;
  td_arena_id := sc_arena_id config;
  td_flags := fr_flags f;
  td_offset := len (payload_bytes before);
  td_len := len (fr_payload f);
  td_crc32c := crc32c (fr_payload f);
  td_schema_id := fr_schema_id f |}.

Definition table (frames : list Frame) : list TelemetryDescriptor :=
  imap (λ i f, describe (take i frames) f) frames.

(** What fits in a page. *)
Definition fits (frames : list Frame) : Prop :=
  Forall (λ f, 0 < len (fr_payload f) ≤ MAX_FRAME_BYTES) frames ∧
  len frames ≤ sc_descriptor_capacity config ∧
  len (payload_bytes frames) ≤ sc_byte_capacity config.

Lemma payload_bytes_app l k : payload_bytes (l ++ k) = payload_bytes l ++ payload_bytes k.
Proof. unfold payload_bytes. by rewrite map_app, concat_app. Qed.

Lemma payload_bytes_one f : payload_bytes [f] = fr_payload f.
Proof. unfold payload_bytes. simpl. apply app_nil_r. Qed.

Lemma table_length frames : length (table frames) = length frames.
Proof. unfold table. apply length_imap. Qed.

Lemma table_lookup frames i f :
  frames !! i = Some f → table frames !! i = Some (describe (take i frames) f).
Proof. intros Hf. unfold table. by rewrite list_lookup_imap, Hf. Qed.

Lemma table_lookup_inv frames i d :
  table frames !! i = Some d →
  ∃ f, frames !! i = Some f ∧ d = describe (take i frames) f.
Proof. unfold table. rewrite list_lookup_imap, fmap_Some. naive_solver. Qed.

Lemma table_snoc frames f : table (frames ++ [f]) = table frames ++ [describe frames f].
Proof.
  unfold table. rewrite imap_app. simpl. rewrite Nat.add_0_r. f_equal.
  - apply imap_ext. intros i g Hg. f_equal. rewrite take_app_le; [done|].
    apply lookup_lt_Some in Hg. lia.
  - by rewrite take_app_length.
Qed.

Lemma table_prefix frames frames' :
  frames `prefix_of` frames' → table frames `prefix_of` table frames'.
Proof.
  intros [k ->]. induction k as [|f k IH] using rev_ind; [by rewrite app_nil_r|].
  rewrite app_assoc, table_snoc. etrans; [exact IH|]. by apply prefix_app_r.
Qed.

Lemma table_take frames n : table (take n frames) = take n (table frames).
Proof.
  destruct (decide (n ≤ length frames)%nat).
  - destruct (table_prefix _ _ (prefix_take frames n)) as [x ->].
    by rewrite take_app_length' by (rewrite table_length, length_take; lia).
  - by rewrite !take_ge by (rewrite ?table_length; lia).
Qed.

Lemma fits_prefix frames frames' : frames `prefix_of` frames' → fits frames' → fits frames.
Proof.
  intros [k ->] (Hf & Hc & Hb). apply Forall_app in Hf as [Hf _].
  rewrite payload_bytes_app, !len_app in *. pose proof (len_nonneg k).
  pose proof (len_nonneg (payload_bytes k)). split; [done|]. lia.
Qed.

(** Where the payload of a frame is. *)
Lemma payload_at frames i f :
  frames !! i = Some f →
  take (length (fr_payload f)) (drop (length (payload_bytes (take i frames))) (payload_bytes frames)) =
  fr_payload f.
Proof.
  intros Hf. rewrite <- (take_drop_middle _ _ _ Hf) at 2.
  rewrite payload_bytes_app, drop_app_length.
  change (f :: drop (S i) frames) with ([f] ++ drop (S i) frames).
  by rewrite payload_bytes_app, payload_bytes_one, take_app_length.
Qed.

(** The payload of a frame ends inside the bytes of the frames. *)
Lemma payload_end frames i f :
  frames !! i = Some f →
  len (payload_bytes (take i frames)) + len (fr_payload f) = len (payload_bytes (take (S i) frames)) ∧
  len (payload_bytes (take (S i) frames)) ≤ len (payload_bytes frames).
Proof.
  intros Hf. split.
  - by rewrite (take_S_r _ _ _ Hf), payload_bytes_app, payload_bytes_one, len_app.
  - rewrite <- (take_drop (S i) frames) at 2. rewrite payload_bytes_app, len_app.
    pose proof (len_nonneg (payload_bytes (drop (S i) frames))). lia.
Qed.

(** The sequences of a page do not repeat. *)
Lemma distance_of i n :
  in_u64 (sc_first_sequence config) → Z.of_nat i < MAX_SLAB_DESCRIPTORS →
  n = wrap64 (sc_first_sequence config + Z.of_nat i) →
  wrapping_sub64 n (sc_first_sequence config) = Z.of_nat i.
Proof.
  intros _ Hi ->. unfold wrapping_sub64, wrap64. rewrite Zminus_mod_idemp_l.
  rewrite Z.mod_small; [lia|]. unfold MAX_SLAB_DESCRIPTORS, two64 in *.
  change (Z.shiftl 1 16) with 65536 in Hi. lia.
Qed.

(** A frame's descriptor passes the range check of a page that has it. *)
Lemma range_of frames i f page_len :
  fits frames → sc_byte_capacity config ≤ MAX_SLAB_PAGE_BYTES → frames !! i = Some f →
  len (payload_bytes (take (S i) frames)) ≤ page_len →
  checked_payload_range (describe (take i frames) f) page_len =
    Ok (len (payload_bytes (take i frames)),
        len (payload_bytes (take i frames)) + len (fr_payload f)).
Proof.
  intros (Hall & _ & Hb) Hcap Hf Hlen. destruct (payload_end _ _ _ Hf) as [He Hle].
  pose proof (proj1 (list.Forall_lookup _ _) Hall i f Hf) as Hsz. cbv beta in Hsz.
  unfold checked_payload_range. simpl.
  destruct (Z.ltb_spec MAX_FRAME_BYTES (len (fr_payload f))); [lia|].
  rewrite He. destruct (Z.ltb_spec u32_max (len (payload_bytes (take (S i) frames)))).
  { change MAX_SLAB_PAGE_BYTES with 67108864 in Hcap. unfold u32_max in *. lia. }
  destruct (Z.ltb_spec page_len (len (payload_bytes (take (S i) frames)))); [lia|]. done.
Qed.
End Table.

(** ** Pages that are filled, sealed and read *)

(** [PageData], the fields of [SlabPageBuilder], [SealedSlabPage] and
    [SlabPageReader]. *)
Record PageData := {
  pg_arena_id : Z;
  pg_arena_generation : Z;
  pg_byte_capacity : Z;
  pg_descriptor_capacity : Z;
  pg_first_sequence : Z;
  pg_next_sequence : Z;
  pg_bytes : list byte;
  pg_descriptors : list TelemetryDescriptor }.

(** [v[range]] for a range that is in bounds. *)
Definition slice {A} (lo hi : Z) (l : list A) : list A :=
  take (Z.to_nat (hi - lo)) (drop (Z.to_nat lo) l).

Module SlabPage.
Section SlabPage.
Context (crc32c : list byte → Z) (alloc : SlabResource → Z → bool).

(** [SlabPageBuilder::new] *)
Definition new (config : SlabPageConfig) : Result PageData SlabConfigError :=
  match validate_config config with
  | Err e => Err e
  | Ok _ =>
      if negb (alloc PayloadBytes (sc_byte_capacity config)) then
        Err (AllocationFailed PayloadBytes (sc_byte_capacity config))
      else if negb (alloc Descriptors (sc_descriptor_capacity config)) then
        Err (AllocationFailed Descriptors (sc_descriptor_capacity config))
      else Ok {|
        pg_arena_id := sc_arena_id config;
        pg_arena_generation := sc_arena_generation config;
        pg_byte_capacity := sc_byte_capacity config;
        pg_descriptor_capacity := sc_descriptor_capacity config;
        pg_first_sequence := sc_first_sequence config;
        pg_next_sequence := sc_first_sequence config;
        pg_bytes := []; pg_descriptors := [] |}
  end.

(** [try_append]: on an error the page is as it was. *)
Definition try_append (payload : list byte) (schema_id flags : Z) (page : PageData) :
    Result unit SlabAppendError * PageData :=
  let l := len payload in
  if l =? 0 then (Err EmptyPayload, page)
  else if MAX_FRAME_BYTES <? l then (Err (FrameTooLarge l MAX_FRAME_BYTES), page)
  else if len (pg_descriptors page) =? pg_descriptor_capacity page then
    (Err (DescriptorCapacityExhausted (pg_descriptor_capacity page)), page)
  else
    let offset := len (pg_bytes page) in
    let end_ := offset + l in
    if usize_max <? end_ then (Err (OffsetLengthOverflow offset l), page)
    else if pg_byte_capacity page <? end_ then
      (Err (PageFull l (pg_byte_capacity page - offset)), page)
    else if u32_max <? offset then (Err (OffsetNotAddressable offset), page)
    else if u32_max <? l then (Err (LengthNotAddressable l), page)
    else
      let descriptor := {|
        td_sequence := pg_next_sequence page;
        td_arena_generation := pg_arena_generation page;
        td_arena_id := pg_arena_id page;
        td_flags := flags; td_offset := offset; td_len := l;
        td_crc32c := crc32c payload; td_schema_id := schema_id |} in
      (Ok tt, {|
        pg_arena_id := pg_arena_id page;
        pg_arena_generation := pg_arena_generation page;
        pg_byte_capacity := pg_byte_capacity page;
        pg_descriptor_capacity := pg_descriptor_capacity page;
        pg_first_sequence := pg_first_sequence page;
        pg_next_sequence := wrapping_add64 (pg_next_sequence page) 1;
        pg_bytes := pg_bytes page ++ payload;
        pg_descriptors := pg_descriptors page ++ [descriptor] |}).

(** [SlabPageReader::resolve].  The slice is in bounds: the range was checked
    against the bytes. *)
Definition resolve (page : PageData) (d : TelemetryDescriptor) :
    Result (list byte) SlabReadError :=
  if negb (td_arena_id d =? pg_arena_id page) then
    Err (ArenaIdMismatch (pg_arena_id page) (td_arena_id d))
  else if negb (td_arena_generation d =? pg_arena_generation page) then
    Err (GenerationMismatch (pg_arena_generation page) (td_arena_generation d))
  else if td_len d =? 0 then Err ReadEmptyPayload
  else
    let distance := wrapping_sub64 (td_sequence d) (pg_first_sequence page) in
    if len (pg_descriptors page) <=? distance then
      Err (UnknownSequence (pg_first_sequence page) (len (pg_descriptors page)) (td_sequence d))
    else
      match pg_descriptors page !! Z.to_nat distance with
      | None => Err (DescriptorMismatch (td_sequence d))
      | Some canonical =>
          if negb (bool_decide (canonical = d)) then Err (DescriptorMismatch (td_sequence d))
          else
            match checked_payload_range canonical (len (pg_bytes page)) with
            | Err e => Err (ReadDescriptor e)
            | Ok (lo, hi) =>
                let payload := slice lo hi (pg_bytes page) in
                if negb (crc32c payload =? td_crc32c canonical)
                then Err (CrcMismatch (td_sequence canonical))
                else Ok payload
            end
      end.

(** Appends one after the other; the frames that were taken. *)
Fixpoint appends (frames : list Frame) (page : PageData) : list Frame * PageData :=
  match frames with
  | [] => ([], page)
  | f :: frames =>
      let '(r, page) := try_append (fr_payload f) (fr_schema_id f) (fr_flags f) page in
      let '(taken, page) := appends frames page in
      (match r with Ok _ => f :: taken | Err _ => taken end, page)
  end.

(** ** A sealed page holds what was appended *)

(** The page holds these frames. *)
Record holds (config : SlabPageConfig) (frames : list Frame) (page : PageData) : Prop := {
  ho_ids : pg_arena_id page = sc_arena_id config ∧
           pg_arena_generation page = sc_arena_generation config;
  ho_caps : pg_byte_capacity page = sc_byte_capacity config ∧
            pg_descriptor_capacity page = sc_descriptor_capacity config;
  ho_first : pg_first_sequence page = sc_first_sequence config;
  ho_next : pg_next_sequence page = wrap64 (sc_first_sequence config + len frames);
  ho_bytes : pg_bytes page = payload_bytes frames;
  ho_table : pg_descriptors page = table crc32c config frames;
  ho_fits : fits config frames }.

Lemma try_append_holds config frames page f :
  holds config frames page →
  match try_append (fr_payload f) (fr_schema_id f) (fr_flags f) page with
  | (Ok _, page') => holds config (frames ++ [f]) page'
  | (Err _, page') => page' = page
  end.
Proof.
  intros []. unfold try_append.
  destruct (Z.eqb_spec (len (fr_payload f)) 0); [done|].
  destruct (Z.ltb_spec MAX_FRAME_BYTES (len (fr_payload f))); [done|].
  destruct (Z.eqb_spec (len (pg_descriptors page)) (pg_descriptor_capacity page)); [done|].
  destruct (Z.ltb_spec usize_max (len (pg_bytes page) + len (fr_payload f))); [done|].
  destruct (Z.ltb_spec (pg_byte_capacity page) (len (pg_bytes page) + len (fr_payload f))); [done|].
  destruct (Z.ltb_spec u32_max (len (pg_bytes page))); [done|].
  destruct (Z.ltb_spec u32_max (len (fr_payload f))); [done|].
  destruct ho_ids0 as [Hid Hgen], ho_caps0 as [Hbc Hdc], ho_fits0 as (Hf & Hc & Hb).
  pose proof (len_nonneg (fr_payload f)).
  assert (len (pg_descriptors page) = len frames) as Hlen.
  { unfold len. by rewrite ho_table0, table_length. }
  split; simpl; try done.
  - rewrite ho_next0, len_app. unfold wrapping_add64, wrap64. rewrite Zplus_mod_idemp_l.
    f_equal. unfold len. simpl. lia.
  - by rewrite payload_bytes_app, payload_bytes_one, ho_bytes0.
  - rewrite table_snoc, ho_table0. f_equal. unfold describe.
    by rewrite <- ho_bytes0, <- ho_next0, Hid, Hgen.
  - split.
    + apply Forall_app. split; [done|]. repeat constructor; lia.
    + rewrite payload_bytes_app, payload_bytes_one, !len_app, <- ho_bytes0.
      change (len [f]) with 1. rewrite Hlen, Hdc in *. lia.
Qed.

Lemma appends_holds config frames before page taken page' :
  holds config before page → appends frames page = (taken, page') →
  holds config (before ++ taken) page'.
Proof.
  revert before page taken page'. induction frames as [|f frames IH]; intros before page taken page' Hh; simpl.
  - intros [= <- <-]. by rewrite app_nil_r.
  - pose proof (try_append_holds config before page f Hh) as Hf.
    destruct (try_append _ _ _ page) as [r page1]. destruct (appends frames page1) as [l page2] eqn:Hl.
    destruct r as [u|e]; intros [= <- <-].
    + change (f :: l) with ([f] ++ l). rewrite app_assoc. by apply (IH _ page1).
    + subst page1. by apply (IH _ page).
Qed.

Lemma new_holds config page : in_range config → new config = Ok page → holds config [] page.
Proof.
  intros Hr. unfold new. destruct (validate_config config) as [[]|] eqn:Hv; [|done].
  destruct (alloc PayloadBytes _); [|done]. destruct (alloc Descriptors _); [|done].
  intros [= <-]. destruct Hr as (Hb & Hd & Hs). split; simpl; try done.
  unfold len. simpl. rewrite Z.add_0_r. symmetry. by apply wrap64_id.
Qed.

(** What a page answers: exactly the payloads of its own descriptors. *)
Lemma resolve_exact config frames page d payload :
  in_range config → validate_config config = Ok tt → holds config frames page →
  resolve page d = Ok payload ↔
  ∃ i f, frames !! i = Some f ∧ table crc32c config frames !! i = Some d ∧ payload = fr_payload f.
Proof.
  intros Hr Hv []. destruct (valid_config config Hr Hv) as [Hbc Hdc].
  destruct ho_ids0 as [Hid Hgen], Hr as (_ & _ & Hu). unfold resolve. rewrite Hid, Hgen, ho_first0.
  pose proof ho_fits0 as (Hall & Hc & _).
  assert (len (pg_descriptors page) = len frames) as Hlen.
  { unfold len. by rewrite ho_table0, table_length. }
  assert (∀ i f, frames !! i = Some f →
    checked_payload_range (describe crc32c config (take i frames) f) (len (pg_bytes page)) =
      Ok (len (payload_bytes (take i frames)),
          len (payload_bytes (take i frames)) + len (fr_payload f)) ∧
    slice (len (payload_bytes (take i frames)))
      (len (payload_bytes (take i frames)) + len (fr_payload f)) (pg_bytes page) = fr_payload f) as Hrange.
  { intros i f Hf. rewrite ho_bytes0. split.
    - apply range_of; [done|lia|done|by destruct (payload_end _ _ _ Hf)].
    - unfold slice. rewrite Z.add_simpl_l. unfold len. rewrite !Nat2Z.id. by apply payload_at. }
  split.
  - destruct (negb _); [done|]. destruct (negb _); [done|]. destruct (td_len d =? 0); [done|].
    destruct (_ <=? _); [done|]. rewrite ho_table0.
    destruct (table crc32c config frames !! _) as [c|] eqn:Ht; [|done].
    case_bool_decide as Hcd; [|done]. subst c. simpl.
    pose proof Ht as (f & Hf & Hd)%table_lookup_inv. destruct (Hrange _ _ Hf) as [Hrg Hsl].
    rewrite <- Hd in Hrg. rewrite Hrg, Hsl. destruct (negb _); [done|]. intros [= <-]. eauto.
  - intros (i & f & Hf & Ht & ->). pose proof Ht as (f' & Hf' & ->)%table_lookup_inv.
    rewrite Hf in Hf'. injection Hf' as <-. destruct (Hrange _ _ Hf) as [Hrg Hsl].
    pose proof (proj1 (list.Forall_lookup _ _) Hall i f Hf) as Hsz. cbv beta in Hsz.
    pose proof (lookup_lt_Some _ _ _ Hf) as Hlt.
    assert (Z.of_nat i < len frames) as Hi by (unfold len; lia).
    assert (len (take i frames) = Z.of_nat i) as Htk.
    { unfold len. rewrite length_take. lia. }
    simpl. rewrite !Z.eqb_refl. simpl. destruct (Z.eqb_spec (len (fr_payload f)) 0); [lia|].
    rewrite Htk, (distance_of config i _ Hu) by (done || lia).
    rewrite Hlen. destruct (Z.leb_spec (len frames) (Z.of_nat i)); [lia|].
    rewrite Nat2Z.id, ho_table0, Ht. rewrite bool_decide_eq_true_2 by done. simpl.
    rewrite Hrg, Hsl. by rewrite Z.eqb_refl.
Qed.
End SlabPage.
End SlabPage.

(** A slab page is a faithful store.  After any appends to a new page,
    sealing it and reading a descriptor answers a payload exactly when the
    descriptor is, field for field, one the page issued, and the payload is then
    the one that was appended with it; the frames taken never exceed the page's
    capacities, and an append that is refused leaves the page as it was. *)
Theorem sealed_page_resolves_exactly crc32c alloc config frames page taken sealed d payload :
  in_range config → SlabPage.new alloc config = Ok page →
  SlabPage.appends crc32c frames page = (taken, sealed) →
  fits config taken ∧ pg_descriptors sealed = table crc32c config taken ∧
  (SlabPage.resolve crc32c sealed d = Ok payload ↔
   ∃ i f, taken !! i = Some f ∧ pg_descriptors sealed !! i = Some d ∧ payload = fr_payload f).
Proof.
  intros Hr Hn Ha. assert (validate_config config = Ok tt) as Hv.
  { unfold SlabPage.new in Hn. by destruct (validate_config config) as [[]|]. }
  pose proof (SlabPage.new_holds crc32c alloc config page Hr Hn) as Hh.
  apply (SlabPage.appends_holds _ _ _ _ _ _ _ Hh) in Ha. rewrite app_nil_l in Ha.
  split; [apply Ha|]. split; [apply Ha|].
  rewrite (SlabPage.ho_table _ _ _ _ Ha). by apply SlabPage.resolve_exact.
Qed.

(** A page of eight bytes that starts at the last sequence number; the third
    frame does not fit. *)
Definition demo_config : SlabPageConfig := {|
  sc_arena_id := 5; sc_arena_generation := 8; sc_byte_capacity := 8; sc_descriptor_capacity := 4;
  sc_first_sequence := two64 - 1 |}.

Definition demo_crc (l : list byte) : Z := fold_right (λ b n, (n * 31 + Z.of_N (Byte.to_N b)) `mod` 4294967296) 7 l.

Definition demo_frames : list Frame := [
  {| fr_payload := [x61; x62; x63]; fr_schema_id := 1; fr_flags := 0 |};
  {| fr_payload := [x64; x65]; fr_schema_id := 1; fr_flags := 2 |};
  {| fr_payload := [x66; x66; x66; x66]; fr_schema_id := 1; fr_flags := 0 |}].

Lemma sealed_page_resolves_exactly_witness :
  ∃ page taken sealed d,
    SlabPage.new (λ _ _, true) demo_config = Ok page ∧
    SlabPage.appends demo_crc demo_frames page = (taken, sealed) ∧
    pg_descriptors sealed !! 1%nat = Some d ∧ td_sequence d = 0 ∧
    SlabPage.resolve demo_crc sealed d = Ok [x64; x65].
Proof.
  destruct (SlabPage.new (λ _ _, true) demo_config) as [page|] eqn:Hn; [|vm_compute in Hn; discriminate].
  destruct (SlabPage.appends demo_crc demo_frames page) as [taken sealed] eqn:Ha.
  assert (in_range demo_config) as Hr by (repeat split; vm_compute; congruence).
  destruct (pg_descriptors sealed !! 1%nat) as [d|] eqn:Hd;
    vm_compute in Hn; injection Hn as <-; vm_compute in Ha; injection Ha as <- <-;
    vm_compute in Hd; [injection Hd as <-|discriminate].
  do 4 eexists. split; [reflexivity|]. split; [vm_compute; reflexivity|].
  split; [reflexivity|]. split; [reflexivity|].
  eapply (sealed_page_resolves_exactly demo_crc (λ _ _, true) demo_config demo_frames);
    [exact Hr|vm_compute; reflexivity|vm_compute; reflexivity|].
  exists 1%nat. eexists. repeat split; vm_compute; reflexivity.
Defined.
