(* ===== verification/Page.v ===== *)
(** * Published slab pages

    Models [src/lib/event/src/published_slab.rs]: a page of fixed size that one
    writer appends to while one reader resolves descriptors.  The writer
    publishes a prefix of the page by one release store of a packed word (bytes,
    count, closed); the reader takes an acquire snapshot of it.

    The operations are programs over the accesses they make.  In the memory the
    word is the list of the values stored to it, and a load may answer any of
    them from the last one the reader has seen on.  A cell is initialised once;
    it remembers which store of the word is the first to cover it, and a read of
    a cell that is not initialised, or that no store the reader has seen covers,
    is an access that cannot be made, like a second write or an index out of
    range.  So a program that is never stuck has no data race. *)

From S2P Require Import Prelude Prog Slab.
#[local] Open Scope Z_scope.

(** ** The packed word *)

Definition PUBLISHED_BYTES_MASK : Z := u32_max.
Definition PUBLISHED_COUNT_SHIFT : Z := 32.
Definition PUBLISHED_COUNT_MASK : Z := Z.shiftl 1 17 - 1.
Definition WRITER_CLOSED_BIT : Z := Z.shiftl 1 63.
Definition VALID_STATE_MASK : Z :=
  Z.lor (Z.lor PUBLISHED_BYTES_MASK (Z.shiftl PUBLISHED_COUNT_MASK PUBLISHED_COUNT_SHIFT))
        WRITER_CLOSED_BIT.
(** [!VALID_STATE_MASK] in 64 bits *)
Definition RESERVED_STATE_MASK : Z := Z.lxor (two64 - 1) VALID_STATE_MASK.

Record PublicationSnapshot := {
  ps_published_bytes : Z;
  ps_published_count : Z;
  ps_writer_closed : bool;
  ps_reserved_bits : Z }.

Definition decode (raw : Z) : PublicationSnapshot := {|
  ps_published_bytes := Z.land raw PUBLISHED_BYTES_MASK;
  ps_published_count := Z.land (Z.shiftr raw PUBLISHED_COUNT_SHIFT) PUBLISHED_COUNT_MASK;
  ps_writer_closed := negb (Z.land raw WRITER_CLOSED_BIT =? 0);
  ps_reserved_bits := Z.land raw RESERVED_STATE_MASK |}.

Definition encode_publication_state (published_count published_bytes : Z) (closed : bool) : Z :=
  let state := Z.lor published_bytes (Z.shiftl published_count PUBLISHED_COUNT_SHIFT) in
  if closed then Z.lor state WRITER_CLOSED_BIT else state.

(** A number is its own masked part, and shares no bit with another mask. *)
Lemma land_mask z n m : 0 ≤ n → 0 ≤ z < 2 ^ n → Z.land z m = Z.land z (Z.land (Z.ones n) m).
Proof. intros Hn Hz. rewrite Z.land_assoc, Z.land_ones, Z.mod_small by done. done. Qed.

Lemma land_mask_shift z s n m :
  0 ≤ s → 0 ≤ n → 0 ≤ z < 2 ^ n →
  Z.land (Z.shiftl z s) m = Z.land (Z.shiftl z s) (Z.land (Z.shiftl (Z.ones n) s) m).
Proof.
  intros Hs Hn Hz. rewrite Z.land_assoc, <- Z.shiftl_land, Z.land_ones, Z.mod_small by done. done.
Qed.

(** The fields of the word do not overlap. *)
Lemma decode_encode count bytes closed :
  0 ≤ count < 2 ^ 17 → 0 ≤ bytes < 2 ^ 32 →
  decode (encode_publication_state count bytes closed) =
    {| ps_published_bytes := bytes; ps_published_count := count;
       ps_writer_closed := closed; ps_reserved_bits := 0 |}.
Proof.
  intros Hc Hb. unfold decode, encode_publication_state. f_equal.
  - destruct closed; rewrite !Z.land_lor_distr_l;
      rewrite (land_mask_shift count 32 17) by lia; change (Z.land (Z.shiftl _ _) PUBLISHED_BYTES_MASK) with 0;
      rewrite (land_mask bytes 32) by lia; change (Z.land (Z.ones 32) PUBLISHED_BYTES_MASK) with (Z.ones 32);
      rewrite Z.land_ones, Z.mod_small by lia; by rewrite ?Z.land_0_r, ?Z.lor_0_r.
  - assert (Z.shiftr bytes PUBLISHED_COUNT_SHIFT = 0) as H0.
    { rewrite Z.shiftr_div_pow2 by done. apply Z.div_small. exact Hb. }
    assert (Z.shiftr (Z.shiftl count PUBLISHED_COUNT_SHIFT) PUBLISHED_COUNT_SHIFT = count) as H1.
    { rewrite Z.shiftr_shiftl_l by done. apply Z.shiftl_0_r. }
    destruct closed; rewrite !Z.shiftr_lor, H0, H1, Z.lor_0_l, ?Z.land_lor_distr_l;
      change PUBLISHED_COUNT_MASK with (Z.ones 17); rewrite Z.land_ones, Z.mod_small by lia; [|done].
    change (Z.land (Z.shiftr WRITER_CLOSED_BIT PUBLISHED_COUNT_SHIFT) (Z.ones 17)) with 0.
    apply Z.lor_0_r.
  - destruct closed; rewrite !Z.land_lor_distr_l; rewrite (land_mask_shift count 32 17) by lia;
      rewrite (land_mask bytes 32) by lia;
      change (Z.land (Z.shiftl (Z.ones 17) 32) WRITER_CLOSED_BIT) with 0;
      change (Z.land (Z.ones 32) WRITER_CLOSED_BIT) with 0; by rewrite !Z.land_0_r.
  - destruct closed; rewrite !Z.land_lor_distr_l; rewrite (land_mask_shift count 32 17) by lia;
      rewrite (land_mask bytes 32) by lia;
      change (Z.land (Z.shiftl (Z.ones 17) 32) RESERVED_STATE_MASK) with 0;
      change (Z.land (Z.ones 32) RESERVED_STATE_MASK) with 0; by rewrite !Z.land_0_r.
Qed.

(** Closing twice is closing once. *)
Lemma close_word count bytes closed :
  Z.lor (encode_publication_state count bytes closed) WRITER_CLOSED_BIT =
  encode_publication_state count bytes true.
Proof.
  unfold encode_publication_state. destruct closed; [|done]. by rewrite <- Z.lor_assoc, Z.lor_diag.
Qed.

(** ** The accesses *)

Inductive PageE : Type → Type :=
| LoadPublication : PageE Z
| StorePublication (v : Z) : PageE unit
| OrPublication (bits : Z) : PageE unit
| HasBytes (lo hi : Z) : PageE bool
| WriteBytes (offset : Z) (payload : list byte) : PageE unit
| ReadBytes (lo hi : Z) : PageE (list byte)
| HasDescriptor (i : Z) : PageE bool
| WriteDescriptor (i : Z) (d : TelemetryDescriptor) : PageE unit
| ReadDescriptorCell (i : Z) : PageE TelemetryDescriptor.

Inductive PublishedSlabReadError :=
| PageArenaIdMismatch (page descriptor : Z)
| PageGenerationMismatch (page descriptor : Z)
| PublicationStateInvalid
| UnpublishedSequence (first committed descriptor : Z)
| PageDescriptorMismatch (sequence : Z)
| EmptyCanonicalPayload (sequence : Z)
| PageDescriptor (e : DescriptorError)
| PageCrcMismatch (sequence : Z).

Inductive SlabRebindError := OutstandingEndpoints.

(** The writer's own fields; the page's constant fields are its configuration. *)
Record PublishedSlabWriter := {
  sw_used_bytes : Z;
  sw_descriptor_count : Z;
  sw_next_sequence : Z;
  sw_poisoned : bool }.

Record AppendPlan := {
  pl_descriptor_index : Z;
  pl_offset : Z;
  pl_end : Z;
  pl_descriptor_offset : Z;
  pl_descriptor_len : Z;
  pl_published_bytes : Z;
  pl_next_count : Z;
  pl_next_sequence : Z }.

Record PublishedSlabStatus := {
  st_published_count : Z;
  st_published_bytes : Z;
  st_writer_closed : bool }.

Module Page.
Section Page.
Context (crc32c : list byte → Z) (config : SlabPageConfig).
Notation Prog A := (prog PageE A).

Definition snapshot_is_valid (s : PublicationSnapshot) : bool :=
  let empty_fields_disagree :=
    negb (Bool.eqb (ps_published_count s =? 0) (ps_published_bytes s =? 0)) in
  (ps_reserved_bits s =? 0) &&
  (ps_published_count s <=? sc_descriptor_capacity config) &&
  (ps_published_bytes s <=? sc_byte_capacity config) &&
  (ps_published_count s <=? ps_published_bytes s) && negb empty_fields_disagree.

Definition load_snapshot : Prog (Result PublicationSnapshot PublishedSlabReadError) :=
  raw ← trigger LoadPublication;
  let snapshot := decode raw in
  if negb (snapshot_is_valid snapshot) then mret (Err PublicationStateInvalid)
  else mret (Ok snapshot).

(** ** Writer *)

(** [open], which [split] calls *)
Definition open_writer : PublishedSlabWriter :=
  {| sw_used_bytes := 0; sw_descriptor_count := 0; sw_next_sequence := sc_first_sequence config;
     sw_poisoned := false |}.

Definition append_plan (l : Z) (w : PublishedSlabWriter) : Result AppendPlan SlabAppendError :=
  if sw_poisoned w then Err WriterPoisoned
  else if l =? 0 then Err EmptyPayload
  else if MAX_FRAME_BYTES <? l then Err (FrameTooLarge l MAX_FRAME_BYTES)
  else
    let descriptor_index := sw_descriptor_count w in
    if sc_descriptor_capacity config <=? descriptor_index then
      Err (DescriptorCapacityExhausted (sc_descriptor_capacity config))
    else
      let offset := sw_used_bytes w in
      if sc_byte_capacity config <? offset then Err (PageFull l 0)
      else
        let remaining := sc_byte_capacity config - offset in
        let end_ := offset + l in
        if usize_max <? end_ then Err (OffsetLengthOverflow offset l)
        else if (remaining <? l) || (sc_byte_capacity config <? end_) then Err (PageFull l remaining)
        else if u32_max <? offset then Err (OffsetNotAddressable offset)
        else if u32_max <? l then Err (LengthNotAddressable l)
        else if u32_max <? end_ then Err (OffsetNotAddressable end_)
        else Ok {|
          pl_descriptor_index := descriptor_index; pl_offset := offset; pl_end := end_;
          pl_descriptor_offset := offset; pl_descriptor_len := l; pl_published_bytes := end_;
          pl_next_count := sw_descriptor_count w + 1;
          pl_next_sequence := wrapping_add64 (sw_next_sequence w) 1 |}.

Definition preflight_append (l : Z) (w : PublishedSlabWriter) : Result unit SlabAppendError :=
  match append_plan l w with Ok _ => Ok tt | Err e => Err e end.

(** [try_append].  Nothing between the first write and the last assignment can
    fail, so the writer is poisoned only there. *)
Definition try_append (payload : list byte) (schema_id flags : Z) (w : PublishedSlabWriter) :
    Prog (Result TelemetryDescriptor SlabAppendError * PublishedSlabWriter) :=
  match append_plan (len payload) w with
  | Err e => mret (Err e, w)
  | Ok plan =>
      let descriptor := {|
        td_sequence := sw_next_sequence w;
        td_arena_generation := sc_arena_generation config;
        td_arena_id := sc_arena_id config;
        td_flags := flags; td_offset := pl_descriptor_offset plan;
        td_len := pl_descriptor_len plan; td_crc32c := crc32c payload;
        td_schema_id := schema_id |} in
      let next_state := encode_publication_state (pl_next_count plan) (pl_published_bytes plan) false in
      found ← trigger (HasBytes (pl_offset plan) (pl_end plan));
      if negb found then
        mret (Err (PageFull (len payload) (sc_byte_capacity config - pl_offset plan)), w)
      else
        found ← trigger (HasDescriptor (pl_descriptor_index plan));
        if negb found then
          mret (Err (DescriptorCapacityExhausted (sc_descriptor_capacity config)), w)
        else
          _ ← trigger (WriteBytes (pl_offset plan) payload);
          _ ← trigger (WriteDescriptor (pl_descriptor_index plan) descriptor);
          _ ← trigger (StorePublication next_state);
          mret (Ok descriptor,
                {| sw_used_bytes := pl_published_bytes plan;
                   sw_descriptor_count := pl_next_count plan;
                   sw_next_sequence := pl_next_sequence plan; sw_poisoned := false |})
  end.

(** [close], also what dropping the writer does *)
Definition close : Prog unit := trigger (OrPublication WRITER_CLOSED_BIT).

(** ** Reader *)

(** [PublishedInner::payload] *)
Definition read_payload (lo hi : Z) : Prog (Result (list byte) PublishedSlabReadError) :=
  found ← trigger (HasBytes lo hi);
  if negb found then mret (Err PublicationStateInvalid)
  else if hi =? lo then mret (Err PublicationStateInvalid)
  else
    bytes ← trigger (ReadBytes lo hi);
    mret (Ok bytes).

Definition resolve (d : TelemetryDescriptor) : Prog (Result (list byte) PublishedSlabReadError) :=
  if negb (td_arena_id d =? sc_arena_id config) then
    mret (Err (PageArenaIdMismatch (sc_arena_id config) (td_arena_id d)))
  else if negb (td_arena_generation d =? sc_arena_generation config) then
    mret (Err (PageGenerationMismatch (sc_arena_generation config) (td_arena_generation d)))
  else
    snapshot ←? load_snapshot;
    let distance := wrapping_sub64 (td_sequence d) (sc_first_sequence config) in
    if ps_published_count snapshot <=? distance then
      mret (Err (UnpublishedSequence (sc_first_sequence config) (ps_published_count snapshot)
                   (td_sequence d)))
    else
      found ← trigger (HasDescriptor distance);
      if negb found then mret (Err PublicationStateInvalid)
      else
        canonical ← trigger (ReadDescriptorCell distance);
        if negb (bool_decide (canonical = d)) then mret (Err (PageDescriptorMismatch (td_sequence d)))
        else if td_len canonical =? 0 then
          mret (Err (EmptyCanonicalPayload (td_sequence canonical)))
        else
          match checked_payload_range canonical (ps_published_bytes snapshot) with
          | Err e => mret (Err (PageDescriptor e))
          | Ok (lo, hi) =>
              payload ←? read_payload lo hi;
              if negb (crc32c payload =? td_crc32c canonical)
              then mret (Err (PageCrcMismatch (td_sequence canonical)))
              else mret (Ok payload)
          end.

Definition status : Prog (Result PublishedSlabStatus PublishedSlabReadError) :=
  snapshot ←? load_snapshot;
  mret (Ok {| st_published_count := ps_published_count snapshot;
              st_published_bytes := ps_published_bytes snapshot;
              st_writer_closed := ps_writer_closed snapshot |}).
End Page.

(** ** The memory *)

(** [pm_view]: the last store of the word the reader has seen.  A cell holds its
    value and the place of the store that covers it. *)
Record PageMem := {
  pm_pub : list Z;
  pm_view : nat;
  pm_bytes : list (option (byte * nat));
  pm_descriptors : list (option (TelemetryDescriptor * nat)) }.

(** [PublishedSlabPage::new] *)
Definition new (alloc : SlabResource → Z → bool) (config : SlabPageConfig) :
    Result PageMem SlabConfigError :=
  match validate_config config with
  | Err e => Err e
  | Ok _ =>
      if negb (alloc PayloadBytes (sc_byte_capacity config)) then
        Err (AllocationFailed PayloadBytes (sc_byte_capacity config))
      else if negb (alloc Descriptors (sc_descriptor_capacity config)) then
        Err (AllocationFailed Descriptors (sc_descriptor_capacity config))
      else Ok {|
        pm_pub := [0]; pm_view := 0;
        pm_bytes := replicate (Z.to_nat (sc_byte_capacity config)) None;
        pm_descriptors := replicate (Z.to_nat (sc_descriptor_capacity config)) None |}
  end.

(** [rebind]: with no endpoint left, the page is as new under another
    generation and first sequence. *)
Definition rebind (endpoints : bool) (arena_generation first_sequence : Z)
    (config : SlabPageConfig) (m : PageMem) : Result (SlabPageConfig * PageMem) SlabRebindError :=
  if endpoints then Err OutstandingEndpoints
  else Ok
    ({| sc_arena_id := sc_arena_id config; sc_arena_generation := arena_generation;
        sc_byte_capacity := sc_byte_capacity config;
        sc_descriptor_capacity := sc_descriptor_capacity config;
        sc_first_sequence := first_sequence |},
     {| pm_pub := [0]; pm_view := 0; pm_bytes := map (λ _, None) (pm_bytes m);
        pm_descriptors := map (λ _, None) (pm_descriptors m) |}).

Definition see (j : nat) (m : PageMem) : PageMem :=
  {| pm_pub := pm_pub m; pm_view := j; pm_bytes := pm_bytes m; pm_descriptors := pm_descriptors m |}.

Definition store (v : Z) (m : PageMem) : PageMem :=
  {| pm_pub := pm_pub m ++ [v]; pm_view := pm_view m; pm_bytes := pm_bytes m;
     pm_descriptors := pm_descriptors m |}.

(** Cells initialised from a place on. *)
Definition write_at {A} (offset : nat) (vs : list A) (cells : list (option A)) : list (option A) :=
  take offset cells ++ map Some vs ++ drop (offset + length vs) cells.

Definition write_bytes (offset : nat) (payload : list byte) (m : PageMem) : PageMem :=
  {| pm_pub := pm_pub m; pm_view := pm_view m;
     pm_bytes := write_at offset (map (λ b, (b, length (pm_pub m))) payload) (pm_bytes m);
     pm_descriptors := pm_descriptors m |}.

Definition write_descriptor (i : nat) (d : TelemetryDescriptor) (m : PageMem) : PageMem :=
  {| pm_pub := pm_pub m; pm_view := pm_view m; pm_bytes := pm_bytes m;
     pm_descriptors := write_at i [(d, length (pm_pub m))] (pm_descriptors m) |}.

(** The cells of a range, all of them never written. *)
Definition fresh {A} (lo n : nat) (cells : list (option A)) : Prop :=
  take n (drop lo cells) = replicate n None.

(** The cells of a range, all of them covered by a store the reader has seen. *)
Definition covered {A} (view lo n : nat) (cells : list (option (A * nat))) (vs : list A) : Prop :=
  ∃ l, take n (drop lo cells) = map Some l ∧ Forall (λ x, (x.2 ≤ view)%nat) l ∧ vs = map fst l ∧
       length vs = n.

(** The access [e] can answer [r] and leave [m']. *)
Definition access {T} (e : PageE T) (m : PageMem) (r : T) (m' : PageMem) : Prop :=
  match e in PageE T return T → Prop with
  | LoadPublication => λ r, ∃ j, (pm_view m ≤ j)%nat ∧ pm_pub m !! j = Some r ∧ m' = see j m
  | StorePublication v => λ _, m' = store v m
  | OrPublication bits => λ _, ∃ v, list.last (pm_pub m) = Some v ∧ m' = store (Z.lor v bits) m
  | HasBytes lo hi => λ r,
      r = bool_decide (0 ≤ lo ∧ lo ≤ hi ∧ hi ≤ len (pm_bytes m)) ∧ m' = m
  | WriteBytes offset payload => λ _,
      0 ≤ offset ∧ fresh (Z.to_nat offset) (length payload) (pm_bytes m) ∧
      m' = write_bytes (Z.to_nat offset) payload m
  | ReadBytes lo hi => λ r,
      0 ≤ lo ≤ hi ∧ covered (pm_view m) (Z.to_nat lo) (Z.to_nat (hi - lo)) (pm_bytes m) r ∧ m' = m
  | HasDescriptor i => λ r, r = bool_decide (0 ≤ i < len (pm_descriptors m)) ∧ m' = m
  | WriteDescriptor i d => λ _,
      0 ≤ i ∧ fresh (Z.to_nat i) 1 (pm_descriptors m) ∧ m' = write_descriptor (Z.to_nat i) d m
  | ReadDescriptorCell i => λ d,
      0 ≤ i ∧ covered (pm_view m) (Z.to_nat i) 1 (pm_descriptors m) [d] ∧ m' = m
  end r.
End Page.
