(* ===== verification/Channel.v ===== *)
(** * The admission channel

    Models [src/lib/event/src/admission.rs]: one published page and one ring of
    descriptors bound together.  The producer appends a frame to the page and
    then publishes its descriptor through the ring; the consumer claims a
    descriptor, resolves it in the page and commits it.  A third shared word
    tells a clean end from a fault.

    The memory joins those of {!Ring} and {!Page}.  Every store of the producer
    is a release and every load of the consumer an acquire, so a consumer that
    sees a head, or the closed flag, has also seen the publications and the
    terminal word stored before it: [ch_marks] and [ch_closes] keep, for each of
    these stores, how far the page and the terminal word were.

    [catch_unwind] in [try_admit] has nothing to catch: the code it guards has no
    panicking operation. *)

From S2P Require Import Prelude Prog Ring Slab Page.
#[local] Open Scope Z_scope.

Definition TERMINAL_OPEN : Z := 0.
Definition TERMINAL_CLEAN : Z := 1.
Definition TERMINAL_FAULTED : Z := 2.

Inductive ProducerState := POpen | PInFlight | PPoisoned | PFinished.
Inductive ConsumerState := COpen | CFaulted | CCleanEnd.

#[export] Instance ProducerState_eq_dec : EqDecision ProducerState.
Proof. solve_decision. Defined.

Inductive AdmissionConfigError :=
| ConfigRing (e : RingConfigError)
| ConfigSlab (e : SlabConfigError).

Inductive TryAdmitError :=
| AdmitRingFull
| AdmitConsumerDisconnected
| AdmitSlab (e : SlabAppendError)
| AdmitSequenceDiverged (slab ring : Z)
| AdmitRingInvariant (e : RingInvariantError)
| AdmitProducerPoisoned.

Inductive FinishError := FinishProducerPoisoned.

Inductive TryConsumeError :=
| ConsumeEmpty
| ConsumeCleanEnd
| ConsumerPoisoned
| ProducerFaulted (published committed : Z)
| OrphanedPublishedPrefix (published committed : Z)
| CountMismatch (published committed : Z)
| SequenceMismatch (expected actual : Z)
| ClosureOrderViolation
| TerminalStateInvalid (raw : Z)
| ConsumeRingInvariant (e : RingInvariantError)
| ConsumePage (e : PublishedSlabReadError).

Record AdmittedSequence := {
  as_arena_id : Z;
  as_arena_generation : Z;
  as_sequence : Z }.

Definition from_descriptor (d : TelemetryDescriptor) : AdmittedSequence :=
  {| as_arena_id := td_arena_id d; as_arena_generation := td_arena_generation d;
     as_sequence := td_sequence d |}.

Record AdmissionProducer := {
  ap_slab : PublishedSlabWriter;
  ap_ring : Producer;
  ap_state : ProducerState }.

Record AdmissionConsumer := {
  ac_ring : Consumer;
  ac_expected_sequence : Z;
  ac_committed_count : Z;
  ac_state : ConsumerState }.

(** A validated frame; the claim is the sequence of its slot. *)
Record AdmittedEvent := {
  ev_descriptor : TelemetryDescriptor;
  ev_payload : list byte;
  ev_claim : Z }.

Inductive ChannelE : Type → Type :=
| OnRing {T} (e : RingE TelemetryDescriptor T) : ChannelE T
| OnPage {T} (e : PageE T) : ChannelE T
| LoadTerminal : ChannelE Z
| StoreTerminal (v : Z) : ChannelE unit.

(** An operation of the ring, or of the page, inside the channel. *)
Definition on_ring {A} (p : prog (RingE TelemetryDescriptor) A) : prog ChannelE A :=
  interp (λ T e, trigger (OnRing e)) p.
Definition on_page {A} (p : prog PageE A) : prog ChannelE A := interp (λ T e, trigger (OnPage e)) p.

Module Channel.
Section Channel.
Context (crc32c : list byte → Z) (config : SlabPageConfig) (N : Z).
Notation Prog A := (prog ChannelE A).

(** ** Producer *)

Definition with_state (s : ProducerState) (p : AdmissionProducer) : AdmissionProducer :=
  {| ap_slab := ap_slab p; ap_ring := ap_ring p; ap_state := s |}.

Definition close_faulted (p : AdmissionProducer) : Prog AdmissionProducer :=
  if bool_decide (ap_state p = PFinished) then mret p
  else
    _ ← on_page Page.close;
    _ ← trigger (StoreTerminal TERMINAL_FAULTED);
    _ ← on_ring Ring.close_producer;
    mret (with_state PFinished p).

(** The end of [try_admit_inner], with the capability to publish. *)
Definition admit_reserved (f : Frame) (permit : Z) (p : AdmissionProducer) :
    Prog (Result AdmittedSequence TryAdmitError * AdmissionProducer) :=
  '(r, slab) ← on_page (Page.try_append crc32c config (fr_payload f) (fr_schema_id f) (fr_flags f) (ap_slab p));
  match r with
  | Err e => mret (Err (AdmitSlab e), {| ap_slab := slab; ap_ring := ap_ring p; ap_state := POpen |})
  | Ok descriptor =>
      ring ← on_ring (Ring.publish N permit descriptor (ap_ring p));
      mret (Ok (from_descriptor descriptor),
            {| ap_slab := slab; ap_ring := ring; ap_state := POpen |})
  end.

Definition try_admit (f : Frame) (p : AdmissionProducer) :
    Prog (Result AdmittedSequence TryAdmitError * AdmissionProducer) :=
  if negb (bool_decide (ap_state p = POpen)) then
    p ← close_faulted p; mret (Err AdmitProducerPoisoned, p)
  else
    match Page.preflight_append config (len (fr_payload f)) (ap_slab p) with
    | Err e => mret (Err (AdmitSlab e), p)
    | Ok _ =>
        let slab_sequence := sw_next_sequence (ap_slab p) in
        let ring_sequence := p_next (ap_ring p) in
        if negb (slab_sequence =? ring_sequence) then
          p ← close_faulted (with_state PPoisoned p);
          mret (Err (AdmitSequenceDiverged slab_sequence ring_sequence), p)
        else
          '(r, ring) ← on_ring (Ring.try_reserve N (ap_ring p));
          let p := {| ap_slab := ap_slab p; ap_ring := ring; ap_state := ap_state p |} in
          match r with
          | Err ReserveFull => mret (Err AdmitRingFull, p)
          | Err ReserveDisconnected => mret (Err AdmitConsumerDisconnected, p)
          | Err (ReserveInvariant e) =>
              p ← close_faulted (with_state PPoisoned p);
              mret (Err (AdmitRingInvariant e), p)
          | Ok permit =>
              if negb (permit =? slab_sequence) then
                p ← close_faulted (with_state PPoisoned p);
                mret (Err (AdmitSequenceDiverged slab_sequence permit), p)
              else admit_reserved f permit (with_state PInFlight p)
          end
    end.

(** [Drop]: the body, then the two endpoints in the order of the fields. *)
Definition drop_producer (p : AdmissionProducer) : Prog unit :=
  _ ← close_faulted p;
  _ ← on_page Page.close;
  on_ring Ring.close_producer.

(** [finish], which consumes the producer *)
Definition finish (p : AdmissionProducer) : Prog (Result unit FinishError) :=
  if negb (bool_decide (ap_state p = POpen)) then
    p ← close_faulted p;
    _ ← drop_producer p;
    mret (Err FinishProducerPoisoned)
  else
    _ ← on_page Page.close;
    _ ← trigger (StoreTerminal TERMINAL_CLEAN);
    _ ← on_ring Ring.close_producer;
    _ ← drop_producer (with_state PFinished p);
    mret (Ok tt).

(** ** Consumer *)

Definition faulted (c : AdmissionConsumer) : AdmissionConsumer :=
  {| ac_ring := ac_ring c; ac_expected_sequence := ac_expected_sequence c;
     ac_committed_count := ac_committed_count c; ac_state := CFaulted |}.

Definition clean_end (c : AdmissionConsumer) : AdmissionConsumer :=
  {| ac_ring := ac_ring c; ac_expected_sequence := ac_expected_sequence c;
     ac_committed_count := ac_committed_count c; ac_state := CCleanEnd |}.

Definition classify_end (c : AdmissionConsumer) : Prog (TryConsumeError * AdmissionConsumer) :=
  s ← on_page (Page.status config);
  match s with
  | Err e => mret (ConsumePage e, faulted c)
  | Ok status =>
      terminal ← trigger LoadTerminal;
      let published := st_published_count status in
      let committed := ac_committed_count c in
      if negb (st_writer_closed status) then mret (ClosureOrderViolation, faulted c)
      else if negb (published =? committed) then
        mret (if (terminal =? TERMINAL_FAULTED) && (committed <? published)
              then OrphanedPublishedPrefix published committed
              else CountMismatch published committed, faulted c)
      else if terminal =? TERMINAL_CLEAN then mret (ConsumeCleanEnd, clean_end c)
      else if terminal =? TERMINAL_FAULTED then mret (ProducerFaulted published committed, faulted c)
      else if terminal =? TERMINAL_OPEN then mret (ClosureOrderViolation, faulted c)
      else mret (TerminalStateInvalid terminal, faulted c)
  end.

Definition try_next (c : AdmissionConsumer) :
    Prog (Result AdmittedEvent TryConsumeError * AdmissionConsumer) :=
  match ac_state c with
  | CCleanEnd => mret (Err ConsumeCleanEnd, c)
  | CFaulted => mret (Err ConsumerPoisoned, c)
  | COpen =>
      '(r, ring) ← on_ring (Ring.try_claim N (ac_ring c));
      let c := {| ac_ring := ring; ac_expected_sequence := ac_expected_sequence c;
                  ac_committed_count := ac_committed_count c; ac_state := ac_state c |} in
      match r with
      | Err ClaimEmpty => mret (Err ConsumeEmpty, c)
      | Err ClaimDisconnected => '(e, c) ← classify_end c; mret (Err e, c)
      | Err (ClaimInvariant e) => mret (Err (ConsumeRingInvariant e), faulted c)
      | Ok (claim, descriptor) =>
          if negb (td_sequence descriptor =? ac_expected_sequence c) then
            _ ← on_ring Ring.close_consumer;
            mret (Err (SequenceMismatch (ac_expected_sequence c) (td_sequence descriptor)), faulted c)
          else
            payload ← on_page (Page.resolve crc32c config descriptor);
            match payload with
            | Err e => _ ← on_ring Ring.close_consumer; mret (Err (ConsumePage e), faulted c)
            | Ok payload =>
                mret (Ok {| ev_descriptor := descriptor; ev_payload := payload; ev_claim := claim |}, c)
            end
      end
  end.

(** [AdmittedEvent::commit]; dropping the event instead does nothing. *)
Definition commit (ev : AdmittedEvent) (c : AdmissionConsumer) :
    Prog (AdmittedSequence * AdmissionConsumer) :=
  '(descriptor, ring) ← on_ring (Ring.commit N (ev_claim ev) (ac_ring c));
  mret (from_descriptor descriptor,
        {| ac_ring := ring;
           ac_expected_sequence := wrapping_add64 (td_sequence descriptor) 1;
           ac_committed_count := ac_committed_count c + 1; ac_state := ac_state c |}).

Definition drop_consumer : Prog unit := on_ring Ring.close_consumer.

(** ** Clients

    What the owners of the two endpoints do, each step chosen by the answers so
    far. *)
Inductive pclient :=
| ADrop
| AFinish
| AAdmit (f : Frame) (k : Result AdmittedSequence TryAdmitError → pclient).

Inductive cclient :=
| NDrop
| NNext (accept : TelemetryDescriptor → list byte → bool)
        (k : Result (TelemetryDescriptor * list byte) TryConsumeError → cclient).

(** The frames that were admitted, with their tokens, the refusals, and what
    [finish] said if it was called. *)
Record produced := {
  ad_frames : list Frame;
  ad_tokens : list AdmittedSequence;
  ad_errors : list TryAdmitError;
  ad_finish : option (Result unit FinishError) }.

(** The frames that were committed, with their tokens, and the errors. *)
Record consumed := {
  cn_events : list (TelemetryDescriptor * list byte);
  cn_tokens : list AdmittedSequence;
  cn_errors : list TryConsumeError }.

Fixpoint produce (cl : pclient) (p : AdmissionProducer) (d : produced) : Prog produced :=
  match cl with
  | ADrop => _ ← drop_producer p; mret d
  | AFinish =>
      r ← finish p;
      mret {| ad_frames := ad_frames d; ad_tokens := ad_tokens d; ad_errors := ad_errors d;
              ad_finish := Some r |}
  | AAdmit f k =>
      '(r, p) ← try_admit f p;
      produce (k r) p
        match r with
        | Ok token =>
            {| ad_frames := ad_frames d ++ [f]; ad_tokens := ad_tokens d ++ [token];
               ad_errors := ad_errors d; ad_finish := ad_finish d |}
        | Err e =>
            {| ad_frames := ad_frames d; ad_tokens := ad_tokens d; ad_errors := ad_errors d ++ [e];
               ad_finish := ad_finish d |}
        end
  end.

Fixpoint consume (cl : cclient) (c : AdmissionConsumer) (d : consumed) : Prog consumed :=
  match cl with
  | NDrop => _ ← drop_consumer; mret d
  | NNext accept k =>
      '(r, c) ← try_next c;
      match r with
      | Ok ev =>
          let answer := Ok (ev_descriptor ev, ev_payload ev) in
          if accept (ev_descriptor ev) (ev_payload ev) then
            '(token, c) ← commit ev c;
            consume (k answer) c
              {| cn_events := cn_events d ++ [(ev_descriptor ev, ev_payload ev)];
                 cn_tokens := cn_tokens d ++ [token]; cn_errors := cn_errors d |}
          else consume (k answer) c d
      | Err e =>
          consume (k (Err e)) c
            {| cn_events := cn_events d; cn_tokens := cn_tokens d; cn_errors := cn_errors d ++ [e] |}
      end
  end.
End Channel.

(** ** The memory *)

(** [ch_marks]: for each stored head, the last publication before it.
    [ch_closes]: for each store of the closed flag, the last publication and
    the last terminal word before it.  [ch_tview]: the last terminal word the
    consumer has seen. *)
Record Shared := {
  ch_ring : @Ring.Inner TelemetryDescriptor;
  ch_page : Page.PageMem;
  ch_terminal : list Z;
  ch_tview : nat;
  ch_marks : list nat;
  ch_closes : list (nat * nat) }.

(** [VolatileAdmissionChannel::new] *)
Definition new (alloc : SlabResource → Z → bool) (N : Z) (config : SlabPageConfig) :
    Result Shared AdmissionConfigError :=
  match validate_capacity N with
  | Err e => Err (ConfigRing e)
  | Ok _ =>
      match validate_config config with
      | Err e => Err (ConfigSlab e)
      | Ok _ =>
          match Page.new alloc config with
          | Err e => Err (ConfigSlab e)
          | Ok page =>
              match Ring.new_with_sequence N (sc_first_sequence config) with
              | Err e => Err (ConfigRing e)
              | Ok ring => Ok {|
                  ch_ring := ring; ch_page := page; ch_terminal := [TERMINAL_OPEN]; ch_tview := 0;
                  ch_marks := [0%nat]; ch_closes := [] |}
              end
          end
      end
  end.

Definition split (config : SlabPageConfig) : AdmissionProducer * AdmissionConsumer :=
  let '(p, c) := Ring.split (sc_first_sequence config) in
  let slab := Page.open_writer config in
  ({| ap_slab := slab; ap_ring := p; ap_state := POpen |},
   {| ac_ring := c; ac_expected_sequence := sw_next_sequence slab; ac_committed_count := 0;
      ac_state := COpen |}).

Definition with_ring (ring : Ring.Inner) (m : Shared) : Shared :=
  {| ch_ring := ring; ch_page := ch_page m; ch_terminal := ch_terminal m; ch_tview := ch_tview m;
     ch_marks := ch_marks m; ch_closes := ch_closes m |}.
Definition with_page (page : Page.PageMem) (m : Shared) : Shared :=
  {| ch_ring := ch_ring m; ch_page := page; ch_terminal := ch_terminal m; ch_tview := ch_tview m;
     ch_marks := ch_marks m; ch_closes := ch_closes m |}.
Definition with_mark (k : nat) (m : Shared) : Shared :=
  {| ch_ring := ch_ring m; ch_page := ch_page m; ch_terminal := ch_terminal m; ch_tview := ch_tview m;
     ch_marks := ch_marks m ++ [k]; ch_closes := ch_closes m |}.
Definition with_close (k : nat * nat) (m : Shared) : Shared :=
  {| ch_ring := ch_ring m; ch_page := ch_page m; ch_terminal := ch_terminal m; ch_tview := ch_tview m;
     ch_marks := ch_marks m; ch_closes := ch_closes m ++ [k] |}.
Definition see_terminal (j : nat) (m : Shared) : Shared :=
  {| ch_ring := ch_ring m; ch_page := ch_page m; ch_terminal := ch_terminal m; ch_tview := j;
     ch_marks := ch_marks m; ch_closes := ch_closes m |}.
Definition store_terminal (v : Z) (m : Shared) : Shared :=
  {| ch_ring := ch_ring m; ch_page := ch_page m; ch_terminal := ch_terminal m ++ [v];
     ch_tview := ch_tview m; ch_marks := ch_marks m; ch_closes := ch_closes m |}.

(** The consumer has seen the publications up to this one. *)
Definition acquire (k : nat) (m : Shared) : Shared :=
  with_page (Page.see (Page.pm_view (ch_page m) `max` k) (ch_page m)) m.

Definition last_publication (m : Shared) : nat := (length (Page.pm_pub (ch_page m)) - 1)%nat.
Definition last_terminal (m : Shared) : nat := (length (ch_terminal m) - 1)%nat.

(** What an access to the ring says about the rest of the memory. *)
Definition synced {T} (e : RingE TelemetryDescriptor T) (r : T) (m m' : Shared) : Prop :=
  match e in RingE _ T return T → Prop with
  | StoreHead _ => λ _, m' = with_mark (last_publication m) m
  | StoreProducerClosed => λ _, m' = with_close (last_publication m, last_terminal m) m
  | LoadHead => λ _, ∃ k, ch_marks m !! Ring.in_cview (ch_ring m) = Some k ∧ m' = acquire k m
  | LoadProducerClosed => λ r,
      if r then ∃ k t, (k, t) ∈ ch_closes m ∧
                       m' = see_terminal (ch_tview m `max` t) (acquire k m)
      else m' = m
  | _ => λ _, m' = m
  end r.

(** The access [e] can answer [r] and leave [m']. *)
Definition access {T} (e : ChannelE T) (m : Shared) (r : T) (m' : Shared) : Prop :=
  match e in ChannelE T return T → Prop with
  | OnRing e => λ r, ∃ ring, Ring.access e (ch_ring m) r ring ∧ synced e r (with_ring ring m) m'
  | OnPage e => λ r, ∃ page, Page.access e (ch_page m) r page ∧ m' = with_page page m
  | LoadTerminal => λ r,
      ∃ j, (ch_tview m ≤ j)%nat ∧ ch_terminal m !! j = Some r ∧ m' = see_terminal j m
  | StoreTerminal v => λ _, m' = store_terminal v m
  end r.

(** ** Interleavings *)

Record state := {
  s_mem : Shared;
  s_producer : prog ChannelE produced;
  s_consumer : prog ChannelE consumed }.

Inductive step : state → state → Prop :=
| step_producer m T (e : ChannelE T) k r m' c :
    access e m r m' →
    step {| s_mem := m; s_producer := Vis e k; s_consumer := c |}
         {| s_mem := m'; s_producer := k r; s_consumer := c |}
| step_consumer m p T (e : ChannelE T) k r m' :
    access e m r m' →
    step {| s_mem := m; s_producer := p; s_consumer := Vis e k |}
         {| s_mem := m'; s_producer := p; s_consumer := k r |}.

(** Two clients at work on a new channel. *)
Definition start (crc32c : list byte → Z) (N : Z) (config : SlabPageConfig) (m : Shared)
    (pc : pclient) (cc : cclient) : state :=
  let '(p, c) := split config in
  {| s_mem := m;
     s_producer := produce crc32c config N pc p
       {| ad_frames := []; ad_tokens := []; ad_errors := []; ad_finish := None |};
     s_consumer := consume crc32c config N cc c
       {| cn_events := []; cn_tokens := []; cn_errors := [] |} |}.
End Channel.
