(* ===== verification/ChannelSafety.v ===== *)
(** * The admission channel delivers what it admitted

    Thread-modular proof for {!Channel}, on top of the one for the ring.  The
    producer's protocol ([prule]) adds to the ring's what it has appended to the
    page ([wstate]); the consumer's ([crule]) adds what it has learned of it
    ([kstate]).  [cwf] ties the memory to both. *)

From S2P Require Import Prelude Prog Ring RingSafety Slab Page Channel.
#[local] Open Scope Z_scope.

(** ** Cells and their tags *)

Section Tags.
(** The bytes of frames, each with the place of the publication that covers it. *)
Fixpoint tag_bytes (n : nat) (frames : list Frame) : list (byte * nat) :=
  match frames with
  | [] => []
  | f :: frames => map (λ b, (b, S n)) (fr_payload f) ++ tag_bytes (S n) frames
  end.

Lemma tag_bytes_app n l k : tag_bytes n (l ++ k) = tag_bytes n l ++ tag_bytes (n + length l) k.
Proof.
  revert n. induction l as [|f l IH]; intros n; simpl; [by rewrite Nat.add_0_r|].
  rewrite IH, <- app_assoc. do 3 f_equal. lia.
Qed.

Lemma tag_bytes_fst n l : map fst (tag_bytes n l) = payload_bytes l.
Proof.
  revert n. induction l as [|f l IH]; intros n; [done|]. simpl. rewrite map_app, IH, map_map. simpl.
  by rewrite map_id.
Qed.

Lemma tag_bytes_length n l : length (tag_bytes n l) = length (payload_bytes l).
Proof. by rewrite <- (tag_bytes_fst n l), length_map. Qed.

Lemma tag_bytes_at frames i f :
  frames !! i = Some f →
  take (length (fr_payload f)) (drop (length (payload_bytes (take i frames))) (tag_bytes 0 frames)) =
  map (λ b, (b, S i)) (fr_payload f).
Proof.
  intros Hf. rewrite <- (take_drop_middle _ _ _ Hf) at 2.
  rewrite tag_bytes_app, <- (tag_bytes_length 0 (take i frames)), drop_app_length.
  assert (length (take i frames) = i) as -> by (apply length_take_le; apply lookup_lt_Some in Hf; lia).
  simpl. rewrite take_app_le by (rewrite length_map; lia). by rewrite take_ge by (rewrite length_map; lia).
Qed.

Definition tag_table (table : list TelemetryDescriptor) : list (TelemetryDescriptor * nat) :=
  imap (λ i d, (d, S i)) table.

Lemma tag_table_snoc l d : tag_table (l ++ [d]) = tag_table l ++ [(d, S (length l))].
Proof. unfold tag_table. rewrite imap_app. simpl. by rewrite Nat.add_0_r. Qed.

(** Cells of which a first part is written. *)
Definition cells {A} (written : list A) (total : nat) : list (option A) :=
  map Some written ++ replicate (total - length written) None.

Lemma cells_length {A} (l : list A) n : (length l ≤ n)%nat → length (cells l n) = n.
Proof. intros Hn. unfold cells. rewrite length_app, length_map, length_replicate. lia. Qed.

Lemma cells_fresh {A} (l : list A) k n :
  (length l + k ≤ n)%nat → Page.fresh (length l) k (cells l n).
Proof.
  intros Hn. unfold Page.fresh, cells.
  rewrite <- (length_map Some l) at 1. rewrite drop_app_length, take_replicate. f_equal. lia.
Qed.

Lemma cells_write {A} (l vs : list A) n :
  (length l + length vs ≤ n)%nat → Page.write_at (length l) vs (cells l n) = cells (l ++ vs) n.
Proof.
  intros Hn. unfold Page.write_at, cells. rewrite map_app, <- app_assoc.
  rewrite <- (length_map Some l) at 1. rewrite take_app_length. do 2 f_equal.
  rewrite drop_app_ge by (rewrite length_map; lia). rewrite length_map, drop_replicate, length_app.
  f_equal. lia.
Qed.

Lemma cells_covered {A} view lo (l : list (A * nat)) n part :
  take (length part) (drop lo l) = part → Forall (λ x, (x.2 ≤ view)%nat) part →
  Page.covered view lo (length part) (cells l n) (map fst part).
Proof.
  intros Hp Hv. exists part. split; [|rewrite length_map; done].
  destruct (nil_or_length_pos part) as [->|Hne]; [done|].
  assert (lo + length part ≤ length l)%nat as Hlen.
  { pose proof (f_equal length Hp) as He. rewrite length_take, length_drop in He.
    lia. }
  unfold cells. rewrite drop_app_le by (rewrite length_map; lia).
  rewrite take_app_le by (rewrite length_drop, length_map; lia).
  by rewrite <- !fmap_drop, <- fmap_take, Hp.
Qed.

(** A covered range has the values it was written with. *)
Lemma cells_covered_inv {A} view lo (l : list (A * nat)) n part vs :
  take (length part) (drop lo l) = part →
  Page.covered view lo (length part) (cells l n) vs → vs = map fst part.
Proof.
  intros Hp Hc. destruct (cells_covered (S (foldr max 0 (map snd part)))%nat lo l n part Hp) as (p' & Hp' & _ & Hv' & _).
  { clear. induction part as [|x part IH]; constructor; simpl; [lia|].
    eapply list.Forall_impl; [exact IH|]. simpl. lia. }
  destruct Hc as (p & Hp1 & _ & -> & _). rewrite Hp1 in Hp'. apply (inj (map Some)) in Hp'. congruence.
Qed.
End Tags.

Module ChannelSafety.
Import Channel.

Section Protocol.
Context (crc32c : list byte → Z) (config : SlabPageConfig) (N : Z).
Hypothesis HN : validate_capacity N = Ok tt.
Hypothesis HV : validate_config config = Ok tt.
Hypothesis HR : in_range config.

Notation first := (sc_first_sequence config).
Notation pstate := (@RingSafety.pstate TelemetryDescriptor).
Notation cstate := (@RingSafety.cstate TelemetryDescriptor).
Notation table := (table crc32c config).
Notation describe := (describe crc32c config).
Notation fits := (fits config).

(** The word that publishes these frames. *)
Definition word (frames : list Frame) (closed : bool) : Z :=
  encode_publication_state (len frames) (len (payload_bytes frames)) closed.

(** The stores of the word in order: one per frame, then the closes. *)
Definition word_at (frames : list Frame) (j : nat) : Z :=
  word (take j frames) (length frames <? j)%nat.

Definition words (frames : list Frame) (closes : nat) : list Z :=
  map (word_at frames) (seq 0 (S (length frames) + closes)).

Lemma words_length frames n : length (words frames n) = (S (length frames) + n)%nat.
Proof. unfold words. by rewrite length_map, length_seq. Qed.

Lemma words_lookup frames n j w :
  words frames n !! j = Some w → (j < S (length frames) + n)%nat ∧ w = word_at frames j.
Proof.
  unfold words. rewrite list_lookup_fmap, fmap_Some. intros (i & [-> Hi]%lookup_seq & ->). done.
Qed.

Lemma words_lookup_lt frames n j :
  (j < S (length frames) + n)%nat → words frames n !! j = Some (word_at frames j).
Proof. intros Hj. unfold words. by rewrite list_lookup_fmap, lookup_seq_lt. Qed.

Lemma words_append frames f : words (frames ++ [f]) 0 = words frames 0 ++ [word (frames ++ [f]) false].
Proof.
  unfold words. replace (S (length (frames ++ [f])) + 0)%nat with (S (S (length frames)))
    by (rewrite length_app; simpl; lia).
  rewrite Nat.add_0_r, (seq_S (S (length frames))), map_app. f_equal.
  - apply map_ext_in. intros j Hin%in_seq. unfold word_at. rewrite length_app, take_app_le by lia.
    f_equal. cbn [length].
    destruct (Nat.ltb_spec (length frames + 1) j), (Nat.ltb_spec (length frames) j); lia || done.
  - cbn [map plus]. unfold word_at. rewrite length_app, take_ge by (rewrite length_app; simpl; lia).
    cbn [length]. by destruct (Nat.ltb_spec (length frames + 1) (S (length frames))); [lia|].
Qed.

Lemma words_close frames n :
  ∃ w, list.last (words frames n) = Some w ∧
       words frames (S n) = words frames n ++ [Z.lor w WRITER_CLOSED_BIT].
Proof.
  exists (word_at frames (length frames + n)). split.
  - unfold words. simpl plus. rewrite seq_S, map_app. simpl. by rewrite last_snoc.
  - unfold words. replace (S (length frames) + S n)%nat with (S (S (length frames) + n)) by lia.
    rewrite (seq_S (S (length frames) + n)), map_app. simpl. do 2 f_equal.
    unfold word_at, word. rewrite !take_ge by lia. rewrite close_word.
    by rewrite (proj2 (Nat.ltb_lt _ _)) by lia.
Qed.

(** *** What the endpoints know *)

(** How far the append of a frame has come. *)
Inductive stage := Idle | WroteBytes (payload : list byte) | WroteAll (f : Frame).

Record wstate := {
  ws_frames : list Frame;
  ws_stage : stage;
  ws_closes : nat;
  ws_term : option Z }.

Definition pending_bytes (s : stage) : list byte :=
  match s with Idle => [] | WroteBytes payload => payload | WroteAll f => fr_payload f end.
Definition pending_descriptor (frames : list Frame) (s : stage) : list TelemetryDescriptor :=
  match s with WroteAll f => [describe frames f] | _ => [] end.

(** The frames the consumer knows of, the last publication it has seen, and the
    terminal word once it has seen the producer closed. *)
Record kstate := {
  ks_frames : list Frame;
  ks_pub : nat;
  ks_end : option Z }.

Definition final (v : Z) : Prop := v = TERMINAL_CLEAN ∨ v = TERMINAL_FAULTED.

(** More is known; the end is final. *)
Definition more (k k' : kstate) : Prop :=
  ks_frames k `prefix_of` ks_frames k' ∧ (ks_pub k ≤ ks_pub k')%nat ∧
  ∀ x, ks_end k = Some x → ks_end k' = Some x ∧ ks_frames k' = ks_frames k.

(** What a consumer of the ring that knows [h] knows of the page. *)
Definition knows (h : cstate) (k : kstate) : Prop :=
  fits (ks_frames k) ∧ (RingSafety.cs_view h ≤ length (ks_frames k))%nat ∧
  (RingSafety.cs_view h ≤ ks_pub k)%nat ∧
  ∀ n, RingSafety.cs_fin h = Some n →
    length (ks_frames k) = n ∧ (n < ks_pub k)%nat ∧ ∃ x, ks_end k = Some x ∧ final x.

#[local] Instance more_preorder : PreOrder more.
Proof.
  split; [by intros k|]. intros k1 k2 k3 (Hf1 & Hp1 & He1) (Hf2 & Hp2 & He2). split; [by etrans|].
  split; [lia|]. intros x Hx. destruct (He1 x Hx) as [Hx2 ?]. destruct (He2 x Hx2) as [??]. split; congruence.
Qed.

(** *** The producer's protocol *)

Definition ring_guard {T} (e : RingE TelemetryDescriptor T) (g : pstate) (w : wstate) : Prop :=
  match e with
  | WriteSlot _ v => table (ws_frames w) !! RingSafety.ps_pub g = Some v
  | StoreProducerClosed =>
      (0 < ws_closes w)%nat ∧ is_Some (ws_term w) ∧ length (ws_frames w) = RingSafety.ps_pub g
  | _ => True
  end.

Definition page_rule {T} (e : PageE T) (w : wstate) : (T → wstate → Prop) → Prop :=
  match e in PageE T return (T → wstate → Prop) → Prop with
  | HasBytes lo hi => λ post,
      post (bool_decide (0 ≤ lo ∧ lo ≤ hi ∧ hi ≤ sc_byte_capacity config)) w
  | HasDescriptor i => λ post, post (bool_decide (0 ≤ i < sc_descriptor_capacity config)) w
  | WriteBytes offset payload => λ post,
      ws_stage w = Idle ∧ ws_closes w = 0%nat ∧ offset = len (payload_bytes (ws_frames w)) ∧
      offset + len payload ≤ sc_byte_capacity config ∧
      post tt {| ws_frames := ws_frames w; ws_stage := WroteBytes payload; ws_closes := 0;
                 ws_term := ws_term w |}
  | WriteDescriptor i d => λ post,
      ∃ f, ws_stage w = WroteBytes (fr_payload f) ∧ d = describe (ws_frames w) f ∧
           i = len (ws_frames w) ∧ i < sc_descriptor_capacity config ∧
           post tt {| ws_frames := ws_frames w; ws_stage := WroteAll f; ws_closes := ws_closes w;
                      ws_term := ws_term w |}
  | StorePublication v => λ post,
      ∃ f, ws_stage w = WroteAll f ∧ v = word (ws_frames w ++ [f]) false ∧
           fits (ws_frames w ++ [f]) ∧
           post tt {| ws_frames := ws_frames w ++ [f]; ws_stage := Idle; ws_closes := ws_closes w;
                      ws_term := ws_term w |}
  | OrPublication bits => λ post,
      bits = WRITER_CLOSED_BIT ∧ ws_stage w = Idle ∧
      post tt {| ws_frames := ws_frames w; ws_stage := Idle; ws_closes := S (ws_closes w);
                 ws_term := ws_term w |}
  | _ => λ _, False
  end.

Definition prule : protocol (E := ChannelE) (pstate * wstate) := λ T e s,
  match e in ChannelE T return (T → pstate * wstate → Prop) → Prop with
  | OnRing e => λ post,
      ring_guard e s.1 s.2 ∧ RingSafety.prule N first _ e s.1 (λ r g, post r (g, s.2))
  | OnPage e => λ post, page_rule e s.2 (λ r w, post r (s.1, w))
  | LoadTerminal => λ _, False
  | StoreTerminal v => λ post,
      (0 < ws_closes s.2)%nat ∧ ws_term s.2 = None ∧ final v ∧
      post tt (s.1, {| ws_frames := ws_frames s.2; ws_stage := ws_stage s.2;
                       ws_closes := ws_closes s.2; ws_term := Some v |})
  end.

Lemma chan_prule_monotone : monotone prule.
Proof.
  intros T e s P Q HPQ. destruct e as [T e|T e| |v]; simpl; [|destruct e; simpl; naive_solver|done|naive_solver].
  intros [Hg Hr]. split; [done|]. eapply RingSafety.prule_monotone; [|exact Hr]. eauto.
Qed.

(** *** The consumer's protocol *)

Definition value_ok {T} (e : RingE TelemetryDescriptor T) (r : T) (h : cstate) (k : kstate) : Prop :=
  match e in RingE _ T return T → Prop with
  | CopySlot _ => λ v, table (ks_frames k) !! RingSafety.cs_con h = Some v
  | ReadSlot _ => λ v, table (ks_frames k) !! RingSafety.cs_con h = Some v
  | _ => λ _, True
  end r.

Definition reader_rule {T} (e : PageE T) (h : cstate) (k : kstate) : (T → kstate → Prop) → Prop :=
  match e in PageE T return (T → kstate → Prop) → Prop with
  | LoadPublication => λ post,
      ∀ k', more k k' → knows h k' → post (word_at (ks_frames k') (ks_pub k')) k'
  | HasBytes lo hi => λ post,
      post (bool_decide (0 ≤ lo ∧ lo ≤ hi ∧ hi ≤ sc_byte_capacity config)) k
  | HasDescriptor i => λ post, post (bool_decide (0 ≤ i < sc_descriptor_capacity config)) k
  | ReadDescriptorCell i => λ post,
      ∃ j d, i = Z.of_nat j ∧ (j < ks_pub k)%nat ∧ table (ks_frames k) !! j = Some d ∧ post d k
  | ReadBytes lo hi => λ post,
      ∃ j f, ks_frames k !! j = Some f ∧ (j < ks_pub k)%nat ∧
             lo = len (payload_bytes (take j (ks_frames k))) ∧ hi = lo + len (fr_payload f) ∧
             post (fr_payload f) k
  | _ => λ _, False
  end.

Definition crule : protocol (E := ChannelE) (cstate * kstate) := λ T e s,
  match e in ChannelE T return (T → cstate * kstate → Prop) → Prop with
  | OnRing e => λ post,
      RingSafety.crule N first _ e s.1 (λ r h, ∀ k,
        more s.2 k → knows h k → value_ok e r s.1 k → post r (h, k))
  | OnPage e => λ post, reader_rule e s.1 s.2 (λ r k, post r (s.1, k))
  | LoadTerminal => λ post, ∀ v, (∀ x, ks_end s.2 = Some x → v = x) → post v s
  | StoreTerminal _ => λ _, False
  end.

Lemma chan_crule_monotone : monotone crule.
Proof.
  intros T e s P Q HPQ. destruct e as [T e|T e| |v]; simpl; [|destruct e; simpl; naive_solver|naive_solver|done].
  intros Hr. eapply RingSafety.crule_monotone; [|exact Hr]. simpl. eauto.
Qed.

(** *** The invariant *)

Definition written_bytes (w : wstate) : list (byte * nat) :=
  tag_bytes 0 (ws_frames w) ++ map (λ b, (b, S (length (ws_frames w)))) (pending_bytes (ws_stage w)).
Definition written_descriptors (w : wstate) : list (TelemetryDescriptor * nat) :=
  tag_table (table (ws_frames w) ++ pending_descriptor (ws_frames w) (ws_stage w)).

Definition byte_total : nat := Z.to_nat (sc_byte_capacity config).
Definition descriptor_total : nat := Z.to_nat (sc_descriptor_capacity config).

Record page_wf (m : Page.PageMem) (w : wstate) (k : kstate) : Prop := {
  pw_pub : Page.pm_pub m = words (ws_frames w) (ws_closes w);
  pw_view : Page.pm_view m = ks_pub k ∧ (ks_pub k ≤ length (ws_frames w) + ws_closes w)%nat;
  pw_bytes : Page.pm_bytes m = cells (written_bytes w) byte_total;
  pw_descriptors : Page.pm_descriptors m = cells (written_descriptors w) descriptor_total;
  pw_room : (length (written_bytes w) ≤ byte_total)%nat ∧
            (length (written_descriptors w) ≤ descriptor_total)%nat;
  pw_fits : fits (ws_frames w);
  pw_stage : ws_stage w ≠ Idle → ws_closes w = 0%nat;
  pw_known : ks_frames k `prefix_of` ws_frames w ∧
             ∀ x, ks_end k = Some x →
               ws_term w = Some x ∧ ks_frames k = ws_frames w ∧ (0 < ws_closes w)%nat }.

Record cwf (m : Shared) (g : pstate) (w : wstate) (h : cstate) (k : kstate) : Prop := {
  cw_ring : RingSafety.wf N first (ch_ring m) g h;
  cw_page : page_wf (ch_page m) w k;
  cw_log : RingSafety.ps_log g `prefix_of` table (ws_frames w);
  cw_knows : knows h k;
  cw_term : ch_terminal m = TERMINAL_OPEN :: option_list (ws_term w) ∧
            (∀ x, ws_term w = Some x → final x ∧ (0 < ws_closes w)%nat);
  cw_tview : (ch_tview m ≤ length (option_list (ws_term w)))%nat ∧
             (∀ x, ks_end k = Some x → ch_tview m = 1%nat);
  cw_marks : length (ch_marks m) = S (RingSafety.ps_pub g) ∧
             ∀ j a, ch_marks m !! j = Some a → (j ≤ a ≤ length (ws_frames w) + ws_closes w)%nat;
  cw_closes : ∀ a b, (a, b) ∈ ch_closes m →
    (length (ws_frames w) < a ≤ length (ws_frames w) + ws_closes w)%nat ∧ b = 1%nat ∧ is_Some (ws_term w) ∧
    length (ws_frames w) = RingSafety.ps_pub g }.

(** *** Ring accesses of the producer *)

Definition pevolved {T} (e : RingE TelemetryDescriptor T) (g g' : pstate) : Prop :=
  match e with
  | WriteSlot _ v =>
      RingSafety.ps_log g' = RingSafety.ps_log g ++ [v] ∧ RingSafety.ps_pub g' = RingSafety.ps_pub g ∧
      length (RingSafety.ps_log g) = RingSafety.ps_pub g
  | StoreHead _ =>
      RingSafety.ps_log g' = RingSafety.ps_log g ∧ RingSafety.ps_pub g' = S (RingSafety.ps_pub g) ∧
      length (RingSafety.ps_log g) = S (RingSafety.ps_pub g)
  | _ => RingSafety.ps_log g' = RingSafety.ps_log g ∧ RingSafety.ps_pub g' = RingSafety.ps_pub g
  end.

Lemma prule_evolves {T} (e : RingE TelemetryDescriptor T) g post :
  RingSafety.prule N first _ e g post →
  RingSafety.prule N first _ e g (λ r g', post r g' ∧ pevolved e g g').
Proof. destruct e; simpl; naive_solver. Qed.

Lemma prefix_next {A} (l k : list A) v :
  l `prefix_of` k → k !! length l = Some v → l ++ [v] `prefix_of` k.
Proof.
  intros [x ->] Hv. rewrite lookup_app_r, Nat.sub_diag in Hv by lia. destruct x as [|y x]; [done|].
  injection Hv as ->. exists x. by rewrite <- app_assoc.
Qed.

Lemma log_length m g w h k :
  cwf m g w h k →
  (RingSafety.ps_pub g ≤ length (RingSafety.ps_log g) ≤ length (ws_frames w))%nat.
Proof.
  intros []. destruct cw_ring0. apply prefix_length in cw_log0. rewrite table_length in cw_log0. lia.
Qed.

Lemma page_pub_length m w k :
  page_wf m w k → (length (Page.pm_pub m) - 1 = length (ws_frames w) + ws_closes w)%nat.
Proof. intros []. rewrite pw_pub0, words_length. lia. Qed.

(** Another ring state, with the same published values. *)
Lemma with_ring_wf m g w h k ring g' :
  cwf m g w h k → RingSafety.wf N first ring g' h →
  RingSafety.ps_log g' `prefix_of` table (ws_frames w) →
  RingSafety.ps_pub g' = RingSafety.ps_pub g → cwf (with_ring ring m) g' w h k.
Proof. intros [] Hwf Hlog Hpub. split; simpl; rewrite ?Hpub; done. Qed.

Lemma producer_ring_step {T} (e : RingE TelemetryDescriptor T) m r m' g w h k post :
  cwf m g w h k → ring_guard e g w → RingSafety.prule N first _ e g post →
  access (OnRing e) m r m' → ∃ g', cwf m' g' w h k ∧ post r g'.
Proof using HN.
  intros Hwf Hg Hr (ring & Ha & Hs). pose proof (log_length _ _ _ _ _ Hwf) as Hlen.
  apply prule_evolves in Hr. pose proof Hwf as [].
  destruct (RingSafety.producer_step N first HN e _ _ _ g h _ cw_ring0 Hr Ha) as (g' & Hwf' & Hp & He).
  exists g'. split; [|exact Hp]. destruct cw_marks0 as [Hml Hm].
  pose proof (page_pub_length _ _ _ cw_page0) as Hpub.
  destruct e; simpl in Hr, Hs, He, Hg; try done; subst m';
    try (destruct He as [Hlog Hpubs]; apply with_ring_wf with g; [done|done|by rewrite Hlog|done]).
  - destruct He as (Hlog & Hpubs & Hl). split; simpl; rewrite ?Hlog, ?Hpubs; try done.
    + rewrite length_app. simpl. split; [lia|]. intros j a Hj. unfold last_publication in Hj. simpl in Hj.
      rewrite Hpub in Hj. apply lookup_app_Some in Hj as [Hj|[Hj Ha']]; [by apply Hm|].
      apply list_lookup_singleton_Some in Ha' as [Hj' <-]. lia.
    + intros a b Hab. destruct (cw_closes0 a b Hab) as (? & ? & ? & Heq). lia.
  - destruct He as (Hlog & Hpubs), Hg as (Hc & [x Hx] & Hf). split; simpl; rewrite ?Hlog, ?Hpubs; try done.
    intros a b [Hab|Hab]%elem_of_app; [by apply cw_closes0|].
    apply list_elem_of_singleton in Hab as [= -> ->]. unfold last_publication, last_terminal. simpl.
    rewrite Hpub. destruct cw_term0 as [-> _]. rewrite Hx. simpl. split_and!; [lia|lia|done|done|done].
  - destruct He as (Hlog & Hpubs & Hl). apply with_ring_wf with g; [done|done| |done].
    rewrite Hlog. apply prefix_next; [done|]. by rewrite Hl.
Qed.

(** *** Page accesses of the producer *)

Lemma capacities :
  0 < sc_byte_capacity config ≤ MAX_SLAB_PAGE_BYTES ∧
  0 < sc_descriptor_capacity config ≤ MAX_SLAB_DESCRIPTORS.
Proof using HV HR. by apply valid_config. Qed.

Lemma written_bytes_idle w :
  ws_stage w = Idle → written_bytes w = tag_bytes 0 (ws_frames w).
Proof. intros Hs. unfold written_bytes. rewrite Hs. apply app_nil_r. Qed.

Lemma written_bytes_length w :
  length (written_bytes w) = (length (payload_bytes (ws_frames w)) + length (pending_bytes (ws_stage w)))%nat.
Proof. unfold written_bytes. by rewrite length_app, length_map, tag_bytes_length. Qed.

Lemma written_descriptors_length w :
  length (written_descriptors w) =
  (length (ws_frames w) + length (pending_descriptor (ws_frames w) (ws_stage w)))%nat.
Proof. unfold written_descriptors, tag_table. by rewrite length_imap, length_app, table_length. Qed.

Definition wevolved (w w' : wstate) : Prop :=
  ws_frames w `prefix_of` ws_frames w' ∧ (ws_closes w ≤ ws_closes w')%nat ∧ ws_term w' = ws_term w ∧
  ((0 < ws_closes w)%nat → ws_frames w' = ws_frames w).

Lemma page_bounds m w k :
  page_wf m w k →
  len (Page.pm_bytes m) = sc_byte_capacity config ∧
  len (Page.pm_descriptors m) = sc_descriptor_capacity config.
Proof using HV HR.
  intros []. destruct pw_room0 as [Hb Hd]. pose proof capacities.
  unfold len. rewrite pw_bytes0, pw_descriptors0, !cells_length by done.
  unfold byte_total, descriptor_total. lia.
Qed.

Lemma publish_wf m w k f :
  page_wf m w k → ws_stage w = WroteAll f → fits (ws_frames w ++ [f]) →
  page_wf (Page.store (word (ws_frames w ++ [f]) false) m)
    {| ws_frames := ws_frames w ++ [f]; ws_stage := Idle; ws_closes := ws_closes w;
       ws_term := ws_term w |} k.
Proof.
  intros [] Hst Hfit. pose proof (pw_stage0 ltac:(by rewrite Hst)) as Hc0.
  destruct pw_view0 as [Hv Hvb], pw_known0 as [Hkf Hke].
  set (w' := {| ws_frames := ws_frames w ++ [f] |}).
  assert (written_bytes w' = written_bytes w) as Hwb.
  { unfold written_bytes, w'. rewrite Hst. simpl. rewrite tag_bytes_app. simpl. by rewrite !app_nil_r. }
  assert (written_descriptors w' = written_descriptors w) as Hwd.
  { unfold written_descriptors, w'. rewrite Hst. simpl. by rewrite table_snoc, app_nil_r. }
  split; rewrite ?Hwb, ?Hwd; simpl; try done.
  - by rewrite pw_pub0, Hc0, words_append.
  - rewrite length_app. split; [done|lia].
  - split; [by apply prefix_app_r|]. intros x Hx. destruct (Hke x Hx) as (_ & _ & ?). lia.
Qed.

Lemma close_wf m w k v :
  page_wf m w k → ws_stage w = Idle → list.last (Page.pm_pub m) = Some v →
  page_wf (Page.store (Z.lor v WRITER_CLOSED_BIT) m)
    {| ws_frames := ws_frames w; ws_stage := Idle; ws_closes := S (ws_closes w);
       ws_term := ws_term w |} k.
Proof.
  intros [] Hst Hl. destruct pw_view0 as [Hv Hvb], pw_known0 as [Hkf Hke].
  destruct (words_close (ws_frames w) (ws_closes w)) as (v' & Hl' & Hw).
  rewrite pw_pub0, Hl' in Hl. injection Hl as ->.
  split; unfold written_bytes, written_descriptors in *; simpl; rewrite ?Hst in *; try done; try lia.
  - by rewrite Hw, pw_pub0.
  - split; [done|]. intros x Hx. destruct (Hke x Hx) as (? & ? & ?). split_and!; [done|done|lia].
Qed.

Lemma write_bytes_wf m w k payload :
  page_wf m w k → ws_stage w = Idle → ws_closes w = 0%nat →
  len (payload_bytes (ws_frames w)) + len payload ≤ sc_byte_capacity config →
  page_wf (Page.write_bytes (length (payload_bytes (ws_frames w))) payload m)
    {| ws_frames := ws_frames w; ws_stage := WroteBytes payload; ws_closes := 0;
       ws_term := ws_term w |} k.
Proof.
  intros [] Hst Hc0 Hle. destruct pw_room0 as [Hrb Hrd], pw_view0 as [Hv Hvb], pw_known0 as [Hkf Hke].
  rewrite (written_bytes_idle _ Hst) in *. rewrite tag_bytes_length in Hrb.
  assert (length (payload_bytes (ws_frames w)) + length payload ≤ byte_total)%nat as Hroom
    by (unfold byte_total, len in *; lia).
  split; simpl; try done.
  - by rewrite pw_pub0, Hc0.
  - rewrite Hc0 in Hvb. done.
  - rewrite pw_bytes0, <- (tag_bytes_length 0 (ws_frames w)).
    rewrite cells_write by (rewrite length_map, tag_bytes_length; done).
    unfold written_bytes. simpl. by rewrite pw_pub0, words_length, Hc0, Nat.add_0_r.
  - rewrite pw_descriptors0. unfold written_descriptors. simpl. by rewrite Hst.
  - rewrite written_bytes_length, written_descriptors_length in *. rewrite Hst in Hrd. done.
  - split; [done|]. intros x Hx. destruct (Hke x Hx) as (_ & _ & ?). lia.
Qed.

Lemma write_descriptor_wf m w k f :
  page_wf m w k → ws_stage w = WroteBytes (fr_payload f) →
  len (ws_frames w) < sc_descriptor_capacity config →
  page_wf (Page.write_descriptor (length (ws_frames w)) (describe (ws_frames w) f) m)
    {| ws_frames := ws_frames w; ws_stage := WroteAll f; ws_closes := ws_closes w;
       ws_term := ws_term w |} k.
Proof.
  intros [] Hst Hle. pose proof (pw_stage0 ltac:(by rewrite Hst)) as Hc0.
  destruct pw_room0 as [Hrb Hrd].
  assert (written_descriptors w = tag_table (table (ws_frames w))) as Hwd.
  { unfold written_descriptors. rewrite Hst. simpl. by rewrite app_nil_r. }
  assert (length (tag_table (table (ws_frames w))) = length (ws_frames w)) as Hlt.
  { unfold tag_table. by rewrite length_imap, table_length. }
  split; simpl; try done.
  - rewrite pw_bytes0. unfold written_bytes. simpl. by rewrite Hst.
  - rewrite pw_descriptors0, Hwd. rewrite <- Hlt at 1.
    rewrite cells_write by (rewrite Hlt; simpl; unfold descriptor_total, len in *; lia).
    unfold written_descriptors. simpl. rewrite tag_table_snoc, table_length.
    by rewrite pw_pub0, words_length, Hc0, Nat.add_0_r.
  - rewrite written_bytes_length, written_descriptors_length in *. rewrite Hst in Hrb. simpl in *.
    split; [done|]. unfold descriptor_total, len in *. lia.
Qed.

Lemma page_step {T} (e : PageE T) m r m' w k post :
  page_wf m w k → page_rule e w post → Page.access e m r m' →
  ∃ w', page_wf m' w' k ∧ post r w' ∧ wevolved w w'.
Proof using HV HR.
  intros Hwf. pose proof (page_bounds _ _ _ Hwf) as [Hbt Hdt]. pose proof (pw_stage _ _ _ Hwf) as Hclosed.
  destruct e; destruct_units; simpl; try done.
  - intros (f & Hst & -> & Hfit & Hp) ->. eexists. split; [by apply publish_wf|]. split; [exact Hp|].
    split; [by apply prefix_app_r|]. split; [done|]. split; [done|]. simpl. rewrite Hclosed; [lia|by rewrite Hst].
  - intros (-> & Hst & Hp) (v & Hl & ->). eexists. split; [by apply close_wf|]. split; [exact Hp|].
    split; [done|]. simpl. split; [lia|]. done.
  - rewrite Hbt. intros Hp [-> ->]. by exists w.
  - intros (Hst & Hc0 & -> & Hle & Hp) (_ & _ & ->). unfold len at 1. rewrite Nat2Z.id.
    eexists. split; [by apply write_bytes_wf|]. split; [exact Hp|]. split; [done|]. simpl. split; [lia|]. done.
  - rewrite Hdt. intros Hp [-> ->]. by exists w.
  - intros (f & Hst & -> & -> & Hle & Hp) (_ & _ & ->). unfold len at 1. rewrite Nat2Z.id.
    eexists. split; [by apply write_descriptor_wf|]. by split; [exact Hp|].
Qed.

Lemma producer_page_step {T} (e : PageE T) m r m' g w h k post :
  cwf m g w h k → page_rule e w post → access (OnPage e) m r m' → ∃ w', cwf m' g w' h k ∧ post r w'.
Proof using HV HR.
  intros [] Hr (page & Ha & ->).
  destruct (page_step e _ _ _ _ _ _ cw_page0 Hr Ha) as (w' & Hwf & Hp & Hf & Hc & Ht & Hs).
  exists w'. split; [|exact Hp]. pose proof (prefix_length _ _ Hf) as Hl.
  split; simpl; rewrite ?Ht; try done.
  - etrans; [done|]. by apply table_prefix.
  - destruct cw_term0 as [-> Hfin]. split; [done|]. intros x Hx. destruct (Hfin x Hx). split; [done|lia].
  - destruct cw_marks0 as [-> Hm]. split; [done|]. intros j a Hj. specialize (Hm j a Hj). lia.
  - intros a b Hab. destruct (cw_closes0 a b Hab) as (Hb & -> & Hsome & Heq).
    rewrite Hs by lia. split_and!; [lia|lia|done|done|done].
Qed.

Lemma chan_producer_step {T} (e : ChannelE T) m r m' g w h k post :
  cwf m g w h k → prule T e (g, w) post → access e m r m' →
  ∃ g' w', cwf m' g' w' h k ∧ post r (g', w').
Proof using HN HV HR.
  intros Hwf Hr Ha. destruct e as [T e|T e| |v]; simpl in Hr.
  - destruct Hr as [Hg Hr].
    destruct (producer_ring_step e m r m' g w h k _ Hwf Hg Hr Ha) as (g' & ? & ?). eauto.
  - destruct (producer_page_step e m r m' g w h k _ Hwf Hr Ha) as (w' & ? & ?). eauto.
  - done.
  - destruct Hr as (Hc & Ht & Hv & Hp). simpl in Ha. destruct_units. subst m'.
    exists g. eexists. split; [|exact Hp]. pose proof Hwf as []. destruct cw_term0 as [Hterm _].
    destruct cw_page0, pw_known0 as [Hkf Hke].
    split; simpl; rewrite ?Hterm, ?Ht; try done.
    + split; try done. split; [done|]. intros x Hx. destruct (Hke x Hx) as (? & _). congruence.
    + split; [done|]. intros x [= <-]. done.
    + destruct cw_tview0 as [Hl Hend]. rewrite Ht in Hl. simpl in *. split; [lia|done].
    + intros a b Hab. destruct (cw_closes0 a b Hab) as (_ & _ & [x Hx] & _). congruence.
Qed.

(** *** Accesses of the consumer *)

Definition cevolved {T} (e : RingE TelemetryDescriptor T) (r : T) (h h' : cstate) : Prop :=
  match e in RingE _ T return T → Prop with
  | LoadHead => λ _, RingSafety.cs_fin h' = RingSafety.cs_fin h
  | LoadProducerClosed => λ r, if r then True else h' = h
  | _ => λ _, RingSafety.cs_view h' = RingSafety.cs_view h ∧ RingSafety.cs_fin h' = RingSafety.cs_fin h
  end r.

Lemma crule_evolves {T} (e : RingE TelemetryDescriptor T) h post :
  RingSafety.crule N first _ e h post →
  RingSafety.crule N first _ e h (λ r h', post r h' ∧ cevolved e r h h').
Proof. destruct e; simpl; naive_solver. Qed.

(** The consumer has seen more. *)
Lemma learn_wf m g w h k ring h' view tview end_ :
  cwf m g w h k → RingSafety.wf N first ring g h' →
  (ks_pub k ≤ view ≤ length (ws_frames w) + ws_closes w)%nat →
  (tview ≤ length (option_list (ws_term w)))%nat →
  (∀ x, ks_end k = Some x → end_ = Some x) →
  (∀ x, end_ = Some x → ws_term w = Some x ∧ tview = 1%nat) →
  let k' := {| ks_frames := ws_frames w; ks_pub := view; ks_end := end_ |} in
  knows h' k' →
  cwf {| ch_ring := ring; ch_page := Page.see view (ch_page m); ch_terminal := ch_terminal m;
         ch_tview := tview; ch_marks := ch_marks m; ch_closes := ch_closes m |} g w h' k' ∧ more k k'.
Proof.
  intros [] Hring Hview Htv Hkeep Hend k' Hk. destruct cw_page0, pw_known0 as [Hkf Hke]. split.
  - split; simpl; try done.
    + split; simpl; try done; [lia|]. split; [done|]. intros x Hx. destruct (Hend x Hx) as [Ht _].
      split_and!; [done|done|]. by apply cw_term0 in Ht as [_ ?].
    + split; [done|]. intros x Hx. by apply Hend in Hx as [_ ?].
  - split; [done|]. split; [simpl; lia|]. intros x Hx. split; [by apply Hkeep|]. simpl.
    by destruct (Hke x Hx) as (_ & -> & _).
Qed.

(** What the consumer knows after an access to the ring that tells it no more
    about the page. *)
Lemma knows_all m g w h k h' :
  cwf m g w h k →
  RingSafety.cs_view h' = RingSafety.cs_view h → RingSafety.cs_fin h' = RingSafety.cs_fin h →
  knows h' {| ks_frames := ws_frames w; ks_pub := ks_pub k; ks_end := ks_end k |}.
Proof.
  intros [] Hv Hf. destruct cw_knows0 as (Hfit & Hv1 & Hv2 & Hfin), cw_page0, pw_known0 as [Hkf Hke].
  pose proof (prefix_length _ _ Hkf). split; [done|]. simpl. rewrite Hv, Hf.
  split; [lia|]. split; [done|]. intros n Hn. destruct (Hfin n Hn) as (Hl & ? & x & Hx & ?).
  destruct (Hke x Hx) as (_ & <- & _). eauto.
Qed.

(** The value in the slot the consumer is about to read. *)
Lemma slot_value m g w h k v :
  cwf m g w h k → length (RingSafety.cs_log h) = RingSafety.cs_con h →
  (RingSafety.cs_con h < RingSafety.cs_view h)%nat →
  Ring.in_slots (ch_ring m) !! Z.to_nat (Ring.slot_index N (RingSafety.sq first (RingSafety.cs_con h))) =
    Some (Some v) →
  table (ws_frames w) !! RingSafety.cs_con h = Some v.
Proof.
  intros [] Hl Hv Hs. destruct (RingSafety.next_value N first _ _ _ cw_ring0 Hl Hv) as (v' & Hg & Hs').
  unfold RingSafety.ix in Hs'. rewrite Hs in Hs'. injection Hs' as <-.
  eapply prefix_lookup_Some; [exact Hg|done].
Qed.

Lemma see_same (p : Page.PageMem) k : Page.pm_view p = k → Page.see k p = p.
Proof. intros <-. by destruct p. Qed.

(** What the consumer of the channel has seen after an access to the ring. *)
Definition seen (m : Shared) (ring : Ring.Inner) (w : wstate) (h' : cstate) (k : kstate) (m' : Shared) : Prop :=
  ∃ view tview end_,
    m' = {| ch_ring := ring; ch_page := Page.see view (ch_page m); ch_terminal := ch_terminal m;
            ch_tview := tview; ch_marks := ch_marks m; ch_closes := ch_closes m |} ∧
    (ks_pub k ≤ view ≤ length (ws_frames w) + ws_closes w)%nat ∧
    (tview ≤ length (option_list (ws_term w)))%nat ∧
    (∀ x, ks_end k = Some x → end_ = Some x) ∧
    (∀ x, end_ = Some x → ws_term w = Some x ∧ tview = 1%nat) ∧
    knows h' {| ks_frames := ws_frames w; ks_pub := view; ks_end := end_ |}.

Lemma seen_nothing m g w h k ring h' :
  cwf m g w h k →
  RingSafety.cs_view h' = RingSafety.cs_view h → RingSafety.cs_fin h' = RingSafety.cs_fin h →
  seen m ring w h' k (with_ring ring m).
Proof.
  intros Hwf Hv Hf. pose proof (knows_all _ _ _ _ _ h' Hwf Hv Hf). destruct Hwf.
  destruct cw_page0, pw_view0 as [Hview Hb], cw_tview0 as [Ht He], pw_known0 as [_ Hke].
  exists (ks_pub k), (ch_tview m), (ks_end k). rewrite see_same by done.
  split_and!; try done; [naive_solver].
Qed.

Lemma seen_head m g w h k ring h' a :
  cwf m g w h k → RingSafety.wf N first ring g h' → RingSafety.cs_fin h' = RingSafety.cs_fin h →
  ch_marks m !! Ring.in_cview ring = Some a → seen m ring w h' k (acquire a (with_ring ring m)).
Proof.
  intros Hwf Hring Hf Ha. pose proof (log_length _ _ _ _ _ Hwf) as Hlen.
  pose proof (knows_all _ _ _ _ _ h Hwf eq_refl eq_refl) as (Hfit & _ & _ & Hfin).
  destruct Hwf, cw_marks0 as [_ Hm], cw_tview0 as [Ht He], Hring.
  destruct cw_page0, pw_view0 as [Hview Hb], pw_known0 as [_ Hke], wf_views as [_ Hcv].
  specialize (Hm _ _ Ha). rewrite Hcv in Hm.
  exists (ks_pub k `max` a)%nat, (ch_tview m), (ks_end k).
  unfold acquire. simpl. rewrite Hview. split_and!; try done; try lia; [naive_solver|].
  split; [done|]. simpl. split; [lia|]. split; [lia|]. rewrite Hf. intros n Hn.
  destruct (Hfin n Hn) as (? & ? & ?). simpl in *. split_and!; [done|lia|done].
Qed.

Lemma seen_closed m g w h k ring h' a b :
  cwf m g w h k → RingSafety.wf N first ring g h' → (a, b) ∈ ch_closes m →
  seen m ring w h' k (see_terminal (ch_tview m `max` b) (acquire a (with_ring ring m))).
Proof.
  intros Hwf Hring Hab. pose proof (log_length _ _ _ _ _ Hwf) as Hlen. destruct Hwf.
  destruct (cw_closes0 a b Hab) as (Ha & -> & [x Hx] & Hpub), cw_tview0 as [Ht He], cw_term0 as [_ Hfx].
  destruct cw_page0, pw_view0 as [Hview Hb], pw_known0 as [_ Hke], Hring.
  destruct wf_closed as [Hcl _]. rewrite Hx in Ht. simpl in Ht.
  exists (ks_pub k `max` a)%nat, 1%nat, (Some x).
  unfold acquire, see_terminal. simpl. rewrite Hview, Hx. simpl. split_and!; try done; try lia.
  - f_equal. lia.
  - intros y Hy. destruct (Hke y Hy). congruence.
  - split; [done|]. simpl. split; [lia|]. split; [lia|]. intros n Hn.
    destruct (wf_fin n Hn) as [Hpc _]. rewrite Hcl in Hpc. destruct (RingSafety.ps_closed g); [|done].
    injection Hpc as <-. split_and!; [done|lia|]. exists x. split; [done|]. by apply Hfx.
Qed.

Lemma consumer_ring_step {T} (e : RingE TelemetryDescriptor T) m r m' g w h k post :
  cwf m g w h k → crule T (OnRing e) (h, k) post → access (OnRing e) m r m' →
  ∃ h' k', cwf m' g w h' k' ∧ post r (h', k').
Proof using HN.
  intros Hwf Hr (ring & Ha & Hs). simpl in Hr. apply crule_evolves in Hr. pose proof Hwf as [].
  assert (value_ok e r h {| ks_frames := ws_frames w; ks_pub := 0; ks_end := None |}) as Hval.
  { destruct e; simpl in Hr, Ha |- *; try done;
      destruct Hr as (Hl & -> & Hv & _), Ha as (_ & Hsl & _); by eapply slot_value. }
  destruct (RingSafety.consumer_step N first HN e _ _ _ g h _ cw_ring0 Hr Ha) as (h' & Hwf' & Hp & He).
  exists h'. enough (seen m ring w h' k m') as (view & tview & end_ & -> & Hview & Htv & Hkeep & Hend & Hk).
  { destruct (learn_wf m g w h k ring h' view tview end_ Hwf Hwf' Hview Htv Hkeep Hend Hk) as [? Hm].
    eexists. split; [done|]. apply Hp; [done|done|]. destruct e; done. }
  clear Hp Hval. destruct e; simpl in Hr, Hs, He; try done;
    try lazymatch type of He with
        | _ ∧ _ => destruct He as [??]; subst m'; by apply seen_nothing with g h
        end.
  - destruct r; [|subst; by apply seen_nothing with g h].
    destruct Hs as (a & b & Hab & ->). by apply seen_closed with g h.
  - destruct Hs as (a & Ha' & ->). by apply seen_head with g h.
Qed.

(** Where a published frame and its descriptor are in the page. *)
Lemma written_bytes_at w j f :
  ws_frames w !! j = Some f →
  take (length (map (λ b, (b, S j)) (fr_payload f)))
    (drop (length (payload_bytes (take j (ws_frames w)))) (written_bytes w)) =
  map (λ b, (b, S j)) (fr_payload f).
Proof.
  intros Hf. pose proof (tag_bytes_at _ _ _ Hf) as Ht. rewrite length_map.
  destruct (payload_end _ _ _ Hf) as [He Hle].
  assert (length (payload_bytes (take j (ws_frames w))) + length (fr_payload f) ≤
          length (tag_bytes 0 (ws_frames w)))%nat as Hlen.
  { rewrite tag_bytes_length. unfold len in *. lia. }
  unfold written_bytes. rewrite drop_app_le by lia. rewrite take_app_le by (rewrite length_drop; lia). done.
Qed.

Lemma written_descriptors_at w j d :
  table (ws_frames w) !! j = Some d →
  take (length [(d, S j)]) (drop j (written_descriptors w)) = [(d, S j)].
Proof.
  intros Hd. assert (written_descriptors w !! j = Some (d, S j)) as Hw.
  { unfold written_descriptors, tag_table. rewrite list_lookup_imap, (lookup_app_l_Some _ _ _ _ Hd). done. }
  by rewrite (drop_S _ _ _ Hw).
Qed.

(** A frame the consumer knows is one of the producer's. *)
Lemma known_frame m w k j f :
  page_wf m w k → ks_frames k !! j = Some f →
  ws_frames w !! j = Some f ∧ take j (ks_frames k) = take j (ws_frames w).
Proof.
  intros [] Hf. destruct pw_known0 as [[l Hl] _]. rewrite Hl. split; [by apply lookup_app_l_Some|].
  rewrite take_app_le; [done|]. apply lookup_lt_Some in Hf. lia.
Qed.

Lemma known_descriptor m w k j d :
  page_wf m w k → table (ks_frames k) !! j = Some d → table (ws_frames w) !! j = Some d.
Proof.
  intros [] Hd. eapply prefix_lookup_Some; [exact Hd|]. apply table_prefix. apply pw_known0.
Qed.

Lemma consumer_page_step {T} (e : PageE T) m r m' g w h k post :
  cwf m g w h k → reader_rule e h k (λ r k, post r (h, k)) → access (OnPage e) m r m' →
  ∃ k', cwf m' g w h k' ∧ post r (h, k').
Proof using HV HR.
  intros Hwf Hr (page & Ha & ->). pose proof Hwf as []. pose proof (page_bounds _ _ _ cw_page0) as [Hbt Hdt].
  pose proof cw_page0 as []. destruct pw_view0 as [Hview Hb].
  assert (with_page (ch_page m) m = m) as Hsame by (by destruct m).
  destruct e; simpl in Hr, Ha; try done.
  - destruct Ha as (j & Hj & Hw & ->). rewrite pw_pub0 in Hw. apply words_lookup in Hw as [Hlt ->].
    rewrite Hview in Hj. pose proof (knows_all _ _ _ _ _ h Hwf eq_refl eq_refl) as (Hfit & Hv1 & Hv2 & Hfin).
    assert (knows h {| ks_frames := ws_frames w; ks_pub := j; ks_end := ks_end k |}) as Hk.
    { split; [done|]. simpl in *. split; [done|]. split; [lia|]. intros n Hn.
      destruct (Hfin n Hn) as (? & ? & ?). split_and!; [done|lia|done]. }
    destruct (learn_wf m g w h k (ch_ring m) h j (ch_tview m) (ks_end k) Hwf cw_ring0) as [Hwf' Hm];
      [lia|apply cw_tview0|done| |done|].
    { intros x Hx. destruct (proj2 pw_known0 x Hx). split; [done|by apply (proj2 cw_tview0 x)]. }
    eexists. split; [exact Hwf'|]. by apply (Hr _ Hm).
  - destruct Ha as [-> ->]. rewrite Hbt, Hsame. by exists k.
  - destruct Hr as (j & f & Hf & Hj & -> & -> & Hp), Ha as (_ & Hc & ->). rewrite Hsame. exists k.
    split; [done|]. destruct (known_frame _ _ _ _ _ cw_page0 Hf) as [HfF Htk].
    rewrite Z.add_simpl_l, Htk, pw_bytes0 in Hc. unfold len in Hc. rewrite !Nat2Z.id in Hc.
    rewrite <- (length_map (λ b, (b, S j)) (fr_payload f)) in Hc.
    apply (cells_covered_inv _ _ _ _ _ _ (written_bytes_at w j f HfF)) in Hc.
    rewrite map_map, map_id in Hc. by subst r.
  - destruct Ha as [-> ->]. rewrite Hdt, Hsame. by exists k.
  - destruct Hr as (j & d & -> & Hj & Hd & Hp), Ha as (_ & Hc & ->). rewrite Hsame. exists k.
    split; [done|]. apply (known_descriptor _ _ _ _ _ cw_page0) in Hd. rewrite Nat2Z.id, pw_descriptors0 in Hc.
    apply (cells_covered_inv _ _ _ _ _ _ (written_descriptors_at w j d Hd)) in Hc. by injection Hc as ->.
Qed.

Lemma chan_consumer_step {T} (e : ChannelE T) m r m' g w h k post :
  cwf m g w h k → crule T e (h, k) post → access e m r m' →
  ∃ h' k', cwf m' g w h' k' ∧ post r (h', k').
Proof using HN HV HR.
  intros Hwf Hr Ha. destruct e as [T e|T e| |v]; [by eapply consumer_ring_step| | |done].
  - destruct (consumer_page_step e m r m' g w h k post Hwf Hr Ha) as (k' & ? & ?). eauto.
  - simpl in Hr, Ha. destruct Ha as (j & Hj & Ht & ->). exists h, k. pose proof Hwf as [].
    destruct cw_term0 as [Hterm Hfin], cw_tview0 as [Htv He]. rewrite Hterm in Ht. split.
    + split; simpl; try done. apply lookup_lt_Some in Ht. simpl in Ht. split; [lia|].
      intros x Hx. specialize (He x Hx). destruct cw_page0, pw_known0 as [_ Hke].
      destruct (Hke x Hx) as (Hx' & _). rewrite Hx' in *. simpl in *. lia.
    + apply Hr. intros x Hx. specialize (He x Hx). destruct cw_page0, pw_known0 as [_ Hke].
      destruct (Hke x Hx) as (Hx' & _). rewrite Hx' in Ht. simpl in Ht.
      destruct j as [|[|j]]; [lia| |done]. simpl in Ht. congruence.
Qed.

(** *** No endpoint is ever stuck *)

Lemma chan_producer_progress {T} (e : ChannelE T) m g w h k post :
  cwf m g w h k → prule T e (g, w) post → ∃ r m', access e m r m'.
Proof using HN HV HR.
  intros Hwf Hr. pose proof Hwf as []. destruct e as [T e|T e| |v]; simpl in Hr; [| |done|exists tt; by eexists].
  - destruct Hr as [_ Hr].
    destruct (RingSafety.producer_progress N first HN e _ g h _ cw_ring0 Hr) as (r & ring & Ha).
    exists r. destruct e; simpl in Hr; try done; eexists; exists ring; (split; [exact Ha|]); simpl; eauto.
  - pose proof cw_page0 as []. simpl. destruct e; simpl in Hr |- *; try done;
      try (exists tt; eexists; eexists; by split).
    + destruct (words_close (ws_frames w) (ws_closes w)) as (v & Hl & _). exists tt. eexists. eexists.
      split; [|done]. exists v. by rewrite pw_pub0.
    + eexists. eexists. eexists. split; [by split|done].
    + destruct Hr as (Hst & Hc0 & -> & Hle & _). exists tt. eexists. eexists. split; [|done].
      split; [apply len_nonneg|]. split; [|done]. rewrite pw_bytes0. unfold len. rewrite Nat2Z.id.
      rewrite (written_bytes_idle _ Hst), <- (tag_bytes_length 0 (ws_frames w)). apply cells_fresh.
      rewrite tag_bytes_length. unfold byte_total, len in *. lia.
    + eexists. eexists. eexists. split; [by split|done].
    + destruct Hr as (f & Hst & -> & -> & Hle & _). exists tt. eexists. eexists. split; [|done].
      split; [apply len_nonneg|]. split; [|done]. rewrite pw_descriptors0. unfold len. rewrite Nat2Z.id.
      assert (length (ws_frames w) = length (written_descriptors w)) as Hl.
      { rewrite written_descriptors_length, Hst. simpl. lia. }
      rewrite Hl. apply cells_fresh. rewrite <- Hl. unfold descriptor_total, len in *. lia.
Qed.

Lemma chan_consumer_progress {T} (e : ChannelE T) m g w h k post :
  cwf m g w h k → crule T e (h, k) post → ∃ r m', access e m r m'.
Proof using HN HV HR.
  intros Hwf Hr. pose proof Hwf as []. destruct e as [T e|T e| |v]; simpl in Hr; [| | |done].
  - destruct (RingSafety.consumer_progress N first HN e _ g h _ cw_ring0 Hr) as (r & ring & Ha).
    destruct e; simpl in Hr; try done; try (exists r; eexists; exists ring; (split; [exact Ha|]); simpl; by eauto).
    + exists false. eexists. exists (ch_ring m). split; [by left|done].
    + destruct cw_ring0, wf_views as [_ Hcv], cw_marks0 as [Hml _].
      destruct (lookup_lt_is_Some_2 (ch_marks m) (RingSafety.cs_view h)) as [a Ha']; [lia|].
      exists (RingSafety.sq first (RingSafety.cs_view h)). eexists.
      exists (Ring.see_head (RingSafety.cs_view h) (ch_ring m)). split; [|exists a; by split].
      exists (RingSafety.cs_view h). rewrite Hcv, wf_head. split; [done|].
      split; [apply RingSafety.cursor_lookup_lt; lia|done].
  - pose proof cw_page0 as []. destruct pw_view0 as [Hview Hb]. simpl. destruct e; simpl in Hr |- *; try done.
    + eexists. eexists. eexists. split; [|done]. exists (ks_pub k). rewrite Hview, pw_pub0.
      split; [done|]. split; [apply words_lookup_lt; lia|done].
    + eexists. eexists. eexists. split; [by split|done].
    + destruct Hr as (j & f & Hf & Hj & -> & -> & _). destruct (known_frame _ _ _ _ _ cw_page0 Hf) as [HfF Htk].
      eexists. eexists. eexists. split; [|done]. split; [pose proof (len_nonneg (fr_payload f)); pose proof (len_nonneg (payload_bytes (take j (ks_frames k)))); lia|].
      split; [|done]. rewrite Hview, Htk, Z.add_simpl_l, pw_bytes0. unfold len. rewrite !Nat2Z.id.
      rewrite <- (length_map (λ b, (b, S j)) (fr_payload f)). apply cells_covered; [by apply written_bytes_at|].
      apply Forall_fmap, list.Forall_forall. simpl. lia.
    + eexists. eexists. eexists. split; [by split|done].
    + destruct Hr as (j & d & -> & Hj & Hd & _). apply (known_descriptor _ _ _ _ _ cw_page0) in Hd.
      exists d. eexists. eexists. split; [|done]. split; [lia|]. split; [|done].
      rewrite Hview, Nat2Z.id, pw_descriptors0.
      apply (cells_covered (ks_pub k) j _ _ [(d, S j)]); [by apply written_descriptors_at|]. by repeat constructor.
  - destruct cw_term0 as [Ht _], cw_tview0 as [Htv _].
    destruct (lookup_lt_is_Some_2 (ch_terminal m) (ch_tview m)) as [v Hv].
    { rewrite Ht. simpl. lia. }
    exists v. eexists. exists (ch_tview m). by split.
Qed.

(** *** The producer follows its protocol *)

Ltac chan_red :=
  cbv [on_ring on_page mret prog_mret mbind prog_mbind trigger];
  cbn [interp safe prog_bind prule crule page_rule reader_rule ring_guard fst snd negb].

(** The ring program [p] in the channel, when it makes no guarded access. *)
Lemma on_ring_safe {A} (p : prog (RingE TelemetryDescriptor) A) Q g w :
  all_calls (λ T e, ∀ g, ring_guard e g w) p → safe (RingSafety.prule N first) Q g p →
  safe prule (λ s a, s.2 = w ∧ Q s.1 a) (g, w) (on_ring p).
Proof.
  revert g. induction p as [a|T e k IH]; intros g; simpl; [done|].
  intros [Hg Hk] Hr. split; [apply Hg|]. eapply RingSafety.prule_monotone; [|exact Hr].
  simpl. intros r g' Hs. by apply IH.
Qed.

(** The writer's fields after these frames. *)
Definition writer_at (frames : list Frame) : PublishedSlabWriter :=
  {| sw_used_bytes := len (payload_bytes frames); sw_descriptor_count := len frames;
     sw_next_sequence := wrap64 (first + len frames); sw_poisoned := false |}.

Record aready (p : AdmissionProducer) (g : pstate) (w : wstate) : Prop := {
  ar_state : ap_state p = POpen;
  ar_ring : RingSafety.pready N first (ap_ring p) g;
  ar_slab : ap_slab p = writer_at (ws_frames w);
  ar_idle : ws_stage w = Idle ∧ ws_closes w = 0%nat ∧ ws_term w = None;
  ar_fits : fits (ws_frames w);
  ar_log : RingSafety.ps_log g = table (ws_frames w) }.

(** After [f]. *)
Definition appended (f : Frame) (w : wstate) : wstate :=
  {| ws_frames := ws_frames w ++ [f]; ws_stage := Idle; ws_closes := ws_closes w; ws_term := ws_term w |}.

Lemma writer_next frames f :
  writer_at (frames ++ [f]) =
  {| sw_used_bytes := len (payload_bytes frames) + len (fr_payload f);
     sw_descriptor_count := len frames + 1;
     sw_next_sequence := wrapping_add64 (wrap64 (first + len frames)) 1; sw_poisoned := false |}.
Proof.
  unfold writer_at, wrapping_add64. rewrite payload_bytes_app, payload_bytes_one, !len_app.
  change (len [f]) with 1. f_equal. unfold wrap64. rewrite Zplus_mod_idemp_l. f_equal. lia.
Qed.

(** What a plan that was made says. *)
Lemma plan_ok frames l plan :
  Page.append_plan config l (writer_at frames) = Ok plan →
  l ≠ 0 ∧ l ≤ MAX_FRAME_BYTES ∧ len frames < sc_descriptor_capacity config ∧
  len (payload_bytes frames) + l ≤ sc_byte_capacity config ∧
  plan = {| pl_descriptor_index := len frames; pl_offset := len (payload_bytes frames);
            pl_end := len (payload_bytes frames) + l;
            pl_descriptor_offset := len (payload_bytes frames); pl_descriptor_len := l;
            pl_published_bytes := len (payload_bytes frames) + l; pl_next_count := len frames + 1;
            pl_next_sequence := wrapping_add64 (wrap64 (first + len frames)) 1 |}.
Proof.
  unfold Page.append_plan. simpl.
  destruct (Z.eqb_spec l 0); [done|]. destruct (Z.ltb_spec MAX_FRAME_BYTES l); [done|].
  destruct (Z.leb_spec (sc_descriptor_capacity config) (len frames)); [done|].
  destruct (_ <? len (payload_bytes frames)); [done|]. destruct (usize_max <? _); [done|].
  destruct (orb _ _) eqn:Hor; [done|]. apply orb_false_iff in Hor as [_ Hor%Z.ltb_ge].
  destruct (u32_max <? len _); [done|]. destruct (u32_max <? l); [done|].
  destruct (u32_max <? _); [done|]. intros [= <-]. done.
Qed.

Lemma append_safe f g w :
  ws_stage w = Idle → ws_closes w = 0%nat → fits (ws_frames w) →
  safe prule (λ s ra, s.1 = g ∧
      match ra.1 with
      | Err _ => s.2 = w ∧ ra.2 = writer_at (ws_frames w)
      | Ok d => s.2 = appended f w ∧ d = describe (ws_frames w) f ∧
                ra.2 = writer_at (ws_frames w ++ [f]) ∧ fits (ws_frames w ++ [f])
      end) (g, w)
    (on_page (Page.try_append crc32c config (fr_payload f) (fr_schema_id f) (fr_flags f)
                (writer_at (ws_frames w)))).
Proof using HV HR.
  intros Hst Hc0 (Hall & Hcnt & Hbyt). unfold Page.try_append.
  destruct (Page.append_plan _ _ _) as [plan|e] eqn:Hplan; [|done].
  apply plan_ok in Hplan as (Hl0 & Hlm & Hd & Hb & ->).
  pose proof (len_nonneg (fr_payload f)). pose proof (len_nonneg (ws_frames w)).
  pose proof (len_nonneg (payload_bytes (ws_frames w))).
  chan_red. cbn [pl_offset pl_end]. rewrite bool_decide_eq_true_2 by lia. chan_red.
  cbn [pl_descriptor_index]. rewrite bool_decide_eq_true_2 by lia. chan_red.
  split; [done|]. split; [done|]. split; [done|]. split; [done|].
  exists f. split; [done|]. split; [done|]. split; [done|]. split; [done|].
  exists f. split; [done|].
  assert (fits (ws_frames w ++ [f])) as Hfit.
  { split; [apply Forall_app; split; [done|]; repeat constructor; lia|].
    rewrite payload_bytes_app, payload_bytes_one, !len_app. change (len [f]) with 1. lia. }
  split; [unfold word; rewrite payload_bytes_app, payload_bytes_one, !len_app; done|].
  split; [done|]. rewrite writer_next. unfold appended. rewrite Hc0. done.
Qed.

Lemma chan_publish_safe d p g w :
  RingSafety.pready N first p g → RingSafety.proom N first p g →
  table (ws_frames w) !! RingSafety.ps_pub g = Some d →
  safe prule (λ s p', s.2 = w ∧ RingSafety.pready N first p' s.1 ∧
                      RingSafety.ps_log s.1 = RingSafety.ps_log g ++ [d]) (g, w)
    (on_ring (Ring.publish N (p_next p) d p)).
Proof.
  intros Hp Hr Hd. pose proof (RingSafety.publish_safe N first d p g Hp Hr) as Hs. revert Hs.
  unfold Ring.publish. chan_red. cbn [RingSafety.prule]. naive_solver.
Qed.

(** The refusals that say that there is no room, or nobody to read. *)
Definition benign (e : TryAdmitError) : Prop :=
  match e with AdmitRingFull | AdmitConsumerDisconnected | AdmitSlab _ => True | _ => False end.

Definition admitted (f : Frame) (w : wstate) (s : pstate * wstate)
    (rp : Result AdmittedSequence TryAdmitError * AdmissionProducer) : Prop :=
  aready rp.2 s.1 s.2 ∧
  match rp.1 with
  | Ok token => ws_frames s.2 = ws_frames w ++ [f] ∧ token = from_descriptor (describe (ws_frames w) f)
  | Err e => ws_frames s.2 = ws_frames w ∧ benign e
  end.

Lemma published_all p g w :
  aready p g w → RingSafety.ps_pub g = length (ws_frames w).
Proof. intros []. destruct ar_ring0. rewrite <- pr_log, ar_log0. apply table_length. Qed.

Lemma admit_reserved_safe f p g w :
  aready p g w → RingSafety.proom N first (ap_ring p) g →
  safe prule (admitted f w) (g, w)
    (admit_reserved crc32c config N f (p_next (ap_ring p)) (with_state PInFlight p)).
Proof using HV HR.
  intros Hp Hroom. pose proof (published_all p g w Hp) as Hpub. destruct Hp, ar_idle0 as (Hst & Hc & Ht).
  unfold admit_reserved. cbn [ap_slab with_state]. rewrite ar_slab0.
  eapply safe_mbind; [apply chan_prule_monotone|by apply append_safe|].
  intros [g' w'] [[d|e] slab]; cbn [fst snd]; intros [-> Hr].
  - destruct Hr as (-> & -> & -> & Hfit).
    assert (table (ws_frames (appended f w)) !! RingSafety.ps_pub g = Some (describe (ws_frames w) f)) as Hd.
    { simpl. rewrite table_snoc, Hpub, <- (table_length crc32c config (ws_frames w)).
      by apply list_lookup_middle. }
    eapply safe_mbind; [apply chan_prule_monotone|by apply chan_publish_safe|].
    intros [g' w'] ring; cbn [fst snd]; intros (-> & Hring & Hlog). split; [|done].
    split; simpl; try done. by rewrite table_snoc, <- ar_log0.
  - destruct Hr as [-> ->]. split; [|done]. by split.
Qed.

Lemma try_admit_safe f p g w :
  aready p g w → safe prule (admitted f w) (g, w) (try_admit crc32c config N f p).
Proof using HN HV HR.
  intros Hp. pose proof (published_all p g w Hp) as Hpub. pose proof Hp as [].
  unfold try_admit. rewrite bool_decide_eq_true_2 by done. cbn [negb].
  destruct (Page.preflight_append _ _ _) as [[]|e]; [|by split].
  assert (sw_next_sequence (ap_slab p) = p_next (ap_ring p)) as Hseq.
  { destruct ar_ring0. rewrite ar_slab0, pr_next, Hpub. done. }
  rewrite Hseq, Z.eqb_refl. cbn [negb].
  eapply safe_mbind; [apply chan_prule_monotone| |].
  { apply on_ring_safe; [unfold Ring.try_reserve, Ring.reserve_at; calls; done|].
    by apply RingSafety.try_reserve_safe. }
  intros [g' w'] [r ring]; cbn [fst snd]; intros (-> & Hring & Hlog & Hr). cbn [fst snd] in *.
  assert (aready {| ap_slab := ap_slab p; ap_ring := ring; ap_state := ap_state p |} g' w) as Hp'.
  { split; simpl; try done. congruence. }
  destruct r as [permit|[| |e]]; cbn [fst snd] in *; [|by split..|done].
  destruct Hr as [-> Hroom]. assert (p_next ring = p_next (ap_ring p)) as Hn.
  { pose proof (published_all _ _ _ Hp') as Hpub'. destruct Hring, ar_ring0. congruence. }
  rewrite (proj2 (Z.eqb_eq _ _) Hn). cbn [negb]. exact (admit_reserved_safe f _ g' w Hp' Hroom).
Qed.

(** *** Closing *)

Definition closed_with (frames : list Frame) (x : Z) (s : pstate * wstate) : Prop :=
  ws_frames s.2 = frames ∧ ws_stage s.2 = Idle ∧ (0 < ws_closes s.2)%nat ∧ ws_term s.2 = Some x ∧
  RingSafety.ps_log s.1 = table frames ∧ RingSafety.ps_pub s.1 = length frames.

(** The page, the terminal word and the ring, in this order. *)
Lemma close_all_safe {A} (a : A) x p g w :
  aready p g w → final x →
  safe prule (λ s a', a' = a ∧ closed_with (ws_frames w) x s) (g, w)
    (_ ← on_page Page.close; _ ← trigger (StoreTerminal x); _ ← on_ring Ring.close_producer; mret a).
Proof.
  intros Hp Hx. pose proof (published_all p g w Hp) as Hpub. destruct Hp, ar_idle0 as (Hst & Hc & Ht).
  destruct ar_ring0. unfold Page.close, Ring.close_producer. chan_red. cbn [RingSafety.prule].
  split; [done|]. split; [done|]. cbn [ws_closes ws_term ws_frames ws_stage].
  split; [lia|]. split; [done|]. split; [done|]. split; [split; [lia|]; split; [done|]; done|].
  split; [done|]. split; [done|]. unfold closed_with. simpl. split_and!; [done|done|lia|done|done|done].
Qed.

(** The endpoints are closed again when they are dropped. *)
Lemma close_again_safe frames x g w :
  closed_with frames x (g, w) →
  safe prule (λ s _, closed_with frames x s) (g, w)
    (_ ← on_page Page.close; on_ring Ring.close_producer).
Proof.
  intros (Hf & Hst & Hc & Ht & Hlog & Hpub). simpl in *. unfold Page.close, Ring.close_producer. chan_red.
  cbn [RingSafety.prule]. split; [done|]. split; [done|]. cbn [ws_closes ws_term ws_frames ws_stage].
  split; [split; [lia|]; split; [by rewrite Ht|congruence]|].
  split; [by rewrite Hlog, Hpub, table_length|]. unfold closed_with. simpl. split_and!; try done. lia.
Qed.

Lemma drop_safe p g w :
  aready p g w →
  safe prule (λ s _, closed_with (ws_frames w) TERMINAL_FAULTED s) (g, w) (drop_producer p).
Proof.
  intros Hp. unfold drop_producer, close_faulted.
  rewrite bool_decide_eq_false_2 by (destruct Hp; congruence).
  eapply safe_mbind; [apply chan_prule_monotone|eapply close_all_safe; [done|by right]|].
  intros [g' w'] p' [_ Hc]. by apply close_again_safe.
Qed.

Lemma finish_safe p g w :
  aready p g w →
  safe prule (λ s r, r = Ok tt ∧ closed_with (ws_frames w) TERMINAL_CLEAN s) (g, w) (finish p).
Proof.
  intros Hp. unfold finish. rewrite bool_decide_eq_true_2 by (by destruct Hp). cbn [negb].
  enough (∀ s, closed_with (ws_frames w) TERMINAL_CLEAN s →
    safe prule (λ s r, r = Ok tt ∧ closed_with (ws_frames w) TERMINAL_CLEAN s) s
      (_ ← drop_producer (with_state PFinished p); mret (Ok tt : Result unit FinishError))) as Hdrop.
  { pose proof (close_all_safe tt TERMINAL_CLEAN p g w Hp ltac:(by left)) as Hc. revert Hc Hdrop.
    chan_red. cbn [RingSafety.prule]. naive_solver. }
  intros [g' w'] Hc. eapply (safe_mbind _ (λ s _, closed_with (ws_frames w) TERMINAL_CLEAN s));
    [apply chan_prule_monotone| |intros s [] Hs; by split].
  unfold drop_producer, close_faulted. rewrite bool_decide_eq_true_2 by done. by apply close_again_safe.
Qed.

(** A producing client publishes the frames it was told were admitted, gets no
    refusal but for want of room or of a reader, and closes everything. *)
Definition producer_done (s : pstate * wstate) (d : produced) : Prop :=
  closed_with (ad_frames d) (match ad_finish d with Some _ => TERMINAL_CLEAN | None => TERMINAL_FAULTED end) s ∧
  ad_tokens d = map from_descriptor (table (ad_frames d)) ∧ Forall benign (ad_errors d) ∧
  (ad_finish d = None ∨ ad_finish d = Some (Ok tt)).

Lemma chan_produce_safe cl p d g w :
  aready p g w → ws_frames w = ad_frames d → ad_tokens d = map from_descriptor (table (ad_frames d)) →
  Forall benign (ad_errors d) → ad_finish d = None →
  safe prule producer_done (g, w) (produce crc32c config N cl p d).
Proof using HN HV HR.
  revert p d g w. induction cl as [| |f k IH]; intros p d g w Hp Hf Ht He Hn; cbn [produce].
  - eapply safe_mbind; [apply chan_prule_monotone|by apply drop_safe|]. intros s [] Hc.
    chan_red. unfold producer_done. rewrite Hn, <- Hf. split_and!; try done; [congruence|by left].
  - eapply safe_mbind; [apply chan_prule_monotone|by apply finish_safe|]. intros s r [-> Hc].
    chan_red. unfold producer_done. simpl. rewrite <- Hf. split_and!; try done; [congruence|by right].
  - eapply safe_mbind; [apply chan_prule_monotone|by apply try_admit_safe|].
    intros [g' w'] [[token|e] p'] [Hp' Hr]; cbn [fst snd] in *; apply IH; simpl; try done.
    + destruct Hr as [-> _]. by rewrite Hf.
    + destruct Hr as [_ ->]. by rewrite table_snoc, map_app, <- Ht, <- Hf.
    + destruct Hr as [-> _]. done.
    + destruct Hr as [_ Hb]. apply Forall_app. by repeat constructor.
Qed.

(** *** The consumer follows its protocol *)

(** The ring program [p] in the channel; the consumer may learn on the way. *)
Lemma on_ring_learns {A} (p : prog (RingE TelemetryDescriptor) A) Q h k :
  safe (RingSafety.crule N first) Q h p → knows h k →
  safe crule (λ s a, Q s.1 a ∧ more k s.2 ∧ knows s.1 s.2) (h, k) (on_ring p).
Proof.
  revert h k. induction p as [a|T e c IH]; intros h k; simpl; [done|].
  intros Hr Hk. eapply RingSafety.crule_monotone; [|exact Hr]. simpl. intros r h' Hs k' Hm Hk' _.
  eapply safe_impl; [apply chan_crule_monotone| |by apply IH]. simpl. intros s a (? & ? & ?).
  split_and!; [done|by etrans|done].
Qed.

Lemma on_ring_bind {A B} (p : prog (RingE TelemetryDescriptor) A) (f : A → prog _ B) Q s :
  safe crule (λ s a, safe crule Q s (on_ring (f a))) s (on_ring p) → safe crule Q s (on_ring (p ≫= f)).
Proof.
  revert s. induction p as [a|T e c IH]; intros s; [done|].
  simpl. intros Hr. eapply RingSafety.crule_monotone; [|exact Hr]. simpl. eauto.
Qed.

(** The words of a page are valid snapshots. *)
Lemma frames_bytes frames : fits frames → len frames ≤ len (payload_bytes frames).
Proof.
  intros [Hall _]. induction Hall as [|f frames Hf _ IH]; [done|].
  change (f :: frames) with ([f] ++ frames). rewrite payload_bytes_app, payload_bytes_one, !len_app.
  change (len [f]) with 1. lia.
Qed.

Lemma word_decodes frames closed :
  fits frames →
  decode (word frames closed) =
    {| ps_published_bytes := len (payload_bytes frames); ps_published_count := len frames;
       ps_writer_closed := closed; ps_reserved_bits := 0 |} ∧
  Page.snapshot_is_valid config (decode (word frames closed)) = true.
Proof using HV HR.
  intros Hfit. pose proof (frames_bytes _ Hfit) as Hle. destruct Hfit as (Hall & Hc & Hb).
  pose proof capacities as [Hbc Hdc]. pose proof (len_nonneg frames). pose proof (len_nonneg (payload_bytes frames)).
  change MAX_SLAB_PAGE_BYTES with 67108864 in Hbc. change MAX_SLAB_DESCRIPTORS with 65536 in Hdc.
  assert (decode (word frames closed) =
    {| ps_published_bytes := len (payload_bytes frames); ps_published_count := len frames;
       ps_writer_closed := closed; ps_reserved_bits := 0 |}) as Hdec.
  { apply decode_encode; lia. }
  split; [done|]. rewrite Hdec. unfold Page.snapshot_is_valid. simpl.
  rewrite !andb_true_iff, !Z.leb_le, negb_true_iff, negb_false_iff, Bool.eqb_true_iff.
  split_and!; try lia. destruct (Z.eqb_spec (len frames) 0) as [Hz|Hz].
  - destruct frames; [done|]. unfold len in Hz. simpl in Hz. lia.
  - symmetry. apply Z.eqb_neq. lia.
Qed.

Lemma take_bytes_le frames i j :
  (i ≤ j)%nat → len (payload_bytes (take i frames)) ≤ len (payload_bytes (take j frames)).
Proof.
  intros Hij. rewrite <- (take_drop i (take j frames)), payload_bytes_app, len_app, take_take.
  rewrite Nat.min_l by done. pose proof (len_nonneg (payload_bytes (drop i (take j frames)))). lia.
Qed.

Lemma snapshot_safe h k :
  knows h k →
  safe crule (λ s r, s.1 = h ∧ more k s.2 ∧ knows h s.2 ∧
     r = Ok {| ps_published_bytes := len (payload_bytes (take (ks_pub s.2) (ks_frames s.2)));
               ps_published_count := len (take (ks_pub s.2) (ks_frames s.2));
               ps_writer_closed := (length (ks_frames s.2) <? ks_pub s.2)%nat;
               ps_reserved_bits := 0 |}) (h, k) (on_page (Page.load_snapshot config)).
Proof using HV HR.
  intros Hk. unfold Page.load_snapshot. chan_red. intros k' Hm Hk'. pose proof Hk' as (Hfit & _).
  destruct (word_decodes (take (ks_pub k') (ks_frames k')) (length (ks_frames k') <? ks_pub k')%nat)
    as [Hdec Hval]; [eapply fits_prefix; [apply prefix_take|exact Hfit]|].
  unfold word_at. rewrite Hval, Hdec. done.
Qed.

Lemma on_page_bind {A B X} (p : prog PageE (Result A X)) (f : A → prog _ (Result B X)) Q s :
  safe crule (λ s r, match r with Ok a => safe crule Q s (on_page (f a)) | Err e => Q s (Err e) end) s
    (on_page p) →
  safe crule Q s (on_page (try_bind f p)).
Proof.
  revert s. induction p as [[a|e]|T e c IH]; intros s; [done|done|]. intros Hr.
  change (crule T (OnPage e) s (λ r s', safe crule Q s' (on_page (try_bind f (c r))))).
  eapply chan_crule_monotone; [|exact Hr]. simpl. eauto.
Qed.

(** A frame the consumer has seen published stays where it is. *)
Lemma more_frame k k' j f :
  more k k' → ks_frames k !! j = Some f →
  ks_frames k' !! j = Some f ∧ take j (ks_frames k') = take j (ks_frames k).
Proof.
  intros ([l ->] & _) Hf. split; [by apply lookup_app_l_Some|].
  rewrite take_app_le; [done|]. apply lookup_lt_Some in Hf. lia.
Qed.

Lemma resolve_safe h k j f :
  knows h k → ks_frames k !! j = Some f → (j < RingSafety.cs_view h)%nat →
  safe crule (λ s r, s.1 = h ∧ more k s.2 ∧ knows h s.2 ∧ r = Ok (fr_payload f)) (h, k)
    (on_page (Page.resolve crc32c config (describe (take j (ks_frames k)) f))).
Proof using HV HR.
  intros Hk Hf Hj. unfold Page.resolve. cbn [td_arena_id td_arena_generation Slab.describe].
  rewrite !Z.eqb_refl. cbn [negb]. apply on_page_bind.
  eapply safe_impl; [apply chan_crule_monotone| |by apply snapshot_safe].
  intros [h' k'] r; cbn [fst snd]; intros (-> & Hm & Hk' & ->). cbn [ps_published_count ps_published_bytes].
  destruct (more_frame _ _ _ _ Hm Hf) as [Hf' Htk]. rewrite <- Htk. clear Hf Htk Hk.
  pose proof Hk' as (Hfit & Hv1 & Hv2 & _). pose proof Hfit as (Hall & Hc & Hb).
  pose proof capacities as [Hbc Hdc]. destruct HR as (_ & _ & Hu).
  pose proof (proj1 (list.Forall_lookup _ _) Hall j f Hf') as Hsz. cbv beta in Hsz.
  destruct (payload_end _ _ _ Hf') as [Hend Hle].
  pose proof (take_bytes_le (ks_frames k') (S j) (ks_pub k') ltac:(lia)) as Htk.
  pose proof (len_nonneg (payload_bytes (take j (ks_frames k')))).
  assert (len (take j (ks_frames k')) = Z.of_nat j) as Hlj by (unfold len; rewrite length_take; lia).
  assert (Z.of_nat j < len (ks_frames k')) as Hjl by (unfold len; lia).
  rewrite (distance_of config j) by (simpl; rewrite ?Hlj; done || lia).
  destruct (Z.leb_spec (len (take (ks_pub k') (ks_frames k'))) (Z.of_nat j)) as [Hbad|_].
  { unfold len in Hbad. rewrite length_take in Hbad. lia. }
  chan_red. rewrite bool_decide_eq_true_2 by lia. chan_red.
  exists j, (describe (take j (ks_frames k')) f). split; [done|]. split; [lia|].
  split; [by apply table_lookup|]. rewrite bool_decide_eq_true_2 by done. chan_red. cbn [td_len Slab.describe].
  destruct (Z.eqb_spec (len (fr_payload f)) 0); [lia|].
  rewrite (range_of crc32c config (ks_frames k') j f) by (done || lia).
  apply on_page_bind. unfold Page.read_payload. chan_red. rewrite bool_decide_eq_true_2 by lia. chan_red.
  destruct (Z.eqb_spec (len (payload_bytes (take j (ks_frames k'))) + len (fr_payload f))
              (len (payload_bytes (take j (ks_frames k'))))); [lia|]. chan_red.
  exists j, f. split; [done|]. split; [lia|]. split; [done|]. split; [done|].
  cbn [td_crc32c Slab.describe]. rewrite Z.eqb_refl. done.
Qed.

(** What a consumer that is about to ask for a frame knows. *)
Definition nready (c : AdmissionConsumer) (h : cstate) (k : kstate) : Prop :=
  knows h k ∧ length (RingSafety.cs_log h) = RingSafety.cs_con h ∧
  RingSafety.cs_log h `prefix_of` table (ks_frames k) ∧
  match ac_state c with
  | COpen => RingSafety.cready N first (ac_ring c) h ∧
             ac_expected_sequence c = RingSafety.sq first (RingSafety.cs_con h) ∧
             ac_committed_count c = Z.of_nat (RingSafety.cs_con h)
  | CCleanEnd => RingSafety.at_end h ∧ ks_end k = Some TERMINAL_CLEAN
  | CFaulted => RingSafety.at_end h ∧ ks_end k = Some TERMINAL_FAULTED
  end.

(** The errors that can be answered, and what they mean. *)
Definition truthful (e : TryConsumeError) (h : cstate) (k : kstate) : Prop :=
  match e with
  | ConsumeEmpty => True
  | ConsumeCleanEnd => RingSafety.at_end h ∧ ks_end k = Some TERMINAL_CLEAN
  | ConsumerPoisoned => RingSafety.at_end h ∧ ks_end k = Some TERMINAL_FAULTED
  | ProducerFaulted published committed =>
      RingSafety.at_end h ∧ ks_end k = Some TERMINAL_FAULTED ∧
      published = Z.of_nat (RingSafety.cs_con h) ∧ committed = Z.of_nat (RingSafety.cs_con h)
  | _ => False
  end.

Lemma classify_safe c h k :
  nready c h k → ac_state c = COpen → RingSafety.at_end h →
  safe crule (λ s rc, s.1 = h ∧ more k s.2 ∧ truthful rc.1 h s.2 ∧ nready rc.2 h s.2) (h, k)
    (classify_end config c).
Proof using HV HR.
  intros (Hk & Hll & Hlog & Hst) Ho He. rewrite Ho in Hst. destruct Hst as (Hc & Hex & Hcm).
  unfold classify_end, Page.status.
  eapply (safe_mbind _ (λ s r, s.1 = h ∧ more k s.2 ∧ knows h s.2 ∧
    r = Ok {| st_published_count := Z.of_nat (RingSafety.cs_con h);
              st_published_bytes := len (payload_bytes (ks_frames s.2)); st_writer_closed := true |}));
    [apply chan_crule_monotone| |].
  - apply on_page_bind. eapply safe_impl; [apply chan_crule_monotone| |by apply snapshot_safe].
    intros [h' k'] r; cbn [fst snd]; intros (-> & Hm & Hk' & ->). chan_red.
    split; [done|]. split; [done|]. split; [done|]. destruct Hk' as (_ & _ & _ & Hfin).
    destruct (Hfin _ He) as (Hl & Hlt & _). cbn [ps_published_count ps_published_bytes ps_writer_closed].
    rewrite take_ge by lia. rewrite (proj2 (Nat.ltb_lt _ _)) by lia. unfold len at 1. by rewrite Hl.
  - intros [h' k'] r; cbn [fst snd]; intros (-> & Hm & Hk' & ->). chan_red.
    pose proof Hk' as (_ & _ & _ & Hfin). destruct (Hfin _ He) as (_ & _ & x & Hx & Hfx).
    intros v Hv. specialize (Hv x Hx). subst v. cbn [st_published_count st_writer_closed negb].
    rewrite Hcm, Z.eqb_refl. cbn [negb].
    assert (RingSafety.cs_log h `prefix_of` table (ks_frames k')) as Hlog'
      by (etrans; [exact Hlog|]; apply table_prefix, Hm).
    destruct Hfx as [-> | ->]; chan_red; (split; [done|]); (split; [done|]); (split; [done|]); split_and!; done.
Qed.

Lemma claim_safe c h k :
  RingSafety.cready N first c h → knows h k →
  safe crule (λ s rc, RingSafety.cready N first rc.2 s.1 ∧ RingSafety.same_log h s.1 ∧ more k s.2 ∧
      knows s.1 s.2 ∧
      match rc.1 with
      | Ok (sequence, d) =>
          RingSafety.cavail first rc.2 s.1 ∧ sequence = c_next rc.2 ∧
          table (ks_frames s.2) !! RingSafety.cs_con s.1 = Some d
      | Err ClaimEmpty => True
      | Err ClaimDisconnected => RingSafety.at_end s.1
      | Err (ClaimInvariant _) => False
      end) (h, k) (on_ring (Ring.try_claim N c)).
Proof using HN.
  intros Hc Hk. unfold Ring.try_claim. apply on_ring_bind.
  eapply safe_impl; [apply chan_crule_monotone| |].
  2:{ apply on_ring_learns; [by apply RingSafety.next_occupied_safe|done]. }
  intros [h1 k1] [[[s i]|[| |e]] c1]; cbn [fst snd]; intros ((Hc1 & Hs & Hr) & Hm & Hk1); cbn [fst snd] in *;
    [|by split..|done].
  destruct Hr as [Hav [= -> ->]]. pose proof Hc1 as []. pose proof Hav as (ch & Hch & Hb).
  chan_red. cbn [RingSafety.crule]. rewrite cr_next, bool_decide_eq_true_2 by (by apply RingSafety.slot_index_range).
  intros k2 Hm2 Hk2 _. chan_red. cbn [RingSafety.crule].
  split; [done|]. split; [done|]. split; [lia|]. intros v k3 Hm3 Hk3 Hv. simpl in Hv.
  split; [done|]. split; [done|]. split; [by do 2 (etrans; [done|])|]. done.
Qed.

Definition got (h : cstate) (k : kstate) (s : cstate * kstate)
    (rc : Result AdmittedEvent TryConsumeError * AdmissionConsumer) : Prop :=
  nready rc.2 s.1 s.2 ∧ RingSafety.same_log h s.1 ∧ more k s.2 ∧
  match rc.1 with
  | Ok ev =>
      ac_state rc.2 = COpen ∧ RingSafety.cavail first (ac_ring rc.2) s.1 ∧
      ev_claim ev = c_next (ac_ring rc.2) ∧
      ∃ f, ks_frames s.2 !! RingSafety.cs_con s.1 = Some f ∧
           ev_descriptor ev = describe (take (RingSafety.cs_con s.1) (ks_frames s.2)) f ∧
           ev_payload ev = fr_payload f
  | Err e => truthful e s.1 s.2
  end.

Lemma nready_open c ring h h1 k1 :
  ac_state c = COpen → ac_expected_sequence c = RingSafety.sq first (RingSafety.cs_con h) →
  ac_committed_count c = Z.of_nat (RingSafety.cs_con h) →
  RingSafety.cready N first ring h1 → RingSafety.same_log h h1 → knows h1 k1 →
  RingSafety.cs_log h1 `prefix_of` table (ks_frames k1) →
  nready {| ac_ring := ring; ac_expected_sequence := ac_expected_sequence c;
            ac_committed_count := ac_committed_count c; ac_state := ac_state c |} h1 k1.
Proof.
  intros Ho Hex Hcm Hc1 (Hcon & _) Hk1 Hlog. split; [done|]. split; [by destruct Hc1|]. split; [done|].
  simpl. rewrite Ho, Hex, Hcm, Hcon. done.
Qed.

Lemma try_next_safe c h k :
  nready c h k → safe crule (got h k) (h, k) (try_next crc32c config N c).
Proof using HN HV HR.
  intros Hn. pose proof Hn as (Hk & Hll & Hlog & Hst). unfold try_next. destruct (ac_state c) eqn:Ho.
  2,3: by split; [done|]; split; [done|]; split.
  destruct Hst as (Hc & Hex & Hcm).
  eapply safe_mbind; [apply chan_crule_monotone|by apply claim_safe|].
  intros [h1 k1] [r ring]; cbn [fst snd]; intros (Hc1 & Hs & Hm & Hk1 & Hr).
  assert (RingSafety.cs_log h1 `prefix_of` table (ks_frames k1)) as Hlog1.
  { destruct Hs as (_ & -> & _). etrans; [exact Hlog|]. apply table_prefix, Hm. }
  pose proof (nready_open c ring h h1 k1 Ho Hex Hcm Hc1 Hs Hk1 Hlog1) as Hn1. rewrite Ho in Hn1.
  set (c1 := {| ac_ring := ring |}) in *.
  destruct r as [[claim d]|[| |e]]; cbn [fst snd] in Hr; [| | |done].
  - destruct Hr as (Hav & -> & Hd). pose proof Hd as (f & Hf & ->)%table_lookup_inv.
    pose proof (lookup_lt_Some _ _ _ Hf) as Hlt.
    assert (td_sequence (describe (take (RingSafety.cs_con h1) (ks_frames k1)) f) = ac_expected_sequence c1) as Hq.
    { simpl. rewrite Hex. destruct Hs as (<- & _). unfold RingSafety.sq, len. rewrite length_take. do 2 f_equal. lia. }
    rewrite (proj2 (Z.eqb_eq _ _) Hq). cbn [negb]. pose proof Hav as (ch & _ & Hch).
    eapply safe_mbind; [apply chan_crule_monotone|apply resolve_safe; [done|exact Hf|lia]|].
    intros [h2 k2] r; cbn [fst snd]; intros (-> & Hm2 & Hk2 & ->).
    destruct (more_frame _ _ _ _ Hm2 Hf) as [Hf2 Htk]. chan_red. split.
    + destruct Hn1 as (_ & ? & ? & ?). split; [done|]. split; [done|]. split; [|done].
      etrans; [done|]. apply table_prefix, Hm2.
    + split; [done|]. split; [by etrans|]. simpl. split; [done|]. split; [done|]. split; [done|].
      exists f. rewrite Htk. done.
  - by split.
  - eapply safe_mbind; [apply chan_crule_monotone|by apply classify_safe|].
    intros [h2 k2] [e c2]; cbn [fst snd]; intros (-> & Hm2 & Ht & Hn2). chan_red.
    split; [done|]. split; [done|]. split; [by etrans|done].
Qed.

(** The frame committed is the one that was shown. *)
Lemma chan_commit_safe ev c h k f :
  nready c h k → ac_state c = COpen → RingSafety.cavail first (ac_ring c) h →
  ev_claim ev = c_next (ac_ring c) → ks_frames k !! RingSafety.cs_con h = Some f →
  safe crule (λ s rc, nready rc.2 s.1 s.2 ∧ more k s.2 ∧
      RingSafety.cs_con s.1 = S (RingSafety.cs_con h) ∧
      rc.1 = from_descriptor (describe (take (RingSafety.cs_con h) (ks_frames k)) f)) (h, k)
    (commit N ev c).
Proof.
  intros (Hk & Hll & Hlog & Hst) Ho Hav Hcl Hf. rewrite Ho in Hst. destruct Hst as (Hc & Hex & Hcm).
  pose proof (RingSafety.commit_safe N first (V := TelemetryDescriptor) (ac_ring c) h Hc Hav) as Hs.
  revert Hs. unfold commit. rewrite Hcl, Ho. unfold Ring.commit. chan_red.
  cbv [mret prog_mret mbind prog_mbind trigger]. cbn [safe prog_bind RingSafety.crule].
  intros (H1 & H2 & H3 & H4). split; [done|]. split; [done|]. split; [done|].
  intros v k1 Hm1 Hk1 Hv. simpl in Hv. destruct (H4 v) as (H5 & H6 & Hc2 & Hl2).
  split; [done|]. split; [done|]. intros k2 Hm2 Hk2 _. cbn [fst snd] in *.
  assert (more k k2) as Hm by (by etrans). destruct (more_frame _ _ _ _ Hm1 Hf) as [Hf1 Htk1].
  rewrite (table_lookup _ _ _ _ _ Hf1), Htk1 in Hv. injection Hv as <-.
  split; [|done]. split; [done|]. simpl in *. split; [by destruct Hc2|]. split.
  - apply prefix_next; [etrans; [exact Hlog|]; apply table_prefix, Hm|].
    rewrite Hll. destruct (more_frame _ _ _ _ Hm Hf) as [Hf2 Htk2].
    by rewrite (table_lookup _ _ _ _ _ Hf2), Htk2.
  - split; [done|]. assert (len (take (RingSafety.cs_con h) (ks_frames k)) = Z.of_nat (RingSafety.cs_con h)) as Hlen.
    { unfold len. rewrite length_take. apply lookup_lt_Some in Hf. lia. }
    split; [|lia]. rewrite Hlen. apply RingSafety.sq_next.
Qed.

(** What was handed out when [n] frames were committed. *)
Definition delivered (frames : list Frame) (n : nat) : list (TelemetryDescriptor * list byte) :=
  zip (table (take n frames)) (map fr_payload (take n frames)).

Lemma delivered_next frames n f :
  frames !! n = Some f →
  delivered frames (S n) = delivered frames n ++ [(describe (take n frames) f, fr_payload f)].
Proof.
  intros Hf. unfold delivered. rewrite (take_S_r _ _ _ Hf), table_snoc, map_app.
  rewrite zip_with_app; [done|]. by rewrite table_length, length_map.
Qed.

Lemma truthful_same e h k h' k' :
  truthful e h k → RingSafety.same_log h h' → more k k' → truthful e h' k'.
Proof.
  intros He (Hcon & _ & Hend) (_ & _ & Hk). destruct e; simpl in *; try done; naive_solver.
Qed.

Lemma truthful_open e h k : truthful e h k → ¬ RingSafety.at_end h → e = ConsumeEmpty.
Proof. destruct e; simpl; naive_solver. Qed.

Record consumer_done (s : cstate * kstate) (d : consumed) : Prop := {
  cn_count : (RingSafety.cs_con s.1 ≤ length (ks_frames s.2))%nat;
  cn_delivered : cn_events d = delivered (ks_frames s.2) (RingSafety.cs_con s.1);
  cn_acknowledged : cn_tokens d = map from_descriptor (table (take (RingSafety.cs_con s.1) (ks_frames s.2)));
  cn_truthful : Forall (λ e, truthful e s.1 s.2) (cn_errors d);
  cn_knows : knows s.1 s.2 }.

Lemma done_same d h k h' k' :
  consumer_done (h, k) d → RingSafety.same_log h h' → more k k' → knows h' k' → consumer_done (h', k') d.
Proof.
  intros [] Hs Hm Hk. simpl in *. pose proof Hs as (Hcon & _). pose proof Hm as ([l Hl] & _).
  assert (take (RingSafety.cs_con h) (ks_frames k') = take (RingSafety.cs_con h) (ks_frames k)) as Htk.
  { rewrite Hl, take_app_le by lia. done. }
  split; simpl; rewrite ?Hcon; try done.
  - rewrite Hl, length_app. lia.
  - unfold delivered in *. by rewrite Htk.
  - by rewrite Htk.
  - eapply list.Forall_impl; [exact cn_truthful0|]. intros e He. simpl in *.
    by apply (truthful_same e h k).
Qed.

Lemma done_error d e h k :
  consumer_done (h, k) d → truthful e h k →
  consumer_done (h, k) {| cn_events := cn_events d; cn_tokens := cn_tokens d; cn_errors := cn_errors d ++ [e] |}.
Proof. intros [] He. split; simpl; try done. apply Forall_app. by repeat constructor. Qed.

Lemma done_commit d h k h' k' f :
  consumer_done (h, k) d → ks_frames k !! RingSafety.cs_con h = Some f → ¬ RingSafety.at_end h →
  RingSafety.cs_con h' = S (RingSafety.cs_con h) → more k k' → knows h' k' →
  let desc := describe (take (RingSafety.cs_con h) (ks_frames k)) f in
  consumer_done (h', k')
    {| cn_events := cn_events d ++ [(desc, fr_payload f)]; cn_tokens := cn_tokens d ++ [from_descriptor desc];
       cn_errors := cn_errors d |}.
Proof.
  intros Hd Hf Hne Hcon Hm Hk desc.
  destruct (more_frame _ _ _ _ Hm Hf) as [Hf' Htk].
  assert (RingSafety.cs_con h ≤ length (ks_frames k'))%nat by (apply lookup_lt_Some in Hf'; lia).
  destruct Hd. simpl in *. split; simpl; rewrite ?Hcon; try done.
  - by apply lookup_lt_Some in Hf'.
  - rewrite (delivered_next _ _ _ Hf'), Htk, cn_delivered0. unfold delivered. by rewrite Htk.
  - by rewrite (take_S_r _ _ _ Hf'), table_snoc, map_app, Htk, cn_acknowledged0.
  - eapply list.Forall_impl; [exact cn_truthful0|]. intros e He. by rewrite (truthful_open _ _ _ He Hne).
Qed.

Lemma chan_consume_safe cl c d h k :
  nready c h k → consumer_done (h, k) d →
  safe crule consumer_done (h, k) (consume crc32c config N cl c d).
Proof using HN HV HR.
  revert c d h k. induction cl as [|accept cont IH]; intros c d h k Hn Hd; cbn [consume].
  - unfold drop_consumer, Ring.close_consumer. chan_red. cbn [RingSafety.crule]. intros k' Hm Hk' _.
    by eapply done_same.
  - eapply safe_mbind; [apply chan_crule_monotone|by apply try_next_safe|].
    intros [h1 k1] [[ev|e] c1]; cbn [fst snd]; intros (Hn1 & Hs1 & Hm1 & Hr); cbn [fst snd] in *.
    + pose proof (done_same d h k h1 k1 Hd Hs1 Hm1 (proj1 Hn1)) as Hd1.
      destruct Hr as (Ho & Hav & Hcl & f & Hf & Hdesc & Hpay).
      destruct (accept _ _); [|by apply IH].
      assert (¬ RingSafety.at_end h1) as Hne.
      { intros He. destruct Hn1 as (_ & _ & _ & Hst). rewrite Ho in Hst. destruct Hst as (Hc1 & _).
        by apply (RingSafety.at_end_empty _ _ _ _ Hc1 He). }
      eapply safe_mbind; [apply chan_crule_monotone|by eapply chan_commit_safe|].
      intros [h2 k2] [token c2]; cbn [fst snd]; intros (Hn2 & Hm2 & Hcon & ->). cbn [fst snd] in *.
      apply IH; [done|]. rewrite Hdesc, Hpay. eapply done_commit; try done. apply Hn2.
    + apply IH; [done|]. apply done_error; [|done]. by apply (done_same d h k h1 k1 Hd Hs1 Hm1 (proj1 Hn1)).
Qed.

(** *** Every interleaving *)

Definition conforms (s : state) : Prop :=
  ∃ g w h k, cwf (s_mem s) g w h k ∧ safe prule producer_done (g, w) (s_producer s) ∧
             safe crule consumer_done (h, k) (s_consumer s).

Lemma chan_conforms_step s s' : conforms s → step s s' → conforms s'.
Proof using HN HV HR.
  intros (g & w & h & k & Hwf & Hp & Hc) Hs. destruct Hs as [m T e c r m' cc Ha|m pp T e c r m' Ha].
  - destruct (chan_producer_step e m r m' g w h k _ Hwf Hp Ha) as (g' & w' & Hwf' & Hp'). by exists g', w', h, k.
  - destruct (chan_consumer_step e m r m' g w h k _ Hwf Hc Ha) as (h' & k' & Hwf' & Hc'). by exists g, w, h', k'.
Qed.

Lemma chan_conforms_reached s s' : conforms s → rtc step s s' → conforms s'.
Proof using HN HV HR. induction 2; eauto using chan_conforms_step. Qed.

Lemma chan_conforms_start alloc m pc cc :
  new alloc N config = Ok m → conforms (start crc32c N config m pc cc).
Proof using HN HV HR.
  unfold new. rewrite HN, HV. unfold Page.new. rewrite HV.
  destruct (alloc PayloadBytes _); [|done]. destruct (alloc Descriptors _); [|done].
  unfold Ring.new_with_sequence. rewrite HN. intros [= <-].
  pose proof (RingSafety.capacity_bounds N HN). pose proof HR as (_ & _ & Hu).
  assert (RingSafety.sq first 0 = first) as H0.
  { unfold RingSafety.sq. rewrite Z.add_0_r. by apply wrap64_id. }
  assert (fits []) as Hfit0 by (destruct HR as (? & ? & _); by split).
  pose (g := {| RingSafety.ps_pub := 0; RingSafety.ps_view := 0; RingSafety.ps_log := [];
                RingSafety.ps_closed := false |} : pstate).
  pose (h := {| RingSafety.cs_con := 0; RingSafety.cs_view := 0; RingSafety.cs_log := [];
                RingSafety.cs_fin := None |} : cstate).
  pose (w := {| ws_frames := []; ws_stage := Idle; ws_closes := 0; ws_term := None |}).
  pose (k := {| ks_frames := []; ks_pub := 0; ks_end := None |}).
  assert (knows h k) as Hk by (split; [done|]; split; [done|]; split; done).
  exists g, w, h, k. split; [|split].
  - split; simpl; try done.
    + split; simpl; rewrite ?H0; try done; try lia.
      * by rewrite length_replicate.
      * intros i v Hi. apply lookup_replicate in Hi as [[=] _].
    + split; simpl; try done; unfold cells; simpl; rewrite ?Nat.sub_0_r; try done. split; lia.
    + split; [done|]. intros j a Hj. apply list_lookup_singleton_Some in Hj as [-> <-]. lia.
    + intros a b Hab. by apply elem_of_nil in Hab.
  - apply chan_produce_safe; try done. split; simpl; try done.
    + split; simpl; rewrite ?H0; try done. exists 0%nat. rewrite H0. split; [done|lia].
    + unfold Page.open_writer, writer_at, len. simpl. f_equal. symmetry. rewrite Z.add_0_r. by apply wrap64_id.
  - apply chan_consume_safe.
    + split; [done|]. split; [done|]. split; [done|]. simpl. split.
      * split; simpl; rewrite ?H0; try done; [lia|]. exists 0%nat. by rewrite H0.
      * by rewrite H0.
    + split; simpl; try done.
Qed.

Lemma moves s :
  conforms s →
  ((∃ d, s_producer s = Ret d) ∨ ∃ s', step s s' ∧ s_consumer s' = s_consumer s) ∧
  ((∃ d, s_consumer s = Ret d) ∨ ∃ s', step s s' ∧ s_producer s' = s_producer s).
Proof using HN HV HR.
  intros (g & w & h & k & Hwf & Hp & Hc). destruct s as [m pp cc]. simpl in *. split.
  - destruct pp as [d|T e c]; [eauto|right].
    destruct (chan_producer_progress e m g w h k _ Hwf Hp) as (r & m' & Ha). eexists. split; [by constructor|done].
  - destruct cc as [d|T e c]; [eauto|right].
    destruct (chan_consumer_progress e m g w h k _ Hwf Hc) as (r & m' & Ha). eexists. split; [by constructor|done].
Qed.

(** What the two endpoints were told, once both are done. *)
Lemma ended s dp dc :
  conforms s → s_producer s = Ret dp → s_consumer s = Ret dc →
  Forall benign (ad_errors dp) ∧ ad_tokens dp = map from_descriptor (table (ad_frames dp)) ∧
  (ad_finish dp = None ∨ ad_finish dp = Some (Ok tt)) ∧
  ∃ n, (n ≤ length (ad_frames dp))%nat ∧ cn_events dc = delivered (ad_frames dp) n ∧
    cn_tokens dc = take n (ad_tokens dp) ∧
    Forall (λ e, match e with
      | ConsumeEmpty => True
      | ConsumeCleanEnd => ad_finish dp = Some (Ok tt) ∧ n = length (ad_frames dp)
      | ConsumerPoisoned => ad_finish dp = None ∧ n = length (ad_frames dp)
      | ProducerFaulted published committed =>
          ad_finish dp = None ∧ n = length (ad_frames dp) ∧ published = Z.of_nat n ∧ committed = Z.of_nat n
      | _ => False
      end) (cn_errors dc).
Proof.
  intros (g & w & h & k & Hwf & Hp & Hc) Hpd Hcd. rewrite Hpd in Hp. rewrite Hcd in Hc.
  destruct Hp as ((HF & _ & _ & Hterm & _) & Htok & Hben & Hfin).
  destruct Hc as [Hcnt Hdel Hack Htr Hk]. simpl in *. destruct Hwf, cw_page0, pw_known0 as [[l Hl] Hke].
  assert (take (RingSafety.cs_con h) (ks_frames k) = take (RingSafety.cs_con h) (ad_frames dp)) as Htk.
  { rewrite <- HF, Hl, take_app_le by done. done. }
  split; [done|]. split; [done|]. split; [done|]. exists (RingSafety.cs_con h). split_and!.
  - rewrite <- HF, Hl, length_app. lia.
  - rewrite Hdel. unfold delivered. by rewrite Htk.
  - by rewrite Hack, Htk, Htok, <- fmap_take, table_take.
  - eapply list.Forall_impl; [exact Htr|]. intros e He.
    assert (∀ x, RingSafety.at_end h → ks_end k = Some x →
      RingSafety.cs_con h = length (ad_frames dp) ∧ ws_term w = Some x) as Hend.
    { intros x Hae Hx. destruct (Hke x Hx) as (Ht & Hkf & _). destruct Hk as (_ & _ & _ & Hfn).
      destruct (Hfn _ Hae) as (Hlen & _). rewrite <- HF, <- Hkf. done. }
    rewrite Hterm in Hend.
    destruct e; simpl in He |- *; try done;
      [destruct He as [Ha Hx]|destruct He as [Ha Hx]|destruct He as (Ha & Hx & -> & ->)];
      destruct (Hend _ Ha Hx) as [Hn Ht]; destruct Hfin as [Hf|Hf]; rewrite Hf in *; done.
Qed.
End Protocol.

(** A finished producer, or consumer, only gets shorter programs. *)
Definition shorter {A} (p' p : prog ChannelE A) : Prop :=
  match p with Ret _ => False | Vis _ k => ∃ r, p' = k r end.

Lemma chan_step_shorter s s' :
  step s s' →
  shorter (s_producer s') (s_producer s) ∧ s_consumer s' = s_consumer s ∨
  s_producer s' = s_producer s ∧ shorter (s_consumer s') (s_consumer s).
Proof. intros []; [left|right]; simpl; eauto. Qed.

Lemma chan_runs_end s : Acc (λ s' s, step s s') s.
Proof.
  destruct s as [m p q]. revert m q.
  induction p as [d|T e k IHp]; intros m q; revert m;
    (induction q as [d'|T' e' k' IHq]; intros m; constructor; intros [m' p' q'] Hs;
     apply chan_step_shorter in Hs as [[Hp Hq]|[Hp Hq]]; simpl in *;
     repeat match goal with H : ∃ _, _ |- _ => destruct H | H : False |- _ => destruct H end;
     subst; auto).
Qed.

Lemma chan_conforms_run crc32c alloc N config m pc cc s :
  in_range config → new alloc N config = Ok m → rtc step (start crc32c N config m pc cc) s →
  validate_capacity N = Ok tt ∧ validate_config config = Ok tt ∧ conforms crc32c config N s.
Proof.
  intros HR Hn Hr. assert (validate_capacity N = Ok tt ∧ validate_config config = Ok tt) as [HN HV].
  { unfold new in Hn. destruct (validate_capacity N) as [[]|]; [|done].
    by destruct (validate_config config) as [[]|]. }
  split; [done|]. split; [done|]. eauto using chan_conforms_reached, chan_conforms_start.
Qed.

(** *** Running a schedule

    The accesses as functions that answer the latest values, and the state a
    schedule of endpoints ([true]: the producer) leads to. *)

Definition page_now {T} (e : PageE T) (m : Page.PageMem) : option (T * Page.PageMem) :=
  let read {A} (lo n : nat) (cells : list (option (A * nat))) : option (list A) :=
    l ← mapM id (take n (drop lo cells));
    if (length l =? n)%nat && forallb (λ x, (x.2 <=? Page.pm_view m)%nat) l then Some (map fst l) else None in
  let free {A} (lo n : nat) (cells : list (option A)) : bool :=
    let l := take n (drop lo cells) in
    (length l =? n)%nat && forallb (λ c, match c with None => true | Some _ => false end) l in
  match e in PageE T return option (T * Page.PageMem) with
  | LoadPublication =>
      let j := (length (Page.pm_pub m) - 1)%nat in
      if (Page.pm_view m <=? j)%nat then (λ z, (z, Page.see j m)) <$> Page.pm_pub m !! j else None
  | StorePublication v => Some (tt, Page.store v m)
  | OrPublication bits => (λ v, (tt, Page.store (Z.lor v bits) m)) <$> list.last (Page.pm_pub m)
  | HasBytes lo hi => Some (bool_decide (0 ≤ lo ∧ lo ≤ hi ∧ hi ≤ len (Page.pm_bytes m)), m)
  | WriteBytes offset payload =>
      if (0 <=? offset) && free (Z.to_nat offset) (length payload) (Page.pm_bytes m)
      then Some (tt, Page.write_bytes (Z.to_nat offset) payload m) else None
  | ReadBytes lo hi =>
      if (0 <=? lo) && (lo <=? hi)
      then (λ l, (l, m)) <$> read (Z.to_nat lo) (Z.to_nat (hi - lo)) (Page.pm_bytes m) else None
  | HasDescriptor i => Some (bool_decide (0 ≤ i < len (Page.pm_descriptors m)), m)
  | WriteDescriptor i d =>
      if (0 <=? i) && free (Z.to_nat i) 1%nat (Page.pm_descriptors m)
      then Some (tt, Page.write_descriptor (Z.to_nat i) d m) else None
  | ReadDescriptorCell i =>
      if 0 <=? i then
        l ← read (Z.to_nat i) 1%nat (Page.pm_descriptors m);
        match l with [d] => Some (d, m) | _ => None end
      else None
  end.

Lemma mapM_id_Some {A} (l : list (option A)) k : mapM id l = Some k → l = map Some k.
Proof.
  intros H. apply mapM_Some in H. induction H as [|x y l k Hxy _ IH]; [done|]. simpl. unfold id in Hxy. congruence.
Qed.

Lemma read_covered {A} view lo n (cells : list (option (A * nat))) vs :
  (l ← mapM id (take n (drop lo cells));
   if (length l =? n)%nat && forallb (λ x, (x.2 <=? view)%nat) l then Some (map fst l) else None) = Some vs →
  Page.covered view lo n cells vs.
Proof.
  destruct (mapM id _) as [l|] eqn:Hl; simpl; [|done]. apply mapM_id_Some in Hl.
  destruct (andb _ _) eqn:Hb; [|done]. apply andb_true_iff in Hb as [Hn%Nat.eqb_eq Hf]. intros [= <-].
  exists l. split; [done|]. split; [|split; [done|by rewrite length_map]].
  apply list.Forall_forall. intros x Hx%list_elem_of_In. rewrite forallb_forall in Hf.
  by apply Nat.leb_le, Hf.
Qed.

Lemma free_fresh {A} lo n (cells : list (option A)) :
  (length (take n (drop lo cells)) =? n)%nat &&
  forallb (λ c, match c with None => true | Some _ => false end) (take n (drop lo cells)) = true →
  Page.fresh lo n cells.
Proof.
  intros [Hn%Nat.eqb_eq Hf]%andb_true_iff. unfold Page.fresh. revert Hn Hf.
  generalize (take n (drop lo cells)) as l. intros l <-. induction l as [|[x|] l IH]; simpl; [done..|].
  intros Hf. f_equal. by apply IH.
Qed.

Lemma page_now_ok {T} (e : PageE T) m r m' : page_now e m = Some (r, m') → Page.access e m r m'.
Proof.
  destruct e; destruct_units; simpl; intros H; try naive_solver.
  - destruct (Nat.leb_spec (Page.pm_view m) (length (Page.pm_pub m) - 1)); [|done].
    apply fmap_Some in H as (z & Hz & [= -> ->]). eauto.
  - apply fmap_Some in H as (v & Hv & [= ->]). eauto.
  - destruct (andb _ _) eqn:Hb in H; [|done]. apply andb_true_iff in Hb as [H0 Hf%free_fresh].
    injection H as <-. split; [lia|done].
  - destruct (andb _ _) eqn:Hb in H; [|done]. apply fmap_Some in H as (l & Hl%read_covered & [= -> ->]).
    split; [lia|done].
  - destruct (andb _ _) eqn:Hb in H; [|done]. apply andb_true_iff in Hb as [H0 Hf%free_fresh].
    injection H as <-. split; [lia|done].
  - destruct (Z.leb_spec 0 i); [|done]. apply bind_Some in H as (l & Hl%read_covered & Hd).
    destruct l as [|d [|]]; try done. injection Hd as -> ->. done.
Qed.

Definition shared_now {T} (e : ChannelE T) (m : Shared) : option (T * Shared) :=
  match e in ChannelE T return option (T * Shared) with
  | @OnRing T e =>
      '(r, ring) ← RingSafety.access_now e (ch_ring m);
      let m := with_ring ring m in
      match e in RingE _ T return T → option (T * Shared) with
      | StoreHead _ => λ r, Some (r, with_mark (last_publication m) m)
      | StoreProducerClosed => λ r, Some (r, with_close (last_publication m, last_terminal m) m)
      | LoadHead => λ r, (λ k, (r, acquire k m)) <$> ch_marks m !! Ring.in_cview (ch_ring m)
      | LoadProducerClosed => λ r,
          if r then (λ x, (r, see_terminal (ch_tview m `max` x.2) (acquire x.1 m))) <$> list.last (ch_closes m)
          else Some (r, m)
      | _ => λ r, Some (r, m)
      end r
  | OnPage e => '(r, page) ← page_now e (ch_page m); Some (r, with_page page m)
  | LoadTerminal =>
      let j := last_terminal m in
      if (ch_tview m <=? j)%nat then (λ v, (v, see_terminal j m)) <$> ch_terminal m !! j else None
  | StoreTerminal v => Some (tt, store_terminal v m)
  end.

Lemma shared_now_ok {T} (e : ChannelE T) m r m' : shared_now e m = Some (r, m') → access e m r m'.
Proof.
  destruct e as [T e|T e| |v]; cbn [shared_now].
  - intros ([r0 ring] & Ha & H)%bind_Some. apply RingSafety.access_now_ok in Ha.
    enough (r0 = r ∧ synced e r (with_ring ring m) m') as [-> ?] by (by exists ring).
    destruct e; simpl in *; try naive_solver.
    + destruct r0; [|naive_solver]. apply fmap_Some in H as ([a b] & Hl & [= -> ->]). split; [done|].
      exists a, b. split; [|done]. by apply last_Some_elem_of.
    + apply fmap_Some in H as (k & Hk & [= -> ->]). eauto.
  - intros ([r0 page] & Ha%page_now_ok & [= <- <-])%bind_Some. by exists page.
  - destruct (Nat.leb_spec (ch_tview m) (last_terminal m)); [|done].
    intros (v & Hv & [= -> ->])%fmap_Some. by exists (last_terminal m).
  - by intros [= <- <-].
Qed.

Definition turn (producer : bool) (s : state) : option state :=
  if producer then
    match s_producer s with
    | Ret _ => None
    | Vis e k =>
        '(r, m') ← shared_now e (s_mem s);
        Some {| s_mem := m'; s_producer := k r; s_consumer := s_consumer s |}
    end
  else
    match s_consumer s with
    | Ret _ => None
    | Vis e k =>
        '(r, m') ← shared_now e (s_mem s);
        Some {| s_mem := m'; s_producer := s_producer s; s_consumer := k r |}
    end.

Lemma turn_ok b s s' : turn b s = Some s' → step s s'.
Proof.
  destruct b, s as [m [dp|Tp ep kp] [dc|Tc ec kc]]; simpl; try done;
    (destruct (shared_now _ m) as [[r m']|] eqn:Ha; simpl; [|done]; intros [= <-];
     apply shared_now_ok in Ha; by constructor).
Qed.

(** An endpoint that has finished is skipped. *)
Fixpoint schedule (turns : list bool) (s : state) : state :=
  match turns with
  | [] => s
  | b :: turns => schedule turns (default s (turn b s))
  end.

Lemma turns_reach turns s : rtc step s (schedule turns s).
Proof.
  revert s. induction turns as [|b turns IH]; intros s; simpl; [done|].
  destruct (turn b s) as [s'|] eqn:Hs; simpl; [|done]. eapply rtc_l; [by eapply turn_ok|done].
Qed.


(** C34: the admission channel delivers exactly what it admitted, in every
    interleaving of a producer and a consumer that use it in any way, with any
    stale read the memory model allows.  A refusal only ever says that the page
    or the ring has no room or that the consumer is gone; the tokens are those of
    the frames' descriptors.  The consumer is handed the first frames that were
    admitted, in order, each with the bytes it was admitted with; it is told of a
    clean end only if the producer finished, of a fault only if it did not, and
    in both cases only after the last frame; and it never meets an error of the
    page, the ring, the sequence, the counts or the order of closing. *)
Theorem channel_delivers_what_it_admitted crc32c alloc N config m pc cc s dp dc :
  in_range config → new alloc N config = Ok m → rtc step (start crc32c N config m pc cc) s →
  s_producer s = Ret dp → s_consumer s = Ret dc →
  Forall benign (ad_errors dp) ∧ ad_tokens dp = map from_descriptor (table crc32c config (ad_frames dp)) ∧
  (ad_finish dp = None ∨ ad_finish dp = Some (Ok tt)) ∧
  ∃ n, (n ≤ length (ad_frames dp))%nat ∧ cn_events dc = delivered crc32c config (ad_frames dp) n ∧
    cn_tokens dc = take n (ad_tokens dp) ∧
    Forall (λ e, match e with
      | ConsumeEmpty => True
      | ConsumeCleanEnd => ad_finish dp = Some (Ok tt) ∧ n = length (ad_frames dp)
      | ConsumerPoisoned => ad_finish dp = None ∧ n = length (ad_frames dp)
      | ProducerFaulted published committed =>
          ad_finish dp = None ∧ n = length (ad_frames dp) ∧ published = Z.of_nat n ∧ committed = Z.of_nat n
      | _ => False
      end) (cn_errors dc).
Proof.
  intros HR Hn Hr Hp Hc. destruct (chan_conforms_run _ _ _ _ _ _ _ _ HR Hn Hr) as (HN & HV & Hconf).
  by apply (ended crc32c config N s).
Qed.

(** No access of the channel goes wrong.  In every state that any schedule of
    the two endpoints can reach, an endpoint that has not finished can go on
    without the other: no cell of the page is written twice, read before it was
    written or read before a store the reader has seen covers it, no slot of the
    ring is read empty, no index is out of range; and every schedule ends. *)
Theorem channel_endpoints_never_stuck crc32c alloc N config m pc cc s :
  in_range config → new alloc N config = Ok m → rtc step (start crc32c N config m pc cc) s →
  Acc (λ s' s, step s s') s ∧
  ((∃ d, s_producer s = Ret d) ∨ ∃ s', step s s' ∧ s_consumer s' = s_consumer s) ∧
  ((∃ d, s_consumer s = Ret d) ∨ ∃ s', step s s' ∧ s_producer s' = s_producer s).
Proof.
  intros HR Hn Hr. destruct (chan_conforms_run _ _ _ _ _ _ _ _ HR Hn Hr) as (HN & HV & Hconf).
  split; [apply chan_runs_end|]. by apply (moves crc32c config N).
Qed.

(** The frames of {!Slab.demo_frames} through a ring of two slots: the third does
    not fit the page; the consumer asks until the end. *)
Definition demo_admit : pclient :=
  AAdmit {| fr_payload := [x61; x62; x63]; fr_schema_id := 1; fr_flags := 0 |} (λ _,
  AAdmit {| fr_payload := [x64; x65]; fr_schema_id := 1; fr_flags := 2 |} (λ _,
  AAdmit {| fr_payload := [x66; x66; x66; x66]; fr_schema_id := 1; fr_flags := 0 |} (λ _, AFinish))).

Fixpoint demo_next (n : nat) : cclient :=
  match n with O => NDrop | S n => NNext (λ _ _, true) (λ _, demo_next n) end.

Definition demo_shared : Shared :=
  match new (λ _ _, true) 2 demo_config with
  | Ok m => m
  | Err _ => {| ch_ring := {| Ring.in_head := []; Ring.in_tail := []; Ring.in_pclosed := None;
       Ring.in_cclosed := false; Ring.in_slots := []; Ring.in_pview := 0; Ring.in_cview := 0;
       Ring.in_written := []; Ring.in_read := [] |};
     ch_page := {| Page.pm_pub := []; Page.pm_view := 0; Page.pm_bytes := []; Page.pm_descriptors := [] |};
     ch_terminal := []; ch_tview := 0; ch_marks := []; ch_closes := [] |}
  end.

Definition demo_over : state :=
  schedule (replicate 5 true ++ replicate 5 false ++ replicate 40 true ++ replicate 60 false)
    (start demo_crc 2 demo_config demo_shared demo_admit (demo_next 6)).

Lemma channel_delivers_what_it_admitted_witness :
  ∃ dp dc, s_producer demo_over = Ret dp ∧ s_consumer demo_over = Ret dc ∧
    length (ad_frames dp) = 2%nat ∧ ConsumeCleanEnd ∈ cn_errors dc ∧
    map snd (cn_events dc) = [[x61; x62; x63]; [x64; x65]] ∧ cn_tokens dc = ad_tokens dp.
Proof.
  destruct (s_producer demo_over) as [dp|] eqn:Hp; [|vm_compute in Hp; discriminate].
  destruct (s_consumer demo_over) as [dc|] eqn:Hc; [|vm_compute in Hc; discriminate].
  exists dp, dc. split; [reflexivity|]. split; [reflexivity|].
  destruct (channel_delivers_what_it_admitted demo_crc (λ _ _, true) 2 demo_config demo_shared demo_admit
    (demo_next 6) demo_over dp dc) as (_ & _ & _ & n & _ & _ & Htok & Herr).
  - repeat split; vm_compute; congruence.
  - reflexivity.
  - apply turns_reach.
  - exact Hp.
  - exact Hc.
  - vm_compute in Hp, Hc. injection Hp as <-. injection Hc as <-. simpl in Herr, Htok.
    split; [reflexivity|]. split; [by repeat (first [apply list_elem_of_here|apply list_elem_of_further])|].
    split; [reflexivity|].
    apply list.Forall_cons in Herr as [_ Herr]. apply list.Forall_cons in Herr as [_ Herr].
    apply list.Forall_cons in Herr as [[_ ->] _]. exact Htok.
Defined.

Lemma channel_endpoints_never_stuck_witness :
  Acc (λ s' s, step s s') demo_over ∧ ∃ d, s_producer demo_over = Ret d.
Proof.
  split; [|eexists; vm_compute; reflexivity].
  apply (channel_endpoints_never_stuck demo_crc (λ _ _, true) 2 demo_config demo_shared demo_admit
    (demo_next 6) demo_over).
  - repeat split; vm_compute; congruence.
  - reflexivity.
  - apply turns_reach.
Defined.
End ChannelSafety.
