(* ===== verification/Trust.v ===== *)
(** * Trust propagation across agent chains

    Models [src/lib/policy/src/trust_chain.rs] and the untrusted-provenance
    classification of [src/lib/common/src/metrics.rs]. *)

From S2P Require Import Prelude RustString.

Module Trust.
Local Open Scope nat_scope.

Definition TRUST_LEVELS_MOST_TO_LEAST_TRUSTED : list string :=
  [ "trusted_internal_signed";
    "trusted_internal_unsigned";
    "semi_trusted_customer";
    "untrusted_external";
    "malicious_suspected";
    "unknown" ].

(** [iter().position(|&l| l == level)] *)
Fixpoint position (level : string) (l : list string) : option nat :=
  match l with
  | [] => None
  | x :: l' => if x == level then Some O else S <$> position level l'
  end.

Definition trust_rank (level : string) : nat :=
  default (length TRUST_LEVELS_MOST_TO_LEAST_TRUSTED)
          (position level TRUST_LEVELS_MOST_TO_LEAST_TRUSTED).

Definition tighten (a b : string) : string :=
  if (trust_rank a <? trust_rank b)%nat then b else a.

Definition propagate (root_trust_level : option string) (own_source_trust : string) : string :=
  match root_trust_level with
  | Some root => tighten root own_source_trust
  | None => own_source_trust
  end.

(** A chain of hops: every hop forwards its effective level to the next as
    [trace.root_trust_level], the first hop has no upstream level. *)
Definition effective_along (hops : list string) : option string :=
  foldl (λ root own, Some (propagate root own)) None hops.

Definition UNTRUSTED_PROVENANCE_LEVELS : list string :=
  [ "untrusted_external"; "malicious_suspected"; "unknown" ].

Definition is_untrusted_provenance (source_trust : string) : bool :=
  existsb (λ l, l == source_trust) UNTRUSTED_PROVENANCE_LEVELS.

(** ** Lemmas *)

Lemma position_Some level l i : position level l = Some i → l !! i = Some level.
Proof.
  revert i. induction l as [|x l IH]; intros i; simpl; [done|].
  destruct (x == level) eqn:Hx; str_eq.
  - by intros [= <-].
  - destruct (position level l) as [j|]; simpl; [|done].
    intros [= <-]. by apply IH.
Qed.

Lemma position_None level l : position level l = None ↔ level ∉ l.
Proof.
  induction l as [|x l IH]; simpl.
  - split; [intros _; apply not_elem_of_nil|done].
  - destruct (x == level) eqn:Hx; str_eq.
    + split; [done|]. intros H. exfalso. apply H. by left.
    + rewrite not_elem_of_cons, <- IH. destruct (position level l); simpl; naive_solver.
Qed.

Lemma trust_rank_bound level : trust_rank level ≤ 6.
Proof.
  unfold trust_rank. destruct (position level _) as [i|] eqn:Hp; [|done].
  apply position_Some, lookup_lt_Some in Hp. simpl in *. lia.
Qed.

(** A recognised level is ranked strictly below an unrecognised one. *)
Lemma trust_rank_recognised level :
  level ∈ TRUST_LEVELS_MOST_TO_LEAST_TRUSTED ↔ trust_rank level < 6.
Proof.
  unfold trust_rank. destruct (position level _) as [i|] eqn:Hp.
  - split.
    + intros _. apply position_Some, lookup_lt_Some in Hp. simpl in *. lia.
    + intros _. apply position_Some in Hp. by eapply list_elem_of_lookup_2.
  - apply position_None in Hp. split; [done|]. simpl. lia.
Qed.

Lemma trust_rank_recognised_ge level :
  level ∉ TRUST_LEVELS_MOST_TO_LEAST_TRUSTED → trust_rank level = 6.
Proof. rewrite trust_rank_recognised. pose proof (trust_rank_bound level). lia. Qed.

Lemma is_untrusted_elem level :
  is_untrusted_provenance level = true → level ∈ UNTRUSTED_PROVENANCE_LEVELS.
Proof.
  unfold is_untrusted_provenance. intros (l & Hin & Heq)%existsb_exists.
  str_eq. by apply list_elem_of_In.
Qed.

Lemma is_untrusted_recognised level :
  is_untrusted_provenance level = true → level ∈ TRUST_LEVELS_MOST_TO_LEAST_TRUSTED.
Proof. intros Hu%is_untrusted_elem. set_solver. Qed.

Lemma is_untrusted_rank level : is_untrusted_provenance level = true → trust_rank level < 6.
Proof. intros Hu. by apply trust_rank_recognised, is_untrusted_recognised. Qed.

Lemma tighten_rank a b : trust_rank (tighten a b) = Nat.max (trust_rank a) (trust_rank b).
Proof. unfold tighten. destruct (Nat.ltb_spec (trust_rank a) (trust_rank b)); lia. Qed.

Lemma tighten_cases a b : tighten a b = a ∨ tighten a b = b.
Proof. unfold tighten. destruct (_ <? _)%nat; auto. Qed.

(** The fold of a chain, with the level forwarded so far. *)
Lemma effective_along_snoc hops own :
  effective_along (hops ++ [own]) = Some (propagate (effective_along hops) own).
Proof. unfold effective_along. by rewrite foldl_app. Qed.

(** ** Properties *)

(** Along a chain of any length the effective level is one of the levels
    declared by the hops and is at least as restrictive as every one of them:
    no hop can loosen what an upstream hop declared. *)
Theorem chain_tightens x hops :
  ∃ e, effective_along (x :: hops) = Some e ∧ e ∈ x :: hops ∧
       ∀ h, h ∈ x :: hops → trust_rank h ≤ trust_rank e.
Proof.
  induction hops as [|own hops IH] using rev_ind.
  - exists x. split; [done|]. split; [by left|]. intros h Hh.
    apply list_elem_of_singleton in Hh as ->. done.
  - destruct IH as (e & He & Hin & Hmax).
    rewrite app_comm_cons, effective_along_snoc, He. simpl.
    exists (tighten e own). split; [done|]. split.
    + rewrite app_comm_cons, elem_of_app. destruct (tighten_cases e own) as [-> | ->]; [by left|].
      right. by apply list_elem_of_singleton.
    + intros h. rewrite app_comm_cons, elem_of_app, list_elem_of_singleton, tighten_rank.
      intros [Hh| ->]; [specialize (Hmax h Hh)|]; lia.
Qed.

(** The witness of a laundering: an unrecognised label outranks
    [malicious_suspected], so it replaces it in the effective level, and the
    effective level is then no longer one of the untrusted-provenance levels
    that mandate a deny. *)
Theorem unrecognised_label_launders_provenance label :
  label ∉ TRUST_LEVELS_MOST_TO_LEAST_TRUSTED →
  ∀ root, is_untrusted_provenance root = true →
    propagate (Some root) label = label ∧ is_untrusted_provenance label = false.
Proof.
  intros Hl root Hroot. split.
  - simpl. unfold tighten. apply trust_rank_recognised_ge in Hl.
    destruct (Nat.ltb_spec (trust_rank root) (trust_rank label)); [done|].
    apply is_untrusted_rank in Hroot. lia.
  - destruct (is_untrusted_provenance label) eqn:Hu; [|done].
    exfalso. apply Hl, is_untrusted_recognised, Hu.
Qed.

Lemma unrecognised_label_launders_provenance_witness :
  propagate (Some "malicious_suspected") "partner_feed" = "partner_feed" ∧
  is_untrusted_provenance "partner_feed" = false.
Proof.
  apply (unrecognised_label_launders_provenance "partner_feed").
  - apply position_None. reflexivity.
  - reflexivity.
Defined.

End Trust.
