(* ===== verification/Canon.v ===== *)
(** * [aegis-jcs-1] canonicalization

    Models [src/src/canon/src/lib.rs].  A [serde_json::Value] is the inductive
    [Value]; an object is its entries in iteration order with unique keys
    ([well_formed]), which is what [serde_json::Map] keeps (the workspace
    builds it with insertion order).  [serde_json]'s serializers are
    parameters. *)

From S2P Require Import Prelude RustString.
From Stdlib Require Import SpecFloat.
From stdpp Require Import sorting.

Module Canon.

(** [serde_json::Number]: an unsigned, a negative or a binary64 number. *)
Inductive Number : Type :=
| PosInt (n : Z)
| NegInt (n : Z)
| Float (f : spec_float).

Inductive Value : Type :=
| Null
| Bool (b : bool)
| Number_ (n : Number)
| Str (s : string)
| Array (items : list Value)
| Object (entries : list (string * Value)).

(** [entries.sort_by(|(left, _), (right, _)| left.cmp(right))]: a stable sort
    by key, keys compared bytewise (for UTF-8 that is code-point order). *)
Fixpoint insert_by_key {A} (e : string * A) (l : list (string * A)) : list (string * A) :=
  match l with
  | [] => [e]
  | e' :: l' => if String.leb e.1 e'.1 then e :: l else e' :: insert_by_key e l'
  end.
Definition sort_by_key {A} (l : list (string * A)) : list (string * A) :=
  foldr insert_by_key [] l.

(** [Map::insert]: the value of an existing key is replaced in place, a new
    key goes last. *)
Fixpoint map_insert {A} (k : string) (v : A) (m : list (string * A)) : list (string * A) :=
  match m with
  | [] => [(k, v)]
  | (k', v') :: m' => if k' == k then (k', v) :: m' else (k', v') :: map_insert k v m'
  end.

Definition insert_all {A} (entries : list (string * A)) : list (string * A) :=
  foldl (λ sorted e, map_insert e.1 e.2 sorted) [] entries.

(** The recursive call is made on the entries before they are sorted, which
    the sort does not see ([canonicalize_object] is the order of the code). *)
Fixpoint canonicalize_json (value : Value) : Value :=
  match value with
  | Array items => Array (map canonicalize_json items)
  | Object m =>
      Object (insert_all (sort_by_key (map (λ e, (e.1, canonicalize_json e.2)) m)))
  | primitive => primitive
  end.

Section Serde.
(** [serde_json::to_value] of the serialized type and [serde_json::to_string]. *)
Context {T : Type} (to_value : T → option Value) (to_string : Value → option string).

Definition canonical_value_string (value : T) : string :=
  match to_value value with
  | Some v => default "" (to_string (canonicalize_json v))
  | None => ""
  end.
End Serde.

(** ** Well-formed values and equality up to the order of object keys *)

Fixpoint well_formed (v : Value) : Prop :=
  match v with
  | Array items => foldr (λ v P, well_formed v ∧ P) True items
  | Object m => NoDup m.*1 ∧ foldr (λ e P, well_formed e.2 ∧ P) True m
  | _ => True
  end.

Definition is_primitive (v : Value) : bool :=
  match v with Array _ | Object _ => false | _ => true end.

(** Same value, object entries in any order at every level. *)
Inductive veq : Value → Value → Prop :=
| veq_primitive v : is_primitive v = true → veq v v
| veq_array l l' :
    length l = length l' →
    (∀ i v v', l !! i = Some v → l' !! i = Some v' → veq v v') →
    veq (Array l) (Array l')
| veq_object m m' :
    m.*1 ≡ₚ m'.*1 →
    (∀ k v v', (k, v) ∈ m → (k, v') ∈ m' → veq v v') →
    veq (Object m) (Object m').

Section Induction.
Context (P : Value → Prop).
Context (Hprim : ∀ v, is_primitive v = true → P v).
Context (Harr : ∀ l, Forall P l → P (Array l)).
Context (Hobj : ∀ m, Forall (λ e, P e.2) m → P (Object m)).

Fixpoint Value_nested_ind (v : Value) : P v :=
  match v with
  | Array l => Harr l ((fix go l := match l return Forall P l with
                                    | [] => Forall_nil_2 _
                                    | x :: l' => Forall_cons_2 _ _ _ (Value_nested_ind x) (go l')
                                    end) l)
  | Object m => Hobj m ((fix go m := match m return Forall (λ e, P e.2) m with
                                     | [] => Forall_nil_2 _
                                     | e :: m' => Forall_cons_2 _ _ _ (Value_nested_ind e.2) (go m')
                                     end) m)
  | v => Hprim v eq_refl
  end.
End Induction.

(** ** Lemmas on sorted entries *)

Definition key_le {A} (e e' : string * A) : Prop := String.le e.1 e'.1.

#[local] Instance key_le_trans {A} : Transitive (@key_le A).
Proof. intros x y z. unfold key_le. apply (transitivity (R := String.le)). Qed.

Lemma insert_by_key_perm {A} (e : string * A) l : insert_by_key e l ≡ₚ e :: l.
Proof.
  induction l as [|e' l IH]; simpl; [done|].
  destruct (String.leb e.1 e'.1); [done|]. rewrite IH. by constructor.
Qed.

Lemma sort_by_key_perm {A} (l : list (string * A)) : sort_by_key l ≡ₚ l.
Proof. induction l as [|e l IH]; simpl; [done|]. by rewrite insert_by_key_perm, IH. Qed.

Lemma insert_by_key_sorted {A} (e : string * A) l :
  StronglySorted key_le l → StronglySorted key_le (insert_by_key e l).
Proof.
  induction 1 as [|e' l Hs IH Hall]; simpl; [by repeat constructor|].
  destruct (String.leb e.1 e'.1) eqn:Hle.
  - constructor; [by constructor|]. constructor.
    + unfold key_le, String.le. by rewrite Hle.
    + eapply Forall_impl; [exact Hall|]. intros x Hx.
      transitivity e'; [|done]. unfold key_le, String.le. by rewrite Hle.
  - constructor; [done|]. rewrite insert_by_key_perm. constructor; [|done].
    unfold key_le, String.le. destruct (String.leb_total e.1 e'.1) as [H|H]; [congruence|].
    by rewrite H.
Qed.

Lemma sort_by_key_sorted {A} (l : list (string * A)) : StronglySorted key_le (sort_by_key l).
Proof. induction l; simpl; [constructor|]. by apply insert_by_key_sorted. Qed.

(** With unique keys, sorted entries are determined by the set of entries. *)
Lemma NoDup_keys_inj {A} (m : list (string * A)) k v v' :
  NoDup m.*1 → (k, v) ∈ m → (k, v') ∈ m → v = v'.
Proof.
  induction m as [|[x y] m IH]; simpl; [by intros _ ?%not_elem_of_nil|].
  intros [Hx Hm]%NoDup_cons. rewrite !elem_of_cons.
  intros [[=]|H1] [[=]|H2]; subst; [done| | |by apply IH].
  - destruct Hx. apply list_elem_of_fmap. by exists (x, v').
  - destruct Hx. apply list_elem_of_fmap. by exists (x, v).
Qed.

Lemma sort_by_key_unique {A} (l l' : list (string * A)) :
  NoDup l.*1 → l ≡ₚ l' → sort_by_key l = sort_by_key l'.
Proof.
  intros Hnd Hp. apply (StronglySorted_unique_strong key_le).
  - intros [k v] [k' v'] Hin Hin' H1 H2.
    assert (k = k') as <- by (apply (anti_symm String.le); done).
    rewrite sort_by_key_perm in Hin. rewrite sort_by_key_perm, <- Hp in Hin'.
    f_equal. by eapply NoDup_keys_inj.
  - apply sort_by_key_sorted.
  - apply sort_by_key_sorted.
  - by rewrite !sort_by_key_perm.
Qed.

Lemma insert_by_key_map {A B} (f : A → B) (e : string * A) l :
  insert_by_key (e.1, f e.2) (map (λ e, (e.1, f e.2)) l) =
  map (λ e, (e.1, f e.2)) (insert_by_key e l).
Proof.
  induction l as [|e' l IH]; simpl; [done|].
  destruct (String.leb e.1 e'.1); simpl; [done|]. by rewrite IH.
Qed.

Lemma sort_by_key_map {A B} (f : A → B) (l : list (string * A)) :
  sort_by_key (map (λ e, (e.1, f e.2)) l) = map (λ e, (e.1, f e.2)) (sort_by_key l).
Proof. induction l as [|e l IH]; simpl; [done|]. by rewrite IH, insert_by_key_map. Qed.

Lemma map_insert_fresh {A} k (v : A) m : k ∉ m.*1 → map_insert k v m = m ++ [(k, v)].
Proof.
  induction m as [|[k' v'] m IH]; simpl; [done|].
  intros [Hne Hin]%not_elem_of_cons. destruct (k' == k) eqn:Hk; str_eq; [done|].
  by rewrite IH.
Qed.

(** Inserting entries with unique keys one by one gives the entries back. *)
Lemma insert_all_NoDup {A} (l : list (string * A)) : NoDup l.*1 → insert_all l = l.
Proof.
  unfold insert_all. intros Hnd.
  assert (∀ acc, NoDup (acc ++ l).*1 →
    foldl (λ sorted e, map_insert e.1 e.2 sorted) acc l = acc ++ l) as Hgen; [|by apply (Hgen [])].
  clear Hnd. induction l as [|[k v] l IH]; intros acc Hnd; simpl; [by rewrite app_nil_r|].
  rewrite map_insert_fresh.
  - rewrite IH; [by rewrite <- app_assoc|]. by rewrite <- app_assoc.
  - rewrite fmap_app, NoDup_app in Hnd. destruct Hnd as (_ & Hd & _).
    intros Hin. apply (Hd _ Hin). simpl. by left.
Qed.

Definition canon_entries (m : list (string * Value)) : list (string * Value) :=
  map (λ e, (e.1, canonicalize_json e.2)) m.

Lemma canon_entries_keys m : (canon_entries m).*1 = m.*1.
Proof. unfold canon_entries. induction m as [|e m IH]; simpl; [done|]. by f_equal. Qed.

Lemma canonicalize_object_sorted m :
  NoDup m.*1 → canonicalize_json (Object m) = Object (sort_by_key (canon_entries m)).
Proof.
  intros Hnd. simpl. f_equal. apply insert_all_NoDup.
  rewrite (fmap_Permutation fst _ _ (sort_by_key_perm _)). fold (canon_entries m).
  by rewrite canon_entries_keys.
Qed.

(** The loop of the code: sort the entries, then insert each one with its value
    canonicalized. *)
Lemma canonicalize_object m :
  canonicalize_json (Object m) =
  Object (foldl (λ sorted e, map_insert e.1 (canonicalize_json e.2) sorted) [] (sort_by_key m)).
Proof.
  simpl. f_equal. rewrite sort_by_key_map. unfold insert_all.
  generalize (sort_by_key m). intros l. generalize (@nil (string * Value)).
  induction l as [|e l IH]; intros acc; simpl; [done|]. apply IH.
Qed.

Lemma well_formed_array l : well_formed (Array l) ↔ Forall well_formed l.
Proof. simpl. induction l; simpl; [by split|]. rewrite IHl, Forall_cons. done. Qed.

Lemma well_formed_object m :
  well_formed (Object m) ↔ NoDup m.*1 ∧ Forall (λ e, well_formed e.2) m.
Proof.
  simpl. apply and_iff_compat_l. induction m; simpl; [by split|]. rewrite IHm, Forall_cons. done.
Qed.

(** ** Equality up to key order is an equivalence on well-formed values *)

Lemma elem_of_keys {A} (k : string) (v : A) m : (k, v) ∈ m → k ∈ m.*1.
Proof. intros H. apply list_elem_of_fmap. by exists (k, v). Qed.

Lemma keys_elem_of {A} (k : string) (m : list (string * A)) : k ∈ m.*1 → ∃ v, (k, v) ∈ m.
Proof. intros ([k' v] & -> & H)%list_elem_of_fmap. eauto. Qed.

Lemma veq_refl v : well_formed v → veq v v.
Proof.
  induction v as [v Hp|l IH|m IH] using Value_nested_ind; intros Hwf.
  - by constructor.
  - apply well_formed_array in Hwf. constructor; [done|].
    intros i v v' Hv Hv'. assert (v = v') as <- by congruence.
    apply (Forall_lookup_1 _ _ _ _ IH Hv), (Forall_lookup_1 _ _ _ _ Hwf Hv).
  - apply well_formed_object in Hwf as [Hnd Hwf]. constructor; [done|].
    intros k v v' Hv Hv'. assert (v = v') as <- by by eapply NoDup_keys_inj.
    rewrite list.Forall_forall in IH, Hwf. apply (IH _ Hv), (Hwf _ Hv).
Qed.

Lemma veq_sym v v' : veq v v' → veq v' v.
Proof. induction 1; [by constructor| |]; constructor; eauto. by symmetry. Qed.

Lemma veq_trans v1 v2 v3 : veq v1 v2 → veq v2 v3 → veq v1 v3.
Proof.
  intros H. revert v3. induction H as [v Hp|l l' Hlen _ IH|m m' Hk _ IH]; intros v3 H3; [done| |].
  - inversion H3 as [? Hp|? l'' Hlen' H' |]; subst; [done|].
    constructor; [congruence|]. intros i v v'' Hv Hv''.
    destruct (lookup_lt_is_Some_2 l' i) as [v' Hv'].
    { rewrite <- Hlen. by eapply lookup_lt_Some. }
    eauto.
  - inversion H3 as [? Hp| |? m'' Hk' H']; subst; [done|].
    constructor; [by rewrite Hk|]. intros k v v'' Hv Hv''.
    assert (k ∈ m'.*1) as [v' Hv']%keys_elem_of by (rewrite <- Hk; by eapply elem_of_keys).
    eauto.
Qed.

Lemma canon_entries_elem k v m : (k, v) ∈ canon_entries m ↔ ∃ u, (k, u) ∈ m ∧ v = canonicalize_json u.
Proof.
  unfold canon_entries. change (map ?f m) with (f <$> m). rewrite list_elem_of_fmap. split.
  - intros ([k' u] & [= -> ->] & Hin). eauto.
  - intros (u & Hin & ->). exists (k, u). done.
Qed.

(** A value and its canonical form are the same up to key order. *)
Lemma veq_canonicalize v : well_formed v → veq v (canonicalize_json v).
Proof.
  induction v as [v Hp|l IH|m IH] using Value_nested_ind; intros Hwf.
  - by destruct v; try done; constructor.
  - apply well_formed_array in Hwf. simpl. constructor; [by rewrite length_map|].
    intros i v v' Hv Hv'. rewrite list_lookup_fmap, Hv in Hv'. simplify_eq/=.
    apply (Forall_lookup_1 _ _ _ _ IH Hv), (Forall_lookup_1 _ _ _ _ Hwf Hv).
  - apply well_formed_object in Hwf as [Hnd Hwf].
    rewrite canonicalize_object_sorted by done. constructor.
    + by rewrite (fmap_Permutation fst _ _ (sort_by_key_perm _)), canon_entries_keys.
    + intros k v v' Hv. rewrite sort_by_key_perm, canon_entries_elem. intros (u & Hu & ->).
      assert (v = u) as <- by by eapply NoDup_keys_inj.
      rewrite list.Forall_forall in IH, Hwf. apply (IH _ Hv), (Hwf _ Hv).
Qed.

Lemma veq_same_canon v v' :
  veq v v' → well_formed v → well_formed v' → canonicalize_json v = canonicalize_json v'.
Proof.
  induction 1 as [v Hp|l l' Hlen _ IH|m m' Hk _ IH]; intros Hwf Hwf'; [done| |].
  - apply well_formed_array in Hwf, Hwf'. simpl. f_equal.
    apply list_eq_same_length with (length l); rewrite ?length_map; [done|done|].
    intros i x y _. rewrite !list_lookup_fmap.
    intros (v & Hv & ->)%fmap_Some (v' & Hv' & ->)%fmap_Some.
    by apply (IH i); [..|apply (Forall_lookup_1 _ _ _ _ Hwf Hv)|apply (Forall_lookup_1 _ _ _ _ Hwf' Hv')].
  - apply well_formed_object in Hwf as [Hnd Hwf], Hwf' as [Hnd' Hwf'].
    rewrite !canonicalize_object_sorted by done. f_equal.
    apply sort_by_key_unique; [by rewrite canon_entries_keys|].
    rewrite list.Forall_forall in Hwf, Hwf'.
    apply NoDup_Permutation.
    + apply (NoDup_fmap_1 fst). by rewrite canon_entries_keys.
    + apply (NoDup_fmap_1 fst). by rewrite canon_entries_keys.
    + intros [k v]. rewrite !canon_entries_elem. split; intros (u & Hu & ->).
      * assert (k ∈ m'.*1) as [u' Hu']%keys_elem_of by (rewrite <- Hk; by eapply elem_of_keys).
        exists u'. split; [done|]. apply (IH k u u'); [done|done|apply (Hwf _ Hu)|apply (Hwf' _ Hu')].
      * assert (k ∈ m.*1) as [u' Hu']%keys_elem_of by (rewrite Hk; by eapply elem_of_keys).
        exists u'. split; [done|]. symmetry.
        apply (IH k u' u); [done|done|apply (Hwf _ Hu')|apply (Hwf' _ Hu)].
Qed.

Lemma well_formed_canonicalize v : well_formed v → well_formed (canonicalize_json v).
Proof.
  induction v as [v Hp|l IH|m IH] using Value_nested_ind; intros Hwf.
  - by destruct v.
  - apply well_formed_array in Hwf. simpl canonicalize_json. apply well_formed_array.
    apply Forall_fmap. eapply Forall_impl; [apply Forall_and; split; [exact IH|exact Hwf]|].
    simpl. naive_solver.
  - apply well_formed_object in Hwf as [Hnd Hwf].
    rewrite canonicalize_object_sorted by done. apply well_formed_object. split.
    + by rewrite (fmap_Permutation fst _ _ (sort_by_key_perm _)), canon_entries_keys.
    + rewrite sort_by_key_perm. apply Forall_fmap.
      eapply Forall_impl; [apply Forall_and; split; [exact IH|exact Hwf]|]. simpl. naive_solver.
Qed.

(** ** Properties *)

(** C39: canonicalization is a complete invariant: two well-formed values have
    the same canonical form exactly when they are equal up to the order of
    object keys, at every level.  So the hashed string neither depends on the
    order in which a client writes its keys nor identifies two different
    actions. *)
Theorem canonical_form_complete v v' :
  well_formed v → well_formed v' →
  (canonicalize_json v = canonicalize_json v' ↔ veq v v').
Proof.
  intros Hv Hv'. split.
  - intros Heq. eapply veq_trans; [by apply veq_canonicalize|].
    rewrite Heq. by apply veq_sym, veq_canonicalize.
  - intros. by apply veq_same_canon.
Qed.

(** Two ways to write one action. *)
Definition action_v1 : Value :=
  Object [("tool", Str "github"); ("action", Str "merge");
          ("parameters", Object [("b", Number_ (PosInt 1)); ("a", Array [Null; Bool true])])].
Definition action_v2 : Value :=
  Object [("action", Str "merge");
          ("parameters", Object [("a", Array [Null; Bool true]); ("b", Number_ (PosInt 1))]);
          ("tool", Str "github")].

Ltac solve_well_formed :=
  repeat match goal with
  | |- _ ∧ _ => split
  | |- NoDup _ => apply (bool_decide_unpack _); reflexivity
  | |- _ => progress simpl
  | |- True => exact I
  end.

Lemma canonical_form_complete_witness :
  veq action_v1 action_v2 ∧ canonicalize_json action_v1 = canonicalize_json action_v2.
Proof.
  assert (canonicalize_json action_v1 = canonicalize_json action_v2) as Heq by reflexivity.
  split; [|exact Heq].
  apply (canonical_form_complete action_v1 action_v2); [solve_well_formed..|exact Heq].
Defined.

(** A canonical form is canonical already, and is well formed. *)
Theorem canonicalize_idempotent v :
  well_formed v →
  canonicalize_json (canonicalize_json v) = canonicalize_json v ∧
  well_formed (canonicalize_json v).
Proof.
  intros Hv. split; [|by apply well_formed_canonicalize].
  apply veq_same_canon; [|by apply well_formed_canonicalize|done].
  by apply veq_sym, veq_canonicalize.
Qed.

Lemma canonicalize_idempotent_witness :
  canonicalize_json (canonicalize_json action_v1) = canonicalize_json action_v1 ∧
  well_formed (canonicalize_json action_v1).
Proof. apply (canonicalize_idempotent action_v1). solve_well_formed. Defined.
End Canon.
