(* ===== verification/Models.v ===== *)
(** * Data of the authorization pipeline

    Models the request, response and decision types of
    [src/lib/api/src/models.rs], the agent snapshot, context, outcome, audit
    write and error types of [src/lib/decision/src] and
    [src/lib/common/src/errors.rs].

    Identifiers: a [Uuid] is its 128-bit number; a [DateTime<Utc>] is its
    nanoseconds since the epoch; a [SocketAddr] and an [Instant] are only ever
    passed along. *)

From S2P Require Import Prelude RustString Canon.

Definition Uuid := Z.
Definition DateTime := Z.
Definition SocketAddr := string.
Definition Instant := Z.

(** ** Requests *)

Record AuthorizeAgentContext := { actx_id : string; actx_environment : string }.
Record AuthorizeUserContext := { uctx_id : string; uctx_role : string }.
Record AuthorizeToolCall := {
  tc_tool : string;
  tc_action : string;
  tc_resource : option string;
  tc_mutates_state : bool;
  tc_parameters : Canon.Value }.
Record AuthorizeDynamicContext := {
  dctx_source_trust : string;
  dctx_contains_sensitive_data : bool }.
Record AuthorizeTraceContext := {
  trc_run_id : string;
  trc_trace_id : string;
  trc_parent_run_id : option string;
  trc_root_trust_level : option string }.
Record ApprovalCallback := { cb_url : string; cb_secret : option string }.

Record AuthorizeRequest := {
  rq_request_id : option string;
  rq_agent : AuthorizeAgentContext;
  rq_user : option AuthorizeUserContext;
  rq_tool_call : AuthorizeToolCall;
  rq_context : AuthorizeDynamicContext;
  rq_trace : option AuthorizeTraceContext;
  rq_callback : option ApprovalCallback;
  rq_nonce : option string;
  rq_timestamp : option DateTime;
  rq_dry_run : option bool }.

(** ** Responses *)

Record ApprovalResponseInfo := {
  apr_approval_id : Uuid;
  apr_status : string;
  apr_approver_group : option string;
  apr_expires_at : DateTime;
  apr_action_hash : string }.

Record ReceiptIdentity := {
  rcp_receipt_id : string;
  rcp_receipt_hash : string;
  rcp_prev_receipt_hash : string;
  rcp_canon_version : string }.

Record AuthorizeResponse := {
  rs_decision_id : Uuid;
  rs_decision : string;
  rs_risk_score : Z;
  rs_risk_level : string;
  rs_composite_risk_score : Z;
  rs_reason : string;
  rs_matched_policies : list string;
  rs_approval : option ApprovalResponseInfo;
  rs_redacted_fields : list string;
  rs_root_trust_level : string;
  rs_dry_run : bool;
  rs_receipt : option ReceiptIdentity }.

(** A persisted decision row. *)
Record DecisionRecord := {
  dr_id : string;
  dr_tenant_id : string;
  dr_agent_id : string;
  dr_user_id : option string;
  dr_run_id : option string;
  dr_trace_id : option string;
  dr_skill : string;
  dr_action : string;
  dr_resource : option string;
  dr_input_json : string;
  dr_decision : string;
  dr_risk_score : option Z;
  dr_reason : option string;
  dr_matched_policy_ids : option string;
  dr_request_id : option string;
  dr_latency_ms : option Z;
  dr_composite_risk_score : option Z;
  dr_root_trust_level : option string;
  dr_parent_run_id : option string;
  dr_created_at : DateTime }.

(** ** [src/lib/common/src/errors.rs] *)

(** [sqlx::Error]: the code tells a pool timeout, and the code of a database
    error, from every other error. *)
Inductive SqlxError :=
| PoolTimedOut (display : string)
| DatabaseError (code : option string) (display : string)
| OtherSqlx (display : string).

Inductive AegisError :=
| Database (e : SqlxError)
| Serialization (display : string)
| Internal (m : string)
| Unauthorized (m : string)
| NotFound (m : string)
| BadRequest (m : string)
| Conflict (m : string).

Definition is_pool_exhausted (e : AegisError) : bool :=
  match e with Database (PoolTimedOut _) => true | _ => false end.

Definition sqlx_display (e : SqlxError) : string :=
  match e with PoolTimedOut d => d | DatabaseError _ d => d | OtherSqlx d => d end.

Definition display_AegisError (e : AegisError) : string :=
  match e with
  | Database e => "Database error: " +:+ sqlx_display e
  | Serialization d => "Serialization error: " +:+ d
  | Internal m => "Internal error: " +:+ m
  | Unauthorized m => "Unauthorized: " +:+ m
  | NotFound m => "Not Found: " +:+ m
  | BadRequest m => "Bad Request: " +:+ m
  | Conflict m => "Conflict: " +:+ m
  end.

(** ** [src/lib/decision/src/agent.rs] and [context.rs] *)

Record AuthorizeAgent := {
  ag_id : string;
  ag_tenant_id : string;
  ag_agent_key : string;
  ag_status : string;
  ag_risk_tier : string;
  ag_force_approval : bool;
  ag_signing_key : option string;
  ag_allowed_environments : option string }.

Inductive Transport := Rest | Grpc.

Inductive AuthCredential :=
| BearerToken (token : string)
| MtlsCn (cn : string).

Record AuthorizeContext := {
  ctx_tenant_id : string;
  ctx_client_addr : SocketAddr;
  ctx_transport : Transport;
  ctx_credential : AuthCredential;
  ctx_request_signature : option string }.

Definition AuthorizeContext_new (tenant_id : string) (client_addr : SocketAddr)
    (transport : Transport) (credential : AuthCredential) : AuthorizeContext :=
  {| ctx_tenant_id := tenant_id; ctx_client_addr := client_addr; ctx_transport := transport;
     ctx_credential := credential; ctx_request_signature := None |}.

(** [option.filter(|s| !s.is_empty())] *)
Definition filter_nonempty (o : option string) : option string :=
  match o with Some s => if is_empty s then None else Some s | None => None end.

Definition with_request_signature (c : AuthorizeContext) (sig : option string) : AuthorizeContext :=
  {| ctx_tenant_id := ctx_tenant_id c; ctx_client_addr := ctx_client_addr c;
     ctx_transport := ctx_transport c; ctx_credential := ctx_credential c;
     ctx_request_signature := filter_nonempty sig |}.

Definition AuthorizeAgent_new (id tenant_id risk_tier : string) : AuthorizeAgent :=
  {| ag_id := id; ag_tenant_id := tenant_id; ag_agent_key := id; ag_status := "active";
     ag_risk_tier := risk_tier; ag_force_approval := false; ag_signing_key := None;
     ag_allowed_environments := None |}.

(** ** [src/lib/decision/src/outcome.rs] *)

Inductive DecisionFailureClass :=
| ClsBadRequest | ClsUnauthorized | ClsForbidden | ClsNotFound | ClsConflict | ClsAlreadyExists
| ClsInvalid | ClsTimeout | ClsTooManyRequests | ClsNotImplemented | ClsUnsupportedMediaType
| ClsInternal | ClsServiceUnavailable | ClsUnknown.

Definition http_status_of (c : DecisionFailureClass) : Z :=
  match c with
  | ClsBadRequest => 400
  | ClsUnauthorized => 401
  | ClsForbidden => 403
  | ClsNotFound => 404
  | ClsTimeout => 408
  | ClsConflict | ClsAlreadyExists => 409
  | ClsUnsupportedMediaType => 415
  | ClsInvalid => 422
  | ClsTooManyRequests => 429
  | ClsNotImplemented => 501
  | ClsServiceUnavailable => 503
  | ClsInternal | ClsUnknown => 500
  end.

Record DecisionFailure := {
  fl_class : DecisionFailureClass;
  fl_message : string;
  fl_details : option Canon.Value }.

Definition failure_of (c : DecisionFailureClass) (msg : string) : DecisionFailure :=
  {| fl_class := c; fl_message := msg; fl_details := None |}.
Definition bad_request := failure_of ClsBadRequest.
Definition unauthorized := failure_of ClsUnauthorized.
Definition forbidden := failure_of ClsForbidden.
Definition too_many_requests := failure_of ClsTooManyRequests.
Definition internal := failure_of ClsInternal.
Definition with_details (f : DecisionFailure) (details : Canon.Value) : DecisionFailure :=
  {| fl_class := fl_class f; fl_message := fl_message f; fl_details := Some details |}.

Inductive DecisionBody :=
| BodyDecision (resp : AuthorizeResponse)
| BodyFailure (f : DecisionFailure)
| BodyPartialDeny (reason : string).

Record DecisionOutcome := { oc_http_status : Z; oc_body : DecisionBody }.

Definition outcome_decision (resp : AuthorizeResponse) : DecisionOutcome :=
  {| oc_http_status := 200; oc_body := BodyDecision resp |}.
Definition outcome_failure (f : DecisionFailure) : DecisionOutcome :=
  {| oc_http_status := http_status_of (fl_class f); oc_body := BodyFailure f |}.
Definition partial_deny (reason : string) : DecisionOutcome :=
  {| oc_http_status := 403; oc_body := BodyPartialDeny reason |}.
Definition is_success (o : DecisionOutcome) : bool :=
  (oc_http_status o =? 200)%Z || (oc_http_status o =? 201)%Z.

(** ** [src/lib/decision/src/error_map.rs] *)

Definition aegis_err_to_outcome (e : AegisError) : DecisionOutcome :=
  if is_pool_exhausted e then
    outcome_failure (failure_of ClsServiceUnavailable "Database connection pool exhausted")
  else
    outcome_failure
      match e with
      | Unauthorized m => unauthorized m
      | NotFound m => failure_of ClsNotFound m
      | BadRequest m => bad_request m
      | Conflict m => failure_of ClsConflict m
      | Serialization err => bad_request ("Serialization error: " +:+ err)
      | Database _ => internal "Database error"
      | Internal m => internal m
      end.

(** ** [src/lib/decision/src/write.rs] *)

Record DecisionAuditWrite := {
  wr_tenant_id : string;
  wr_agent_id : string;
  wr_request : AuthorizeRequest;
  wr_decision_id : Uuid;
  wr_decision : string;
  wr_risk_score : Z;
  wr_reason : string;
  wr_matched_policies : list string;
  wr_audit_event_type : string;
  wr_started_at : Instant;
  wr_dry_run : bool;
  wr_action_hash : string;
  wr_root_trust_level : string }.

(** Whether an outcome carries a decision. *)
Definition decision_of (o : DecisionOutcome) : option AuthorizeResponse :=
  match oc_body o with BodyDecision r => Some r | _ => None end.

(** A refusal: no decision in it and no success status, so an adapter that
    dispatches on either cannot take it for a decision. *)
Definition no_decision (o : DecisionOutcome) : Prop :=
  is_success o = false ∧ decision_of o = None.

Create HintDb outcome.

Lemma no_decision_failure f : no_decision (outcome_failure f).
Proof. by destruct f as [[] ? ?]. Qed.

Lemma no_decision_err e : no_decision (aegis_err_to_outcome e).
Proof. unfold aegis_err_to_outcome. destruct (is_pool_exhausted e); apply no_decision_failure. Qed.

Lemma no_decision_partial r : no_decision (partial_deny r).
Proof. done. Qed.

#[export] Hint Resolve no_decision_failure no_decision_err no_decision_partial : outcome.

(** An outcome of the stages before Cedar: a refusal, or a persisted [deny]. *)
Definition denies (o : DecisionOutcome) : Prop :=
  no_decision o ∨ ∃ r, o = outcome_decision r ∧ rs_decision r = "deny".

Lemma no_decision_denies o : no_decision o → denies o.
Proof. by left. Qed.

Lemma denies_deny r : rs_decision r = "deny" → denies (outcome_decision r).
Proof. intros H. right. by exists r. Qed.

Lemma denies_deny_only o r : denies o → decision_of o = Some r → rs_decision r = "deny".
Proof. intros [[_ Hn]|(r' & -> & Hd)] Ho; [congruence|]. simpl in Ho. by injection Ho as <-. Qed.

#[export] Hint Resolve no_decision_denies denies_deny : outcome.
