(* ===== verification/Records.v ===== *)
(** * Rows and events

    The database records of [src/lib/api/src/models.rs] and the security event
    of [src/lib/soc/src/events.rs] that the gateway reads, writes and emits. *)

From S2P Require Import Prelude RustString Canon Models.

Record AgentRecord := {
  ar_id : string;
  ar_tenant_id : string;
  ar_agent_key : string;
  ar_agent_token : string;
  ar_name : string;
  ar_owner_team : option string;
  ar_owner_email : option string;
  ar_environment : string;
  ar_framework : option string;
  ar_model_provider : option string;
  ar_model_name : option string;
  ar_purpose : option string;
  ar_risk_tier : string;
  ar_status : string;
  ar_last_seen_at : option DateTime;
  ar_frozen_reason : option string;
  ar_quarantined_at : option DateTime;
  ar_force_approval : bool;
  ar_signing_key : option string;
  ar_allowed_environments : option string;
  ar_mtls_cn : option string;
  ar_created_at : DateTime;
  ar_updated_at : DateTime }.

Record SkillActionRecord := {
  sar_id : string;
  sar_skill_id : string;
  sar_action_key : string;
  sar_description : option string;
  sar_risk : string;
  sar_mutates_state : bool;
  sar_data_access : option string;
  sar_approval_required : bool;
  sar_default_decision : string;
  sar_created_at : DateTime }.

Record McpServerRecord := {
  msr_id : string;
  msr_tenant_id : string;
  msr_server_key : string;
  msr_name : string;
  msr_owner_team : option string;
  msr_transport : string;
  msr_source : option string;
  msr_trust_level : string;
  msr_endpoint : string;
  msr_version : option string;
  msr_status : string;
  msr_manifest_hash : string;
  msr_last_discovery_at : option DateTime;
  msr_inspection_enabled : bool;
  msr_manifest_signing_public_key : option string;
  msr_created_at : DateTime }.

Record McpToolRecord := {
  mtr_id : string;
  mtr_tenant_id : string;
  mtr_server_id : string;
  mtr_tool_key : string;
  mtr_name : string;
  mtr_description : option string;
  mtr_input_schema : option string;
  mtr_risk : string;
  mtr_mutates_state : bool;
  mtr_approval_required : bool;
  mtr_status : string;
  mtr_created_at : DateTime;
  mtr_updated_at : DateTime }.

Record ApprovalRecord := {
  apv_id : string;
  apv_tenant_id : string;
  apv_decision_id : string;
  apv_status : string;
  apv_approver_group : option string;
  apv_approver_user_id : option string;
  apv_reason : option string;
  apv_original_skill_call : string;
  apv_original_call_hash : string;
  apv_edited_skill_call : option string;
  apv_effective_call_hash : option string;
  apv_expires_at : option DateTime;
  apv_decided_at : option DateTime;
  apv_callback_url : option string;
  apv_callback_secret_hash : option string;
  apv_created_at : DateTime }.

Definition effective_action_hash (a : ApprovalRecord) : string :=
  default (apv_original_call_hash a) (apv_effective_call_hash a).

Record AuditEventRecord := {
  aud_id : string;
  aud_tenant_id : string;
  aud_event_type : string;
  aud_agent_id : option string;
  aud_user_id : option string;
  aud_run_id : option string;
  aud_trace_id : option string;
  aud_span_id : option string;
  aud_skill : option string;
  aud_action : option string;
  aud_resource : option string;
  aud_event_json : string;
  aud_input_hash : option string;
  aud_output_hash : option string;
  aud_decision_id : option string;
  aud_approval_id : option string;
  aud_created_at : DateTime }.

Record ActionReceiptRecord := {
  rct_id : string;
  rct_tenant_id : string;
  rct_decision_id : option string;
  rct_ts : string;
  rct_agent_id : option string;
  rct_user_id : option string;
  rct_run_id : option string;
  rct_trace_id : option string;
  rct_tool : option string;
  rct_action : option string;
  rct_resource : option string;
  rct_source_trust : string;
  rct_decision : string;
  rct_approver : option string;
  rct_action_hash : option string;
  rct_prev_receipt_hash : string;
  rct_receipt_hash : string;
  rct_canon_version : string;
  rct_signature : option string;
  rct_signer_public_key : option string;
  rct_signer_key_id : option string;
  rct_created_at : DateTime }.

Record PolicyRecord := {
  pol_id : string;
  pol_tenant_id : string;
  pol_policy_key : string;
  pol_name : string;
  pol_language : string;
  pol_body : string;
  pol_version : Z;
  pol_status : string;
  pol_created_by : option string;
  pol_created_at : DateTime }.

(** ** [src/lib/soc/src/events.rs] *)

Record EventEvidence := {
  evd_decision_id : option string;
  evd_approval_id : option string;
  evd_action_hash : option string;
  evd_receipt_id : option string;
  evd_receipt_hash : option string;
  evd_prev_receipt_hash : option string;
  evd_canon_version : option string;
  evd_source_trust : option string;
  evd_root_trust_level : option string }.

(** What the scanners of [prompt_injection.rs] and [rag_poisoning.rs] leave on
    an event: counts and scores, no text. *)
Record PromptInjectionScan := {
  pis_channel : option string;
  pis_score : Z;
  pis_instruction_override_hits : Z;
  pis_context_escape_hits : Z;
  pis_role_hijack_hits : Z;
  pis_classifier : string }.

Inductive PoisoningEntryType := RagDocument | MemoryWrite.

Record RagPoisoningScan := {
  rps_entry_type : PoisoningEntryType;
  rps_source_trust : string;
  rps_document_id : option string;
  rps_memory_key : option string;
  rps_collection : option string;
  rps_injection : PromptInjectionScan;
  rps_safety_override_hits : Z;
  rps_score : Z;
  rps_classifier : string }.

Record AseEvent := {
  ase_event_id : string;
  ase_occurred_at : string;
  ase_tenant_id : string;
  ase_kind : string;
  ase_agent_id : string;
  ase_decision : string;
  ase_tool : string;
  ase_action : string;
  ase_resource : option string;
  ase_risk_score : Z;
  ase_reason : string;
  ase_run_id : option string;
  ase_trace_id : option string;
  ase_matched_policies : list string;
  ase_redacted_fields : list string;
  ase_schema_version : Z;
  ase_evidence : option EventEvidence;
  ase_prompt_injection : option PromptInjectionScan;
  ase_rag_poisoning : option RagPoisoningScan }.
