(* ===== verification/External.v ===== *)
(** * Third-party functions the modelled code calls

    The crates below are not part of the repository, so their functions are
    the fields of a class: every model that calls one takes the class as an
    argument, and what a theorem relies on is a hypothesis of that theorem.
    [str::to_lowercase] and the Unicode normal form need the Unicode tables
    and are kept abstract too. *)

From S2P Require Import Prelude RustString Canon Models.

Class External := {
  (** [serde_json::from_slice::<AuthorizeRequest>] and
      [serde_json::from_str::<Vec<String>>]; [None] is a parse error *)
  json_parse_request : string → option AuthorizeRequest;
  json_parse_strings : string → option (list string);
  (** [percent_encoding::percent_decode_str(v).decode_utf8()] *)
  percent_decode_utf8 : string → option string;
  (** [unicode_normalization]: [v.nfc().collect()] *)
  nfc : string → string;
  (** [str::to_lowercase] *)
  to_lowercase : string → string;
  (** [chrono]: [TimeDelta::num_seconds] of a difference in nanoseconds *)
  num_seconds : Z → Z;
  (** [hmac]: the HMAC-SHA256 tag of a body under a key, [None] when the key
      is refused; [hex] *)
  hmac_sha256 : string → string → option string;
  hex_encode : string → string;
  hex_decode : string → option string;
  (** [Uuid::parse_str] *)
  uuid_parse : string → option Uuid
}.

(** Documented behaviour, used as hypotheses where a theorem needs it. *)

(** [TimeDelta::num_seconds] is the number of whole seconds, truncated. *)
Definition num_seconds_truncates {X : External} : Prop :=
  ∀ d, num_seconds d = (d ÷ 1000000000)%Z.

(** [hex::decode] inverts [hex::encode]. *)
Definition hex_roundtrip {X : External} : Prop :=
  ∀ b, hex_decode (hex_encode b) = Some b.

(** A concrete instance, for the witnesses: ASCII text without percent
    escapes, no parser, a toy tag. *)
Definition sample_external : External := {|
  json_parse_request _ := None;
  json_parse_strings s := Some (split_on "," s);
  percent_decode_utf8 s := Some s;
  nfc s := s;
  to_lowercase s := to_ascii_lowercase s;
  num_seconds d := (d ÷ 1000000000)%Z;
  hmac_sha256 k b := if is_empty k then None else Some (k +:+ ":" +:+ b);
  hex_encode s := s;
  hex_decode s := Some s;
  uuid_parse _ := None |}.

(** * Request signatures

    Models [request_signature_header] and [verify_request_signature] of
    [src/lib/common/src/hash.rs] over the HMAC and hex crates. *)

Module Hash.
Section Hash.
Context {X : External}.

Definition request_signature_header (signing_key body : string) : option string :=
  mac ← hmac_sha256 signing_key body;
  Some ("sha256=" +:+ hex_encode mac).

(** [Mac::verify_slice] accepts exactly the whole tag. *)
Definition verify_request_signature (signing_key body sig_header : string) : bool :=
  match strip_prefix "sha256=" sig_header with
  | None => false
  | Some hex_digest =>
      match hex_decode hex_digest with
      | None => false
      | Some expected =>
          match hmac_sha256 signing_key body with
          | None => false
          | Some mac => mac == expected
          end
      end
  end.

Lemma verify_request_signature_true key body header :
  verify_request_signature key body header = true ↔
  ∃ h tag, header = "sha256=" +:+ h ∧ hex_decode h = Some tag ∧ hmac_sha256 key body = Some tag.
Proof.
  unfold verify_request_signature. split.
  - destruct (strip_prefix "sha256=" header) as [h|] eqn:Hp; [|done].
    destruct (hex_decode h) as [tag|] eqn:Hh; [|done].
    destruct (hmac_sha256 key body) as [mac|] eqn:Hm; [|done].
    intros H. str_eq. apply strip_prefix_Some in Hp. eauto.
  - intros (h & tag & -> & Hh & Hm). rewrite strip_prefix_app, Hh, Hm. apply eqb_refl.
Qed.

(** The header the signer builds verifies for its body, and verifies for
    another body or key only when the two tags are the same: a body the
    signer did not sign is accepted only on a tag collision. *)
Theorem request_signature_sound key body header key' body' :
  hex_roundtrip → request_signature_header key body = Some header →
  (verify_request_signature key' body' header = true ↔
   hmac_sha256 key' body' = hmac_sha256 key body).
Proof.
  intros Hrt Hsig. unfold request_signature_header in Hsig.
  destruct (hmac_sha256 key body) as [mac|] eqn:Hm; [|done]. simplify_eq/=.
  rewrite verify_request_signature_true. split.
  - intros (h & tag & Heq & Hh & Hm').
    apply (inj (String.app "sha256=")) in Heq. subst h. rewrite Hrt in Hh. congruence.
  - intros Hm'. exists (hex_encode mac), mac. rewrite Hrt. done.
Qed.
End Hash.

Lemma request_signature_sound_witness :
  let X := sample_external in
  verify_request_signature "k" "body" "sha256=k:body" = true ∧
  verify_request_signature "k" "tampered" "sha256=k:body" ≠ true.
Proof.
  simpl. split.
  - apply (request_signature_sound (X := sample_external) "k" "body" "sha256=k:body" "k" "body");
      done.
  - intros H.
    apply (request_signature_sound (X := sample_external) "k" "body" "sha256=k:body" "k" "tampered")
      in H; done.
Defined.
End Hash.
