(* ===== verification/Validation.v ===== *)
(** * Request validation and decision overrides

    Models [src/lib/policy/src/validation.rs]. *)

From S2P Require Import Prelude RustString Models External.

Module Validation.
Section Validation.
Context {X : External}.

Definition normalize_tool_identifier (value : string) : string :=
  let decoded := default value (percent_decode_utf8 value) in
  to_lowercase (trim (nfc decoded)).

Definition validate_environment (allowed_environments_json : option string)
    (declared_env : string) : Result unit string :=
  match allowed_environments_json with
  | Some env_json =>
      match json_parse_strings env_json with
      | Some allowed =>
          if negb (bool_decide (allowed = [])) && negb (bool_decide (declared_env ∈ allowed)) then
            Err ("agent not permitted in environment '" +:+ declared_env +:+ "'")
          else Ok tt
      | None => Ok tt
      end
  | None => Ok tt
  end.

Definition validate_replay_timestamp (now : DateTime) (request_timestamp : option DateTime) :
    Result unit string :=
  match request_timestamp with
  | Some ts =>
      let age_secs := Z.abs (num_seconds (now - ts)) in
      if (300 <? age_secs)%Z then
        Err "Request timestamp outside the acceptable window"
      else Ok tt
  | None => Ok tt
  end.
End Validation.

(** The three mutable locals of [apply_decision_overrides]. *)
Record decision_state := {
  ds_decision : string;
  ds_reason : string;
  ds_matched : list string }.

Definition override (s : decision_state) (decision reason policy : string) : decision_state :=
  {| ds_decision := decision; ds_reason := reason; ds_matched := ds_matched s ++ [policy] |}.

Definition registered_action_override (s : decision_state) (action_default_decision : string)
    (action_approval_required : bool) : decision_state :=
  if ds_decision s == "allow" then
    if action_default_decision == "deny" then
      override s "deny" "Registered action default decision is deny." "registered_action_default_deny"
    else if (action_default_decision == "require_approval") || action_approval_required then
      override s "require_approval" "Registered action requires approval."
        "registered_action_approval_required"
    else s
  else s.

Definition critical_risk_override (s : decision_state) (risk_level : string) : decision_state :=
  if (ds_decision s == "allow") && (risk_level == "critical") then
    override s "require_approval" "Critical-risk action requires approval by default."
      "critical_risk_requires_approval"
  else s.

Definition force_approval_override (s : decision_state) (force_approval : bool) : decision_state :=
  if (ds_decision s == "allow") && force_approval then
    override s "require_approval"
      "Agent requires approval for all actions following a trust escalation incident."
      "soc_response_force_approval"
  else s.

Definition apply_decision_overrides (cedar_decision reason : string)
    (matched_policies : list string) (risk_level : string) (force_approval : bool)
    (action_default_decision : string) (action_approval_required : bool) :
    string * string * list string :=
  let s := {| ds_decision := cedar_decision; ds_reason := reason; ds_matched := matched_policies |} in
  let s := registered_action_override s action_default_decision action_approval_required in
  let s := critical_risk_override s risk_level in
  let s := force_approval_override s force_approval in
  (ds_decision s, ds_reason s, ds_matched s).

(** ** Properties *)

(** The sequence of overrides is a priority table that only tightens.  A
    Cedar decision other than [allow] passes unchanged, reason and matched
    policies included; an [allow] becomes [deny] on a registered default of
    [deny], else [require_approval] on the first of a registered approval
    requirement, a critical risk level and a forced approval that applies, and
    stays [allow] only when none does. *)
Theorem overrides_priority_table cedar reason matched risk force dflt appr :
  apply_decision_overrides cedar reason matched risk force dflt appr =
  if cedar != "allow" then (cedar, reason, matched)
  else if dflt == "deny" then
    ("deny", "Registered action default decision is deny.",
      matched ++ ["registered_action_default_deny"])
  else if (dflt == "require_approval") || appr then
    ("require_approval", "Registered action requires approval.",
      matched ++ ["registered_action_approval_required"])
  else if risk == "critical" then
    ("require_approval", "Critical-risk action requires approval by default.",
      matched ++ ["critical_risk_requires_approval"])
  else if force then
    ("require_approval",
      "Agent requires approval for all actions following a trust escalation incident.",
      matched ++ ["soc_response_force_approval"])
  else ("allow", reason, matched).
Proof.
  unfold apply_decision_overrides, registered_action_override, critical_risk_override,
    force_approval_override.
  destruct (cedar == "allow") eqn:Hc; str_eq.
  - cbn [ds_decision negb]. rewrite eqb_refl.
    destruct (dflt == "deny"); [done|].
    destruct (dflt == "require_approval"), appr, (risk == "critical"), force; reflexivity.
  - apply eqb_spec_false in Hc. cbn [ds_decision negb]. rewrite Hc. simpl. rewrite Hc. simpl.
    by rewrite Hc.
Qed.

(** Only an [allow] from Cedar can come out as [allow]. *)
Lemma overrides_allow_inv cedar reason matched risk force dflt appr reason' matched' :
  apply_decision_overrides cedar reason matched risk force dflt appr = ("allow", reason', matched') →
  cedar = "allow" ∧ dflt ≠ "deny" ∧ dflt ≠ "require_approval" ∧ appr = false ∧
  risk ≠ "critical" ∧ force = false.
Proof.
  unfold apply_decision_overrides, registered_action_override, critical_risk_override,
    force_approval_override. cbn [ds_decision].
  destruct (cedar == "allow") eqn:Hc; cbn [ds_decision];
    [|rewrite Hc; simpl; rewrite Hc; simpl; intros [= -> _ _]; done].
  destruct (dflt == "deny") eqn:Hd; [done|].
  destruct (dflt == "require_approval") eqn:Hr; [done|].
  destruct appr; [done|]. simpl. rewrite Hc.
  destruct (risk == "critical") eqn:Hk; [done|]. simpl. rewrite Hc.
  destruct force; [done|]. str_eq. done.
Qed.

(** A timestamp is accepted exactly when it is less than 301 seconds away
    from the gateway's clock, in either direction: the age is truncated to whole
    seconds before it is compared with the 300-second window. *)
Theorem replay_timestamp_window {X : External} now ts :
  num_seconds_truncates →
  validate_replay_timestamp now (Some ts) = Ok tt ↔ (Z.abs (now - ts) < 301 * 1000000000)%Z.
Proof.
  intros Htr. unfold validate_replay_timestamp. rewrite Htr.
  generalize (now - ts)%Z. intros d. rewrite <- Z.quot_abs by lia.
  rewrite Z.quot_div_nonneg by lia. change (Z.abs 1000000000) with 1000000000%Z.
  destruct (Z.ltb_spec 300 (Z.abs d `div` 1000000000)) as [Hgt|Hle].
  - split; [done|]. intros Hlt. exfalso.
    assert (Z.abs d `div` 1000000000 < 301)%Z by (apply Z.div_lt_upper_bound; lia). lia.
  - split; [intros _|done]. pose proof (Z.mul_succ_div_gt (Z.abs d) 1000000000). lia.
Qed.

(** A request 300.9 s old is inside the window, one 301 s old is not. *)
Lemma replay_timestamp_window_witness :
  let X := sample_external in
  validate_replay_timestamp 301000000000%Z (Some 100000000%Z) = Ok tt ∧
  validate_replay_timestamp 301000000000%Z (Some 0%Z) ≠ Ok tt.
Proof.
  simpl. split.
  - apply (replay_timestamp_window (X := sample_external) 301000000000%Z 100000000%Z); [done|lia].
  - intros H. apply (replay_timestamp_window (X := sample_external) 301000000000%Z 0%Z) in H; [lia|done].
Defined.

(** An agent is refused in an environment exactly when its allow-list
    parses, is not empty and does not name the environment; in particular an
    allow-list that does not parse restricts nothing. *)
Theorem environment_refused_iff {X : External} allowed env :
  is_ok (validate_environment allowed env) = false ↔
  ∃ json l, allowed = Some json ∧ json_parse_strings json = Some l ∧ l ≠ [] ∧ env ∉ l.
Proof.
  unfold validate_environment. destruct allowed as [json|]; [|split; [done|naive_solver]].
  destruct (json_parse_strings json) as [l|] eqn:Hp; [|split; [done|naive_solver]].
  destruct (bool_decide_reflect (l = [])), (bool_decide_reflect (env ∈ l)); simpl;
    split; naive_solver.
Qed.
End Validation.
