(* ===== verification/Risk.v ===== *)
(** * Risk scores

    Models [src/lib/policy/src/risk.rs], the [RiskWeights] of
    [src/lib/api/src/models.rs] and the pure helpers of
    [src/lib/decision/src/risk.rs].  [i32] arithmetic wraps, as in a release
    build. *)

From S2P Require Import Prelude RustString.

Module Risk.
Local Open Scope Z_scope.

(** ** Weights *)

Record RiskWeights := {
  environment_weight_mutating : Z;
  penalty_trusted_internal_signed : Z;
  penalty_trusted_internal_unsigned : Z;
  penalty_semi_trusted_customer : Z;
  penalty_untrusted_external : Z;
  penalty_malicious_suspected : Z;
  penalty_unknown : Z;
  mcp_trust_penalty : Z;
  anomaly_weight_pct : Z;
  approval_credit : Z }.

Definition DEFAULT : RiskWeights := {|
  environment_weight_mutating := 15;
  penalty_trusted_internal_signed := 0;
  penalty_trusted_internal_unsigned := 5;
  penalty_semi_trusted_customer := 15;
  penalty_untrusted_external := 30;
  penalty_malicious_suspected := 50;
  penalty_unknown := 20;
  mcp_trust_penalty := 10;
  anomaly_weight_pct := 100;
  approval_credit := 10 |}.

(** [str::parse::<i32>]: an optional sign, then at least one digit and only
    digits, the value in range. *)
Fixpoint parse_digits (acc : Z) (s : string) : option Z :=
  match s with
  | EmptyString => Some acc
  | String a s' =>
      let n := Z.of_nat (nat_of_ascii a) - 48 in
      if (0 <=? n) && (n <=? 9) then parse_digits (acc * 10 + n) s' else None
  end.

Definition in_i32b (z : Z) : bool := (-2147483648 <=? z) && (z <? 2147483648).

Definition parse_i32 (s : string) : option Z :=
  let ranged (o : option Z) := z ← o; if in_i32b z then Some z else None in
  match s with
  | EmptyString => None
  | String "-" EmptyString | String "+" EmptyString => None
  | String "-" s' => ranged (Z.opp <$> parse_digits 0 s')
  | String "+" s' => ranged (parse_digits 0 s')
  | _ => ranged (parse_digits 0 s)
  end.

Section Env.
(** [std::env::var(key).ok()] *)
Context (env : string → option string).

Definition env_i32 (key : string) (dflt : Z) : Z := default dflt (v ← env key; parse_i32 v).

Definition from_env : RiskWeights := {|
  environment_weight_mutating :=
    env_i32 "AEGIS_RISK_ENVIRONMENT_WEIGHT_MUTATING" (environment_weight_mutating DEFAULT);
  penalty_trusted_internal_signed :=
    env_i32 "AEGIS_RISK_CONTEXT_TRUST_PENALTY_TRUSTED_INTERNAL_SIGNED"
      (penalty_trusted_internal_signed DEFAULT);
  penalty_trusted_internal_unsigned :=
    env_i32 "AEGIS_RISK_CONTEXT_TRUST_PENALTY_TRUSTED_INTERNAL_UNSIGNED"
      (penalty_trusted_internal_unsigned DEFAULT);
  penalty_semi_trusted_customer :=
    env_i32 "AEGIS_RISK_CONTEXT_TRUST_PENALTY_SEMI_TRUSTED_CUSTOMER"
      (penalty_semi_trusted_customer DEFAULT);
  penalty_untrusted_external :=
    env_i32 "AEGIS_RISK_CONTEXT_TRUST_PENALTY_UNTRUSTED_EXTERNAL"
      (penalty_untrusted_external DEFAULT);
  penalty_malicious_suspected :=
    env_i32 "AEGIS_RISK_CONTEXT_TRUST_PENALTY_MALICIOUS_SUSPECTED"
      (penalty_malicious_suspected DEFAULT);
  penalty_unknown :=
    env_i32 "AEGIS_RISK_CONTEXT_TRUST_PENALTY_UNKNOWN" (penalty_unknown DEFAULT);
  mcp_trust_penalty :=
    env_i32 "AEGIS_RISK_MCP_TRUST_PENALTY" (mcp_trust_penalty DEFAULT);
  anomaly_weight_pct :=
    env_i32 "AEGIS_RISK_ANOMALY_WEIGHT_PCT" (anomaly_weight_pct DEFAULT);
  approval_credit :=
    env_i32 "AEGIS_RISK_APPROVAL_CREDIT" (approval_credit DEFAULT) |}.
End Env.

Definition context_trust_penalty (w : RiskWeights) (source_trust : string) : Z :=
  if source_trust == "trusted_internal_signed" then penalty_trusted_internal_signed w
  else if source_trust == "trusted_internal_unsigned" then penalty_trusted_internal_unsigned w
  else if source_trust == "semi_trusted_customer" then penalty_semi_trusted_customer w
  else if source_trust == "untrusted_external" then penalty_untrusted_external w
  else if source_trust == "malicious_suspected" then penalty_malicious_suspected w
  else penalty_unknown w.

(** ** The composite score *)

Record RiskInputs := {
  base_action_risk : Z;
  mutates_state : bool;
  source_trust : string;
  is_mcp_call : bool;
  anomaly_score : Z;
  had_prior_approval : bool }.

Definition add32 (a b : Z) : Z := i32_wrap (a + b).
Definition sub32 (a b : Z) : Z := i32_wrap (a - b).
Definition mul32 (a b : Z) : Z := i32_wrap (a * b).

Definition compute_composite_risk_score (i : RiskInputs) (w : RiskWeights) : Z :=
  let score := base_action_risk i in
  let score := if mutates_state i then add32 score (environment_weight_mutating w) else score in
  let score := add32 score (context_trust_penalty w (source_trust i)) in
  let score := if is_mcp_call i then add32 score (mcp_trust_penalty w) else score in
  let score := add32 score (mul32 (anomaly_score i) (anomaly_weight_pct w) ÷ 100) in
  let score := if had_prior_approval i then sub32 score (approval_credit w) else score in
  clamp 0 100 score.

(** ** Levels ([src/lib/decision/src/risk.rs]) *)

Definition risk_score_for_level (risk_level : string) : Z :=
  if risk_level == "low" then 10
  else if risk_level == "medium" then 40
  else if risk_level == "high" then 75
  else if risk_level == "critical" then 95
  else 10.

Definition risk_level_for_score (risk_score : Z) : string :=
  if 95 <=? risk_score then "critical"
  else if 75 <=? risk_score then "high"
  else if 40 <=? risk_score then "medium"
  else "low".

Definition is_high_risk_for_audit (risk_level : string) (mutates_state : bool) : bool :=
  mutates_state || (risk_level != "low").

Definition decision_requires_durable_receipt (decision risk_level : string)
    (mutates_state : bool) : bool :=
  if mutates_state then true
  else if (risk_level == "high") || (risk_level == "critical") then true
  else decision != "allow".

(** ** Lemmas *)

(** The documented formula, over the integers. *)
Definition composite_formula (i : RiskInputs) (w : RiskWeights) : Z :=
  base_action_risk i
  + (if mutates_state i then environment_weight_mutating w else 0)
  + context_trust_penalty w (source_trust i)
  + (if is_mcp_call i then mcp_trust_penalty w else 0)
  + (anomaly_score i * anomaly_weight_pct w) ÷ 100
  - (if had_prior_approval i then approval_credit w else 0).

(** Weights whose sums stay far from the [i32] bounds. *)
Definition small (z : Z) : Prop := -1000000 <= z <= 1000000.
Definition small_weights (w : RiskWeights) : Prop :=
  small (environment_weight_mutating w) ∧ small (penalty_trusted_internal_signed w) ∧
  small (penalty_trusted_internal_unsigned w) ∧ small (penalty_semi_trusted_customer w) ∧
  small (penalty_untrusted_external w) ∧ small (penalty_malicious_suspected w) ∧
  small (penalty_unknown w) ∧ small (mcp_trust_penalty w) ∧ small (anomaly_weight_pct w) ∧
  small (approval_credit w).

Lemma small_penalty w t : small_weights w → small (context_trust_penalty w t).
Proof.
  unfold small_weights, context_trust_penalty. intros H. destruct_and!.
  repeat case_match; assumption.
Qed.

(** Removes the wrap-arounds from the inside out, each in range by [lia]. *)
Ltac unwrap_i32 :=
  repeat match goal with
  | |- context [i32_wrap ?z] =>
      lazymatch z with
      | context [i32_wrap _] => fail
      | _ => rewrite (i32_wrap_id z) by (unfold in_i32; lia)
      end
  end.

Lemma quot100_bound x : Z.abs x <= 200000000 → -2000000 <= x ÷ 100 <= 2000000.
Proof.
  intros H. assert (Z.abs (x ÷ 100) <= 2000000) as Ha; [|lia].
  rewrite <- Z.quot_abs by lia. rewrite Z.quot_div_nonneg by lia.
  apply Z.div_le_upper_bound; lia.
Qed.

(** ** Properties *)

(** The composite score is in [0, 100] for every input and every weights,
    overflowing ones included. *)
Theorem composite_score_bounded i w : 0 <= compute_composite_risk_score i w <= 100.
Proof. apply clamp_bounds. lia. Qed.

(** For a base score and an anomaly score in [0, 100] and weights of at most
    a million in absolute value no step overflows, and the score is the
    documented formula clamped to [0, 100]. *)
Theorem composite_score_formula i w :
  0 <= base_action_risk i <= 100 → 0 <= anomaly_score i <= 100 → small_weights w →
  compute_composite_risk_score i w = clamp 0 100 (composite_formula i w).
Proof.
  intros Hb Ha Hw. pose proof (small_penalty w (source_trust i) Hw) as Hp.
  unfold small_weights in Hw. destruct_and!. unfold small in *.
  assert (mul32 (anomaly_score i) (anomaly_weight_pct w) =
          anomaly_score i * anomaly_weight_pct w) as Hm.
  { apply i32_wrap_id. unfold in_i32. nia. }
  pose proof (quot100_bound (anomaly_score i * anomaly_weight_pct w)) as Hq.
  assert (Z.abs (anomaly_score i * anomaly_weight_pct w) <= 200000000) as Habs by nia.
  specialize (Hq Habs). clear Habs.
  unfold compute_composite_risk_score, composite_formula, sub32, add32. rewrite Hm.
  destruct (mutates_state i), (is_mcp_call i), (had_prior_approval i); f_equal;
    unwrap_i32; lia.
Qed.

Lemma composite_score_formula_witness :
  compute_composite_risk_score
    {| base_action_risk := 40; mutates_state := true; source_trust := "untrusted_external";
       is_mcp_call := true; anomaly_score := 50; had_prior_approval := true |} DEFAULT = 100 ∧
  compute_composite_risk_score
    {| base_action_risk := 10; mutates_state := false; source_trust := "made_up";
       is_mcp_call := false; anomaly_score := 0; had_prior_approval := true |} DEFAULT = 20.
Proof.
  split; rewrite (composite_score_formula _ DEFAULT);
    first [reflexivity | simpl; lia | unfold small_weights, small; simpl; lia].
Defined.

(** Persisting only the score of a level loses exactly the levels that are
    not one of the four: a known level comes back, any other comes back as
    [low]. *)
Theorem risk_level_roundtrip level :
  risk_level_for_score (risk_score_for_level level) =
  if bool_decide (level ∈ ["low"; "medium"; "high"; "critical"]) then level else "low".
Proof.
  unfold risk_score_for_level.
  destruct (bool_decide_reflect (level ∈ ["low"; "medium"; "high"; "critical"])) as [Hin|Hout].
  - repeat (apply elem_of_cons in Hin as [->|Hin]; [reflexivity|]).
    by apply elem_of_nil in Hin.
  - repeat (rewrite not_elem_of_cons in Hout; destruct Hout as [?%eqb_spec_false Hout]).
    repeat match goal with H : (_ == _) = false |- _ => rewrite H; clear H end. done.
Qed.
End Risk.
