(* ===== verification/Caches.v ===== *)
(** * The gateway's caches

    Models [CanonicalHashCache] of [src/src/src/routes/authorize_canon.rs],
    [SkillActionCache] (in-memory mode), [McpServerCache], [McpToolCache],
    [ReplayNonceCache] and [RiskWeightsCache] of [src/src/src/routes/mod.rs]
    and the copies of [SkillActionCache] and [ReplayNonceCache] in
    [src/lib/common/src/budget.rs].  All but the last two kinds are the code of
    {!Lru} at a value type. *)

From S2P Require Import Prelude RustString Lru Canon Models Records Risk.

(** [\x1f], the unit separator the composite keys are joined with. *)
Definition UNIT_SEP : string := String (ascii_of_nat 31) EmptyString.

Definition join2 (a b : string) : string := a +:+ UNIT_SEP +:+ b.
Definition join3 (a b c : string) : string := a +:+ UNIT_SEP +:+ b +:+ UNIT_SEP +:+ c.

(** [(risk, mutates_state, approval_required, default_decision)] *)
Definition SkillMeta : Type := string * bool * bool * string.

Module SkillActionCache.
Definition cache_key (tenant_id skill_key action_key : string) : string :=
  join3 tenant_id skill_key action_key.
Definition touch := Lru.touch.
Definition get := Lru.get (V := SkillMeta).
Definition insert := Lru.insert (V := SkillMeta).
Definition invalidate := Lru.invalidate (V := SkillMeta).
End SkillActionCache.

(** The copy of [src/lib/common/src/budget.rs]. *)
Module BudgetSkillCache.
Definition cache_key (tenant_id skill_key action_key : string) : string :=
  join3 tenant_id skill_key action_key.
Definition get := Lru.get (V := SkillMeta).
Definition insert := Lru.insert (V := SkillMeta).
Definition invalidate := Lru.invalidate (V := SkillMeta).
End BudgetSkillCache.

Module McpServerCache.
Definition cache_key (tenant_id server_key : string) : string := join2 tenant_id server_key.
Definition get := Lru.get (V := McpServerRecord).
Definition insert := Lru.insert (V := McpServerRecord).
Definition invalidate := Lru.invalidate (V := McpServerRecord).
End McpServerCache.

Module McpToolCache.
Definition cache_key (tenant_id server_key tool_key : string) : string :=
  join3 tenant_id server_key tool_key.
Definition get := Lru.get (V := McpToolRecord).
Definition insert := Lru.insert (V := McpToolRecord).
Definition invalidate := Lru.invalidate (V := McpToolRecord).
Definition invalidate_server (c : lru McpToolRecord) (tenant_id server_key : string) :
    lru McpToolRecord :=
  Lru.invalidate_prefix c (tenant_id +:+ UNIT_SEP +:+ server_key +:+ UNIT_SEP).
End McpToolCache.

(** ** Replay nonces *)

Module ReplayNonceCache.
Definition cache_key (tenant_id agent_id nonce : string) : string := join3 tenant_id agent_id nonce.

Definition check_and_insert (capacity : nat) (c : lru DateTime) (key : string) (now : DateTime) :
    bool * lru DateTime :=
  if (capacity =? 0)%nat then (false, c)
  else if bool_decide (is_Some (lru_map c !! key)) then
    (true, Build_lru (lru_map c) (Lru.remove_first key (lru_order c) ++ [key]))
  else
    (false, Lru.evict capacity (<[key := now]> (lru_map c)) (lru_order c ++ [key])).
End ReplayNonceCache.

(** ** Canonical action hashes *)

Module CanonicalHashCache.
Definition cache_key (tenant_id request_id : string) : string := join2 tenant_id request_id.

Definition get (capacity : nat) (c : lru string) (tenant_id request_id : string) :
    option string * lru string :=
  Lru.get capacity c (cache_key tenant_id request_id).

Definition insert (capacity : nat) (c : lru string) (tenant_id request_id hash : string) : lru string :=
  Lru.insert capacity c (cache_key tenant_id request_id) hash.

(** The derived [Serialize] of [AuthorizeToolCall]: the fields in order. *)
Definition tool_call_value (tc : AuthorizeToolCall) : Canon.Value :=
  Canon.Object [
    ("tool", Canon.Str (tc_tool tc));
    ("action", Canon.Str (tc_action tc));
    ("resource", match tc_resource tc with Some r => Canon.Str r | None => Canon.Null end);
    ("mutates_state", Canon.Bool (tc_mutates_state tc));
    ("parameters", tc_parameters tc) ].

Section Hashing.
(** [serde_json::to_string] and the SHA-256 crate under [format!]. *)
Context (to_string : Canon.Value → option string) (sha256_hex : string → string).

Definition canonical_action_string (tc : AuthorizeToolCall) : string :=
  Canon.canonical_value_string (λ tc, Some (tool_call_value tc)) to_string tc.

Definition hash_tool_call (tc : AuthorizeToolCall) : string :=
  sha256_hex (canonical_action_string tc).

Definition hash_tool_call_cached (capacity : nat) (c : lru string) (tenant_id : string)
    (request_id : option string) (tc : AuthorizeToolCall) : string * lru string :=
  match filter_nonempty request_id with
  | Some req_id =>
      let '(cached, c) := get capacity c tenant_id req_id in
      match cached with
      | Some cached_hash => (cached_hash, c)
      | None =>
          let hash := hash_tool_call tc in
          (hash, insert capacity c tenant_id req_id hash)
      end
  | None => (hash_tool_call tc, c)
  end.
End Hashing.
End CanonicalHashCache.

(** ** Risk weights: a map with a time to live *)

Module RiskWeightsCache.
Definition t := gmap string (Risk.RiskWeights * Instant).

(** [now.saturating_duration_since(cached_at) < ttl]; instants in nanoseconds. *)
Definition get (ttl : Z) (c : t) (tenant_id : string) (now : Instant) : option Risk.RiskWeights :=
  match c !! tenant_id with
  | Some (weights, cached_at) => if (Z.max 0 (now - cached_at) <? ttl)%Z then Some weights else None
  | None => None
  end.
Definition insert (c : t) (tenant_id : string) (weights : Risk.RiskWeights) (now : Instant) : t :=
  <[tenant_id := (weights, now)]> c.
Definition invalidate (c : t) (tenant_id : string) : t := delete tenant_id c.
End RiskWeightsCache.

(** ** Properties of the caches *)

Section Nonces.
Context (capacity : nat).

(** The cache after a sequence of checks, from empty. *)
Definition nonces_after (checks : list (string * DateTime)) : lru DateTime :=
  foldl (λ c e, (ReplayNonceCache.check_and_insert capacity c e.1 e.2).2) Lru.empty checks.

(** The distinct keys of a sequence, by last use. *)
Definition recent (keys : list string) : list string :=
  foldl (λ acc k, filter (λ x, x ≠ k) acc ++ [k]) [] keys.

Lemma recent_snoc keys k : recent (keys ++ [k]) = filter (λ x, x ≠ k) (recent keys) ++ [k].
Proof. unfold recent. by rewrite foldl_app. Qed.

Lemma recent_NoDup keys : NoDup (recent keys).
Proof.
  induction keys as [|k keys IH] using rev_ind; [constructor|]. rewrite recent_snoc.
  apply list.NoDup_app. split; [by apply list.NoDup_filter|]. split; [|apply list.NoDup_singleton].
  intros x [Hx _]%list_elem_of_filter. by rewrite list_elem_of_singleton.
Qed.

Lemma check_and_insert_step c key now R :
  (0 < capacity)%nat → Lru.queued c → NoDup R → lru_order c = Lru.lastn capacity R →
  let c' := (ReplayNonceCache.check_and_insert capacity c key now).2 in
  Lru.queued c' ∧ lru_order c' = Lru.lastn capacity (filter (λ x, x ≠ key) R ++ [key]).
Proof.
  intros Hc Hq Hnd Hord. unfold ReplayNonceCache.check_and_insert.
  destruct (capacity =? 0)%nat eqn:E; [apply Nat.eqb_eq in E; lia|].
  destruct c as [m order]. cbn [lru_map lru_order] in *. pose proof Hq as [Hndo Hk].
  cbn [lru_map lru_order] in Hk, Hndo.
  destruct (bool_decide (is_Some (m !! key))) eqn:Hb; cbn [snd].
  - apply bool_decide_eq_true in Hb. pose proof Hb as [v Hv].
    pose proof (Lru.queued_touch m order key v Hq) as Hq'. rewrite insert_id in Hq' by done.
    split; [exact Hq'|]. cbn [lru_order].
    rewrite Lru.remove_first_filter by done. rewrite Hord. apply Lru.lastn_touch_hit; [done|].
    rewrite <- Hord. by apply Hk.
  - apply bool_decide_eq_false in Hb. rewrite <- Hk in Hb.
    assert (order ++ [key] = Lru.touch order key) as Ht.
    { unfold Lru.touch. rewrite Lru.remove_first_filter by done.
      rewrite Lru.filter_keep; [done|]. by intros x Hx ->. }
    rewrite Ht. destruct (Lru.evict_spec capacity _ _ (Lru.queued_touch m order key now Hq))
      as ([Hq' _] & Hord' & _).
    split; [done|]. rewrite Hord', <- Ht, Hord. apply Lru.lastn_touch_miss. by rewrite <- Hord.
Qed.

Lemma nonces_after_spec checks :
  (0 < capacity)%nat →
  Lru.queued (nonces_after checks) ∧
  lru_order (nonces_after checks) = Lru.lastn capacity (recent checks.*1).
Proof.
  intros Hc. induction checks as [|[k now] checks IH] using rev_ind.
  - split; [apply (Lru.empty_wf capacity)|done].
  - destruct IH as [Hq Hord]. unfold nonces_after. rewrite foldl_app. cbn [foldl fst snd].
    rewrite fmap_app. cbn [fmap list_fmap fst]. rewrite recent_snoc.
    apply check_and_insert_step; [done|exact Hq|apply recent_NoDup|exact Hord].
Qed.
End Nonces.

(** What the nonce cache remembers.  After any sequence of checks, a nonce
    is reported as a replay exactly when it is among the [capacity] most
    recently used distinct nonces; a captured request is therefore refused for
    as long as fewer than [capacity] other nonces have been used since. *)
Theorem nonce_replay_detected_iff capacity checks key now :
  (0 < capacity)%nat →
  (ReplayNonceCache.check_and_insert capacity (nonces_after capacity checks) key now).1 = true ↔
  key ∈ Lru.lastn capacity (recent checks.*1).
Proof.
  intros Hc. destruct (nonces_after_spec capacity checks Hc) as [[_ Hk] Hord].
  rewrite <- Hord, Hk. unfold ReplayNonceCache.check_and_insert.
  destruct (capacity =? 0)%nat eqn:E; [apply Nat.eqb_eq in E; lia|].
  destruct (bool_decide _) eqn:Hb; cbn [fst].
  - apply bool_decide_eq_true in Hb. done.
  - apply bool_decide_eq_false in Hb. done.
Qed.

Lemma nonce_replay_detected_iff_witness :
  "a" ∈ Lru.lastn 2 (recent ["a"; "b"; "a"; "c"]) ∧
  (ReplayNonceCache.check_and_insert 2 (nonces_after 2 [("a", 1%Z); ("b", 2%Z); ("a", 3%Z); ("c", 4%Z)])
    "a" 5%Z).1 = true.
Proof.
  assert ("a" ∈ Lru.lastn 2 (recent ["a"; "b"; "a"; "c"])) as Hin by (vm_compute; by left).
  split; [exact Hin|].
  apply (proj2 (nonce_replay_detected_iff 2 [("a", 1%Z); ("b", 2%Z); ("a", 3%Z); ("c", 4%Z)] "a" 5%Z
    ltac:(lia))). exact Hin.
Defined.

(** The cache is a recency list.  For a cache within its capacity, [get]
    answers exactly the stored value and moves the key to the most recent end,
    [insert] puts the pair there and drops the least recent beyond the
    capacity, [invalidate] removes exactly that key; each leaves the map and
    the queue in step and within capacity. *)
Theorem skill_cache_refines_recency_list capacity c key value :
  Lru.wf capacity c → (0 < capacity)%nat →
  let L := Lru.entries c in
  (∀ v, (SkillActionCache.get capacity c key).1 = Some v ↔ (key, v) ∈ L) ∧
  (∀ v, (key, v) ∈ L →
    Lru.entries (SkillActionCache.get capacity c key).2 = Lru.without key L ++ [(key, v)]) ∧
  Lru.entries (SkillActionCache.insert capacity c key value) =
    Lru.lastn capacity (Lru.without key L ++ [(key, value)]) ∧
  Lru.entries (SkillActionCache.invalidate c key) = Lru.without key L ∧
  Lru.wf capacity (SkillActionCache.get capacity c key).2 ∧
  Lru.wf capacity (SkillActionCache.insert capacity c key value) ∧
  Lru.wf capacity (SkillActionCache.invalidate c key).
Proof.
  intros Hwf Hc L. pose proof Hwf as [Hq _].
  destruct (Lru.get_refines capacity c key Hwf Hc) as (Hw1 & Hget & Hent).
  destruct (Lru.insert_refines capacity c key value Hwf Hc) as [Hw2 Hins].
  destruct (Lru.invalidate_refines capacity c key Hwf) as [Hw3 Hinv].
  unfold SkillActionCache.get, SkillActionCache.insert, SkillActionCache.invalidate.
  split; [intros v; rewrite Hget; symmetry; by apply Lru.elem_of_entries|].
  split; [|done]. intros v Hv. apply Lru.elem_of_entries in Hv; [|done]. by rewrite Hent, Hv.
Qed.

Lemma skill_cache_refines_recency_list_witness :
  (SkillActionCache.get 1 (SkillActionCache.insert 1 Lru.empty "k" ("low", false, false, "policy")) "k").1
  = Some ("low", false, false, "policy").
Proof.
  assert (Lru.wf 1 (SkillActionCache.insert 1 Lru.empty "k" ("low", false, false, "policy"))) as Hwf
    by (apply (skill_cache_refines_recency_list 1 Lru.empty "k" ("low", false, false, "policy")
          (Lru.empty_wf 1) ltac:(lia))).
  apply (skill_cache_refines_recency_list 1 _ "k" ("low", false, false, "policy") Hwf ltac:(lia)).
  vm_compute. by left.
Defined.

(** ** Keys *)

Lemma join2_inj a a' b b' :
  has_byte (ascii_of_nat 31) a = false → has_byte (ascii_of_nat 31) a' = false →
  join2 a b = join2 a' b' → a = a' ∧ b = b'.
Proof. apply sep_inj. Qed.

Lemma join3_inj a a' b b' c c' :
  has_byte (ascii_of_nat 31) a = false → has_byte (ascii_of_nat 31) a' = false →
  has_byte (ascii_of_nat 31) b = false → has_byte (ascii_of_nat 31) b' = false →
  join3 a b c = join3 a' b' c' → a = a' ∧ b = b' ∧ c = c'.
Proof. intros ? ? ? ? [-> [-> ->]%sep_inj]%sep_inj; done. Qed.

(** ** The canonical-hash cache *)

Section HashCache.
Context (to_string : Canon.Value → option string) (sha256_hex : string → string).
Local Abbreviation hash := (CanonicalHashCache.hash_tool_call to_string sha256_hex).
Local Abbreviation cached := (CanonicalHashCache.hash_tool_call_cached to_string sha256_hex).

(** One request of the action-hash computation. *)
Definition hash_query : Type := string * option string * AuthorizeToolCall.

Definition hashes_after (capacity : nat) (qs : list hash_query) : lru string :=
  foldl (λ c q, (cached capacity c q.1.1 q.1.2 q.2).2) Lru.empty qs.

(** Every cached hash was computed from the tool call of an earlier query
    with that key. *)
Definition explained (qs : list hash_query) (c : lru string) : Prop :=
  ∀ k h, lru_map c !! k = Some h →
    ∃ tenant rid tc, (tenant, Some rid, tc) ∈ qs ∧ rid ≠ "" ∧
      k = CanonicalHashCache.cache_key tenant rid ∧ h = hash tc.

Lemma explained_mono qs qs' c : qs ⊆ qs' → explained qs c → explained qs' c.
Proof. intros Hs He k h Hk. destruct (He k h Hk) as (t & r & tc & ? & ?). eauto 10. Qed.

Lemma filter_nonempty_Some o s : filter_nonempty o = Some s → o = Some s ∧ s ≠ "".
Proof. destruct o as [s'|]; [|done]. simpl. destruct s'; [done|]. by intros [= <-]. Qed.

Lemma cached_explained capacity qs c tenant rid tc :
  explained qs c → explained (qs ++ [(tenant, rid, tc)]) (cached capacity c tenant rid tc).2.
Proof.
  intros He. assert (explained (qs ++ [(tenant, rid, tc)]) c) as He'
    by (eapply explained_mono; [|done]; set_solver).
  unfold CanonicalHashCache.hash_tool_call_cached.
  destruct (filter_nonempty rid) as [r|] eqn:Hr; [|done].
  apply filter_nonempty_Some in Hr as [-> Hne].
  unfold CanonicalHashCache.get, CanonicalHashCache.insert, Lru.get, Lru.insert.
  destruct (capacity =? 0)%nat; [done|].
  destruct (lru_map c !! CanonicalHashCache.cache_key tenant r) as [h|] eqn:Hk; [done|].
  cbn [snd]. intros k h' Hk'.
  eapply lookup_weaken in Hk'; [|apply Lru.evict_subseteq].
  destruct (decide (k = CanonicalHashCache.cache_key tenant r)) as [->|Hnk].
  - rewrite lookup_insert_eq in Hk'. injection Hk' as <-. exists tenant, r, tc. set_solver.
  - rewrite lookup_insert_ne in Hk' by done. by apply He'.
Qed.

Lemma hashes_after_explained capacity qs : explained qs (hashes_after capacity qs).
Proof.
  induction qs as [|[[tenant rid] tc] qs IH] using rev_ind.
  - intros k h. simpl. by rewrite lookup_empty.
  - unfold hashes_after. rewrite foldl_app. by apply cached_explained.
Qed.

Lemma cached_value capacity c tenant rid tc :
  (cached capacity c tenant rid tc).1 = hash tc ∨
  ∃ r, rid = Some r ∧ r ≠ "" ∧
    lru_map c !! CanonicalHashCache.cache_key tenant r = Some (cached capacity c tenant rid tc).1.
Proof.
  unfold CanonicalHashCache.hash_tool_call_cached.
  destruct (filter_nonempty rid) as [r|] eqn:Hr; [|by left].
  apply filter_nonempty_Some in Hr as [-> Hne].
  unfold CanonicalHashCache.get, Lru.get. destruct (capacity =? 0)%nat; [by left|].
  destruct (lru_map c !! CanonicalHashCache.cache_key tenant r) as [h|] eqn:Hk; [|by left].
  right. eauto.
Qed.

(** The cached action hash is the hash of the action as long as a request
    id names one action.  After any sequence of computations whose request
    ids, within a tenant, each belong to one tool call, the hash answered
    for a call is the hash of that call's canonical form. *)
Theorem action_hash_exact_for_consistent_ids capacity (qs : list hash_query) tenant rid tc :
  (∀ t r tc', (t, r, tc') ∈ qs → has_byte (ascii_of_nat 31) t = false) →
  has_byte (ascii_of_nat 31) tenant = false →
  (∀ r tc', rid = Some r → (tenant, Some r, tc') ∈ qs → tc' = tc) →
  (cached capacity (hashes_after capacity qs) tenant rid tc).1 = hash tc.
Proof.
  intros Hsep Hten Hone.
  destruct (cached_value capacity (hashes_after capacity qs) tenant rid tc) as [?|(r & Hr & _ & Hk)];
    [done|].
  destruct (hashes_after_explained capacity qs _ _ Hk) as (t & r' & tc' & Hin & _ & Hkey & Hh).
  apply join2_inj in Hkey as [-> ->]; [|done|by eapply Hsep].
  rewrite Hh. by rewrite (Hone r' tc' Hr Hin).
Qed.

(** The cached action hash ignores the action.  Once a hash was computed
    under a non-empty request id, the next computation under that id answers
    the same hash whatever tool call it is given, so a request that reuses
    an id with another action is bound to the first action's hash. *)
Theorem cached_hash_ignores_tool_call capacity c tenant rid tc other :
  Lru.wf capacity c → (0 < capacity)%nat → rid ≠ "" →
  let '(h, c') := cached capacity c tenant (Some rid) tc in
  (cached capacity c' tenant (Some rid) other).1 = h.
Proof.
  intros Hwf Hc Hne. unfold CanonicalHashCache.hash_tool_call_cached.
  cbn [filter_nonempty]. destruct (is_empty rid) eqn:Hempty; [by destruct rid|].
  unfold CanonicalHashCache.get, CanonicalHashCache.insert. set (key := CanonicalHashCache.cache_key tenant rid).
  pose proof Hwf as [Hq _].
  destruct (Lru.get_refines capacity c key Hwf Hc) as ([Hq1 ?] & Hget & Hent).
  destruct (Lru.get capacity c key) as [[h|] c'] eqn:Hg; cbn [fst snd] in *.
  - symmetry in Hget. rewrite Hget in Hent.
    assert (lru_map c' !! key = Some h) as Hk.
    { apply Lru.elem_of_entries; [done|]. rewrite Hent. set_solver. }
    destruct (Lru.get_refines capacity c' key ltac:(done) Hc) as (_ & Hget2 & _).
    destruct (Lru.get capacity c' key) as [o c'']. cbn [fst] in *. rewrite Hk in Hget2. by subst o.
  - assert (Lru.wf capacity c') as Hwf' by done.
    destruct (Lru.insert_refines capacity c' key (hash tc) Hwf' Hc) as [Hw2 Hins].
    assert (lru_map (Lru.insert capacity c' key (hash tc)) !! key = Some (hash tc)) as Hk.
    { apply Lru.elem_of_entries; [apply Hw2|]. rewrite Hins. apply Lru.lastn_elem; done. }
    destruct (Lru.get_refines capacity _ key Hw2 Hc) as (_ & Hget2 & _).
    destruct (Lru.get capacity (Lru.insert capacity c' key (hash tc)) key) as [o c''].
    cbn [fst] in *. rewrite Hk in Hget2. by subst o.
Qed.
End HashCache.

(** A serializer and digest for the witnesses: the value of the first key. *)
Definition sample_to_string (v : Canon.Value) : option string :=
  match v with Canon.Object ((_, Canon.Str s) :: _) => Some s | _ => None end.

Definition sample_call (action : string) : AuthorizeToolCall :=
  {| tc_tool := "github"; tc_action := action; tc_resource := None; tc_mutates_state := true;
     tc_parameters := Canon.Object [] |}.

Lemma action_hash_exact_for_consistent_ids_witness :
  (CanonicalHashCache.hash_tool_call_cached sample_to_string id 8
     (hashes_after sample_to_string id 8 [("acme", Some "r1", sample_call "read")])
     "acme" (Some "r2") (sample_call "delete")).1 = "delete".
Proof.
  rewrite (action_hash_exact_for_consistent_ids sample_to_string id 8
    [("acme", Some "r1", sample_call "read")] "acme" (Some "r2") (sample_call "delete")).
  - vm_compute. reflexivity.
  - intros t r tc' H. apply list_elem_of_singleton in H. injection H as -> -> ->. vm_compute. reflexivity.
  - vm_compute. reflexivity.
  - intros r tc' [= <-] H. apply list_elem_of_singleton in H. discriminate H.
Defined.

(** The same request id, first for a read and then for a delete: the delete
    gets the read's hash. *)
Lemma cached_hash_ignores_tool_call_witness :
  let c := (CanonicalHashCache.hash_tool_call_cached sample_to_string id 8 Lru.empty
              "acme" (Some "r1") (sample_call "read")).2 in
  (CanonicalHashCache.hash_tool_call_cached sample_to_string id 8 c
     "acme" (Some "r1") (sample_call "delete")).1 = "read" ∧
  CanonicalHashCache.hash_tool_call sample_to_string id (sample_call "delete") = "delete".
Proof.
  intros c. split; [|vm_compute; reflexivity].
  exact (cached_hash_ignores_tool_call sample_to_string id 8 Lru.empty "acme" "r1" (sample_call "read")
    (sample_call "delete") (Lru.empty_wf 8) ltac:(lia) ltac:(discriminate)).
Defined.

(** ** Invalidating a server *)

Lemma join3_prefix a b c : join3 a b c = (a +:+ UNIT_SEP +:+ b +:+ UNIT_SEP) +:+ c.
Proof.
  unfold join3. rewrite (string_app_assoc a), (string_app_assoc UNIT_SEP), (string_app_assoc b). done.
Qed.

Lemma starts_with_app p s : starts_with p (p +:+ s) = true.
Proof. unfold starts_with. by rewrite strip_prefix_app. Qed.

(** Quarantining or re-discovering a server forgets its tools and only its
    tools.  After [invalidate_server] no tool of that tenant's server is
    answered from the cache, and a tool of another tenant or server is
    answered as before. *)
Theorem invalidate_server_exact capacity c tenant server :
  Lru.wf capacity c → (0 < capacity)%nat →
  has_byte (ascii_of_nat 31) tenant = false → has_byte (ascii_of_nat 31) server = false →
  let c' := McpToolCache.invalidate_server c tenant server in
  (∀ tool, (McpToolCache.get capacity c' (McpToolCache.cache_key tenant server tool)).1 = None) ∧
  (∀ tenant' server' tool,
     has_byte (ascii_of_nat 31) tenant' = false → has_byte (ascii_of_nat 31) server' = false →
     tenant' ≠ tenant ∨ server' ≠ server →
     (McpToolCache.get capacity c' (McpToolCache.cache_key tenant' server' tool)).1 =
     (McpToolCache.get capacity c (McpToolCache.cache_key tenant' server' tool)).1).
Proof.
  intros Hwf Hc Ht Hs c'. unfold McpToolCache.get.
  destruct (Lru.invalidate_prefix_refines capacity c
    (tenant +:+ UNIT_SEP +:+ server +:+ UNIT_SEP) Hwf) as [Hwf' _].
  assert (∀ key, (Lru.get capacity c' key).1 = lru_map c' !! key) as Hg'
    by (intros; by apply Lru.get_refines).
  assert (∀ key, (Lru.get capacity c key).1 = lru_map c !! key) as Hg
    by (intros; by apply Lru.get_refines).
  split.
  - intros tool. rewrite Hg'. apply map_lookup_filter_None. right. intros v Hv.
    unfold McpToolCache.cache_key. cbn [fst]. rewrite join3_prefix, starts_with_app. done.
  - intros tenant' server' tool Ht' Hs' Hne. rewrite Hg, Hg'.
    destruct (starts_with (tenant +:+ UNIT_SEP +:+ server +:+ UNIT_SEP)
      (McpToolCache.cache_key tenant' server' tool)) eqn:Hp.
    + exfalso. unfold starts_with in Hp. destruct (strip_prefix _ _) as [rest|] eqn:Hst; [|done].
      apply strip_prefix_Some in Hst. unfold McpToolCache.cache_key in Hst.
      assert (join3 tenant' server' tool = join3 tenant server rest) as Heq
        by (by rewrite Hst, join3_prefix).
      apply join3_inj in Heq as (-> & -> & _); [|done..]. destruct Hne; done.
    + unfold c', McpToolCache.invalidate_server, Lru.invalidate_prefix. cbn [lru_map].
      destruct (lru_map c !! McpToolCache.cache_key tenant' server' tool) as [v|] eqn:Hv.
      * by apply map_lookup_filter_Some.
      * apply map_lookup_filter_None. by left.
Qed.

Definition sample_tool (key : string) : McpToolRecord :=
  {| mtr_id := key; mtr_tenant_id := "acme"; mtr_server_id := "s"; mtr_tool_key := key;
     mtr_name := key; mtr_description := None; mtr_input_schema := None; mtr_risk := "low";
     mtr_mutates_state := false; mtr_approval_required := false; mtr_status := "approved";
     mtr_created_at := 0%Z; mtr_updated_at := 0%Z |}.

Lemma invalidate_server_exact_witness :
  let c := McpToolCache.insert 4 Lru.empty (McpToolCache.cache_key "acme" "s1" "t") (sample_tool "t") in
  (McpToolCache.get 4 (McpToolCache.invalidate_server c "acme" "s1")
     (McpToolCache.cache_key "acme" "s1" "t")).1 = None.
Proof.
  intros c.
  apply (invalidate_server_exact 4 c "acme" "s1"); [|lia|reflexivity|reflexivity].
  apply (Lru.insert_refines 4 Lru.empty _ (sample_tool "t") (Lru.empty_wf 4)). lia.
Defined.
