(* ===== verification/Budget.v ===== *)
(** * Quotas and lockouts

    Models the [QuotaManager] and the [ApprovalAttemptTracker] of
    [src/src/src/routes/mod.rs] (the gateway's quota per tenant and its lockout
    for failed approval and authentication attempts), and their bounded variants
    in [src/lib/common/src/budget.rs].  [Instant::now()] is an argument, in
    nanoseconds; [duration_since] saturates at zero and [as_secs] truncates.
    Counters are [u64]: the quota's never passes its limit, and a wrap of the
    trackers' needs [2^64] calls in one window and is left out. *)

From S2P Require Import Prelude RustString Lru Models.

Local Open Scope Z_scope.

(** [now.duration_since(start).as_secs()] *)
Definition elapsed_secs (now start : Instant) : Z := Z.max 0 (now - start) / 1000000000.

(** The literal bound of the three maps. *)
Definition MAX_KEYS : nat := Z.to_nat 10000.

(** The gateway's quota: an unbounded map. *)
Module QuotaManager.
Abbreviation state := (gmap string (Z * Instant)).

Definition check_quota (limit window_secs : Z) (s : state) (tenant_id : string) (now : Instant) :
    bool * state :=
  if limit =? 0 then (true, s)
  else
    let '(count, window_start) := default (0, now) (s !! tenant_id) in
    let '(count, window_start) :=
      if window_secs <=? elapsed_secs now window_start then (0, now) else (count, window_start) in
    if count <? limit then (true, <[tenant_id := (count + 1, window_start)]> s)
    else (false, <[tenant_id := (count, window_start)]> s).
End QuotaManager.

(** The one of [budget.rs], with its recency queue. *)
Module BudgetQuotaManager.
Abbreviation state := (lru (Z * Instant)).

Definition check_quota (limit window_secs : Z) (s : state) (tenant_id : string) (now : Instant) :
    bool * state :=
  if limit =? 0 then (true, s)
  else
    let '(count, window_start) := default (0, now) (lru_map s !! tenant_id) in
    let '(count, window_start) :=
      if window_secs <=? elapsed_secs now window_start then (0, now) else (count, window_start) in
    let order := Lru.touch (lru_order s) tenant_id in
    let s := Lru.evict MAX_KEYS (<[tenant_id := (count, window_start)]> (lru_map s)) order in
    if count <? limit then
      (true, Build_lru (<[tenant_id := (count + 1, window_start)]> (lru_map s)) (lru_order s))
    else (false, s).
End BudgetQuotaManager.

(** The tracker of [budget.rs], with its recency queue. *)
Module BudgetAttemptTracker.
Abbreviation state := (lru (Z * Instant)).

Definition is_blocked (limit window_secs : Z) (s : state) (approval_id : string) (now : Instant) :
    bool * state :=
  if limit =? 0 then (false, s)
  else
    match lru_map s !! approval_id with
    | Some (count, window_start) =>
        let order := Lru.touch (lru_order s) approval_id in
        if window_secs <=? elapsed_secs now window_start then
          (false, Build_lru (<[approval_id := (0, now)]> (lru_map s)) order)
        else (limit <=? count, Build_lru (lru_map s) order)
    | None => (false, s)
    end.

Definition record_failure (limit window_secs : Z) (s : state) (approval_id : string) (now : Instant) :
    state :=
  if limit =? 0 then s
  else
    let '(count, window_start) := default (0, now) (lru_map s !! approval_id) in
    let '(count, window_start) :=
      if window_secs <=? elapsed_secs now window_start then (0, now) else (count, window_start) in
    Lru.evict MAX_KEYS (<[approval_id := (count + 1, window_start)]> (lru_map s))
      (Lru.touch (lru_order s) approval_id).
End BudgetAttemptTracker.

(** The gateway's tracker: an unbounded map. *)
Module AttemptTracker.
Abbreviation state := (gmap string (Z * Instant)).

Definition is_blocked (limit window_secs : Z) (s : state) (approval_id : string) (now : Instant) :
    bool * state :=
  if limit =? 0 then (false, s)
  else
    match s !! approval_id with
    | Some (count, window_start) =>
        if window_secs <=? elapsed_secs now window_start then
          (false, <[approval_id := (0, now)]> s)
        else (limit <=? count, s)
    | None => (false, s)
    end.

Definition record_failure (limit window_secs : Z) (s : state) (approval_id : string) (now : Instant) :
    state :=
  if limit =? 0 then s
  else
    let '(count, window_start) := default (0, now) (s !! approval_id) in
    let '(count, window_start) :=
      if window_secs <=? elapsed_secs now window_start then (0, now) else (count, window_start) in
    <[approval_id := (count + 1, window_start)]> s.
End AttemptTracker.

(** ** Sequences of calls *)

Section Quota.
Context (limit window_secs : Z).

(** The answers and the last state of a sequence of checks. *)
Fixpoint quota_run (s : QuotaManager.state) (calls : list (string * Instant)) :
    list (string * bool) * QuotaManager.state :=
  match calls with
  | [] => ([], s)
  | (tenant, now) :: calls =>
      let '(b, s) := QuotaManager.check_quota limit window_secs s tenant now in
      let '(bs, s) := quota_run s calls in ((tenant, b) :: bs, s)
  end.

Fixpoint budget_quota_run (s : BudgetQuotaManager.state) (calls : list (string * Instant)) :
    list (string * bool) * BudgetQuotaManager.state :=
  match calls with
  | [] => ([], s)
  | (tenant, now) :: calls =>
      let '(b, s) := BudgetQuotaManager.check_quota limit window_secs s tenant now in
      let '(bs, s) := budget_quota_run s calls in ((tenant, b) :: bs, s)
  end.

(** How many requests of [tenant] were let through, and how many were made. *)
Definition granted (tenant : string) (answers : list (string * bool)) : Z :=
  Z.of_nat (length (filter (λ a, a = (tenant, true)) answers)).
Definition asked (tenant : string) (calls : list (string * Instant)) : Z :=
  Z.of_nat (length (filter (λ c, c.1 = tenant) calls)).

(** What a tenant was answered, and when it asked *)
Definition of_tenant {A} (tenant : string) (l : list (string * A)) : list A :=
  (filter (λ a, a.1 = tenant) l).*2.

(** The requests of a tenant in windows: the first request that finds no window
    open opens one, and a window holds the requests that come less than
    [window_secs] after the one that opened it. *)
Fixpoint windows_from (start : Instant) (window times : list Instant) : list (list Instant) :=
  match times with
  | [] => [window]
  | t :: times =>
      if window_secs <=? elapsed_secs t start then window :: windows_from t [t] times
      else windows_from start (window ++ [t]) times
  end.
Definition windows (times : list Instant) : list (list Instant) :=
  match times with [] => [] | t :: times => windows_from t [t] times end.

(** The answers in one window: the first [limit] requests are let through. *)
Definition first_granted (window : list Instant) : list bool :=
  map (λ i, Z.of_nat i <? limit) (List.seq 0 (length window)).
End Quota.

Section Lockout.
Context (limit window_secs : Z).

Definition failures (id : string) (times : list Instant) (s : AttemptTracker.state) :
    AttemptTracker.state :=
  foldl (λ s now, AttemptTracker.record_failure limit window_secs s id now) s times.
End Lockout.

(** ** Lemmas *)

Lemma evict_noop {V} capacity (m : gmap string V) order :
  (size m ≤ capacity)%nat → Lru.evict capacity m order = Build_lru m order.
Proof.
  intros H. destruct order; simpl; destruct (capacity <? size m)%nat eqn:E; try done;
    apply Nat.ltb_lt in E; lia.
Qed.

Lemma elapsed_le now start t0 : t0 ≤ start → elapsed_secs now start ≤ elapsed_secs now t0.
Proof. intros H. unfold elapsed_secs. apply Z.div_le_mono; lia. Qed.

Section QuotaLemmas.
Context (limit window_secs : Z) (t0 : Instant).
Context (Hlimit : 0 < limit).

(** The requests a tenant has used up in the window that started at [t0]. *)
Definition used (s : BudgetQuotaManager.state) (tenant : string) : Z :=
  default 0 (fst <$> lru_map s !! tenant).

Definition in_window (s : BudgetQuotaManager.state) : Prop :=
  ∀ tenant count start, lru_map s !! tenant = Some (count, start) → t0 ≤ start ∧ 0 ≤ count ≤ limit.

Lemma check_quota_step s tenant (now : Instant) :
  in_window s → t0 ≤ now → elapsed_secs now t0 < window_secs →
  (size (<[tenant := (0%Z, now)]> (lru_map s)) ≤ MAX_KEYS)%nat →
  let '(b, s') := BudgetQuotaManager.check_quota limit window_secs s tenant now in
  b = (used s tenant <? limit) ∧ in_window s' ∧
  (∀ k, used s' k = if decide (k = tenant) then Z.min limit (used s tenant + 1) else used s k) ∧
  dom (lru_map s') = dom (<[tenant := (0, now)]> (lru_map s)).
Proof.
  intros Hw Hnow Hel Hsize. unfold BudgetQuotaManager.check_quota, used.
  destruct (limit =? 0) eqn:E0; [apply Z.eqb_eq in E0; lia|].
  assert (∃ (count : Z) (start : Instant), default (0, now) (lru_map s !! tenant) = (count, start) ∧
    t0 ≤ start ∧ 0 ≤ count ≤ limit ∧ default 0 (fst <$> lru_map s !! tenant) = count)
    as (count & start & Hd & Hst & Hcount & Hused).
  { destruct (lru_map s !! tenant) as [[count start]|] eqn:Hl; simpl.
    - exists count, start. destruct (Hw _ _ _ Hl). done.
    - exists 0, now. repeat split; lia. }
  rewrite Hd, Hused.
  destruct (window_secs <=? elapsed_secs now start) eqn:Ee.
  { apply Z.leb_le in Ee. pose proof (elapsed_le now start t0 Hst). lia. }
  assert (∀ v : Z * Instant, dom (<[tenant := v]> (lru_map s)) = dom (<[tenant := (0, now)]> (lru_map s)))
    as Hdom by (intros; by rewrite !dom_insert_L).
  rewrite evict_noop by (rewrite <- size_dom, Hdom, size_dom; done). cbn [lru_map lru_order].
  destruct (count <? limit) eqn:Ec.
  - apply Z.ltb_lt in Ec. split; [done|]. cbn [lru_map]. rewrite insert_insert_eq. split; [|split; [|done]].
    + intros k c st. cbn [lru_map]. destruct (decide (k = tenant)) as [->|Hne].
      * rewrite lookup_insert_eq. intros [= <- <-]. lia.
      * rewrite lookup_insert_ne by done. apply Hw.
    + intros k. cbn [lru_map]. destruct (decide (k = tenant)) as [->|Hne].
      * rewrite lookup_insert_eq. simpl. lia.
      * by rewrite lookup_insert_ne.
  - apply Z.ltb_ge in Ec. split; [done|]. cbn [lru_map]. split; [|split; [|done]].
    + intros k c st. cbn [lru_map]. destruct (decide (k = tenant)) as [->|Hne].
      * rewrite lookup_insert_eq. intros [= <- <-]. lia.
      * rewrite lookup_insert_ne by done. apply Hw.
    + intros k. cbn [lru_map]. destruct (decide (k = tenant)) as [->|Hne].
      * rewrite lookup_insert_eq. simpl. lia.
      * by rewrite lookup_insert_ne.
Qed.

Lemma granted_cons tenant t b bs :
  granted tenant ((t, b) :: bs) = (if decide (t = tenant ∧ b = true) then 1 else 0) + granted tenant bs.
Proof.
  unfold granted. destruct (decide (t = tenant ∧ b = true)) as [[-> ->]|H].
  - rewrite list.filter_cons_True by done. simpl. lia.
  - rewrite list.filter_cons_False by naive_solver. done.
Qed.

Lemma asked_cons tenant t now calls :
  asked tenant ((t, now) :: calls) = (if decide (t = tenant) then 1 else 0) + asked tenant calls.
Proof.
  unfold asked. destruct (decide (t = tenant)) as [->|H].
  - rewrite list.filter_cons_True by done. simpl. lia.
  - rewrite list.filter_cons_False by done. done.
Qed.

Lemma budget_quota_run_granted tenant calls : ∀ s,
  in_window s →
  Forall (λ c, t0 ≤ c.2 ∧ elapsed_secs c.2 t0 < window_secs) calls →
  (size (dom (lru_map s) ∪ list_to_set calls.*1 : gset string) ≤ MAX_KEYS)%nat →
  granted tenant (budget_quota_run limit window_secs s calls).1 =
  Z.min (limit - used s tenant) (asked tenant calls).
Proof.
  induction calls as [|[t now] calls IH]; intros s Hw Hc Hs.
  - assert (used s tenant ≤ limit).
    { unfold used. destruct (lru_map s !! tenant) as [[c st]|] eqn:Hl; simpl; [|lia].
      destruct (Hw _ _ _ Hl). lia. }
    unfold granted, asked. simpl. lia.
  - apply list.Forall_cons in Hc as [[Hc1 Hc2] Hc]. cbn [fst snd] in *. cbn [budget_quota_run].
    assert (dom (<[t := (0, now)]> (lru_map s)) = {[t]} ∪ dom (lru_map s)) as Hdi by apply dom_insert_L.
    assert (size (<[t := (0%Z, now)]> (lru_map s)) ≤ MAX_KEYS)%nat as Hsz.
    { etrans; [|exact Hs]. rewrite <- size_dom, Hdi. apply subseteq_size. set_solver. }
    pose proof (check_quota_step s t now Hw Hc1 Hc2 Hsz) as Hstep.
    destruct (BudgetQuotaManager.check_quota limit window_secs s t now) as [b s'].
    destruct Hstep as (Hb & Hw' & Hu & Hdom).
    specialize (IH s' Hw' Hc).
    destruct (budget_quota_run limit window_secs s' calls) as [bs s'']. cbn [fst] in *.
    rewrite granted_cons, asked_cons, IH, Hu.
    2:{ etrans; [|exact Hs]. rewrite Hdom, dom_insert_L. apply subseteq_size. set_solver. }
    clear Hs Hsz Hdom Hdi IH Hw'.
    assert (0 ≤ used s tenant ≤ limit).
    { unfold used. destruct (lru_map s !! tenant) as [[c st]|] eqn:Hl; simpl; [|lia].
      destruct (Hw _ _ _ Hl). lia. }
    assert (0 ≤ asked tenant calls) by (unfold asked; lia).
    destruct (decide (t = tenant)) as [<-|Hne].
    + destruct (decide (t = t)) as [_|]; [|done].
      destruct (decide (t = t ∧ b = true)) as [[_ ->]|Hf].
      * symmetry in Hb. apply Z.ltb_lt in Hb. lia.
      * destruct (used s t <? limit) eqn:El; [naive_solver|]. apply Z.ltb_ge in El. lia.
    + destruct (decide (tenant = t)) as [->|_]; [done|].
      destruct (decide (t = tenant ∧ b = true)) as [[? _]|_]; [done|]. lia.
Qed.
End QuotaLemmas.

Lemma failures_count limit window id t0 times : ∀ s c,
  0 < limit → s !! id = Some (c, t0) →
  Forall (λ t, elapsed_secs t t0 < window) times →
  failures limit window id times s !! id = Some (c + Z.of_nat (length times), t0) ∧
  ∀ k, k ≠ id → failures limit window id times s !! k = s !! k.
Proof.
  unfold failures. induction times as [|t times IH]; intros s c Hl Hs Hw; simpl.
  - rewrite Z.add_0_r. done.
  - apply list.Forall_cons in Hw as [Ht Hw].
    assert (AttemptTracker.record_failure limit window s id t = <[id := (c + 1, t0)]> s) as ->.
    { unfold AttemptTracker.record_failure. destruct (limit =? 0) eqn:E; [apply Z.eqb_eq in E; lia|].
      rewrite Hs. simpl.
      destruct (window <=? elapsed_secs t t0) eqn:Ee; [apply Z.leb_le in Ee; lia|]. done. }
    destruct (IH (<[id := (c + 1, t0)]> s) (c + 1) Hl) as [H1 H2]; [apply lookup_insert_eq|done|].
    split; [rewrite H1; do 2 f_equal; lia|].
    intros k Hk. rewrite H2 by done. by apply lookup_insert_ne.
Qed.

Section Windows.
Context (limit window_secs : Z).

Lemma of_tenant_cons {A} tenant t (a : A) l :
  of_tenant tenant ((t, a) :: l) = if decide (t = tenant) then a :: of_tenant tenant l else of_tenant tenant l.
Proof.
  unfold of_tenant. destruct (decide (t = tenant)).
  - by rewrite list.filter_cons_True.
  - by rewrite list.filter_cons_False.
Qed.

Lemma first_granted_snoc w t :
  first_granted limit (w ++ [t]) = first_granted limit w ++ [Z.of_nat (length w) <? limit].
Proof. unfold first_granted. by rewrite length_app, Nat.add_1_r, seq_S, map_app. Qed.

Lemma windows_from_concat start w times : concat (windows_from window_secs start w times) = w ++ times.
Proof.
  revert start w. induction times as [|t times IH]; intros start w; simpl; [done|].
  destruct (_ <=? _); simpl; rewrite IH; [done|]. by rewrite <- app_assoc.
Qed.

Lemma windows_from_within start w times :
  (∃ ts, w = start :: ts ∧ Forall (λ t, elapsed_secs t start < window_secs) ts) →
  Forall (λ w, ∃ t ts, w = t :: ts ∧ Forall (λ t', elapsed_secs t' t < window_secs) ts)
    (windows_from window_secs start w times).
Proof.
  revert start w. induction times as [|t times IH]; intros start w (ts & -> & Hts); simpl.
  - repeat constructor. eauto.
  - destruct (Z.leb_spec window_secs (elapsed_secs t start)).
    + constructor; [eauto|]. apply IH. by exists [].
    + apply IH. exists (ts ++ [t]). split; [done|]. apply Forall_app. auto.
Qed.

(** The tenant's entry counts the requests of the window [w] that is open. *)
Definition opened (s : QuotaManager.state) (tenant : string) (w : list Instant) : Prop :=
  s !! tenant = (λ start, (Z.min limit (Z.of_nat (length w)), start)) <$> head w.

Definition joined (w : list Instant) (now : Instant) : list Instant :=
  match w with
  | [] => [now]
  | start :: _ => if window_secs <=? elapsed_secs now start then [now] else w ++ [now]
  end.

Lemma check_quota_joins s tenant w now :
  0 < limit → opened s tenant w →
  let '(b, s') := QuotaManager.check_quota limit window_secs s tenant now in
  first_granted limit (joined w now) =
    (if decide (joined w now = [now]) then [] else first_granted limit w) ++ [b] ∧
  opened s' tenant (joined w now) ∧ ∀ k, k ≠ tenant → s' !! k = s !! k.
Proof.
  intros Hl Hw. unfold QuotaManager.check_quota. rewrite (proj2 (Z.eqb_neq _ _)) by lia.
  assert (∀ w', opened (<[tenant := (Z.min limit (Z.of_nat (length (now :: w'))), now)]> s) tenant (now :: w')) as Hnew
    by (intros; apply lookup_insert_eq).
  assert (∀ v k, k ≠ tenant → <[tenant := v]> s !! k = s !! k) as Hother by (intros; by apply lookup_insert_ne).
  assert (first_granted limit [now] = [true]) as Hfirst by (unfold first_granted; simpl; by rewrite (proj2 (Z.ltb_lt 0 _))).
  specialize (Hnew []). simpl in Hnew. rewrite Z.min_r in Hnew by lia.
  unfold opened in Hw. rewrite Hw. destruct w as [|start w]; simpl.
  - assert ((if window_secs <=? elapsed_secs now now then (0, now) else (0, now)) = (0, now)) as -> by (by case_match).
    rewrite (proj2 (Z.ltb_lt 0 _)), decide_True by done. split; [exact Hfirst|]. split; [exact Hnew|apply Hother].
  - destruct (window_secs <=? elapsed_secs now start).
    { rewrite (proj2 (Z.ltb_lt 0 _)), decide_True by done. split; [exact Hfirst|]. split; [exact Hnew|apply Hother]. }
    rewrite decide_False by (destruct w; done).
    change (start :: w ++ [now]) with ((start :: w) ++ [now]). rewrite first_granted_snoc.
    change (length (start :: w)) with (S (length w)). set (n := S (length w)).
    assert (∀ m, m = Z.min limit (Z.of_nat n + 1) → opened (<[tenant := (m, start)]> s) tenant ((start :: w) ++ [now])) as Hmore.
    { intros m ->. unfold opened. rewrite lookup_insert_eq, length_app. simpl. do 2 f_equal. lia. }
    destruct (Z.ltb_spec (Z.of_nat n) limit).
    + rewrite (proj2 (Z.ltb_lt (Z.min limit _) _)) by lia. split; [done|]. split; [apply Hmore; lia|apply Hother].
    + rewrite (proj2 (Z.ltb_ge (Z.min limit _) _)) by lia. split; [done|]. split; [apply Hmore; lia|apply Hother].
Qed.

(** The windows of a tenant that has the window [w] open *)
Definition windows_after (w times : list Instant) : list (list Instant) :=
  match w with [] => windows window_secs times | start :: _ => windows_from window_secs start w times end.

Lemma windows_after_cons w now times :
  windows_after w (now :: times) =
  (if decide (joined w now = [now] ∧ w ≠ []) then [w] else []) ++ windows_after (joined w now) times.
Proof.
  destruct w as [|start w]; simpl; [by rewrite decide_False by naive_solver|].
  destruct (window_secs <=? elapsed_secs now start); [by rewrite decide_True|].
  rewrite decide_False; [done|]. by intros [Hw _]; destruct w.
Qed.

Lemma quota_run_windows tenant calls s w :
  0 < limit → opened s tenant w →
  first_granted limit w ++ of_tenant tenant (quota_run limit window_secs s calls).1 =
  concat (map (first_granted limit) (windows_after w (of_tenant tenant calls))).
Proof.
  intros Hl. revert s w. induction calls as [|[t now] calls IH]; intros s w Hw.
  { destruct w; [done|]. unfold of_tenant. simpl. done. }
  cbn [quota_run]. rewrite of_tenant_cons.
  destruct (decide (t = tenant)) as [->|Hne].
  - pose proof (check_quota_joins s tenant w now Hl Hw) as Hstep.
    destruct (QuotaManager.check_quota _ _ _ _ _) as [b s1]. destruct Hstep as (Hb & Hw1 & _).
    specialize (IH s1 (joined w now) Hw1). destruct (quota_run _ _ s1 calls) as [bs s2]. cbn [fst] in *.
    rewrite of_tenant_cons, windows_after_cons, map_app, concat_app, <- IH, Hb.
    destruct (decide (tenant = tenant)) as [_|]; [|done].
    destruct (decide (joined w now = [now])), w; simpl; rewrite ?app_nil_r, <- ?app_assoc; try done.
    all: rewrite ?decide_True, ?decide_False by naive_solver; simpl; by rewrite ?app_nil_r, <- ?app_assoc.
  - assert (opened (QuotaManager.check_quota limit window_secs s t now).2 tenant w) as Hw1.
    { unfold opened in *. rewrite <- Hw. unfold QuotaManager.check_quota. rewrite (proj2 (Z.eqb_neq _ _)) by lia.
      destruct (default _ _) as [c0 st0]. destruct (if window_secs <=? elapsed_secs now st0 then _ else _) as [c st].
      by destruct (c <? limit); apply lookup_insert_ne. }
    destruct (QuotaManager.check_quota _ _ _ _ _) as [b s1]. specialize (IH s1 w Hw1).
    destruct (quota_run _ _ s1 calls) as [bs s2]. cbn [fst] in *. rewrite of_tenant_cons.
    by destruct (decide (t = tenant)).
Qed.
End Windows.

(** ** Properties *)

(** C40: the gateway's quota is exact.  For any interleaving of the tenants'
    requests, the requests of a tenant fall into windows: each holds a first one
    and those that come less than [window_secs] seconds after it, and the next
    request opens the next window.  When the limit is positive the first [limit]
    requests of each window are let through and the others are not, whatever the
    other tenants do; a limit of 0 turns the quota off and lets everything
    through. *)
Theorem quota_grants_exactly_limit limit window_secs calls tenant :
  0 <= limit →
  let times := of_tenant tenant calls in
  concat (windows window_secs times) = times ∧
  Forall (λ w, ∃ t ts, w = t :: ts ∧ Forall (λ t', elapsed_secs t' t < window_secs) ts)
    (windows window_secs times) ∧
  of_tenant tenant (quota_run limit window_secs ∅ calls).1 =
    if limit =? 0 then replicate (length times) true
    else concat (map (first_granted limit) (windows window_secs times)).
Proof.
  intros Hl times. split_and!.
  - unfold windows. destruct times; [done|]. apply windows_from_concat.
  - unfold windows. destruct times; [constructor|]. apply windows_from_within. by exists [].
  - destruct (Z.eqb_spec limit 0) as [->|Hn].
    + unfold times. clear times Hl. generalize (∅ : QuotaManager.state).
      induction calls as [|[t now] calls IH]; intros s; [done|]. cbn [quota_run].
      change (QuotaManager.check_quota 0 window_secs s t now) with (true, s). cbv beta iota.
      specialize (IH s). destruct (quota_run 0 window_secs s calls) as [bs s']. cbn [fst] in *.
      rewrite (of_tenant_cons tenant t true), (of_tenant_cons tenant t now), IH. by destruct (decide (t = tenant)).
    + apply (quota_run_windows limit window_secs tenant calls ∅ []); [lia|]. apply lookup_empty.
Qed.

(** Three requests of a tenant in one window, and one in the next *)
Lemma quota_grants_exactly_limit_witness :
  of_tenant "a" (quota_run 2 60 ∅ [("a", 0); ("b", 1); ("a", 2); ("a", 3); ("a", 60000000000)]).1 =
  [true; true; false; true].
Proof.
  pose proof (proj2 (proj2 (quota_grants_exactly_limit 2 60
    [("a", 0); ("b", 1); ("a", 2); ("a", 3); ("a", 60000000000)] "a" ltac:(lia)))) as H.
  etrans; [exact H|]. vm_compute. reflexivity.
Defined.

(** The same of the bounded manager, in one window and as long as no more than
    the bounded number of tenants is involved. *)
Theorem budget_quota_grants_exactly_limit limit window t0 calls tenant :
  0 < limit →
  Forall (λ c, t0 ≤ c.2 ∧ elapsed_secs c.2 t0 < window) calls →
  (size (list_to_set calls.*1 : gset string) ≤ MAX_KEYS)%nat →
  granted tenant (budget_quota_run limit window Lru.empty calls).1 = Z.min limit (asked tenant calls).
Proof.
  intros Hl Hc Hs.
  assert (in_window limit t0 Lru.empty) as Hw by (intros k c st; simpl; by rewrite lookup_empty).
  rewrite (budget_quota_run_granted limit window t0 Hl tenant calls Lru.empty Hw Hc).
  - unfold used. simpl. by rewrite lookup_empty, Z.sub_0_r.
  - simpl. by rewrite dom_empty_L, (left_id_L ∅ (∪)).
Qed.

Lemma budget_quota_grants_exactly_limit_witness :
  granted "a" (budget_quota_run 2 60 Lru.empty [("a", 0); ("b", 1); ("a", 2); ("a", 3)]).1 = 2.
Proof.
  rewrite (budget_quota_grants_exactly_limit 2 60 0 [("a", 0); ("b", 1); ("a", 2); ("a", 3)] "a").
  - reflexivity.
  - lia.
  - repeat constructor; simpl; vm_compute; congruence.
  - apply Nat.leb_le. vm_compute. reflexivity.
Defined.

(** The lockout.  Starting from a client with no failures on record, after
    failures at [t0] and at [times], all within the window of the first, the
    client is blocked exactly when the failures number at least the limit; once
    the window has passed it is not; and no other client is affected. *)
Theorem lockout_exactly_at_limit limit window s id t0 times now :
  0 < limit → 0 < window → s !! id = None →
  Forall (λ t, elapsed_secs t t0 < window) times →
  let s' := failures limit window id (t0 :: times) s in
  (AttemptTracker.is_blocked limit window s' id now).1 =
    (elapsed_secs now t0 <? window) && (limit <=? 1 + Z.of_nat (length times)) ∧
  ∀ k, k ≠ id → (AttemptTracker.is_blocked limit window s' k now).1 =
                (AttemptTracker.is_blocked limit window s k now).1.
Proof.
  intros Hl Hw Hs Ht s'.
  assert (AttemptTracker.record_failure limit window s id t0 = <[id := (1, t0)]> s) as Hrec.
  { unfold AttemptTracker.record_failure. destruct (limit =? 0) eqn:E; [apply Z.eqb_eq in E; lia|].
    rewrite Hs. simpl. by destruct (window <=? elapsed_secs t0 t0). }
  destruct (failures_count limit window id t0 times (<[id := (1, t0)]> s) 1) as [H1 H2];
    [done|apply lookup_insert_eq|done|].
  assert (s' = failures limit window id times (<[id := (1, t0)]> s)) as Hs'
    by (unfold s', failures; simpl; by rewrite Hrec).
  rewrite Hs'. unfold AttemptTracker.is_blocked.
  destruct (limit =? 0) eqn:E; [apply Z.eqb_eq in E; lia|]. split.
  - rewrite H1. rewrite Z.ltb_antisym. by destruct (window <=? elapsed_secs now t0).
  - intros k Hk. rewrite H2, lookup_insert_ne by done.
    destruct (s !! k) as [[c st]|]; [by destruct (window <=? elapsed_secs now st)|done].
Qed.

Lemma lockout_exactly_at_limit_witness :
  (AttemptTracker.is_blocked 3 60 (failures 3 60 "10.0.0.1|acme" [0; 5; 9] ∅) "10.0.0.1|acme" 10).1 = true.
Proof.
  refine (eq_trans (proj1 (lockout_exactly_at_limit 3 60 ∅ "10.0.0.1|acme" 0 [5; 9] 10 ltac:(lia)
    ltac:(lia) (lookup_empty _) ltac:(repeat constructor; vm_compute; congruence))) _).
  reflexivity.
Defined.
