(* ===== verification/Ssrf.v ===== *)
(** * The SSRF guard for callback URLs

    Models [src/lib/common/src/ssrf.rs].  The [url] crate's parser and
    the resolver behind [to_socket_addrs] are parameters; the addresses, how they
    are read ([Net.v]) and the ranges they are checked against are not. *)

From S2P Require Import Prelude RustString Net.

Local Open Scope Z_scope.

Inductive CallbackUrlError :=
| Empty
| HttpsRequired
| UserinfoForbidden
| MissingHost
| BlockedHost (host : string)
| BlockedAddress (ip : IpAddr)
| Unresolvable
| InvalidUrl (e : string).

(** What the code reads of a parsed [url::Url]. *)
Record Url := {
  url_scheme : string;
  url_username : string;
  url_password : option string;
  url_host_str : option string;
  url_port_or_known_default : option Z }.

Module Ssrf.

(** ** [std::net] *)

Definition is_loopback (ip : Ipv4Addr) : bool := v4_a ip =? 127.
Definition is_private (ip : Ipv4Addr) : bool :=
  (v4_a ip =? 10)
  || ((v4_a ip =? 172) && (16 <=? v4_b ip) && (v4_b ip <=? 31))
  || ((v4_a ip =? 192) && (v4_b ip =? 168)).
Definition is_link_local (ip : Ipv4Addr) : bool := (v4_a ip =? 169) && (v4_b ip =? 254).
Definition is_unspecified (ip : Ipv4Addr) : bool :=
  (v4_a ip =? 0) && (v4_b ip =? 0) && (v4_c ip =? 0) && (v4_d ip =? 0).
Definition is_broadcast (ip : Ipv4Addr) : bool :=
  (v4_a ip =? 255) && (v4_b ip =? 255) && (v4_c ip =? 255) && (v4_d ip =? 255).

Definition v6_is_loopback (ip : Ipv6Addr) : bool :=
  bool_decide (v6_segments ip = [0; 0; 0; 0; 0; 0; 0; 1]).
Definition v6_is_unspecified (ip : Ipv6Addr) : bool :=
  bool_decide (v6_segments ip = [0; 0; 0; 0; 0; 0; 0; 0]).

(** [::ffff:a.b.c.d] *)
Definition to_ipv4_mapped (ip : Ipv6Addr) : option Ipv4Addr :=
  match v6_segments ip with
  | [0; 0; 0; 0; 0; 65535; ab; cd] =>
      Some {| v4_a := Z.shiftr ab 8; v4_b := Z.land ab 255;
              v4_c := Z.shiftr cd 8; v4_d := Z.land cd 255 |}
  | _ => None
  end.

(** ** The guard *)

Definition is_carrier_grade_nat (ip : Ipv4Addr) : bool :=
  (v4_a ip =? 100) && (Z.land (v4_b ip) 192 =? 64).

Definition is_blocked_ipv4 (ip : Ipv4Addr) : bool :=
  is_loopback ip || is_private ip || is_link_local ip || is_unspecified ip || is_broadcast ip
  || is_carrier_grade_nat ip.

Definition is_blocked_ipv6 (ip : Ipv6Addr) : bool :=
  if v6_is_loopback ip || v6_is_unspecified ip then true
  else
    let segment0 := default 0 (v6_segments ip !! 0%nat) in
    if Z.land segment0 65024 =? 64512 then true
    else if Z.land segment0 65472 =? 65152 then true
    else false.

Definition is_blocked_ip (ip : IpAddr) : bool :=
  match ip with
  | V4 v4 => is_blocked_ipv4 v4
  | V6 v6 =>
      match to_ipv4_mapped v6 with
      | Some v4 => is_blocked_ipv4 v4
      | None => is_blocked_ipv6 v6
      end
  end.

Definition check_ip (ip : IpAddr) : Result unit CallbackUrlError :=
  if is_blocked_ip ip then Err (BlockedAddress ip) else Ok tt.

Fixpoint check_all (addrs : list IpAddr) : Result unit CallbackUrlError :=
  match addrs with
  | [] => Ok tt
  | ip :: addrs => match check_ip ip with Err e => Err e | Ok _ => check_all addrs end
  end.

Definition is_blocked_hostname (host : string) : bool :=
  let h := to_ascii_lowercase (trim_end_byte "." host) in
  ((h == "localhost") || (h == "metadata") || (h == "metadata.google.internal")
    || (h == "instance-data"))
  || ends_with ".localhost" h
  || ends_with ".local" h.

Section Guard.
(** [Url::parse] and [to_socket_addrs]. *)
Context (url_parse : string → Result Url string)
        (resolve : string → Z → option (list IpAddr)).

Definition validate_callback_url (raw : string) : Result unit CallbackUrlError :=
  let trimmed := trim raw in
  if is_empty trimmed then Err Empty
  else
  match url_parse trimmed with
  | Err e => Err (InvalidUrl e)
  | Ok parsed =>
      if url_scheme parsed != "https" then Err HttpsRequired
      else if negb (is_empty (url_username parsed)) || bool_decide (is_Some (url_password parsed)) then
        Err UserinfoForbidden
      else
      match url_host_str parsed with
      | None => Err MissingHost
      | Some host =>
          if is_blocked_hostname host then Err (BlockedHost host)
          else
          match Net.ip_parse host with
          | Some ip => check_ip ip
          | None =>
              let port := default 443 (url_port_or_known_default parsed) in
              match resolve host port with
              | None => Err Unresolvable
              | Some addrs =>
                  if bool_decide (addrs = []) then Err Unresolvable else check_all addrs
              end
          end
      end
  end.
End Guard.

(** ** Ranges *)

(** The address as a 32-bit number, and membership in [base/len]. *)
Definition v4_number (ip : Ipv4Addr) : Z :=
  v4_a ip * 2 ^ 24 + v4_b ip * 2 ^ 16 + v4_c ip * 2 ^ 8 + v4_d ip.
Definition in_cidr (width : Z) (addr base len : Z) : Prop :=
  Z.shiftr addr (width - len) = Z.shiftr base (width - len).

(** The blocked IPv4 ranges, base address and prefix length. *)
Definition blocked_v4_ranges : list (Ipv4Addr * Z) := [
  ({| v4_a := 127; v4_b := 0; v4_c := 0; v4_d := 0 |}, 8);
  ({| v4_a := 10; v4_b := 0; v4_c := 0; v4_d := 0 |}, 8);
  ({| v4_a := 172; v4_b := 16; v4_c := 0; v4_d := 0 |}, 12);
  ({| v4_a := 192; v4_b := 168; v4_c := 0; v4_d := 0 |}, 16);
  ({| v4_a := 169; v4_b := 254; v4_c := 0; v4_d := 0 |}, 16);
  ({| v4_a := 0; v4_b := 0; v4_c := 0; v4_d := 0 |}, 32);
  ({| v4_a := 255; v4_b := 255; v4_c := 255; v4_d := 255 |}, 32);
  ({| v4_a := 100; v4_b := 64; v4_c := 0; v4_d := 0 |}, 10) ].

(** ** Lemmas *)

(** A boolean fact about all numbers below a bound, by evaluation. *)
Fixpoint all_from (n : nat) (z : Z) (f : Z → bool) : bool :=
  match n with O => true | S n => f z && all_from n (z + 1) f end.
Definition all_below (n : nat) (f : Z → bool) : bool := all_from n 0 f.

Lemma all_from_spec n z0 f z :
  all_from n z0 f = true → z0 <= z < z0 + Z.of_nat n → f z = true.
Proof.
  revert z0. induction n as [|n IH]; intros z0; simpl; [lia|].
  intros [H1 H2]%andb_true_iff Hz. destruct (decide (z = z0)) as [->|Hne]; [done|].
  apply (IH (z0 + 1)); [done|lia].
Qed.

Lemma all_below_spec n f z : all_below n f = true → 0 <= z < Z.of_nat n → f z = true.
Proof. intros H Hz. apply (all_from_spec n 0); [done|lia]. Qed.

Lemma land_192 b : octet b → (Z.land b 192 =? 64) = ((64 <=? b) && (b <=? 127)).
Proof.
  intros Hb. apply eqb_prop.
  apply (all_below_spec 256 (λ b, Bool.eqb (Z.land b 192 =? 64) ((64 <=? b) && (b <=? 127)))); [|done].
  vm_compute. reflexivity.
Qed.

(** The prefixes of an address number, octet by octet. *)
Lemma v4_prefix ip :
  v4_wf ip →
  v4_number ip / 16777216 = v4_a ip ∧ v4_number ip / 65536 = v4_a ip * 256 + v4_b ip ∧
  v4_number ip / 1048576 = v4_a ip * 16 + v4_b ip / 16 ∧
  v4_number ip / 4194304 = v4_a ip * 4 + v4_b ip / 64.
Proof.
  unfold v4_wf, octet, v4_number. destruct ip as [a b c d]. cbn [v4_a v4_b v4_c v4_d].
  change (2 ^ 24) with 16777216. change (2 ^ 16) with 65536. change (2 ^ 8) with 256.
  intros (Ha & Hb & Hc & Hd).
  pose proof (Z.div_mod b 16 ltac:(lia)). pose proof (Z.mod_pos_bound b 16 ltac:(lia)).
  pose proof (Z.div_mod b 64 ltac:(lia)). pose proof (Z.mod_pos_bound b 64 ltac:(lia)).
  repeat split; symmetry.
  - apply (Z.div_unique_pos _ _ _ (b * 65536 + c * 256 + d)); lia.
  - apply (Z.div_unique_pos _ _ _ (c * 256 + d)); lia.
  - apply (Z.div_unique_pos _ _ _ ((b mod 16) * 65536 + c * 256 + d)); lia.
  - apply (Z.div_unique_pos _ _ _ ((b mod 64) * 65536 + c * 256 + d)); lia.
Qed.

(** Finds the disjunct arithmetic proves. *)
Ltac pick_range :=
  lazymatch goal with
  | |- _ ∨ _ => first [ left; pick_range | right; pick_range ]
  | |- _ => solve [ repeat split; lia ]
  end.

Lemma v4_in_cidr ip base len :
  v4_wf ip → 0 <= len <= 32 →
  in_cidr 32 (v4_number ip) base len ↔ v4_number ip / 2 ^ (32 - len) = base / 2 ^ (32 - len).
Proof. intros _ Hl. unfold in_cidr. rewrite !Z.shiftr_div_pow2 by lia. done. Qed.

Lemma blocked_v4_exact ip :
  v4_wf ip →
  is_blocked_ipv4 ip = true ↔
  Exists (λ r, in_cidr 32 (v4_number ip) (v4_number r.1) r.2) blocked_v4_ranges.
Proof.
  intros Hwf. pose proof Hwf as (Ha & Hb & Hc & Hd). unfold blocked_v4_ranges.
  rewrite !Exists_cons, Exists_nil. cbn [fst snd].
  rewrite !v4_in_cidr by (done || lia).
  repeat match goal with |- context [v4_number (Build_Ipv4Addr ?a ?b ?c ?d) / ?m] =>
    let v := eval vm_compute in (v4_number (Build_Ipv4Addr a b c d) / m) in
    change (v4_number (Build_Ipv4Addr a b c d) / m) with v end.
  change (2 ^ (32 - 8)) with 16777216. change (2 ^ (32 - 12)) with 1048576.
  change (2 ^ (32 - 16)) with 65536. change (2 ^ (32 - 32)) with 1. change (2 ^ (32 - 10)) with 4194304.
  destruct (v4_prefix ip Hwf) as (-> & -> & -> & ->). rewrite !Z.div_1_r.
  unfold is_blocked_ipv4, is_carrier_grade_nat. rewrite land_192 by done.
  unfold is_loopback, is_private, is_link_local, is_unspecified, is_broadcast, v4_number, octet in *.
  destruct ip as [a b c d]. cbn [v4_a v4_b v4_c v4_d] in *.
  change (2 ^ 24) with 16777216. change (2 ^ 16) with 65536. change (2 ^ 8) with 256.
  pose proof (Z.div_mod b 16 ltac:(lia)). pose proof (Z.mod_pos_bound b 16 ltac:(lia)).
  pose proof (Z.div_mod b 64 ltac:(lia)). pose proof (Z.mod_pos_bound b 64 ltac:(lia)).
  generalize dependent (b / 16). generalize dependent (b / 64).
  generalize dependent (b mod 16). generalize dependent (b mod 64). clear Hwf.
  intros m64 ? m16 ? q64 ? q16 ?.
  rewrite !orb_true_iff, !andb_true_iff, !Z.eqb_eq, !Z.leb_le.
  split; intros Hr; destruct_or? Hr; destruct_and? Hr; try done; pick_range.
Qed.

Lemma land_v6 s :
  0 <= s < 65536 →
  (Z.land s 65024 =? 64512) = ((64512 <=? s) && (s <=? 65023)) ∧
  (Z.land s 65472 =? 65152) = ((65152 <=? s) && (s <=? 65215)).
Proof.
  intros Hs. split; apply eqb_prop.
  - apply (all_below_spec (Z.to_nat 65536)
      (λ s, Bool.eqb (Z.land s 65024 =? 64512) ((64512 <=? s) && (s <=? 65023)))); [|lia].
    vm_compute. reflexivity.
  - apply (all_below_spec (Z.to_nat 65536)
      (λ s, Bool.eqb (Z.land s 65472 =? 65152) ((65152 <=? s) && (s <=? 65215)))); [|lia].
    vm_compute. reflexivity.
Qed.

Lemma mapped_wf ip v4 : v6_wf ip → to_ipv4_mapped ip = Some v4 → v4_wf v4.
Proof.
  intros [_ Hs]. unfold to_ipv4_mapped. intros H. repeat case_match; simplify_eq.
  repeat (apply list.Forall_cons in Hs as [? Hs]).
  unfold v4_wf, octet. cbn [v4_a v4_b v4_c v4_d].
  assert (∀ x, 0 <= x < 65536 → 0 <= Z.shiftr x 8 < 256 ∧ 0 <= Z.land x 255 < 256) as Hb.
  { intros x Hx. change 255 with (Z.ones 8). rewrite Z.shiftr_div_pow2, Z.land_ones by lia.
    split; [|apply Z.mod_pos_bound; lia]. change (2 ^ 8) with 256.
    split; [apply Z.div_pos; lia|apply Z.div_lt_upper_bound; lia]. }
  naive_solver.
Qed.

(** The reference for an address: the listed IPv4 ranges, for an IPv4-mapped
    address those of the address it maps to, and for any other IPv6 address
    the unspecified address, loopback, [fc00::/7] and [fe80::/10]. *)
Definition must_block (ip : IpAddr) : Prop :=
  let v4_blocked v4 := Exists (λ r, in_cidr 32 (v4_number v4) (v4_number r.1) r.2) blocked_v4_ranges in
  match ip with
  | V4 v4 => v4_blocked v4
  | V6 v6 =>
      match to_ipv4_mapped v6 with
      | Some v4 => v4_blocked v4
      | None =>
          v6_segments v6 = [0; 0; 0; 0; 0; 0; 0; 0] ∨ v6_segments v6 = [0; 0; 0; 0; 0; 0; 0; 1] ∨
          ∃ s rest, v6_segments v6 = s :: rest ∧ (0xfc00 <= s <= 0xfdff ∨ 0xfe80 <= s <= 0xfebf)
      end
  end.

Lemma blocked_v6_exact ip :
  v6_wf ip →
  is_blocked_ipv6 ip = true ↔
  v6_segments ip = [0; 0; 0; 0; 0; 0; 0; 0] ∨ v6_segments ip = [0; 0; 0; 0; 0; 0; 0; 1] ∨
  ∃ s rest, v6_segments ip = s :: rest ∧ (0xfc00 <= s <= 0xfdff ∨ 0xfe80 <= s <= 0xfebf).
Proof.
  intros [Hlen Hs]. unfold is_blocked_ipv6, v6_is_loopback, v6_is_unspecified.
  destruct (v6_segments ip) as [|s rest] eqn:Hseg; [done|]. cbn [lookup list_lookup default from_option id].
  apply list.Forall_cons in Hs as [Hs _]. destruct (land_v6 s Hs) as [-> ->].
  destruct (bool_decide (s :: rest = [0; 0; 0; 0; 0; 0; 0; 1])) eqn:H1;
    [apply bool_decide_eq_true in H1; naive_solver|].
  destruct (bool_decide (s :: rest = [0; 0; 0; 0; 0; 0; 0; 0])) eqn:H2;
    [apply bool_decide_eq_true in H2; naive_solver|].
  apply bool_decide_eq_false in H1, H2. cbn [orb].
  assert (∀ b c : bool, (if b then true else if c then true else false) = b || c) as Hif by (by intros [] []).
  rewrite Hif, orb_true_iff, !andb_true_iff, !Z.leb_le. split.
  - intros [H|H]; right; right; exists s, rest; (split; [done|lia]).
  - intros [H|[H|(s' & rest' & [= <- <-] & H)]]; [done..|]. lia.
Qed.

Lemma blocked_ip_exact ip : ip_wf ip → is_blocked_ip ip = true ↔ must_block ip.
Proof.
  destruct ip as [v4|v6]; simpl; intros Hwf; [by apply blocked_v4_exact|].
  destruct (to_ipv4_mapped v6) as [v4|] eqn:Hm.
  - by apply blocked_v4_exact, (mapped_wf v6).
  - by apply blocked_v6_exact.
Qed.

Lemma check_all_ok addrs : check_all addrs = Ok tt ↔ Forall (λ ip, is_blocked_ip ip = false) addrs.
Proof.
  induction addrs as [|ip addrs IH]; simpl; [done|]. unfold check_ip. rewrite list.Forall_cons.
  destruct (is_blocked_ip ip); [naive_solver|]. rewrite IH. naive_solver.
Qed.

(** ** Properties *)

(** Octet and mask tests are the address ranges.  For every well-formed
    address the guard's tests block exactly the listed ranges: for IPv4
    loopback, the three private ranges, link-local (cloud metadata included),
    carrier-grade NAT, the unspecified and the broadcast address; for an
    IPv4-mapped IPv6 address the ranges of the address it maps to; for other
    IPv6 addresses the unspecified address, loopback, unique-local and
    link-local. *)
Theorem blocked_ip_is_range_membership ip :
  ip_wf ip → is_blocked_ip ip = true ↔ must_block ip.
Proof. apply blocked_ip_exact. Qed.

Lemma blocked_ip_is_range_membership_witness :
  must_block (V4 {| v4_a := 169; v4_b := 254; v4_c := 169; v4_d := 254 |}).
Proof.
  apply (proj1 (blocked_ip_is_range_membership (V4 {| v4_a := 169; v4_b := 254; v4_c := 169; v4_d := 254 |})
    ltac:(unfold ip_wf, v4_wf, octet; simpl; lia))).
  reflexivity.
Defined.

Section GuardTheorem.
Context (url_parse : string → Result Url string)
        (resolve : string → Z → option (list IpAddr)).

(** An accepted callback URL cannot reach a blocked target.  Whatever the
    URL parser and the resolver answer, an accepted URL is [https], carries
    no credentials, has a host that is not a blocked name, and the literal
    address of the host, or else every address the host resolved to (at
    least one), lies outside the blocked ranges. *)
Theorem accepted_callback_is_public raw :
  (∀ host port addrs, resolve host port = Some addrs → Forall ip_wf addrs) →
  validate_callback_url url_parse resolve raw = Ok tt →
  ∃ url host, url_parse (trim raw) = Ok url ∧ url_scheme url = "https" ∧
    url_username url = "" ∧ url_password url = None ∧ url_host_str url = Some host ∧
    is_blocked_hostname host = false ∧
    match Net.ip_parse host with
    | Some ip => ¬ must_block ip
    | None => ∃ addrs, resolve host (default 443 (url_port_or_known_default url)) = Some addrs ∧
              addrs ≠ [] ∧ Forall (λ ip, ¬ must_block ip) addrs
    end.
Proof.
  intros Hres. unfold validate_callback_url.
  destruct (is_empty (trim raw)); [done|].
  destruct (url_parse (trim raw)) as [url|e]; [|done].
  destruct (url_scheme url == "https") eqn:Hs; [|done]. simpl. str_eq.
  destruct (url_username url) as [|? ?] eqn:Hu; simpl; [|done].
  destruct (url_password url) as [?|] eqn:Hp; simpl; [done|].
  destruct (url_host_str url) as [host|] eqn:Hh; [|done].
  destruct (is_blocked_hostname host) eqn:Hb; [done|]. intros H.
  exists url, host. do 6 (split; [done|]).
  destruct (Net.ip_parse host) as [ip|] eqn:Hi.
  - rewrite <- blocked_ip_exact by (by eapply Net.ip_parse_wf). unfold check_ip in H. by destruct (is_blocked_ip ip).
  - destruct (resolve host _) as [addrs|] eqn:Hr; [|done].
    destruct (bool_decide (addrs = [])) eqn:He; [done|]. apply bool_decide_eq_false in He.
    apply check_all_ok in H. exists addrs. split; [done|]. split; [done|].
    specialize (Hres _ _ _ Hr). clear -H Hres.
    induction addrs as [|ip addrs IH]; [constructor|].
    apply list.Forall_cons in H as [H ?], Hres as [Hw ?]. constructor; [|by apply IH].
    rewrite <- blocked_ip_exact by done. by rewrite H.
Qed.
End GuardTheorem.

Definition public_ip : IpAddr := V4 {| v4_a := 93; v4_b := 184; v4_c := 216; v4_d := 34 |}.
Definition sample_url : Url :=
  {| url_scheme := "https"; url_username := ""; url_password := None;
     url_host_str := Some "example.com"; url_port_or_known_default := Some 443 |}.

Lemma accepted_callback_is_public_witness :
  validate_callback_url (λ _, Ok sample_url) (λ _ _, Some [public_ip]) "https://example.com"
    = Ok tt ∧
  ∃ addrs, Some [public_ip] = Some addrs ∧ addrs ≠ [] ∧ Forall (λ ip, ¬ must_block ip) addrs.
Proof.
  assert (validate_callback_url (λ _, Ok sample_url) (λ _ _, Some [public_ip])
    "https://example.com" = Ok tt) as H by reflexivity.
  split; [exact H|].
  destruct (accepted_callback_is_public (λ _, Ok sample_url) (λ _ _, Some [public_ip])
    "https://example.com") as (url & host & Hu & _ & _ & _ & Hh & _ & Hx).
  - intros ? ? ? [= <-]. repeat constructor; unfold octet; simpl; lia.
  - exact H.
  - injection Hu as <-. injection Hh as <-. exact Hx.
Defined.
End Ssrf.
