(* ===== verification/Egress.v ===== *)
(** * The egress policy

    Models the crate [src/lib/egress]: the label trie of [domain_trie.rs], the
    CIDR set of [cidr.rs], the rules of [rule.rs] and [EgressPolicy] of
    [policy.rs].  The [ipnet] crate is a parameter: a type of networks and
    their [contains] test.  A trie node is the record the source has, its
    [HashMap] of children a finite map nested in the type of nodes. *)

From S2P Require Import Prelude RustString Net Ssrf.

(** ** The trie *)

Inductive TrieNode : Type :=
| mkTrieNode (children : gmap string TrieNode) (terminal : bool).

Definition children (n : TrieNode) : gmap string TrieNode :=
  match n with mkTrieNode c _ => c end.
Definition terminal (n : TrieNode) : bool := match n with mkTrieNode _ t => t end.

Module DomainSuffixTrie.

(** [DomainSuffixTrie::new()]: [TrieNode::default()] *)
Definition new : TrieNode := mkTrieNode ∅ false.

Definition normalized (domain : string) : string :=
  to_ascii_lowercase (trim_end_byte "." domain).

(** [rsplit('.')] gives the labels last first. *)
Definition reversed_labels (domain : string) : list string :=
  reverse (split_on "." (normalized domain)).

(** The loop of [insert]: [entry(label).or_default()] per label, then the last
    node is marked. *)
Fixpoint insert_labels (labels : list string) (node : TrieNode) : TrieNode :=
  match labels with
  | [] => mkTrieNode (children node) true
  | label :: rest =>
      let child := default new (children node !! label) in
      mkTrieNode (<[label := insert_labels rest child]> (children node)) (terminal node)
  end.

Definition insert (trie : TrieNode) (domain : string) : TrieNode :=
  insert_labels (reversed_labels domain) trie.

(** The loop of [matches], which returns at the first marked node. *)
Fixpoint matches_labels (labels : list string) (node : TrieNode) : bool :=
  match labels with
  | [] => false
  | label :: rest =>
      match children node !! label with
      | Some next => if terminal next then true else matches_labels rest next
      | None => false
      end
  end.

Definition matches (trie : TrieNode) (domain : string) : bool :=
  matches_labels (reversed_labels domain) trie.

(** *** What a trie holds

    [marked path node]: the walk along [path] ends in a marked node. *)
Fixpoint marked (path : list string) (node : TrieNode) : bool :=
  match path with
  | [] => terminal node
  | label :: rest =>
      match children node !! label with Some next => marked rest next | None => false end
  end.

Lemma marked_new path : marked path new = false.
Proof. destruct path; [done|]. simpl. by rewrite lookup_empty. Qed.

Lemma marked_insert path labels node :
  marked path (insert_labels labels node) = bool_decide (path = labels) || marked path node.
Proof.
  revert path node. induction labels as [|l ls IH]; intros [|p ps] [ch tm]; simpl; try done.
  destruct (decide (p = l)) as [->|Hne].
  - rewrite lookup_insert_eq, IH. destruct (ch !! l) as [next|] eqn:Hl; simpl.
    + f_equal. apply bool_decide_ext. naive_solver.
    + rewrite marked_new, orb_false_r. rewrite orb_false_r. apply bool_decide_ext. naive_solver.
  - rewrite lookup_insert_ne by done. rewrite (bool_decide_false (p :: ps = l :: ls)) by congruence.
    done.
Qed.

Lemma matches_labels_marked labels node :
  matches_labels labels node = true ↔
  ∃ path, path ≠ [] ∧ path `prefix_of` labels ∧ marked path node = true.
Proof.
  revert node. induction labels as [|l ls IH]; intros node; simpl.
  - split; [done|]. intros (path & Hne & Hp%prefix_nil_inv & _). done.
  - destruct (children node !! l) as [next|] eqn:Hl.
    + destruct (terminal next) eqn:Ht.
      * split; [|done]. intros _. exists [l]. split; [done|].
        split; [apply prefix_cons, prefix_nil|]. simpl. by rewrite Hl.
      * rewrite IH. split.
        -- intros (path & Hne & Hp & Hm). exists (l :: path).
           split; [done|]. split; [by apply prefix_cons|]. simpl. by rewrite Hl.
        -- intros ([|p path] & Hne & Hp & Hm); [done|].
           apply prefix_cons_inv_1 in Hp as Heq. apply prefix_cons_inv_2 in Hp. subst p.
           simpl in Hm. rewrite Hl in Hm. exists path. split; [|done].
           intros ->. simpl in Hm. congruence.
    + split; [done|]. intros ([|p path] & Hne & Hp & Hm); [done|].
      apply prefix_cons_inv_1 in Hp as Heq. subst p. simpl in Hm. by rewrite Hl in Hm.
Qed.

Lemma reversed_labels_ne domain : reversed_labels domain ≠ [].
Proof.
  unfold reversed_labels. destruct (split_on_cons "." (normalized domain)) as (w & ws & ->).
  intros H%(f_equal length). rewrite length_reverse in H. done.
Qed.

(** A trie built by insertions matches a name whose labels start, from the
    top-level domain, with the labels of an inserted one. *)
Lemma matches_inserted ds domain :
  matches (foldl insert new ds) domain = true ↔
  ∃ d, d ∈ ds ∧ reversed_labels d `prefix_of` reversed_labels domain.
Proof.
  assert (∀ trie path, marked path (foldl insert trie ds) =
    existsb (λ d, bool_decide (path = reversed_labels d)) ds || marked path trie) as Hall.
  { induction ds as [|d ds IH]; intros trie path; simpl; [done|].
    rewrite IH. unfold insert at 1. rewrite marked_insert.
    by rewrite orb_assoc, (orb_comm (existsb _ _)). }
  unfold matches. rewrite matches_labels_marked. split.
  - intros (path & _ & Hp & Hm). rewrite Hall, marked_new, orb_false_r in Hm.
    apply existsb_exists in Hm as (d & Hd & ->%bool_decide_eq_true_1).
    exists d. split; [by apply list_elem_of_In|done].
  - intros (d & Hd & Hp). exists (reversed_labels d). split; [apply reversed_labels_ne|].
    split; [done|]. rewrite Hall. apply orb_true_iff. left. apply existsb_exists.
    exists d. split; [by apply list_elem_of_In|]. by apply bool_decide_eq_true_2.
Qed.
End DomainSuffixTrie.

(** ** Rules and the policy *)

Inductive RuleAction := Allow | Deny.
#[export] Instance RuleAction_eq_dec : EqDecision RuleAction.
Proof. solve_decision. Defined.

Inductive EgressDestination :=
| Domain (name : string)
| Ip (ip : IpAddr).

Inductive RuleMatcher (IpNet : Type) :=
| DomainSuffix (domain : string)
| Cidr (net : IpNet).
Arguments DomainSuffix {IpNet} domain.
Arguments Cidr {IpNet} net.

Record EgressRule (IpNet : Type) := {
  er_action : RuleAction;
  er_matcher : RuleMatcher IpNet }.
Arguments er_action {IpNet} _.
Arguments er_matcher {IpNet} _.

Inductive EgressDecision := EgressAllow | EgressDeny.
#[export] Instance EgressDecision_eq_dec : EqDecision EgressDecision.
Proof. solve_decision. Defined.

Module Egress.
Section Policy.
Context {IpNet : Type} (contains : IpNet → IpAddr → bool).

(** [CidrSet]: the networks in the order they were inserted. *)
Abbreviation CidrSet := (list IpNet).
Definition cidr_insert (set : CidrSet) (net : IpNet) : CidrSet := set ++ [net].
Definition cidr_matches (set : CidrSet) (ip : IpAddr) : bool :=
  existsb (λ net, contains net ip) set.

Record CompiledRuleSet := {
  allow_domains : TrieNode;
  deny_domains : TrieNode;
  allow_cidrs : CidrSet;
  deny_cidrs : CidrSet }.

Definition default_set : CompiledRuleSet :=
  {| allow_domains := DomainSuffixTrie.new; deny_domains := DomainSuffixTrie.new;
     allow_cidrs := []; deny_cidrs := [] |}.

(** The body of the loop of [compile]. *)
Definition add_rule (s : CompiledRuleSet) (r : EgressRule IpNet) : CompiledRuleSet :=
  match er_action r, er_matcher r with
  | Allow, DomainSuffix d =>
      {| allow_domains := DomainSuffixTrie.insert (allow_domains s) d;
         deny_domains := deny_domains s; allow_cidrs := allow_cidrs s; deny_cidrs := deny_cidrs s |}
  | Deny, DomainSuffix d =>
      {| allow_domains := allow_domains s;
         deny_domains := DomainSuffixTrie.insert (deny_domains s) d;
         allow_cidrs := allow_cidrs s; deny_cidrs := deny_cidrs s |}
  | Allow, Cidr n =>
      {| allow_domains := allow_domains s; deny_domains := deny_domains s;
         allow_cidrs := cidr_insert (allow_cidrs s) n; deny_cidrs := deny_cidrs s |}
  | Deny, Cidr n =>
      {| allow_domains := allow_domains s; deny_domains := deny_domains s;
         allow_cidrs := allow_cidrs s; deny_cidrs := cidr_insert (deny_cidrs s) n |}
  end.

Definition compile (rules : list (EgressRule IpNet)) : CompiledRuleSet :=
  foldl add_rule default_set rules.

Definition set_denies (s : CompiledRuleSet) (destination : EgressDestination) : bool :=
  match destination with
  | Domain d => DomainSuffixTrie.matches (deny_domains s) d
  | Ip ip => cidr_matches (deny_cidrs s) ip
  end.

Definition set_allows (s : CompiledRuleSet) (destination : EgressDestination) : bool :=
  match destination with
  | Domain d => DomainSuffixTrie.matches (allow_domains s) d
  | Ip ip => cidr_matches (allow_cidrs s) ip
  end.

Record EgressPolicy := {
  deny_by_default : bool;
  tenant_rules : CompiledRuleSet;
  run_rules : CompiledRuleSet }.

Definition policy_new (deny_default : bool) (tenant run : list (EgressRule IpNet)) : EgressPolicy :=
  {| deny_by_default := deny_default; tenant_rules := compile tenant; run_rules := compile run |}.

Definition check (p : EgressPolicy) (destination : EgressDestination) : EgressDecision :=
  if set_denies (tenant_rules p) destination || set_denies (run_rules p) destination then EgressDeny
  else if set_allows (tenant_rules p) destination || set_allows (run_rules p) destination
  then EgressAllow
  else if deny_by_default p then EgressDeny else EgressAllow.

(** *** The rules as a specification

    A name is within a domain when, letter case and trailing dots aside, it is
    the domain or ends in a dot and the domain. *)
Definition within (domain name : string) : Prop :=
  let d := DomainSuffixTrie.normalized domain in
  let n := DomainSuffixTrie.normalized name in
  n = d ∨ ∃ p, n = p +:+ String "." d.

Definition covers (m : RuleMatcher IpNet) (destination : EgressDestination) : Prop :=
  match m, destination with
  | DomainSuffix d, Domain name => within d name
  | Cidr net, Ip ip => contains net ip = true
  | _, _ => False
  end.

Definition ruled (action : RuleAction) (rules : list (EgressRule IpNet))
    (destination : EgressDestination) : Prop :=
  ∃ r, r ∈ rules ∧ er_action r = action ∧ covers (er_matcher r) destination.

Lemma matches_within ds name :
  DomainSuffixTrie.matches (foldl DomainSuffixTrie.insert DomainSuffixTrie.new ds) name = true ↔
  ∃ d, d ∈ ds ∧ within d name.
Proof.
  rewrite DomainSuffixTrie.matches_inserted. unfold within, DomainSuffixTrie.reversed_labels.
  setoid_rewrite <- split_suffix.
  by setoid_rewrite <- suffix_prefix_reverse.
Qed.

(** The domains and networks of the rules of one action, in rule order. *)
Definition domains_of (action : RuleAction) (rules : list (EgressRule IpNet)) : list string :=
  omap (λ r, if decide (er_action r = action)
             then match er_matcher r with DomainSuffix d => Some d | _ => None end
             else None) rules.

Definition nets_of (action : RuleAction) (rules : list (EgressRule IpNet)) : list IpNet :=
  omap (λ r, if decide (er_action r = action)
             then match er_matcher r with Cidr n => Some n | _ => None end
             else None) rules.

Lemma foldl_add_rule rules s :
  foldl add_rule s rules =
  {| allow_domains := foldl DomainSuffixTrie.insert (allow_domains s) (domains_of Allow rules);
     deny_domains := foldl DomainSuffixTrie.insert (deny_domains s) (domains_of Deny rules);
     allow_cidrs := allow_cidrs s ++ nets_of Allow rules;
     deny_cidrs := deny_cidrs s ++ nets_of Deny rules |}.
Proof.
  revert s. induction rules as [|r rules IH]; intros s; simpl.
  - rewrite !app_nil_r. by destruct s.
  - rewrite IH. unfold domains_of, nets_of, add_rule, cidr_insert.
    destruct (er_action r), (er_matcher r); simpl; by rewrite <- ?app_assoc.
Qed.

Lemma ruled_domain action rules name :
  ruled action rules (Domain name) ↔ ∃ d, d ∈ domains_of action rules ∧ within d name.
Proof.
  unfold ruled, domains_of. setoid_rewrite list_elem_of_omap. split.
  - intros (r & Hr & Ha & Hc). destruct (er_matcher r) as [d|] eqn:Hm; [|done].
    exists d. split; [|done]. exists r. split; [done|]. by rewrite decide_True, Hm.
  - intros (d & (r & Hr & Hd) & Hw). exists r. case_decide; [|done].
    destruct (er_matcher r); simplify_eq. done.
Qed.

Lemma ruled_ip action rules ip :
  ruled action rules (Ip ip) ↔ ∃ n, n ∈ nets_of action rules ∧ contains n ip = true.
Proof.
  unfold ruled, nets_of. setoid_rewrite list_elem_of_omap. split.
  - intros (r & Hr & Ha & Hc). destruct (er_matcher r) as [|n] eqn:Hm; [done|].
    exists n. split; [|done]. exists r. split; [done|]. by rewrite decide_True, Hm.
  - intros (n & (r & Hr & Hd) & Hw). exists r. case_decide; [|done].
    destruct (er_matcher r); simplify_eq. done.
Qed.

Lemma cidr_matches_spec nets ip :
  cidr_matches nets ip = true ↔ ∃ n, n ∈ nets ∧ contains n ip = true.
Proof.
  unfold cidr_matches. rewrite existsb_exists. by setoid_rewrite list_elem_of_In.
Qed.

Lemma compile_denies rules destination :
  set_denies (compile rules) destination = true ↔ ruled Deny rules destination.
Proof.
  unfold compile. rewrite foldl_add_rule. destruct destination as [name|ip]; simpl.
  - by rewrite ruled_domain, matches_within.
  - by rewrite ruled_ip, cidr_matches_spec.
Qed.

Lemma compile_allows rules destination :
  set_allows (compile rules) destination = true ↔ ruled Allow rules destination.
Proof.
  unfold compile. rewrite foldl_add_rule. destruct destination as [name|ip]; simpl.
  - by rewrite ruled_domain, matches_within.
  - by rewrite ruled_ip, cidr_matches_spec.
Qed.

Lemma ruled_app action rules rules' destination :
  ruled action (rules ++ rules') destination ↔
  ruled action rules destination ∨ ruled action rules' destination.
Proof. unfold ruled. setoid_rewrite elem_of_app. naive_solver. Qed.

Lemma check_cases deny_default tenant run destination :
  check (policy_new deny_default tenant run) destination = EgressDeny ↔
  ruled Deny (tenant ++ run) destination ∨
  deny_default = true ∧ ¬ ruled Allow (tenant ++ run) destination.
Proof.
  unfold check, policy_new. simpl.
  rewrite !ruled_app, <- !compile_denies, <- !compile_allows.
  destruct (set_denies (compile tenant) _), (set_denies (compile run) _),
    (set_allows (compile tenant) _), (set_allows (compile run) _), deny_default;
    simpl; naive_solver.
Qed.

Lemma check_allow deny_default tenant run destination :
  check (policy_new deny_default tenant run) destination = EgressAllow →
  ¬ ruled Deny (tenant ++ run) destination ∧
  (deny_default = true → ruled Allow (tenant ++ run) destination).
Proof.
  intros Hc. assert (¬ check (policy_new deny_default tenant run) destination = EgressDeny) as Hn by congruence.
  rewrite check_cases in Hn. split; [tauto|]. intros Hd.
  destruct (set_allows (compile (tenant ++ run)) destination) eqn:Ha; [by apply compile_allows in Ha|].
  exfalso. apply Hn. right. split; [done|]. rewrite <- compile_allows. congruence.
Qed.

(** The egress decision is the rules. A destination is denied exactly when
    some rule of the tenant or of the run denies it, or nothing allows it and
    the policy denies by default; a domain rule covers a name exactly when,
    letter case and trailing dots aside, the name is the domain or ends in a
    dot and the domain, so neither [evilgithub.com] nor [github.com.evil.net]
    is covered by a rule for [github.com]. *)
Theorem egress_decision_is_the_rules deny_default tenant run destination :
  check (policy_new deny_default tenant run) destination = EgressDeny ↔
  ruled Deny (tenant ++ run) destination ∨
  deny_default = true ∧ ¬ ruled Allow (tenant ++ run) destination.
Proof. apply check_cases. Qed.
End Policy.
End Egress.
