(* ===== verification/Bans.v ===== *)
(** * Bans and quarantines in storage

    Models [src/lib/storage/src/db/agent_bans.rs] and
    [src/lib/storage/src/db/quarantine.rs]: each SQL statement as the function
    on the table's rows it denotes.  A table is the list of its rows in
    insertion order; [id] is the primary key, so an insert of an [id] that is
    there already fails, and an [UPDATE] changes every row its [WHERE] selects
    and reports how many there were. *)

From S2P Require Import Prelude RustString Models.

Record AgentBanRecord := {
  abr_id : string;
  abr_tenant_id : string;
  abr_target_type : string;
  abr_target_value : string;
  abr_scope : string;
  abr_reason : option string;
  abr_actor : string;
  abr_status : string;
  abr_created_at : DateTime;
  abr_expires_at : option DateTime;
  abr_revoked_at : option DateTime;
  abr_revoked_by : option string }.

Record QuarantineRecord := {
  qr_id : string;
  qr_tenant_id : string;
  qr_target_type : string;
  qr_target_value : string;
  qr_reason : option string;
  qr_actor : string;
  qr_status : string;
  qr_incident_id : option string;
  qr_created_at : DateTime;
  qr_released_at : option DateTime;
  qr_released_by : option string }.

(** [UPDATE]: the rows [sel] selects are replaced, and counted. *)
Definition update_rows {A} (sel : A → bool) (f : A → A) (rows : list A) : nat * list A :=
  (length (filter (λ r, sel r = true) rows), map (λ r, if sel r then f r else r) rows).

Module Bans.

(** [None]: the primary key is violated. *)
Definition insert_ban (rows : list AgentBanRecord) (b : AgentBanRecord) :
    option (list AgentBanRecord) :=
  if existsb (λ r, abr_id r == abr_id b) rows then None else Some (rows ++ [b]).

Definition unexpired (now : DateTime) (expires : option DateTime) : bool :=
  match expires with None => true | Some t => (now <? t)%Z end.

(** The [WHERE] clause of [is_banned]. *)
Definition active_ban (tenant_id target_type target_value : string) (now : DateTime)
    (r : AgentBanRecord) : bool :=
  (abr_tenant_id r == tenant_id) && (abr_target_type r == target_type) &&
  (abr_target_value r == target_value) && (abr_status r == "active") &&
  bool_decide (abr_revoked_at r = None) && unexpired now (abr_expires_at r).

Definition is_banned (rows : list AgentBanRecord) (tenant_id target_type target_value : string)
    (now : DateTime) : bool :=
  (0 <? length (filter (λ r, active_ban tenant_id target_type target_value now r = true) rows))%nat.

Definition get_ban (rows : list AgentBanRecord) (tenant_id id : string) : option AgentBanRecord :=
  head (filter (λ r, (abr_tenant_id r == tenant_id) && (abr_id r == id) = true) rows).

(** The [SET] clause of [revoke_ban]. *)
Definition revoked (revoked_by : string) (now : DateTime) (r : AgentBanRecord) : AgentBanRecord :=
  {| abr_id := abr_id r; abr_tenant_id := abr_tenant_id r; abr_target_type := abr_target_type r;
     abr_target_value := abr_target_value r; abr_scope := abr_scope r; abr_reason := abr_reason r;
     abr_actor := abr_actor r; abr_status := "revoked"; abr_created_at := abr_created_at r;
     abr_expires_at := abr_expires_at r; abr_revoked_at := Some now;
     abr_revoked_by := Some revoked_by |}.

Definition revoke_ban (rows : list AgentBanRecord) (tenant_id id revoked_by : string)
    (now : DateTime) : bool * list AgentBanRecord :=
  let '(n, rows') :=
    update_rows (λ r, (abr_tenant_id r == tenant_id) && (abr_id r == id) &&
                      (abr_status r == "active")) (revoked revoked_by now) rows in
  ((n =? 1)%nat, rows').
End Bans.

Module Quarantine.

Definition insert_quarantine (rows : list QuarantineRecord) (q : QuarantineRecord) :
    option (list QuarantineRecord) :=
  if existsb (λ r, qr_id r == qr_id q) rows then None else Some (rows ++ [q]).

Definition active_quarantine (tenant_id target_type target_value : string)
    (r : QuarantineRecord) : bool :=
  (qr_tenant_id r == tenant_id) && (qr_target_type r == target_type) &&
  (qr_target_value r == target_value) && (qr_status r == "active").

Definition is_quarantined (rows : list QuarantineRecord)
    (tenant_id target_type target_value : string) : bool :=
  (0 <? length (filter (λ r, active_quarantine tenant_id target_type target_value r = true)
                 rows))%nat.

Definition get_quarantine (rows : list QuarantineRecord) (tenant_id id : string) :
    option QuarantineRecord :=
  head (filter (λ r, (qr_tenant_id r == tenant_id) && (qr_id r == id) = true) rows).

Definition released (status released_by : string) (now : DateTime) (r : QuarantineRecord) :
    QuarantineRecord :=
  {| qr_id := qr_id r; qr_tenant_id := qr_tenant_id r; qr_target_type := qr_target_type r;
     qr_target_value := qr_target_value r; qr_reason := qr_reason r; qr_actor := qr_actor r;
     qr_status := status; qr_incident_id := qr_incident_id r; qr_created_at := qr_created_at r;
     qr_released_at := Some now; qr_released_by := Some released_by |}.

Definition release_quarantine (rows : list QuarantineRecord)
    (tenant_id id status released_by : string) (now : DateTime) : bool * list QuarantineRecord :=
  let '(n, rows') :=
    update_rows (λ r, (qr_tenant_id r == tenant_id) && (qr_id r == id) &&
                      (qr_status r == "active")) (released status released_by now) rows in
  ((n =? 1)%nat, rows').
End Quarantine.

(** ** What the tables answer *)

Lemma count_existsb {A} (f : A → bool) rows :
  (0 <? length (filter (λ r, f r = true) rows))%nat = existsb f rows.
Proof.
  induction rows as [|r rows IH]; [done|]. simpl. destruct (f r) eqn:Hf.
  - by rewrite list.filter_cons_True.
  - rewrite list.filter_cons_False by congruence. done.
Qed.

Lemma update_rows_app {A} (sel : A → bool) f rows rows' :
  update_rows sel f (rows ++ rows') =
  ((update_rows sel f rows).1 + (update_rows sel f rows').1,
   (update_rows sel f rows).2 ++ (update_rows sel f rows').2).
Proof. unfold update_rows. by rewrite list.filter_app, length_app, map_app. Qed.

Lemma update_rows_none {A} (sel : A → bool) f rows :
  existsb sel rows = false → update_rows sel f rows = (0, rows).
Proof.
  unfold update_rows. induction rows as [|r rows IH]; [done|].
  cbn [existsb]. intros [Hr Hrows]%orb_false_iff. specialize (IH Hrows). injection IH as Hn Hm.
  rewrite list.filter_cons_False by congruence. simpl. by rewrite Hr, Hn, Hm.
Qed.

(** When one row is selected, it alone is replaced. *)
Lemma update_rows_one {A} (sel : A → bool) f rows i x :
  rows !! i = Some x → sel x = true → (∀ j y, rows !! j = Some y → sel y = true → j = i) →
  (update_rows sel f rows).2 = <[i := f x]> rows.
Proof.
  intros Hi Hx Hone. apply list_eq. intros j. unfold update_rows. cbn [snd].
  rewrite list_lookup_fmap. destruct (decide (j = i)) as [->|Hj].
  - rewrite Hi, list_lookup_insert_eq by (by eapply lookup_lt_Some). simpl. by rewrite Hx.
  - rewrite list_lookup_insert_ne by done. destruct (rows !! j) as [y|] eqn:Hy; [|done]. simpl.
    destruct (sel y) eqn:Hs; [|done]. by destruct (Hj (Hone j y Hy Hs)).
Qed.

Section Lifecycle.
Context (rows rows1 : list AgentBanRecord) (b : AgentBanRecord).
Hypothesis Hins : Bans.insert_ban rows b = Some rows1.
Hypothesis Hactive : abr_status b = "active".
Hypothesis Hfresh : abr_revoked_at b = None.

Lemma inserted : rows1 = rows ++ [b] ∧ existsb (λ r, abr_id r == abr_id b) rows = false.
Proof using Hins.
  unfold Bans.insert_ban in Hins. destruct (existsb _ rows) eqn:He; simplify_eq. done.
Qed.

Lemma banned_after_insert tenant kind value now :
  Bans.is_banned rows1 tenant kind value now =
  Bans.is_banned rows tenant kind value now ||
  ((abr_tenant_id b == tenant) && (abr_target_type b == kind) && (abr_target_value b == value) &&
   Bans.unexpired now (abr_expires_at b)).
Proof using Hins Hactive Hfresh.
  destruct inserted as [-> _]. unfold Bans.is_banned. rewrite !count_existsb, existsb_app. simpl.
  rewrite orb_false_r. f_equal. unfold Bans.active_ban. rewrite Hactive, Hfresh.
  by rewrite bool_decide_eq_true_2, eqb_refl, !andb_true_r.
Qed.

(** The row the revocation selects is the inserted one. *)
Lemma selected_only tenant :
  existsb (λ r, (abr_tenant_id r == tenant) && (abr_id r == abr_id b) && (abr_status r == "active"))
    rows = false.
Proof using Hins.
  destruct inserted as [_ He]. clear Hins. induction rows as [|r l IH]; [done|].
  cbn [existsb] in *. apply orb_false_iff in He as [Hr Hl].
  by rewrite Hr, andb_false_r, (IH Hl).
Qed.

Lemma revoked_rows by_ at_ :
  Bans.revoke_ban rows1 (abr_tenant_id b) (abr_id b) by_ at_ =
  (true, rows ++ [Bans.revoked by_ at_ b]).
Proof using Hins Hactive.
  pose proof (selected_only (abr_tenant_id b)) as Hsel.
  destruct inserted as [-> _]. unfold Bans.revoke_ban.
  rewrite update_rows_app, (update_rows_none _ _ rows) by exact Hsel.
  unfold update_rows. cbn [map]. rewrite Hactive, !eqb_refl. cbn [andb].
  rewrite list.filter_cons_True; [done|]. by rewrite Hactive, !eqb_refl.
Qed.

Lemma banned_after_revoke by_ at_ tenant kind value now :
  Bans.is_banned (rows ++ [Bans.revoked by_ at_ b]) tenant kind value now =
  Bans.is_banned rows tenant kind value now.
Proof using Type.
  unfold Bans.is_banned. rewrite !count_existsb, existsb_app. simpl.
  unfold Bans.active_ban. simpl. by rewrite !andb_false_r, !orb_false_r.
Qed.
End Lifecycle.

(** The life of a ban. From the moment an active ban is stored, its tenant's
    lookups of exactly its target type and value answer [true] until the ban
    expires, and no other lookup changes; revoking it by its id succeeds and
    restores every lookup to what it was before the ban. A lookup compares the
    target value byte for byte. *)
Theorem ban_lifecycle_exact rows rows1 b revoked_by at_ :
  Bans.insert_ban rows b = Some rows1 → abr_status b = "active" → abr_revoked_at b = None →
  (∀ tenant kind value now,
     Bans.is_banned rows1 tenant kind value now =
     Bans.is_banned rows tenant kind value now ||
     ((abr_tenant_id b == tenant) && (abr_target_type b == kind) &&
      (abr_target_value b == value) && Bans.unexpired now (abr_expires_at b))) ∧
  (Bans.revoke_ban rows1 (abr_tenant_id b) (abr_id b) revoked_by at_).1 = true ∧
  ∀ tenant kind value now,
    Bans.is_banned (Bans.revoke_ban rows1 (abr_tenant_id b) (abr_id b) revoked_by at_).2
      tenant kind value now =
    Bans.is_banned rows tenant kind value now.
Proof.
  intros Hins Hactive Hfresh. split; [intros; by apply banned_after_insert|].
  rewrite (revoked_rows rows rows1 b) by done. split; [done|].
  intros. apply banned_after_revoke.
Qed.

Definition sample_ban : AgentBanRecord :=
  {| abr_id := "b1"; abr_tenant_id := "t1"; abr_target_type := "destination_domain";
     abr_target_value := "evil.com"; abr_scope := "tenant"; abr_reason := None;
     abr_actor := "soc"; abr_status := "active"; abr_created_at := 0%Z; abr_expires_at := Some 100%Z;
     abr_revoked_at := None; abr_revoked_by := None |}.

Lemma ban_lifecycle_exact_witness :
  Bans.insert_ban [] sample_ban = Some [sample_ban] ∧
  Bans.is_banned [sample_ban] "t1" "destination_domain" "evil.com" 99%Z = true ∧
  (Bans.revoke_ban [sample_ban] "t1" "b1" "soc" 50%Z).1 = true.
Proof.
  assert (Bans.insert_ban [] sample_ban = Some [sample_ban]) as Hins by reflexivity.
  destruct (ban_lifecycle_exact [] [sample_ban] sample_ban "soc" 50%Z Hins eq_refl eq_refl)
    as (Hb & Hr & _).
  split; [exact Hins|]. split; [by rewrite Hb|exact Hr].
Defined.
