(* ===== verification/Agents.v ===== *)
(** * Agents and their permissions in storage

    Models [src/lib/storage/src/db/agents.rs] (the [agents] table, the
    agent-to-tool and agent-to-MCP-server bindings) with the denial count and
    the tier update of [db/soc.rs] and [risk_escalation.rs], and the deletion of
    a tenant's agents by [delete_tenant_data] of [db/tenant.rs]: each SQL
    statement is the function on the table's rows it denotes.  A table is the list of its
    rows in insertion order.  The [agents] table has three unique constraints:
    the id, the key within a tenant and the token within a tenant; a fourth
    index makes a bound certificate name unique within a tenant. *)

From S2P Require Import Prelude RustString Models Records Bans.

(** A binding of [agent_tool_permissions] or [agent_mcp_server_permissions]:
    the two tables have the same columns, [tool_key] or [server_key]. *)
Record PermissionRecord := {
  pmr_id : string;
  pmr_tenant_id : string;
  pmr_agent_id : string;
  pmr_key : string;
  pmr_created_at : DateTime }.

Module Agents.
Section Agents.
(** SHA-256 in hexadecimal. *)
Context (hash_token : string → string).

Definition same_agent (tenant_id id : string) (r : AgentRecord) : bool :=
  (ar_tenant_id r == tenant_id) && (ar_id r == id).

Definition opt_eqb (a b : option string) : bool :=
  match a, b with Some x, Some y => x == y | _, _ => false end.

(** The unique constraints. *)
Definition clashes (a r : AgentRecord) : bool :=
  (ar_id r == ar_id a) ||
  (ar_tenant_id r == ar_tenant_id a) &&
  ((ar_agent_key r == ar_agent_key a) || (ar_agent_token r == ar_agent_token a) ||
   opt_eqb (ar_mtls_cn r) (ar_mtls_cn a)).

(** The columns the statement leaves out take their defaults.  [None]: a
    constraint is violated. *)
Definition insert_agent (rows : list AgentRecord) (a : AgentRecord) (now : DateTime) :
    option (list AgentRecord) :=
  if existsb (clashes a) rows then None
  else Some (rows ++ [{|
    ar_id := ar_id a; ar_tenant_id := ar_tenant_id a; ar_agent_key := ar_agent_key a;
    ar_agent_token := ar_agent_token a; ar_name := ar_name a; ar_owner_team := ar_owner_team a;
    ar_owner_email := ar_owner_email a; ar_environment := ar_environment a;
    ar_framework := ar_framework a; ar_model_provider := ar_model_provider a;
    ar_model_name := ar_model_name a; ar_purpose := ar_purpose a; ar_risk_tier := ar_risk_tier a;
    ar_status := ar_status a; ar_last_seen_at := None; ar_frozen_reason := None;
    ar_quarantined_at := None; ar_force_approval := false; ar_signing_key := ar_signing_key a;
    ar_allowed_environments := ar_allowed_environments a; ar_mtls_cn := ar_mtls_cn a;
    ar_created_at := now; ar_updated_at := now |}]).

(** ** Lookups *)

(** [status NOT IN ('quarantined', 'deleted')] *)
Definition resolvable (r : AgentRecord) : bool :=
  negb ((ar_status r == "quarantined") || (ar_status r == "deleted")).

Definition get_agent_by_token (rows : list AgentRecord) (tenant_id token : string) : option AgentRecord :=
  find (λ r, (ar_tenant_id r == tenant_id) && (ar_agent_token r == hash_token token) && resolvable r) rows.

Definition get_agent_by_mtls_cn (rows : list AgentRecord) (tenant_id cn : string) : option AgentRecord :=
  find (λ r, (ar_tenant_id r == tenant_id) && opt_eqb (ar_mtls_cn r) (Some cn) && resolvable r) rows.

Definition get_agent_by_key (rows : list AgentRecord) (tenant_id key : string) : option AgentRecord :=
  find (λ r, (ar_tenant_id r == tenant_id) && (ar_agent_key r == key)) rows.

Definition get_agent_by_id (rows : list AgentRecord) (tenant_id id : string) : option AgentRecord :=
  find (λ r, same_agent tenant_id id r && (ar_status r != "deleted")) rows.

Definition get_agent_by_id_any_status (rows : list AgentRecord) (tenant_id id : string) :
    option AgentRecord := find (same_agent tenant_id id) rows.

Definition is_agent_active (rows : list AgentRecord) (tenant_id id : string) : bool :=
  match find (same_agent tenant_id id) rows with Some r => ar_status r == "active" | None => false end.

(** ** Updates *)

(** The [SET] clause of [set_agent_status]. *)
Definition with_status (status : string) (now : DateTime) (r : AgentRecord) : AgentRecord := {|
  ar_id := ar_id r; ar_tenant_id := ar_tenant_id r; ar_agent_key := ar_agent_key r;
  ar_agent_token := ar_agent_token r; ar_name := ar_name r; ar_owner_team := ar_owner_team r;
  ar_owner_email := ar_owner_email r; ar_environment := ar_environment r;
  ar_framework := ar_framework r; ar_model_provider := ar_model_provider r;
  ar_model_name := ar_model_name r; ar_purpose := ar_purpose r; ar_risk_tier := ar_risk_tier r;
  ar_status := status; ar_last_seen_at := ar_last_seen_at r;
  ar_frozen_reason := if status == "frozen" then ar_frozen_reason r else None;
  ar_quarantined_at := if status == "quarantined" then Some now else None;
  ar_force_approval := ar_force_approval r; ar_signing_key := ar_signing_key r;
  ar_allowed_environments := ar_allowed_environments r; ar_mtls_cn := ar_mtls_cn r;
  ar_created_at := ar_created_at r; ar_updated_at := now |}.

Definition set_agent_status (rows : list AgentRecord) (tenant_id id status : string) (now : DateTime) :
    bool * list AgentRecord :=
  let '(n, rows') := update_rows (same_agent tenant_id id) (with_status status now) rows in
  ((0 <? n)%nat, rows').

(** One field replaced, or several. *)
Definition edited (r : AgentRecord) (token tier : string) (reason : option string)
    (force : bool) (seen : option DateTime) (updated : DateTime) : AgentRecord := {|
  ar_id := ar_id r; ar_tenant_id := ar_tenant_id r; ar_agent_key := ar_agent_key r;
  ar_agent_token := token; ar_name := ar_name r; ar_owner_team := ar_owner_team r;
  ar_owner_email := ar_owner_email r; ar_environment := ar_environment r;
  ar_framework := ar_framework r; ar_model_provider := ar_model_provider r;
  ar_model_name := ar_model_name r; ar_purpose := ar_purpose r; ar_risk_tier := tier;
  ar_status := ar_status r; ar_last_seen_at := seen; ar_frozen_reason := reason;
  ar_quarantined_at := ar_quarantined_at r; ar_force_approval := force;
  ar_signing_key := ar_signing_key r; ar_allowed_environments := ar_allowed_environments r;
  ar_mtls_cn := ar_mtls_cn r; ar_created_at := ar_created_at r; ar_updated_at := updated |}.

Definition set_agent_frozen_reason (rows : list AgentRecord) (tenant_id id : string)
    (reason : option string) : list AgentRecord :=
  (update_rows (same_agent tenant_id id)
     (λ r, edited r (ar_agent_token r) (ar_risk_tier r) reason (ar_force_approval r)
             (ar_last_seen_at r) (ar_updated_at r)) rows).2.

Definition set_agent_force_approval (rows : list AgentRecord) (tenant_id id : string) (value : bool) :
    list AgentRecord :=
  (update_rows (same_agent tenant_id id)
     (λ r, edited r (ar_agent_token r) (ar_risk_tier r) (ar_frozen_reason r) value
             (ar_last_seen_at r) (ar_updated_at r)) rows).2.

Definition touch_agent_last_seen (rows : list AgentRecord) (tenant_id id : string) (now : DateTime) :
    list AgentRecord :=
  (update_rows (same_agent tenant_id id)
     (λ r, edited r (ar_agent_token r) (ar_risk_tier r) (ar_frozen_reason r) (ar_force_approval r)
             (Some now) (ar_updated_at r)) rows).2.

Definition update_agent_risk_tier (rows : list AgentRecord) (tenant_id id new_tier : string) :
    list AgentRecord :=
  (update_rows (same_agent tenant_id id)
     (λ r, edited r (ar_agent_token r) new_tier (ar_frozen_reason r) (ar_force_approval r)
             (ar_last_seen_at r) (ar_updated_at r)) rows).2.

(** [None]: another agent of the tenant has this token. *)
Definition rotate_agent_token (rows : list AgentRecord) (tenant_id id new_token : string)
    (now : DateTime) : option (list AgentRecord) :=
  let hashed := hash_token new_token in
  if existsb (λ r, (ar_tenant_id r == tenant_id) && negb (ar_id r == id) &&
                   (ar_agent_token r == hashed)) rows &&
     existsb (same_agent tenant_id id) rows
  then None
  else Some (update_rows (same_agent tenant_id id)
     (λ r, edited r hashed (ar_risk_tier r) (ar_frozen_reason r) (ar_force_approval r)
             (ar_last_seen_at r) now) rows).2.

(** The [SET] clause of [update_agent]: every listed column, the status
    included, is the caller's. *)
Definition replaced (a : AgentRecord) (now : DateTime) (r : AgentRecord) : AgentRecord := {|
  ar_id := ar_id r; ar_tenant_id := ar_tenant_id r; ar_agent_key := ar_agent_key r;
  ar_agent_token := ar_agent_token r; ar_name := ar_name a; ar_owner_team := ar_owner_team a;
  ar_owner_email := ar_owner_email a; ar_environment := ar_environment a;
  ar_framework := ar_framework a; ar_model_provider := ar_model_provider a;
  ar_model_name := ar_model_name a; ar_purpose := ar_purpose a; ar_risk_tier := ar_risk_tier a;
  ar_status := ar_status a; ar_last_seen_at := ar_last_seen_at r;
  ar_frozen_reason := ar_frozen_reason r; ar_quarantined_at := ar_quarantined_at r;
  ar_force_approval := ar_force_approval r; ar_signing_key := ar_signing_key r;
  ar_allowed_environments := ar_allowed_environments r; ar_mtls_cn := ar_mtls_cn a;
  ar_created_at := ar_created_at r; ar_updated_at := now |}.

(** [None]: another agent of the tenant is bound to this certificate name. *)
Definition update_agent (rows : list AgentRecord) (a : AgentRecord) (now : DateTime) :
    option (list AgentRecord) :=
  if existsb (λ r, (ar_tenant_id r == ar_tenant_id a) && negb (ar_id r == ar_id a) &&
                   opt_eqb (ar_mtls_cn r) (ar_mtls_cn a)) rows &&
     existsb (same_agent (ar_tenant_id a) (ar_id a)) rows
  then None
  else Some (update_rows (same_agent (ar_tenant_id a) (ar_id a)) (replaced a now) rows).2.

(** ** Migration and deletion *)

(** [UPDATE agents SET agent_token = ? WHERE id = ?] of the hash of [token].
    [None]: another agent of the tenant has this token. *)
Definition migrate_token (rows : list AgentRecord) (id token : string) : option (list AgentRecord) :=
  let hashed := hash_token token in
  if existsb (λ r, (ar_id r == id) &&
       existsb (λ r', (ar_tenant_id r' == ar_tenant_id r) && negb (ar_id r' == id) &&
                      (ar_agent_token r' == hashed)) rows) rows
  then None
  else Some (update_rows (λ r, ar_id r == id)
     (λ r, edited r hashed (ar_risk_tier r) (ar_frozen_reason r) (ar_force_approval r)
             (ar_last_seen_at r) (ar_updated_at r)) rows).2.

(** [c.is_ascii_hexdigit()] of each of 64 bytes *)
Definition is_ascii_hexdigit (c : ascii) : bool :=
  let n := nat_of_ascii c in
  ((48 <=? n) && (n <=? 57) || (65 <=? n) && (n <=? 70) || (97 <=? n) && (n <=? 102))%nat.
Definition is_hash (token : string) : bool :=
  (String.length token =? 64)%nat && forallb is_ascii_hexdigit (String.list_ascii_of_string token).

(** The loop of [migrate_agent_tokens] over the rows it has selected; the first
    update that fails ends it. *)
Fixpoint migrate_rows (selected : list (string * string)) (rows : list AgentRecord) : bool * list AgentRecord :=
  match selected with
  | [] => (true, rows)
  | (id, token) :: rest =>
      if is_hash token then migrate_rows rest rows
      else match migrate_token rows id token with
           | Some rows' => migrate_rows rest rows'
           | None => (false, rows)
           end
  end.
Definition migrate_agent_tokens (rows : list AgentRecord) : bool * list AgentRecord :=
  migrate_rows (map (λ r, (ar_id r, ar_agent_token r)) rows) rows.

(** [DELETE FROM agents WHERE tenant_id = ?] of [delete_tenant_data] *)
Definition delete_tenant_agents (rows : list AgentRecord) (tenant_id : string) : list AgentRecord :=
  filter (λ r, ar_tenant_id r ≠ tenant_id) rows.
End Agents.
End Agents.

(** ** The bindings *)

Module Permissions.
Definition of_agent (tenant_id agent_id : string) (r : PermissionRecord) : bool :=
  (pmr_tenant_id r == tenant_id) && (pmr_agent_id r == agent_id).
Definition binding (tenant_id agent_id key : string) (r : PermissionRecord) : bool :=
  of_agent tenant_id agent_id r && (pmr_key r == key).

(** [INSERT OR IGNORE] followed by the lookup of the row. *)
Definition grant (rows : list PermissionRecord) (id tenant_id agent_id key : string)
    (now : DateTime) : list PermissionRecord :=
  if existsb (λ r, (pmr_id r == id) || binding tenant_id agent_id key r) rows then rows
  else rows ++ [{| pmr_id := id; pmr_tenant_id := tenant_id; pmr_agent_id := agent_id;
                   pmr_key := key; pmr_created_at := now |}].

Definition list_of (rows : list PermissionRecord) (tenant_id agent_id : string) :
    list PermissionRecord := filter (λ r, of_agent tenant_id agent_id r = true) rows.

(** [DELETE], with whether a row was there. *)
Definition revoke (rows : list PermissionRecord) (tenant_id agent_id key : string) :
    bool * list PermissionRecord :=
  (existsb (binding tenant_id agent_id key) rows,
   filter (λ r, binding tenant_id agent_id key r = false) rows).

(** [None]: the agent has no binding and is not restricted. *)
Definition permission_status (rows : list PermissionRecord) (tenant_id agent_id key : string) :
    option bool :=
  if (length (filter (λ r, of_agent tenant_id agent_id r = true) rows) =? 0)%nat then None
  else Some (0 <? length (filter (λ r, binding tenant_id agent_id key r = true) rows))%nat.

(** What the storage backend answers the decision path:
    [opt.unwrap_or(true)]. *)
Definition permitted (rows : list PermissionRecord) (tenant_id agent_id key : string) : bool :=
  default true (permission_status rows tenant_id agent_id key).
End Permissions.

(** ** Escalation *)

Module Escalation.
Definition escalate_tier (current : string) : option string :=
  if current == "low" then Some "medium" else if current == "medium" then Some "high" else None.

(** What [maybe_escalate_agent_risk_tier] does with the configuration and the
    count it reads: the tiers it returns and the table. *)
Definition maybe_escalate (rows : list AgentRecord) (tenant_id agent_id current_tier : string)
    (denial_threshold denial_count : Z) : option (string * string) * list AgentRecord :=
  if (denial_count <=? denial_threshold)%Z then (None, rows)
  else
    match escalate_tier current_tier with
    | None => (None, rows)
    | Some new_tier =>
        (Some (current_tier, new_tier), Agents.update_agent_risk_tier rows tenant_id agent_id new_tier)
    end.
End Escalation.

(** ** The table stays well formed *)

Module AgentTable.
Import Agents.
Section Table.
Context (hash_token : string → string).

(** The statements that change the table. *)
Inductive Stmt :=
| Insert (a : AgentRecord)
| SetStatus (tenant_id id status : string)
| SetFrozenReason (tenant_id id : string) (reason : option string)
| SetForceApproval (tenant_id id : string) (value : bool)
| Touch (tenant_id id : string)
| SetRiskTier (tenant_id id tier : string)
| RotateToken (tenant_id id token : string)
| Update (a : AgentRecord)
| MigrateToken (id token : string)
| DeleteTenantAgents (tenant_id : string).

(** [None]: the statement fails and changes nothing. *)
Definition exec (now : DateTime) (s : Stmt) (rows : list AgentRecord) : option (list AgentRecord) :=
  match s with
  | Insert a => insert_agent rows a now
  | SetStatus t i st => Some (set_agent_status rows t i st now).2
  | SetFrozenReason t i re => Some (set_agent_frozen_reason rows t i re)
  | SetForceApproval t i v => Some (set_agent_force_approval rows t i v)
  | Touch t i => Some (touch_agent_last_seen rows t i now)
  | SetRiskTier t i tier => Some (update_agent_risk_tier rows t i tier)
  | RotateToken t i tok => rotate_agent_token hash_token rows t i tok now
  | Update a => update_agent rows a now
  | MigrateToken i tok => migrate_token hash_token rows i tok
  | DeleteTenantAgents t => Some (delete_tenant_agents rows t)
  end.

(** No two rows share what must be unique. *)
Definition well_formed (rows : list AgentRecord) : Prop :=
  ∀ i j r s, rows !! i = Some r → rows !! j = Some s → clashes r s = true → i = j.

(** What no statement changes of a row. *)
Definition same_identity (r r' : AgentRecord) : Prop :=
  ar_id r' = ar_id r ∧ ar_tenant_id r' = ar_tenant_id r ∧ ar_agent_key r' = ar_agent_key r ∧
  ar_signing_key r' = ar_signing_key r ∧
  ar_allowed_environments r' = ar_allowed_environments r ∧ ar_created_at r' = ar_created_at r.

Lemma opt_eqb_spec a b : opt_eqb a b = true ↔ ∃ x, a = Some x ∧ b = Some x.
Proof. destruct a, b; simpl; rewrite ?eqb_spec_true; naive_solver. Qed.

Lemma same_agent_spec t i r : same_agent t i r = true ↔ ar_tenant_id r = t ∧ ar_id r = i.
Proof. unfold same_agent. by rewrite andb_true_iff, !eqb_spec_true. Qed.

Lemma clashes_spec a r :
  clashes a r = true ↔
  ar_id r = ar_id a ∨
  (ar_tenant_id r = ar_tenant_id a ∧
   (ar_agent_key r = ar_agent_key a ∨ ar_agent_token r = ar_agent_token a ∨
    ∃ cn, ar_mtls_cn r = Some cn ∧ ar_mtls_cn a = Some cn)).
Proof.
  unfold clashes. rewrite !orb_true_iff, andb_true_iff, !orb_true_iff, !eqb_spec_true, opt_eqb_spec.
  naive_solver.
Qed.

Lemma clashes_sym a r : clashes a r = true → clashes r a = true.
Proof. rewrite !clashes_spec. naive_solver. Qed.

Lemma same_agent_id t i r s : same_agent t i r = true → same_agent t i s = true → ar_id r = ar_id s.
Proof. intros [_ ->]%same_agent_spec [_ ->]%same_agent_spec. done. Qed.

(** An update of one agent's row keeps the table well formed when the new row
    clashes with no other. *)
Lemma update_well_formed rows sel (f : AgentRecord → AgentRecord) :
  (∀ r s, sel r = true → sel s = true → ar_id r = ar_id s) →
  well_formed rows →
  (∀ r, ar_id (f r) = ar_id r ∧ ar_tenant_id (f r) = ar_tenant_id r ∧
        ar_agent_key (f r) = ar_agent_key r) →
  (∀ r s, r ∈ rows → s ∈ rows → sel r = true → sel s = false →
     clashes (f r) s = true → clashes r s = true) →
  well_formed (update_rows sel f rows).2.
Proof.
  intros Hsel Hwf Hid Hnew j k r s. unfold update_rows. cbn [snd]. rewrite !list_lookup_fmap.
  intros (r0 & Hr0 & ->)%fmap_Some_1 (s0 & Hs0 & ->)%fmap_Some_1.
  destruct (sel r0) eqn:Er, (sel s0) eqn:Es; intros Hc.
  - apply (Hwf j k r0 s0); [done..|]. apply clashes_spec. left. symmetry. by apply Hsel.
  - apply (Hwf j k r0 s0); [done..|]. apply Hnew; eauto using list_elem_of_lookup_2.
  - apply (Hwf j k r0 s0); [done..|]. apply clashes_sym, Hnew; eauto using list_elem_of_lookup_2.
    by apply clashes_sym.
  - by apply (Hwf j k r0 s0).
Qed.

Lemma edited_clashes r s token tier reason force seen updated :
  token = ar_agent_token r → clashes (edited r token tier reason force seen updated) s = true →
  clashes r s = true.
Proof. intros ->. rewrite !clashes_spec. simpl. naive_solver. Qed.

Lemma insert_well_formed rows a now rows' :
  well_formed rows → insert_agent rows a now = Some rows' → well_formed rows'.
Proof.
  unfold insert_agent. intros Hwf. destruct (existsb _ _) eqn:He; [done|]. intros [= <-].
  assert (∀ r, r ∈ rows → clashes a r = false) as Hno.
  { intros r Hr. apply not_true_is_false. intros Hc.
    assert (existsb (clashes a) rows = true); [|congruence].
    apply existsb_exists. exists r. split; [by apply list_elem_of_In|done]. }
  set (b := Build_AgentRecord _ _ _ _ _ _ _ _ _ _ _ _ _ _ _ _ _ _ _ _ _ _ _).
  assert (∀ r, r ∈ rows → clashes b r = false) as Hno'.
  { intros r Hr. rewrite <- (Hno r Hr). done. }
  intros j k r s [[Hj Hr]|[-> <-]]%lookup_snoc_Some [[Hk Hs]|[-> <-]]%lookup_snoc_Some Hc; [|exfalso..|done].
  - by apply (Hwf j k r s).
  - apply clashes_sym in Hc. rewrite Hno' in Hc; [done|]. by eapply list_elem_of_lookup_2.
  - rewrite Hno' in Hc; [done|]. by eapply list_elem_of_lookup_2.
Qed.

Lemma rotate_well_formed rows t i token now rows' :
  well_formed rows → rotate_agent_token hash_token rows t i token now = Some rows' → well_formed rows'.
Proof.
  unfold rotate_agent_token. intros Hwf. destruct (_ && _) eqn:He; [done|]. intros [= <-].
  apply update_well_formed; [apply same_agent_id|done|done|]. intros r s Hr Hs Er Es. rewrite !clashes_spec. simpl.
  intros [?|(Ht & [?|[Htok|?]])]; [by left|by right; auto| |by right; auto]. exfalso.
  apply andb_false_iff in He as [He|He]; apply not_true_iff_false in He; apply He, existsb_exists.
  - exists s. pose proof Er as [<- _]%same_agent_spec.
    split; [by apply list_elem_of_In|]. rewrite !andb_true_iff, negb_true_iff, !eqb_spec_true, eqb_spec_false.
    split; [split; [done|]|done]. intros Hsi. apply not_true_iff_false in Es. apply Es.
    by apply same_agent_spec.
  - exists r. split; [by apply list_elem_of_In|done].
Qed.

Lemma update_agent_well_formed rows a now rows' :
  well_formed rows → update_agent rows a now = Some rows' → well_formed rows'.
Proof.
  unfold update_agent. intros Hwf. destruct (_ && _) eqn:He; [done|]. intros [= <-].
  apply update_well_formed; [apply same_agent_id|done|done|]. intros r s Hr Hs Er Es. rewrite !clashes_spec. simpl.
  intros [?|(Ht & [?|[?|(cn & Hcn & Ha)]])]; [by left|by right; auto..|]. exfalso.
  apply andb_false_iff in He as [He|He]; apply not_true_iff_false in He; apply He, existsb_exists.
  - exists s. pose proof Er as [Hrt Hri]%same_agent_spec.
    split; [by apply list_elem_of_In|]. rewrite !andb_true_iff, negb_true_iff, eqb_spec_true, eqb_spec_false.
    split; [split; [congruence|]|apply opt_eqb_spec; eauto]. intros Hsi.
    apply not_true_iff_false in Es. apply Es. apply same_agent_spec. split; congruence.
  - exists r. split; [by apply list_elem_of_In|done].
Qed.

Lemma migrate_well_formed rows id token rows' :
  well_formed rows → migrate_token hash_token rows id token = Some rows' → well_formed rows'.
Proof.
  unfold migrate_token. intros Hwf. destruct (existsb _ rows) eqn:He; [done|]. intros [= <-].
  apply update_well_formed; [|done|done|]; simpl.
  { intros r s ->%eqb_spec_true ->%eqb_spec_true. done. }
  intros r s Hr Hs Er Es. rewrite !clashes_spec. simpl.
  intros [?|(Ht & [?|[Htok|?]])]; [by left|by right; auto| |by right; auto]. exfalso.
  apply not_true_iff_false in He. apply He, existsb_exists. exists r. split; [by apply list_elem_of_In|].
  rewrite Er. apply existsb_exists. exists s. split; [by apply list_elem_of_In|].
  by rewrite Es, (proj2 (eqb_spec_true _ _) Ht), (proj2 (eqb_spec_true _ _) Htok).
Qed.

(** A row of a filtered list, and where it was. *)
Lemma filter_well_formed rows (P : AgentRecord → Prop) `{!∀ r, Decision (P r)} :
  well_formed rows → well_formed (filter P rows).
Proof.
  induction rows as [|r rows IH]; intros Hwf; [done|].
  assert (well_formed (filter P rows)) as Hrest.
  { apply IH. intros i j x y Hx Hy Hc. by apply Nat.succ_inj, (Hwf (S i) (S j) x y). }
  assert (∀ x, x ∈ filter P rows → clashes r x = false) as Hno.
  { intros x [_ [i Hi]%list_elem_of_lookup_1]%list_elem_of_filter. apply not_true_is_false. intros Hc.
    by specialize (Hwf 0%nat (S i) r x eq_refl Hi Hc). }
  destruct (decide (P r)); [rewrite list.filter_cons_True by done|by rewrite list.filter_cons_False by done].
  intros [|i] [|j] x y Hx Hy Hc; simplify_eq/=; [done| | |f_equal; by eapply Hrest].
  - apply list_elem_of_lookup_2 in Hy. by rewrite Hno in Hc.
  - apply list_elem_of_lookup_2 in Hx. apply clashes_sym in Hc. by rewrite Hno in Hc.
Qed.

(** The rows a statement leaves in the table *)
Definition remaining (s : Stmt) (rows : list AgentRecord) : list AgentRecord :=
  match s with DeleteTenantAgents t => filter (λ r, ar_tenant_id r ≠ t) rows | _ => rows end.

Lemma same_identity_refl rows : Forall2 same_identity rows rows.
Proof. induction rows; constructor; [by repeat split|done]. Qed.

(** No row is removed, and a row keeps its identity. *)
Lemma update_rows_identity rows sel (f : AgentRecord → AgentRecord) :
  (∀ r, same_identity r (f r)) → Forall2 same_identity rows (update_rows sel f rows).2.
Proof.
  intros Hf. unfold update_rows. cbn [snd]. induction rows as [|r rows IH]; simpl; [constructor|].
  constructor; [|done]. destruct (sel r); [done|]. by repeat split.
Qed.


(** The migration is a sequence of statements. *)
Lemma migrate_rows_well_formed selected rows :
  well_formed rows → well_formed (migrate_rows hash_token selected rows).2.
Proof.
  revert rows. induction selected as [|[id token] selected IH]; intros rows Hwf; simpl; [done|].
  destruct (is_hash token); [by apply IH|]. destruct (migrate_token _ _ _ _) as [rows'|] eqn:Hm; [|done].
  apply IH. by eapply migrate_well_formed.
Qed.

(** *** A status stays until it is set again *)

(** The agent has a row, and its status is this one. *)
Definition has_status (tenant_id id status : string) (rows : list AgentRecord) : Prop :=
  (∃ r, r ∈ rows ∧ same_agent tenant_id id r = true) ∧
  ∀ r, r ∈ rows → same_agent tenant_id id r = true → ar_status r = status.

(** The statement neither writes the status of this agent nor removes it. *)
Definition spares (tenant_id id : string) (s : Stmt) : bool :=
  match s with
  | SetStatus t i _ => negb ((t == tenant_id) && (i == id))
  | Update a => negb (same_agent tenant_id id a)
  | DeleteTenantAgents t => negb (t == tenant_id)
  | _ => true
  end.

(** Statements one after the other, those that fail skipped. *)
Fixpoint exec_all (l : list (DateTime * Stmt)) (rows : list AgentRecord) : list AgentRecord :=
  match l with
  | [] => rows
  | (now, s) :: l' => exec_all l' (default rows (exec now s rows))
  end.

Lemma update_has_status t i st rows sel (f : AgentRecord → AgentRecord) :
  (∀ r, ar_id (f r) = ar_id r ∧ ar_tenant_id (f r) = ar_tenant_id r) →
  (∀ r, sel r = true → same_agent t i r = true → ar_status (f r) = ar_status r) →
  has_status t i st rows → has_status t i st (update_rows sel f rows).2.
Proof.
  intros Hid Hst [(r & Hr & Hs) Hall]. unfold update_rows. cbn [snd].
  assert (∀ x, same_agent t i (if sel x then f x else x) = same_agent t i x) as Hsame.
  { intros x. unfold same_agent. destruct (sel x); [|done]. by destruct (Hid x) as [-> ->]. }
  split.
  - exists (if sel r then f r else r). rewrite Hsame. split; [|done]. apply list_elem_of_fmap. eauto.
  - intros y (x & -> & Hx)%list_elem_of_fmap. rewrite Hsame. intros Hx'.
    destruct (sel x) eqn:He; [rewrite Hst by done|]; by apply Hall.
Qed.

Lemma exec_has_status t i st now s rows rows' :
  has_status t i st rows → spares t i s = true → exec now s rows = Some rows' → has_status t i st rows'.
Proof.
  intros Hst Hsp Hs. destruct s as [a|t' i' st'| | | | | |a|i' token|t']; simpl in Hs, Hsp.
  - unfold insert_agent in Hs. destruct (existsb (clashes a) rows) eqn:He; [done|]. injection Hs as <-.
    destruct Hst as [(r & Hr & Hri) Hall]. split; [exists r; set_solver|].
    intros x [Hx| ->%list_elem_of_singleton]%elem_of_app Hxs; [by apply Hall|]. exfalso.
    apply not_true_iff_false in He. apply He, existsb_exists. exists r. split; [by apply list_elem_of_In|].
    apply clashes_spec. left. apply same_agent_spec in Hri as [_ ->], Hxs as [_ Hxi]. done.
  - injection Hs as <-. apply update_has_status; [done| |done]. intros r He Hr. exfalso.
    apply same_agent_spec in He as [<- <-], Hr as [<- <-]. by rewrite !String.eqb_refl in Hsp.
  - injection Hs as <-. by apply update_has_status.
  - injection Hs as <-. by apply update_has_status.
  - injection Hs as <-. by apply update_has_status.
  - injection Hs as <-. by apply update_has_status.
  - unfold rotate_agent_token in Hs. case_match; [done|]. injection Hs as <-. by apply update_has_status.
  - unfold update_agent in Hs. case_match; [done|]. injection Hs as <-.
    apply update_has_status; [done| |done]. intros r He Hr. exfalso.
    apply same_agent_spec in He as [Ha Hb], Hr as [<- <-].
    rewrite (proj2 (same_agent_spec _ _ a)) in Hsp; done.
  - unfold migrate_token in Hs. case_match; [done|]. injection Hs as <-. by apply update_has_status.
  - injection Hs as <-. apply negb_true_iff, eqb_spec_false in Hsp. destruct Hst as [(r & Hr & Hri) Hall]. split.
    + exists r. split; [|done]. apply list_elem_of_filter. split; [|done].
      apply same_agent_spec in Hri as [-> _]. congruence.
    + intros x [_ Hx]%list_elem_of_filter. by apply Hall.
Qed.

Lemma exec_all_has_status t i st l rows :
  has_status t i st rows → Forall (λ x, spares t i x.2 = true) l → has_status t i st (exec_all l rows).
Proof.
  intros Hst Hl. revert rows Hst. induction Hl as [|[now s] l Hs _ IH]; intros rows Hst; [done|].
  simpl. apply IH. destruct (exec now s rows) as [rows'|] eqn:He; [|done]. by eapply exec_has_status.
Qed.

Lemma set_status_has t i st now rows :
  (∃ r, r ∈ rows ∧ same_agent t i r = true) → has_status t i st (set_agent_status rows t i st now).2.
Proof.
  intros (r & Hr & Hs). unfold set_agent_status, update_rows. cbn [snd].
  assert (∀ x, same_agent t i (if same_agent t i x then with_status st now x else x) = same_agent t i x) as Hsame.
  { intros x. destruct (same_agent t i x) eqn:Hx; [|done]. exact Hx. }
  split.
  - exists (if same_agent t i r then with_status st now r else r). rewrite Hsame. split; [|done].
    apply list_elem_of_fmap. eauto.
  - intros y (x & -> & Hx)%list_elem_of_fmap. rewrite Hsame. intros ->. done.
Qed.
End Table.
End AgentTable.

Definition table_agent (id key token : string) : AgentRecord := {|
  ar_id := id; ar_tenant_id := "acme"; ar_agent_key := key; ar_agent_token := token;
  ar_name := key; ar_owner_team := None; ar_owner_email := None; ar_environment := "production";
  ar_framework := None; ar_model_provider := None; ar_model_name := None; ar_purpose := None;
  ar_risk_tier := "low"; ar_status := "active"; ar_last_seen_at := None; ar_frozen_reason := None;
  ar_quarantined_at := None; ar_force_approval := false; ar_signing_key := None;
  ar_allowed_environments := None; ar_mtls_cn := None; ar_created_at := 0%Z; ar_updated_at := 0%Z |}.


(** ** What grants and revocations do *)

Module PermissionRules.
Import Permissions.

Lemma binding_spec t a k r :
  binding t a k r = true ↔ of_agent t a r = true ∧ pmr_key r = k.
Proof. unfold binding. by rewrite andb_true_iff, eqb_spec_true. Qed.

(** The rule: an agent without bindings may use everything, one with bindings
    what it is bound to. *)
Lemma permitted_spec rows t a k :
  permitted rows t a k = true ↔
  (∀ r, r ∈ rows → of_agent t a r = false) ∨ (∃ r, r ∈ rows ∧ binding t a k r = true).
Proof.
  unfold permitted, permission_status.
  pose proof (count_existsb (of_agent t a) rows) as Ha.
  pose proof (count_existsb (binding t a k) rows) as Hb.
  destruct (length _) as [|n] eqn:Hn in |- *; simpl.
  - rewrite Hn in Ha. simpl in Ha. split; [intros _; left|done]. intros r Hr.
    apply not_true_is_false. intros Hr'. symmetry in Ha. apply not_true_iff_false in Ha.
    apply Ha, existsb_exists. exists r. split; [by apply list_elem_of_In|done].
  - rewrite Hn in Ha. simpl in Ha. rewrite Hb, existsb_exists. setoid_rewrite <- list_elem_of_In.
    split; [by right|]. intros [Hno|?]; [|done]. symmetry in Ha. apply existsb_exists in Ha as (r & Hr & Hr').
    apply list_elem_of_In in Hr. by rewrite Hno in Hr'.
Qed.

(** The effect of a grant and of a revocation on what an agent may use.
    After a grant of a fresh row the agent may use that key and the ones it was
    bound to before, so the first grant takes everything else away from it.
    After a revocation it may use the keys it is still bound to, and when the
    revoked binding was its only one it may use every key, the revoked one
    included. *)
Theorem permission_changes_exact rows t a k id now k' :
  (∀ r, r ∈ rows → pmr_id r ≠ id) →
  (permitted (grant rows id t a k now) t a k' = true ↔
     k' = k ∨ ∃ r, r ∈ rows ∧ binding t a k' r = true) ∧
  (permitted (revoke rows t a k).2 t a k' = true ↔
     (∀ r, r ∈ rows → of_agent t a r = true → pmr_key r = k) ∨
     (k' ≠ k ∧ ∃ r, r ∈ rows ∧ binding t a k' r = true)).
Proof.
  intros Hid. split.
  - rewrite permitted_spec. unfold grant. destruct (existsb _ _) eqn:He.
    + apply existsb_exists in He as (r & Hr & Hb). apply list_elem_of_In in Hr.
      apply orb_true_iff in Hb as [Hb|Hb]; [apply eqb_spec_true in Hb; by destruct (Hid r)|].
      pose proof Hb as [Ha Hk]%binding_spec. split.
      * intros [Hno|?]; [|by right]. by rewrite Hno in Ha.
      * intros [->|?]; right; eauto.
    + set (row := Build_PermissionRecord _ _ _ _ _).
      assert (of_agent t a row = true) as Hrow by (unfold of_agent; simpl; by rewrite !eqb_refl).
      setoid_rewrite elem_of_app. setoid_rewrite list_elem_of_singleton. split.
      * intros [Hno|(r & [Hr| ->] & Hb)]; [by rewrite (Hno row) in Hrow by auto|by right; eauto|].
        left. by apply binding_spec in Hb as [_ <-].
      * intros [->|(r & Hr & Hb)]; right; [|by eauto]. exists row. split; [by right|].
        apply binding_spec. by split.
  - rewrite permitted_spec. unfold revoke. cbn [snd]. setoid_rewrite list_elem_of_filter.
    setoid_rewrite binding_spec.
    split.
    + intros [Hno|(r & (Hnb & Hr) & Ha & <-)].
      * left. intros r Hr Ha. destruct (decide (pmr_key r = k)) as [|Hk]; [done|].
        rewrite Hno in Ha; [done|]. split; [|done]. apply not_true_is_false.
        by intros [_ ?]%binding_spec.
      * right. split; [|by exists r]. intros Hk. assert (binding t a k r = true); [|congruence].
        by apply binding_spec.
    + intros [Hall|(Hne & r & Hr & Ha & <-)].
      * left. intros r (Hnb & Hr). apply not_true_is_false. intros Ha.
        assert (binding t a k r = true); [|congruence]. apply binding_spec. auto.
      * right. exists r. split_and!; [|done..]. apply not_true_is_false. by intros [_ ?]%binding_spec.
Qed.

Definition only_binding : list PermissionRecord :=
  [{| pmr_id := "p1"; pmr_tenant_id := "acme"; pmr_agent_id := "a1"; pmr_key := "github"; pmr_created_at := 0%Z |}].

(** The only binding of the agent is revoked: it may use the shell. *)
Lemma permission_changes_exact_witness :
  permitted only_binding "acme" "a1" "shell" = false ∧
  permitted (revoke only_binding "acme" "a1" "github").2 "acme" "a1" "shell" = true.
Proof.
  split; [reflexivity|].
  apply (permission_changes_exact only_binding "acme" "a1" "github" "p2" 0%Z "shell").
  - intros r ->%list_elem_of_singleton. done.
  - left. intros r ->%list_elem_of_singleton. done.
Defined.
End PermissionRules.
