(* ===== verification/Receipts.v ===== *)
(** * The receipt chain

    Models the hash-chained action receipts: [receipt_body_value],
    [compute_receipt_hash], the atomic appends and the lookups of
    [src/lib/storage/src/db/receipts.rs] (with [append_action_receipt_atomic]
    of [sqlite.rs]), and the verification handlers of
    [src/src/src/routes/receipts.rs].

    The table is the list of its rows in [rowid] order; [id] is its primary
    key, and [created_at] is stamped by the database at the insert.  On SQLite an
    append runs in one [BEGIN IMMEDIATE] transaction, so it is one step; a
    statement that fails rolls it back, which is the argument [commits].  On
    Postgres the head is read without a lock: a transaction ([PgTx]) is a step per
    head it reads and one for its commit, and the steps of concurrent ones
    interleave ([pg_step]).  A listing
    ordered by [created_at] keeps rows of equal time in [rowid] order, as the
    index it reads does.  SHA-256, the JSON printer, the Ed25519 signer and
    verifier, and the database's comparison of a stored time with a bound
    ([at_least], [at_most]) are parameters. *)

From S2P Require Import Prelude RustString Canon Models Records.
From stdpp Require Import pretty sorting.

Record PendingReceiptAppend := { pa_tenant_id : string; pa_record : ActionReceiptRecord }.

(** [ReceiptSignBackend] *)
Record ReceiptSigner := {
  sign_hash : string → string;
  public_key_hex : string;
  key_id : option string }.

(** The answer of [verify_receipt]. *)
Record ReceiptReport := {
  rr_receipt_id : string;
  rr_verified : bool;
  rr_receipt_hash : string;
  rr_recomputed_hash : string;
  rr_prev_receipt_hash : string;
  rr_signed : bool;
  rr_signature_verified : option bool;
  rr_signer_public_key : option string;
  rr_signer_key_id : option string }.

(** The answer of the chain verification handlers: [verified] and [error]. *)
Record Verification := { vf_verified : bool; vf_error : option string }.

Definition opt_str (o : option string) : Canon.Value :=
  match o with Some s => Canon.Str s | None => Canon.Null end.

Module Receipts.
Section Chain.
Context (sha256_hex : string → string) (to_string : Canon.Value → option string)
        (signer : option ReceiptSigner)
        (at_least at_most : DateTime → DateTime → bool).

(** ** Hashes *)

Definition body_entries (rec : ActionReceiptRecord) : list (string * Canon.Value) :=
  [("event_id", Canon.Str (rct_id rec));
   ("ts", Canon.Str (rct_ts rec));
   ("agent_id", opt_str (rct_agent_id rec));
   ("user_id", opt_str (rct_user_id rec));
   ("run_id", opt_str (rct_run_id rec));
   ("trace_id", opt_str (rct_trace_id rec));
   ("tool", opt_str (rct_tool rec));
   ("action", opt_str (rct_action rec));
   ("resource", opt_str (rct_resource rec));
   ("source_trust", Canon.Str (rct_source_trust rec));
   ("decision", Canon.Str (rct_decision rec));
   ("approver", opt_str (rct_approver rec));
   ("action_hash", opt_str (rct_action_hash rec));
   ("prev_receipt_hash", Canon.Str (rct_prev_receipt_hash rec))].

Definition receipt_body_value (rec : ActionReceiptRecord) : Canon.Value :=
  Canon.Object (body_entries rec).

(** [canonical_value_string] of a [Value] *)
Definition canonical_string (v : Canon.Value) : string :=
  Canon.canonical_value_string Some to_string v.

Definition compute_receipt_hash (rec : ActionReceiptRecord) : string :=
  sha256_hex (canonical_string (receipt_body_value rec)).

Definition set_link (rec : ActionReceiptRecord) (prev hash : string)
    (signature public_key key : option string) : ActionReceiptRecord :=
  {| rct_id := rct_id rec; rct_tenant_id := rct_tenant_id rec;
     rct_decision_id := rct_decision_id rec; rct_ts := rct_ts rec;
     rct_agent_id := rct_agent_id rec; rct_user_id := rct_user_id rec;
     rct_run_id := rct_run_id rec; rct_trace_id := rct_trace_id rec; rct_tool := rct_tool rec;
     rct_action := rct_action rec; rct_resource := rct_resource rec;
     rct_source_trust := rct_source_trust rec; rct_decision := rct_decision rec;
     rct_approver := rct_approver rec; rct_action_hash := rct_action_hash rec;
     rct_prev_receipt_hash := prev; rct_receipt_hash := hash;
     rct_canon_version := rct_canon_version rec; rct_signature := signature;
     rct_signer_public_key := public_key; rct_signer_key_id := key;
     rct_created_at := rct_created_at rec |}.

(** The record after [prev_receipt_hash] and then [receipt_hash] were set, and
    the signature when there is a signer. *)
Definition finalize_receipt_link (rec : ActionReceiptRecord) (prev : string) : ActionReceiptRecord :=
  let linked := set_link rec prev (rct_receipt_hash rec) (rct_signature rec)
                  (rct_signer_public_key rec) (rct_signer_key_id rec) in
  let hash := compute_receipt_hash linked in
  match signer with
  | Some s => set_link rec prev hash (Some (sign_hash s hash)) (Some (public_key_hex s)) (key_id s)
  | None => set_link rec prev hash (rct_signature rec) (rct_signer_public_key rec)
              (rct_signer_key_id rec)
  end.

Fixpoint chain_receipts_from_head (records : list ActionReceiptRecord) (prev : string) :
    list ActionReceiptRecord :=
  match records with
  | [] => []
  | r :: rest =>
      let r' := finalize_receipt_link r prev in
      r' :: chain_receipts_from_head rest (rct_receipt_hash r')
  end.

(** ** The table *)

Definition of_tenant (tenant_id : string) (rows : list ActionReceiptRecord) :
    list ActionReceiptRecord :=
  filter (λ r, rct_tenant_id r = tenant_id) rows.

(** [SELECT receipt_hash ... ORDER BY rowid DESC LIMIT 1], [""] when there is none *)
Definition head_hash (rows : list ActionReceiptRecord) (tenant_id : string) : string :=
  default "" (rct_receipt_hash <$> list.last (of_tenant tenant_id rows)).

Definition get_latest_action_receipt (rows : list ActionReceiptRecord) (tenant_id : string) :
    option ActionReceiptRecord :=
  list.last (of_tenant tenant_id rows).

Definition get_action_receipt_by_id (rows : list ActionReceiptRecord) (tenant_id id : string) :
    option ActionReceiptRecord :=
  head (filter (λ r, rct_tenant_id r = tenant_id ∧ rct_id r = id) rows).

Definition stamp (now : DateTime) (r : ActionReceiptRecord) : ActionReceiptRecord :=
  {| rct_id := rct_id r; rct_tenant_id := rct_tenant_id r; rct_decision_id := rct_decision_id r;
     rct_ts := rct_ts r; rct_agent_id := rct_agent_id r; rct_user_id := rct_user_id r;
     rct_run_id := rct_run_id r; rct_trace_id := rct_trace_id r; rct_tool := rct_tool r;
     rct_action := rct_action r; rct_resource := rct_resource r;
     rct_source_trust := rct_source_trust r; rct_decision := rct_decision r;
     rct_approver := rct_approver r; rct_action_hash := rct_action_hash r;
     rct_prev_receipt_hash := rct_prev_receipt_hash r; rct_receipt_hash := rct_receipt_hash r;
     rct_canon_version := rct_canon_version r; rct_signature := rct_signature r;
     rct_signer_public_key := rct_signer_public_key r; rct_signer_key_id := rct_signer_key_id r;
     rct_created_at := now |}.

(** [INSERT] of several rows; [None]: the primary key is violated. *)
Fixpoint insert_rows (now : DateTime) (records rows : list ActionReceiptRecord) :
    option (list ActionReceiptRecord) :=
  match records with
  | [] => Some rows
  | r :: rest =>
      if existsb (λ r', rct_id r' == rct_id r) rows then None
      else insert_rows now rest (rows ++ [stamp now r])
  end.

Definition append_action_receipt_atomic (rows : list ActionReceiptRecord) (tenant_id : string)
    (record : ActionReceiptRecord) (now : DateTime) (commits : bool) :
    option ActionReceiptRecord * list ActionReceiptRecord :=
  let record := finalize_receipt_link record (head_hash rows tenant_id) in
  match insert_rows now [record] rows with
  | Some rows' => if commits then (Some record, rows') else (None, rows)
  | None => (None, rows)
  end.

(** [group_pending_by_tenant]: tenants in the order they first appear, each
    with its records in queue order. *)
Definition group_pending_by_tenant (pending : list PendingReceiptAppend) :
    list (string * list ActionReceiptRecord) :=
  let order := foldl (λ seen p, if bool_decide (pa_tenant_id p ∈ seen) then seen
                                else seen ++ [pa_tenant_id p]) [] pending in
  map (λ t, (t, map pa_record (filter (λ p, pa_tenant_id p = t) pending))) order.

(** One time stands for the batch: each group is a tenant of its own. *)
Fixpoint append_groups (now : DateTime) (groups : list (string * list ActionReceiptRecord))
    (rows : list ActionReceiptRecord) : option (list ActionReceiptRecord) :=
  match groups with
  | [] => Some rows
  | (tenant_id, records) :: rest =>
      rows' ← insert_rows now (chain_receipts_from_head records (head_hash rows tenant_id)) rows;
      append_groups now rest rows'
  end.

Definition append_action_receipts_batch_atomic (rows : list ActionReceiptRecord)
    (pending : list PendingReceiptAppend) (now : DateTime) (commits : bool) :
    bool * list ActionReceiptRecord :=
  match pending with
  | [] => (true, rows)
  | _ =>
      match append_groups now (group_pending_by_tenant pending) rows with
      | Some rows' => if commits then (true, rows') else (false, rows)
      | None => (false, rows)
      end
  end.

(** [delete_tenant_data] on the receipts *)
Definition delete_tenant_receipts (rows : list ActionReceiptRecord) (tenant_id : string) (commits : bool) :
    list ActionReceiptRecord :=
  if commits then filter (λ r, rct_tenant_id r ≠ tenant_id) rows else rows.

(** *** The Postgres branch

    A transaction reads the head of each of its tenants in turn, of the rows that
    are committed and its own, chains that tenant's records to it and inserts
    them; other transactions see the rows when it commits.  Rows of transactions
    that overlap are taken to have their [rowid]s in the order of the commits. *)
Record PgTx := {
  px_groups : list (string * list ActionReceiptRecord);
  px_written : list ActionReceiptRecord }.

(** [append_action_receipt_atomic] and [append_action_receipts_batch_atomic] when
    they begin *)
Definition pg_append (tenant_id : string) (record : ActionReceiptRecord) : PgTx :=
  {| px_groups := [(tenant_id, [record])]; px_written := [] |}.
Definition pg_batch (pending : list PendingReceiptAppend) : PgTx :=
  {| px_groups := group_pending_by_tenant pending; px_written := [] |}.

(** The next step of the transaction [i]; [tx.commit()] is the last. *)
Definition pg_step (now : DateTime) (st : list ActionReceiptRecord * list PgTx) (i : nat) :
    list ActionReceiptRecord * list PgTx :=
  match st.2 !! i with
  | None => st
  | Some tx =>
      match px_groups tx with
      | (tenant_id, records) :: rest =>
          let head := head_hash (st.1 ++ px_written tx) tenant_id in
          (st.1, <[i := {| px_groups := rest;
                           px_written := px_written tx ++ chain_receipts_from_head records head |}]> st.2)
      | [] => (default st.1 (insert_rows now (px_written tx) st.1), <[i := {| px_groups := []; px_written := [] |}]> st.2)
      end
  end.

Definition pg_run (now : DateTime) (schedule : list nat) (rows : list ActionReceiptRecord) (txs : list PgTx) :
    list ActionReceiptRecord :=
  (foldl (pg_step now) (rows, txs) schedule).1.

(** The rows of a tenant in a window, oldest first. *)
Fixpoint insert_by_time (r : ActionReceiptRecord) (l : list ActionReceiptRecord) :
    list ActionReceiptRecord :=
  match l with
  | [] => [r]
  | r' :: l' =>
      if (rct_created_at r <=? rct_created_at r')%Z then r :: l else r' :: insert_by_time r l'
  end.

Definition in_window (from to_ : option DateTime) (r : ActionReceiptRecord) : bool :=
  match from with None => true | Some f => at_least (rct_created_at r) f end &&
  match to_ with None => true | Some t => at_most (rct_created_at r) t end.

Definition list_action_receipts_in_range (rows : list ActionReceiptRecord) (tenant_id : string)
    (from to_ : option DateTime) : list ActionReceiptRecord :=
  foldr insert_by_time []
    (filter (λ r, in_window from to_ r = true) (of_tenant tenant_id rows)).

(** ** Verification *)

(** [None] is the 404; a failing lookup is a 500 and shows nothing. *)
Definition verify_receipt (verify_signature : string → string → string → bool)
    (rows : list ActionReceiptRecord) (tenant_id receipt_id : string) :
    option ReceiptReport :=
  rec ← get_action_receipt_by_id rows tenant_id receipt_id;
  let recomputed := compute_receipt_hash rec in
  Some {| rr_receipt_id := rct_id rec;
          rr_verified := recomputed == rct_receipt_hash rec;
          rr_receipt_hash := rct_receipt_hash rec;
          rr_recomputed_hash := recomputed;
          rr_prev_receipt_hash := rct_prev_receipt_hash rec;
          rr_signed := bool_decide (is_Some (rct_signature rec));
          rr_signature_verified :=
            match rct_signature rec, rct_signer_public_key rec with
            | Some sig, Some pk => Some (verify_signature pk (rct_receipt_hash rec) sig)
            | _, _ => None
            end;
          rr_signer_public_key := rct_signer_public_key rec;
          rr_signer_key_id := rct_signer_key_id rec |}.

Fixpoint verify_walk (i : nat) (expected_prev : option string) (receipts : list ActionReceiptRecord) :
    option string :=
  match receipts with
  | [] => None
  | rec :: rest =>
      if negb (compute_receipt_hash rec == rct_receipt_hash rec) then
        Some ("Hash mismatch at index " +:+ pretty i +:+ " (receipt " +:+ rct_id rec +:+ ")")
      else if match expected_prev with
              | Some prev => negb (rct_prev_receipt_hash rec == prev)
              | None => false
              end then
        Some ("Broken link at index " +:+ pretty i +:+ " (receipt " +:+ rct_id rec +:+ ")")
      else verify_walk (S i) (Some (rct_receipt_hash rec)) rest
  end.

Definition verify_receipt_range (rows : list ActionReceiptRecord) (tenant_id : string)
    (from to_ : option DateTime) : Verification * nat :=
  let receipts := list_action_receipts_in_range rows tenant_id from to_ in
  let error := verify_walk 0 None receipts in
  ({| vf_verified := bool_decide (error = None); vf_error := error |}, length receipts).

(** [obj.get(key).and_then(|v| v.as_str())] *)
Definition get_str (key : string) (obj : list (string * Canon.Value)) : option string :=
  match find (λ e, e.1 == key) obj with
  | Some (_, Canon.Str s) => Some s
  | _ => None
  end.

(** [body.remove(key)]; the hash does not see the order that is left. *)
Definition remove (key : string) (obj : list (string * Canon.Value)) : list (string * Canon.Value) :=
  filter (λ e, e.1 ≠ key) obj.

Definition client_body (obj : list (string * Canon.Value)) : list (string * Canon.Value) :=
  remove "created_at" (remove "signer_key_id" (remove "signer_public_key"
    (remove "signature" (remove "receipt_hash" obj)))).

(** The loop of [verify_receipt_chain] over the receipts a client supplies;
    [prev] is [None] before the first. *)
Fixpoint verify_client_walk (tenant_id : string) (i : nat) (prev : option string)
    (receipts : list Canon.Value) : option string :=
  match receipts with
  | [] => None
  | Canon.Object obj :: rest =>
      if match get_str "tenant_id" obj with
         | Some t => negb (t == tenant_id)
         | None => false
         end then
        Some ("Tenant mismatch at index " +:+ pretty i +:+ ": receipt has tenant '" +:+
              default "" (get_str "tenant_id" obj) +:+ "' but request is for '" +:+ tenant_id +:+ "'")
      else
      match get_str "receipt_hash" obj with
      | None => Some ("Missing receipt_hash at index " +:+ pretty i)
      | Some stored =>
          let recomputed := sha256_hex (canonical_string (Canon.Object (client_body obj))) in
          if negb (recomputed == stored) then
            Some ("Hash mismatch at index " +:+ pretty i +:+ ": stored '" +:+ stored +:+
                  "', recomputed '" +:+ recomputed +:+ "'")
          else
          let prev_in_receipt := default "" (get_str "prev_receipt_hash" obj) in
          let expected := default prev_in_receipt prev in
          if negb (prev_in_receipt == expected) then
            Some ("Link broken at index " +:+ pretty i +:+ ": prev_receipt_hash '" +:+
                  prev_in_receipt +:+ "' does not match expected '" +:+ expected +:+ "'")
          else verify_client_walk tenant_id (S i) (Some stored) rest
      end
  | _ :: _ => Some ("Receipt at index " +:+ pretty i +:+ " is not a valid JSON object")
  end.

Definition verify_receipt_chain (tenant_id : string) (receipts : list Canon.Value) : Verification :=
  let error := verify_client_walk tenant_id 0 None receipts in
  {| vf_verified := bool_decide (error = None); vf_error := error |}.

(** ** Chains *)

(** Each receipt carries its own hash and the hash of the one before. *)
Fixpoint chained (prev : string) (l : list ActionReceiptRecord) : Prop :=
  match l with
  | [] => True
  | r :: rest => rct_prev_receipt_hash r = prev ∧ compute_receipt_hash r = rct_receipt_hash r ∧
                 chained (rct_receipt_hash r) rest
  end.

Definition last_hash (prev : string) (l : list ActionReceiptRecord) : string :=
  default prev (rct_receipt_hash <$> list.last l).

Lemma last_hash_cons prev r l : last_hash prev (r :: l) = last_hash (rct_receipt_hash r) l.
Proof. unfold last_hash. by destruct l as [|r' l] using rev_ind; [|rewrite app_comm_cons, !last_snoc]. Qed.

Lemma chained_app prev l l' :
  chained prev (l ++ l') ↔ chained prev l ∧ chained (last_hash prev l) l'.
Proof.
  revert prev. induction l as [|r l IH]; intros prev; simpl; [naive_solver|].
  rewrite IH, last_hash_cons. naive_solver.
Qed.

Lemma finalize_link rec prev :
  rct_prev_receipt_hash (finalize_receipt_link rec prev) = prev ∧
  compute_receipt_hash (finalize_receipt_link rec prev) =
    rct_receipt_hash (finalize_receipt_link rec prev) ∧
  rct_tenant_id (finalize_receipt_link rec prev) = rct_tenant_id rec.
Proof. unfold finalize_receipt_link. by destruct signer. Qed.

Lemma chain_chained records prev : chained prev (chain_receipts_from_head records prev).
Proof.
  revert prev. induction records as [|r records IH]; intros prev; simpl; [done|].
  destruct (finalize_link r prev) as (? & ? & _). done.
Qed.

Lemma chain_tenants records prev tenant :
  Forall (λ r, rct_tenant_id r = tenant) records →
  Forall (λ r, rct_tenant_id r = tenant) (chain_receipts_from_head records prev).
Proof.
  intros H. revert prev. induction H as [|r records Hr _ IH]; intros prev; simpl; constructor; [|done].
  by rewrite (proj2 (proj2 (finalize_link r prev))).
Qed.

Lemma chained_stamp now prev l : chained prev (map (stamp now) l) ↔ chained prev l.
Proof. revert prev. induction l as [|r l IH]; intros prev; simpl; [done|]. by rewrite IH. Qed.

Lemma insert_rows_Some now records rows rows' :
  insert_rows now records rows = Some rows' → rows' = rows ++ map (stamp now) records.
Proof.
  revert rows. induction records as [|r records IH]; intros rows; simpl.
  - intros [= <-]. by rewrite app_nil_r.
  - destruct (existsb _ rows); [done|]. intros ->%IH. by rewrite <- app_assoc.
Qed.

Lemma insert_rows_app now l l' rows :
  insert_rows now (l ++ l') rows = (rows' ← insert_rows now l rows; insert_rows now l' rows').
Proof. revert rows. induction l as [|r l IH]; intros rows; simpl; [done|]. by destruct (existsb _ rows). Qed.

Lemma of_tenant_app tenant rows rows' :
  of_tenant tenant (rows ++ rows') = of_tenant tenant rows ++ of_tenant tenant rows'.
Proof. apply list.filter_app. Qed.

Lemma of_tenant_all tenant l :
  Forall (λ r, rct_tenant_id r = tenant) l → of_tenant tenant l = l.
Proof. apply filter_keeps. Qed.

Lemma of_tenant_none tenant other l :
  other ≠ tenant → Forall (λ r, rct_tenant_id r = other) l → of_tenant tenant l = [].
Proof. intros Hne Hl. apply filter_drops. eapply Forall_impl; [exact Hl|]. simpl. congruence. Qed.

Lemma stamped_tenant now tenant l :
  Forall (λ r, rct_tenant_id r = tenant) l →
  Forall (λ r, rct_tenant_id r = tenant) (map (stamp now) l).
Proof. induction 1; simpl; by constructor. Qed.

(** Every tenant's rows are a chain from the empty hash. *)
Definition all_chained (rows : list ActionReceiptRecord) : Prop :=
  ∀ tenant, chained "" (of_tenant tenant rows).

Lemma chain_append now tenant records rows rows' :
  all_chained rows → Forall (λ r, rct_tenant_id r = tenant) records →
  insert_rows now (chain_receipts_from_head records (head_hash rows tenant)) rows = Some rows' →
  all_chained rows'.
Proof.
  intros Hall Hten ->%insert_rows_Some t. rewrite of_tenant_app.
  pose proof (stamped_tenant now tenant _ (chain_tenants _ (head_hash rows tenant) _ Hten)) as Hs.
  destruct (decide (t = tenant)) as [->|Hne].
  - rewrite (of_tenant_all _ _ Hs). apply chained_app. split; [apply Hall|].
    apply chained_stamp. apply chain_chained.
  - rewrite (of_tenant_none t tenant _ (not_eq_sym Hne) Hs), app_nil_r. apply Hall.
Qed.

(** A Postgres transaction with no other beside it does what the SQLite branch
    does. *)
Lemma head_hash_stamped now rows l tenant : head_hash (rows ++ map (stamp now) l) tenant = head_hash (rows ++ l) tenant.
Proof.
  unfold head_hash. rewrite !of_tenant_app.
  assert (of_tenant tenant (map (stamp now) l) = map (stamp now) (of_tenant tenant l)) as ->.
  { unfold of_tenant. induction l as [|r l IH]; [done|]. simpl.
    destruct (decide (rct_tenant_id r = tenant)); [by rewrite !list.filter_cons_True by done; simpl; f_equal|].
    by rewrite !list.filter_cons_False by done. }
  destruct (of_tenant tenant l) as [|r l' _] using rev_ind; simpl; [done|].
  rewrite map_app, !app_assoc. cbn [map]. by rewrite !last_snoc.
Qed.

Lemma postgres_alone now groups written rows :
  pg_run now (replicate (S (length groups)) 0%nat) rows [{| px_groups := groups; px_written := written |}] =
  default rows (insert_rows now written rows ≫= append_groups now groups).
Proof.
  revert written. induction groups as [|[t records] groups IH]; intros written.
  - unfold pg_run. simpl. by destruct (insert_rows now written rows).
  - change (replicate (S (length ((t, records) :: groups))) 0%nat) with (0%nat :: replicate (S (length groups)) 0%nat).
    unfold pg_run. cbn [foldl]. unfold pg_step at 2. simpl. fold (pg_run now (replicate (S (length groups)) 0%nat) rows).
    etrans; [apply IH|]. rewrite insert_rows_app. f_equal.
    destruct (insert_rows now written rows) as [rows1|] eqn:Hw; simpl; [|done].
    by rewrite (insert_rows_Some _ _ _ _ Hw), head_hash_stamped.
Qed.

Lemma postgres_append_alone now rows tenant record :
  pg_run now [0; 0]%nat rows [pg_append tenant record] =
  (append_action_receipt_atomic rows tenant record now true).2.
Proof.
  etrans; [apply (postgres_alone now [(tenant, [record])] [] rows)|].
  unfold append_action_receipt_atomic. cbn [insert_rows append_groups chain_receipts_from_head mbind option_bind].
  by destruct (existsb _ rows).
Qed.

Lemma postgres_batch_alone now rows pending :
  pg_run now (replicate (S (length (group_pending_by_tenant pending))) 0%nat) rows [pg_batch pending] =
  (append_action_receipts_batch_atomic rows pending now true).2.
Proof.
  etrans; [apply postgres_alone|]. destruct pending as [|p pending]; [done|].
  unfold append_action_receipts_batch_atomic. cbn [insert_rows mbind option_bind].
  by destruct (append_groups _ _ _).
Qed.

(** *** The history of a table *)

(** The statements that change the table *)
Inductive Append :=
| DeleteTenant (tenant_id : string) (commits : bool)
| Single (tenant_id : string) (record : ActionReceiptRecord) (now : DateTime) (commits : bool)
| Batch (pending : list PendingReceiptAppend) (now : DateTime) (commits : bool).

(** When rows are inserted; [last] is the time before. *)
Definition append_time (last : DateTime) (a : Append) : DateTime :=
  match a with DeleteTenant _ _ => last | Single _ _ now _ => now | Batch _ now _ => now end.

Definition run_append (rows : list ActionReceiptRecord) (a : Append) : list ActionReceiptRecord :=
  match a with
  | DeleteTenant t commits => delete_tenant_receipts rows t commits
  | Single t r now commits => (append_action_receipt_atomic rows t r now commits).2
  | Batch pending now commits => (append_action_receipts_batch_atomic rows pending now commits).2
  end.

(** A record is queued under the tenant it names. *)
Definition addressed (a : Append) : Prop :=
  match a with
  | DeleteTenant _ _ => True
  | Single t r _ _ => rct_tenant_id r = t
  | Batch pending _ _ => Forall (λ p, rct_tenant_id (pa_record p) = pa_tenant_id p) pending
  end.

Lemma grouped_tenants pending :
  Forall (λ p, rct_tenant_id (pa_record p) = pa_tenant_id p) pending →
  Forall (λ g, Forall (λ r, rct_tenant_id r = g.1) g.2) (group_pending_by_tenant pending).
Proof.
  intros Hp. unfold group_pending_by_tenant. apply Forall_map, list.Forall_forall.
  intros t _. apply Forall_map, list.Forall_forall. simpl.
  intros p [<- Hin]%list_elem_of_filter. exact (proj1 (list.Forall_forall _ _) Hp p Hin).
Qed.

(** What an append leaves: the table it found, with rows of its time after it,
    still chained. *)
Definition extends (now : DateTime) (rows rows' : list ActionReceiptRecord) : Prop :=
  ∃ l, rows' = rows ++ l ∧ Forall (λ r, rct_created_at r = now) l.

Lemma extends_refl now rows : extends now rows rows.
Proof. exists []. by rewrite app_nil_r. Qed.

Lemma extends_trans now rows1 rows2 rows3 :
  extends now rows1 rows2 → extends now rows2 rows3 → extends now rows1 rows3.
Proof.
  intros (l & -> & Hl) (l' & -> & Hl'). exists (l ++ l'). by rewrite app_assoc, Forall_app.
Qed.

Lemma insert_rows_extends now records rows rows' :
  insert_rows now records rows = Some rows' → extends now rows rows'.
Proof.
  intros ->%insert_rows_Some. eexists. split; [done|]. by apply Forall_map, Forall_true.
Qed.

Lemma append_groups_ok now groups rows rows' :
  all_chained rows → Forall (λ g, Forall (λ r, rct_tenant_id r = g.1) g.2) groups →
  append_groups now groups rows = Some rows' → all_chained rows' ∧ extends now rows rows'.
Proof.
  intros Hall Hg. revert rows Hall. induction Hg as [|[t records] groups Hr _ IH]; simpl; intros rows Hall.
  - intros [= <-]. eauto using extends_refl.
  - destruct (insert_rows _ _ rows) as [rows1|] eqn:Hi; [simpl|done]. intros Hrest.
    destruct (IH rows1) as [Hc He]; [by eapply chain_append|done|].
    eauto using extends_trans, insert_rows_extends.
Qed.

(** *** Order of time *)

Definition older (r r' : ActionReceiptRecord) : Prop := (rct_created_at r <= rct_created_at r')%Z.

(** Rows in order of time, none later than [now]. *)
Definition in_time (now : DateTime) (rows : list ActionReceiptRecord) : Prop :=
  StronglySorted older rows ∧ Forall (λ r, (rct_created_at r <= now)%Z) rows.

Lemma in_time_extends last now rows rows' :
  in_time last rows → (last <= now)%Z → extends now rows rows' → in_time now rows'.
Proof.
  intros [Hs Hl] Hle (l & -> & Hn).
  assert (Forall (λ r, (rct_created_at r <= now)%Z) l) as Hl'
    by (eapply Forall_impl; [exact Hn|simpl; intros; lia]).
  assert (Forall (λ r, (rct_created_at r <= now)%Z) rows) as Hr
    by (eapply Forall_impl; [exact Hl|simpl; intros; lia]).
  split; [|by apply Forall_app].
  apply StronglySorted_app. split_and!; [|done|].
  - intros r r' Hin Hin'. unfold older.
    rewrite (proj1 (list.Forall_forall _ _) Hn r' Hin').
    exact (proj1 (list.Forall_forall _ _) Hr r Hin).
  - clear Hl' Hs Hl Hr. induction Hn as [|r l Hr Hn IH]; constructor; [done|].
    eapply Forall_impl; [exact Hn|]. unfold older. simpl. intros. lia.
Qed.

Lemma in_time_deleted now rows tenant commits :
  in_time now rows → in_time now (delete_tenant_receipts rows tenant commits).
Proof.
  intros [Hs Hl]. destruct commits; [|done]. split; [by apply StronglySorted_filter|].
  apply list.Forall_forall. intros r [_ Hr]%list_elem_of_filter. exact (proj1 (list.Forall_forall _ _) Hl r Hr).
Qed.

Lemma deleted_chained rows tenant commits :
  all_chained rows → all_chained (delete_tenant_receipts rows tenant commits).
Proof.
  intros Hall t. destruct commits; [|apply Hall]. specialize (Hall t). unfold delete_tenant_receipts, of_tenant in *.
  rewrite list_filter_filter. destruct (decide (t = tenant)) as [->|Hne].
  - rewrite filter_drops; [done|]. apply Forall_true. naive_solver.
  - erewrite list_filter_iff; [exact Hall|]. naive_solver.
Qed.

Lemma run_append_ok rows a :
  all_chained rows → addressed a →
  all_chained (run_append rows a) ∧
  ∀ last, in_time last rows → (last <= append_time last a)%Z → in_time (append_time last a) (run_append rows a).
Proof.
  intros Hall Ha.
  assert (∀ now rows', all_chained rows' ∧ extends now rows rows' →
    all_chained rows' ∧ ∀ last, in_time last rows → (last <= now)%Z → in_time now rows') as Hext.
  { intros now rows' [Hc He]. split; [done|]. intros. by eapply in_time_extends. }
  destruct a as [t commits|t r now commits|pending now commits]; simpl in *.
  - split; [by apply deleted_chained|]. intros. by apply in_time_deleted.
  - apply Hext. unfold append_action_receipt_atomic. destruct (insert_rows _ _ _) as [rows1|] eqn:Hi;
      [|eauto using extends_refl].
    destruct commits; simpl; [|eauto using extends_refl].
    split; [|by eapply insert_rows_extends].
    by apply (chain_append now t [r] rows); [|repeat constructor|].
  - apply Hext. unfold append_action_receipts_batch_atomic.
    destruct pending as [|p pending]; [simpl; eauto using extends_refl|].
    destruct (append_groups _ _ _) as [rows1|] eqn:Hi; [|simpl; eauto using extends_refl].
    destruct commits; simpl; [|eauto using extends_refl].
    eapply append_groups_ok; [done| |done]. by apply grouped_tenants.
Qed.

(** The clock of the database does not step back. *)
Fixpoint clock_runs_forward (last : DateTime) (appends : list Append) : Prop :=
  match appends with
  | [] => True
  | a :: rest => (last <= append_time last a)%Z ∧ clock_runs_forward (append_time last a) rest
  end.

Lemma history_chained appends rows :
  all_chained rows → Forall addressed appends → all_chained (foldl run_append rows appends).
Proof.
  intros Hall Ha. revert rows Hall. induction Ha as [|a appends Ha _ IH]; intros rows Hall; [done|].
  apply IH. by apply run_append_ok.
Qed.

Lemma history_in_time appends last rows :
  all_chained rows → Forall addressed appends → in_time last rows → clock_runs_forward last appends →
  ∃ now, in_time now (foldl run_append rows appends).
Proof.
  intros Hall Ha. revert last rows Hall. induction Ha as [|a appends Ha _ IH];
    intros last rows Hall Ht; [eauto|]. intros [Hle Hc].
  destruct (run_append_ok rows a Hall Ha) as [Hall' He].
  eapply IH; [done| |done]. by apply He.
Qed.

Lemma insert_oldest r l : Forall (older r) l → insert_by_time r l = r :: l.
Proof.
  destruct 1 as [|r' l Hr]; [done|]. simpl. unfold older in Hr.
  by rewrite (proj2 (Z.leb_le _ _) Hr).
Qed.

Lemma sort_in_time l : StronglySorted older l → foldr insert_by_time [] l = l.
Proof.
  induction 1 as [|r l Hl IH Hr]; [done|]. simpl. by rewrite IH, insert_oldest.
Qed.

(** A predicate that stays true (or false) from some row on selects the end
    (or the start) of the list. *)
Lemma filter_suffix (P : ActionReceiptRecord → Prop) `{!∀ r, Decision (P r)} l :
  StronglySorted older l → (∀ r r', older r r' → P r → P r') → filter P l `suffix_of` l.
Proof.
  intros Hs Hup. induction Hs as [|r l Hl IH Hr]; [done|].
  destruct (decide (P r)) as [Hp|Hp].
  - rewrite list.filter_cons_True by done.
    rewrite (filter_keeps P l); [done|].
    eapply Forall_impl; [exact Hr|]. eauto.
  - rewrite list.filter_cons_False by done. by apply suffix_cons_r.
Qed.

Lemma filter_prefix (P : ActionReceiptRecord → Prop) `{!∀ r, Decision (P r)} l :
  StronglySorted older l → (∀ r r', older r r' → P r' → P r) → filter P l `prefix_of` l.
Proof.
  intros Hs Hdown. induction Hs as [|r l Hl IH Hr]; [done|].
  destruct (decide (P r)) as [Hp|Hp].
  - rewrite list.filter_cons_True by done. by apply prefix_cons.
  - rewrite list.filter_cons_False by done. rewrite filter_drops; [apply prefix_nil|].
    eapply Forall_impl; [exact Hr|]. eauto.
Qed.

Lemma walk_from i prev l : verify_walk i (Some prev) l = None ↔ chained prev l.
Proof.
  revert i prev. induction l as [|r l IH]; intros i prev; simpl; [done|].
  destruct (String.eqb_spec (compute_receipt_hash r) (rct_receipt_hash r)); simpl; [|naive_solver].
  destruct (String.eqb_spec (rct_prev_receipt_hash r) prev); simpl; [|naive_solver].
  rewrite IH. naive_solver.
Qed.

(** The first link of a listing is taken as it is. *)
Lemma walk_any i l :
  verify_walk i None l = None ↔
  chained (default "" (rct_prev_receipt_hash <$> head l)) l.
Proof.
  rewrite <- (walk_from i). destruct l as [|r l]; [done|]. simpl.
  rewrite String.eqb_refl. done.
Qed.

Lemma chained_self prev l : chained prev l → verify_walk 0 None l = None.
Proof. intros H. apply walk_any. destruct l as [|r l]; [done|]. by destruct H as [<- H]. Qed.

Lemma chained_hashed prev l :
  chained prev l → Forall (λ r, compute_receipt_hash r = rct_receipt_hash r) l.
Proof. revert prev. induction l as [|r l IH]; intros prev; simpl; naive_solver. Qed.

Lemma get_by_id_stored rows tenant id r :
  get_action_receipt_by_id rows tenant id = Some r → r ∈ of_tenant tenant rows ∧ rct_id r = id.
Proof.
  intros Hr%head_Some_elem_of. apply list_elem_of_filter in Hr as [[<- <-] Hin].
  split; [|done]. by apply list_elem_of_filter.
Qed.

Section Window.
(** The database compares times in their order. *)
Context (Hlo : ∀ t t' f, (t <= t')%Z → at_least t f = true → at_least t' f = true)
        (Hhi : ∀ t t' f, (t' <= t)%Z → at_most t f = true → at_most t' f = true).

(** Rows in order of time: a window selects consecutive rows. *)
Lemma window_segment from to_ l :
  StronglySorted older l →
  ∃ l1 l2, l = l1 ++ filter (λ r, in_window from to_ r = true) l ++ l2.
Proof.
  intros Hs.
  set (lo r := match from with None => true | Some f => at_least (rct_created_at r) f end).
  set (hi r := match to_ with None => true | Some t => at_most (rct_created_at r) t end).
  assert (filter (λ r, in_window from to_ r = true) l =
          filter (λ r, lo r = true) (filter (λ r, hi r = true) l)) as ->.
  { rewrite list_filter_filter. apply list_filter_iff. intros r. apply andb_true_iff. }
  destruct (filter_prefix (λ r, hi r = true) l) as [l2 Hl2]; [done| |].
  { intros r r' Hle. unfold hi. destruct to_; eauto. }
  destruct (filter_suffix (λ r, lo r = true) (filter (λ r, hi r = true) l)) as [l1 Hl1].
  { rewrite Hl2 in Hs. by eapply StronglySorted_app_1_l. }
  { intros r r' Hle. unfold lo. destruct from; eauto. }
  exists l1, l2. by rewrite app_assoc, <- Hl1.
Qed.

Lemma listing_is_segment from to_ rows tenant :
  StronglySorted older rows →
  ∃ l1 l2, of_tenant tenant rows = l1 ++ list_action_receipts_in_range rows tenant from to_ ++ l2.
Proof.
  intros Hs. assert (StronglySorted older (of_tenant tenant rows)) as Hs'.
  { by apply StronglySorted_filter. }
  destruct (window_segment from to_ _ Hs') as (l1 & l2 & Heq). exists l1, l2.
  unfold list_action_receipts_in_range. rewrite sort_in_time; [done|]. by apply StronglySorted_filter.
Qed.

(** C35: on SQLite the receipt chain of a tenant never forks and what the gateway
    stores verifies.  There an append reads the head and inserts in one
    transaction that holds the write lock.  After any sequence of single and
    batched appends and of deletions of a tenant's data, those that failed
    included, each record being appended under the tenant it names, the receipts
    of a tenant in the order they were written are one chain from the empty
    hash, each linked to the one before it; the report on any of them says it
    verifies; and as long as the clock of the database does not step back, the
    verification of any time window succeeds.  On Postgres this holds only of
    transactions that do not overlap ([postgres_append_alone],
    [postgres_batch_alone]): two that do can fork the chain
    ([postgres_appends_fork]). *)
Theorem stored_chain_verifies appends start tenant :
  Forall addressed appends →
  let rows := foldl run_append [] appends in
  chained "" (of_tenant tenant rows) ∧
  (∀ verify_signature id report,
    verify_receipt verify_signature rows tenant id = Some report → rr_verified report = true) ∧
  (clock_runs_forward start appends →
   ∀ from to_, (verify_receipt_range rows tenant from to_).1 =
               {| vf_verified := true; vf_error := None |}).
Proof.
  intros Ha rows. assert (all_chained rows) as Hall by (by apply history_chained).
  split_and!; [apply Hall| |].
  - intros vs id report. unfold verify_receipt.
    destruct (get_action_receipt_by_id rows tenant id) as [r|] eqn:Hr; [simpl|done].
    intros [= <-]. simpl. apply eqb_spec_true.
    apply (proj1 (list.Forall_forall _ _) (chained_hashed _ _ (Hall tenant))).
    apply (get_by_id_stored _ _ _ _ Hr).
  - intros Hc from to_.
    destruct (history_in_time appends start []) as (now & Hs & _); [done..|by repeat constructor|done|].
    destruct (listing_is_segment from to_ rows tenant Hs) as (l1 & l2 & Heq).
    pose proof (Hall tenant) as Hch. rewrite Heq, chained_app, chained_app in Hch.
    destruct Hch as (_ & Hch & _). unfold verify_receipt_range. simpl.
    by rewrite (chained_self _ _ Hch).
Qed.
End Window.

(** *** Evidence of tampering *)

(** An object of strings and nulls. *)
Definition flat (m : list (string * Canon.Value)) : Prop := Forall (λ e, ∃ o, e.2 = opt_str o) m.

Lemma canonicalize_opt_str o : Canon.canonicalize_json (opt_str o) = opt_str o.
Proof. by destruct o. Qed.

Lemma body_flat rec : flat (body_entries rec).
Proof.
  repeat constructor; simpl; first [by eexists | match goal with
    |- ∃ o, Canon.Str ?s = _ => by exists (Some s) end].
Qed.

Lemma body_keys_NoDup rec : NoDup (body_entries rec).*1.
Proof. apply (bool_decide_unpack _). reflexivity. Qed.

Lemma flat_canonical m :
  flat m → NoDup m.*1 → ∃ m', Canon.canonicalize_json (Canon.Object m) = Canon.Object m' ∧ flat m'.
Proof.
  intros Hf Hnd. rewrite Canon.canonicalize_object_sorted by done. eexists. split; [done|].
  unfold flat. rewrite Canon.sort_by_key_perm. apply Forall_map.
  eapply Forall_impl; [exact Hf|]. intros [k v] [o Ho]. exists o. simpl in *. subst v.
  apply canonicalize_opt_str.
Qed.

Lemma flat_well_formed m : flat m → NoDup m.*1 → Canon.well_formed (Canon.Object m).
Proof.
  intros Hf Hnd. apply Canon.well_formed_object. split; [done|].
  eapply Forall_impl; [exact Hf|]. intros [k v] [[s|] Ho]; simpl in *; by subst.
Qed.

(** Objects with the same keys in the same order. *)
Lemma same_values {A} (m m' : list (string * A)) :
  m.*1 = m'.*1 → (∀ k v v', (k, v) ∈ m → (k, v') ∈ m' → v = v') → m = m'.
Proof.
  revert m'. induction m as [|[k v] m IH]; intros [|[k' v'] m'] Hk Hv; try done.
  simpl in Hk. injection Hk as <- Hk.
  rewrite (Hv k v v') by apply list_elem_of_here. f_equal. apply IH; [done|].
  intros. eapply Hv; by apply list_elem_of_further.
Qed.

Lemma canonical_body_inj rec rec' :
  Canon.canonicalize_json (receipt_body_value rec) = Canon.canonicalize_json (receipt_body_value rec') →
  receipt_body_value rec = receipt_body_value rec'.
Proof.
  intros Heq. unfold receipt_body_value. f_equal. apply same_values; [done|].
  assert (Canon.veq (receipt_body_value rec) (receipt_body_value rec')) as Hveq.
  { eapply Canon.veq_trans; [apply Canon.veq_canonicalize, flat_well_formed|];
      [apply body_flat|apply body_keys_NoDup|].
    rewrite Heq. apply Canon.veq_sym, Canon.veq_canonicalize, flat_well_formed;
      [apply body_flat|apply body_keys_NoDup]. }
  inversion Hveq as [| |m m' _ Hv]; subst.
  { done. }
  intros k v v' Hin Hin'. specialize (Hv k v v' Hin Hin').
  destruct (proj1 (list.Forall_forall _ _) (body_flat rec) _ Hin) as [o Ho].
  simpl in Ho. subst v. by destruct o; inversion Hv.
Qed.

Section Tamper.
(** [serde_json] prints every object of strings and nulls, and different
    objects differently. *)
Context (Hprints : ∀ m, flat m → is_Some (to_string (Canon.Object m)))
        (Hinj : ∀ m m', flat m → flat m' →
                to_string (Canon.Object m) = to_string (Canon.Object m') → m = m').

(** Two receipts whose hashed texts differ and have the same SHA-256. *)
Definition collision (l l' : list ActionReceiptRecord) : Prop :=
  ∃ r r', r ∈ l ∧ r' ∈ l' ∧
    canonical_string (receipt_body_value r) ≠ canonical_string (receipt_body_value r') ∧
    sha256_hex (canonical_string (receipt_body_value r)) =
    sha256_hex (canonical_string (receipt_body_value r')).

Lemma canonical_string_inj r r' :
  canonical_string (receipt_body_value r) = canonical_string (receipt_body_value r') →
  receipt_body_value r = receipt_body_value r'.
Proof.
  unfold canonical_string, Canon.canonical_value_string. intros Heq. apply canonical_body_inj.
  destruct (flat_canonical _ (body_flat r) (body_keys_NoDup r)) as (m & Hm & Hf).
  destruct (flat_canonical _ (body_flat r') (body_keys_NoDup r')) as (m' & Hm' & Hf').
  unfold receipt_body_value in *. rewrite Hm, Hm' in *.
  destruct (Hprints m Hf) as [s Hs]. destruct (Hprints m' Hf') as [s' Hs'].
  rewrite Hs, Hs' in Heq. simpl in Heq. subst s'. f_equal. apply Hinj; congruence.
Qed.

Lemma same_body_same_prev r r' :
  receipt_body_value r = receipt_body_value r' → rct_prev_receipt_hash r = rct_prev_receipt_hash r'.
Proof. by intros [=]. Qed.

Lemma same_tip_same_tail p p' l l' :
  chained p l → chained p' l' → last_hash p l = last_hash p' l' →
  map receipt_body_value l `suffix_of` map receipt_body_value l' ∨
  map receipt_body_value l' `suffix_of` map receipt_body_value l ∨ collision l l'.
Proof.
  revert l'.
  induction l as [|r l IH] using rev_ind; intros l'; [left; apply suffix_nil|].
  destruct l' as [|r' l' _] using rev_ind; [right; left; apply suffix_nil|].
  rewrite !chained_app. intros (Hl & Hp & Hh & _) (Hl' & Hp' & Hh' & _).
  unfold last_hash at 1 2. rewrite !last_snoc. simpl. intros Heq.
  destruct (decide (canonical_string (receipt_body_value r) =
                    canonical_string (receipt_body_value r'))) as [Hs|Hs].
  - apply canonical_string_inj in Hs. pose proof (same_body_same_prev _ _ Hs) as Hprev.
    rewrite !map_app. simpl. rewrite Hs.
    destruct (IH l') as [Hsuf|[Hsuf|(r1 & r2 & H1 & H2 & Hc)]]; [done..|congruence| | |].
    + left. by apply suffix_snoc.
    + right; left. by apply suffix_snoc.
    + right; right. exists r1, r2. rewrite !elem_of_app. naive_solver.
  - right; right. exists r, r'. rewrite !elem_of_app, !list_elem_of_singleton.
    split_and!; [by right..|done|]. unfold compute_receipt_hash in Hh, Hh'. congruence.
Qed.

(** C36: the chain is evidence of tampering.  Take two states of a table, before
    and after anything was done to it, and two windows of a tenant that both
    verify and end in the same receipt hash.  Then the hashed contents of one
    window are the end of the hashed contents of the other, so nothing in
    between was changed, removed, added or reordered, or two of the receipts
    exhibit a collision of SHA-256. *)
Theorem tampering_needs_collision rows rows' tenant from to_ from' to_' :
  let l := list_action_receipts_in_range rows tenant from to_ in
  let l' := list_action_receipts_in_range rows' tenant from' to_' in
  vf_verified (verify_receipt_range rows tenant from to_).1 = true →
  vf_verified (verify_receipt_range rows' tenant from' to_').1 = true →
  rct_receipt_hash <$> list.last l = rct_receipt_hash <$> list.last l' →
  map receipt_body_value l `suffix_of` map receipt_body_value l' ∨
  map receipt_body_value l' `suffix_of` map receipt_body_value l ∨
  collision l l'.
Proof.
  intros l l' Hv%bool_decide_eq_true Hv'%bool_decide_eq_true Htip.
  apply walk_any in Hv, Hv'. fold l in Hv. fold l' in Hv'.
  destruct (decide (l = [])) as [Hl|Hl]; [rewrite Hl; left; apply suffix_nil|].
  destruct (decide (l' = [])) as [Hl'|Hl']; [rewrite Hl'; right; left; apply suffix_nil|].
  eapply same_tip_same_tail; [exact Hv|exact Hv'|]. unfold last_hash. rewrite Htip.
  destruct l' as [|r l2] using rev_ind; [done|]. by rewrite last_snoc.
Qed.
End Tamper.
End Chain.

(** ** A concrete table *)

(** A printer of flat objects that loses nothing, and a checksum. *)
Fixpoint bits (p : positive) : string :=
  match p with
  | xH => "1"
  | xO p => String "0" (bits p)
  | xI p => String "i" (bits p)
  end.

Lemma bits_inj : Inj (=) (=) bits.
Proof. intros p. induction p; intros [] [=]; f_equal; eauto. Qed.

Definition leaf (v : Canon.Value) : option string :=
  match v with Canon.Str s => Some s | _ => None end.
Definition sample_print (v : Canon.Value) : option string :=
  match v with
  | Canon.Object m => Some (bits (encode (map (prod_map id leaf) m)))
  | _ => None
  end.
Fixpoint roll (h : Z) (s : string) : Z :=
  match s with
  | EmptyString => h
  | String a s => roll ((h * 31 + Z.of_nat (Ascii.nat_of_ascii a)) mod 1000003)%Z s
  end.
Definition checksum (s : string) : string := bits (Z.to_pos (roll 7 s + 1)).

Lemma sample_print_total m : flat m → is_Some (sample_print (Canon.Object m)).
Proof. by eexists. Qed.

Lemma sample_print_inj m m' :
  flat m → flat m' → sample_print (Canon.Object m) = sample_print (Canon.Object m') → m = m'.
Proof.
  intros Hm Hm' [= Heq%bits_inj%(inj encode)]. revert m' Hm' Heq.
  induction Hm as [|[k v] m [o Ho] Hm IH]; intros [|[k' v'] m'] Hm' [=]; [done|].
  inversion Hm' as [|x y [o' Ho'] Hrest]; simplify_eq/=. f_equal; [|by apply IH].
  f_equal. by destruct o, o'; simplify_eq/=.
Qed.

Definition sample_receipt (id tenant decision : string) : ActionReceiptRecord :=
  {| rct_id := id; rct_tenant_id := tenant; rct_decision_id := Some ("d-" +:+ id);
     rct_ts := "2026-01-01T00:00:00Z"; rct_agent_id := Some "agent"; rct_user_id := None;
     rct_run_id := None; rct_trace_id := None; rct_tool := Some "github";
     rct_action := Some "merge"; rct_resource := None; rct_source_trust := "trusted_internal_signed";
     rct_decision := decision; rct_approver := None; rct_action_hash := None;
     rct_prev_receipt_hash := ""; rct_receipt_hash := ""; rct_canon_version := "aegis-jcs-1";
     rct_signature := None; rct_signer_public_key := None; rct_signer_key_id := None;
     rct_created_at := 0%Z |}.

Definition sample_signer : ReceiptSigner :=
  {| sign_hash h := "sig:" +:+ h; public_key_hex := "pk"; key_id := None |}.
Definition pend (id tenant : string) : PendingReceiptAppend :=
  {| pa_tenant_id := tenant; pa_record := sample_receipt id tenant "allow" |}.

(** Two tenants, interleaved in a batch; one append fails, one repeats an id. *)
Definition sample_appends : list Append :=
  [Single "acme" (sample_receipt "r1" "acme" "allow") 10%Z true;
   Batch [pend "r2" "acme"; pend "r3" "globex"; pend "r4" "acme"] 10%Z true;
   Single "acme" (sample_receipt "r5" "acme" "deny") 11%Z false;
   Single "acme" (sample_receipt "r1" "acme" "deny") 12%Z true;
   DeleteTenant "globex" true;
   Single "acme" (sample_receipt "r6" "acme" "deny") 13%Z true;
   Single "globex" (sample_receipt "r7" "globex" "allow") 13%Z true].
Definition sample_rows : list ActionReceiptRecord :=
  foldl (run_append checksum sample_print (Some sample_signer)) [] sample_appends.

Example sample_rows_ids :
  map rct_id (of_tenant "acme" sample_rows) = ["r1"; "r2"; "r4"; "r6"] ∧
  map rct_id (of_tenant "globex" sample_rows) = ["r7"].
Proof. vm_compute. done. Qed.

Lemma stored_chain_verifies_witness :
  (verify_receipt_range checksum sample_print Z.geb Z.leb sample_rows "acme" (Some 11%Z) None).1 =
  {| vf_verified := true; vf_error := None |}.
Proof.
  refine (proj2 (proj2 (stored_chain_verifies checksum sample_print (Some sample_signer)
    Z.geb Z.leb _ _ sample_appends 0%Z "acme" _)) _ (Some 11%Z) None).
  - intros t t' f Hle H. lia.
  - intros t t' f Hle H. lia.
  - repeat constructor.
  - simpl. lia.
Defined.

(** Two appends on Postgres, each reading the head before the other commits: both
    receipts name the same one before them, and the chain no longer verifies. *)
Example postgres_appends_fork :
  let rows := pg_run checksum sample_print (Some sample_signer) 10%Z [0; 1; 0; 1]%nat []
    [pg_append "acme" (sample_receipt "r1" "acme" "allow"); pg_append "acme" (sample_receipt "r2" "acme" "deny")] in
  map (λ r, (rct_id r, rct_prev_receipt_hash r)) rows = [("r1", ""); ("r2", "")] ∧
  vf_error (verify_receipt_range checksum sample_print Z.geb Z.leb rows "acme" None None).1 =
    Some "Broken link at index 1 (receipt r2)".
Proof. vm_compute. done. Qed.

(** The same rows after the first one was deleted, and after its decision was
    changed. *)
Definition rewrite_decision (d : string) (r : ActionReceiptRecord) : ActionReceiptRecord :=
  {| rct_id := rct_id r; rct_tenant_id := rct_tenant_id r; rct_decision_id := rct_decision_id r;
     rct_ts := rct_ts r; rct_agent_id := rct_agent_id r; rct_user_id := rct_user_id r;
     rct_run_id := rct_run_id r; rct_trace_id := rct_trace_id r; rct_tool := rct_tool r;
     rct_action := rct_action r; rct_resource := rct_resource r;
     rct_source_trust := rct_source_trust r; rct_decision := d;
     rct_approver := rct_approver r; rct_action_hash := rct_action_hash r;
     rct_prev_receipt_hash := rct_prev_receipt_hash r; rct_receipt_hash := rct_receipt_hash r;
     rct_canon_version := rct_canon_version r; rct_signature := rct_signature r;
     rct_signer_public_key := rct_signer_public_key r; rct_signer_key_id := rct_signer_key_id r;
     rct_created_at := rct_created_at r |}.

Local Abbreviation sample_verify rows :=
  (verify_receipt_range checksum sample_print Z.geb Z.leb rows "acme" None None).1.

Example changed_row_found :
  vf_error (sample_verify (map (rewrite_decision "deny") sample_rows)) =
  Some "Hash mismatch at index 0 (receipt r1)".
Proof. vm_compute. done. Qed.

Example deleted_middle_found :
  vf_error (sample_verify (filter (λ r, rct_id r ≠ "r2") sample_rows)) =
  Some "Broken link at index 1 (receipt r4)".
Proof. vm_compute. done. Qed.

(** Rows deleted from the front leave a window that still verifies. *)
Example deleted_front_not_found :
  vf_verified (sample_verify (drop 1 sample_rows)) = true ∧
  map rct_id (of_tenant "acme" (drop 1 sample_rows)) = ["r2"; "r4"; "r6"].
Proof. vm_compute. done. Qed.

Lemma tampering_needs_collision_witness :
  let l := list_action_receipts_in_range Z.geb Z.leb (drop 1 sample_rows) "acme" None None in
  let l' := list_action_receipts_in_range Z.geb Z.leb sample_rows "acme" None None in
  map receipt_body_value l `suffix_of` map receipt_body_value l' ∨
  map receipt_body_value l' `suffix_of` map receipt_body_value l ∨
  collision checksum sample_print l l'.
Proof.
  pose proof (tampering_needs_collision checksum sample_print Z.geb Z.leb
    sample_print_total sample_print_inj (drop 1 sample_rows) sample_rows "acme" None None None None)
    as H.
  cbv zeta in H |- *. apply H; vm_compute; reflexivity.
Defined.

(** The clock of the database steps back between two appends: the listing by
    time is not the chain, and an honest table does not verify. *)
Example clock_step_breaks_listing :
  let rows := foldl (run_append checksum sample_print None) []
    [Single "acme" (sample_receipt "r1" "acme" "allow") 10%Z true;
     Single "acme" (sample_receipt "r2" "acme" "allow") 9%Z true] in
  chained checksum sample_print "" (of_tenant "acme" rows) ∧
  vf_error (sample_verify rows) = Some "Broken link at index 1 (receipt r1)".
Proof. vm_compute. done. Qed.

(** The tenant, the decision id and the canonicalization version of a receipt
    are not hashed. *)
Example decision_id_not_hashed :
  body_entries (sample_receipt "r1" "acme" "allow") = body_entries (sample_receipt "r1" "globex" "allow").
Proof. done. Qed.

(** A stored receipt the way the API serves it: it carries [tenant_id] and its
    id is under [id], so the hash of what is left is not the stored hash. *)
Definition served (r : ActionReceiptRecord) : Canon.Value :=
  Canon.Object
    ([("id", Canon.Str (rct_id r)); ("tenant_id", Canon.Str (rct_tenant_id r));
      ("decision_id", opt_str (rct_decision_id r))] ++
     filter (λ e, e.1 ≠ "event_id") (body_entries r) ++
     [("receipt_hash", Canon.Str (rct_receipt_hash r));
      ("canon_version", Canon.Str (rct_canon_version r));
      ("signature", opt_str (rct_signature r));
      ("signer_public_key", opt_str (rct_signer_public_key r));
      ("signer_key_id", opt_str (rct_signer_key_id r));
      ("created_at", Canon.Null)]).
Definition exported (r : ActionReceiptRecord) : Canon.Value :=
  Canon.Object (body_entries r ++ [("receipt_hash", Canon.Str (rct_receipt_hash r))]).

Example served_receipts_do_not_verify :
  vf_verified (verify_receipt_chain checksum sample_print "acme"
    (map served (of_tenant "acme" sample_rows))) = false ∧
  vf_verified (verify_receipt_chain checksum sample_print "acme"
    (map exported (of_tenant "acme" sample_rows))) = true.
Proof. vm_compute. done. Qed.
End Receipts.
