(* ===== verification/Approvals.v ===== *)
(** * Approvals in storage

    Models [src/lib/storage/src/db/approvals.rs].  The table is the list of
    its rows in [rowid] order, [id] its primary key; a row is the record the
    queries return together with [consumed_at], the marker of single use.
    Each SQL statement is one atomic function on the rows, at the time [now]
    its text was bound; [retry_on_busy] repeats a statement that had no effect,
    so a retry is the statement at a later time.

    The second part is the life of one approval as a state machine, and the
    proof that the table runs that machine for every approval at once. *)

From S2P Require Import Prelude RustString Models Records Bans.

Record ApprovalRow := { aprow : ApprovalRecord; consumed_at : option DateTime }.

Module Approvals.
Section Table.
(** The database's comparison of a stored creation time with a bound. *)
Context (before : DateTime → DateTime → bool).

(** The columns the [INSERT] lists: [effective_call_hash] and [consumed_at]
    are left [NULL], and [created_at] is the database's. *)
Definition inserted (record : ApprovalRecord) (created_at : DateTime) : ApprovalRow := {|
  aprow := {|
    apv_id := apv_id record; apv_tenant_id := apv_tenant_id record;
    apv_decision_id := apv_decision_id record; apv_status := apv_status record;
    apv_approver_group := apv_approver_group record;
    apv_approver_user_id := apv_approver_user_id record; apv_reason := apv_reason record;
    apv_original_skill_call := apv_original_skill_call record;
    apv_original_call_hash := apv_original_call_hash record;
    apv_edited_skill_call := apv_edited_skill_call record; apv_effective_call_hash := None;
    apv_expires_at := apv_expires_at record; apv_decided_at := apv_decided_at record;
    apv_callback_url := apv_callback_url record;
    apv_callback_secret_hash := apv_callback_secret_hash record;
    apv_created_at := created_at |};
  consumed_at := None |}.

(** [None]: the primary key is violated. *)
Definition insert_approval (rows : list ApprovalRow) (record : ApprovalRecord)
    (created_at : DateTime) : option (list ApprovalRow) :=
  if existsb (λ r, apv_id (aprow r) == apv_id record) rows then None
  else Some (rows ++ [inserted record created_at]).

(** [tenant_id = ? AND id = ?] *)
Definition is_key (tenant_id id : string) (r : ApprovalRow) : bool :=
  (apv_tenant_id (aprow r) == tenant_id) && (apv_id (aprow r) == id).

Definition unexpired (now : DateTime) (r : ApprovalRow) : bool :=
  match apv_expires_at (aprow r) with None => true | Some t => (now <? t)%Z end.

(** [status = 'created' AND (expires_at IS NULL OR expires_at > ?)] *)
Definition pending (now : DateTime) (r : ApprovalRow) : bool :=
  (apv_status (aprow r) == "created") && unexpired now r.

(** [status = 'APPROVED' AND consumed_at IS NULL AND (... expires_at > ?)] *)
Definition consumable (now : DateTime) (r : ApprovalRow) : bool :=
  (apv_status (aprow r) == "APPROVED") && bool_decide (consumed_at r = None) && unexpired now r.

(** [? IS NULL OR COALESCE(effective_call_hash, original_call_hash) = ?] *)
Definition hash_matches (claimed : option string) (r : ApprovalRow) : bool :=
  match claimed with None => true | Some h => effective_action_hash (aprow r) == h end.

Definition get_approval_by_id (rows : list ApprovalRow) (tenant_id id : string) :
    option ApprovalRecord :=
  aprow <$> find (is_key tenant_id id) rows.

Definition get_approval_by_decision_id (rows : list ApprovalRow) (tenant_id decision_id : string) :
    option ApprovalRecord :=
  aprow <$> find (λ r, (apv_tenant_id (aprow r) == tenant_id) &&
                       (apv_decision_id (aprow r) == decision_id)) rows.

(** An [UPDATE] of the row of an approval, [true] when one row changed. *)
Definition update_one (tenant_id id : string) (guard : ApprovalRow → bool)
    (set_ : ApprovalRow → ApprovalRow) (rows : list ApprovalRow) : bool * list ApprovalRow :=
  let '(n, rows') := update_rows (λ r, is_key tenant_id id r && guard r) set_ rows in
  ((n =? 1)%nat, rows').

Definition set_consumed (now : DateTime) (r : ApprovalRow) : ApprovalRow :=
  {| aprow := aprow r; consumed_at := Some now |}.

Definition consume_approval (rows : list ApprovalRow) (tenant_id approval_id : string)
    (claimed_action_hash : option string) (now : DateTime) : bool * list ApprovalRow :=
  update_one tenant_id approval_id (λ r, consumable now r && hash_matches claimed_action_hash r)
    (set_consumed now) rows.

Definition approval_is_still_consumable (rows : list ApprovalRow) (tenant_id approval_id : string)
    (now : DateTime) : bool :=
  (0 <? length (filter (λ r, is_key tenant_id approval_id r && consumable now r = true) rows))%nat.

Definition set_edit (user_id : string) (reason : option string) (edited_call new_hash : string)
    (r : ApprovalRow) : ApprovalRow := {|
  aprow := let a := aprow r in {|
    apv_id := apv_id a; apv_tenant_id := apv_tenant_id a; apv_decision_id := apv_decision_id a;
    apv_status := apv_status a; apv_approver_group := apv_approver_group a;
    apv_approver_user_id := Some user_id; apv_reason := reason;
    apv_original_skill_call := apv_original_skill_call a;
    apv_original_call_hash := apv_original_call_hash a;
    apv_edited_skill_call := Some edited_call; apv_effective_call_hash := Some new_hash;
    apv_expires_at := apv_expires_at a; apv_decided_at := apv_decided_at a;
    apv_callback_url := apv_callback_url a;
    apv_callback_secret_hash := apv_callback_secret_hash a; apv_created_at := apv_created_at a |};
  consumed_at := consumed_at r |}.

Definition update_approval_edit (rows : list ApprovalRow) (tenant_id approval_id user_id : string)
    (reason : option string) (edited_call new_action_hash : string) (now : DateTime) :
    bool * list ApprovalRow :=
  update_one tenant_id approval_id (pending now)
    (set_edit user_id reason edited_call new_action_hash) rows.

Definition set_status (status user_id : string) (reason : option string) (decided_at : DateTime)
    (r : ApprovalRow) : ApprovalRow := {|
  aprow := let a := aprow r in {|
    apv_id := apv_id a; apv_tenant_id := apv_tenant_id a; apv_decision_id := apv_decision_id a;
    apv_status := status; apv_approver_group := apv_approver_group a;
    apv_approver_user_id := Some user_id; apv_reason := reason;
    apv_original_skill_call := apv_original_skill_call a;
    apv_original_call_hash := apv_original_call_hash a;
    apv_edited_skill_call := apv_edited_skill_call a;
    apv_effective_call_hash := apv_effective_call_hash a;
    apv_expires_at := apv_expires_at a; apv_decided_at := Some decided_at;
    apv_callback_url := apv_callback_url a;
    apv_callback_secret_hash := apv_callback_secret_hash a; apv_created_at := apv_created_at a |};
  consumed_at := consumed_at r |}.

Definition update_approval_status (rows : list ApprovalRow)
    (tenant_id approval_id status user_id : string) (reason : option string)
    (decided_at : option DateTime) (now : DateTime) : bool * list ApprovalRow :=
  update_one tenant_id approval_id (pending now)
    (set_status status user_id reason (default now decided_at)) rows.

(** The rows the retention job removes. *)
Definition stale (cutoff now : DateTime) (r : ApprovalRow) : bool :=
  before (apv_created_at (aprow r)) cutoff &&
  (negb (apv_status (aprow r) == "created") ||
   match apv_expires_at (aprow r) with Some t => (t <? now)%Z | None => false end).

Definition delete_expired_approvals_older_than (rows : list ApprovalRow) (cutoff now : DateTime) :
    nat * list ApprovalRow :=
  (length (filter (λ r, stale cutoff now r = true) rows),
   filter (λ r, stale cutoff now r = false) rows).

(** ** The statements that change the table *)

Inductive Stmt :=
| Insert (record : ApprovalRecord) (created_at : DateTime)
| Edit (tenant_id approval_id user_id : string) (reason : option string)
    (edited_call new_action_hash : string)
| Decide (tenant_id approval_id status user_id : string) (reason : option string)
    (decided_at : option DateTime)
| Consume (tenant_id approval_id : string) (claimed_action_hash : option string)
| Sweep (cutoff : DateTime).

(** One statement at the time [now]: whether it took effect, and the table. *)
Definition exec (now : DateTime) (s : Stmt) (rows : list ApprovalRow) : bool * list ApprovalRow :=
  match s with
  | Insert record created_at =>
      match insert_approval rows record created_at with
      | Some rows' => (true, rows')
      | None => (false, rows)
      end
  | Edit t i u re call h => update_approval_edit rows t i u re call h now
  | Decide t i st u re d => update_approval_status rows t i st u re d now
  | Consume t i c => consume_approval rows t i c now
  | Sweep cutoff => (true, (delete_expired_approvals_older_than rows cutoff now).2)
  end.

(** ** The life of one approval *)

(** What the machine sees of a row. *)
Record Approval := {
  av_status : string;
  av_hash : string;
  av_expires : option DateTime;
  av_consumed : bool }.

Definition view_row (r : ApprovalRow) : Approval := {|
  av_status := apv_status (aprow r);
  av_hash := effective_action_hash (aprow r);
  av_expires := apv_expires_at (aprow r);
  av_consumed := bool_decide (is_Some (consumed_at r)) |}.

Definition view (tenant id : string) (rows : list ApprovalRow) : option Approval :=
  view_row <$> find (is_key tenant id) rows.

Definition alive (now : DateTime) (a : Approval) : Prop :=
  match av_expires a with None => True | Some t => (now < t)%Z end.
Definition open_ (now : DateTime) (a : Approval) : Prop := av_status a = "created" ∧ alive now a.
Definition usable (now : DateTime) (a : Approval) : Prop :=
  av_status a = "APPROVED" ∧ av_consumed a = false ∧ alive now a.
Definition claims (claimed : option string) (a : Approval) : Prop :=
  match claimed with None => True | Some h => av_hash a = h end.

Definition fresh (r : ApprovalRecord) : Approval :=
  {| av_status := apv_status r; av_hash := apv_original_call_hash r;
     av_expires := apv_expires_at r; av_consumed := false |}.
Definition edited (h : string) (a : Approval) : Approval :=
  {| av_status := av_status a; av_hash := h; av_expires := av_expires a;
     av_consumed := av_consumed a |}.
Definition decided (status : string) (a : Approval) : Approval :=
  {| av_status := status; av_hash := av_hash a; av_expires := av_expires a;
     av_consumed := av_consumed a |}.
Definition used (a : Approval) : Approval :=
  {| av_status := av_status a; av_hash := av_hash a; av_expires := av_expires a;
     av_consumed := true |}.

(** The approval a statement is about; a sweep is about all. *)
Definition about (tenant id : string) (s : Stmt) : Prop :=
  match s with
  | Insert r _ => apv_tenant_id r = tenant ∧ apv_id r = id
  | Edit t i _ _ _ _ | Decide t i _ _ _ _ | Consume t i _ => t = tenant ∧ i = id
  | Sweep _ => True
  end.

(** The steps of the machine: [None] is an approval that does not exist. *)
Inductive astep (tenant id : string) (now : DateTime) :
    Stmt → bool → option Approval → option Approval → Prop :=
| a_insert r at_ :
    apv_tenant_id r = tenant → apv_id r = id →
    astep tenant id now (Insert r at_) true None (Some (fresh r))
| a_insert_refused r at_ v : astep tenant id now (Insert r at_) false v v
| a_edit u re call h a :
    open_ now a →
    astep tenant id now (Edit tenant id u re call h) true (Some a) (Some (edited h a))
| a_edit_refused u re call h v :
    (∀ a, v = Some a → ¬ open_ now a) →
    astep tenant id now (Edit tenant id u re call h) false v v
| a_decide st u re d a :
    open_ now a →
    astep tenant id now (Decide tenant id st u re d) true (Some a) (Some (decided st a))
| a_decide_refused st u re d v :
    (∀ a, v = Some a → ¬ open_ now a) →
    astep tenant id now (Decide tenant id st u re d) false v v
| a_consume c a :
    usable now a → claims c a →
    astep tenant id now (Consume tenant id c) true (Some a) (Some (used a))
| a_consume_refused c v :
    (∀ a, v = Some a → ¬ (usable now a ∧ claims c a)) →
    astep tenant id now (Consume tenant id c) false v v
| a_swept cutoff a :
    ¬ open_ now a → astep tenant id now (Sweep cutoff) true (Some a) None
| a_kept cutoff v : astep tenant id now (Sweep cutoff) true v v
| a_other s ok v : ¬ about tenant id s → astep tenant id now s ok v v.

(** ** The table runs the machine *)

Definition unique (rows : list ApprovalRow) : Prop := NoDup (map (λ r, apv_id (aprow r)) rows).

Lemma is_key_spec t i r : is_key t i r = true ↔ apv_tenant_id (aprow r) = t ∧ apv_id (aprow r) = i.
Proof. unfold is_key. by rewrite andb_true_iff, !eqb_spec_true. Qed.

Lemma find_map {A} (p : A → bool) (f : A → A) l :
  (∀ x, p (f x) = p x) → find p (map f l) = f <$> find p l.
Proof. intros Hp. induction l as [|x l IH]; simpl; [done|]. rewrite Hp. by destruct (p x). Qed.

Lemma find_none_count {A} (p g : A → bool) l :
  find p l = None → filter (λ x, p x && g x = true) l = [].
Proof.
  induction l as [|x l IH]; simpl; [done|]. destruct (p x) eqn:Hp; [done|]. intros Hl.
  rewrite list.filter_cons_False by (by rewrite Hp). auto.
Qed.

Lemma unique_find_rest t i r rows :
  unique (r :: rows) → is_key t i r = true → ∀ t', find (is_key t' i) rows = None.
Proof.
  intros [Hni _]%list.NoDup_cons [_ <-]%is_key_spec t'.
  destruct (find _ rows) as [r'|] eqn:Hf; [|done]. exfalso. apply Hni.
  apply find_some in Hf as [Hin [_ Hid]%is_key_spec].
  apply list_elem_of_fmap. exists r'. split; [done|]. by apply list_elem_of_In.
Qed.

Lemma count_key t i guard rows :
  unique rows →
  length (filter (λ r, is_key t i r && guard r = true) rows) =
  match find (is_key t i) rows with Some r => if guard r then 1 else 0 | None => 0 end.
Proof.
  induction rows as [|r rows IH]; intros Hu; [done|]. simpl.
  destruct (is_key t i r) eqn:Hk.
  - pose proof (find_none_count _ guard _ (unique_find_rest _ _ _ _ Hu Hk t)) as Hrest.
    destruct (guard r) eqn:Hg.
    + rewrite list.filter_cons_True by (by rewrite Hk, Hg). by rewrite Hrest.
    + rewrite list.filter_cons_False by (by rewrite Hk, Hg). by rewrite Hrest.
  - rewrite list.filter_cons_False by (by rewrite Hk). apply IH.
    by apply list.NoDup_cons in Hu as [_ ?].
Qed.

(** What an [UPDATE] of one approval does to every approval. *)
Lemma update_one_spec t i guard set_ rows :
  unique rows →
  (∀ r, apv_id (aprow (set_ r)) = apv_id (aprow r)) →
  (∀ r, apv_tenant_id (aprow (set_ r)) = apv_tenant_id (aprow r)) →
  let '(ok, rows') := update_one t i guard set_ rows in
  unique rows' ∧
  ok = match find (is_key t i) rows with Some r => guard r | None => false end ∧
  (∀ t' i', find (is_key t' i') rows' =
     if decide (t' = t ∧ i' = i)
     then (λ r, if guard r then set_ r else r) <$> find (is_key t i) rows
     else find (is_key t' i') rows).
Proof.
  intros Hu Hid Hten. unfold update_one, update_rows.
  set (f r := if is_key t i r && guard r then set_ r else r). split_and!.
  - unfold unique. rewrite map_map. erewrite map_ext; [exact Hu|]. intros r. simpl. unfold f.
    by destruct (is_key t i r && guard r).
  - rewrite count_key by done. destruct (find _ rows) as [r|]; [|done]. by destruct (guard r).
  - intros t' i'. rewrite find_map.
    2:{ intros r. unfold f. destruct (is_key t i r && guard r); [|done].
        unfold is_key. by rewrite Hid, Hten. }
    destruct (find (is_key t' i') rows) as [r|] eqn:Hf; case_decide as Hd.
    + destruct Hd as [-> ->]. rewrite Hf. simpl. f_equal. unfold f.
      apply find_some in Hf as [_ ->]. done.
    + simpl. f_equal. unfold f. destruct (is_key t i r) eqn:Hk; [|done]. exfalso. apply Hd.
      apply find_some in Hf as [_ Hk']. apply is_key_spec in Hk, Hk'. naive_solver.
    + destruct Hd as [-> ->]. by rewrite Hf.
    + done.
Qed.

Lemma unexpired_alive now r : unexpired now r = true ↔ alive now (view_row r).
Proof. unfold unexpired, alive. simpl. destruct (apv_expires_at _); [lia|done]. Qed.

Lemma pending_open now r : pending now r = true ↔ open_ now (view_row r).
Proof. unfold pending, open_. rewrite andb_true_iff, eqb_spec_true, unexpired_alive. done. Qed.

Lemma consumable_usable now c r :
  consumable now r && hash_matches c r = true ↔ usable now (view_row r) ∧ claims c (view_row r).
Proof.
  unfold consumable, usable, hash_matches, claims. rewrite !andb_true_iff, eqb_spec_true, unexpired_alive.
  simpl. assert (bool_decide (consumed_at r = None) = true ↔
                 bool_decide (is_Some (consumed_at r)) = false) as ->
    by (rewrite bool_decide_eq_true, bool_decide_eq_false, <- eq_None_not_Some; done).
  destruct c; [rewrite eqb_spec_true|]; naive_solver.
Qed.

(** An update whose guard is [g], seen through one approval. *)
Lemma update_one_view t i guard set_ g next rows ok rows' :
  unique rows →
  (∀ r, apv_id (aprow (set_ r)) = apv_id (aprow r)) →
  (∀ r, apv_tenant_id (aprow (set_ r)) = apv_tenant_id (aprow r)) →
  (∀ r, guard r = true ↔ g (view_row r)) →
  (∀ r, view_row (set_ r) = next (view_row r)) →
  update_one t i guard set_ rows = (ok, rows') →
  unique rows' ∧
  (∀ t' i', ¬ (t = t' ∧ i = i') → view t' i' rows' = view t' i' rows) ∧
  ((ok = true ∧ ∃ a, view t i rows = Some a ∧ g a ∧ view t i rows' = Some (next a)) ∨
   (ok = false ∧ (∀ a, view t i rows = Some a → ¬ g a) ∧ view t i rows' = view t i rows)).
Proof.
  intros Hu Hid Hten Hg Hnext Heq. pose proof (update_one_spec t i guard set_ rows Hu Hid Hten) as H.
  rewrite Heq in H. destruct H as (Hu' & Hok & Hf). split; [done|]. unfold view. split.
  - intros t' i' Hne. rewrite Hf. by rewrite decide_False by naive_solver.
  - rewrite Hf, decide_True by done. destruct (find _ rows) as [r|]; simpl.
    + destruct (guard r) eqn:Hr; [left|right]; (split; [done|]).
      * exists (view_row r). rewrite <- Hg, Hnext. done.
      * split; [|done]. intros a [= <-]. rewrite <- Hg. congruence.
    + right. done.
Qed.

Lemma find_app {A} (p : A → bool) l l' :
  find p (l ++ l') = match find p l with Some x => Some x | None => find p l' end.
Proof. induction l as [|x l IH]; simpl; [done|]. by destruct (p x). Qed.

Lemma insert_spec rows r at_ rows' :
  unique rows → insert_approval rows r at_ = Some rows' →
  unique rows' ∧ rows' = rows ++ [inserted r at_] ∧ ∀ t, find (is_key t (apv_id r)) rows = None.
Proof.
  unfold insert_approval. destruct (existsb _ rows) eqn:He; [done|]. intros Hu [= <-].
  assert (∀ r', r' ∈ rows → apv_id (aprow r') ≠ apv_id r) as Hfresh.
  { intros r' Hin Heq. eapply not_true_iff_false; [exact He|]. apply existsb_exists.
    exists r'. rewrite <- list_elem_of_In, eqb_spec_true. done. }
  split_and!; [|done|].
  - unfold unique. rewrite map_app. apply list.NoDup_app. split_and!; [done| |apply NoDup_singleton].
    intros x (r' & -> & Hin)%list_elem_of_fmap Hx%list_elem_of_singleton. by apply (Hfresh r').
  - intros t. destruct (find _ rows) as [r'|] eqn:Hf; [|done]. exfalso.
    apply find_some in Hf as [Hin [_ Hid]%is_key_spec]. apply list_elem_of_In in Hin.
    by apply (Hfresh r').
Qed.

Lemma insert_view rows r at_ rows' t i :
  unique rows → insert_approval rows r at_ = Some rows' →
  if decide (apv_tenant_id r = t ∧ apv_id r = i)
  then view t i rows = None ∧ view t i rows' = Some (fresh r)
  else view t i rows' = view t i rows.
Proof.
  intros Hu (_ & -> & Hnone)%insert_spec; [|done]. unfold view. rewrite find_app. simpl.
  case_decide as Hd.
  - destruct Hd as [<- <-]. rewrite Hnone. unfold is_key. simpl. by rewrite !eqb_refl.
  - destruct (find _ rows); [done|]. destruct (is_key t i (inserted r at_)) eqn:Hk; [|done].
    exfalso. apply Hd. by apply is_key_spec in Hk.
Qed.

Lemma unique_filter (q : ApprovalRow → bool) rows :
  unique rows → unique (filter (λ r, q r = false) rows).
Proof.
  unfold unique. induction rows as [|r rows IH]; [done|]. intros [Hni Hu]%list.NoDup_cons.
  destruct (q r) eqn:Hq; [rewrite list.filter_cons_False by congruence; by apply IH|].
  rewrite list.filter_cons_True by done. apply list.NoDup_cons. split; [|by apply IH].
  intros (r' & Heq & [_ Hin]%list_elem_of_filter)%list_elem_of_fmap. apply Hni.
  apply list_elem_of_fmap. by exists r'.
Qed.

Lemma find_filter (q : ApprovalRow → bool) t i rows :
  unique rows →
  find (is_key t i) (filter (λ r, q r = false) rows) =
  match find (is_key t i) rows with Some r => if q r then None else Some r | None => None end.
Proof.
  induction rows as [|r rows IH]; [done|]. intros Hu.
  specialize (IH (proj2 (proj1 (list.NoDup_cons _ _) Hu))). simpl find at 2.
  destruct (q r) eqn:Hq.
  - rewrite list.filter_cons_False by congruence. rewrite IH. destruct (is_key t i r) eqn:Hk; [|done].
    rewrite (unique_find_rest _ _ _ _ Hu Hk t). by rewrite Hq.
  - rewrite list.filter_cons_True by done. simpl. destruct (is_key t i r); [by rewrite Hq|done].
Qed.

Lemma stale_not_open cutoff now r : stale cutoff now r = true → ¬ open_ now (view_row r).
Proof.
  unfold stale, open_, alive. simpl. intros [_ [Hs|Hs]%orb_true_iff]%andb_true_iff [Ho Ha].
  - rewrite Ho in Hs. done.
  - destruct (apv_expires_at _); [lia|done].
Qed.

Lemma sweep_view rows cutoff now t i :
  unique rows →
  let rows' := (delete_expired_approvals_older_than rows cutoff now).2 in
  view t i rows' = view t i rows ∨
  ∃ a, view t i rows = Some a ∧ ¬ open_ now a ∧ view t i rows' = None.
Proof.
  simpl. intros Hu. unfold view. rewrite find_filter by done.
  destruct (find _ rows) as [r|]; [|by left].
  destruct (stale cutoff now r) eqn:Hs; [|by left]. right. exists (view_row r).
  split; [done|]. split; [|done]. by eapply stale_not_open.
Qed.

(** An [UPDATE] with the guard [guard_spec] is a step of every approval. *)
Ltac update_case g next guard_spec :=
  let t' := fresh "t" in let i' := fresh "i" in let Hother := fresh in let Hthis := fresh in
  match goal with Hex : _ = (_, _) |- _ =>
    eapply (update_one_view _ _ _ _ g next) in Hex as (? & Hother & Hthis);
      [|done|done|done|apply guard_spec|by intros]; (split; [done|]); intros t' i';
    match type of Hthis with context [view ?t ?i _] =>
      destruct (decide (t = t' ∧ i = i')) as [[<- <-]|];
      [|rewrite Hother by done; by apply a_other]
    end;
    destruct Hthis as [(-> & ? & -> & ? & ->)|(-> & ? & ->)]; constructor; first [assumption | tauto]
  end.

Lemma refines rows now s ok rows' :
  unique rows → exec now s rows = (ok, rows') →
  unique rows' ∧ ∀ tenant id, astep tenant id now s ok (view tenant id rows) (view tenant id rows').
Proof.
  intros Hu Hex. destruct s as [r at_|t i u re call h|t i st u re d|t i c|cutoff]; simpl in Hex.
  - destruct (insert_approval rows r at_) as [rows1|] eqn:Hi; injection Hex as <- <-.
    + split; [apply (insert_spec _ _ _ _ Hu Hi)|]. intros t i.
      pose proof (insert_view rows r at_ rows1 t i Hu Hi) as Hv. case_decide as Hd.
      * destruct Hv as [-> ->], Hd. by apply a_insert.
      * rewrite Hv. by apply a_other.
    + split; [done|]. intros. apply a_insert_refused.
  - update_case (open_ now) (edited h) pending_open.
  - update_case (open_ now) (decided st) pending_open.
  - update_case (λ a, usable now a ∧ claims c a) used consumable_usable.
  - injection Hex as <- <-. split; [apply (unique_filter (stale cutoff now)), Hu|]. intros t i.
    destruct (sweep_view rows cutoff now t i Hu) as [Hv|(a & Ha & Ho & Hn)]; simpl in *.
    + rewrite Hv. apply a_kept.
    + rewrite Ha, Hn. by apply a_swept.
Qed.

(** ** Histories *)

(** A statement that ran, with its time and whether it took effect. *)
Definition Entry : Type := DateTime * Stmt * bool.

(** What statements do to a table, in the order the database ran them. *)
Inductive history (rows : list ApprovalRow) : list Entry → list ApprovalRow → Prop :=
| h_nil : history rows [] rows
| h_snoc h rows1 now s ok rows2 :
    history rows h rows1 → exec now s rows1 = (ok, rows2) →
    history rows (h ++ [(now, s, ok)]) rows2.

Fixpoint replay (rows : list ApprovalRow) (l : list (DateTime * Stmt)) : list Entry :=
  match l with
  | [] => []
  | (now, s) :: l =>
      let '(ok, rows1) := exec now s rows in (now, s, ok) :: replay rows1 l
  end.

Lemma history_cons rows now s ok rows1 h rows2 :
  exec now s rows = (ok, rows1) → history rows1 h rows2 → history rows ((now, s, ok) :: h) rows2.
Proof.
  intros He. induction 1 as [|h rows2 now' s' ok' rows3 Hh IH He'].
  - apply (h_snoc rows [] rows); [constructor|done].
  - rewrite app_comm_cons. by eapply h_snoc.
Qed.

Lemma replay_history rows l : ∃ rows', history rows (replay rows l) rows'.
Proof.
  revert rows. induction l as [|[now s] l IH]; intros rows; simpl; [eexists; constructor|].
  destruct (exec now s rows) as [ok rows1] eqn:He. destruct (IH rows1) as [rows2 Hh].
  exists rows2. by eapply history_cons.
Qed.

(** Runs of the machine. *)
Inductive atrace (tenant id : string) (v : option Approval) : list Entry → option Approval → Prop :=
| at_nil : atrace tenant id v [] v
| at_snoc h v1 now s ok v2 :
    atrace tenant id v h v1 → astep tenant id now s ok v1 v2 →
    atrace tenant id v (h ++ [(now, s, ok)]) v2.

Lemma history_refines rows h rows' :
  unique rows → history rows h rows' →
  unique rows' ∧ ∀ tenant id, atrace tenant id (view tenant id rows) h (view tenant id rows').
Proof.
  intros Hu. induction 1 as [|h rows1 now s ok rows2 _ [Hu1 IH] He]; [by split; [|constructor]|].
  destruct (refines rows1 now s ok rows2 Hu1 He) as [Hu2 Hstep].
  split; [done|]. intros. by eapply at_snoc.
Qed.

Section Key.
Context (tenant id : string).

Definition about_b (s : Stmt) : bool :=
  match s with
  | Insert r _ => (apv_tenant_id r == tenant) && (apv_id r == id)
  | Edit t i _ _ _ _ | Decide t i _ _ _ _ | Consume t i _ => (t == tenant) && (i == id)
  | Sweep _ => true
  end.

Lemma about_b_spec s : about_b s = true ↔ about tenant id s.
Proof. destruct s; simpl; rewrite ?andb_true_iff, ?eqb_spec_true; done. Qed.

(** Statements about the approval that took effect. *)
Definition creates (e : Entry) : bool :=
  match e with (_, Insert _ _ as s, true) => about_b s | _ => false end.
Definition consumes (e : Entry) : bool :=
  match e with (_, Consume _ _ _ as s, true) => about_b s | _ => false end.
Definition changes (e : Entry) : bool :=
  match e with (_, Sweep _, _) => false | (_, s, true) => about_b s | _ => false end.

Definition count (p : Entry → bool) (h : list Entry) : nat := length (filter (λ e, p e = true) h).

(** The hash the approval is bound to: of the last edit, or of the action it
    was created for. *)
Definition rebind (cur : option string) (e : Entry) : option string :=
  match e with
  | (_, Insert r _ as s, true) => if about_b s then Some (apv_original_call_hash r) else cur
  | (_, Edit _ _ _ _ _ h as s, true) => if about_b s then Some h else cur
  | _ => cur
  end.
Definition bound_hash (h : list Entry) : option string := foldl rebind None h.

Lemma count_snoc p h e : count p (h ++ [e]) = count p h + (if p e then 1 else 0).
Proof.
  unfold count. rewrite list.filter_app, length_app. f_equal. destruct (p e) eqn:Hp.
  - by rewrite list.filter_cons_True.
  - by rewrite list.filter_cons_False by congruence.
Qed.

(** ** Single use *)

(** How often an approval can still be consumed. *)
Definition uses_left (v : option Approval) : nat :=
  match v with Some a => if av_consumed a then 0 else 1 | None => 0 end.

Lemma step_uses now s ok v v' :
  astep tenant id now s ok v v' →
  (if consumes (now, s, ok) then 1 else 0) + uses_left v' ≤
  (if creates (now, s, ok) then 1 else 0) + uses_left v.
Proof.
  destruct 1 as [| | | | | |c a [_ [Hc _]] _| | | |s ok v Hn]; simpl; rewrite ?eqb_refl; simpl; try lia.
  - by rewrite (proj2 (eqb_spec_true _ _) H), (proj2 (eqb_spec_true _ _) H0).
  - rewrite Hc. lia.
  - destruct (about_b s) eqn:Hb; [by apply about_b_spec in Hb|].
    unfold about_b in Hb. destruct s, ok; rewrite ?Hb; lia.
Qed.

Lemma trace_uses v h v' :
  atrace tenant id v h v' →
  count consumes h + uses_left v' ≤ count creates h + uses_left v.
Proof.
  induction 1 as [|h v1 now s ok v2 _ IH Hstep]; [unfold count; simpl; lia|].
  apply step_uses in Hstep. rewrite !count_snoc. lia.
Qed.

(** ** What was approved *)

(** Approvals are created pending. *)
Definition created_pending (e : Entry) : Prop :=
  match e with (_, Insert r _, _) => apv_status r = "created" | _ => True end.

(** The entry that decided an approval, and what came before and after it. *)
Definition decided_by (h : list Entry) (a : Approval) : Prop :=
  ∃ h0 now u re d h3,
    h = h0 ++ (now, Decide tenant id (av_status a) u re d, true) :: h3 ∧
    Forall (λ e, changes e = false) h3 ∧ bound_hash h0 = Some (av_hash a).

(** What a history says of the approval it leaves. *)
Definition explained (h : list Entry) (v : option Approval) : Prop :=
  match v with
  | Some a => bound_hash h = Some (av_hash a) ∧
      (av_status a = "created" ∨ av_consumed a = true ∨ decided_by h a)
  | None => True
  end.

Lemma bound_snoc h e : bound_hash (h ++ [e]) = rebind (bound_hash h) e.
Proof. unfold bound_hash. by rewrite foldl_app. Qed.

Lemma rebind_quiet cur e : changes e = false → rebind cur e = cur.
Proof. destruct e as [[now []] []]; simpl; try done; by intros ->. Qed.

Lemma explained_quiet h e v : changes e = false → explained h v → explained (h ++ [e]) v.
Proof.
  intros Hq. destruct v as [a|]; [|done]. intros [Hb Hs]. split; [by rewrite bound_snoc, rebind_quiet|].
  destruct Hs as [?|[?|(h0 & now & u & re & d & h3 & -> & Hf & Hb0)]]; [by left|by right; left|].
  do 2 right. exists h0, now, u, re, d, (h3 ++ [e]). rewrite <- app_assoc. split; [done|].
  split; [|done]. by apply Forall_app; split; [|constructor].
Qed.

Lemma about_other_quiet now s ok : ¬ about tenant id s → changes (now, s, ok) = false.
Proof.
  rewrite <- about_b_spec. destruct s, ok; simpl; try done; by intros ?%not_true_is_false.
Qed.

Lemma step_explained now s ok h v v' :
  created_pending (now, s, ok) → explained h v → astep tenant id now s ok v v' →
  explained (h ++ [(now, s, ok)]) v'.
Proof.
  intros Hp He Hstep. destruct Hstep as [r at_ Ht Hi| |u re call h' a Ho| |st u re d a [Ho Hal]|
    |c a [Ho Hc]| |cutoff a _|cutoff v|s ok v Hn];
    try by (apply explained_quiet; [done|exact He]).
  - split; [|by left]. rewrite bound_snoc. simpl.
    by rewrite (proj2 (eqb_spec_true _ _) Ht), (proj2 (eqb_spec_true _ _) Hi).
  - destruct He as [_ Hs]. split; [rewrite bound_snoc; simpl; by rewrite !eqb_refl|].
    destruct Ho as [Ho _]. by left.
  - destruct He as [Hb _]. split; [by rewrite bound_snoc|]. do 2 right.
    exists h, now, u, re, d, []. by split_and!.
  - destruct He as [Hb _]. split; [by rewrite bound_snoc|]. by right; left.
  - done.
  - apply explained_quiet; [by apply about_other_quiet|exact He].
Qed.

Lemma trace_explained h v :
  atrace tenant id None h v → Forall created_pending h → explained h v.
Proof.
  induction 1 as [|h v1 now s ok v2 _ IH Hstep]; [done|].
  intros [Hh [Hp _]%list.Forall_cons]%Forall_app. eapply step_explained; [done| |done]. auto.
Qed.

(** ** One entry of a run *)

Lemma trace_snoc_inv v h now s ok v' :
  atrace tenant id v (h ++ [(now, s, ok)]) v' →
  ∃ v1, atrace tenant id v h v1 ∧ astep tenant id now s ok v1 v'.
Proof.
  remember (h ++ [(now, s, ok)]) as l eqn:Hl. destruct 1 as [|h' v1 now' s' ok' v2 Hh Hstep].
  - by destruct h.
  - apply app_inj_tail in Hl as [-> [= -> -> ->]]. eauto.
Qed.

Lemma trace_split v h1 now s ok h2 v' :
  atrace tenant id v (h1 ++ (now, s, ok) :: h2) v' →
  ∃ v1 v2, atrace tenant id v h1 v1 ∧ astep tenant id now s ok v1 v2.
Proof.
  revert v'. induction h2 as [|[[now' s'] ok'] h2 IH] using rev_ind; intros v' Ht.
  - apply trace_snoc_inv in Ht as (v1 & ? & ?). eauto.
  - rewrite app_comm_cons, app_assoc in Ht. apply trace_snoc_inv in Ht as (v1 & ? & _). eauto.
Qed.

(** A consume that took effect follows the decision to approve, with nothing in
    between, of the action it names. *)
Lemma consume_follows_approval h1 now c h2 v :
  atrace tenant id None (h1 ++ (now, Consume tenant id c, true) :: h2) v →
  Forall created_pending h1 →
  ∃ h0 at_ u re d h3 hash,
    h1 = h0 ++ (at_, Decide tenant id "APPROVED" u re d, true) :: h3 ∧
    Forall (λ e, changes e = false) h3 ∧ bound_hash h0 = Some hash ∧
    (∀ claimed, c = Some claimed → claimed = hash).
Proof.
  intros (v1 & v2 & Ht & Hstep)%trace_split Hp.
  pose proof (trace_explained h1 v1 Ht Hp) as He.
  inversion Hstep as [| | | | | |c' a (Hst & Hco & _) Hcl| | | |s' ok' v' Hn];
    subst; [|by destruct Hn].
  destruct He as [_ [Hs|[Hs|(h0 & at_ & u & re & d & h3 & -> & Hq & Hb)]]]; [congruence..|].
  rewrite Hst in *. exists h0, at_, u, re, d, h3, (av_hash a). split_and!; [done..|].
  intros claimed ->. by symmetry.
Qed.
End Key.

(** C11: The approvals table implements the life of an approval. A database
    session is any sequence of the statements of db/approvals.rs (insert, edit,
    decide, consume, and the retention job's delete), for any tenants and
    approvals, in the order the database ran them. Seen through any one
    (tenant, id), the session is a run of the approval machine [astep]: an
    approval is created once per id; an edit or a decision takes effect
    exactly when the approval is pending and unexpired, and sets just the bound
    hash or the status; a consume takes effect exactly when the approval is
    APPROVED, unexpired, not yet consumed and bound to the claimed hash, and
    marks it used; the sweep removes it only when it is not pending; statements
    about other approvals, of this tenant or another, change nothing. The
    primary key stays unique throughout. *)
Theorem approval_table_refines_machine rows h rows' :
  unique rows → history rows h rows' →
  unique rows' ∧ ∀ tenant id, atrace tenant id (view tenant id rows) h (view tenant id rows').
Proof. apply history_refines. Qed.
End Table.

(** A session: an approval is created, edited, approved, consumed by the
    edited hash, and a second consume and an edit are refused. *)
Definition sample_approval (id : string) : ApprovalRecord := {|
  apv_id := id; apv_tenant_id := "acme"; apv_decision_id := "d1"; apv_status := "created";
  apv_approver_group := None; apv_approver_user_id := None; apv_reason := None;
  apv_original_skill_call := "{}"; apv_original_call_hash := "h0"; apv_edited_skill_call := None;
  apv_effective_call_hash := None; apv_expires_at := Some 1000%Z; apv_decided_at := None;
  apv_callback_url := None; apv_callback_secret_hash := None; apv_created_at := 0%Z |}.

Definition sample_session : list (DateTime * Stmt) :=
  [(1, Insert (sample_approval "a1") 1); (2, Insert (sample_approval "a2") 2);
   (3, Edit "acme" "a1" "u" None "{1}" "h1"); (4, Consume "acme" "a1" (Some "h1"));
   (5, Decide "acme" "a1" "APPROVED" "u" None None); (6, Edit "acme" "a1" "u" None "{2}" "h2");
   (7, Consume "acme" "a1" (Some "h0")); (8, Consume "acme" "a1" (Some "h1"));
   (9, Consume "acme" "a1" None); (2000, Sweep 1500)]%Z.

Lemma approval_table_refines_machine_witness :
  replay Z.ltb [] sample_session =
    zip sample_session [true; true; true; false; true; false; false; true; false; true] ∧
  ∃ rows', history Z.ltb [] (replay Z.ltb [] sample_session) rows' ∧
    atrace "acme" "a1" None (replay Z.ltb [] sample_session) (view "acme" "a1" rows').
Proof.
  split; [reflexivity|]. destruct (replay_history Z.ltb [] sample_session) as [rows' Hh].
  exists rows'. split; [exact Hh|].
  apply (approval_table_refines_machine Z.ltb [] _ rows'); [constructor|exact Hh].
Defined.
End Approvals.
