(* ===== verification/Runtime.v ===== *)
(** * The ports of the decision crate

    Models [src/lib/decision/src/runtime.rs].  The trait [DecisionRuntime] is
    the effect signature [DecisionE]: one constructor per method, with the
    method's arguments, indexed by the method's answer.  [Now] and [NewUuid]
    are [Utc::now()] and [Uuid::new_v4()].  A stage of the pipeline is a
    [prog DecisionE _], so a theorem about all its runs holds for every
    implementor of the trait, concurrent requests included. *)

From S2P Require Import Prelude RustString Prog Canon Models.

Inductive AdmissionEffect :=
| Disabled
| Pass
| Mutate (new_params : Canon.Value)
| Reject (reason : string).

Inductive EnforcementStatus := Clear | AgentBanned | ToolBanned | AgentQuarantined.

Record RegisteredActionMeta := {
  ram_risk : string;
  ram_mutates_state : bool;
  ram_approval_required : bool;
  ram_default_decision : string }.

Record McpToolMeta := {
  mtm_risk : string;
  mtm_approval_required : bool;
  mtm_status : string }.

Record PolicyDecisionView := {
  pd_decision : string;
  pd_matched_policies : list string;
  pd_approver_group : option string;
  pd_reason : string;
  pd_redacted_fields : list string }.

Record ApprovalCreateParams := {
  acp_decision_id : Uuid;
  acp_action_hash : string;
  acp_approver_group : option string;
  acp_callback_url : option string;
  acp_callback_secret : option string;
  acp_approval_ttl_secs : Z }.

Abbreviation Fallible A := (Result A AegisError).

Inductive DecisionE : Type → Type :=
| GetAgentByToken (tenant_id token : string) : DecisionE (Fallible (option AuthorizeAgent))
| GetAgentByMtlsCn (tenant_id cn : string) : DecisionE (Fallible (option AuthorizeAgent))
| AuthFailureBlocked (client_addr : SocketAddr) (tenant_id : string) : DecisionE bool
| RecordAuthFailure (client_addr : SocketAddr) (tenant_id : string) : DecisionE unit
| AgentToolPermitted (tenant_id agent_id tool : string) : DecisionE (Fallible bool)
| GetDecisionByRequestId (tenant_id agent_id request_id : string) :
    DecisionE (Fallible (option DecisionRecord))
| CheckAndRecordNonce (tenant_id agent_id nonce : string) (now : DateTime) :
    DecisionE (Fallible bool)
| CheckRateLimit (tenant_id : string) : DecisionE bool
| CheckQuota (tenant_id : string) : DecisionE bool
| TouchHeartbeat (tenant_id agent_id : string) : DecisionE unit
| WriteDecisionAndAudit (write : DecisionAuditWrite) : DecisionE (Fallible Z)
| CallAdmissionWebhook (request : AuthorizeRequest) : DecisionE (Fallible AdmissionEffect)
| ComputeActionHash (tenant_id : string) (request_id : option string)
    (tool_call : AuthorizeToolCall) : DecisionE string
| GetEnforcementStatus (tenant_id agent_id normalized_tool : string) :
    DecisionE (Fallible EnforcementStatus)
| SkillActionMeta (tenant_id normalized_tool normalized_action : string) :
    DecisionE (Fallible (option RegisteredActionMeta))
| AgentMcpServerPermitted (tenant_id agent_id server_key : string) : DecisionE (Fallible bool)
| McpServerStatus (tenant_id server_key : string) : DecisionE (Fallible (option string))
| GetMcpToolMeta (tenant_id server_key normalized_action : string) :
    DecisionE (Fallible (option McpToolMeta))
| EnsurePoliciesLoaded (tenant_id : string) : DecisionE (Fallible unit)
| EvaluateCedar (tenant_id : string) (request : AuthorizeRequest) (agent_risk_tier : string)
    (is_tool_known is_mtls : bool) : DecisionE (Fallible PolicyDecisionView)
| RecordProvenanceDenial : DecisionE unit
| AuditStreamHasCapacity : DecisionE bool
| SetAuditWriterHealthy (healthy : bool) : DecisionE unit
| EmitReceiptDurable (tenant_id agent_id : string) (request : AuthorizeRequest)
    (decision_id : Uuid) (decision action_hash : string) : DecisionE (Fallible ReceiptIdentity)
| EmitReceiptBestEffort (tenant_id agent_id : string) (request : AuthorizeRequest)
    (decision_id : Uuid) (decision action_hash : string) : DecisionE unit
| QuarantineAgent (tenant_id agent_id : string) : DecisionE (Fallible unit)
| EmitAgentQuarantined (tenant_id agent_id : string) (request : AuthorizeRequest)
    (risk_score : Z) (reason : string) (matched_policies : list string) : DecisionE unit
| CreateApproval (tenant_id agent_id : string) (request : AuthorizeRequest)
    (params : ApprovalCreateParams) : DecisionE (Fallible ApprovalResponseInfo)
| MaybeEscalateRiskTier (tenant_id agent_id current_tier : string) :
    DecisionE (Fallible (option (string * string)))
| EmitRiskEscalated (tenant_id agent_id : string) (request : AuthorizeRequest)
    (decision : string) (decision_id : Uuid) (risk_score : Z) (old_tier new_tier : string)
    (matched_policies : list string) : DecisionE unit
| NotifyGithubDecision (request : AuthorizeRequest) (decision reason : string) (risk_score : Z)
    (decision_id : Uuid) (matched_policies : list string) : DecisionE unit
| IdempotentReplay (record : DecisionRecord) : DecisionE (Fallible AuthorizeResponse)
| Now : DecisionE DateTime
| NewUuid : DecisionE Uuid.

Abbreviation Decide A := (prog DecisionE A).
Abbreviation dtrace := (list (event DecisionE)).

(** [Err] of a port call as the stage's early return. *)
Definition or_outcome {A} (r : Fallible A) : Result A DecisionOutcome :=
  map_err aegis_err_to_outcome r.

(** ** Classes of calls *)

(** Calls that leave something behind after the request: rows, receipts,
    approvals, agent state, notifications.  [WriteDecisionAndAudit] with
    [wr_dry_run] only computes the composite score
    ([routes::write_decision_and_audit] returns before its first write). *)
Definition persists {T} (e : DecisionE T) : bool :=
  match e with
  | WriteDecisionAndAudit w => negb (wr_dry_run w)
  | EmitReceiptDurable _ _ _ _ _ _ | EmitReceiptBestEffort _ _ _ _ _ _
  | QuarantineAgent _ _ | EmitAgentQuarantined _ _ _ _ _ _ | CreateApproval _ _ _ _
  | MaybeEscalateRiskTier _ _ _ | EmitRiskEscalated _ _ _ _ _ _ _ _ _
  | NotifyGithubDecision _ _ _ _ _ _ | TouchHeartbeat _ _
  | CheckAndRecordNonce _ _ _ _ => true
  | _ => false
  end.

(** The nonce store is written by the replay check. *)
Definition records_nonce {T} (e : DecisionE T) : bool :=
  match e with CheckAndRecordNonce _ _ _ _ => true | _ => false end.

(** The tenant a call is scoped to. *)
Definition tenant_of {T} (e : DecisionE T) : option string :=
  match e with
  | GetAgentByToken t _ | GetAgentByMtlsCn t _ | AuthFailureBlocked _ t | RecordAuthFailure _ t
  | AgentToolPermitted t _ _ | GetDecisionByRequestId t _ _ | CheckAndRecordNonce t _ _ _
  | CheckRateLimit t | CheckQuota t | TouchHeartbeat t _ | ComputeActionHash t _ _
  | GetEnforcementStatus t _ _ | SkillActionMeta t _ _ | AgentMcpServerPermitted t _ _
  | McpServerStatus t _ | GetMcpToolMeta t _ _ | EnsurePoliciesLoaded t | EvaluateCedar t _ _ _ _
  | EmitReceiptDurable t _ _ _ _ _ | EmitReceiptBestEffort t _ _ _ _ _ | QuarantineAgent t _
  | EmitAgentQuarantined t _ _ _ _ _ | CreateApproval t _ _ _ | MaybeEscalateRiskTier t _ _
  | EmitRiskEscalated t _ _ _ _ _ _ _ _ => Some t
  | WriteDecisionAndAudit w => Some (wr_tenant_id w)
  | _ => None
  end.
