(* ===== verification/Admit.v ===== *)
(** * Admit: parse, authenticate, verify the signature, check the environment

    Models [src/lib/decision/src/admit.rs]. *)

From S2P Require Import Prelude RustString Prog Trust Canon Models External Validation Runtime.

Record AdmittedAuthorize := {
  ad_request : AuthorizeRequest;
  ad_agent : AuthorizeAgent;
  ad_root_trust_level : string;
  ad_dry_run : bool;
  ad_used_mtls : bool }.

(** [request.trace.as_ref().and_then(|t| t.root_trust_level.as_deref())] *)
Definition inherited_trust (request : AuthorizeRequest) : option string :=
  t ← rq_trace request; trc_root_trust_level t.

(** The effective trust of a request, as [admit], the Cedar engine and the
    decision row compute it. *)
Definition effective_trust (request : AuthorizeRequest) : string :=
  Trust.propagate (inherited_trust request) (dctx_source_trust (rq_context request)).

Module Admit.
Section Admit.
Context {X : External}.

(** The two arms of [match &ctx.credential]. *)
Definition resolve_credential (ctx : AuthorizeContext) (runtime_tenant_id : string) :
    Decide (Result (AuthorizeAgent * bool) DecisionOutcome) :=
  match ctx_credential ctx with
  | MtlsCn cn =>
      if is_empty cn then
        _ ← trigger (RecordAuthFailure (ctx_client_addr ctx) runtime_tenant_id);
        mret (Err (outcome_failure (unauthorized "Missing agent token")))
      else
        a ← trigger (GetAgentByMtlsCn runtime_tenant_id cn);
        match a with
        | Err e => mret (Err (aegis_err_to_outcome e))
        | Ok (Some a) => mret (Ok (a, true))
        | Ok None =>
            _ ← trigger (RecordAuthFailure (ctx_client_addr ctx) runtime_tenant_id);
            mret (Err (outcome_failure (unauthorized "Unrecognized mTLS client certificate")))
        end
  | BearerToken token =>
      if is_empty token then
        _ ← trigger (RecordAuthFailure (ctx_client_addr ctx) runtime_tenant_id);
        mret (Err (outcome_failure (unauthorized "Missing agent token")))
      else
        a ← trigger (GetAgentByToken runtime_tenant_id token);
        match a with
        | Err e => mret (Err (aegis_err_to_outcome e))
        | Ok (Some a) => mret (Ok (a, false))
        | Ok None =>
            _ ← trigger (RecordAuthFailure (ctx_client_addr ctx) runtime_tenant_id);
            mret (Err (outcome_failure (unauthorized "Invalid or quarantined agent token")))
        end
  end.

(** The signature check of an agent with a signing key. *)
Definition check_signature (agent : AuthorizeAgent) (ctx : AuthorizeContext) (raw_body : string) :
    Result unit DecisionOutcome :=
  match ag_signing_key agent with
  | Some signing_key =>
      match filter_nonempty (ctx_request_signature ctx) with
      | Some sig =>
          if Hash.verify_request_signature signing_key raw_body sig then Ok tt
          else Err (outcome_failure (unauthorized "invalid_request_signature"))
      | None => Err (outcome_failure (unauthorized "missing_request_signature"))
      end
  | None => Ok tt
  end.

Definition admit_authorize (ctx : AuthorizeContext) (raw_body : string) :
    Decide (Result AdmittedAuthorize DecisionOutcome) :=
  match json_parse_request raw_body with
  | None => mret (Err (outcome_failure (bad_request "Invalid JSON body")))
  | Some request =>
      let dry_run := default false (rq_dry_run request) in
      let root_trust_level := effective_trust request in
      let runtime_tenant_id := ctx_tenant_id ctx in
      if is_empty (trim runtime_tenant_id) then
        mret (Err (outcome_failure (bad_request "Missing tenant_id")))
      else
      blocked ← trigger (AuthFailureBlocked (ctx_client_addr ctx) runtime_tenant_id);
      if (blocked : bool) then
        mret (Err (outcome_failure (with_details
          (too_many_requests "Too many failed authentication attempts. Try again later.")
          (Canon.Object [("reason", Canon.Str "rate_limited_auth_failures")]))))
      else
      resolved ←? resolve_credential ctx runtime_tenant_id;
      let '(agent, used_mtls) := resolved in
      _ ←? mret (check_signature agent ctx raw_body);
      match Validation.validate_environment (ag_allowed_environments agent)
              (actx_environment (rq_agent request)) with
      | Err reason => mret (Err (partial_deny reason))
      | Ok _ =>
          mret (Ok {| ad_request := request; ad_agent := agent;
                      ad_root_trust_level := root_trust_level; ad_dry_run := dry_run;
                      ad_used_mtls := used_mtls |})
      end
  end.

(** ** Lemmas *)

(** What a successful credential lookup called. *)
Definition credential_resolved (ctx : AuthorizeContext) (t : dtrace) (agent : AuthorizeAgent)
    (used_mtls : bool) : Prop :=
  match ctx_credential ctx with
  | BearerToken token =>
      token ≠ "" ∧ used_mtls = false ∧
      t = [Call (GetAgentByToken (ctx_tenant_id ctx) token) (Ok (Some agent))]
  | MtlsCn cn =>
      cn ≠ "" ∧ used_mtls = true ∧
      t = [Call (GetAgentByMtlsCn (ctx_tenant_id ctx) cn) (Ok (Some agent))]
  end.

Lemma resolve_credential_ok ctx t agent used_mtls :
  runs (resolve_credential ctx (ctx_tenant_id ctx)) t (Ok (agent, used_mtls)) →
  credential_resolved ctx t agent used_mtls.
Proof.
  unfold resolve_credential, credential_resolved. intros H.
  destruct (ctx_credential ctx) as [token|cn].
  all: prog_run H; simplify_eq.
  all: split; [by intros ->|done].
Qed.

(** A rejected credential is an authentication failure, and only a rejected
    credential is recorded as one. *)
Lemma resolve_credential_err ctx t o :
  runs (resolve_credential ctx (ctx_tenant_id ctx)) t (Err o) →
  no_decision o.
Proof.
  unfold resolve_credential. intros H. destruct (ctx_credential ctx) as [token|cn].
  all: prog_run H; simplify_eq; auto with outcome.
Qed.

Lemma check_signature_ok agent ctx body :
  check_signature agent ctx body = Ok tt ↔
  ∀ key, ag_signing_key agent = Some key →
    ∃ sig, ctx_request_signature ctx = Some sig ∧ sig ≠ "" ∧
           Hash.verify_request_signature key body sig = true.
Proof.
  unfold check_signature. destruct (ag_signing_key agent) as [key|]; [|by split].
  split.
  - intros H key' [= <-].
    destruct (ctx_request_signature ctx) as [sig|]; simpl in H; [|done].
    destruct (is_empty sig) eqn:He; [done|].
    destruct (Hash.verify_request_signature key body sig) eqn:Hv; [|done].
    exists sig. split; [done|]. split; [by intros ->|done].
  - intros H. destruct (H key eq_refl) as (sig & -> & Hne & Hv). simpl.
    destruct sig; [done|]. simpl. by rewrite Hv.
Qed.

Lemma check_signature_err agent ctx body o :
  check_signature agent ctx body = Err o → no_decision o.
Proof. unfold check_signature. intros. repeat case_match; simplify_eq; auto with outcome. Qed.

(** What an admitted request has passed. *)
Record admitted_by (ctx : AuthorizeContext) (body : string) (t : dtrace)
    (a : AdmittedAuthorize) : Prop := {
  adm_parsed : json_parse_request body = Some (ad_request a);
  adm_trust : ad_root_trust_level a = effective_trust (ad_request a);
  adm_dry_run : ad_dry_run a = default false (rq_dry_run (ad_request a));
  adm_tenant : trim (ctx_tenant_id ctx) ≠ "";
  adm_calls : ∃ t', t = Call (AuthFailureBlocked (ctx_client_addr ctx) (ctx_tenant_id ctx)) false :: t'
                ∧ credential_resolved ctx t' (ad_agent a) (ad_used_mtls a);
  adm_signature : ∀ key, ag_signing_key (ad_agent a) = Some key →
    ∃ sig, ctx_request_signature ctx = Some sig ∧ sig ≠ "" ∧
           Hash.verify_request_signature key body sig = true;
  adm_environment : Validation.validate_environment (ag_allowed_environments (ad_agent a))
    (actx_environment (rq_agent (ad_request a))) = Ok tt }.

Lemma admit_ok ctx body t a :
  runs (admit_authorize ctx body) t (Ok a) → admitted_by ctx body t a.
Proof.
  unfold admit_authorize. intros H. prog_run H; simplify_eq.
  match goal with Hr : runs (resolve_credential _ _) _ _ |- _ => apply resolve_credential_ok in Hr end.
  match goal with Hs : check_signature _ _ _ = Ok ?u |- _ =>
    destruct u; rewrite check_signature_ok in Hs end.
  split; simpl; try done.
  - intros He. by rewrite He in Hb.
  - eexists. rewrite app_nil_r. done.
  - by destruct_units.
Qed.

Lemma admit_err ctx body t o :
  runs (admit_authorize ctx body) t (Err o) → no_decision o.
Proof.
  unfold admit_authorize. intros H. prog_run H; simplify_eq; auto with outcome.
  - by eapply check_signature_err.
  - by eapply resolve_credential_err.
Qed.
End Admit.
End Admit.
