(* ===== verification/Cedar.v ===== *)
(** * The policy engine

    Models [PolicyEngine] of [src/lib/policy/src/cedar.rs]: the base policy
    set with its source, the per-tenant sets, their reload, and [authorize],
    which asks the [cedar-policy] crate and turns its binary answer and the
    annotations of the policies that decided it into one of five decisions.
    The crate is the class [CedarCrate]; [ca_reasons] are the ids of the
    policies that decided, in the order the crate iterates them.  A policy file
    is read outside: the reloads take what reading it answered. *)

From S2P Require Import Prelude RustString Trust Canon Models Records External Validation Runtime Admit.

Class CedarCrate := {
  PolicySet : Type;
  Policy : Type;
  PolicyId : Type;
  EntityUid : Type;
  CedarContext : Type;
  CedarRequest : Type;
  policy_set_from_str : string → Result PolicySet string;
  entity_uid_from_str : string → Result EntityUid string;
  context_from_json : Canon.Value → Result CedarContext string;
  request_new : EntityUid → EntityUid → EntityUid → CedarContext → Result CedarRequest string;
  is_authorized : CedarRequest → PolicySet → bool * list PolicyId;
  policy_of : PolicySet → PolicyId → option Policy;
  annotation : Policy → string → option string;
  policy_id_to_string : PolicyId → string }.

Inductive PolicyError :=
| PolicyParse (m : string)
| PolicyEntityUid (m : string)
| PolicyContext (m : string)
| PolicyFile (m : string).

Record AuthorizeDecision := {
  az_decision : string;
  az_matched_policies : list string;
  az_approver_group : option string;
  az_reason : string;
  az_redacted_fields : list string }.

Module Cedar.
Section Engine.
Context {X : External} {CC : CedarCrate}.

Record PolicyEngine := {
  base_policy_set : PolicySet;
  base_policy_src : string;
  tenant_policy_sets : gmap string PolicySet }.

(** ** Loading *)

Definition init (file : Result string string) : Result PolicyEngine PolicyError :=
  match file with
  | Err e => Err (PolicyFile e)
  | Ok src =>
      match policy_set_from_str src with
      | Err e => Err (PolicyParse e)
      | Ok set => Ok {| base_policy_set := set; base_policy_src := src; tenant_policy_sets := ∅ |}
      end
  end.

Definition has_tenant (e : PolicyEngine) (tenant_id : string) : bool :=
  bool_decide (is_Some (tenant_policy_sets e !! tenant_id)).

Definition newline : string := String (ascii_of_nat 10) "".

(** The loop over the records: an active one must parse by itself. *)
Fixpoint combine (src : string) (policies : list PolicyRecord) : Result string PolicyError :=
  match policies with
  | [] => Ok src
  | rec :: rest =>
      if negb (pol_status rec == "active") then combine src rest
      else
        match policy_set_from_str (pol_body rec) with
        | Err e => Err (PolicyParse ("Failed to parse custom policy '" +:+ pol_id rec +:+ "': " +:+ e))
        | Ok _ => combine (src +:+ newline +:+ pol_body rec) rest
        end
  end.

(** The set [reload_tenant_policies] builds from a base source. *)
Definition tenant_set (base tenant_id : string) (policies : list PolicyRecord) :
    Result PolicySet PolicyError :=
  match combine base policies with
  | Err e => Err e
  | Ok src =>
      map_err (λ e, PolicyParse ("Failed to parse combined policy set for tenant '" +:+ tenant_id
                                 +:+ "': " +:+ e)) (policy_set_from_str src)
  end.

Definition insert_set (e : PolicyEngine) (tenant_id : string) (set : PolicySet) : PolicyEngine :=
  {| base_policy_set := base_policy_set e; base_policy_src := base_policy_src e;
     tenant_policy_sets := <[tenant_id := set]> (tenant_policy_sets e) |}.

Definition reload_tenant_policies (e : PolicyEngine) (tenant_id : string)
    (policies : list PolicyRecord) : Result unit PolicyError * PolicyEngine :=
  match tenant_set (base_policy_src e) tenant_id policies with
  | Err err => (Err err, e)
  | Ok set => (Ok tt, insert_set e tenant_id set)
  end.

Definition reload_file (e : PolicyEngine) (file : Result string string) :
    Result unit PolicyError * PolicyEngine :=
  match file with
  | Err err => (Err (PolicyFile err), e)
  | Ok src =>
      match policy_set_from_str src with
      | Err err => (Err (PolicyParse err), e)
      | Ok set =>
          (Ok tt, {| base_policy_set := set; base_policy_src := src; tenant_policy_sets := ∅ |})
      end
  end.

(** ** The request *)

Definition quoted (kind id : string) : string :=
  kind +:+ "::" +:+ String (ascii_of_nat 34) (id +:+ String (ascii_of_nat 34) "").

(** [value.get(key).and_then(|v| v.as_str())] *)
Definition get_str (key : string) (v : Canon.Value) : option string :=
  match v with
  | Canon.Object entries =>
      match find (λ e, e.1 == key) entries with
      | Some (_, Canon.Str s) => Some s
      | _ => None
      end
  | _ => None
  end.

Definition context_json (r : AuthorizeRequest) (agent_risk_tier : string)
    (is_tool_known is_mtls : bool) : Canon.Value :=
  let trust := effective_trust r in
  Canon.Object
    [("trust_level", Canon.Str trust);
     ("root_trust_level", Canon.Str trust);
     ("contains_sensitive_data", Canon.Bool (dctx_contains_sensitive_data (rq_context r)));
     ("mutates_state", Canon.Bool (tc_mutates_state (rq_tool_call r)));
     ("resource_base_branch",
       Canon.Str (default "" (get_str "base_branch" (tc_parameters (rq_tool_call r)))));
     ("agent_risk_tier", Canon.Str agent_risk_tier);
     ("is_mcp_tool_known", Canon.Bool is_tool_known);
     ("is_mtls", Canon.Bool is_mtls);
     ("environment", Canon.Str (actx_environment (rq_agent r)))].

Definition resource_uid (r : AuthorizeRequest) : string :=
  quoted "ToolAction"
    (Validation.normalize_tool_identifier (tc_tool (rq_tool_call r)) +:+ "_" +:+
     Validation.normalize_tool_identifier (tc_action (rq_tool_call r))).

Definition or_uid {A} (r : Result A string) : Result A PolicyError := map_err PolicyEntityUid r.
Definition or_context {A} (r : Result A string) : Result A PolicyError := map_err PolicyContext r.

Definition and_then {A B E} (r : Result A E) (f : A → Result B E) : Result B E :=
  match r with Ok a => f a | Err e => Err e end.

Definition cedar_request (r : AuthorizeRequest) (tier : string) (is_tool_known is_mtls : bool) :
    Result CedarRequest PolicyError :=
  and_then (or_uid (entity_uid_from_str (quoted "Agent" (actx_id (rq_agent r))))) (λ principal,
  and_then (or_uid (entity_uid_from_str (quoted "Action" "tool_call"))) (λ action,
  and_then (or_uid (entity_uid_from_str (resource_uid r))) (λ resource,
  and_then (or_context (context_from_json (context_json r tier is_tool_known is_mtls))) (λ context,
  or_context (request_new principal action resource context))))).

(** ** The verdict *)

Definition unquote (s : string) : string := trim_matches (ascii_of_nat 34) s.

(** The annotation override: it only escalates. *)
Definition escalate (decision dec : string) : string :=
  if (decision == "allow") || (decision == "redact") || (decision == "require_approval") then
    if dec == "quarantine" then "quarantine"
    else if (dec == "require_approval") && ((decision == "allow") || (decision == "redact"))
    then "require_approval"
    else if (dec == "redact") && (decision == "allow") then "redact"
    else decision
  else decision.

Definition add_field (fields : list string) (field : string) : list string :=
  let trimmed := trim field in
  if negb (is_empty trimmed) && negb (bool_decide (trimmed ∈ fields)) then fields ++ [trimmed]
  else fields.

(** The body of the loop over [response.diagnostics().reason()]. *)
Definition consider (set : PolicySet) (v : AuthorizeDecision) (id : PolicyId) : AuthorizeDecision :=
  let policy := policy_of set id in
  let noted key := p ← policy; unquote <$> annotation p key in
  {| az_decision := match noted "decision" with
                    | Some dec => escalate (az_decision v) dec
                    | None => az_decision v
                    end;
     az_matched_policies := az_matched_policies v ++ [default (policy_id_to_string id) (noted "id")];
     az_approver_group := match noted "approver_group" with
                          | Some g => Some g
                          | None => az_approver_group v
                          end;
     az_reason := default (az_reason v) (noted "reason");
     az_redacted_fields := match noted "redact_fields" with
                           | Some fs => foldl add_field (az_redacted_fields v) (split_on "," fs)
                           | None => az_redacted_fields v
                           end |}.

(** Fields are reported only for [redact]. *)
Definition clear_fields (v : AuthorizeDecision) : AuthorizeDecision :=
  {| az_decision := az_decision v; az_matched_policies := az_matched_policies v;
     az_approver_group := az_approver_group v; az_reason := az_reason v;
     az_redacted_fields := if az_decision v == "redact" then az_redacted_fields v else [] |}.

Definition verdict (set : PolicySet) (allowed : bool) (reasons : list PolicyId) : AuthorizeDecision :=
  clear_fields (foldl (consider set)
    {| az_decision := if allowed then "allow" else "deny"; az_matched_policies := [];
       az_approver_group := None; az_reason := "Policy evaluation complete.";
       az_redacted_fields := [] |} reasons).

Definition policy_set_for (e : PolicyEngine) (tenant_id : string) : PolicySet :=
  default (base_policy_set e) (tenant_policy_sets e !! tenant_id).

Definition authorize (e : PolicyEngine) (tenant_id : string) (r : AuthorizeRequest)
    (agent_risk_tier : string) (is_tool_known is_mtls : bool) :
    Result AuthorizeDecision PolicyError :=
  and_then (cedar_request r agent_risk_tier is_tool_known is_mtls) (λ request,
    let set := policy_set_for e tenant_id in
    let '(allowed, reasons) := is_authorized request set in
    Ok (verdict set allowed reasons)).

(** ** What the verdict is *)

(** An annotation of a deciding policy, unquoted. *)
Definition note (set : PolicySet) (key : string) (id : PolicyId) : option string :=
  p ← policy_of set id; unquote <$> annotation p key.

(** The most severe of the decisions noted on the policies that allowed. *)
Definition most_severe (notes : list string) : string :=
  if bool_decide ("quarantine" ∈ notes) then "quarantine"
  else if bool_decide ("require_approval" ∈ notes) then "require_approval"
  else if bool_decide ("redact" ∈ notes) then "redact" else "allow".

Lemma most_severe_snoc notes dec :
  most_severe (notes ++ [dec]) = escalate (most_severe notes) dec.
Proof.
  unfold most_severe, escalate.
  destruct (dec == "quarantine") eqn:Hq, (dec == "require_approval") eqn:Ha, (dec == "redact") eqn:Hr;
    str_eq; subst; repeat case_bool_decide; try done;
    repeat match goal with
    | H : _ ∈ _ ++ [_] |- _ => apply elem_of_app in H as [H|H%list_elem_of_singleton]
    | H : ¬ (_ ∈ _ ++ [_]) |- _ => rewrite elem_of_app, list_elem_of_singleton in H
    end; try done; try naive_solver.
Qed.

Lemma escalate_deny dec : escalate "deny" dec = "deny".
Proof. done. Qed.

Lemma considered_decision set reasons v0 :
  az_decision (foldl (consider set) v0 reasons) =
  foldl escalate (az_decision v0) (omap (note set "decision") reasons).
Proof.
  revert v0. induction reasons as [|id reasons IH]; intros v0; simpl; [done|].
  rewrite IH. simpl. unfold note. by destruct (p ← policy_of set id; _).
Qed.

Lemma escalated_most_severe notes : foldl escalate "allow" notes = most_severe notes.
Proof.
  induction notes as [|dec notes IH] using rev_ind; [done|].
  by rewrite foldl_app, IH, most_severe_snoc.
Qed.

Lemma escalated_deny notes : foldl escalate "deny" notes = "deny".
Proof. by induction notes. Qed.

(** The fields a policy asks to redact. *)
Definition fields_of (set : PolicySet) (id : PolicyId) : list string :=
  match note set "redact_fields" id with
  | Some fs => filter (λ f, f ≠ "") (trim <$> split_on "," fs)
  | None => []
  end.

Lemma add_field_spec fields piece :
  NoDup fields →
  NoDup (add_field fields piece) ∧
  ∀ f, f ∈ add_field fields piece ↔ f ∈ fields ∨ f ≠ "" ∧ f = trim piece.
Proof.
  intros Hn. unfold add_field. destruct (is_empty (trim piece)) eqn:He; simpl.
  - apply is_empty_spec in He. rewrite He. split; [done|]. naive_solver.
  - assert (trim piece ≠ "") as Hne by (intros H; by rewrite H in He).
    case_bool_decide as Hin; simpl; [split; [done|naive_solver]|].
    split.
    + apply list.NoDup_app. split; [done|]. split; [|apply list.NoDup_singleton].
      intros x Hx ->%list_elem_of_singleton. done.
    + intros f. rewrite elem_of_app, list_elem_of_singleton. naive_solver.
Qed.

Lemma add_fields_spec pieces fields :
  NoDup fields →
  NoDup (foldl add_field fields pieces) ∧
  ∀ f, f ∈ foldl add_field fields pieces ↔ f ∈ fields ∨ f ≠ "" ∧ f ∈ trim <$> pieces.
Proof.
  revert fields. induction pieces as [|piece pieces IH]; intros fields Hn; cbn [foldl fmap list_fmap].
  - split; [done|]. intros f. rewrite elem_of_nil. naive_solver.
  - destruct (add_field_spec fields piece Hn) as [Hn' Hf].
    destruct (IH _ Hn') as [Hn2 Hf2]. split; [done|]. intros f.
    rewrite Hf2, Hf, elem_of_cons. naive_solver.
Qed.

Lemma considered_fields set reasons v0 :
  NoDup (az_redacted_fields v0) →
  NoDup (az_redacted_fields (foldl (consider set) v0 reasons)) ∧
  ∀ f, f ∈ az_redacted_fields (foldl (consider set) v0 reasons) ↔
       f ∈ az_redacted_fields v0 ∨ ∃ id, id ∈ reasons ∧ f ∈ fields_of set id.
Proof.
  revert v0. induction reasons as [|id reasons IH]; intros v0 Hn; cbn [foldl].
  - split; [done|]. intros f. setoid_rewrite elem_of_nil. naive_solver.
  - assert (NoDup (az_redacted_fields (consider set v0 id)) ∧
      ∀ f, f ∈ az_redacted_fields (consider set v0 id) ↔
           f ∈ az_redacted_fields v0 ∨ f ∈ fields_of set id) as [Hn' Hf].
    { unfold fields_of, note. simpl. destruct (p ← policy_of set id; _) as [fs|].
      - destruct (add_fields_spec (split_on "," fs) _ Hn) as [? Hf]. split; [done|].
        intros f. by rewrite Hf, list_elem_of_filter.
      - split; [done|]. intros f. rewrite elem_of_nil. naive_solver. }
    destruct (IH _ Hn') as [Hn2 Hf2]. split; [done|]. intros f. rewrite Hf2, Hf.
    setoid_rewrite elem_of_cons. naive_solver.
Qed.

(** C37: the engine only escalates. What [authorize] answers for a tenant is
    decided by the tenant's policy set, or by the base set when it has none: a
    Cedar denial is [deny] whatever the annotations say, and a Cedar allow is
    the most severe decision annotated on any policy that allowed it
    ([quarantine] over [require_approval] over [redact] over [allow]). The
    fields to redact are, without repetition, the non-empty ones any of these
    policies names, and are reported only with [redact]. None of this depends
    on the order in which the policies are reported. *)
Theorem engine_answers_most_severe e tenant_id r tier known mtls request allowed reasons :
  cedar_request r tier known mtls = Ok request →
  is_authorized request (policy_set_for e tenant_id) = (allowed, reasons) →
  ∃ v, authorize e tenant_id r tier known mtls = Ok v ∧
    az_decision v =
      (if allowed then most_severe (omap (note (policy_set_for e tenant_id) "decision") reasons)
       else "deny") ∧
    NoDup (az_redacted_fields v) ∧
    ∀ f, f ∈ az_redacted_fields v ↔
      az_decision v = "redact" ∧
      ∃ id, id ∈ reasons ∧ f ∈ fields_of (policy_set_for e tenant_id) id.
Proof.
  intros Hreq Hauth. unfold authorize. rewrite Hreq. simpl. rewrite Hauth.
  eexists. split; [done|]. unfold verdict, clear_fields. cbn [az_decision az_redacted_fields].
  destruct (considered_fields (policy_set_for e tenant_id) reasons
    {| az_decision := if allowed then "allow" else "deny"; az_matched_policies := [];
       az_approver_group := None; az_reason := "Policy evaluation complete.";
       az_redacted_fields := [] |} NoDup_nil_2) as [Hn Hf].
  split; [|split].
  - rewrite considered_decision. simpl. destruct allowed;
      [apply escalated_most_severe|apply escalated_deny].
  - destruct (_ == "redact"); [done|constructor].
  - intros f. destruct (_ == "redact") eqn:Hd; str_eq.
    + rewrite Hf, elem_of_nil. naive_solver.
    + rewrite elem_of_nil. naive_solver.
Qed.

(** ** Reloads *)

(** The sources of the active policies after the base source, one per line. *)
Definition active (policies : list PolicyRecord) : list PolicyRecord :=
  filter (λ rec, pol_status rec = "active") policies.

Definition combined_source (base : string) (policies : list PolicyRecord) : string :=
  foldl (λ src rec, src +:+ newline +:+ pol_body rec) base (active policies).

Lemma combine_spec base policies :
  match combine base policies with
  | Ok src => src = combined_source base policies ∧
      Forall (λ rec, is_ok (policy_set_from_str (pol_body rec)) = true) (active policies)
  | Err _ => ¬ Forall (λ rec, is_ok (policy_set_from_str (pol_body rec)) = true) (active policies)
  end.
Proof.
  unfold combined_source, active. revert base.
  induction policies as [|rec rest IH]; intros base; simpl; [by split|].
  destruct (pol_status rec == "active") eqn:Ha; str_eq; simpl.
  - rewrite list.filter_cons_True by done.
    destruct (policy_set_from_str (pol_body rec)) eqn:Hp; simpl.
    + specialize (IH (base +:+ newline +:+ pol_body rec)).
      destruct (combine _ rest); rewrite list.Forall_cons, Hp; simpl; naive_solver.
    + rewrite list.Forall_cons, Hp. naive_solver.
  - rewrite list.filter_cons_False by done. apply IH.
Qed.

Lemma reload_tenant_spec e tenant_id policies :
  let '(res, e') := reload_tenant_policies e tenant_id policies in
  let good := Forall (λ rec, is_ok (policy_set_from_str (pol_body rec)) = true) (active policies) in
  let parsed := policy_set_from_str (combined_source (base_policy_src e) policies) in
  (is_ok res = true ↔ good ∧ is_ok parsed = true) ∧
  (is_ok res = true → parsed = Ok (policy_set_for e' tenant_id)) ∧
  (is_ok res = false → e' = e) ∧
  ∀ other, other ≠ tenant_id → policy_set_for e' other = policy_set_for e other.
Proof.
  unfold reload_tenant_policies, tenant_set.
  pose proof (combine_spec (base_policy_src e) policies) as Hc.
  destruct (combine (base_policy_src e) policies) as [src|err]; [|by naive_solver].
  destruct Hc as [-> Hall]. destruct (policy_set_from_str _) as [set|err]; simpl; [|by naive_solver].
  split; [done|]. split; [|split; [done|]].
  - intros _. unfold policy_set_for, insert_set. simpl. by rewrite lookup_insert_eq.
  - intros other Hne. unfold policy_set_for, insert_set. simpl. by rewrite lookup_insert_ne.
Qed.

Lemma reload_file_spec e file :
  let '(res, e') := reload_file e file in
  (is_ok res = false → e' = e) ∧
  (is_ok res = true → ∃ src, file = Ok src ∧ base_policy_src e' = src ∧
     ∀ t, has_tenant e' t = false ∧ policy_set_from_str src = Ok (policy_set_for e' t)).
Proof.
  unfold reload_file. destruct file as [src|err]; simpl; [|done].
  destruct (policy_set_from_str src) as [set|err] eqn:Hp; simpl; [|done].
  split; [done|]. intros _. exists src. split; [done|]. split; [done|]. intros t.
  split; [|done]. apply bool_decide_eq_false_2. simpl. rewrite lookup_empty. by intros [? ?].
Qed.

(** A reload replaces one tenant's policies or nothing. It succeeds exactly
    when every active policy of the tenant parses and so does the base source
    followed by all of them; then the tenant is judged by that combination, and
    every other tenant as before. When it fails, nothing changes: a malformed
    policy leaves the previous policies in force. A failed reload of the base
    file changes nothing either, and a successful one drops every tenant's set
    so that none outlives the base it was built on. *)
Theorem reload_replaces_all_or_nothing e tenant_id policies file :
  let '(res, e') := reload_tenant_policies e tenant_id policies in
  let '(fres, fe) := reload_file e file in
  (is_ok res = true ↔
     Forall (λ rec, is_ok (policy_set_from_str (pol_body rec)) = true) (active policies) ∧
     is_ok (policy_set_from_str (combined_source (base_policy_src e) policies)) = true) ∧
  (is_ok res = true →
     policy_set_from_str (combined_source (base_policy_src e) policies) =
       Ok (policy_set_for e' tenant_id)) ∧
  (is_ok res = false → e' = e) ∧
  (∀ other, other ≠ tenant_id → policy_set_for e' other = policy_set_for e other) ∧
  (is_ok fres = false → fe = e) ∧
  (is_ok fres = true → ∃ src, file = Ok src ∧ base_policy_src fe = src ∧
     ∀ t, has_tenant fe t = false ∧ policy_set_from_str src = Ok (policy_set_for fe t)).
Proof.
  pose proof (reload_tenant_spec e tenant_id policies) as Ht.
  pose proof (reload_file_spec e file) as Hf.
  destruct (reload_tenant_policies e tenant_id policies) as [res e'].
  destruct (reload_file e file) as [fres fe]. naive_solver.
Qed.
End Engine.
End Cedar.

(** ** A concrete crate

    A policy set is its source, a source parses unless it has a [!], and two
    policies decide every request: one asks for approval, one for redaction. *)

Definition demo_annotation (p : nat) (key : string) : option string :=
  match p with
  | O => if key == "decision" then Some "redact" else if key == "redact_fields" then Some "ssn, key"
         else if key == "approver_group" then Some "privacy" else None
  | _ => if key == "decision" then Some "require_approval"
         else if key == "approver_group" then Some "security" else None
  end.

Definition demo_crate : CedarCrate := {|
  PolicySet := string; Policy := nat; PolicyId := nat; EntityUid := string;
  CedarContext := Canon.Value; CedarRequest := string;
  policy_set_from_str s := if has_byte "!" s then Err "syntax" else Ok s;
  entity_uid_from_str s := Ok s;
  context_from_json v := Ok v;
  request_new p a r _ := Ok (p +:+ a +:+ r);
  is_authorized _ set := (negb (starts_with "forbid" set), if set == "redact" then [0] else [0; 1]);
  policy_of _ id := Some id;
  annotation := demo_annotation;
  policy_id_to_string _ := "policy" |}.

Definition demo_request : AuthorizeRequest := {|
  rq_request_id := None;
  rq_agent := {| actx_id := "agent-1"; actx_environment := "production" |};
  rq_user := None;
  rq_tool_call := {| tc_tool := "GitHub"; tc_action := "merge"; tc_resource := None;
                     tc_mutates_state := true; tc_parameters := Canon.Object [] |};
  rq_context := {| dctx_source_trust := "trusted_internal_signed";
                   dctx_contains_sensitive_data := false |};
  rq_trace := None; rq_callback := None; rq_nonce := None; rq_timestamp := None;
  rq_dry_run := None |}.

Section Demo.
#[local] Existing Instance sample_external.
#[local] Existing Instance demo_crate.

Definition demo_engine (src : string) : Cedar.PolicyEngine :=
  {| Cedar.base_policy_set := src : PolicySet; Cedar.base_policy_src := src;
     Cedar.tenant_policy_sets := ∅ |}.

Definition demo_cedar_request : CedarRequest :=
  match Cedar.cedar_request demo_request "low" true false with
  | Ok r => r
  | Err _ => ("" : string)
  end.

Lemma engine_answers_most_severe_witness :
  ∃ v, Cedar.authorize (demo_engine "permit") "acme" demo_request "low" true false = Ok v ∧
    az_decision v = "require_approval" ∧ az_redacted_fields v = [].
Proof.
  destruct (Cedar.engine_answers_most_severe (demo_engine "permit") "acme" demo_request "low" true
    false demo_cedar_request true [0; 1])
    as (v & Hv & Hd & _ & Hf).
  - vm_compute. reflexivity.
  - vm_compute. reflexivity.
  - exists v. split; [exact Hv|]. rewrite Hd. split; [vm_compute; reflexivity|].
    destruct (az_redacted_fields v) as [|f fs]; [reflexivity|].
    destruct (proj1 (Hf f)) as [Hr _]; [by left|]. rewrite Hd in Hr. vm_compute in Hr. discriminate.
Defined.

(** The approver group is the last reported policy's, so it does depend on the
    order: the same two policies send the approval to different groups. *)
Example approver_group_depends_on_order :
  az_approver_group (Cedar.verdict ("permit" : PolicySet) true [0; 1]) = Some "security" ∧
  az_approver_group (Cedar.verdict ("permit" : PolicySet) true [1; 0]) = Some "privacy".
Proof. split; reflexivity. Qed.

(** [reload_tenant_policies] reads the base source and later stores the set it
    built.  When a reload of the base file runs in between, the tenant keeps a
    set built on the old base, and [has_tenant] makes the gateway trust it. *)
Example tenant_reload_survives_base_reload :
  let e := demo_engine "permit" in
  match Cedar.tenant_set (Cedar.base_policy_src e) "acme" [] with
  | Err _ => False
  | Ok stale =>
      let e' := Cedar.insert_set (Cedar.reload_file e (Ok "forbid")).2 "acme" stale in
      Cedar.has_tenant e' "acme" = true ∧
      Cedar.policy_set_for e' "acme" = "permit" ∧ Cedar.policy_set_for e' "other" = "forbid"
  end.
Proof. vm_compute. repeat split. Qed.
End Demo.
