(* ===== verification/Preflight.v ===== *)
(** * Preflight: tool permission, replay protection, idempotency, rate and quota

    Models [src/lib/decision/src/preflight.rs].  The two lookups of the
    [tokio::join!] both finish before either answer is looked at; they are the
    first two calls here. *)

From S2P Require Import Prelude RustString Prog Canon Models External Validation Runtime Admit.

Record PreflightedAuthorize := {
  pf_request : AuthorizeRequest;
  pf_agent : AuthorizeAgent;
  pf_root_trust_level : string;
  pf_dry_run : bool;
  pf_used_mtls : bool;
  pf_normalized_tool : string;
  pf_normalized_action : string }.

Inductive PreflightTerminal :=
| TermOutcome (o : DecisionOutcome)
| TermIdempotentReplay (record : DecisionRecord).

Module Preflight.
Section Preflight.
Context {X : External}.

Definition conflict (message reason : string) : DecisionOutcome :=
  outcome_failure (with_details (failure_of ClsConflict message)
    (Canon.Object [("reason", Canon.Str reason)])).

(** The nonce block: timestamp window, then the single-use nonce. *)
Definition check_replay (request : AuthorizeRequest) (tenant_id agent_id : string) :
    Decide (Result unit PreflightTerminal) :=
  match filter_nonempty (rq_nonce request) with
  | None => mret (Ok tt)
  | Some nonce =>
      now ← trigger Now;
      match Validation.validate_replay_timestamp now (rq_timestamp request) with
      | Err reason => mret (Err (TermOutcome (conflict reason "replay_timestamp_expired")))
      | Ok _ =>
          replayed ← trigger (CheckAndRecordNonce tenant_id agent_id nonce now);
          match replayed with
          | Err _ =>
              mret (Err (TermOutcome (outcome_failure (internal "Replay protection unavailable"))))
          | Ok true =>
              mret (Err (TermOutcome
                (conflict "Duplicate nonce: possible replay attack" "replay_nonce_reused")))
          | Ok false => mret (Ok tt)
          end
      end
  end.

(** The [!dry_run] block: an earlier decision for the request id ends the
    pipeline; otherwise the agent's heartbeat is touched. *)
Definition check_idempotency (dry_run : bool) (tenant_id agent_id : string)
    (idempotency_result : Fallible (option DecisionRecord)) :
    Decide (Result unit PreflightTerminal) :=
  if dry_run then mret (Ok tt)
  else
    match idempotency_result with
    | Ok (Some record) => mret (Err (TermIdempotentReplay record))
    | Err e => mret (Err (TermOutcome (aegis_err_to_outcome e)))
    | Ok None =>
        _ ← trigger (TouchHeartbeat tenant_id agent_id);
        mret (Ok tt)
    end.

Definition preflight_authorize (admitted : AdmittedAuthorize) :
    Decide (Result PreflightedAuthorize PreflightTerminal) :=
  let request := ad_request admitted in
  let agent := ad_agent admitted in
  let dry_run := ad_dry_run admitted in
  let tenant_id := ag_tenant_id agent in
  let agent_id := ag_id agent in
  let tool := tc_tool (rq_tool_call request) in
  let request_id := if dry_run then None else filter_nonempty (rq_request_id request) in
  permission_result ← trigger (AgentToolPermitted tenant_id agent_id tool);
  idempotency_result ←
    match request_id with
    | Some rid => trigger (GetDecisionByRequestId tenant_id agent_id rid)
    | None => mret (Ok None)
    end;
  match permission_result with
  | Ok false =>
      mret (Err (TermOutcome
        (partial_deny ("agent not permitted to call tool '" +:+ tool +:+ "'"))))
  | Err e => mret (Err (TermOutcome (aegis_err_to_outcome e)))
  | Ok true =>
      _ ←? check_replay request tenant_id agent_id;
      let normalized_tool := Validation.normalize_tool_identifier tool in
      let normalized_action :=
        Validation.normalize_tool_identifier (tc_action (rq_tool_call request)) in
      _ ←? check_idempotency dry_run tenant_id agent_id idempotency_result;
      within_rate ← trigger (CheckRateLimit tenant_id);
      if negb within_rate then
        mret (Err (TermOutcome (outcome_failure
          (too_many_requests "Too many requests. Rate limit exceeded."))))
      else
      within_quota ← trigger (CheckQuota tenant_id);
      if negb within_quota then
        mret (Err (TermOutcome (outcome_failure (too_many_requests "Request quota exceeded."))))
      else
      mret (Ok {| pf_request := request; pf_agent := agent;
                  pf_root_trust_level := ad_root_trust_level admitted; pf_dry_run := dry_run;
                  pf_used_mtls := ad_used_mtls admitted;
                  pf_normalized_tool := normalized_tool;
                  pf_normalized_action := normalized_action |})
  end.

(** ** Lemmas *)

(** A nonce that is checked and found fresh, when the request has one. *)
Definition nonce_fresh (request : AuthorizeRequest) (tenant_id agent_id : string) (t : dtrace) :
    Prop :=
  ∀ nonce, filter_nonempty (rq_nonce request) = Some nonce →
    ∃ now, Call (CheckAndRecordNonce tenant_id agent_id nonce now) (Ok false) ∈ t ∧
           Validation.validate_replay_timestamp now (rq_timestamp request) = Ok tt.

Lemma check_replay_ok request tenant agent t u :
  runs (check_replay request tenant agent) t (Ok u) → nonce_fresh request tenant agent t.
Proof.
  unfold check_replay, nonce_fresh. intros H. prog_run H; simplify_eq; [|done].
  intros nonce [= <-]. destruct_units. eexists. split; [|done]. by right; left.
Qed.

(** What an [Err] of preflight can be: a failure, or the replay of a record. *)
Definition terminal_ok (t : dtrace) (request : AuthorizeRequest) (tenant_id agent_id : string)
    (dry_run : bool) (term : PreflightTerminal) : Prop :=
  match term with
  | TermOutcome o => no_decision o
  | TermIdempotentReplay record =>
      dry_run = false ∧ ∃ rid, rq_request_id request = Some rid ∧ rid ≠ "" ∧
        Call (GetDecisionByRequestId tenant_id agent_id rid) (Ok (Some record)) ∈ t
  end.

Lemma check_replay_err request tenant agent t term :
  runs (check_replay request tenant agent) t (Err term) →
  ∃ o, term = TermOutcome o ∧ no_decision o.
Proof. unfold check_replay. intros H. prog_run H; simplify_eq; eauto with outcome. Qed.

(** What a preflighted request has passed. *)
Record preflighted_by (a : AdmittedAuthorize) (t : dtrace) (p : PreflightedAuthorize) : Prop := {
  pfl_request : pf_request p = ad_request a;
  pfl_agent : pf_agent p = ad_agent a;
  pfl_trust : pf_root_trust_level p = ad_root_trust_level a;
  pfl_dry_run : pf_dry_run p = ad_dry_run a;
  pfl_mtls : pf_used_mtls p = ad_used_mtls a;
  pfl_tool : pf_normalized_tool p =
    Validation.normalize_tool_identifier (tc_tool (rq_tool_call (ad_request a)));
  pfl_action : pf_normalized_action p =
    Validation.normalize_tool_identifier (tc_action (rq_tool_call (ad_request a)));
  pfl_permitted : Call (AgentToolPermitted (ag_tenant_id (ad_agent a)) (ag_id (ad_agent a))
    (tc_tool (rq_tool_call (ad_request a)))) (Ok true) ∈ t;
  pfl_nonce : nonce_fresh (ad_request a) (ag_tenant_id (ad_agent a)) (ag_id (ad_agent a)) t;
  pfl_no_prior : ad_dry_run a = false → ∀ rid,
    filter_nonempty (rq_request_id (ad_request a)) = Some rid →
    Call (GetDecisionByRequestId (ag_tenant_id (ad_agent a)) (ag_id (ad_agent a)) rid) (Ok None) ∈ t;
  pfl_rate : Call (CheckRateLimit (ag_tenant_id (ad_agent a))) true ∈ t;
  pfl_quota : Call (CheckQuota (ag_tenant_id (ad_agent a))) true ∈ t }.

Lemma nonce_fresh_mono request tenant agent t t' :
  nonce_fresh request tenant agent t → t ⊆ t' → nonce_fresh request tenant agent t'.
Proof. unfold nonce_fresh. intros H Hsub nonce Hn. destruct (H nonce Hn) as (now & ? & ?). eauto. Qed.

Lemma check_idempotency_ok dry_run tenant agent res t u :
  runs (check_idempotency dry_run tenant agent res) t (Ok u) → dry_run = false → res = Ok None.
Proof. unfold check_idempotency. intros H ->. prog_run H; simplify_eq; done. Qed.

Lemma preflight_ok a t p :
  runs (preflight_authorize a) t (Ok p) → preflighted_by a t p.
Proof.
  unfold preflight_authorize. intros H. prog_run H; simplify_eq.
  all: match goal with Hr : runs (check_replay _ _ _) _ _ |- _ => apply check_replay_ok in Hr end.
  all: match goal with Hi : runs (check_idempotency _ _ _ _) _ _ |- _ =>
         pose proof (check_idempotency_ok _ _ _ _ _ _ Hi) end.
  bool_hyps. split; simpl; try done; try in_trace.
  - eapply nonce_fresh_mono; [eassumption|]. set_solver.
  - intros Hd rid Hrid. rewrite Hd, Hrid in H0. prog_run H0.
    rewrite (H Hd) in *. simplify_eq. in_trace.
Qed.

Lemma replay_permitted a t record :
  runs (preflight_authorize a) t (Err (TermIdempotentReplay record)) →
  Call (AgentToolPermitted (ag_tenant_id (ad_agent a)) (ag_id (ad_agent a))
    (tc_tool (rq_tool_call (ad_request a)))) (Ok true) ∈ t.
Proof. unfold preflight_authorize. intros H. prog_run H; simplify_eq; in_trace. Qed.

Lemma preflight_err a t term :
  runs (preflight_authorize a) t (Err term) →
  terminal_ok t (ad_request a) (ag_tenant_id (ad_agent a)) (ag_id (ad_agent a)) (ad_dry_run a) term.
Proof.
  unfold preflight_authorize. intros H.
  prog_run H; simplify_eq; simpl; auto with outcome.
  - match goal with Hi : runs (check_idempotency _ _ _ _) _ _ |- _ =>
      unfold check_idempotency in Hi; prog_run Hi; simplify_eq; simpl; auto with outcome end.
    split; [done|].
    destruct (rq_request_id (ad_request a)) as [rid|]; simpl in *; [|by prog_run H0].
    destruct rid as [|c rid]; simpl in *; prog_run H0; simplify_eq.
    eexists. split; [done|]. split; [done|]. in_trace.
  - match goal with Hr : runs (check_replay _ _ _) _ _ |- _ =>
      apply check_replay_err in Hr as (o & -> & ?) end. done.
Qed.
End Preflight.
End Preflight.
