(* ===== verification/Guard.v ===== *)
(** * Guard: frozen agents, the admission webhook, the action hash, bans

    Models [src/lib/decision/src/guard.rs]. *)

From S2P Require Import Prelude RustString Prog Canon Models Runtime Preflight.

Record GuardedAuthorize := {
  gd_request : AuthorizeRequest;
  gd_agent : AuthorizeAgent;
  gd_root_trust_level : string;
  gd_dry_run : bool;
  gd_used_mtls : bool;
  gd_normalized_tool : string;
  gd_normalized_action : string;
  gd_action_hash : string }.

(** [request.tool_call.parameters = new_params] *)
Definition set_parameters (request : AuthorizeRequest) (params : Canon.Value) : AuthorizeRequest :=
  let tc := rq_tool_call request in
  {| rq_request_id := rq_request_id request;
     rq_agent := rq_agent request;
     rq_user := rq_user request;
     rq_tool_call := {| tc_tool := tc_tool tc; tc_action := tc_action tc;
                        tc_resource := tc_resource tc; tc_mutates_state := tc_mutates_state tc;
                        tc_parameters := params |};
     rq_context := rq_context request;
     rq_trace := rq_trace request;
     rq_callback := rq_callback request;
     rq_nonce := rq_nonce request;
     rq_timestamp := rq_timestamp request;
     rq_dry_run := rq_dry_run request |}.

Module Guard.

Definition mcp_server_key_from_tool (tool : string) : option string :=
  filter_nonempty (strip_prefix "mcp:" tool).

Definition audit_event_type (normalized_tool : string) : string :=
  match mcp_server_key_from_tool normalized_tool with
  | Some _ => "mcp_tool_called"
  | None => "tool_call_intercepted"
  end.

(** The response of a decision that is denied before Cedar. *)
Definition early_deny_response (decision_id : Uuid) (risk_score : Z) (risk_level : string)
    (composite_risk_score : Z) (reason : string) (matched_policies : list string)
    (root_trust_level : string) (dry_run : bool) : AuthorizeResponse :=
  {| rs_decision_id := decision_id; rs_decision := "deny"; rs_risk_score := risk_score;
     rs_risk_level := risk_level; rs_composite_risk_score := composite_risk_score;
     rs_reason := reason; rs_matched_policies := matched_policies; rs_approval := None;
     rs_redacted_fields := []; rs_root_trust_level := root_trust_level; rs_dry_run := dry_run;
     rs_receipt := None |}.

Definition persist_early_deny (request : AuthorizeRequest) (agent : AuthorizeAgent)
    (root_trust_level : string) (dry_run : bool) (normalized_tool : string) (started_at : Instant)
    (reason : string) (matched_policies : list string) (action_hash : string) :
    Decide (Result DecisionOutcome DecisionOutcome) :=
  decision_id ← trigger NewUuid;
  let risk_score := 100%Z in
  let risk_level := "critical" in
  let write := {|
    wr_tenant_id := ag_tenant_id agent; wr_agent_id := ag_id agent; wr_request := request;
    wr_decision_id := decision_id; wr_decision := "deny"; wr_risk_score := risk_score;
    wr_reason := reason; wr_matched_policies := matched_policies;
    wr_audit_event_type := audit_event_type normalized_tool; wr_started_at := started_at;
    wr_dry_run := dry_run; wr_action_hash := action_hash;
    wr_root_trust_level := root_trust_level |} in
  composite ← trigger (WriteDecisionAndAudit write);
  match composite with
  | Err e => mret (Err (aegis_err_to_outcome e))
  | Ok composite_risk_score =>
      mret (Ok (outcome_decision (early_deny_response decision_id risk_score risk_level
        composite_risk_score reason matched_policies root_trust_level dry_run)))
  end.

(** The admission webhook: the request to go on with, or an early return. *)
Definition admission (p : PreflightedAuthorize) (started_at : Instant) :
    Decide (Result AuthorizeRequest DecisionOutcome) :=
  effect ← trigger (CallAdmissionWebhook (pf_request p));
  match effect with
  | Ok Pass | Ok Disabled => mret (Ok (pf_request p))
  | Ok (Mutate new_params) => mret (Ok (set_parameters (pf_request p) new_params))
  | Ok (Reject reason) =>
      o ←? persist_early_deny (pf_request p) (pf_agent p) (pf_root_trust_level p) (pf_dry_run p)
             (pf_normalized_tool p) started_at reason ["admission_webhook_reject"] "";
      mret (Err o)
  | Err e => mret (Err (aegis_err_to_outcome e))
  end.

(** The policy name and reason of an enforcement status other than [Clear]. *)
Definition enforcement_denial (status : EnforcementStatus) (agent_id normalized_tool : string) :
    option (string * string) :=
  match status with
  | Clear => None
  | AgentBanned =>
      Some ("agent_banned",
        "agent '" +:+ agent_id +:+ "' is banned; all tool calls are denied (fail-closed).")
  | ToolBanned =>
      Some ("tool_banned",
        "tool '" +:+ normalized_tool +:+ "' is banned; calls to it are denied (fail-closed).")
  | AgentQuarantined =>
      Some ("agent_quarantine_record",
        "agent '" +:+ agent_id +:+ "' is quarantined; all tool calls are denied (fail-closed).")
  end.

Definition guard_authorize (p : PreflightedAuthorize) (started_at : Instant) :
    Decide (Result GuardedAuthorize DecisionOutcome) :=
  let agent := pf_agent p in
  let root_trust_level := pf_root_trust_level p in
  let dry_run := pf_dry_run p in
  let normalized_tool := pf_normalized_tool p in
  if (ag_status agent == "frozen") || (ag_status agent == "revoked") then
    let reason := "Agent '" +:+ ag_agent_key agent +:+ "' is " +:+ ag_status agent +:+
                  "; all tool calls are denied (fail-closed)." in
    o ←? persist_early_deny (pf_request p) agent root_trust_level dry_run normalized_tool
           started_at reason ["agent_" +:+ ag_status agent] "";
    mret (Err o)
  else
  request ←? admission p started_at;
  action_hash ← trigger (ComputeActionHash (ag_tenant_id agent) (rq_request_id request)
                           (rq_tool_call request));
  status ← trigger (GetEnforcementStatus (ag_tenant_id agent) (ag_id agent) normalized_tool);
  match status with
  | Err e => mret (Err (aegis_err_to_outcome e))
  | Ok status =>
      match enforcement_denial status (ag_id agent) normalized_tool with
      | Some (policy, reason) =>
          o ←? persist_early_deny request agent root_trust_level dry_run normalized_tool
                 started_at reason [policy] action_hash;
          mret (Err o)
      | None =>
          mret (Ok {| gd_request := request; gd_agent := agent;
                      gd_root_trust_level := root_trust_level; gd_dry_run := dry_run;
                      gd_used_mtls := pf_used_mtls p; gd_normalized_tool := normalized_tool;
                      gd_normalized_action := pf_normalized_action p;
                      gd_action_hash := action_hash |})
      end
  end.

(** ** Lemmas *)

Lemma persist_early_deny_denies request agent trust dry tool started reason pols hash t r :
  runs (persist_early_deny request agent trust dry tool started reason pols hash) t r →
  match r with Ok o => denies o | Err o => denies o end.
Proof.
  unfold persist_early_deny. intros H. prog_run H; subst; auto with outcome.
Qed.

Lemma admission_ok p started t request :
  runs (admission p started) t (Ok request) →
  ∃ eff, t = [Call (CallAdmissionWebhook (pf_request p)) (Ok eff)] ∧
    match eff with
    | Pass | Disabled => request = pf_request p
    | Mutate params => request = set_parameters (pf_request p) params
    | Reject _ => False
    end.
Proof.
  unfold admission. intros H.
  prog_run H; simplify_eq; (eexists; split; [reflexivity|done]).
Qed.

Lemma admission_err p started t o : runs (admission p started) t (Err o) → denies o.
Proof.
  unfold admission. intros H. prog_run H; simplify_eq; auto with outcome.
  all: match goal with Hp : runs (persist_early_deny _ _ _ _ _ _ _ _ _) _ _ |- _ =>
         exact (persist_early_deny_denies _ _ _ _ _ _ _ _ _ _ _ Hp) end.
Qed.

Lemma guard_err p started t o : runs (guard_authorize p started) t (Err o) → denies o.
Proof.
  unfold guard_authorize. intros H. prog_run H; simplify_eq; auto with outcome.
  all: try (match goal with Hp : runs (persist_early_deny _ _ _ _ _ _ _ _ _) _ _ |- _ =>
         exact (persist_early_deny_denies _ _ _ _ _ _ _ _ _ _ _ Hp) end).
  by eapply admission_err.
Qed.

(** What a guarded request has passed. *)
Record guarded_by (p : PreflightedAuthorize) (t : dtrace) (g : GuardedAuthorize) : Prop := {
  gdb_agent : gd_agent g = pf_agent p;
  gdb_trust : gd_root_trust_level g = pf_root_trust_level p;
  gdb_dry_run : gd_dry_run g = pf_dry_run p;
  gdb_mtls : gd_used_mtls g = pf_used_mtls p;
  gdb_tool : gd_normalized_tool g = pf_normalized_tool p;
  gdb_action : gd_normalized_action g = pf_normalized_action p;
  gdb_request : gd_request g = pf_request p ∨
    ∃ params, Call (CallAdmissionWebhook (pf_request p)) (Ok (Mutate params)) ∈ t ∧
              gd_request g = set_parameters (pf_request p) params;
  gdb_active : ag_status (pf_agent p) ≠ "frozen" ∧ ag_status (pf_agent p) ≠ "revoked";
  gdb_hash : Call (ComputeActionHash (ag_tenant_id (pf_agent p)) (rq_request_id (gd_request g))
                     (rq_tool_call (gd_request g))) (gd_action_hash g) ∈ t;
  gdb_clear : Call (GetEnforcementStatus (ag_tenant_id (pf_agent p)) (ag_id (pf_agent p))
                      (pf_normalized_tool p)) (Ok Clear) ∈ t }.

Lemma guard_ok p started t g : runs (guard_authorize p started) t (Ok g) → guarded_by p t g.
Proof.
  unfold guard_authorize. intros H. prog_run H; simplify_eq.
  match goal with Ha : runs (admission _ _) _ _ |- _ => apply admission_ok in Ha as (eff & -> & Heff) end.
  match goal with Hd : enforcement_denial ?s _ _ = None |- _ => destruct s; try done end.
  bool_hyps. str_eq. split; simpl; try done; try in_trace.
  destruct eff; subst; try done; [by left..|]. right. eexists. split; [in_trace|done].
Qed.
End Guard.
