(* ===== verification/Metadata.v ===== *)
(** * Metadata: registered-action risk and MCP server and tool status

    Models [src/lib/decision/src/metadata.rs].  The three lookups of the
    [tokio::join!] finish before any answer is looked at. *)

From S2P Require Import Prelude RustString Prog Canon Models Risk Runtime Guard.

Record MetadataAuthorize := {
  md_guarded : GuardedAuthorize;
  md_risk_score : Z;
  md_risk_level : string;
  md_action_approval_required : bool;
  md_action_default_decision : string;
  md_is_tool_known : bool;
  md_is_mcp_call : bool;
  md_mcp_server_key : option string }.

Module Metadata.

(** The five mutable locals. *)
Record risk_state := {
  rk_score : Z;
  rk_level : string;
  rk_approval : bool;
  rk_default : string;
  rk_known : bool }.

Definition persist_mcp_deny (g : GuardedAuthorize) (started_at : Instant) (reason : string)
    (matched_policies : list string) (risk_score : Z) (risk_level : string) :
    Decide (Result DecisionOutcome DecisionOutcome) :=
  decision_id ← trigger NewUuid;
  let write := {|
    wr_tenant_id := ag_tenant_id (gd_agent g); wr_agent_id := ag_id (gd_agent g);
    wr_request := gd_request g; wr_decision_id := decision_id; wr_decision := "deny";
    wr_risk_score := risk_score; wr_reason := reason; wr_matched_policies := matched_policies;
    wr_audit_event_type := "mcp_tool_called"; wr_started_at := started_at;
    wr_dry_run := gd_dry_run g; wr_action_hash := gd_action_hash g;
    wr_root_trust_level := gd_root_trust_level g |} in
  composite ← trigger (WriteDecisionAndAudit write);
  match composite with
  | Err e => mret (Err (aegis_err_to_outcome e))
  | Ok composite_risk_score =>
      mret (Ok (outcome_decision (Guard.early_deny_response decision_id risk_score risk_level
        composite_risk_score reason matched_policies (gd_root_trust_level g) (gd_dry_run g))))
  end.

(** The registered action of the tool, if there is one. *)
Definition apply_action_meta (action_meta : option RegisteredActionMeta) (is_mcp_call : bool) :
    risk_state :=
  match action_meta with
  | Some meta =>
      {| rk_score := Risk.risk_score_for_level (ram_risk meta); rk_level := ram_risk meta;
         rk_approval := ram_approval_required meta; rk_default := ram_default_decision meta;
         rk_known := true |}
  | None =>
      {| rk_score := 10; rk_level := "low"; rk_approval := false; rk_default := "policy";
         rk_known := is_mcp_call |}
  end.

(** The [if let Some(server_key)] block. *)
Definition resolve_mcp (g : GuardedAuthorize) (started_at : Instant) (server_key : string)
    (mcp_server_result : Fallible (option string)) (mcp_tool_result : Fallible (option McpToolMeta))
    (s : risk_state) : Decide (Result risk_state DecisionOutcome) :=
  permitted ← trigger (AgentMcpServerPermitted (ag_tenant_id (gd_agent g)) (ag_id (gd_agent g)) server_key);
  match permitted with
  | Ok false =>
      mret (Err (partial_deny ("agent not permitted to call MCP server '" +:+ server_key +:+ "'")))
  | Err e => mret (Err (aegis_err_to_outcome e))
  | Ok true =>
      match mcp_server_result with
      | Err e => mret (Err (aegis_err_to_outcome e))
      | Ok server_status =>
          if bool_decide (server_status = Some "quarantined") then
            o ←? persist_mcp_deny g started_at
                   ("MCP server '" +:+ server_key +:+
                    "' is quarantined; all tool calls are denied (fail-closed).")
                   ["mcp_server_quarantined"] 100 "critical";
            mret (Err o)
          else
          match mcp_tool_result with
          | Err e => mret (Err (aegis_err_to_outcome e))
          | Ok (Some tool) =>
              let s := {| rk_score := Risk.risk_score_for_level (mtm_risk tool);
                          rk_level := mtm_risk tool;
                          rk_approval := rk_approval s || mtm_approval_required tool;
                          rk_default := rk_default s; rk_known := rk_known s |} in
              if mtm_status tool != "approved" then
                o ←? persist_mcp_deny g started_at
                       ("MCP tool '" +:+ tc_action (rq_tool_call (gd_request g)) +:+
                        "' on server '" +:+ server_key +:+ "' is not approved (status: " +:+
                        mtm_status tool +:+ ").")
                       ["mcp_tool_status"] (rk_score s) (rk_level s);
                mret (Err o)
              else mret (Ok s)
          | Ok None =>
              mret (Ok {| rk_score := 100; rk_level := "critical"; rk_approval := rk_approval s;
                          rk_default := rk_default s; rk_known := false |})
          end
      end
  end.

Definition metadata_authorize (g : GuardedAuthorize) (started_at : Instant) :
    Decide (Result MetadataAuthorize DecisionOutcome) :=
  let tenant_id := ag_tenant_id (gd_agent g) in
  let normalized_tool := gd_normalized_tool g in
  let normalized_action := gd_normalized_action g in
  let mcp_server_key := Guard.mcp_server_key_from_tool normalized_tool in
  let is_mcp_call := bool_decide (is_Some mcp_server_key) in
  skill_result ← trigger (SkillActionMeta tenant_id normalized_tool normalized_action);
  mcp_server_result ←
    match mcp_server_key with
    | Some server_key => trigger (McpServerStatus tenant_id server_key)
    | None => mret (Ok None)
    end;
  mcp_tool_result ←
    match mcp_server_key with
    | Some server_key => trigger (GetMcpToolMeta tenant_id server_key normalized_action)
    | None => mret (Ok None)
    end;
  match skill_result with
  | Err e => mret (Err (aegis_err_to_outcome e))
  | Ok action_meta =>
      let s := apply_action_meta action_meta is_mcp_call in
      s ←? match mcp_server_key with
           | Some server_key =>
               resolve_mcp g started_at server_key mcp_server_result mcp_tool_result s
           | None => mret (Ok s)
           end;
      mret (Ok {| md_guarded := g; md_risk_score := rk_score s; md_risk_level := rk_level s;
                  md_action_approval_required := rk_approval s;
                  md_action_default_decision := rk_default s; md_is_tool_known := rk_known s;
                  md_is_mcp_call := is_mcp_call; md_mcp_server_key := mcp_server_key |})
  end.

(** ** Lemmas *)

Lemma persist_mcp_deny_denies g started reason pols score level t r :
  runs (persist_mcp_deny g started reason pols score level) t r →
  match r with Ok o => denies o | Err o => denies o end.
Proof.
  unfold persist_mcp_deny. intros H. prog_run H; subst; auto with outcome.
Qed.

Lemma resolve_mcp_err g started key sr tr s t o :
  runs (resolve_mcp g started key sr tr s) t (Err o) → denies o.
Proof.
  unfold resolve_mcp. intros H. prog_run H; simplify_eq; auto with outcome.
  all: match goal with Hp : runs (persist_mcp_deny _ _ _ _ _ _) _ _ |- _ =>
         exact (persist_mcp_deny_denies _ _ _ _ _ _ _ _ Hp) end.
Qed.

Lemma metadata_err g started t o : runs (metadata_authorize g started) t (Err o) → denies o.
Proof.
  unfold metadata_authorize. intros H.
  prog_red H. destruct H as (skill & t1 & -> & H).
  destruct (Guard.mcp_server_key_from_tool (gd_normalized_tool g)) as [key|];
    prog_run H; simplify_eq; auto with outcome.
  by eapply resolve_mcp_err.
Qed.

(** What the MCP block has checked. *)
Definition mcp_checked (g : GuardedAuthorize) (t : dtrace) (key : string) (m : MetadataAuthorize) :
    Prop :=
  let tenant := ag_tenant_id (gd_agent g) in
  Call (AgentMcpServerPermitted tenant (ag_id (gd_agent g)) key) (Ok true) ∈ t ∧
  (∃ status, Call (McpServerStatus tenant key) (Ok status) ∈ t ∧ status ≠ Some "quarantined") ∧
  (∃ tool, Call (GetMcpToolMeta tenant key (gd_normalized_action g)) (Ok tool) ∈ t ∧
     match tool with
     | Some tool => mtm_status tool = "approved" ∧ md_risk_level m = mtm_risk tool ∧
                    (mtm_approval_required tool = true → md_action_approval_required m = true)
     | None => md_is_tool_known m = false ∧ md_risk_level m = "critical"
     end).

(** What the metadata stage adds to a guarded request. *)
Record described_by (g : GuardedAuthorize) (t : dtrace) (m : MetadataAuthorize) : Prop := {
  mdb_guarded : md_guarded m = g;
  mdb_mcp : md_is_mcp_call m = bool_decide (is_Some (md_mcp_server_key m));
  mdb_key : md_mcp_server_key m = Guard.mcp_server_key_from_tool (gd_normalized_tool g);
  mdb_action : ∃ meta, Call (SkillActionMeta (ag_tenant_id (gd_agent g)) (gd_normalized_tool g)
                              (gd_normalized_action g)) (Ok meta) ∈ t ∧
    match meta with
    | Some meta => md_action_default_decision m = ram_default_decision meta ∧
                   (ram_approval_required meta = true → md_action_approval_required m = true) ∧
                   (md_mcp_server_key m = None → md_risk_level m = ram_risk meta)
    | None => md_mcp_server_key m = None → md_is_tool_known m = false
    end;
  mdb_mcp_checked : ∀ key, md_mcp_server_key m = Some key → mcp_checked g t key m }.

Lemma metadata_ok g started t m :
  runs (metadata_authorize g started) t (Ok m) → described_by g t m.
Proof.
  unfold metadata_authorize. intros H.
  prog_red H. destruct H as (skill & t1 & -> & H).
  destruct (Guard.mcp_server_key_from_tool (gd_normalized_tool g)) as [key|] eqn:Hkey;
    prog_run H; simplify_eq.
  - match goal with Hr : runs (resolve_mcp _ _ _ _ _ _) _ _ |- _ =>
      unfold resolve_mcp in Hr; prog_run Hr; simplify_eq end.
    all: repeat match goal with Hq : bool_decide _ = false |- _ => apply bool_decide_eq_false in Hq end.
    all: bool_hyps; str_eq; split; simpl; try done.
    all: try (eexists; split; [in_trace|]; destruct a; simpl; repeat split; try done; intros ->; done).
    all: intros ? [= <-]; repeat split; try in_trace.
    all: eexists; (split; [in_trace|]); try done.
    all: simpl; repeat split; auto using orb_true_intro.
  - split; simpl; try done. eexists; split; [in_trace|]. by destruct a.
Qed.
End Metadata.
