(* ===== verification/Evaluate.v ===== *)
(** * Evaluate: Cedar, the overrides, the audit write and the effects of a decision

    Models [src/lib/decision/src/evaluate.rs].  [evaluate_authorize] is one
    function in the source; its consecutive blocks are definitions of their
    own here, each named after what the block does and mapped to its lines. *)

From S2P Require Import Prelude RustString Prog Trust Canon Models Validation Risk Runtime Guard Metadata.

Record EvaluateConfig := { cfg_approval_ttl_secs : Z }.

Definition EvaluateConfig_default : EvaluateConfig := {| cfg_approval_ttl_secs := 1800 |}.

Module Evaluate.

(** The locals of the function once the overrides are applied. *)
Record decided := {
  dc_meta : MetadataAuthorize;
  dc_id : Uuid;
  dc_decision : string;
  dc_reason : string;
  dc_matched : list string;
  dc_approver_group : option string;
  dc_redacted : list string }.

Section Locals.
Variable d : decided.
Definition dc_guarded : GuardedAuthorize := md_guarded (dc_meta d).
Definition dc_payload : AuthorizeRequest := gd_request dc_guarded.
Definition dc_agent : AuthorizeAgent := gd_agent dc_guarded.
Definition dc_tenant : string := ag_tenant_id dc_agent.
Definition dc_agent_id : string := ag_id dc_agent.
Definition dc_dry_run : bool := gd_dry_run dc_guarded.
Definition dc_risk_level : string := md_risk_level (dc_meta d).
Definition dc_risk_score : Z := md_risk_score (dc_meta d).
Definition dc_mutates : bool := tc_mutates_state (rq_tool_call dc_payload).
Definition dc_hash : string := gd_action_hash dc_guarded.
End Locals.

(** Policies are loaded and Cedar is asked. *)
Definition cedar_decision (m : MetadataAuthorize) : Decide (Result PolicyDecisionView DecisionOutcome) :=
  let g := md_guarded m in
  let tenant_id := ag_tenant_id (gd_agent g) in
  loaded ← trigger (EnsurePoliciesLoaded tenant_id);
  match loaded with
  | Err _ => mret (Err (outcome_failure (internal "Failed to load tenant policies")))
  | Ok _ =>
      view ← trigger (EvaluateCedar tenant_id (gd_request g) (ag_risk_tier (gd_agent g))
                        (md_is_tool_known m) (gd_used_mtls g));
      match view with
      | Ok d => mret (Ok d)
      | Err e =>
          mret (Err (outcome_failure
            (internal ("Policy engine failure: " +:+ display_AegisError e))))
      end
  end.

(** The decision id, the provenance counter and the overrides. *)
Definition override_decision (m : MetadataAuthorize) (view : PolicyDecisionView) : Decide decided :=
  let g := md_guarded m in
  let payload := gd_request g in
  decision_id ← trigger NewUuid;
  _ ← (if (pd_decision view == "deny") && tc_mutates_state (rq_tool_call payload)
            && Trust.is_untrusted_provenance (dctx_source_trust (rq_context payload))
       then trigger RecordProvenanceDenial else mret tt);
  let '(decision_str, reason, matched_policies) :=
    Validation.apply_decision_overrides (pd_decision view) (pd_reason view)
      (pd_matched_policies view) (md_risk_level m) (ag_force_approval (gd_agent g))
      (md_action_default_decision m) (md_action_approval_required m) in
  mret {| dc_meta := m; dc_id := decision_id; dc_decision := decision_str; dc_reason := reason;
          dc_matched := matched_policies; dc_approver_group := pd_approver_group view;
          dc_redacted := pd_redacted_fields view |}.

(** A response without approval, redaction or receipt, whose composite score
    is the registered score: the answers given when the audit trail fails. *)
Definition audit_failed_response (d : decided) (decision reason : string)
    (matched_policies : list string) : AuthorizeResponse := {|
    rs_decision_id := dc_id d; rs_decision := decision; rs_risk_score := dc_risk_score d;
    rs_risk_level := dc_risk_level d; rs_composite_risk_score := dc_risk_score d;
    rs_reason := reason; rs_matched_policies := matched_policies; rs_approval := None;
    rs_redacted_fields := []; rs_root_trust_level := gd_root_trust_level (dc_guarded d);
    rs_dry_run := dc_dry_run d; rs_receipt := None |}.

(** The capacity check before the write. *)
Definition check_audit_capacity (d : decided) : Decide (Result unit DecisionOutcome) :=
  if negb (dc_dry_run d) && Risk.is_high_risk_for_audit (dc_risk_level d) (dc_mutates d) then
    capacity ← trigger AuditStreamHasCapacity;
    if negb capacity then
      mret (Err (outcome_decision (audit_failed_response d "deny"
        "Audit writer unavailable (SOC event stream full): action denied (audit_writer_unavailable, fail-closed)."
        ["audit_writer_unavailable"])))
    else mret (Ok tt)
  else mret (Ok tt).

Definition decision_write (d : decided) (started_at : Instant) : DecisionAuditWrite := {|
  wr_tenant_id := dc_tenant d; wr_agent_id := dc_agent_id d; wr_request := dc_payload d;
  wr_decision_id := dc_id d; wr_decision := dc_decision d; wr_risk_score := dc_risk_score d;
  wr_reason := dc_reason d; wr_matched_policies := dc_matched d;
  wr_audit_event_type :=
    if md_is_mcp_call (dc_meta d) then "mcp_tool_called" else "tool_call_intercepted";
  wr_started_at := started_at; wr_dry_run := dc_dry_run d; wr_action_hash := dc_hash d;
  wr_root_trust_level := gd_root_trust_level (dc_guarded d) |}.

(** The decision row and audit event; the composite score on success. *)
Definition write_audit (d : decided) (started_at : Instant) : Decide (Result Z DecisionOutcome) :=
  written ← trigger (WriteDecisionAndAudit (decision_write d started_at));
  match written with
  | Ok score =>
      _ ← trigger (SetAuditWriterHealthy true);
      mret (Ok score)
  | Err _ =>
      _ ← trigger (SetAuditWriterHealthy false);
      if Risk.is_high_risk_for_audit (dc_risk_level d) (dc_mutates d) then
        mret (Err (outcome_decision (audit_failed_response d "deny"
          "Audit writer unavailable (database write failed): action denied (audit_writer_unavailable, fail-closed)."
          ["audit_writer_unavailable"])))
      else mret (Err (outcome_decision (audit_failed_response d (dc_decision d) (dc_reason d) (dc_matched d))))
  end.

(** The receipt: durable for a protected decision, best effort otherwise. *)
Definition emit_receipt (d : decided) : Decide (Result (option ReceiptIdentity) DecisionOutcome) :=
  if negb (dc_dry_run d) then
    if Risk.decision_requires_durable_receipt (dc_decision d) (dc_risk_level d) (dc_mutates d) then
      receipt ← trigger (EmitReceiptDurable (dc_tenant d) (dc_agent_id d) (dc_payload d) (dc_id d)
                           (dc_decision d) (dc_hash d));
      match receipt with
      | Ok receipt => mret (Ok (Some receipt))
      | Err _ =>
          mret (Err (outcome_failure
            (internal "Failed to durably record decision evidence; action not authorized")))
      end
    else
      _ ← trigger (EmitReceiptBestEffort (dc_tenant d) (dc_agent_id d) (dc_payload d) (dc_id d)
                     (dc_decision d) (dc_hash d));
      mret (Ok None)
  else mret (Ok None).

Definition quarantine_effects (d : decided) : Decide unit :=
  if negb (dc_dry_run d) && (dc_decision d == "quarantine") then
    done ← trigger (QuarantineAgent (dc_tenant d) (dc_agent_id d));
    match done with
    | Ok _ =>
        trigger (EmitAgentQuarantined (dc_tenant d) (dc_agent_id d) (dc_payload d) (dc_risk_score d)
                   (dc_reason d) (dc_matched d))
    | Err _ => mret tt
    end
  else mret tt.

Definition approval_effects (d : decided) (config : EvaluateConfig) :
    Decide (Result (option ApprovalResponseInfo) DecisionOutcome) :=
  if negb (dc_dry_run d) && (dc_decision d == "require_approval") then
    let '(callback_url, callback_secret) :=
      match rq_callback (dc_payload d) with
      | Some cb => (Some (cb_url cb), cb_secret cb)
      | None => (None, None)
      end in
    created ← trigger (CreateApproval (dc_tenant d) (dc_agent_id d) (dc_payload d) {|
                 acp_decision_id := dc_id d; acp_action_hash := dc_hash d;
                 acp_approver_group := dc_approver_group d; acp_callback_url := callback_url;
                 acp_callback_secret := callback_secret;
                 acp_approval_ttl_secs := cfg_approval_ttl_secs config |});
    match created with
    | Ok info => mret (Ok (Some info))
    | Err e => mret (Err (aegis_err_to_outcome e))
    end
  else mret (Ok None).

Definition escalation_effects (d : decided) : Decide unit :=
  if negb (dc_dry_run d) && (dc_decision d == "deny") then
    escalated ← trigger (MaybeEscalateRiskTier (dc_tenant d) (dc_agent_id d)
                           (ag_risk_tier (dc_agent d)));
    match escalated with
    | Ok (Some (old_tier, new_tier)) =>
        trigger (EmitRiskEscalated (dc_tenant d) (dc_agent_id d) (dc_payload d) (dc_decision d)
                   (dc_id d) (dc_risk_score d) old_tier new_tier (dc_matched d))
    | Ok None => mret tt
    | Err _ => mret tt
    end
  else mret tt.

Definition final_response (d : decided) (composite_risk_score : Z)
    (approval_info : option ApprovalResponseInfo) (receipt_identity : option ReceiptIdentity) :
    AuthorizeResponse := {|
  rs_decision_id := dc_id d; rs_decision := dc_decision d; rs_risk_score := dc_risk_score d;
  rs_risk_level := dc_risk_level d; rs_composite_risk_score := composite_risk_score;
  rs_reason := dc_reason d; rs_matched_policies := dc_matched d; rs_approval := approval_info;
  rs_redacted_fields := if dc_decision d != "redact" then [] else dc_redacted d;
  rs_root_trust_level := gd_root_trust_level (dc_guarded d); rs_dry_run := dc_dry_run d;
  rs_receipt := receipt_identity |}.

(** The two outcome types coincide here: an early [return outcome] and the
    final answer are both outcomes. *)
Definition merge_outcome (r : Result DecisionOutcome DecisionOutcome) : DecisionOutcome :=
  match r with Ok o => o | Err o => o end.

(** From the write on. *)
Definition finish_authorize (d : decided) (started_at : Instant) (config : EvaluateConfig) :
    Decide (Result DecisionOutcome DecisionOutcome) :=
  _ ←? check_audit_capacity d;
  composite_risk_score ←? write_audit d started_at;
  receipt_identity ←? emit_receipt d;
  _ ← quarantine_effects d;
  approval_info ←? approval_effects d config;
  _ ← escalation_effects d;
  _ ← (if negb (dc_dry_run d) then
         trigger (NotifyGithubDecision (dc_payload d) (dc_decision d) (dc_reason d)
                    (dc_risk_score d) (dc_id d) (dc_matched d))
       else mret tt);
  mret (Ok (outcome_decision (final_response d composite_risk_score approval_info receipt_identity))).

Definition evaluate_authorize (m : MetadataAuthorize) (started_at : Instant)
    (config : EvaluateConfig) : Decide DecisionOutcome :=
  r ← (view ←? cedar_decision m;
       d ← override_decision m view;
       finish_authorize d started_at config);
  mret (merge_outcome r).

(** ** Lemmas *)

(** The receipt a decision carries. *)
Inductive receipted (d : decided) (t : dtrace) : option ReceiptIdentity → Prop :=
| receipted_dry : dc_dry_run d = true → receipted d t None
| receipted_best :
    Risk.decision_requires_durable_receipt (dc_decision d) (dc_risk_level d) (dc_mutates d) = false →
    receipted d t None
| receipted_durable rc :
    Call (EmitReceiptDurable (dc_tenant d) (dc_agent_id d) (dc_payload d) (dc_id d)
            (dc_decision d) (dc_hash d)) (Ok rc) ∈ t →
    receipted d t (Some rc).

(** The approval a decision carries. *)
Inductive approved (d : decided) (t : dtrace) : option ApprovalResponseInfo → Prop :=
| approved_none :
    dc_dry_run d = true ∨ dc_decision d ≠ "require_approval" → approved d t None
| approved_some info params :
    Call (CreateApproval (dc_tenant d) (dc_agent_id d) (dc_payload d) params) (Ok info) ∈ t →
    acp_action_hash params = dc_hash d → acp_decision_id params = dc_id d →
    dc_decision d = "require_approval" →
    approved d t (Some info).

(** How a decided request is answered. *)
Inductive answered (d : decided) (started : Instant) (t : dtrace) : AuthorizeResponse → Prop :=
| answered_audit_deny r :
    rs_decision r = "deny" →
    rs_matched_policies r = ["audit_writer_unavailable"] →
    Risk.is_high_risk_for_audit (dc_risk_level d) (dc_mutates d) = true →
    answered d started t r
| answered_unaudited e :
    Call (WriteDecisionAndAudit (decision_write d started)) (Err e) ∈ t →
    Risk.is_high_risk_for_audit (dc_risk_level d) (dc_mutates d) = false →
    answered d started t (audit_failed_response d (dc_decision d) (dc_reason d) (dc_matched d))
| answered_final composite approval receipt :
    Call (WriteDecisionAndAudit (decision_write d started)) (Ok composite) ∈ t →
    receipted d t receipt →
    approved d t approval →
    answered d started t (final_response d composite approval receipt).

Lemma receipted_mono d t t' rc : t ⊆ t' → receipted d t rc → receipted d t' rc.
Proof. intros Hs []; [by constructor|by constructor 2|constructor 3; auto]. Qed.

Lemma approved_mono d t t' a : t ⊆ t' → approved d t a → approved d t' a.
Proof. intros Hs []; [by constructor|econstructor; eauto]. Qed.

Lemma answered_mono d started t t' r : t ⊆ t' → answered d started t r → answered d started t' r.
Proof.
  intros Hs []; [by constructor 1|econstructor 2; eauto|].
  constructor 3; eauto using receipted_mono, approved_mono.
Qed.

Lemma check_audit_capacity_err d t o :
  runs (check_audit_capacity d) t (Err o) →
  ∃ r, o = outcome_decision r ∧ ∀ started, answered d started t r.
Proof.
  unfold check_audit_capacity. intros H. prog_run H; simplify_eq. bool_hyps.
  eexists. split; [reflexivity|]. intros. by apply answered_audit_deny.
Qed.

Lemma write_audit_ok d started t c :
  runs (write_audit d started) t (Ok c) →
  Call (WriteDecisionAndAudit (decision_write d started)) (Ok c) ∈ t.
Proof. unfold write_audit. intros H. prog_run H; simplify_eq. in_trace. Qed.

Lemma write_audit_err d started t o :
  runs (write_audit d started) t (Err o) → ∃ r, o = outcome_decision r ∧ answered d started t r.
Proof.
  unfold write_audit. intros H. prog_run H; simplify_eq; (eexists; split; [reflexivity|]).
  - by apply answered_audit_deny.
  - eapply answered_unaudited; [in_trace|done..].
Qed.

Lemma emit_receipt_ok d t rc : runs (emit_receipt d) t (Ok rc) → receipted d t rc.
Proof.
  unfold emit_receipt. intros H. prog_run H; simplify_eq.
  - constructor. in_trace.
  - by apply receipted_best.
  - apply receipted_dry. by bool_hyps.
Qed.

Lemma emit_receipt_err d t o : runs (emit_receipt d) t (Err o) → no_decision o.
Proof. unfold emit_receipt. intros H. prog_run H; simplify_eq; auto with outcome. Qed.

Lemma approval_effects_ok d config t a : runs (approval_effects d config) t (Ok a) → approved d t a.
Proof.
  unfold approval_effects. intros H. prog_run H; simplify_eq.
  - bool_hyps. str_eq. econstructor; [in_trace|done..].
  - apply andb_false_iff in Hb as [Hb|Hb]; constructor; [left|right]; bool_hyps; str_eq; done.
Qed.

Lemma approval_effects_err d config t o : runs (approval_effects d config) t (Err o) → no_decision o.
Proof. unfold approval_effects. intros H. prog_run H; simplify_eq; auto with outcome. Qed.

Lemma finish_authorize_runs d started config t r :
  runs (finish_authorize d started config) t r →
  no_decision (merge_outcome r) ∨
  ∃ resp, merge_outcome r = outcome_decision resp ∧ answered d started t resp.
Proof.
  unfold finish_authorize. intros H.
  apply runs_try_bind in H as [(t1 & u & t' & -> & Hc & H)|(o & -> & Hc)];
    [|right; apply check_audit_capacity_err in Hc as (resp & -> & ?); eauto].
  apply runs_try_bind in H as [(t2 & composite & t'' & -> & Hw & H)|(o & -> & Hw)];
    [|right; apply write_audit_err in Hw as (resp & -> & ?); exists resp; split; [done|];
      eapply answered_mono; [|eassumption]; set_solver].
  apply runs_try_bind in H as [(t3 & rc & t4 & -> & Hr & H)|(o & -> & Hr)];
    [|left; by eapply emit_receipt_err].
  apply runs_bind in H as (t5 & u1 & t6 & -> & Hq & H).
  apply runs_try_bind in H as [(t7 & a & t8 & -> & Ha & H)|(o & -> & Ha)];
    [|left; by eapply approval_effects_err].
  right. apply runs_bind in H as (t9 & u2 & t10 & -> & _ & H).
  assert (r = Ok (outcome_decision (final_response d composite a rc))) as ->
    by (prog_run H; done).
  eexists. split; [reflexivity|]. apply write_audit_ok in Hw.
  apply answered_final; [set_solver| |].
  - eapply receipted_mono; [|by apply emit_receipt_ok]. set_solver.
  - eapply approved_mono; [|by eapply approval_effects_ok]. set_solver.
Qed.

(** What the evaluation stage has asked, and what it made of the answer. *)
Record evaluated (m : MetadataAuthorize) (t : dtrace) (d : decided) : Prop := {
  ev_meta : dc_meta d = m;
  ev_loaded : Call (EnsurePoliciesLoaded (ag_tenant_id (gd_agent (md_guarded m)))) (Ok tt) ∈ t;
  ev_cedar : ∃ view,
    Call (EvaluateCedar (ag_tenant_id (gd_agent (md_guarded m))) (gd_request (md_guarded m))
            (ag_risk_tier (gd_agent (md_guarded m))) (md_is_tool_known m)
            (gd_used_mtls (md_guarded m))) (Ok view) ∈ t ∧
    Validation.apply_decision_overrides (pd_decision view) (pd_reason view)
      (pd_matched_policies view) (md_risk_level m) (ag_force_approval (gd_agent (md_guarded m)))
      (md_action_default_decision m) (md_action_approval_required m) =
    (dc_decision d, dc_reason d, dc_matched d) ∧
    dc_redacted d = pd_redacted_fields view ∧ dc_approver_group d = pd_approver_group view }.

Lemma cedar_decision_ok m t view :
  runs (cedar_decision m) t (Ok view) →
  t = [Call (EnsurePoliciesLoaded (ag_tenant_id (gd_agent (md_guarded m)))) (Ok tt);
       Call (EvaluateCedar (ag_tenant_id (gd_agent (md_guarded m))) (gd_request (md_guarded m))
            (ag_risk_tier (gd_agent (md_guarded m))) (md_is_tool_known m)
            (gd_used_mtls (md_guarded m))) (Ok view)].
Proof. unfold cedar_decision. intros H. prog_run H; simplify_eq. by destruct_units. Qed.

Lemma cedar_decision_err m t o : runs (cedar_decision m) t (Err o) → no_decision o.
Proof. unfold cedar_decision. intros H. prog_run H; simplify_eq; auto with outcome. Qed.

Lemma override_decision_runs m view t1 t2 d :
  runs (cedar_decision m) t1 (Ok view) → runs (override_decision m view) t2 d →
  evaluated m (t1 ++ t2) d.
Proof.
  intros ->%cedar_decision_ok H. unfold override_decision in H. prog_run H; simplify_eq.
  all: split; simpl; try done; try in_trace.
  all: eexists; (split; [in_trace|done]).
Qed.

Lemma evaluated_mono m t t' d : t ⊆ t' → evaluated m t d → evaluated m t' d.
Proof.
  intros Hs [? ? (view & ? & ?)]. split; [done|auto|]. exists view. split; [auto|done].
Qed.

(** Every run of the stage: a refusal, or an answer to a decided request. *)
Lemma evaluate_runs m started config t o :
  runs (evaluate_authorize m started config) t o →
  no_decision o ∨
  ∃ d r, evaluated m t d ∧ answered d started t r ∧ o = outcome_decision r.
Proof.
  unfold evaluate_authorize. intros H.
  apply runs_bind in H as (t1 & res & t2 & -> & H & Ho). destruct Ho as [-> ->].
  rewrite app_nil_r.
  apply runs_try_bind in H as [(t3 & view & t4 & -> & Hc & H)|(e & -> & Hc)];
    [|left; by eapply cedar_decision_err].
  apply runs_bind in H as (t5 & d & t6 & -> & Hd & H).
  pose proof (override_decision_runs _ _ _ _ _ Hc Hd) as Hev.
  apply finish_authorize_runs in H as [H|(resp & -> & Ha)]; [by left|right].
  exists d, resp. split; [|split; [|done]].
  - eapply evaluated_mono; [|exact Hev]. set_solver.
  - eapply answered_mono; [|exact Ha]. set_solver.
Qed.
End Evaluate.
