(* ===== verification/Effects.v ===== *)
(** * Which calls the stages can make

    Facts about the traces of the stages of the authorization pipeline, one
    per stage: calls of a dry run, the tenant of every call, how many decision
    rows are written and what only happens after one is. *)

From S2P Require Import Prelude RustString Prog Trust Canon Models External Validation Risk Runtime Admit Preflight Guard Metadata Evaluate.

(** A call that leaves nothing behind but the nonce. *)
Definition dry_call (T : Type) (e : DecisionE T) : Prop :=
  persists e = false ∨ records_nonce e = true.

(** A call scoped to [tenant], or to none. *)
Definition scoped (tenant : string) (T : Type) (e : DecisionE T) : Prop :=
  ∀ t, tenant_of e = Some t → t = tenant.

(** An agent lookup that found an agent found one of the tenant it was asked
    for. *)
Definition agent_of_tenant (ev : event DecisionE) : Prop :=
  match ev with
  | Call e r =>
      match e in DecisionE T return T → Prop with
      | GetAgentByToken tenant _ | GetAgentByMtlsCn tenant _ =>
          λ r, match r with Ok (Some a) => ag_tenant_id a = tenant | _ => True end
      | _ => λ _, True
      end r
  end.

(** The calls that act on a decision: evidence, agent state, approvals,
    notifications. *)
Definition acts {T} (e : DecisionE T) : bool :=
  match e with
  | EmitReceiptDurable _ _ _ _ _ _ | EmitReceiptBestEffort _ _ _ _ _ _
  | QuarantineAgent _ _ | EmitAgentQuarantined _ _ _ _ _ _ | CreateApproval _ _ _ _
  | MaybeEscalateRiskTier _ _ _ | EmitRiskEscalated _ _ _ _ _ _ _ _ _
  | NotifyGithubDecision _ _ _ _ _ _ => true
  | _ => false
  end.

Definition writes_row {T} (e : DecisionE T) : bool :=
  match e with WriteDecisionAndAudit _ => true | _ => false end.

Definition inert (T : Type) (e : DecisionE T) : Prop := acts e = false.
Definition rowless (T : Type) (e : DecisionE T) : Prop := acts e = false ∧ writes_row e = false.

(** The decision rows a trace writes. *)
Definition ev_row (ev : event DecisionE) : bool := match ev with Call e _ => writes_row e end.
Definition rows (t : dtrace) : nat := length (filter (λ ev, ev_row ev = true) t).

(** A successful write of the decision row. *)
Definition row_written (ev : event DecisionE) : Prop :=
  match ev with
  | Call e r =>
      match e in DecisionE T return T → Prop with
      | WriteDecisionAndAudit _ => λ r, is_ok r = true
      | _ => λ _, False
      end r
  end.

(** Every call that acts on a decision comes after a successful write. *)
Definition acts_after_write (t : dtrace) : Prop :=
  ∀ t1 ev t2, t = t1 ++ ev :: t2 → (match ev with Call e _ => acts e = true end) →
    Exists row_written t1.

(** ** Lists of events *)

Lemma rows_app t t' : rows (t ++ t') = rows t + rows t'.
Proof. unfold rows. by rewrite list.filter_app, length_app. Qed.

Lemma rows_none t : Forall (event_sat rowless) t → rows t = 0.
Proof.
  unfold rows. induction 1 as [|[T e r] t [_ He] _ IH]; [done|].
  rewrite list.filter_cons_False; [done|]. simpl. congruence.
Qed.

Lemma acts_after_nil : acts_after_write [].
Proof. intros [|??] ? ? [=]. Qed.

Lemma acts_after_app t t' :
  acts_after_write t → acts_after_write t' ∨ Exists row_written t → acts_after_write (t ++ t').
Proof.
  intros Ht Ht' t1 ev t2 Heq Hev.
  apply app_eq_inv in Heq as [(k & Hk & Hk')|(k & -> & Hk')].
  - destruct k as [|ev' k]; simplify_list_eq.
    + destruct Ht' as [Ht'|Ht']; [|done]. assert (Exists row_written []) as Hx by (by eapply Ht'). inversion Hx.
    + by eapply Ht.
  - destruct Ht' as [Ht'|Ht'].
    + rewrite Exists_app. right. by eapply Ht'.
    + rewrite Exists_app. by left.
Qed.

Lemma acts_after_inert t : Forall (event_sat inert) t → acts_after_write t.
Proof.
  intros H t1 ev t2 -> Hev. apply Forall_app in H as [_ H]. inversion H as [|?? Hi]; subst.
  destruct ev. unfold event_sat, inert in Hi. congruence.
Qed.

Lemma inert_of_rowless t : Forall (event_sat rowless) t → Forall (event_sat inert) t.
Proof. apply Forall_impl. intros [T e r] [H _]. done. Qed.

(** ** Dry runs *)

Section Dry.
Context {X : External}.

Lemma admit_dry ctx body : all_calls dry_call (Admit.admit_authorize ctx body).
Proof. unfold Admit.admit_authorize, Admit.resolve_credential. calls; by left. Qed.

Lemma preflight_dry a :
  ad_dry_run a = true → all_calls dry_call (Preflight.preflight_authorize a).
Proof.
  intros H. unfold Preflight.preflight_authorize, Preflight.check_replay,
    Preflight.check_idempotency. rewrite H.
  calls; try discriminate; first [by left|by right].
Qed.
End Dry.

Lemma persist_early_deny_dry request agent trust tool started reason pols hash :
  all_calls dry_call
    (Guard.persist_early_deny request agent trust true tool started reason pols hash).
Proof. unfold Guard.persist_early_deny. calls; by left. Qed.

Lemma guard_dry p started :
  pf_dry_run p = true → all_calls dry_call (Guard.guard_authorize p started).
Proof.
  intros H. unfold Guard.guard_authorize, Guard.admission. rewrite H.
  calls; try (by left); apply persist_early_deny_dry.
Qed.

Lemma metadata_dry g started :
  gd_dry_run g = true → all_calls dry_call (Metadata.metadata_authorize g started).
Proof.
  intros H. unfold Metadata.metadata_authorize, Metadata.resolve_mcp, Metadata.persist_mcp_deny.
  rewrite H. calls; by left.
Qed.

Lemma override_decision_keeps m view t d :
  runs (Evaluate.override_decision m view) t d → Evaluate.dc_meta d = m.
Proof. unfold Evaluate.override_decision. intros H. prog_run H; by subst. Qed.

(** A property of the calls of every block of the evaluation stage is one of
    its runs. *)
Lemma evaluate_calls P m started config t o :
  all_calls P (Evaluate.cedar_decision m) →
  (∀ view, all_calls P (Evaluate.override_decision m view)) →
  (∀ d, Evaluate.dc_meta d = m → all_calls P (Evaluate.finish_authorize d started config)) →
  runs (Evaluate.evaluate_authorize m started config) t o → Forall (event_sat P) t.
Proof.
  intros Hc Ho Hf H. unfold Evaluate.evaluate_authorize in H.
  apply runs_bind in H as (t1 & res & t2 & -> & H & [-> _]). rewrite app_nil_r.
  apply runs_try_bind in H as [(t3 & view & t4 & -> & Hr & H)|(e & -> & Hr)];
    [|by eapply all_calls_runs].
  apply runs_bind in H as (t5 & d & t6 & -> & Hd & H).
  pose proof (override_decision_keeps _ _ _ _ Hd).
  repeat (apply Forall_app; split); eauto using all_calls_runs.
Qed.

Lemma finish_dry d started config :
  gd_dry_run (md_guarded (Evaluate.dc_meta d)) = true →
  all_calls dry_call (Evaluate.finish_authorize d started config).
Proof.
  intros H. unfold Evaluate.finish_authorize, Evaluate.check_audit_capacity, Evaluate.write_audit,
    Evaluate.emit_receipt, Evaluate.quarantine_effects, Evaluate.approval_effects,
    Evaluate.escalation_effects, Evaluate.dc_dry_run, Evaluate.dc_guarded. rewrite H.
  cbn [negb andb]. calls; try discriminate; left; try done. simpl.
  unfold Evaluate.dc_dry_run, Evaluate.dc_guarded. by rewrite H.
Qed.

Lemma evaluate_dry m started config t o :
  gd_dry_run (md_guarded m) = true →
  runs (Evaluate.evaluate_authorize m started config) t o → Forall (event_sat dry_call) t.
Proof.
  intros H. apply evaluate_calls.
  - unfold Evaluate.cedar_decision. calls; by left.
  - intros. unfold Evaluate.override_decision. calls; by left.
  - intros d <-. by apply finish_dry.
Qed.

(** ** Tenants *)

Ltac scope := calls; intros ?tn ?Htn; simpl in Htn; first [congruence | by simplify_eq].

Section Scope.
Context {X : External}.

Lemma admit_scoped ctx body :
  all_calls (scoped (ctx_tenant_id ctx)) (Admit.admit_authorize ctx body).
Proof. unfold Admit.admit_authorize, Admit.resolve_credential. scope. Qed.

Lemma preflight_scoped a :
  all_calls (scoped (ag_tenant_id (ad_agent a))) (Preflight.preflight_authorize a).
Proof.
  unfold Preflight.preflight_authorize, Preflight.check_replay, Preflight.check_idempotency. scope.
Qed.
End Scope.

Lemma guard_scoped p started :
  all_calls (scoped (ag_tenant_id (pf_agent p))) (Guard.guard_authorize p started).
Proof. unfold Guard.guard_authorize, Guard.admission, Guard.persist_early_deny. scope. Qed.

Lemma metadata_scoped g started :
  all_calls (scoped (ag_tenant_id (gd_agent g))) (Metadata.metadata_authorize g started).
Proof.
  unfold Metadata.metadata_authorize, Metadata.resolve_mcp, Metadata.persist_mcp_deny. scope.
Qed.

Lemma evaluate_scoped m started config t o :
  runs (Evaluate.evaluate_authorize m started config) t o →
  Forall (event_sat (scoped (ag_tenant_id (gd_agent (md_guarded m))))) t.
Proof.
  apply evaluate_calls.
  - unfold Evaluate.cedar_decision. scope.
  - intros. unfold Evaluate.override_decision. scope.
  - intros d <-. unfold Evaluate.finish_authorize, Evaluate.check_audit_capacity,
      Evaluate.write_audit, Evaluate.emit_receipt, Evaluate.quarantine_effects,
      Evaluate.approval_effects, Evaluate.escalation_effects. scope.
Qed.

(** ** Rows, and what comes after them *)

Section Rowless.
Context {X : External}.

Lemma admit_rowless ctx body : all_calls rowless (Admit.admit_authorize ctx body).
Proof. unfold Admit.admit_authorize, Admit.resolve_credential. by calls. Qed.

Lemma preflight_rowless a : all_calls rowless (Preflight.preflight_authorize a).
Proof.
  unfold Preflight.preflight_authorize, Preflight.check_replay, Preflight.check_idempotency.
  by calls.
Qed.
End Rowless.

Lemma guard_inert p started : all_calls inert (Guard.guard_authorize p started).
Proof. unfold Guard.guard_authorize, Guard.admission, Guard.persist_early_deny. by calls. Qed.

Lemma metadata_inert g started : all_calls inert (Metadata.metadata_authorize g started).
Proof.
  unfold Metadata.metadata_authorize, Metadata.resolve_mcp, Metadata.persist_mcp_deny. by calls.
Qed.

(** Counts the rows along a stage. *)
Definition count_row (T : Type) (e : DecisionE T) (r : T) (n : nat) : nat :=
  if writes_row e then S n else n.

Lemma monitor_rows t : ∀ n, monitor count_row n t = (n + rows t)%nat.
Proof.
  unfold monitor, rows. induction t as [|[T e r] t IH]; intros n; simpl; [lia|].
  rewrite IH. unfold count_row. destruct (writes_row e) eqn:He.
  - rewrite list.filter_cons_True by done. simpl. lia.
  - rewrite list.filter_cons_False by (simpl; congruence). lia.
Qed.

(** A stage that goes on has written no row; one that returns wrote at most one. *)
Definition row_budget {A B} (n : nat) (r : Result A B) : Prop :=
  match r with Ok _ => n = 0 | Err _ => n ≤ 1 end.

Ltac wp_walk :=
  repeat (cbv [mret prog_mret mbind prog_mbind trigger try_bind];
    match goal with
    | |- wp _ _ _ (prog_bind _ _) => apply wp_bind
    | |- wp _ _ _ (Vis _ _) => cbn [wp]; intros ?
    | |- wp _ _ _ (Ret _) => cbn [wp]
    | |- wp _ _ _ (if ?b then _ else _) => destruct b eqn:?
    | |- wp _ _ _ (match ?x with _ => _ end) => destruct x eqn:?
    end).

Lemma rows_of_wp {A} (Q : nat → A → Prop) p t a : wp count_row Q 0%nat p → runs p t a → Q (rows t) a.
Proof. intros Hw Hr. pose proof (wp_runs _ _ _ _ _ _ Hw Hr) as HQ. by rewrite monitor_rows in HQ. Qed.

Ltac budget := wp_walk; subst; unfold row_budget, count_row; simpl; try discriminate; lia.

Lemma guard_rows p started t r : runs (Guard.guard_authorize p started) t r → row_budget (rows t) r.
Proof.
  apply rows_of_wp. unfold Guard.guard_authorize, Guard.admission, Guard.persist_early_deny. budget.
Qed.

Lemma metadata_rows g started t r :
  runs (Metadata.metadata_authorize g started) t r → row_budget (rows t) r.
Proof.
  apply rows_of_wp.
  unfold Metadata.metadata_authorize, Metadata.resolve_mcp, Metadata.persist_mcp_deny. budget.
Qed.

Lemma evaluate_rows m started config t o :
  runs (Evaluate.evaluate_authorize m started config) t o → rows t ≤ 1.
Proof.
  apply (rows_of_wp (λ n _, n ≤ 1)).
  unfold Evaluate.evaluate_authorize, Evaluate.cedar_decision, Evaluate.override_decision,
    Evaluate.finish_authorize, Evaluate.check_audit_capacity, Evaluate.write_audit,
    Evaluate.emit_receipt, Evaluate.quarantine_effects, Evaluate.approval_effects,
    Evaluate.escalation_effects. budget.
Qed.

Lemma acts_after_calls {A} (p : Decide A) t a :
  all_calls inert p → runs p t a → acts_after_write t.
Proof. intros Hp Hr. apply acts_after_inert. by eapply all_calls_runs. Qed.

Lemma write_audit_order d started t r :
  runs (Evaluate.write_audit d started) t r →
  acts_after_write t ∧ (is_ok r = true → Exists row_written t).
Proof.
  intros H. split.
  - eapply acts_after_calls; [|exact H]. unfold Evaluate.write_audit. by calls.
  - intros Hr. destruct r as [c|]; [|done]. apply Evaluate.write_audit_ok in H.
    apply list.Exists_exists. eexists. split; [exact H|done].
Qed.

Lemma evaluate_order m started config t o :
  runs (Evaluate.evaluate_authorize m started config) t o → acts_after_write t.
Proof.
  unfold Evaluate.evaluate_authorize. intros H.
  apply runs_bind in H as (t1 & res & t2 & -> & H & [-> _]). rewrite app_nil_r.
  apply runs_try_bind in H as [(t3 & view & t4 & -> & Hc & H)|(e & -> & Hc)].
  2: { eapply acts_after_calls; [|exact Hc]. unfold Evaluate.cedar_decision. by calls. }
  apply runs_bind in H as (t5 & d & t6 & -> & Hd & H).
  apply acts_after_app; [eapply acts_after_calls; [|exact Hc]; unfold Evaluate.cedar_decision; by calls|left].
  apply acts_after_app; [eapply acts_after_calls; [|exact Hd]; unfold Evaluate.override_decision; by calls|left].
  unfold Evaluate.finish_authorize in H.
  assert (∀ t r, runs (Evaluate.check_audit_capacity d) t r → acts_after_write t) as Hcap.
  { intros t r. apply acts_after_calls. unfold Evaluate.check_audit_capacity. by calls. }
  apply runs_try_bind in H as [(t7 & u & t8 & -> & Hu & H)|(e & -> & Hu)]; [|by eapply Hcap].
  apply acts_after_app; [by eapply Hcap|left].
  apply runs_try_bind in H as [(t9 & c & t10 & -> & Hw & H)|(e & -> & Hw)].
  2: { by apply write_audit_order in Hw as [? _]. }
  apply write_audit_order in Hw as [? Hw]. apply acts_after_app; [done|]. right. by apply Hw.
Qed.

(** ** Replays *)

Definition replays {T} (e : DecisionE T) : bool :=
  match e with IdempotentReplay _ => true | _ => false end.
Definition fresh_call (T : Type) (e : DecisionE T) : Prop := replays e = false.

Section Fresh.
Context {X : External}.

Lemma admit_fresh ctx body : all_calls fresh_call (Admit.admit_authorize ctx body).
Proof. unfold Admit.admit_authorize, Admit.resolve_credential. by calls. Qed.

Lemma preflight_fresh a : all_calls fresh_call (Preflight.preflight_authorize a).
Proof.
  unfold Preflight.preflight_authorize, Preflight.check_replay, Preflight.check_idempotency.
  by calls.
Qed.
End Fresh.

Lemma guard_fresh p started : all_calls fresh_call (Guard.guard_authorize p started).
Proof. unfold Guard.guard_authorize, Guard.admission, Guard.persist_early_deny. by calls. Qed.

Lemma metadata_fresh g started : all_calls fresh_call (Metadata.metadata_authorize g started).
Proof.
  unfold Metadata.metadata_authorize, Metadata.resolve_mcp, Metadata.persist_mcp_deny. by calls.
Qed.

Lemma evaluate_fresh m started config t o :
  runs (Evaluate.evaluate_authorize m started config) t o → Forall (event_sat fresh_call) t.
Proof.
  apply evaluate_calls.
  - unfold Evaluate.cedar_decision. by calls.
  - intros. unfold Evaluate.override_decision. by calls.
  - intros d _. unfold Evaluate.finish_authorize, Evaluate.check_audit_capacity,
      Evaluate.write_audit, Evaluate.emit_receipt, Evaluate.quarantine_effects,
      Evaluate.approval_effects, Evaluate.escalation_effects. by calls.
Qed.

Lemma fresh_no_replay t record replayed :
  Forall (event_sat fresh_call) t → Call (IdempotentReplay record) replayed ∉ t.
Proof. rewrite list.Forall_forall. intros H Hin. by specialize (H _ Hin). Qed.

(** The replay a call is, with its answer. *)
Definition replay_of (ev : event DecisionE) : option (DecisionRecord * Fallible AuthorizeResponse) :=
  match ev with
  | Call e r =>
      match e in DecisionE T return T → _ with
      | IdempotentReplay record => λ r, Some (record, r)
      | _ => λ _, None
      end r
  end.

(** ** Failed writes *)

(** The write a call is, with its answer. *)
Definition write_of (ev : event DecisionE) : option (DecisionAuditWrite * Fallible Z) :=
  match ev with
  | Call e r =>
      match e in DecisionE T return T → _ with
      | WriteDecisionAndAudit w => λ r, Some (w, r)
      | _ => λ _, None
      end r
  end.

Lemma rows_unique t ev ev' :
  rows t ≤ 1 → ev ∈ t → ev' ∈ t → ev_row ev = true → ev_row ev' = true → ev = ev'.
Proof.
  unfold rows. intros Hr Hin Hin' He He'.
  assert (ev ∈ filter (λ ev, ev_row ev = true) t) as H1 by by apply list_elem_of_filter.
  assert (ev' ∈ filter (λ ev, ev_row ev = true) t) as H2 by by apply list_elem_of_filter.
  destruct (filter _ t) as [|x [|y l]]; simpl in Hr; [by apply elem_of_nil in H1| |lia].
  apply list_elem_of_singleton in H1, H2. congruence.
Qed.

Lemma rows_some t ev : ev ∈ t → ev_row ev = true → rows t ≠ 0.
Proof.
  unfold rows. intros Hin He Hz.
  assert (ev ∈ filter (λ ev, ev_row ev = true) t) as H1 by by apply list_elem_of_filter.
  by destruct (filter _ t); [apply elem_of_nil in H1|].
Qed.

Lemma row_written_row ev : row_written ev → ev_row ev = true.
Proof. by destruct ev as [T [] r]. Qed.

(** Where a write failed nothing acted on the decision. *)
Lemma failed_write_no_acts t w e :
  acts_after_write t → rows t ≤ 1 → Call (WriteDecisionAndAudit w) (Err e) ∈ t →
  Forall (event_sat inert) t.
Proof.
  intros Hord Hrows Hfail. apply list.Forall_forall. intros ev Hin.
  destruct ev as [T c r]. unfold event_sat, inert. destruct (acts c) eqn:Hacts; [|done]. exfalso.
  apply list_elem_of_split in Hin as (t1 & t2 & ->).
  specialize (Hord t1 (Call c r) t2 eq_refl Hacts). apply list.Exists_exists in Hord as (ev & Hev & Hw).
  assert (ev = Call (WriteDecisionAndAudit w) (Err e)) as ->.
  { eapply rows_unique; [exact Hrows|apply elem_of_app; by left|exact Hfail|by apply row_written_row|reflexivity]. }
  done.
Qed.
