(* ===== verification/Pipeline.v ===== *)
(** * The authorization pipeline end to end

    Models [src/lib/decision/src/pipeline.rs]: admit, preflight, guard,
    metadata, evaluate, and the replay of an earlier decision. *)

From S2P Require Import Prelude RustString Prog Trust Canon Models External Validation Risk Runtime Admit Preflight Guard Metadata Evaluate Effects.

Module Pipeline.
Section Pipeline.
Context {X : External}.

(** [Uuid::nil()] *)
Definition Uuid_nil : Uuid := 0%Z.

Definition authorize_response_from_decision_record (record : DecisionRecord)
    (approval : option ApprovalResponseInfo) : AuthorizeResponse :=
  let risk_score := default 0%Z (dr_risk_score record) in
  {| rs_decision_id := default Uuid_nil (uuid_parse (dr_id record));
     rs_decision := dr_decision record;
     rs_risk_score := risk_score;
     rs_risk_level := Risk.risk_level_for_score risk_score;
     rs_composite_risk_score := default risk_score (dr_composite_risk_score record);
     rs_reason := default "" (dr_reason record);
     rs_matched_policies :=
       List.filter (λ s, negb (is_empty s)) (split_on "," (default "" (dr_matched_policy_ids record)));
     rs_approval := approval;
     rs_redacted_fields := [];
     rs_root_trust_level := default "unknown" (dr_root_trust_level record);
     rs_dry_run := false;
     rs_receipt := None |}.

(** The early returns are the [Err] side; the caller sees either side. *)
Definition pipeline_stages (ctx : AuthorizeContext) (raw_body : string) (started_at : Instant)
    (config : EvaluateConfig) : Decide (Result DecisionOutcome DecisionOutcome) :=
  admitted ←? Admit.admit_authorize ctx raw_body;
  preflighted ← Preflight.preflight_authorize admitted;
  match preflighted with
  | Err (TermOutcome outcome) => mret (Err outcome)
  | Err (TermIdempotentReplay record) =>
      replayed ← trigger (IdempotentReplay record);
      match replayed with
      | Ok resp => mret (Err (outcome_decision resp))
      | Err e => mret (Err (aegis_err_to_outcome e))
      end
  | Ok preflighted =>
      guarded ←? Guard.guard_authorize preflighted started_at;
      meta ←? Metadata.metadata_authorize guarded started_at;
      outcome ← Evaluate.evaluate_authorize meta started_at config;
      mret (Ok outcome)
  end.

Definition run_authorize_pipeline (ctx : AuthorizeContext) (raw_body : string)
    (started_at : Instant) (config : EvaluateConfig) : Decide DecisionOutcome :=
  r ← pipeline_stages ctx raw_body started_at config;
  mret (Evaluate.merge_outcome r).

(** ** Lemmas *)

(** How far a run got, with the traces of the stages it ran. *)
Inductive reached (ctx : AuthorizeContext) (body : string) (started : Instant)
    (config : EvaluateConfig) : dtrace → DecisionOutcome → Prop :=
| reached_admit t o :
    runs (Admit.admit_authorize ctx body) t (Err o) → reached ctx body started config t o
| reached_preflight t1 a t2 o :
    runs (Admit.admit_authorize ctx body) t1 (Ok a) →
    runs (Preflight.preflight_authorize a) t2 (Err (TermOutcome o)) →
    reached ctx body started config (t1 ++ t2) o
| reached_replay t1 a t2 record replayed :
    runs (Admit.admit_authorize ctx body) t1 (Ok a) →
    runs (Preflight.preflight_authorize a) t2 (Err (TermIdempotentReplay record)) →
    reached ctx body started config (t1 ++ t2 ++ [Call (IdempotentReplay record) replayed])
      match replayed with Ok resp => outcome_decision resp | Err e => aegis_err_to_outcome e end
| reached_guard t1 a t2 p t3 o :
    runs (Admit.admit_authorize ctx body) t1 (Ok a) →
    runs (Preflight.preflight_authorize a) t2 (Ok p) →
    runs (Guard.guard_authorize p started) t3 (Err o) →
    reached ctx body started config (t1 ++ t2 ++ t3) o
| reached_metadata t1 a t2 p t3 g t4 o :
    runs (Admit.admit_authorize ctx body) t1 (Ok a) →
    runs (Preflight.preflight_authorize a) t2 (Ok p) →
    runs (Guard.guard_authorize p started) t3 (Ok g) →
    runs (Metadata.metadata_authorize g started) t4 (Err o) →
    reached ctx body started config (t1 ++ t2 ++ t3 ++ t4) o
| reached_evaluate t1 a t2 p t3 g t4 m t5 o :
    runs (Admit.admit_authorize ctx body) t1 (Ok a) →
    runs (Preflight.preflight_authorize a) t2 (Ok p) →
    runs (Guard.guard_authorize p started) t3 (Ok g) →
    runs (Metadata.metadata_authorize g started) t4 (Ok m) →
    runs (Evaluate.evaluate_authorize m started config) t5 o →
    reached ctx body started config (t1 ++ t2 ++ t3 ++ t4 ++ t5) o.

Lemma pipeline_reached ctx body started config t o :
  runs (run_authorize_pipeline ctx body started config) t o → reached ctx body started config t o.
Proof.
  unfold run_authorize_pipeline, pipeline_stages. intros H.
  apply runs_bind in H as (t0 & res & t' & -> & H & [-> ->]). rewrite app_nil_r.
  apply runs_try_bind in H as [(t1 & a & t2 & -> & Ha & H)|(e & -> & Ha)]; [|by constructor].
  apply runs_bind in H as (t3 & [p|[o|record]] & t4 & -> & Hp & H).
  - apply runs_try_bind in H as [(t5 & g & t6 & -> & Hg & H)|(e & -> & Hg)];
      [|by eapply reached_guard].
    apply runs_try_bind in H as [(t7 & m & t8 & -> & Hm & H)|(e & -> & Hm)];
      [|by eapply reached_metadata].
    apply runs_bind in H as (t9 & o & t10 & -> & He & [-> ->]). rewrite app_nil_r.
    by eapply reached_evaluate.
  - destruct H as [-> ->]. rewrite app_nil_r. by eapply reached_preflight.
  - apply runs_bind in H as (t5 & r & t6 & -> & Hr & H).
    apply runs_trigger in Hr as ->.
    assert (t6 = [] ∧ Evaluate.merge_outcome res =
      match r with Ok resp => outcome_decision resp | Err e => aegis_err_to_outcome e end)
      as [-> ->] by (by destruct r, H as [-> ->]).
    rewrite app_nil_r. by eapply reached_replay.
Qed.

(** Success statuses and decisions coincide. *)
Lemma success_decision o : (∃ f, o = outcome_failure f) ∨ (∃ r, o = partial_deny r) ∨
    (∃ r, o = outcome_decision r) → is_success o = true ↔ is_Some (decision_of o).
Proof.
  intros [(f & ->)|[(r & ->)|(r & ->)]].
  - destruct (no_decision_failure f) as [-> ->]. by split; [|intros [? ?]].
  - by split; [|intros [? ?]].
  - split; [|done]. intros _. by exists r.
Qed.

(** Everything that was checked before an [allow] of the pipeline itself. *)
Record gates_passed (ctx : AuthorizeContext) (body : string) (started : Instant) (t : dtrace)
    (agent : AuthorizeAgent) (request asked : AuthorizeRequest) : Prop := {
  gp_parsed : json_parse_request body = Some request;
  gp_not_locked : Call (AuthFailureBlocked (ctx_client_addr ctx) (ctx_tenant_id ctx)) false ∈ t;
  gp_authenticated :
    match ctx_credential ctx with
    | BearerToken token =>
        token ≠ "" ∧ Call (GetAgentByToken (ctx_tenant_id ctx) token) (Ok (Some agent)) ∈ t
    | MtlsCn cn =>
        cn ≠ "" ∧ Call (GetAgentByMtlsCn (ctx_tenant_id ctx) cn) (Ok (Some agent)) ∈ t
    end;
  gp_signature : ∀ key, ag_signing_key agent = Some key →
    ∃ sig, ctx_request_signature ctx = Some sig ∧ Hash.verify_request_signature key body sig = true;
  gp_environment : Validation.validate_environment (ag_allowed_environments agent)
    (actx_environment (rq_agent request)) = Ok tt;
  gp_tool_permitted : Call (AgentToolPermitted (ag_tenant_id agent) (ag_id agent)
    (tc_tool (rq_tool_call request))) (Ok true) ∈ t;
  gp_nonce : Preflight.nonce_fresh request (ag_tenant_id agent) (ag_id agent) t;
  gp_rate : Call (CheckRateLimit (ag_tenant_id agent)) true ∈ t;
  gp_quota : Call (CheckQuota (ag_tenant_id agent)) true ∈ t;
  gp_active : ag_status agent ≠ "frozen" ∧ ag_status agent ≠ "revoked";
  gp_asked : asked = request ∨ ∃ params,
    Call (CallAdmissionWebhook request) (Ok (Mutate params)) ∈ t ∧
    asked = set_parameters request params;
  gp_clear : Call (GetEnforcementStatus (ag_tenant_id agent) (ag_id agent)
    (Validation.normalize_tool_identifier (tc_tool (rq_tool_call request)))) (Ok Clear) ∈ t;
  gp_mcp : ∀ key, Guard.mcp_server_key_from_tool
      (Validation.normalize_tool_identifier (tc_tool (rq_tool_call request))) = Some key →
    Call (AgentMcpServerPermitted (ag_tenant_id agent) (ag_id agent) key) (Ok true) ∈ t ∧
    (∃ status, Call (McpServerStatus (ag_tenant_id agent) key) (Ok status) ∈ t ∧
               status ≠ Some "quarantined") ∧
    ∃ tool, Call (GetMcpToolMeta (ag_tenant_id agent) key (Validation.normalize_tool_identifier
              (tc_action (rq_tool_call request)))) (Ok (Some tool)) ∈ t ∧
            mtm_status tool = "approved" ∧ mtm_approval_required tool = false ∧
            mtm_risk tool ≠ "critical";
  gp_not_forced : ag_force_approval agent = false;
  gp_cedar : ∃ known mtls view,
    Call (EvaluateCedar (ag_tenant_id agent) asked (ag_risk_tier agent) known mtls) (Ok view) ∈ t ∧
    pd_decision view = "allow";
  gp_audited : ∃ w, wr_decision w = "allow" ∧ wr_request w = asked ∧ wr_tenant_id w = ag_tenant_id agent ∧
    wr_dry_run w = default false (rq_dry_run request) ∧
    ∃ res, Call (WriteDecisionAndAudit w) res ∈ t ∧
           (is_ok res = true ∨ tc_mutates_state (rq_tool_call asked) = false) }.

Lemma answered_allow d started t r :
  Evaluate.answered d started t r → rs_decision r = "allow" →
  Evaluate.dc_decision d = "allow" ∧
  ∃ res, Call (WriteDecisionAndAudit (Evaluate.decision_write d started)) res ∈ t ∧
         (is_ok res = true ∨ Evaluate.dc_mutates d = false).
Proof.
  intros [r' Hr _ _|e Hw Hl|c a rc Hw _ _] Hd.
  - congruence.
  - split; [done|]. eexists. split; [exact Hw|]. right.
    unfold Risk.is_high_risk_for_audit in Hl. by apply orb_false_iff in Hl as [? _].
  - split; [done|]. eexists. split; [exact Hw|by left].
Qed.

Lemma allow_mcp g t m key :
  Metadata.mcp_checked g t key m → md_risk_level m ≠ "critical" →
  md_action_approval_required m = false →
  Call (AgentMcpServerPermitted (ag_tenant_id (gd_agent g)) (ag_id (gd_agent g)) key) (Ok true) ∈ t ∧
  (∃ status, Call (McpServerStatus (ag_tenant_id (gd_agent g)) key) (Ok status) ∈ t ∧
             status ≠ Some "quarantined") ∧
  ∃ tool, Call (GetMcpToolMeta (ag_tenant_id (gd_agent g)) key (gd_normalized_action g))
               (Ok (Some tool)) ∈ t ∧
          mtm_status tool = "approved" ∧ mtm_approval_required tool = false ∧
          mtm_risk tool ≠ "critical".
Proof.
  intros (Hp & Hs & tool & Ht & Htool) Hrisk Happr. split; [done|]. split; [done|].
  destruct tool as [tool|]; [|by destruct Htool].
  destruct Htool as (Hst & Hrk & Hap). exists tool. split; [done|]. split; [done|].
  split; [|congruence]. destruct (mtm_approval_required tool); [|done]. by rewrite Hap in Happr.
Qed.

Lemma credential_in ctx t t' agent mtls :
  Admit.credential_resolved ctx t' agent mtls → t' ⊆ t →
  match ctx_credential ctx with
  | BearerToken token =>
      token ≠ "" ∧ Call (GetAgentByToken (ctx_tenant_id ctx) token) (Ok (Some agent)) ∈ t
  | MtlsCn cn =>
      cn ≠ "" ∧ Call (GetAgentByMtlsCn (ctx_tenant_id ctx) cn) (Ok (Some agent)) ∈ t
  end.
Proof.
  unfold Admit.credential_resolved. intros H Hs.
  destruct (ctx_credential ctx); destruct H as (? & _ & ->); (split; [done|set_solver]).
Qed.

(** The gates, from the records of the stages. *)
Lemma gates_of_stages ctx body started t1 t2 t3 t4 t5 a p g m d r :
  Admit.admitted_by ctx body t1 a → Preflight.preflighted_by a t2 p →
  Guard.guarded_by p t3 g → Metadata.described_by g t4 m →
  Evaluate.evaluated m t5 d → Evaluate.answered d started t5 r → rs_decision r = "allow" →
  gates_passed ctx body started (t1 ++ t2 ++ t3 ++ t4 ++ t5) (ad_agent a) (ad_request a)
    (gd_request g).
Proof.
  intros [] [] [] [] [Hmeta _ (view & Hcedar & Hov & _)] Hans Hallow.
  destruct (answered_allow _ _ _ _ Hans Hallow) as (Hdec & res & Hw & Hres).
  rewrite Hdec in Hov. apply Validation.overrides_allow_inv in Hov as (Hv & _ & _ & Happr & Hrisk & Hforce).
  rewrite gdb_agent, pfl_agent in *. subst.
  destruct adm_calls as (t' & -> & Hcred).
  split; try done; try in_trace.
  - eapply credential_in; [done|]. set_solver.
  - intros key Hk. destruct (adm_signature key Hk) as (sig & ? & _ & ?). eauto.
  - eapply Preflight.nonce_fresh_mono; [done|]. set_solver.
  - rewrite pfl_request in *. destruct gdb_request as [->|(params & ? & ->)]; [by left|].
    right. exists params. split; [in_trace|done].
  - rewrite <- pfl_tool. in_trace.
  - intros key Hkey. rewrite <- pfl_tool, <- gdb_tool, <- mdb_key in Hkey.
    destruct (allow_mcp _ _ _ _ (mdb_mcp_checked key Hkey) Hrisk Happr)
      as (? & (status & ? & ?) & tool & ? & ?).
    rewrite gdb_agent in *. rewrite <- pfl_action, <- gdb_action.
    split; [in_trace|]. split; [exists status; split; [in_trace|done]|].
    exists tool. split; [in_trace|done].
  - by rewrite <- gdb_agent.
  - exists (md_is_tool_known (Evaluate.dc_meta d)), (gd_used_mtls (md_guarded (Evaluate.dc_meta d))), view. split; [|done]. rewrite <- gdb_agent. in_trace.
  - exists (Evaluate.decision_write d started). split; [done|]. split; [done|].
    split; [by rewrite <- gdb_agent|]. split; [simpl; unfold Evaluate.dc_dry_run; unfold Evaluate.dc_guarded; congruence|].
    exists res. split; [in_trace|done].
Qed.

(** What holds of the calls of every stage holds of the calls of the
    pipeline; the agent and the dry-run flag are those of admission. *)
Lemma pipeline_calls (P : ∀ T, DecisionE T → Prop) ctx body started config t o :
  all_calls P (Admit.admit_authorize ctx body) →
  (∀ t1 a, runs (Admit.admit_authorize ctx body) t1 (Ok a) → t1 ⊆ t →
    all_calls P (Preflight.preflight_authorize a) ∧
    (∀ record, P _ (IdempotentReplay record)) ∧
    (∀ p, pf_agent p = ad_agent a → pf_dry_run p = ad_dry_run a →
      all_calls P (Guard.guard_authorize p started)) ∧
    (∀ g, gd_agent g = ad_agent a → gd_dry_run g = ad_dry_run a →
      all_calls P (Metadata.metadata_authorize g started)) ∧
    (∀ m t' o', gd_agent (md_guarded m) = ad_agent a → gd_dry_run (md_guarded m) = ad_dry_run a →
      runs (Evaluate.evaluate_authorize m started config) t' o' → Forall (event_sat P) t')) →
  runs (run_authorize_pipeline ctx body started config) t o → Forall (event_sat P) t.
Proof.
  intros HA Hst Hrun%pipeline_reached.
  destruct Hrun as [t o Ha|t1 a t2 o Ha Hp|t1 a t2 record rep Ha Hp|t1 a t2 p t3 o Ha Hp Hg
    |t1 a t2 p t3 g t4 o Ha Hp Hg Hm|t1 a t2 p t3 g t4 m t5 o Ha Hp Hg Hm He];
    [by eapply all_calls_runs|..].
  all: destruct (Hst _ _ Ha ltac:(set_solver)) as (HP & HR & HG & HM & HE).
  all: try (pose proof (Preflight.preflight_ok _ _ _ Hp) as [? Hpa ? Hpd]).
  all: try (pose proof (Guard.guard_ok _ _ _ _ Hg) as [Hga ? Hgd]).
  all: try (pose proof (Metadata.metadata_ok _ _ _ _ Hm) as [Hmg]).
  all: repeat (apply Forall_app; split); try exact (all_calls_runs _ _ _ _ HA Ha).
  all: try exact (all_calls_runs _ _ _ _ HP Hp).
  all: try (eapply all_calls_runs; [apply (HG p); congruence|done]).
  all: try (eapply all_calls_runs; [apply (HM g); congruence|done]).
  - constructor; [apply HR|constructor].
  - apply (HE m _ o); [congruence..|done].
Qed.

(** The receipt of a protected answer that is not a fail-closed deny. *)
Lemma answered_receipt d started t r :
  Evaluate.answered d started t r → rs_decision r ≠ "deny" → rs_dry_run r = false →
  Evaluate.dc_mutates d = true ∨ rs_risk_level r = "high" ∨ rs_risk_level r = "critical" →
  ∃ rc hash, rs_receipt r = Some rc ∧
    Call (EmitReceiptDurable (Evaluate.dc_tenant d) (Evaluate.dc_agent_id d) (Evaluate.dc_payload d)
            (rs_decision_id r) (rs_decision r) hash) (Ok rc) ∈ t.
Proof.
  intros [r' Hr _ _|e Hw Hl|c a rc Hw Hrc _] Hnd Hdry Hprot; [done|..].
  - unfold Risk.is_high_risk_for_audit in Hl. apply orb_false_iff in Hl as [Hm Hl].
    apply negb_false_iff in Hl. str_eq. simpl in Hprot. rewrite Hl in Hprot.
    destruct Hprot as [?|[?|?]]; congruence.
  - destruct Hrc as [Hd|Hd|rc Hd]; simpl in *; [congruence| |eauto].
    unfold Risk.decision_requires_durable_receipt in Hd.
    destruct Hprot as [Hp|[Hp|Hp]]; rewrite Hp in Hd; try done.
    all: by destruct (Evaluate.dc_mutates d).
Qed.

Lemma dry_run_calls ctx body started config t o request :
  json_parse_request body = Some request → rq_dry_run request = Some true →
  runs (run_authorize_pipeline ctx body started config) t o →
  Forall (event_sat dry_call) t.
Proof.
  intros Hj Hd. apply pipeline_calls; [apply admit_dry|].
  intros t1 a Ha%Admit.admit_ok _. destruct Ha.
  assert (ad_dry_run a = true) as Hdry by (rewrite adm_dry_run; simplify_eq; by rewrite Hd).
  split; [by apply preflight_dry|]. split; [by left|]. split; [|split].
  - intros p _ Hp. apply guard_dry. congruence.
  - intros g _ Hg. apply metadata_dry. congruence.
  - intros m t' o' _ Hm. apply evaluate_dry. congruence.
Qed.

(** What the answer from a recorded decision rests on: the credential names the
    agent, the tool is permitted to it, the request is not a dry run and has an
    identifier, and [record] was found for this agent and identifier. *)
Record replayed (ctx : AuthorizeContext) (body : string) (t : dtrace) (agent : AuthorizeAgent)
    (request : AuthorizeRequest) (rid : string) (record : DecisionRecord) : Prop := {
  rpl_parsed : json_parse_request body = Some request;
  rpl_not_dry : default false (rq_dry_run request) = false;
  rpl_id : rq_request_id request = Some rid ∧ rid ≠ "";
  rpl_authenticated :
    match ctx_credential ctx with
    | BearerToken token =>
        token ≠ "" ∧ Call (GetAgentByToken (ctx_tenant_id ctx) token) (Ok (Some agent)) ∈ t
    | MtlsCn cn =>
        cn ≠ "" ∧ Call (GetAgentByMtlsCn (ctx_tenant_id ctx) cn) (Ok (Some agent)) ∈ t
    end;
  rpl_permitted : Call (AgentToolPermitted (ag_tenant_id agent) (ag_id agent)
    (tc_tool (rq_tool_call request))) (Ok true) ∈ t;
  rpl_found : Call (GetDecisionByRequestId (ag_tenant_id agent) (ag_id agent) rid) (Ok (Some record)) ∈ t }.

Lemma replayed_of_stages ctx body t1 t2 t3 a record :
  runs (Admit.admit_authorize ctx body) t1 (Ok a) →
  runs (Preflight.preflight_authorize a) t2 (Err (TermIdempotentReplay record)) →
  ∃ rid, replayed ctx body (t1 ++ t2 ++ t3) (ad_agent a) (ad_request a) rid record.
Proof.
  intros Ha%Admit.admit_ok Hp. pose proof (Preflight.replay_permitted _ _ _ Hp) as Hperm.
  apply Preflight.preflight_err in Hp as (Hd & rid & Hid & Hne & Hfound).
  destruct Ha. destruct adm_calls as (t' & -> & Hcred). exists rid.
  split; try done; [congruence| |set_solver..]. eapply credential_in; [done|]. set_solver.
Qed.

Lemma allow_gates ctx body started config t o r :
  runs (run_authorize_pipeline ctx body started config) t o →
  decision_of o = Some r → rs_decision r = "allow" →
  (∃ agent request rid record, replayed ctx body t agent request rid record ∧
     Call (IdempotentReplay record) (Ok r) ∈ t) ∨
  ∃ agent request asked, gates_passed ctx body started t agent request asked.
Proof.
  intros Hrun%pipeline_reached Hr Hallow.
  destruct Hrun as [t o Ha|t1 a t2 o Ha Hp|t1 a t2 record rep Ha Hp|t1 a t2 p t3 o Ha Hp Hg
    |t1 a t2 p t3 g t4 o Ha Hp Hg Hm|t1 a t2 p t3 g t4 m t5 o Ha Hp Hg Hm He].
  - apply Admit.admit_err in Ha as [_ Hn]. congruence.
  - apply Preflight.preflight_err in Hp as [_ Hn]. congruence.
  - left. destruct rep as [resp|e]; [|by destruct (no_decision_err e) as [_ Hn]; congruence].
    simpl in Hr. injection Hr as ->.
    destruct (replayed_of_stages _ _ _ _ [Call (IdempotentReplay record) (Ok r)] _ _ Ha Hp) as [rid Hrep].
    exists (ad_agent a), (ad_request a), rid, record. split; [exact Hrep|]. in_trace.
  - rewrite (denies_deny_only _ _ (Guard.guard_err _ _ _ _ Hg) Hr) in Hallow. done.
  - rewrite (denies_deny_only _ _ (Metadata.metadata_err _ _ _ _ Hm) Hr) in Hallow. done.
  - right. apply Evaluate.evaluate_runs in He as [[_ Hn]|(d & r' & Hev & Hans & ->)]; [congruence|].
    simpl in Hr. injection Hr as ->. exists (ad_agent a), (ad_request a), (gd_request g).
    eapply gates_of_stages; eauto using Admit.admit_ok, Preflight.preflight_ok, Guard.guard_ok,
      Metadata.metadata_ok.
Qed.

Lemma pipeline_rows ctx body started config t o :
  reached ctx body started config t o → rows t ≤ 1.
Proof.
  intros Hrun.
  assert (∀ t r, runs (Admit.admit_authorize ctx body) t r → rows t = 0) as HA.
  { intros t' r Hr. apply rows_none. by eapply all_calls_runs; [apply admit_rowless|]. }
  assert (∀ a t r, runs (Preflight.preflight_authorize a) t r → rows t = 0) as HP.
  { intros a t' r Hr. apply rows_none. by eapply all_calls_runs; [apply preflight_rowless|]. }
  destruct Hrun as [t o Ha|t1 a t2 o Ha Hp|t1 a t2 record rep Ha Hp|t1 a t2 p t3 o Ha Hp Hg
    |t1 a t2 p t3 g t4 o Ha Hp Hg Hm|t1 a t2 p t3 g t4 m t5 o Ha Hp Hg Hm He].
  all: rewrite ?rows_app, (HA _ _ Ha), ?(HP _ _ _ Hp); simpl; try lia.
  all: try (pose proof (guard_rows _ _ _ _ Hg) as Hg'; simpl in Hg').
  all: try (pose proof (metadata_rows _ _ _ _ Hm) as Hm'; simpl in Hm').
  all: try (pose proof (evaluate_rows _ _ _ _ _ He)).
  all: try lia.
  unfold rows. simpl. lia.
Qed.

Lemma pipeline_order ctx body started config t o :
  reached ctx body started config t o → acts_after_write t.
Proof.
  intros Hrun.
  assert (∀ t r, runs (Admit.admit_authorize ctx body) t r → acts_after_write t) as HA.
  { intros t' r Hr. apply acts_after_inert, inert_of_rowless.
    by eapply all_calls_runs; [apply admit_rowless|]. }
  assert (∀ a t r, runs (Preflight.preflight_authorize a) t r → acts_after_write t) as HP.
  { intros a t' r Hr. apply acts_after_inert, inert_of_rowless.
    by eapply all_calls_runs; [apply preflight_rowless|]. }
  destruct Hrun as [t o Ha|t1 a t2 o Ha Hp|t1 a t2 record rep Ha Hp|t1 a t2 p t3 o Ha Hp Hg
    |t1 a t2 p t3 g t4 o Ha Hp Hg Hm|t1 a t2 p t3 g t4 m t5 o Ha Hp Hg Hm He];
    [by eapply HA|..].
  all: apply acts_after_app; [by eapply HA|left]; try (by eapply HP).
  all: apply acts_after_app; [by eapply HP|left].
  - apply acts_after_inert. by repeat constructor.
  - eapply acts_after_calls; [apply guard_inert|exact Hg].
  - apply acts_after_app; [eapply acts_after_calls; [apply guard_inert|exact Hg]|left].
    eapply acts_after_calls; [apply metadata_inert|exact Hm].
  - apply acts_after_app; [eapply acts_after_calls; [apply guard_inert|exact Hg]|left].
    apply acts_after_app; [eapply acts_after_calls; [apply metadata_inert|exact Hm]|left].
    by eapply evaluate_order.
Qed.

(** ** Properties *)

(** C1: an [allow] is earned.  In every run of the pipeline, against every
    implementor of the runtime, an answer [allow] is either the replay of a
    decision that was found for the agent of the credential and the identifier of
    the request, or everything was checked: the request parsed, the
    client was not locked out, the credential names the agent, its
    signature and environment are valid, the tool and the MCP server are
    permitted, the nonce is fresh, rate and quota hold, the agent is
    neither frozen, revoked, banned nor quarantined, the MCP tool is
    approved and not critical, no forced approval applies, Cedar itself said
    [allow] for the request as the admission webhook left it, and the
    decision row was written unless the call does not mutate state. *)
Theorem allow_passes_every_gate ctx body started config t o r :
  runs (run_authorize_pipeline ctx body started config) t o →
  decision_of o = Some r → rs_decision r = "allow" →
  (∃ agent request rid record, replayed ctx body t agent request rid record ∧
     Call (IdempotentReplay record) (Ok r) ∈ t) ∨
  ∃ agent request asked, gates_passed ctx body started t agent request asked.
Proof. apply allow_gates. Qed.

(** C5: tenant isolation.  Where the agent lookups answer with agents of the
    tenant they were asked for, every call of every run that is scoped to a
    tenant is scoped to the tenant of the connection. *)
Theorem pipeline_calls_stay_in_tenant ctx body started config t o :
  Forall agent_of_tenant t →
  runs (run_authorize_pipeline ctx body started config) t o →
  Forall (event_sat (scoped (ctx_tenant_id ctx))) t.
Proof.
  intros Hag. rewrite list.Forall_forall in Hag. apply pipeline_calls; [apply admit_scoped|].
  intros t1 a Ha%Admit.admit_ok Hsub. destruct Ha.
  assert (ag_tenant_id (ad_agent a) = ctx_tenant_id ctx) as Hten.
  { destruct adm_calls as (t' & -> & Hc). unfold Admit.credential_resolved in Hc.
    destruct (ctx_credential ctx); destruct Hc as (_ & _ & ->).
    - exact (Hag (Call (GetAgentByToken _ _) _) ltac:(apply Hsub; in_trace)).
    - exact (Hag (Call (GetAgentByMtlsCn _ _) _) ltac:(apply Hsub; in_trace)). }
  split; [rewrite <- Hten; apply preflight_scoped|]. split; [by intros ? ?|].
  split; [|split].
  - intros p Hp _. rewrite <- Hten, <- Hp. apply guard_scoped.
  - intros g Hg _. rewrite <- Hten, <- Hg. apply metadata_scoped.
  - intros m t' o' Hm _. rewrite <- Hten, <- Hm. apply evaluate_scoped.
Qed.

(** C3: evidence before effects.  In every run, a receipt, a quarantine, an
    approval, an escalation or a notification comes only after the decision
    row and its audit event were written successfully. *)
Theorem effects_only_after_audit_row ctx body started config t o :
  runs (run_authorize_pipeline ctx body started config) t o → acts_after_write t.
Proof. intros Hrun%pipeline_reached. by eapply pipeline_order. Qed.

(** No run writes two decision rows: whatever branch denies or decides,
    at most one [write_decision_and_audit] is made per request. *)
Theorem at_most_one_row_per_request ctx body started config t o :
  runs (run_authorize_pipeline ctx body started config) t o → rows t ≤ 1.
Proof. intros Hrun%pipeline_reached. by eapply pipeline_rows. Qed.

(** A replay answers for the same agent and request.  A recorded decision
    is replayed only for a request that is not a dry run and has a non-empty
    request id, only from the row found under the authenticated agent's
    tenant, id and that request id, and the run then writes no row and the
    answer is the replayed one. *)
Theorem replay_only_of_own_record ctx body started config t o record replayed :
  runs (run_authorize_pipeline ctx body started config) t o →
  Call (IdempotentReplay record) replayed ∈ t →
  rows t = 0 ∧
  o = match replayed with Ok r => outcome_decision r | Err e => aegis_err_to_outcome e end ∧
  ∃ agent request rid,
    json_parse_request body = Some request ∧ default false (rq_dry_run request) = false ∧
    rq_request_id request = Some rid ∧ rid ≠ "" ∧
    Call (GetDecisionByRequestId (ag_tenant_id agent) (ag_id agent) rid) (Ok (Some record)) ∈ t ∧
    match ctx_credential ctx with
    | BearerToken token => Call (GetAgentByToken (ctx_tenant_id ctx) token) (Ok (Some agent)) ∈ t
    | MtlsCn cn => Call (GetAgentByMtlsCn (ctx_tenant_id ctx) cn) (Ok (Some agent)) ∈ t
    end.
Proof.
  intros Hrun%pipeline_reached Hin.
  destruct Hrun as [t o Ha|t1 a t2 o Ha Hp|t1 a t2 rec rep Ha Hp|t1 a t2 p t3 o Ha Hp Hg
    |t1 a t2 p t3 g t4 o Ha Hp Hg Hm|t1 a t2 p t3 g t4 m t5 o Ha Hp Hg Hm He].
  all: pose proof (fresh_no_replay _ record replayed (all_calls_runs _ _ _ _ (admit_fresh ctx body) Ha)) as HAn.
  all: try (pose proof (fresh_no_replay _ record replayed (all_calls_runs _ _ _ _ (preflight_fresh a) Hp)) as HPn).
  all: try (pose proof (fresh_no_replay _ record replayed (all_calls_runs _ _ _ _ (guard_fresh p started) Hg)) as HGn).
  all: try (pose proof (fresh_no_replay _ record replayed (all_calls_runs _ _ _ _ (metadata_fresh g started) Hm)) as HMn).
  all: try (pose proof (fresh_no_replay _ record replayed (evaluate_fresh _ _ _ _ _ He)) as HEn).
  all: rewrite ?elem_of_app in Hin; destruct_or?; try done.
  apply list_elem_of_singleton, (f_equal replay_of) in Hin. simpl in Hin. simplify_eq.
  split.
  { rewrite !rows_app, (rows_none t1 (all_calls_runs _ _ _ _ (admit_rowless ctx body) Ha)),
      (rows_none t2 (all_calls_runs _ _ _ _ (preflight_rowless a) Hp)). done. }
  split; [done|].
  apply Preflight.preflight_err in Hp as (Hd & rid & Hrid & Hne & Hget).
  apply Admit.admit_ok in Ha. destruct Ha. destruct adm_calls as (t' & -> & Hc).
  exists (ad_agent a), (ad_request a), rid.
  split; [done|]. split; [congruence|]. split; [done|]. split; [done|]. split; [in_trace|].
  unfold Admit.credential_resolved in Hc.
  destruct (ctx_credential ctx); destruct Hc as (_ & _ & ->); in_trace.
Qed.

(** C4: protected decisions are evidenced.  A decision other than [deny] that
    the pipeline reached itself (not a replay, not a dry run) for a call that
    mutates state, or whose risk is high or critical, carries the identity of
    a receipt that was durably written for that very decision. *)
Theorem protected_decision_carries_receipt ctx body started config t o r request :
  runs (run_authorize_pipeline ctx body started config) t o →
  decision_of o = Some r → rs_decision r ≠ "deny" → rs_dry_run r = false →
  (∀ record, Call (IdempotentReplay record) (Ok r) ∉ t) →
  json_parse_request body = Some request →
  tc_mutates_state (rq_tool_call request) = true ∨
    rs_risk_level r = "high" ∨ rs_risk_level r = "critical" →
  ∃ rc agent asked hash, rs_receipt r = Some rc ∧
    Call (EmitReceiptDurable (ag_tenant_id agent) (ag_id agent) asked (rs_decision_id r)
            (rs_decision r) hash) (Ok rc) ∈ t.
Proof.
  intros Hrun%pipeline_reached Hr Hnd Hdry Hrep Hj Hprot.
  destruct Hrun as [t o Ha|t1 a t2 o Ha Hp|t1 a t2 record rep Ha Hp|t1 a t2 p t3 o Ha Hp Hg
    |t1 a t2 p t3 g t4 o Ha Hp Hg Hm|t1 a t2 p t3 g t4 m t5 o Ha Hp Hg Hm He].
  - apply Admit.admit_err in Ha as [_ Hn]. congruence.
  - apply Preflight.preflight_err in Hp as [_ Hn]. congruence.
  - destruct rep as [resp|e]; [|by destruct (no_decision_err e) as [_ Hn]; congruence].
    simpl in Hr. injection Hr as ->. destruct (Hrep record). in_trace.
  - destruct Hnd. apply (denies_deny_only _ _ (Guard.guard_err _ _ _ _ Hg) Hr).
  - destruct Hnd. apply (denies_deny_only _ _ (Metadata.metadata_err _ _ _ _ Hm) Hr).
  - apply Evaluate.evaluate_runs in He as [[_ Hn]|(d & r' & Hev & Hans & ->)]; [congruence|].
    simpl in Hr. injection Hr as ->.
    assert (Evaluate.dc_mutates d = tc_mutates_state (rq_tool_call request)) as Hmut.
    { destruct Hev as [Hmeta _ _]. apply Metadata.metadata_ok in Hm as [Hmg].
      apply Guard.guard_ok in Hg as []. apply Preflight.preflight_ok in Hp as [].
      apply Admit.admit_ok in Ha as []. unfold Evaluate.dc_mutates, Evaluate.dc_payload,
        Evaluate.dc_guarded. rewrite Hmeta, Hmg.
      destruct gdb_request as [->|(params & _ & ->)]; rewrite pfl_request; simpl; congruence. }
    rewrite <- Hmut in Hprot.
    destruct (answered_receipt _ _ _ _ Hans Hnd Hdry Hprot) as (rc & hash & Hrc & Hcall).
    exists rc, (Evaluate.dc_agent d), (Evaluate.dc_payload d), hash. split; [done|].
    unfold Evaluate.dc_tenant, Evaluate.dc_agent_id in Hcall. in_trace.
Qed.


(** C6: an audit outage.  When the write of the decision row fails, no
    receipt, quarantine, approval, escalation or notification is attempted,
    and the answer is a refusal, a [deny], or, for a call that mutates
    nothing and whose risk is low, the decision itself without approval,
    receipt or redacted fields; so a [quarantine] is answered without the
    agent being quarantined, and a [redact] without the fields to redact. *)
Theorem audit_outage_skips_effects ctx body started config t o w e :
  runs (run_authorize_pipeline ctx body started config) t o →
  Call (WriteDecisionAndAudit w) (Err e) ∈ t →
  Forall (event_sat inert) t ∧
  (no_decision o ∨ ∃ r, o = outcome_decision r ∧
    (rs_decision r = "deny" ∨
     rs_decision r = wr_decision w ∧ tc_mutates_state (rq_tool_call (wr_request w)) = false ∧
     rs_risk_level r = "low" ∧ rs_approval r = None ∧ rs_receipt r = None ∧
     rs_redacted_fields r = [])).
Proof.
  intros Hrun%pipeline_reached Hfail.
  pose proof (pipeline_rows _ _ _ _ _ _ Hrun) as Hrows.
  split; [by eapply failed_write_no_acts; [eapply pipeline_order|..]|].
  assert (∀ w' res, Call (WriteDecisionAndAudit w') res ∈ t → w' = w ∧ res = Err e) as Huniq.
  { intros w' res Hin. pose proof (rows_unique _ _ _ Hrows Hin Hfail eq_refl eq_refl) as Heq.
    apply (f_equal write_of) in Heq. by simplify_eq/=. }
  destruct Hrun as [t o Ha|t1 a t2 o Ha Hp|t1 a t2 record rep Ha Hp|t1 a t2 p t3 o Ha Hp Hg
    |t1 a t2 p t3 g t4 o Ha Hp Hg Hm|t1 a t2 p t3 g t4 m t5 o Ha Hp Hg Hm He].
  - left. by eapply Admit.admit_err.
  - left. by apply Preflight.preflight_err in Hp.
  - exfalso. rewrite !rows_app, (rows_none t1 (all_calls_runs _ _ _ _ (admit_rowless ctx body) Ha)),
      (rows_none t2 (all_calls_runs _ _ _ _ (preflight_rowless a) Hp)) in Hrows.
    assert (rows (t1 ++ t2 ++ [Call (IdempotentReplay record) rep]) = 0) as Hz
      by (rewrite !rows_app, (rows_none t1 (all_calls_runs _ _ _ _ (admit_rowless ctx body) Ha)),
            (rows_none t2 (all_calls_runs _ _ _ _ (preflight_rowless a) Hp)); done).
    by apply (rows_some _ _ Hfail eq_refl) in Hz.
  - destruct (Guard.guard_err _ _ _ _ Hg) as [?|(r & -> & ?)]; [by left|right; eauto].
  - destruct (Metadata.metadata_err _ _ _ _ Hm) as [?|(r & -> & ?)]; [by left|right; eauto].
  - apply Evaluate.evaluate_runs in He as [?|(d & r & Hev & Hans & ->)]; [by left|].
    right. exists r. split; [done|].
    destruct Hans as [r' Hr _ _|e' Hw Hl|c ap rc Hw _ _]; [by left|right|].
    + destruct (Huniq (Evaluate.decision_write d started) (Err e') ltac:(in_trace)) as [<- _].
      unfold Risk.is_high_risk_for_audit in Hl. apply orb_false_iff in Hl as [Hmut Hl].
      apply negb_false_iff in Hl. str_eq. done.
    + by destruct (Huniq (Evaluate.decision_write d started) (Ok c) ltac:(in_trace)).
Qed.
End Pipeline.
End Pipeline.
