(* ===== verification/Service.v ===== *)
(** * The wire adapters

    Models the error envelope of [src/src/src/error.rs] and the mapping of an
    outcome to REST and to gRPC in [src/src/src/authorize_service.rs], with the
    header edge ([authorize_context_from_headers], [build_service_headers]) and
    [get_runtime_tenant_from_headers] of [routes/mod.rs].

    A header map is a map from the lower-case name to the value, as
    [http::HeaderMap] compares names without case; header values, the JSON
    printer and the parser of the error envelope are parameters. *)

From S2P Require Import Prelude RustString Prog Canon Models External Validation Runtime Admit Preflight Guard Metadata Evaluate Effects Pipeline.
From stdpp Require Import pretty.

(** ** [error.rs] *)

Inductive ErrorReason :=
| RBadRequest | RUnauthorized | RForbidden | RNotFound | RConflict | RAlreadyExists | RInvalid
| RTimeout | RTooManyRequests | RNotImplemented | RUnsupportedMediaType | RInternalError
| RServiceUnavailable | RUnknown.

#[export] Instance ErrorReason_eq_dec : EqDecision ErrorReason.
Proof. solve_decision. Defined.

Definition status_code (r : ErrorReason) : Z :=
  match r with
  | RBadRequest => 400
  | RUnauthorized => 401
  | RForbidden => 403
  | RNotFound => 404
  | RConflict => 409
  | RAlreadyExists => 409
  | RInvalid => 422
  | RTimeout => 408
  | RTooManyRequests => 429
  | RNotImplemented => 501
  | RUnsupportedMediaType => 415
  | RInternalError => 500
  | RServiceUnavailable => 503
  | RUnknown => 500
  end.

(** [kind], [api_version] and [status] are the constants ["Status"], ["v1"]
    and ["Failure"]. *)
Record StatusError := {
  se_message : string;
  se_reason : ErrorReason;
  se_details : option Canon.Value;
  se_code : Z }.

Module StatusError.
Definition new (reason : ErrorReason) (message : string) : StatusError :=
  {| se_message := message; se_reason := reason; se_details := None; se_code := status_code reason |}.

Definition with_details (e : StatusError) (details : Canon.Value) : StatusError :=
  {| se_message := se_message e; se_reason := se_reason e; se_details := Some details;
     se_code := se_code e |}.

Definition bad_request := new RBadRequest.
Definition unauthorized := new RUnauthorized.
Definition forbidden := new RForbidden.
Definition not_found := new RNotFound.
Definition conflict := new RConflict.
Definition too_many_requests := new RTooManyRequests.
Definition not_implemented := new RNotImplemented.
Definition internal := new RInternalError.
Definition service_unavailable := new RServiceUnavailable.

Definition of_sqlx (e : SqlxError) : StatusError :=
  match e with
  | PoolTimedOut _ => service_unavailable "Database connection pool exhausted"
  | _ => internal "Database error"
  end.

Definition of_aegis (e : AegisError) : StatusError :=
  match e with
  | Database e => of_sqlx e
  | NotFound m => not_found m
  | Unauthorized m => unauthorized m
  | BadRequest m => bad_request m
  | Conflict m => conflict m
  | Internal m => internal m
  | Serialization d => bad_request ("Serialization error: " +:+ d)
  end.
End StatusError.

(** ** Outcomes on the wire *)

Inductive AuthorizedBody :=
| AbDecision (resp : AuthorizeResponse)
| AbStatus (err : StatusError)
| AbJson (v : Canon.Value).

Record AuthorizedOutcome := { ao_status : Z; ao_body : AuthorizedBody }.

Definition status_error (err : StatusError) : AuthorizedOutcome :=
  {| ao_status := status_code (se_reason err); ao_body := AbStatus err |}.

Definition ao_is_success (o : AuthorizedOutcome) : bool :=
  (ao_status o =? 200)%Z || (ao_status o =? 201)%Z.

(** An HTTP response: status, [Retry-After] and body. *)
Record Response := { rp_status : Z; rp_retry_after : option string; rp_body : AuthorizedBody }.

Definition into_response (e : StatusError) : Response :=
  {| rp_status := status_code (se_reason e);
     rp_retry_after := if decide (se_reason e = RServiceUnavailable) then Some "5" else None;
     rp_body := AbStatus e |}.

Definition outcome_to_response (o : AuthorizedOutcome) : Response :=
  match ao_body o with
  | AbDecision resp => {| rp_status := ao_status o; rp_retry_after := None; rp_body := AbDecision resp |}
  | AbStatus err => into_response err
  | AbJson v => {| rp_status := ao_status o; rp_retry_after := None; rp_body := AbJson v |}
  end.

(** [tonic::Code], the codes the adapter gives *)
Inductive Code :=
| InvalidArgument | Unauthenticated | PermissionDenied | CNotFound | Aborted | CAlreadyExists
| DeadlineExceeded | ResourceExhausted | Unimplemented | Unavailable | CInternal.

Record TonicStatus := { ts_code : Code; ts_message : string }.

Definition error_reason_to_tonic_code (r : ErrorReason) : Code :=
  match r with
  | RBadRequest | RInvalid | RUnsupportedMediaType => InvalidArgument
  | RUnauthorized => Unauthenticated
  | RForbidden => PermissionDenied
  | RNotFound => CNotFound
  | RConflict => Aborted
  | RAlreadyExists => CAlreadyExists
  | RTimeout => DeadlineExceeded
  | RTooManyRequests => ResourceExhausted
  | RNotImplemented => Unimplemented
  | RServiceUnavailable => Unavailable
  | RInternalError | RUnknown => CInternal
  end.

Definition status_error_to_tonic (e : StatusError) : TonicStatus :=
  {| ts_code := error_reason_to_tonic_code (se_reason e); ts_message := se_message e |}.

Definition aegis_error_to_tonic (e : AegisError) : TonicStatus :=
  status_error_to_tonic (StatusError.of_aegis e).

(** The [match] on the status in [http_error_to_tonic]. *)
Definition tonic_code_of_http (status : Z) : Code :=
  if (status =? 400)%Z || (status =? 422)%Z || (status =? 415)%Z then InvalidArgument
  else if (status =? 401)%Z then Unauthenticated
  else if (status =? 403)%Z then PermissionDenied
  else if (status =? 404)%Z then CNotFound
  else if (status =? 408)%Z then DeadlineExceeded
  else if (status =? 409)%Z then Aborted
  else if (status =? 429)%Z then ResourceExhausted
  else if (status =? 501)%Z then Unimplemented
  else if (status =? 503)%Z then Unavailable
  else if (400 <=? status)%Z && (status <? 500)%Z then InvalidArgument
  else CInternal.

(** [serde_json] on the envelope, and the rest of the host the mapping uses. *)
Class WireExternal := {
  json_bytes : Canon.Value → string;
  parse_status_error : string → option StatusError;
  display_status : Z → string;
  to_value_response : AuthorizeResponse → Result Canon.Value string }.

Section Wire.
Context {W : WireExternal}.

Definition http_error_to_tonic (status : Z) (body : string) : TonicStatus :=
  match parse_status_error body with
  | Some err => status_error_to_tonic err
  | None => {| ts_code := tonic_code_of_http status; ts_message := Utf8.from_utf8_lossy body |}
  end.

Definition outcome_to_tonic (o : AuthorizedOutcome) : Result AuthorizeResponse TonicStatus :=
  match ao_body o with
  | AbDecision resp =>
      if ao_is_success o then Ok resp
      else Err {| ts_code := CInternal;
                  ts_message := "authorize returned decision body with HTTP " +:+
                                display_status (ao_status o) |}
  | AbStatus err => Err (status_error_to_tonic err)
  | AbJson v => Err (http_error_to_tonic (ao_status o) (json_bytes v))
  end.

Definition outcome_to_tonic_json (o : AuthorizedOutcome) : Result Canon.Value TonicStatus :=
  match ao_body o with
  | AbJson v =>
      if ao_is_success o then Ok v else Err (http_error_to_tonic (ao_status o) (json_bytes v))
  | AbDecision resp =>
      if ao_is_success o then
        map_err (λ e, {| ts_code := CInternal; ts_message := "serialize decision: " +:+ e |})
          (to_value_response resp)
      else Err {| ts_code := CInternal;
                  ts_message := "service returned decision body with HTTP " +:+
                                display_status (ao_status o) |}
  | AbStatus err => Err (status_error_to_tonic err)
  end.

(** ** Outcomes of the pipeline *)

Definition reason_of_class (c : DecisionFailureClass) : ErrorReason :=
  match c with
  | ClsBadRequest => RBadRequest
  | ClsUnauthorized => RUnauthorized
  | ClsForbidden => RForbidden
  | ClsNotFound => RNotFound
  | ClsConflict => RConflict
  | ClsAlreadyExists => RAlreadyExists
  | ClsInvalid => RInvalid
  | ClsTimeout => RTimeout
  | ClsTooManyRequests => RTooManyRequests
  | ClsNotImplemented => RNotImplemented
  | ClsUnsupportedMediaType => RUnsupportedMediaType
  | ClsInternal => RInternalError
  | ClsServiceUnavailable => RServiceUnavailable
  | ClsUnknown => RUnknown
  end.

Definition decision_failure_to_status_error (f : DecisionFailure) : StatusError :=
  let err := StatusError.new (reason_of_class (fl_class f)) (fl_message f) in
  match fl_details f with
  | Some details => StatusError.with_details err details
  | None => err
  end.

Definition set_code (e : StatusError) (code : Z) : StatusError :=
  {| se_message := se_message e; se_reason := se_reason e; se_details := se_details e; se_code := code |}.

Definition partial_deny_json (reason : string) : Canon.Value :=
  Canon.Object [("decision", Canon.Str "deny"); ("reason", Canon.Str reason)].

(** [StatusCode::from_u16(n).unwrap_or(StatusCode::OK)] *)
Definition status_from_u16 (n : Z) : Z := if (100 <=? n)%Z && (n <? 1000)%Z then n else 200.

Definition decision_outcome_to_authorized (o : DecisionOutcome) : AuthorizedOutcome :=
  match oc_body o with
  | BodyDecision resp =>
      {| ao_status := status_from_u16 (oc_http_status o); ao_body := AbDecision resp |}
  | BodyFailure f =>
      let err := decision_failure_to_status_error f in
      status_error (if (se_code err =? oc_http_status o)%Z then err
                    else set_code err (oc_http_status o))
  | BodyPartialDeny reason => {| ao_status := 403; ao_body := AbJson (partial_deny_json reason) |}
  end.

Definition status_error_to_aegis (e : StatusError) : AegisError :=
  match se_reason e with
  | RUnauthorized => Unauthorized (se_message e)
  | RNotFound => NotFound (se_message e)
  | RBadRequest | RInvalid | RUnsupportedMediaType => BadRequest (se_message e)
  | RConflict | RAlreadyExists => Conflict (se_message e)
  | _ => Internal (se_message e)
  end.

Definition get_field (key : string) (v : Canon.Value) : option Canon.Value :=
  match v with
  | Canon.Object m => snd <$> find (λ e, e.1 == key) m
  | _ => None
  end.
Definition as_str (v : Canon.Value) : option string :=
  match v with Canon.Str s => Some s | _ => None end.

Definition outcome_to_authorize_result (o : AuthorizedOutcome) : Result AuthorizeResponse AegisError :=
  match ao_body o with
  | AbDecision resp =>
      if ao_is_success o then Ok resp
      else Err (Internal ("authorize returned decision body with HTTP " +:+ display_status (ao_status o)))
  | AbStatus err => Err (status_error_to_aegis err)
  | AbJson v =>
      let found := match get_field "reason" v with Some x => Some x | None => get_field "message" v end in
      let msg := default "authorization failed" (found ≫= as_str) in
      let s := ao_status o in
      Err (if (s =? 400)%Z || (s =? 422)%Z || (s =? 415)%Z then BadRequest msg
           else if (s =? 401)%Z then Unauthorized msg
           else if (s =? 404)%Z then NotFound msg
           else if (s =? 409)%Z then Conflict msg
           else Internal msg)
  end.
End Wire.

(** ** What a run of the pipeline can end in *)

Definition formed (o : DecisionOutcome) : Prop :=
  (∃ r, o = outcome_decision r) ∨ (∃ f, o = outcome_failure f) ∨ (∃ r, o = partial_deny r).

Lemma formed_decision r : formed (outcome_decision r).
Proof. left. by eexists. Qed.
Lemma formed_failure f : formed (outcome_failure f).
Proof. right; left. by eexists. Qed.
Lemma formed_partial r : formed (partial_deny r).
Proof. right; right. by eexists. Qed.
Lemma formed_err e : formed (aegis_err_to_outcome e).
Proof. unfold aegis_err_to_outcome. destruct (is_pool_exhausted e); apply formed_failure. Qed.

#[local] Hint Resolve formed_decision formed_failure formed_partial formed_err : outcome.

Definition no_state (T : Type) (e : DecisionE T) (r : T) (u : unit) : unit := tt.

Definition formed_result {A} (r : Result A DecisionOutcome) : Prop :=
  match r with Ok _ => True | Err o => formed o end.

Ltac forms := wp_walk; subst; simpl; eauto with outcome.

Section Forms.
Context {X : External}.

Lemma forms_of_wp {A} (Q : A → Prop) p t a : wp no_state (λ _, Q) tt p → runs p t a → Q a.
Proof. intros Hw Hr. exact (wp_runs _ _ _ _ _ _ Hw Hr). Qed.

Lemma check_signature_formed agent ctx body o :
  Admit.check_signature agent ctx body = Err o → formed o.
Proof.
  unfold Admit.check_signature. intros H. repeat case_match; simplify_eq; auto with outcome.
Qed.
#[local] Hint Resolve check_signature_formed : outcome.

Lemma admit_formed ctx body t r :
  runs (Admit.admit_authorize ctx body) t r → formed_result r.
Proof.
  apply (forms_of_wp formed_result). unfold Admit.admit_authorize, Admit.resolve_credential. forms.
Qed.

Lemma preflight_formed a t o :
  runs (Preflight.preflight_authorize a) t (Err (TermOutcome o)) → formed o.
Proof.
  intros H.
  refine (forms_of_wp (λ r, match r with Err (TermOutcome o) => formed o | _ => True end) _ _ _ _ H).
  unfold Preflight.preflight_authorize, Preflight.check_replay, Preflight.check_idempotency. forms.
Qed.

Lemma guard_formed p started t r : runs (Guard.guard_authorize p started) t r → formed_result r.
Proof.
  apply (forms_of_wp formed_result).
  unfold Guard.guard_authorize, Guard.admission, Guard.persist_early_deny. forms.
Qed.

Lemma metadata_formed g started t r :
  runs (Metadata.metadata_authorize g started) t r → formed_result r.
Proof.
  apply (forms_of_wp formed_result).
  unfold Metadata.metadata_authorize, Metadata.resolve_mcp, Metadata.persist_mcp_deny. forms.
Qed.

Lemma evaluate_formed m started config t o :
  runs (Evaluate.evaluate_authorize m started config) t o → formed o.
Proof.
  apply (forms_of_wp formed).
  unfold Evaluate.evaluate_authorize, Evaluate.cedar_decision, Evaluate.override_decision,
    Evaluate.finish_authorize, Evaluate.check_audit_capacity, Evaluate.write_audit,
    Evaluate.emit_receipt, Evaluate.quarantine_effects, Evaluate.approval_effects,
    Evaluate.escalation_effects. forms.
Qed.

Lemma pipeline_formed ctx body started config t o :
  runs (Pipeline.run_authorize_pipeline ctx body started config) t o → formed o.
Proof.
  intros H%Pipeline.pipeline_reached.
  destruct H as [t o Ha|t1 a t2 o _ Hp|t1 a t2 record [resp|e] _ _|t1 a t2 p t3 o _ _ Hg
    |t1 a t2 p t3 g t4 o _ _ _ Hm|t1 a t2 p t3 g t4 m t5 o _ _ _ _ He]; auto with outcome.
  - exact (admit_formed _ _ _ _ Ha).
  - exact (preflight_formed _ _ _ Hp).
  - exact (guard_formed _ _ _ _ Hg).
  - exact (metadata_formed _ _ _ _ Hm).
  - exact (evaluate_formed _ _ _ _ _ He).
Qed.
End Forms.

(** ** The two protocols agree *)

Section Agree.
Context {X : External} {W : WireExternal}.
(** The JSON of a partial deny has neither [kind] nor [message]: it does not
    parse as the envelope. *)
Context (Hparse : ∀ reason, parse_status_error (json_bytes (partial_deny_json reason)) = None).

Lemma failure_code f : se_code (decision_failure_to_status_error f) = http_status_of (fl_class f).
Proof. unfold decision_failure_to_status_error. destruct f as [[] m [d|]]; done. Qed.

Lemma failure_outcome f :
  decision_outcome_to_authorized (outcome_failure f) =
  status_error (decision_failure_to_status_error f).
Proof. unfold decision_outcome_to_authorized. simpl. by rewrite failure_code, Z.eqb_refl. Qed.

(** The gRPC code says no more and no less than the HTTP status, except that
    [AlreadyExists] is told from the other conflicts. *)
Definition same_class (status : Z) (code : Code) : Prop :=
  code = tonic_code_of_http status ∨ (status = 409%Z ∧ code = CAlreadyExists).

Lemma reason_same_class r : same_class (status_code r) (error_reason_to_tonic_code r).
Proof. unfold same_class. destruct r; simpl; auto. Qed.

Lemma failure_class f :
  status_code (se_reason (decision_failure_to_status_error f)) = http_status_of (fl_class f).
Proof. unfold decision_failure_to_status_error. destruct f as [[] m [d|]]; done. Qed.

Lemma failure_status c : (400 ≤ http_status_of c)%Z.
Proof. by destruct c. Qed.

(** REST and gRPC answer a request alike.  However a run of the pipeline
    ends, the REST status is the status of the outcome.  The gRPC adapter and
    the library contract return a response exactly when REST answers 200 with
    that same response as its body; every other end is an error on all three,
    with a status of 400 or more and the gRPC code of that status. *)
Theorem protocols_agree ctx body started config t o :
  runs (Pipeline.run_authorize_pipeline ctx body started config) t o →
  let a := decision_outcome_to_authorized o in
  let rest := outcome_to_response a in
  rp_status rest = oc_http_status o ∧
  match outcome_to_tonic a with
  | Ok resp => o = outcome_decision resp ∧ rp_status rest = 200%Z ∧ rp_body rest = AbDecision resp ∧
               outcome_to_authorize_result a = Ok resp
  | Err st => (400 ≤ rp_status rest)%Z ∧ same_class (rp_status rest) (ts_code st) ∧
              (∀ resp, rp_body rest ≠ AbDecision resp) ∧
              is_ok (outcome_to_authorize_result a) = false
  end.
Proof using Hparse.
  intros [(r & ->)|[(f & ->)|(r & ->)]]%pipeline_formed.
  - done.
  - rewrite failure_outcome. simpl. rewrite failure_class. split; [done|].
    split; [apply failure_status|]. split; [|done]. rewrite <- failure_class. apply reason_same_class.
  - simpl. unfold http_error_to_tonic. rewrite Hparse. simpl. split; [done|]. split; [lia|].
    split; [by left|done].
Qed.
End Agree.

(** ** Request headers *)

(** [http::HeaderValue] *)
Class HeaderExternal := {
  HeaderValue : Type;
  hv_from_str : string → option HeaderValue;
  hv_to_str : HeaderValue → option string }.

Section Headers.
Context {HE : HeaderExternal}.

Abbreviation HeaderMap := (gmap string HeaderValue).

Definition MTLS_CN_HEADER : string := "x-aegis-mtls-cn".

(** [headers.get(name).and_then(|h| h.to_str().ok())] *)
Definition header_str (headers : HeaderMap) (name : string) : option string :=
  headers !! name ≫= hv_to_str.

Definition get_runtime_tenant_from_headers (headers : HeaderMap) : option string :=
  h ← match headers !! "x-aegis-tenant-id" with
      | Some h => Some h
      | None => headers !! "x-tenant-id"
      end;
  tenant_id ← hv_to_str h;
  if is_empty (trim tenant_id) then None else Some tenant_id.

Definition authorize_context_from_headers (headers : HeaderMap) (client_addr : SocketAddr) :
    Result AuthorizeContext StatusError :=
  match get_runtime_tenant_from_headers headers with
  | None => Err (StatusError.bad_request "Missing X-Aegis-Tenant-ID or X-Tenant-ID header")
  | Some tenant_id =>
      let credential :=
        match filter_nonempty (header_str headers MTLS_CN_HEADER) with
        | Some cn => MtlsCn cn
        | None => BearerToken (default "" (h ← header_str headers "authorization";
                                           RustString.strip_prefix "Bearer " h))
        end in
      Ok (with_request_signature (AuthorizeContext_new tenant_id client_addr Rest credential)
            (header_str headers "x-aegis-request-signature"))
  end.

Definition build_service_headers (ctx : AuthorizeContext) : Result HeaderMap StatusError :=
  match hv_from_str (ctx_tenant_id ctx) with
  | None => Err (StatusError.bad_request "tenant_id contains invalid header characters")
  | Some tenant =>
      let headers := <["x-aegis-tenant-id" := tenant]> ∅ in
      let with_credential :=
        match ctx_credential ctx with
        | BearerToken token =>
            match hv_from_str ("Bearer " +:+ token) with
            | None => Err (StatusError.unauthorized "agent token contains invalid header characters")
            | Some hv => Ok (<["authorization" := hv]> headers)
            end
        | MtlsCn cn =>
            match hv_from_str cn with
            | None => Err (StatusError.unauthorized "mTLS CN contains invalid header characters")
            | Some hv => Ok (<[MTLS_CN_HEADER := hv]> headers)
            end
        end in
      match with_credential with
      | Err e => Err e
      | Ok headers =>
          match ctx_request_signature ctx with
          | None => Ok headers
          | Some sig =>
              match hv_from_str sig with
              | None => Err (StatusError.unauthorized
                               "request signature contains invalid header characters")
              | Some hv => Ok (<["x-aegis-request-signature" := hv]> headers)
              end
          end
      end
  end.

Section Roundtrip.
(** A value of visible ASCII is read back as it was written. *)
Context (visible : string → Prop)
        (Hvisible : ∀ s v, visible s → hv_from_str s = Some v → hv_to_str v = Some s).

(** What the adapters put into a context. *)
Definition plain_context (ctx : AuthorizeContext) : Prop :=
  visible (ctx_tenant_id ctx) ∧ is_empty (trim (ctx_tenant_id ctx)) = false ∧
  match ctx_credential ctx with
  | BearerToken token => visible ("Bearer " +:+ token)
  | MtlsCn cn => visible cn ∧ cn ≠ ""
  end ∧
  match ctx_request_signature ctx with Some sig => visible sig ∧ sig ≠ "" | None => True end.

Lemma is_empty_false s : s ≠ "" → is_empty s = false.
Proof. by destruct s. Qed.

Lemma header_here m n v : header_str (<[n := v]> m) n = hv_to_str v.
Proof. unfold header_str. by rewrite lookup_insert_eq. Qed.

Lemma header_else m n n' v : n ≠ n' → header_str (<[n := v]> m) n' = header_str m n'.
Proof. intros. unfold header_str. by rewrite lookup_insert_ne. Qed.

Lemma header_none n : header_str ∅ n = None.
Proof. unfold header_str. by rewrite lookup_empty. Qed.

Lemma tenant_header headers v t :
  headers !! "x-aegis-tenant-id" = Some v → hv_to_str v = Some t → is_empty (trim t) = false →
  get_runtime_tenant_from_headers headers = Some t.
Proof. intros Hh Hv Ht. unfold get_runtime_tenant_from_headers. rewrite Hh. simpl. by rewrite Hv; simpl; rewrite Ht. Qed.

Ltac headers_read :=
  repeat first [rewrite header_here | rewrite header_else by done | rewrite header_none].

(** The headers of a request carry its context.  Reading back the headers
    that were built for a context of visible characters gives that context:
    same tenant, same credential, same signature, over REST from the caller's
    address. *)
Theorem headers_carry_context ctx addr headers :
  plain_context ctx → build_service_headers ctx = Ok headers →
  authorize_context_from_headers headers addr =
    Ok {| ctx_tenant_id := ctx_tenant_id ctx; ctx_client_addr := addr; ctx_transport := Rest;
          ctx_credential := ctx_credential ctx; ctx_request_signature := ctx_request_signature ctx |}.
Proof using Hvisible.
  destruct ctx as [tenant ca tr cred sig]. unfold plain_context, build_service_headers. simpl.
  intros (Hvt & Hnt & Hcred & Hsig).
  destruct (hv_from_str tenant) as [tv|] eqn:Ht; [|done].
  apply (Hvisible _ _ Hvt) in Ht. intros Hb. unfold authorize_context_from_headers.
  destruct cred as [token|cn]; [|destruct Hcred as [Hcred Hne]];
    [destruct (hv_from_str ("Bearer " +:+ token)) as [cv|] eqn:Hc
    |destruct (hv_from_str cn) as [cv|] eqn:Hc]; try done; apply (Hvisible _ _ Hcred) in Hc;
    (destruct sig as [s|];
     [destruct Hsig as [Hvs Hns]; destruct (hv_from_str s) as [sv|] eqn:Hs; [|done];
      apply (Hvisible _ _ Hvs) in Hs|]);
    injection Hb as <-; (erewrite tenant_header; [|by simplify_map_eq|done|done]);
    headers_read; rewrite ?Hc, ?Hs; cbn [mbind option_bind];
    rewrite ?RustString.strip_prefix_app; unfold with_request_signature, filter_nonempty; simpl;
    rewrite ?is_empty_false by done; done.
Qed.
End Roundtrip.
End Headers.

(** ** A concrete host *)

(** The envelope parses from nothing else than what was printed from one. *)
Definition sample_wire : WireExternal := {|
  json_bytes v := match get_field "reason" v with Some (Canon.Str r) => "deny:" +:+ r | _ => "json" end;
  parse_status_error _ := None;
  display_status n := pretty n;
  to_value_response _ := Ok Canon.Null |}.

Definition sample_headers : HeaderExternal :=
  {| HeaderValue := string; hv_from_str := Some; hv_to_str := Some |}.

Definition sample_addr : SocketAddr := "10.0.0.1:443".

Definition sample_mtls_ctx : AuthorizeContext :=
  {| ctx_tenant_id := "acme"; ctx_client_addr := sample_addr; ctx_transport := Rest;
     ctx_credential := MtlsCn "agent.cn"; ctx_request_signature := Some "sha256=ab" |}.

Lemma headers_carry_context_witness :
  ∃ headers, build_service_headers (HE := sample_headers) sample_mtls_ctx = Ok headers ∧
    authorize_context_from_headers (HE := sample_headers) headers sample_addr = Ok sample_mtls_ctx.
Proof.
  eexists. split; [reflexivity|].
  apply (headers_carry_context (HE := sample_headers) (λ _, True) (λ s v _ H, eq_sym H)
           sample_mtls_ctx sample_addr); [|reflexivity].
  repeat split; discriminate.
Defined.
