(* ===== verification/Pages.v ===== *)
(** * Query strings, cursors and pages

    Models the query-string parsers, the cursor codec of
    [src/src/src/routes/mod.rs] ([parse_pagination], [parse_filter],
    [encode_cursor], [decode_cursor], [parse_cursor]), [paginate_rows] of
    [src/lib/storage/src/db/mod.rs], and the keyset-paginated listings of
    receipts and pending approvals.  A table is the list of its rows with their
    [rowid], in the order of the [rowid]. *)

From S2P Require Import Prelude RustString Models Records Risk Bans Approvals Service.
From stdpp Require Import pretty sorting.

Local Open Scope Z_scope.

Module Pages.

(** ** Text *)

Definition in_i64b (z : Z) : bool := (- 2 ^ 63 <=? z) && (z <? 2 ^ 63).

(** [str::parse::<i64>]: an optional sign, then only digits, one at least, the
    value in range *)
Definition parse_i64 (s : string) : option Z :=
  let ranged (o : option Z) := z ← o; if in_i64b z then Some z else None in
  match s with
  | EmptyString => None
  | String "-" EmptyString | String "+" EmptyString => None
  | String "-" s' => ranged (Z.opp <$> Risk.parse_digits 0 s')
  | String "+" s' => ranged (Risk.parse_digits 0 s')
  | _ => ranged (Risk.parse_digits 0 s)
  end.

(** ** The query string *)

Definition SOC_DEFAULT_LIMIT : Z := 50.
Definition SOC_MAX_LIMIT : Z := 200.

(** One [key=value] pair of the query. *)
Definition take_pair (acc : Z * Z) (kv : string) : Z * Z :=
  let '(limit, offset) := acc in
  match split_once "=" kv with
  | Some (k, v) =>
      if k == "limit" then (default limit (parse_i64 v), offset)
      else if k == "offset" then (limit, default offset (Z.max 0 <$> parse_i64 v))
      else acc
  | None => acc
  end.

Definition parse_pagination (query : option string) : Z * Z :=
  let '(limit, offset) :=
    match query with
    | Some q => foldl take_pair (SOC_DEFAULT_LIMIT, 0) (split_on "&" q)
    | None => (SOC_DEFAULT_LIMIT, 0)
    end in
  (clamp 1 SOC_MAX_LIMIT limit, offset).

Fixpoint first_value (key : string) (pairs : list string) : option string :=
  match pairs with
  | [] => None
  | kv :: rest =>
      match split_once "=" kv with
      | Some (k, v) => if (k == key) && negb (is_empty v) then Some v else first_value key rest
      | None => first_value key rest
      end
  end.

Definition parse_filter (query : option string) (key : string) : option string :=
  q ← query; first_value key (split_on "&" q).

(** ** Cursors *)

Section Cursor.
(** [hex::encode], [hex::decode], [String::from_utf8] *)
Context (hex_encode : string → string) (hex_decode from_utf8 : string → option string).

Definition encode_cursor (rowid : Z) : string := hex_encode (pretty rowid).

Definition decode_cursor (cursor : string) : option Z :=
  bytes ← hex_decode cursor;
  s ← from_utf8 bytes;
  n ← parse_i64 s;
  if 0 <=? n then Some n else None.

Definition parse_cursor (query : option string) : Result (option Z) Response :=
  match parse_filter query "cursor" with
  | None => Ok None
  | Some raw =>
      match decode_cursor raw with
      | Some n => Ok (Some n)
      | None => Err (into_response (StatusError.bad_request "Invalid cursor"))
      end
  end.

(** Hex digits, both ways; UTF-8 keeps ASCII. *)
Record codec_ok : Prop := {
  hex_back : ∀ s, hex_decode (hex_encode s) = Some s;
  hex_digits : ∀ s, has_byte "&" (hex_encode s) = false;
  hex_nonempty : ∀ s, s ≠ "" → hex_encode s ≠ "";
  utf8_digits : ∀ n : Z, from_utf8 (pretty n) = Some (pretty n) }.

Lemma digit_cases x : (x < 10)%N → x ∈ [0;1;2;3;4;5;6;7;8;9]%N.
Proof.
  intros Hx. apply list_elem_of_In. destruct x as [|p]; [by left|].
  do 4 (try destruct p as [p|p|]); simpl; try lia; tauto.
Qed.

Ltac each_digit H :=
  apply digit_cases in H; rewrite !elem_of_cons, elem_of_nil in H;
  repeat destruct H as [->|H]; [..|done].

Lemma pretty_char_value x :
  (x < 10)%N → Z.of_nat (nat_of_ascii (pretty_N_char x)) - 48 = Z.of_N x.
Proof. intros Hx. each_digit Hx; done. Qed.

Lemma pretty_starts x s :
  (0 < x)%N → ∃ d s', (d < 10)%N ∧ pretty_N_go x s = String (pretty_N_char d) s'.
Proof.
  revert s. induction (N.lt_wf_0 x) as [x _ IH]; intros s Hx. rewrite pretty_N_go_step by done.
  destruct (decide (x / 10 = 0)%N) as [->|Hd].
  - rewrite pretty_N_go_0. eexists _, _. split; [|done]. by apply N.mod_lt.
  - apply IH; [by apply N.div_lt|by apply N.neq_0_lt_0].
Qed.

Lemma parse_digits_pretty x s : Risk.parse_digits 0 (pretty_N_go x s) = Risk.parse_digits (Z.of_N x) s.
Proof.
  revert s. induction (N.lt_wf_0 x) as [x _ IH]; intros s.
  destruct (decide (x = 0)%N) as [->|Hx]; [done|].
  rewrite pretty_N_go_step by lia. rewrite IH by (apply N.div_lt; lia). simpl.
  rewrite pretty_char_value by (by apply N.mod_lt).
  pose proof (N.mod_lt x 10 ltac:(done)) as Hm. pose proof (N.div_mod x 10 ltac:(done)) as Hd.
  set (d := (x `mod` 10)%N) in *. set (q := (x `div` 10)%N) in *.
  destruct (Z.leb_spec 0 (Z.of_N d)); [|lia]. destruct (Z.leb_spec (Z.of_N d) 9); [|lia].
  simpl. f_equal. lia.
Qed.

Lemma parse_i64_pretty n : 0 <= n < 2 ^ 63 → parse_i64 (pretty n) = Some n.
Proof.
  intros [Hn Hmax]. destruct n as [|p|p]; [done| |lia].
  change (pretty (Z.pos p)) with (pretty_N_go (N.pos p) "").
  pose proof (parse_digits_pretty (N.pos p) "") as Hv.
  destruct (pretty_starts (N.pos p) "") as (d & s & Hd & Hs); [done|]. rewrite Hs in Hv |- *.
  assert (parse_i64 (String (pretty_N_char d) s) =
          z ← Risk.parse_digits 0 (String (pretty_N_char d) s);
          if in_i64b z then Some z else None) as -> by (each_digit Hd; done).
  rewrite Hv. simpl. unfold in_i64b.
  by rewrite (proj2 (Z.leb_le _ _)), (proj2 (Z.ltb_lt _ _)) by lia.
Qed.

Lemma pretty_nonempty n : 0 <= n → pretty n ≠ "".
Proof.
  intros Hn. destruct n as [|p|p]; [done| |lia].
  change (pretty (Z.pos p)) with (pretty_N_go (N.pos p) "").
  by destruct (pretty_starts (N.pos p) "") as (d & s & _ & ->).
Qed.

(** The cursor a client sends back is the row the server ended at. *)
Lemma cursor_roundtrip n :
  codec_ok → 0 <= n < 2 ^ 63 →
  parse_cursor (Some ("cursor=" +:+ encode_cursor n)) = Ok (Some n).
Proof.
  intros Hok Hn. unfold parse_cursor, parse_filter, encode_cursor. cbn [mbind option_bind].
  assert (is_empty (hex_encode (pretty n)) = false) as Hne.
  { apply is_empty_false, (hex_nonempty Hok), pretty_nonempty. lia. }
  rewrite split_on_no_sep by (simpl; apply (hex_digits Hok)). simpl.
  change ("" +:+ hex_encode (pretty n)) with (hex_encode (pretty n)). rewrite Hne. simpl.
  unfold decode_cursor. rewrite (hex_back Hok). simpl.
  rewrite (utf8_digits Hok). simpl. rewrite parse_i64_pretty by done. simpl.
  by rewrite (proj2 (Z.leb_le 0 n)) by lia.
Qed.
End Cursor.

(** ** Pages *)

Section Pages.
Context {A : Type} (hex_encode : string → string) (hex_decode from_utf8 : string → option string).
Abbreviation table := (list (Z * A)).

Definition paginate_rows (rows : table) (limit : Z) : list A * option Z :=
  let has_more := limit <? Z.of_nat (length rows) in
  let rows := if has_more then take (Z.to_nat limit) rows else rows in
  let next_cursor := if has_more then fst <$> list.last rows else None in
  (map snd rows, next_cursor).

(** [WHERE <sel> AND (? IS NULL OR rowid < ?)] *)
Definition below (cursor : option Z) (rowid : Z) : bool :=
  match cursor with None => true | Some c => rowid <? c end.
Definition chosen (sel : A → bool) (cursor : option Z) (r : Z * A) : bool :=
  sel r.2 && below cursor r.1.

(** The keyset query: the chosen rows, latest first, [LIMIT limit + 1], and an
    offset only without a cursor. *)
Definition cursor_page (sel : A → bool) (rows : table) (limit offset : Z) (cursor : option Z) :
    list A * option Z :=
  let limit := clamp 1 SOC_MAX_LIMIT limit in
  let offset := match cursor with Some _ => 0 | None => offset end in
  paginate_rows
    (take (Z.to_nat (limit + 1))
       (drop (Z.to_nat offset) (reverse (filter (λ r, chosen sel cursor r = true) rows))))
    limit.

(** ** A walk over the pages *)

(** Follows the cursors from the first page, each sent back as the query of the
    next request; [extra k] are the rows that were added before the [k]-th
    request.  [None]: out of fuel, or a cursor that is refused. *)
Fixpoint walk (fuel : nat) (sel : A → bool) (rows : table) (extra : nat → table) (limit : Z)
    (k : nat) (cursor : option Z) : option (list (list A)) :=
  match fuel with
  | O => None
  | S fuel =>
      let '(page, next) := cursor_page sel (rows ++ extra k) limit 0 cursor in
      match next with
      | None => Some [page]
      | Some c =>
          match parse_cursor hex_decode from_utf8 (Some ("cursor=" +:+ encode_cursor hex_encode c)) with
          | Err _ => None
          | Ok cursor => pages ← walk fuel sel rows extra limit (S k) cursor; Some (page :: pages)
          end
      end
  end.

Definition later (r r' : Z * A) : Prop := r'.1 < r.1.

Lemma reverse_sorted (l : table) : StronglySorted (flip later) l → StronglySorted later (reverse l).
Proof.
  induction 1 as [|r l Hl IH Hr]; [constructor|]. rewrite reverse_cons. apply StronglySorted_app.
  split_and!; [|done|repeat constructor].
  intros r1 r2 Hin ->%list_elem_of_singleton. rewrite elem_of_reverse in Hin.
  exact (proj1 (list.Forall_forall _ _) Hr r1 Hin).
Qed.

Lemma filter_reverse (P : Z * A → Prop) `{!∀ x, Decision (P x)} (l : table) :
  filter P (reverse l) = reverse (filter P l).
Proof.
  induction l as [|x l IH]; [done|]. rewrite reverse_cons, list.filter_app, IH.
  destruct (decide (P x)).
  - by rewrite !list.filter_cons_True, reverse_cons.
  - rewrite !list.filter_cons_False by done. simpl. by rewrite app_nil_r.
Qed.

(** The rows of [l] that come after [l1], when [l1] ends at the cursor. *)
Lemma filter_below (l1 l2 : table) :
  StronglySorted later (l1 ++ l2) →
  filter (λ r, below (fst <$> list.last l1) r.1 = true) (l1 ++ l2) = l2.
Proof.
  destruct l1 as [|x l1 _] using rev_ind; intros Hs.
  - simpl. apply filter_keeps. by apply Forall_true.
  - rewrite last_snoc. simpl. apply StronglySorted_app in Hs as (Hlt & Hs1 & Hs2).
    rewrite list.filter_app, filter_drops, filter_keeps; [done| |].
    + apply list.Forall_forall. intros r Hr. specialize (Hlt x r).
      rewrite Z.ltb_lt. apply Hlt; [set_solver|done].
    + apply Forall_app. split; [|constructor; [|constructor]; by rewrite Z.ltb_irrefl].
      apply StronglySorted_app in Hs1 as (Hlt1 & _). apply list.Forall_forall. intros r Hr.
      specialize (Hlt1 r x Hr ltac:(set_solver)). unfold later in Hlt1. lia.
Qed.

Section Walk.
Context (sel : A → bool) (rows : table) (extra : nat → table).
Context (Hrows : StronglySorted (flip later) rows)
        (Hids : ∀ r, r ∈ rows → 0 <= r.1 < 2 ^ 63)
        (Hcodec : codec_ok hex_encode hex_decode from_utf8).
(** Rows are added above the rows of the table, and not before the first page. *)
Context (Hfirst : extra 0%nat = [])
        (Hnew : ∀ k r r', r ∈ rows → r' ∈ extra k → r.1 < r'.1).

(** What there is to list, latest first. *)
Definition listing : table := reverse (filter (λ r, sel r.2 = true) rows).

Lemma listing_sorted : StronglySorted later listing.
Proof using Hrows. by apply reverse_sorted, StronglySorted_filter. Qed.

Lemma listing_rows r : r ∈ listing → r ∈ rows.
Proof. unfold listing. rewrite elem_of_reverse. by intros [_ ?]%list_elem_of_filter. Qed.

(** After the rows [l1], the query selects exactly the rows that are left. *)
Lemma chosen_rest k l1 l2 :
  listing = l1 ++ l2 → (l1 = [] → k = 0%nat) →
  reverse (filter (λ r, chosen sel (fst <$> list.last l1) r = true) (rows ++ extra k)) = l2.
Proof using Hrows Hids Hcodec Hfirst Hnew.
  intros Hl Hk. rewrite list.filter_app, reverse_app.
  assert (filter (λ r, chosen sel (fst <$> list.last l1) r = true) (extra k) = []) as ->.
  { destruct l1 as [|x l1 _] using rev_ind; [by rewrite Hk, Hfirst|].
    rewrite last_snoc. apply filter_drops, list.Forall_forall. intros r' Hr' Hc.
    apply andb_true_iff in Hc as [_ Hc]. simpl in Hc.
    assert (x ∈ rows) as Hx by (apply listing_rows; rewrite Hl; set_solver).
    specialize (Hnew k x r' Hx Hr'). lia. }
  rewrite <- (filter_below l1 l2) by (rewrite <- Hl; apply listing_sorted).
  rewrite <- Hl. unfold listing. rewrite filter_reverse, list_filter_filter. simpl.
  f_equal. apply list_filter_iff. intros r. unfold chosen. rewrite andb_true_iff. tauto.
Qed.

(** A page of the rows [l]. *)
Lemma paginate_prefix (l : table) limit :
  1 <= limit →
  paginate_rows (take (Z.to_nat (limit + 1)) l) limit =
  if decide (length l ≤ Z.to_nat limit)%nat then (map snd l, None)
  else (map snd (take (Z.to_nat limit) l), fst <$> list.last (take (Z.to_nat limit) l)).
Proof.
  intros Hlim. unfold paginate_rows. rewrite length_take. case_decide as Hd.
  - match goal with |- context [?a <? ?b] => destruct (Z.ltb_spec a b) end; [lia|].
    by rewrite take_ge by lia.
  - match goal with |- context [?a <? ?b] => destruct (Z.ltb_spec a b) end; [|lia].
    by rewrite take_take, Nat.min_l by lia.
Qed.

Lemma page_rest limit k l1 l2 :
  listing = l1 ++ l2 → (l1 = [] → k = 0%nat) →
  let m := Z.to_nat (clamp 1 SOC_MAX_LIMIT limit) in
  cursor_page sel (rows ++ extra k) limit 0 (fst <$> list.last l1) =
  if decide (length l2 ≤ m)%nat then (map snd l2, None)
  else (map snd (take m l2), fst <$> list.last (take m l2)).
Proof using Hrows Hids Hcodec Hfirst Hnew.
  intros Hl Hk m. pose proof (clamp_bounds 1 SOC_MAX_LIMIT limit ltac:(done)) as [Hlim _].
  unfold cursor_page.
  assert (Z.to_nat match fst <$> list.last l1 with Some _ => 0 | None => 0 end = 0%nat) as ->
    by (by destruct (list.last l1)).
  rewrite drop_0, (chosen_rest k l1 l2) by done. by apply paginate_prefix.
Qed.

Lemma walk_rest limit n k l1 l2 :
  listing = l1 ++ l2 → (l1 = [] → k = 0%nat) → (length l2 < n)%nat →
  ∃ pages, walk n sel rows extra limit k (fst <$> list.last l1) = Some pages ∧
           concat pages = map snd l2.
Proof using Hrows Hids Hcodec Hfirst Hnew.
  revert k l1 l2. induction n as [|n IH]; intros k l1 l2 Hl Hk Hn; [lia|].
  pose proof (clamp_bounds 1 SOC_MAX_LIMIT limit ltac:(done)) as [Hlim _].
  cbn [walk]. rewrite (page_rest limit k l1 l2) by done.
  set (m := Z.to_nat (clamp 1 SOC_MAX_LIMIT limit)) in *. case_decide as Hd.
  - exists [map snd l2]. simpl. by rewrite app_nil_r.
  - destruct (take m l2) as [|x l _] eqn:Ht using rev_ind.
    { apply (f_equal length) in Ht. rewrite length_take in Ht. simpl in Ht. lia. }
    assert (l2 = (l ++ [x]) ++ drop m l2) as Hsplit by (by rewrite <- Ht, take_drop).
    destruct (IH (S k) (l1 ++ l ++ [x]) (drop m l2)) as (pages & Hw & Hc).
    + rewrite Hl. rewrite Hsplit at 1. by rewrite !app_assoc.
    + by destruct l1, l.
    + rewrite length_drop. lia.
    + rewrite !app_assoc, last_snoc in Hw. simpl in Hw. rewrite last_snoc. cbn [fmap option_fmap option_map].
      rewrite (cursor_roundtrip _ _ _ _ Hcodec).
      2:{ apply Hids, listing_rows. rewrite Hl, Hsplit. set_solver. }
      rewrite Hw.
      eexists. split; [done|]. simpl. rewrite Hc, <- map_app. by rewrite <- Hsplit.
Qed.

(** C32: the pages of a listing list everything once.  Following the cursors from
    the first page, each sent back in the query string, ends after as many
    pages as it takes, and the pages one after another are the rows the filter
    selects, latest first, each exactly once; rows that are added while the
    client pages neither appear twice nor push a row out of sight. *)
Theorem pages_list_everything limit :
  ∃ pages, walk (S (length rows)) sel rows extra limit 0 None = Some pages ∧
           concat pages = map snd (reverse (filter (λ r, sel r.2 = true) rows)).
Proof using Hrows Hids Hcodec Hfirst Hnew.
  apply (walk_rest limit _ 0 [] listing); [done..|]. unfold listing.
  rewrite length_reverse. apply le_n_S, length_filter.
Qed.
End Walk.
End Pages.

Definition list_action_receipts_cursor (rows : list (Z * ActionReceiptRecord)) (tenant_id : string)
    (limit offset : Z) (cursor : option Z) : list ActionReceiptRecord * option Z :=
  cursor_page (λ r, rct_tenant_id r == tenant_id) rows limit offset cursor.

Definition list_pending_approvals_cursor (rows : list (Z * ApprovalRow)) (tenant_id : string)
    (limit offset : Z) (cursor : option Z) (now : DateTime) : list ApprovalRecord * option Z :=
  let '(page, next) :=
    cursor_page (λ r, (apv_tenant_id (aprow r) == tenant_id) && Approvals.pending now r)
      rows limit offset cursor in
  (map aprow page, next).

(** ** A concrete table *)

Definition five : list (Z * string) := [(1, "a"); (2, "b"); (4, "c"); (5, "d"); (9, "e")].
Definition arriving (k : nat) : list (Z * string) :=
  match k with O => [] | S _ => [(10, "f"); (11, "g")] end.

Definition nibble (n : nat) : ascii :=
  if (n <=? 9)%nat then ascii_of_nat (48 + n) else ascii_of_nat (87 + n).
Definition unnibble (a : ascii) : nat :=
  let n := nat_of_ascii a in if (n <=? 57)%nat then (n - 48)%nat else (n - 87)%nat.

Fixpoint to_hex (s : string) : string :=
  match s with
  | EmptyString => ""
  | String a s' =>
      let n := nat_of_ascii a in
      String (nibble (n / 16)) (String (nibble (n mod 16)) (to_hex s'))
  end.
Fixpoint of_hex (s : string) : option string :=
  match s with
  | EmptyString => Some ""
  | String a (String b s') =>
      r ← of_hex s'; Some (String (ascii_of_nat (unnibble a * 16 + unnibble b)) r)
  | String _ EmptyString => None
  end.

Lemma hex_byte a :
  ascii_of_nat (unnibble (nibble (nat_of_ascii a / 16)) * 16 +
                unnibble (nibble (nat_of_ascii a mod 16))) = a ∧
  Ascii.eqb (nibble (nat_of_ascii a / 16)) "&" = false ∧
  Ascii.eqb (nibble (nat_of_ascii a mod 16)) "&" = false.
Proof. destruct a as [[] [] [] [] [] [] [] []]; vm_compute; done. Qed.

Lemma plain_codec : codec_ok to_hex of_hex Some.
Proof.
  split; [| |by intros [|a s]|done].
  - intros s. induction s as [|a s IH]; [done|]. cbn [to_hex of_hex]. rewrite IH.
    cbn [mbind option_bind]. by rewrite (proj1 (hex_byte a)).
  - intros s. induction s as [|a s IH]; [done|]. cbn [to_hex has_byte].
    destruct (hex_byte a) as (_ & -> & ->). done.
Qed.

Example five_pages :
  walk to_hex of_hex Some 6 (λ _, true) five arriving 2 0 None =
  Some [["e"; "d"]; ["c"; "b"]; ["a"]].
Proof. vm_compute. done. Qed.

Lemma pages_list_everything_witness :
  ∃ pages, walk to_hex of_hex Some 6 (λ _, true) five arriving 2 0 None = Some pages ∧
           concat pages = ["e"; "d"; "c"; "b"; "a"].
Proof.
  apply (pages_list_everything to_hex of_hex Some (λ _, true) five arriving).
  - repeat constructor; by vm_compute.
  - intros r Hr. apply list_elem_of_In in Hr. simpl in Hr. intuition (subst; simpl; lia).
  - exact plain_codec.
  - reflexivity.
  - intros [|k] r r' Hr Hr'; apply list_elem_of_In in Hr, Hr'; simpl in Hr, Hr'; [done|].
    intuition (subst; simpl; lia).
Defined.
End Pages.
