(* ===== verification/Gateway.v ===== *)
(** * The gateway's implementation of the decision ports

    Models [GatewayDecisionRuntime] of [src/src/src/decision_runtime.rs] with
    [write_decision_and_audit] of [routes/authorize_decision.rs], the receipt
    builders of [routes/authorize_receipts.rs] and
    [retry_storage_write_on_busy] of [routes/mod.rs].  Each method of the trait
    is a program over the gateway's collaborators [HostE]: the storage backend,
    the caches and trackers of [AppState], the policy engine, the event stream
    and the GitHub clients.  [gateway] is the trait implementation, and
    [interp gateway] turns a run of the pipeline into calls to collaborators. *)

From S2P Require Import Prelude RustString Prog Trust Canon Models Records External Validation Risk Caches Net Ssrf Runtime Admit Preflight Guard Metadata Evaluate Effects Pipeline.
From stdpp Require Import pretty.

Inductive HostE : Type → Type :=
(* StorageBackend *)
| StGetAgentByToken (tenant_id token : string) : HostE (Fallible (option AgentRecord))
| StGetAgentByMtlsCn (tenant_id cn : string) : HostE (Fallible (option AgentRecord))
| StAgentToolPermission (tenant_id agent_id tool : string) : HostE (Fallible bool)
| StDecisionByRequestId (tenant_id agent_id request_id : string) :
    HostE (Fallible (option DecisionRecord))
| StCheckAndInsertNonce (tenant_id agent_id nonce : string) (expires_at : DateTime) :
    HostE (Fallible bool)
| StIsBanned (tenant_id kind subject : string) (now : DateTime) : HostE (Fallible bool)
| StIsQuarantined (tenant_id kind subject : string) : HostE (Fallible bool)
| StGetSkillAction (tenant_id tool action : string) : HostE (Fallible (option SkillActionRecord))
| StAgentMcpServerPermission (tenant_id agent_id server_key : string) : HostE (Fallible bool)
| StGetMcpServer (tenant_id server_key : string) : HostE (Fallible (option McpServerRecord))
| StGetMcpTool (tenant_id server_key action : string) : HostE (Fallible (option McpToolRecord))
| StListPolicies (tenant_id : string) : HostE (Fallible (list PolicyRecord))
| StGetRiskWeights (tenant_id : string) : HostE (Fallible (option Risk.RiskWeights))
| StInsertDecision (record : DecisionRecord) : HostE (Fallible unit)
| StInsertAuditEvent (record : AuditEventRecord) : HostE (Fallible unit)
| StAppendReceipt (tenant_id : string) (record : ActionReceiptRecord) :
    HostE (Fallible ActionReceiptRecord)
| StSetAgentStatus (tenant_id agent_id status : string) : HostE (Fallible bool)
| StInsertApproval (record : ApprovalRecord) : HostE (Fallible unit)
| StApprovalByDecision (tenant_id decision_id : string) : HostE (Fallible (option ApprovalRecord))
| StMaybeEscalate (tenant_id agent_id tier : string) : HostE (Fallible (option (string * string)))
(* trackers, limiters and caches of [AppState] *)
| TrackerIsBlocked (key : string) : HostE bool
| TrackerRecordFailure (key : string) : HostE unit
| ReplayStoreDb : HostE bool
| NonceCheckAndInsert (key : string) (now : DateTime) : HostE bool
| RateLimiterCheck (tenant_id : string) : HostE bool
| QuotaCheck (tenant_id : string) : HostE bool
| HeartbeatTouch (tenant_id agent_id : string) : HostE unit
| SkillCacheGet (key : string) : HostE (option SkillMeta)
| SkillCacheInsert (key : string) (meta : SkillMeta) : HostE unit
| ServerCacheGet (key : string) : HostE (option McpServerRecord)
| ServerCacheInsert (key : string) (server : McpServerRecord) : HostE unit
| ToolCacheGet (key : string) : HostE (option McpToolRecord)
| ToolCacheInsert (key : string) (tool : McpToolRecord) : HostE unit
| WeightsCacheGet (tenant_id : string) (now : Instant) : HostE (option Risk.RiskWeights)
| WeightsCacheInsert (tenant_id : string) (weights : Risk.RiskWeights) (now : Instant) : HostE unit
| HashToolCallCached (tenant_id : string) (request_id : option string) (tc : AuthorizeToolCall) :
    HostE string
(* admission webhook: [None] when it is not configured *)
| AdmissionWebhookCall (request : AuthorizeRequest) : HostE (option AdmissionEffect)
(* policy engine *)
| EngineHasTenant (tenant_id : string) : HostE bool
| EngineReload (tenant_id : string) (policies : list PolicyRecord) : HostE (Result unit string)
| EngineAuthorize (tenant_id : string) (request : AuthorizeRequest) (tier : string)
    (is_tool_known is_mtls : bool) : HostE (Result PolicyDecisionView string)
(* batches, event stream, metrics, GitHub *)
| AuditBatchEmit (record : AuditEventRecord) : HostE (Result unit SqlxError)
| ReceiptBatchEmit (tenant_id : string) (record : ActionReceiptRecord) : HostE (Result unit AegisError)
| SpawnRiskScoreWrite (tenant_id agent_id decision_id : string) (score : Z) (reason : string) : HostE unit
| EventEmit (event : AseEvent) : HostE unit
| EventsHasCapacity : HostE bool
| Metric (name : string) : HostE unit
| StoreAuditWriterUnhealthy (b : bool) : HostE unit
| GithubCommenterEnabled : HostE bool
| GithubPrComment (repo : string) (pr : Z) (body : string) : HostE unit
| GithubChecksEnabled : HostE bool
| GithubRecordDecision (repo : string) (pr : Z) (tool action decision reason : string)
    (risk_score : Z) : HostE unit
(* clocks and identifiers *)
| UtcNow : HostE DateTime
| InstantNow : HostE Instant
| FreshUuid : HostE Uuid.

Abbreviation Host A := (prog HostE A).

(** Third-party functions of the host: [Uuid::to_string], RFC 3339 printing,
    the serializers behind the stored JSON, SHA-256, [SocketAddr::ip], the
    collaborators of the SSRF check and the printed form of its error. *)
Class HostExternal := {
  uuid_to_string : Uuid → string;
  to_rfc3339 : DateTime → string;
  json_of_value : Canon.Value → string;
  json_of_tool_call : AuthorizeToolCall → string;
  json_of_decision : DecisionRecord → string;
  json_of_approval : ApprovalRecord → string;
  json_of_tiers : string → string → string;
  host_sha256_hex : string → string;
  socket_ip : SocketAddr → string;
  url_parse : string → Result Url string;
  dns_resolve : string → Z → option (list IpAddr);
  display_callback_error : CallbackUrlError → string }.

(** [payload.user.as_ref().map(|u| u.id.clone())] and the like. *)
Definition user_id_of (p : AuthorizeRequest) : option string := uctx_id <$> rq_user p.
Definition run_id_of (p : AuthorizeRequest) : option string := trc_run_id <$> rq_trace p.
Definition trace_id_of (p : AuthorizeRequest) : option string := trc_trace_id <$> rq_trace p.
Definition parent_run_id_of (p : AuthorizeRequest) : option string :=
  t ← rq_trace p; trc_parent_run_id t.

Module Gateway.
Section Gateway.
Context {X : External} {H : HostExternal}.

Definition agent_record_to_authorize_agent (a : AgentRecord) : AuthorizeAgent := {|
  ag_id := ar_id a; ag_tenant_id := ar_tenant_id a; ag_agent_key := ar_agent_key a;
  ag_status := ar_status a; ag_risk_tier := ar_risk_tier a;
  ag_force_approval := ar_force_approval a; ag_signing_key := ar_signing_key a;
  ag_allowed_environments := ar_allowed_environments a |}.

(** ** Agents, lockout, nonces *)

Definition get_agent_by_token (tenant_id token : string) : Host (Fallible (option AuthorizeAgent)) :=
  agent ←? trigger (StGetAgentByToken tenant_id token);
  mret (Ok (option_map agent_record_to_authorize_agent agent)).

Definition get_agent_by_mtls_cn (tenant_id cn : string) : Host (Fallible (option AuthorizeAgent)) :=
  agent ←? trigger (StGetAgentByMtlsCn tenant_id cn);
  mret (Ok (option_map agent_record_to_authorize_agent agent)).

Definition auth_failure_tracker_key (client_addr : SocketAddr) (tenant_id : string) : string :=
  socket_ip client_addr +:+ "|" +:+ tenant_id.

Definition auth_failure_blocked (client_addr : SocketAddr) (tenant_id : string) : Host bool :=
  blocked ← trigger (TrackerIsBlocked (auth_failure_tracker_key client_addr tenant_id));
  if (blocked : bool) then
    _ ← trigger (Metric "auth_failure_lockout");
    mret true
  else mret false.

Definition record_auth_failure (client_addr : SocketAddr) (tenant_id : string) : Host unit :=
  _ ← trigger (TrackerRecordFailure (auth_failure_tracker_key client_addr tenant_id));
  trigger (Metric "auth_failure_attempt").

Definition REPLAY_NONCE_WINDOW_SECS : Z := 300.

Definition check_and_record_nonce (tenant_id agent_id nonce : string) (now : DateTime) :
    Host (Fallible bool) :=
  db ← trigger ReplayStoreDb;
  if (db : bool) then
    trigger (StCheckAndInsertNonce tenant_id agent_id nonce
               (now + REPLAY_NONCE_WINDOW_SECS * 1000000000)%Z)
  else
    seen ← trigger (NonceCheckAndInsert (ReplayNonceCache.cache_key tenant_id agent_id nonce) now);
    mret (Ok seen).

(** ** Bans, registered actions, MCP servers and tools *)

Definition enforcement_status (tenant_id agent_id normalized_tool : string) :
    Host (Fallible EnforcementStatus) :=
  ban_now ← trigger UtcNow;
  agent_banned ← trigger (StIsBanned tenant_id "agent" agent_id ban_now);
  tool_banned ← trigger (StIsBanned tenant_id "tool" normalized_tool ban_now);
  agent_quarantined ← trigger (StIsQuarantined tenant_id "agent" agent_id);
  mret match agent_banned, tool_banned, agent_quarantined with
       | Err e, _, _ | _, Err e, _ | _, _, Err e => Err e
       | Ok true, _, _ => Ok AgentBanned
       | _, Ok true, _ => Ok ToolBanned
       | _, _, Ok true => Ok AgentQuarantined
       | Ok false, Ok false, Ok false => Ok Clear
       end.

Definition meta_of (m : SkillMeta) : RegisteredActionMeta :=
  let '(risk, mutates_state, approval_required, default_decision) := m in
  {| ram_risk := risk; ram_mutates_state := mutates_state;
     ram_approval_required := approval_required; ram_default_decision := default_decision |}.

Definition skill_action_meta (tenant_id normalized_tool normalized_action : string) :
    Host (Fallible (option RegisteredActionMeta)) :=
  let skill_cache_key := SkillActionCache.cache_key tenant_id normalized_tool normalized_action in
  cached ← trigger (SkillCacheGet skill_cache_key);
  match cached with
  | Some meta => mret (Ok (Some (meta_of meta)))
  | None =>
      record ←? trigger (StGetSkillAction tenant_id normalized_tool normalized_action);
      match record with
      | Some record =>
          let meta := (sar_risk record, sar_mutates_state record, sar_approval_required record,
                       sar_default_decision record) in
          _ ← trigger (SkillCacheInsert skill_cache_key meta);
          mret (Ok (Some (meta_of meta)))
      | None => mret (Ok None)
      end
  end.

Definition mcp_server_status (tenant_id server_key : string) : Host (Fallible (option string)) :=
  let cache_key := McpServerCache.cache_key tenant_id server_key in
  cached ← trigger (ServerCacheGet cache_key);
  match cached with
  | Some server => mret (Ok (Some (msr_status server)))
  | None =>
      server ←? trigger (StGetMcpServer tenant_id server_key);
      match server with
      | Some server =>
          _ ← trigger (ServerCacheInsert cache_key server);
          mret (Ok (Some (msr_status server)))
      | None => mret (Ok None)
      end
  end.

Definition tool_meta_of (tool : McpToolRecord) : McpToolMeta :=
  {| mtm_risk := mtr_risk tool; mtm_approval_required := mtr_approval_required tool;
     mtm_status := mtr_status tool |}.

Definition mcp_tool_meta (tenant_id server_key normalized_action : string) :
    Host (Fallible (option McpToolMeta)) :=
  let cache_key := McpToolCache.cache_key tenant_id server_key normalized_action in
  cached ← trigger (ToolCacheGet cache_key);
  match cached with
  | Some tool => mret (Ok (Some (tool_meta_of tool)))
  | None =>
      tool ←? trigger (StGetMcpTool tenant_id server_key normalized_action);
      match tool with
      | Some tool =>
          _ ← trigger (ToolCacheInsert cache_key tool);
          mret (Ok (Some (tool_meta_of tool)))
      | None => mret (Ok None)
      end
  end.

(** ** Policies *)

Definition ensure_policies_loaded (tenant_id : string) : Host (Fallible unit) :=
  loaded ← trigger (EngineHasTenant tenant_id);
  if (loaded : bool) then mret (Ok tt)
  else
    db_policies ←? trigger (StListPolicies tenant_id);
    r ← trigger (EngineReload tenant_id db_policies);
    mret (map_err (λ e, Internal ("Failed to load tenant policies: " +:+ e)) r).

Definition evaluate_cedar (tenant_id : string) (request : AuthorizeRequest) (tier : string)
    (is_tool_known is_mtls : bool) : Host (Fallible PolicyDecisionView) :=
  d ← trigger (EngineAuthorize tenant_id request tier is_tool_known is_mtls);
  mret (map_err (λ e, Internal ("Policy engine failure: " +:+ e)) d).

(** ** The decision row and its audit event *)

Definition get_cached_risk_weights (tenant_id : string) : Host Risk.RiskWeights :=
  now ← trigger InstantNow;
  cached ← trigger (WeightsCacheGet tenant_id now);
  match cached with
  | Some weights => mret weights
  | None =>
      stored ← trigger (StGetRiskWeights tenant_id);
      let weights := match stored with Ok (Some w) => w | _ => Risk.DEFAULT end in
      _ ← trigger (WeightsCacheInsert tenant_id weights now);
      mret weights
  end.

Definition risk_inputs (w : DecisionAuditWrite) : Risk.RiskInputs :=
  let payload := wr_request w in
  {| Risk.base_action_risk := wr_risk_score w;
     Risk.mutates_state := tc_mutates_state (rq_tool_call payload);
     Risk.source_trust := dctx_source_trust (rq_context payload);
     Risk.is_mcp_call := bool_decide (is_Some (Guard.mcp_server_key_from_tool
       (Validation.normalize_tool_identifier (tc_tool (rq_tool_call payload)))));
     Risk.anomaly_score := 0;
     Risk.had_prior_approval := false |}.

Definition build_decision_record (w : DecisionAuditWrite) (composite_risk_score : Z)
    (elapsed_ms : Z) (created_at : DateTime) : DecisionRecord :=
  let payload := wr_request w in
  {| dr_id := uuid_to_string (wr_decision_id w);
     dr_tenant_id := wr_tenant_id w;
     dr_agent_id := wr_agent_id w;
     dr_user_id := user_id_of payload;
     dr_run_id := run_id_of payload;
     dr_trace_id := trace_id_of payload;
     dr_skill := tc_tool (rq_tool_call payload);
     dr_action := tc_action (rq_tool_call payload);
     dr_resource := tc_resource (rq_tool_call payload);
     dr_input_json := json_of_value (tc_parameters (rq_tool_call payload));
     dr_decision := wr_decision w;
     dr_risk_score := Some (wr_risk_score w);
     dr_reason := Some (wr_reason w);
     dr_matched_policy_ids := Some (join_with "," (wr_matched_policies w));
     dr_request_id := rq_request_id payload;
     dr_latency_ms := Some elapsed_ms;
     dr_composite_risk_score := Some composite_risk_score;
     dr_root_trust_level := Some (effective_trust payload);
     dr_parent_run_id := parent_run_id_of payload;
     dr_created_at := created_at |}.

Definition build_audit_record (w : DecisionAuditWrite) (record : DecisionRecord) (id : Uuid)
    (created_at : DateTime) : AuditEventRecord :=
  let payload := wr_request w in
  {| aud_id := uuid_to_string id;
     aud_tenant_id := wr_tenant_id w;
     aud_event_type := wr_audit_event_type w;
     aud_agent_id := Some (wr_agent_id w);
     aud_user_id := user_id_of payload;
     aud_run_id := run_id_of payload;
     aud_trace_id := trace_id_of payload;
     aud_span_id := None;
     aud_skill := Some (tc_tool (rq_tool_call payload));
     aud_action := Some (tc_action (rq_tool_call payload));
     aud_resource := tc_resource (rq_tool_call payload);
     aud_event_json := json_of_decision record;
     aud_input_hash := None;
     aud_output_hash := None;
     aud_decision_id := Some (uuid_to_string (wr_decision_id w));
     aud_approval_id := None;
     aud_created_at := created_at |}.

Definition decision_event (w : DecisionAuditWrite) (id : Uuid) (at_ : DateTime) : AseEvent :=
  let payload := wr_request w in
  {| ase_event_id := uuid_to_string id; ase_occurred_at := to_rfc3339 at_;
     ase_tenant_id := wr_tenant_id w; ase_kind := "authorize_decision";
     ase_agent_id := wr_agent_id w; ase_decision := wr_decision w;
     ase_tool := tc_tool (rq_tool_call payload); ase_action := tc_action (rq_tool_call payload);
     ase_resource := tc_resource (rq_tool_call payload); ase_risk_score := wr_risk_score w;
     ase_reason := wr_reason w; ase_run_id := run_id_of payload; ase_trace_id := trace_id_of payload;
     ase_matched_policies := wr_matched_policies w; ase_redacted_fields := [];
     ase_schema_version := 1;
     ase_evidence := Some {|
       evd_decision_id := Some (uuid_to_string (wr_decision_id w)); evd_approval_id := None;
       evd_action_hash := if is_empty (wr_action_hash w) then None else Some (wr_action_hash w);
       evd_receipt_id := None; evd_receipt_hash := None; evd_prev_receipt_hash := None;
       evd_canon_version := None;
       evd_source_trust := Some (dctx_source_trust (rq_context payload));
       evd_root_trust_level := Some (wr_root_trust_level w) |};
     ase_prompt_injection := None; ase_rag_poisoning := None |}.

(** The audit event: critical denials go straight to storage, everything
    else through the batch. *)
Definition write_audit_event (w : DecisionAuditWrite) (record : AuditEventRecord) :
    Host (Fallible unit) :=
  if (wr_decision w == "deny") && (Risk.risk_level_for_score (wr_risk_score w) == "critical") then
    trigger (StInsertAuditEvent record)
  else
    r ← trigger (AuditBatchEmit record);
    mret (map_err Database r).

Definition write_decision_and_audit (w : DecisionAuditWrite) : Host (Fallible Z) :=
  weights ← get_cached_risk_weights (wr_tenant_id w);
  let composite_risk_score := Risk.compute_composite_risk_score (risk_inputs w) weights in
  if wr_dry_run w then mret (Ok composite_risk_score)
  else
  _ ← trigger (Metric "authorize_duration");
  _ ← trigger (Metric "decision");
  now ← trigger InstantNow;
  created_at ← trigger UtcNow;
  let record := build_decision_record w composite_risk_score
                  (Z.max 0 (now - wr_started_at w) / 1000000) created_at in
  _ ←? trigger (StInsertDecision record);
  _ ← trigger (SpawnRiskScoreWrite (wr_tenant_id w) (wr_agent_id w)
                 (uuid_to_string (wr_decision_id w)) (wr_risk_score w) (wr_reason w));
  audit_id ← trigger FreshUuid;
  audit_at ← trigger UtcNow;
  _ ←? write_audit_event w (build_audit_record w record audit_id audit_at);
  event_id ← trigger FreshUuid;
  event_at ← trigger UtcNow;
  _ ← trigger (EventEmit (decision_event w event_id event_at));
  mret (Ok composite_risk_score).

(** ** Receipts *)

Definition CANON_VERSION : string := "aegis-jcs-1".

Definition build_decision_receipt (tenant_id agent_id : string) (payload : AuthorizeRequest)
    (decision_id : Uuid) (decision action_hash : string) (id : Uuid) (ts created_at : DateTime) :
    ActionReceiptRecord := {|
  rct_id := uuid_to_string id;
  rct_tenant_id := tenant_id;
  rct_decision_id := Some (uuid_to_string decision_id);
  rct_ts := to_rfc3339 ts;
  rct_agent_id := Some agent_id;
  rct_user_id := user_id_of payload;
  rct_run_id := run_id_of payload;
  rct_trace_id := trace_id_of payload;
  rct_tool := Some (tc_tool (rq_tool_call payload));
  rct_action := Some (tc_action (rq_tool_call payload));
  rct_resource := tc_resource (rq_tool_call payload);
  rct_source_trust := dctx_source_trust (rq_context payload);
  rct_decision := decision;
  rct_approver := None;
  rct_action_hash := Some action_hash;
  rct_prev_receipt_hash := "";
  rct_receipt_hash := "";
  rct_canon_version := CANON_VERSION;
  rct_signature := None;
  rct_signer_public_key := None;
  rct_signer_key_id := None;
  rct_created_at := created_at |}.

(** [SQLITE_BUSY] and [SQLITE_LOCKED]. *)
Definition is_retryable (e : AegisError) : bool :=
  match e with
  | Database (DatabaseError (Some code) _) => (code == "5") || (code == "6")
  | _ => false
  end.

(** The loop of [retry_storage_write_on_busy]: [retries] remain. *)
Fixpoint retry_on_busy {E A} (retries : nat) (f : prog E (Fallible A)) : prog E (Fallible A) :=
  r ← f;
  match r with
  | Ok v => mret (Ok v)
  | Err e =>
      match retries with
      | S retries => if is_retryable e then retry_on_busy retries f else mret (Err e)
      | O => mret (Err e)
      end
  end.

Definition emit_action_receipt_durable (tenant_id agent_id : string) (payload : AuthorizeRequest)
    (decision_id : Uuid) (decision action_hash : string) : Host (Fallible ActionReceiptRecord) :=
  id ← trigger FreshUuid;
  ts ← trigger UtcNow;
  created_at ← trigger UtcNow;
  let receipt :=
    build_decision_receipt tenant_id agent_id payload decision_id decision action_hash id ts created_at in
  retry_on_busy 3 (trigger (StAppendReceipt tenant_id receipt)).

Definition emit_action_receipt (tenant_id agent_id : string) (payload : AuthorizeRequest)
    (decision_id : Uuid) (decision action_hash : string) : Host unit :=
  id ← trigger FreshUuid;
  ts ← trigger UtcNow;
  created_at ← trigger UtcNow;
  let receipt :=
    build_decision_receipt tenant_id agent_id payload decision_id decision action_hash id ts created_at in
  _ ← trigger (ReceiptBatchEmit tenant_id receipt);
  mret tt.

Definition emit_receipt_durable (tenant_id agent_id : string) (request : AuthorizeRequest)
    (decision_id : Uuid) (decision action_hash : string) : Host (Fallible ReceiptIdentity) :=
  receipt ←? emit_action_receipt_durable tenant_id agent_id request decision_id decision action_hash;
  mret (Ok {| rcp_receipt_id := rct_id receipt; rcp_receipt_hash := rct_receipt_hash receipt;
              rcp_prev_receipt_hash := rct_prev_receipt_hash receipt;
              rcp_canon_version := rct_canon_version receipt |}).

(** ** Quarantine, approvals, escalation *)

Definition quarantine_agent (tenant_id agent_id : string) : Host (Fallible unit) :=
  _ ←? trigger (StSetAgentStatus tenant_id agent_id "quarantined");
  mret (Ok tt).

Definition plain_event (id : Uuid) (at_ : DateTime) (tenant_id kind agent_id decision : string)
    (request : AuthorizeRequest) (risk_score : Z) (reason : string) (matched : list string) :
    AseEvent :=
  {| ase_event_id := uuid_to_string id; ase_occurred_at := to_rfc3339 at_;
     ase_tenant_id := tenant_id; ase_kind := kind; ase_agent_id := agent_id;
     ase_decision := decision; ase_tool := tc_tool (rq_tool_call request);
     ase_action := tc_action (rq_tool_call request);
     ase_resource := tc_resource (rq_tool_call request); ase_risk_score := risk_score;
     ase_reason := reason; ase_run_id := run_id_of request; ase_trace_id := trace_id_of request;
     ase_matched_policies := matched; ase_redacted_fields := []; ase_schema_version := 1;
     ase_evidence := None;
     ase_prompt_injection := None; ase_rag_poisoning := None |}.

Definition emit_agent_quarantined (tenant_id agent_id : string) (request : AuthorizeRequest)
    (risk_score : Z) (reason : string) (matched_policies : list string) : Host unit :=
  id ← trigger FreshUuid;
  now ← trigger UtcNow;
  trigger (EventEmit (plain_event id now tenant_id "agent_quarantined" agent_id "quarantine" request
                        risk_score reason matched_policies)).

Definition build_approval_record (tenant_id : string) (request : AuthorizeRequest)
    (params : ApprovalCreateParams) (approval_id : Uuid) (expires_at created_at : DateTime) :
    ApprovalRecord := {|
  apv_id := uuid_to_string approval_id;
  apv_tenant_id := tenant_id;
  apv_decision_id := uuid_to_string (acp_decision_id params);
  apv_status := "created";
  apv_approver_group := acp_approver_group params;
  apv_approver_user_id := None;
  apv_reason := None;
  apv_original_skill_call := json_of_tool_call (rq_tool_call request);
  apv_original_call_hash := acp_action_hash params;
  apv_edited_skill_call := None;
  apv_effective_call_hash := None;
  apv_expires_at := Some expires_at;
  apv_decided_at := None;
  apv_callback_url := acp_callback_url params;
  apv_callback_secret_hash := host_sha256_hex <$> acp_callback_secret params;
  apv_created_at := created_at |}.

Definition approval_created_audit (tenant_id agent_id : string) (request : AuthorizeRequest)
    (params : ApprovalCreateParams) (approval_id : Uuid) (record : ApprovalRecord) (id : Uuid)
    (created_at : DateTime) : AuditEventRecord := {|
  aud_id := uuid_to_string id;
  aud_tenant_id := tenant_id;
  aud_event_type := "approval_created";
  aud_agent_id := Some agent_id;
  aud_user_id := user_id_of request;
  aud_run_id := run_id_of request;
  aud_trace_id := trace_id_of request;
  aud_span_id := None;
  aud_skill := Some (tc_tool (rq_tool_call request));
  aud_action := Some (tc_action (rq_tool_call request));
  aud_resource := tc_resource (rq_tool_call request);
  aud_event_json := json_of_approval record;
  aud_input_hash := Some (acp_action_hash params);
  aud_output_hash := None;
  aud_decision_id := Some (uuid_to_string (acp_decision_id params));
  aud_approval_id := Some (uuid_to_string approval_id);
  aud_created_at := created_at |}.

Definition check_callback (callback_url : option string) : Fallible unit :=
  match callback_url with
  | Some url =>
      match Ssrf.validate_callback_url url_parse dns_resolve url with
      | Err e => Err (BadRequest ("Invalid callback URL: " +:+ display_callback_error e))
      | Ok _ => Ok tt
      end
  | None => Ok tt
  end.

Definition create_approval (tenant_id agent_id : string) (request : AuthorizeRequest)
    (params : ApprovalCreateParams) : Host (Fallible ApprovalResponseInfo) :=
  _ ←? mret (check_callback (acp_callback_url params));
  approval_id ← trigger FreshUuid;
  now ← trigger UtcNow;
  let expires_at := (now + acp_approval_ttl_secs params * 1000000000)%Z in
  created_at ← trigger UtcNow;
  let approval_record :=
    build_approval_record tenant_id request params approval_id expires_at created_at in
  inserted ← trigger (StInsertApproval approval_record);
  match inserted with
  | Err _ => mret (Err (Internal "Failed to create approval request"))
  | Ok _ =>
      audit_id ← trigger FreshUuid;
      audit_at ← trigger UtcNow;
      _ ← trigger (StInsertAuditEvent (approval_created_audit tenant_id agent_id request params
                     approval_id approval_record audit_id audit_at));
      mret (Ok {| apr_approval_id := approval_id; apr_status := "created";
                  apr_approver_group := acp_approver_group params; apr_expires_at := expires_at;
                  apr_action_hash := acp_action_hash params |})
  end.

Definition risk_escalated_audit (tenant_id agent_id : string) (decision_id id : Uuid)
    (old_tier new_tier : string) (created_at : DateTime) : AuditEventRecord := {|
  aud_id := uuid_to_string id; aud_tenant_id := tenant_id;
  aud_event_type := "agent_risk_escalated"; aud_agent_id := Some agent_id; aud_user_id := None;
  aud_run_id := None; aud_trace_id := None; aud_span_id := None; aud_skill := None;
  aud_action := None; aud_resource := None; aud_event_json := json_of_tiers old_tier new_tier;
  aud_input_hash := None; aud_output_hash := None;
  aud_decision_id := Some (uuid_to_string decision_id); aud_approval_id := None;
  aud_created_at := created_at |}.

Definition emit_risk_escalated (tenant_id agent_id : string) (request : AuthorizeRequest)
    (decision : string) (decision_id : Uuid) (risk_score : Z) (old_tier new_tier : string)
    (matched_policies : list string) : Host unit :=
  audit_id ← trigger FreshUuid;
  audit_at ← trigger UtcNow;
  _ ← trigger (StInsertAuditEvent (risk_escalated_audit tenant_id agent_id decision_id audit_id
                 old_tier new_tier audit_at));
  id ← trigger FreshUuid;
  now ← trigger UtcNow;
  trigger (EventEmit (plain_event id now tenant_id "agent_risk_escalated" agent_id decision request
    risk_score ("risk_tier escalated " +:+ old_tier +:+ " -> " +:+ new_tier +:+
                " after repeated denials") matched_policies)).

(** ** GitHub *)

(** [str::parse::<u64>] *)
Definition parse_u64 (s : string) : option Z :=
  let digits := match s with String "+" s' => s' | _ => s end in
  if is_empty digits then None
  else z ← Risk.parse_digits 0 digits; if (z <? 2 ^ 64)%Z then Some z else None.

Definition extract_pr_ref (resource : string) : option (string * Z) :=
  '(repo, number_str) ← rsplit_once "#" resource;
  pr_number ← parse_u64 number_str;
  if (pr_number <=? 0)%Z then None
  else if is_empty repo then None
  else Some (repo, pr_number).

Definition backticked (p : string) : string := "`" +:+ p +:+ "`".

(** [v.join(sep)] *)
Fixpoint join_str (sep : string) (ws : list string) : string :=
  match ws with
  | [] => ""
  | [w] => w
  | w :: ws' => w +:+ sep +:+ join_str sep ws'
  end.

Definition format_deny_comment (reason : string) (matched_policies : list string) (risk_score : Z)
    (decision_id tool action : string) : string :=
  let policies_str :=
    if bool_decide (matched_policies = []) then "_none_"
    else join_str ", " (backticked <$> matched_policies) in
  "## 🛡️ Aegis: Action Denied

An automated coding agent attempted a **" +:+ tool +:+ " / " +:+ action +:+ "** action on this pull request, which was **denied** by the AegisAgent integrity layer.

| Field | Value |
|---|---|
| **Reason** | " +:+ reason +:+ " |
| **Matched policy** | " +:+ policies_str +:+ " |
| **Risk score** | " +:+ pretty risk_score +:+ " / 100 |
| **Decision ID** | `" +:+ decision_id +:+ "` |

### What to do

- Review the decision at `GET /v1/decisions/" +:+ decision_id +:+ "`.
- If the action was legitimate, ask an authorized approver to unblock it via the Aegis dashboard or Slack.
- If the denial was unexpected, check the Cedar policy in `gateway/policies.cedar` and the agent's registered `source_trust` level.

_This comment was posted automatically by [AegisAgent](https://github.com/lavkushry/AegisAgent). At most 5 comments are posted per pull request to prevent noise._".

Definition pr_target (request : AuthorizeRequest) : option (string * Z) :=
  if tc_tool (rq_tool_call request) == "github" then
    resource ← tc_resource (rq_tool_call request); extract_pr_ref resource
  else None.

Definition notify_github_decision (request : AuthorizeRequest) (decision reason : string)
    (risk_score : Z) (decision_id : Uuid) (matched_policies : list string) : Host unit :=
  _ ← (if decision == "deny" then
         enabled ← trigger GithubCommenterEnabled;
         if (enabled : bool) then
           match pr_target request with
           | Some (repo, pr_number) =>
               trigger (GithubPrComment repo pr_number
                 (format_deny_comment reason matched_policies risk_score
                    (uuid_to_string decision_id) (tc_tool (rq_tool_call request))
                    (tc_action (rq_tool_call request))))
           | None => mret tt
           end
         else mret tt
       else mret tt);
  checks ← trigger GithubChecksEnabled;
  if (checks : bool) then
    match pr_target request with
    | Some (repo, pr_number) =>
        trigger (GithubRecordDecision repo pr_number (tc_tool (rq_tool_call request))
                   (tc_action (rq_tool_call request)) decision reason risk_score)
    | None => mret tt
    end
  else mret tt.

(** ** Idempotent replay *)

Definition idempotent_replay (record : DecisionRecord) : Host (Fallible AuthorizeResponse) :=
  let tenant_id := dr_tenant_id record in
  approval ←
    (if dr_decision record == "require_approval" then
       app ← trigger (StApprovalByDecision tenant_id (dr_id record));
       match app with
       | Ok (Some app) =>
           mret (Some {|
             apr_approval_id := default Pipeline.Uuid_nil (uuid_parse (apv_id app));
             apr_status := apv_status app;
             apr_approver_group := apv_approver_group app;
             apr_expires_at := default (dr_created_at record) (apv_expires_at app);
             apr_action_hash := apv_original_call_hash app |})
       | _ => mret None
       end
     else mret None);
  mret (Ok (Pipeline.authorize_response_from_decision_record record approval)).

Definition call_admission_webhook (request : AuthorizeRequest) : Host (Fallible AdmissionEffect) :=
  effect ← trigger (AdmissionWebhookCall request);
  mret (Ok (match effect with None => Disabled | Some e => e end)).

(** ** The implementation of the trait *)

Definition gateway (T : Type) (e : DecisionE T) : Host T :=
  match e in DecisionE T return Host T with
  | GetAgentByToken t token => get_agent_by_token t token
  | GetAgentByMtlsCn t cn => get_agent_by_mtls_cn t cn
  | AuthFailureBlocked addr t => auth_failure_blocked addr t
  | RecordAuthFailure addr t => record_auth_failure addr t
  | AgentToolPermitted t a tool => trigger (StAgentToolPermission t a tool)
  | GetDecisionByRequestId t a rid => trigger (StDecisionByRequestId t a rid)
  | CheckAndRecordNonce t a nonce now => check_and_record_nonce t a nonce now
  | CheckRateLimit t => trigger (RateLimiterCheck t)
  | CheckQuota t => trigger (QuotaCheck t)
  | TouchHeartbeat t a => trigger (HeartbeatTouch t a)
  | WriteDecisionAndAudit w => write_decision_and_audit w
  | CallAdmissionWebhook request => call_admission_webhook request
  | ComputeActionHash t rid tc => trigger (HashToolCallCached t rid tc)
  | GetEnforcementStatus t a tool => enforcement_status t a tool
  | SkillActionMeta t tool action => skill_action_meta t tool action
  | AgentMcpServerPermitted t a key => trigger (StAgentMcpServerPermission t a key)
  | McpServerStatus t key => mcp_server_status t key
  | GetMcpToolMeta t key action => mcp_tool_meta t key action
  | EnsurePoliciesLoaded t => ensure_policies_loaded t
  | EvaluateCedar t request tier known mtls => evaluate_cedar t request tier known mtls
  | RecordProvenanceDenial => trigger (Metric "provenance_denial")
  | AuditStreamHasCapacity => trigger EventsHasCapacity
  | SetAuditWriterHealthy healthy => trigger (StoreAuditWriterUnhealthy (negb healthy))
  | EmitReceiptDurable t a request did d h => emit_receipt_durable t a request did d h
  | EmitReceiptBestEffort t a request did d h => emit_action_receipt t a request did d h
  | QuarantineAgent t a => quarantine_agent t a
  | EmitAgentQuarantined t a request score reason pols =>
      emit_agent_quarantined t a request score reason pols
  | CreateApproval t a request params => create_approval t a request params
  | MaybeEscalateRiskTier t a tier => trigger (StMaybeEscalate t a tier)
  | EmitRiskEscalated t a request d did score old new pols =>
      emit_risk_escalated t a request d did score old new pols
  | NotifyGithubDecision request d reason score did pols =>
      notify_github_decision request d reason score did pols
  | IdempotentReplay record => idempotent_replay record
  | Now => trigger UtcNow
  | NewUuid => trigger FreshUuid
  end.
End Gateway.
End Gateway.
