(* ===== verification/ApprovalApi.v ===== *)
(** * The approval API

    Models the handlers of [src/src/src/routes/approval.rs] (consume, approve,
    reject, edit, with the brute-force guard), [emit_tamper_attempt_receipt] of
    [routes/authorize_receipts.rs], and the Slack callback of
    [routes/webhooks.rs] with its approver gate
    ([src/lib/common/src/slack_approver.rs], [slack_approver_gate.rs]), as
    programs over the storage operations and collaborators they call, and the
    gRPC method [approve] of [grpc.rs].  The views ([get_approval],
    [list_approvals]) only read.  [System.v] runs the handlers at once against
    the table of [Approvals.v]. *)

From S2P Require Import Prelude RustString Prog Canon Models Records External Caches Runtime Bans Approvals Service Pages Gateway.
From stdpp Require Import pretty.

Record ApproveRequest := { apq_approver_user_id : string; apq_reason : option string }.

Record EditApprovalRequest := {
  edq_approver_user_id : string;
  edq_edited_tool_call : AuthorizeToolCall;
  edq_reason : option string }.

(** What the handlers call. *)
Inductive ApprovalE : Type → Type :=
| ApGet (tenant_id approval_id : string) : ApprovalE (Fallible (option ApprovalRecord))
| ApConsume (tenant_id approval_id : string) (claimed : option string) : ApprovalE (Fallible bool)
| ApStillConsumable (tenant_id approval_id : string) : ApprovalE (Fallible bool)
| ApUpdateStatus (tenant_id approval_id status user_id : string) (reason : option string)
    (decided_at : option DateTime) : ApprovalE (Fallible bool)
| ApUpdateEdit (tenant_id approval_id user_id : string) (reason : option string)
    (edited_call new_action_hash : string) : ApprovalE (Fallible bool)
| ApAppendReceipt (tenant_id : string) (r : ActionReceiptRecord) :
    ApprovalE (Fallible ActionReceiptRecord)
| ApInsertAudit (r : AuditEventRecord) : ApprovalE (Fallible unit)
| ApIsActiveApiKey (tenant_id key_hash : string) : ApprovalE (Fallible bool)
| ApTenantApprovers (tenant_id : string) : ApprovalE (Fallible (option (option string)))
| ApUsergroupMembers (token group_id : string) : ApprovalE (Result (list string) string)
| ApIpLimiter (ip : string) : ApprovalE bool
| ApTrackerBlocked (approval_id : string) : ApprovalE bool
| ApTrackerFailure (approval_id : string) : ApprovalE unit
| ApEmit (event : AseEvent) : ApprovalE unit
| ApMetric (name : string) : ApprovalE unit
| ApChecksEnabled : ApprovalE bool
| ApCheckResolution (repo : string) (pr : Z) (approved : bool) : ApprovalE unit
| ApNow : ApprovalE DateTime
| ApUuid : ApprovalE Uuid.

Abbreviation Approve A := (prog ApprovalE A).

(** More third-party functions: parsers of the stored JSON, the printer of
    [json!] values, the parsed Slack payload, form decoding. *)
Class ApprovalExternal := {
  parse_tool_call : string → option AuthorizeToolCall;
  parse_json : string → Result Canon.Value string;
  hash_token : string → string;
  (** [DateTime::from_timestamp(secs, 0)] *)
  from_timestamp : Z → option DateTime }.

Module ApprovalApi.
Section Handlers.
Context {X : External} {HX : HostExternal} {AX : ApprovalExternal}.

Definition uuid_json (id : Uuid) : Canon.Value := Canon.Str (uuid_to_string id).
Definition opt_json (o : option string) : Canon.Value :=
  match o with Some s => Canon.Str s | None => Canon.Null end.

(** [app.expires_at.map(|e| e < Utc::now()).unwrap_or(false)] *)
Definition approval_is_expired (app : ApprovalRecord) : Approve bool :=
  match apv_expires_at app with
  | None => mret false
  | Some e => now ← trigger ApNow; mret (e <? now)%Z
  end.

(** ** The brute-force guard *)

Definition has_admin_bypass (tenant_id : string) (admin_key : option string) : Approve bool :=
  match admin_key with
  | None => mret false
  | Some key =>
      if is_empty key then mret false
      else
        r ← trigger (ApIsActiveApiKey tenant_id (hash_token key));
        mret (match r with Ok b => b | Err _ => false end)
  end.

Definition approval_callback_rate_limit_guard (tenant_id : string) (approval_id : Uuid)
    (addr : SocketAddr) (admin_key : option string) : Approve (option Response) :=
  bypass ← has_admin_bypass tenant_id admin_key;
  if (bypass : bool) then mret None
  else
    allowed ← trigger (ApIpLimiter (socket_ip addr));
    if negb allowed then
      mret (Some (into_response (StatusError.with_details
        (StatusError.too_many_requests "Too many approval attempts from this IP. Try again later.")
        (Canon.Object [("reason", Canon.Str "rate_limited_ip")]))))
    else
      blocked ← trigger (ApTrackerBlocked (uuid_to_string approval_id));
      if (blocked : bool) then
        mret (Some (into_response (StatusError.with_details
          (StatusError.too_many_requests
             "Too many failed attempts for this approval. Try again later.")
          (Canon.Object [("approval_id", uuid_json approval_id);
                         ("reason", Canon.Str "rate_limited_approval_attempts")]))))
      else mret None.

Definition record_approval_attempt_failure (status : Z) (approval_id : Uuid) : Approve unit :=
  if (400 <=? status)%Z && (status <? 500)%Z
  then trigger (ApTrackerFailure (uuid_to_string approval_id))
  else mret tt.

(** ** Tamper evidence *)

Definition TAMPER_DECISION : string := "tamper_attempt".

Definition tamper_receipt (tenant_id kind approval_id : string) (action_hash : option string)
    (id : Uuid) (ts created_at : DateTime) : ActionReceiptRecord :=
  {| rct_id := uuid_to_string id; rct_tenant_id := tenant_id; rct_decision_id := None;
     rct_ts := to_rfc3339 ts; rct_agent_id := None; rct_user_id := None; rct_run_id := None;
     rct_trace_id := None; rct_tool := Some kind; rct_action := Some TAMPER_DECISION;
     rct_resource := Some ("approval:" +:+ approval_id);
     rct_source_trust := "malicious_suspected"; rct_decision := TAMPER_DECISION;
     rct_approver := None; rct_action_hash := action_hash; rct_prev_receipt_hash := "";
     rct_receipt_hash := ""; rct_canon_version := Gateway.CANON_VERSION; rct_signature := None;
     rct_signer_public_key := None; rct_signer_key_id := None; rct_created_at := created_at |}.

Definition tamper_audit (tenant_id kind approval_id : string) (action_hash : option string)
    (decision_id : option string) (id : Uuid) (created_at : DateTime) : AuditEventRecord :=
  {| aud_id := uuid_to_string id; aud_tenant_id := tenant_id; aud_event_type := "tamper_attempt";
     aud_agent_id := None; aud_user_id := None; aud_run_id := None; aud_trace_id := None;
     aud_span_id := None; aud_skill := None; aud_action := Some kind;
     aud_resource := Some ("approval:" +:+ approval_id);
     aud_event_json := json_of_value (Canon.Object
       [("kind", Canon.Str kind); ("approval_id", Canon.Str approval_id);
        ("action_hash", opt_json action_hash)]);
     aud_input_hash := None; aud_output_hash := None; aud_decision_id := decision_id;
     aud_approval_id := Some approval_id; aud_created_at := created_at |}.

Definition tamper_event (tenant_id kind approval_id : string) (agent_id : option string)
    (id : Uuid) (at_ : DateTime) : AseEvent :=
  {| ase_event_id := uuid_to_string id; ase_occurred_at := to_rfc3339 at_;
     ase_tenant_id := tenant_id; ase_kind := "replay_attempt";
     ase_agent_id := default "unknown" agent_id; ase_decision := "deny"; ase_tool := kind;
     ase_action := TAMPER_DECISION; ase_resource := Some ("approval:" +:+ approval_id);
     ase_risk_score := 0;
     ase_reason := "approval-integrity violation: " +:+ kind +:+ " (approval:" +:+ approval_id +:+ ")";
     ase_run_id := None; ase_trace_id := None; ase_matched_policies := [];
     ase_redacted_fields := []; ase_schema_version := 1; ase_evidence := None;
     ase_prompt_injection := None; ase_rag_poisoning := None |}.

Definition emit_tamper_attempt_receipt (tenant_id : string) (agent_id : option string)
    (kind approval_id : string) (action_hash decision_id : option string) : Approve unit :=
  id ← trigger ApUuid;
  ts ← trigger ApNow;
  created ← trigger ApNow;
  r ← trigger (ApAppendReceipt tenant_id
                (tamper_receipt tenant_id kind approval_id action_hash id ts created));
  match r with
  | Err _ => mret tt
  | Ok _ =>
      id ← trigger ApUuid;
      now ← trigger ApNow;
      _ ← trigger (ApInsertAudit
                    (tamper_audit tenant_id kind approval_id action_hash decision_id id now));
      id ← trigger ApUuid;
      now ← trigger ApNow;
      trigger (ApEmit (tamper_event tenant_id kind approval_id agent_id id now))
  end.

(** ** Refused transitions *)

Definition already_decided (status : option string) (approval_id : Uuid) : StatusError :=
  StatusError.with_details (StatusError.conflict "Approval already decided")
    (Canon.Object (match status with Some s => [("status", Canon.Str s)] | None => [] end ++
                   [("approval_id", uuid_json approval_id);
                    ("reason", Canon.Str "approval_already_decided")])).

Definition has_expired (approval_id : Uuid) : StatusError :=
  StatusError.with_details (StatusError.conflict "Approval has expired")
    (Canon.Object [("approval_id", uuid_json approval_id); ("reason", Canon.Str "approval_expired")]).

(** [approval.status == "created" && approval_is_expired(&approval)]: the clock
    is read only for a pending one. *)
Definition pending_but_expired (app : ApprovalRecord) : Approve bool :=
  if apv_status app == "created" then approval_is_expired app else mret false.

Definition conflict_response_for_failed_transition (tenant_id : string) (approval_id : Uuid)
    (expired_tamper_kind : string) : Approve AuthorizedOutcome :=
  r ← trigger (ApGet tenant_id (uuid_to_string approval_id));
  match (match r with Ok app => app | Err _ => None end) with
  | Some approval =>
      expired ← pending_but_expired approval;
      if (expired : bool) then
        _ ← emit_tamper_attempt_receipt tenant_id None expired_tamper_kind (uuid_to_string approval_id)
              (Some (apv_original_call_hash approval)) (Some (apv_decision_id approval));
        mret (status_error (has_expired approval_id))
      else mret (status_error (already_decided (Some (apv_status approval)) approval_id))
  | None => mret (status_error (already_decided None approval_id))
  end.

(** ** Consume *)

Definition json_reply (status : Z) (v : Canon.Value) : Response :=
  {| rp_status := status; rp_retry_after := None; rp_body := AbJson v |}.

(** The branch of a consume that had no effect. *)
Definition refuse_consume (tenant_id : string) (approval_id : Uuid) (claimed : option string) :
    Approve Response :=
  r ← trigger (ApGet tenant_id (uuid_to_string approval_id));
  let bound_approval := match r with Ok app => app | Err _ => None end in
  is_hash_mismatch ← (if bool_decide (is_Some claimed) then
                        r ← trigger (ApStillConsumable tenant_id (uuid_to_string approval_id));
                        mret (match r with Ok b => b | Err _ => false end)
                      else mret false);
  '(tamper_tag, error_message) ←
    (if (is_hash_mismatch : bool) then
       _ ← trigger (ApMetric "hash_mismatch");
       mret ("consume_hash_mismatch",
             "Action hash mismatch: the action to be executed differs from the approved action")
     else mret ("consume_not_consumable",
                "Approval not consumable (already used, expired, or not approved)"));
  _ ← emit_tamper_attempt_receipt tenant_id None tamper_tag (uuid_to_string approval_id)
        (apv_original_call_hash <$> bound_approval) (apv_decision_id <$> bound_approval);
  mret (into_response (StatusError.with_details (StatusError.conflict error_message)
          (Canon.Object [("approval_id", uuid_json approval_id)]))).

Definition consume_approval (tenant_id : string) (approval_id : Uuid) (claimed : option string) :
    Approve Response :=
  r ← trigger (ApConsume tenant_id (uuid_to_string approval_id) claimed);
  match r with
  | Err _ => mret (into_response (StatusError.internal "Database error"))
  | Ok consumed =>
      if negb consumed then refuse_consume tenant_id approval_id claimed
      else
        r ← trigger (ApGet tenant_id (uuid_to_string approval_id));
        let action_hash :=
          match r with Ok (Some a) => effective_action_hash a | _ => "" end in
        mret (json_reply 200 (Canon.Object [("status", Canon.Str "consumed");
                                            ("approval_id", uuid_json approval_id);
                                            ("action_hash", Canon.Str action_hash)]))
  end.

(** ** Approve, reject *)

Definition decided_audit (tenant_id status : string) (payload : ApproveRequest)
    (approval : ApprovalRecord) (approval_id : Uuid) (audited_id : string) (id : Uuid)
    (created_at : DateTime) : AuditEventRecord :=
  {| aud_id := uuid_to_string id; aud_tenant_id := tenant_id; aud_event_type := "approval_decided";
     aud_agent_id := None; aud_user_id := Some (apq_approver_user_id payload); aud_run_id := None;
     aud_trace_id := None; aud_span_id := None; aud_skill := None; aud_action := None;
     aud_resource := None;
     aud_event_json := json_of_value (Canon.Object
       [("approval_id", uuid_json approval_id); ("status", Canon.Str status);
        ("reason", opt_json (apq_reason payload))]);
     aud_input_hash := None; aud_output_hash := None;
     aud_decision_id := Some (apv_decision_id approval); aud_approval_id := Some audited_id;
     aud_created_at := created_at |}.

Definition spawn_github_check_resolution_for_approval (approval : ApprovalRecord) (approved : bool) :
    Approve unit :=
  enabled ← trigger ApChecksEnabled;
  if negb enabled then mret tt
  else
    let tool_call :=
      match apv_edited_skill_call approval ≫= parse_tool_call with
      | Some tc => Some tc
      | None => parse_tool_call (apv_original_skill_call approval)
      end in
    match tool_call with
    | None => mret tt
    | Some tc =>
        if negb (tc_tool tc == "github") then mret tt
        else
          match tc_resource tc ≫= Gateway.extract_pr_ref with
          | None => mret tt
          | Some (repo, pr_number) => trigger (ApCheckResolution repo pr_number approved)
          end
    end.

Definition success (approval_id : Uuid) : AuthorizedOutcome :=
  {| ao_status := 200;
     ao_body := AbJson (Canon.Object [("status", Canon.Str "success");
                                      ("approval_id", uuid_json approval_id)]) |}.

Definition approve_approval_inner (tenant_id : string) (approval_id : Uuid)
    (payload : ApproveRequest) : Approve AuthorizedOutcome :=
  r ← trigger (ApGet tenant_id (uuid_to_string approval_id));
  match r with
  | Err _ => mret (status_error (StatusError.internal "Database error"))
  | Ok None => mret (status_error (StatusError.not_found "Approval request not found"))
  | Ok (Some approval) =>
      if negb (apv_status approval == "created") then
        mret (status_error (already_decided (Some (apv_status approval)) approval_id))
      else
        expired ← approval_is_expired approval;
        if (expired : bool) then
          _ ← emit_tamper_attempt_receipt tenant_id None "approve_expired" (uuid_to_string approval_id)
                (Some (apv_original_call_hash approval)) (Some (apv_decision_id approval));
          mret (status_error (has_expired approval_id))
        else
          u ← trigger (ApUpdateStatus tenant_id (uuid_to_string approval_id) "APPROVED"
                         (apq_approver_user_id payload) (apq_reason payload) None);
          match u with
          | Err _ => mret (status_error (StatusError.internal "Failed to approve request"))
          | Ok updated =>
              if negb updated then
                conflict_response_for_failed_transition tenant_id approval_id "approve_expired"
              else
                id ← trigger ApUuid;
                now ← trigger ApNow;
                _ ← trigger (ApInsertAudit (decided_audit tenant_id "APPROVED" payload approval
                               approval_id (apv_id approval) id now));
                _ ← spawn_github_check_resolution_for_approval approval true;
                mret (success approval_id)
          end
  end.

Definition reject_approval_inner (tenant_id : string) (approval_id : Uuid)
    (payload : ApproveRequest) : Approve AuthorizedOutcome :=
  r ← trigger (ApGet tenant_id (uuid_to_string approval_id));
  match r with
  | Err _ => mret (status_error (StatusError.internal "Database error"))
  | Ok None => mret (status_error (StatusError.not_found "Approval request not found"))
  | Ok (Some approval) =>
      u ← trigger (ApUpdateStatus tenant_id (uuid_to_string approval_id) "REJECTED"
                     (apq_approver_user_id payload) (apq_reason payload) None);
      match u with
      | Err _ => mret (status_error (StatusError.internal "Failed to reject request"))
      | Ok updated =>
          if negb updated then
            conflict_response_for_failed_transition tenant_id approval_id "reject_expired"
          else
            id ← trigger ApUuid;
            now ← trigger ApNow;
            _ ← trigger (ApInsertAudit (decided_audit tenant_id "REJECTED" payload approval
                           approval_id (uuid_to_string approval_id) id now));
            _ ← spawn_github_check_resolution_for_approval approval false;
            mret (success approval_id)
      end
  end.

(** [approve_approval] and [reject_approval]: the guard, the decision, the
    count of failures. *)
Definition guarded (tenant_id : string) (approval_id : Uuid) (addr : SocketAddr)
    (admin_key : option string) (inner : Approve (Z * Response)) : Approve Response :=
  g ← approval_callback_rate_limit_guard tenant_id approval_id addr admin_key;
  match g with
  | Some resp => mret resp
  | None =>
      '(status, resp) ← inner;
      _ ← record_approval_attempt_failure status approval_id;
      mret resp
  end.

Definition approve_approval (tenant_id : string) (approval_id : Uuid) (addr : SocketAddr)
    (admin_key : option string) (payload : ApproveRequest) : Approve Response :=
  guarded tenant_id approval_id addr admin_key
    (o ← approve_approval_inner tenant_id approval_id payload;
     mret (ao_status o, outcome_to_response o)).

Definition reject_approval (tenant_id : string) (approval_id : Uuid) (addr : SocketAddr)
    (admin_key : option string) (payload : ApproveRequest) : Approve Response :=
  guarded tenant_id approval_id addr admin_key
    (o ← reject_approval_inner tenant_id approval_id payload;
     mret (ao_status o, outcome_to_response o)).

(** ** Edit *)

(** [hash_tool_call] of [routes/authorize_canon.rs] *)
Definition hash_tool_call (tc : AuthorizeToolCall) : string :=
  CanonicalHashCache.hash_tool_call (λ v, Some (json_of_value v)) host_sha256_hex tc.

Definition edited_audit (tenant_id : string) (payload : EditApprovalRequest)
    (approval : ApprovalRecord) (approval_id : Uuid) (new_action_hash : string) (id : Uuid)
    (created_at : DateTime) : AuditEventRecord :=
  {| aud_id := uuid_to_string id; aud_tenant_id := tenant_id; aud_event_type := "approval_edited";
     aud_agent_id := None; aud_user_id := Some (edq_approver_user_id payload); aud_run_id := None;
     aud_trace_id := None; aud_span_id := None; aud_skill := None; aud_action := None;
     aud_resource := None;
     aud_event_json := json_of_value (Canon.Object
       [("approval_id", uuid_json approval_id); ("status", Canon.Str "created");
        ("edited", Canon.Bool true); ("reason", opt_json (edq_reason payload));
        ("original_action_hash", Canon.Str (apv_original_call_hash approval));
        ("effective_action_hash", Canon.Str new_action_hash);
        ("edited_tool_call", CanonicalHashCache.tool_call_value (edq_edited_tool_call payload))]);
     aud_input_hash := Some (apv_original_call_hash approval);
     aud_output_hash := Some new_action_hash;
     aud_decision_id := Some (apv_decision_id approval); aud_approval_id := Some (apv_id approval);
     aud_created_at := created_at |}.

Definition edit_approval_inner (tenant_id : string) (approval_id : Uuid)
    (payload : EditApprovalRequest) : Approve Response :=
  r ← trigger (ApGet tenant_id (uuid_to_string approval_id));
  match r with
  | Err _ => mret (into_response (StatusError.internal "Database error"))
  | Ok None => mret (into_response (StatusError.not_found "Approval request not found"))
  | Ok (Some approval) =>
      if negb (apv_status approval == "created") then
        mret (into_response (already_decided (Some (apv_status approval)) approval_id))
      else
        let new_action_hash := hash_tool_call (edq_edited_tool_call payload) in
        u ← trigger (ApUpdateEdit tenant_id (uuid_to_string approval_id)
                       (edq_approver_user_id payload) (edq_reason payload)
                       (json_of_tool_call (edq_edited_tool_call payload)) new_action_hash);
        match u with
        | Err _ => mret (into_response (StatusError.internal "Failed to edit request"))
        | Ok updated =>
            if negb updated then
              o ← conflict_response_for_failed_transition tenant_id approval_id "edit_expired";
              mret (outcome_to_response o)
            else
              id ← trigger ApUuid;
              now ← trigger ApNow;
              _ ← trigger (ApInsertAudit (edited_audit tenant_id payload approval approval_id
                             new_action_hash id now));
              mret (json_reply 200 (Canon.Object
                [("status", Canon.Str "success"); ("approval_id", uuid_json approval_id);
                 ("effective_action_hash", Canon.Str new_action_hash);
                 ("original_action_hash", Canon.Str (apv_original_call_hash approval))]))
        end
  end.

Definition edit_approval (tenant_id : string) (approval_id : Uuid) (addr : SocketAddr)
    (admin_key : option string) (payload : EditApprovalRequest) : Approve Response :=
  guarded tenant_id approval_id addr admin_key
    (resp ← edit_approval_inner tenant_id approval_id payload; mret (rp_status resp, resp)).
End Handlers.

(** ** The Slack callback *)

Inductive SlackApproverGroupConfig :=
| AllowAll
| UserAllowlist (ids : list string)
| UsergroupId (id : string).

Definition is_ascii_alphanumeric (a : ascii) : bool :=
  let n := Ascii.nat_of_ascii a in
  ((48 <=? n) && (n <=? 57) || (65 <=? n) && (n <=? 90) || (97 <=? n) && (n <=? 122))%nat.

Fixpoint all_bytes (p : ascii → bool) (s : string) : bool :=
  match s with EmptyString => true | String a s' => p a && all_bytes p s' end.

(** The first byte is an [S] or [s] and one or more letters or digits follow. *)
Definition looks_like_usergroup (s : string) : bool :=
  match s with
  | String a rest =>
      Ascii.eqb (ascii_upper a) "S" && negb (is_empty rest) && all_bytes is_ascii_alphanumeric rest
  | EmptyString => false
  end.

Definition parse_slack_approver_group (raw : option string) : SlackApproverGroupConfig :=
  match filter_nonempty (trim <$> raw) with
  | None => AllowAll
  | Some s =>
      if looks_like_usergroup s then UsergroupId s
      else
        let users := filter (λ part, is_empty part = false) (trim <$> split_on "," s) in
        match users with [] => AllowAll | _ => UserAllowlist users end
  end.

Definition slack_user_in_allowlist (config : SlackApproverGroupConfig) (slack_user_id : string) : bool :=
  match config with
  | AllowAll => true
  | UserAllowlist ids => existsb (λ id, id == slack_user_id) ids
  | UsergroupId _ => false
  end.

Inductive SlackApproverGateError := BotTokenRequired | Api (message : string).

Definition slack_user_authorized_for_approval (config_raw : option string) (slack_user_id : string)
    (bot_token : option string) : Approve (Result bool SlackApproverGateError) :=
  let parsed := parse_slack_approver_group config_raw in
  match parsed with
  | AllowAll => mret (Ok true)
  | UserAllowlist _ => mret (Ok (slack_user_in_allowlist parsed slack_user_id))
  | UsergroupId group_id =>
      match bot_token with
      | None => mret (Err BotTokenRequired)
      | Some token =>
          r ← trigger (ApUsergroupMembers token group_id);
          mret (match r with
                | Ok members => Ok (existsb (λ id, id == slack_user_id) members)
                | Err e => Err (Api e)
                end)
      end
  end.

Section Slack.
Context {X : External} {HX : HostExternal} {AX : ApprovalExternal}.

(** [Mac::verify_slice] of the digest of ["v0:{timestamp}:{body}"] *)
Definition verify_slack_signature (secret timestamp body sig_header : string) : bool :=
  match RustString.strip_prefix "v0=" sig_header with
  | None => false
  | Some hex_digest =>
      match hex_decode hex_digest with
      | None => false
      | Some expected =>
          match hmac_sha256 secret ("v0:" +:+ timestamp +:+ ":" +:+ body) with
          | None => false
          | Some mac => mac == expected
          end
      end
  end.

Definition slack_timestamp_is_fresh (timestamp : string) (now : DateTime) : bool :=
  match Pages.parse_i64 timestamp with
  | None => false
  | Some ts =>
      match from_timestamp ts with
      | None => false
      | Some ts_time => (Z.abs (now - ts_time) <=? 300 * 1000000000)%Z
      end
  end.

(** The first pair without [=] ends the search. *)
Fixpoint payload_field (pairs : list string) : option string :=
  match pairs with
  | [] => None
  | kv :: rest =>
      '(key, value) ← split_once "=" kv;
      if key == "payload" then
        percent_decode_utf8 (string_map (λ a, if Ascii.eqb a "+" then " "%char else a) value)
      else payload_field rest
  end.

Definition extract_slack_payload_field (body : string) : option string :=
  body_str ← Utf8.from_utf8 body; payload_field (split_on "&" body_str).

Definition bad_gate (e : SlackApproverGateError) : StatusError :=
  match e with
  | BotTokenRequired =>
      StatusError.service_unavailable "Slack usergroup validation requires AEGIS_SLACK_BOT_TOKEN"
  | Api _ => StatusError.service_unavailable "Slack approver group validation failed"
  end.

(** [o.and_then(|v| v.get(key)).and_then(|v| v.as_str())] *)
Definition str_field (key : string) (o : option Canon.Value) : option string :=
  v ← o; x ← get_field key v; as_str x.

(** [payload.get("actions").and_then(|a| a.as_array()).and_then(|a| a.first())] *)
Definition first_action (payload : Canon.Value) : option Canon.Value :=
  a ← get_field "actions" payload;
  match a with Canon.Array (x :: _) => Some x | _ => None end.

Definition slack_user (payload : Canon.Value) : string :=
  default "unknown" (str_field "id" (get_field "user" payload)).

(** From a verified payload to the decision: the tenant and the approval the
    button carries, the approver gate, then the handler. *)
Definition slack_decide (bot_token : option string) (payload : Canon.Value) : Approve Response :=
  let action := first_action payload in
  let action_id := str_field "action_id" action in
  let value := str_field "value" action in
  let user := get_field "user" payload in
  let slack_user_id := slack_user payload in
  let approver_user_id :=
    default slack_user_id
      (u ← user;
       x ← match get_field "username" u with Some x => Some x | None => get_field "id" u end;
       as_str x) in
  match value ≫= split_once ":" with
  | None => mret (into_response (StatusError.bad_request "missing or malformed callback value"))
  | Some (tenant_id, approval) =>
      match uuid_parse approval with
      | None => mret (into_response (StatusError.bad_request "invalid approval id in callback value"))
      | Some approval_id =>
          tenant ← trigger (ApTenantApprovers tenant_id);
          match tenant with
          | Err _ => mret (into_response (StatusError.internal "Database error"))
          | Ok None => mret (into_response (StatusError.not_found "tenant not found"))
          | Ok (Some group) =>
              gate ← slack_user_authorized_for_approval group slack_user_id bot_token;
              match gate with
              | Err e => mret (into_response (bad_gate e))
              | Ok false =>
                  mret (into_response (StatusError.with_details
                    (StatusError.forbidden "not in approver group")
                    (Canon.Object [("reason", Canon.Str "not_in_approver_group")])))
              | Ok true =>
                  let request := {| apq_approver_user_id := approver_user_id;
                                    apq_reason := Some "Decided via Slack interactive callback" |} in
                  let finish (inner : Approve AuthorizedOutcome) : Approve Response :=
                    outcome ← inner;
                    _ ← record_approval_attempt_failure (ao_status outcome) approval_id;
                    mret (outcome_to_response outcome) in
                  if bool_decide (action_id = Some "approve") then
                    finish (approve_approval_inner tenant_id approval_id request)
                  else if bool_decide (action_id = Some "reject") then
                    finish (reject_approval_inner tenant_id approval_id request)
                  else mret (into_response (StatusError.bad_request "unsupported action_id"))
              end
          end
      end
  end.

Definition slack_callback (signing_secret bot_token timestamp signature : option string)
    (body : string) : Approve Response :=
  match signing_secret with
  | None => mret (into_response (StatusError.not_found "Not found"))
  | Some secret =>
      fresh ← match timestamp with
              | None => mret false
              | Some ts => now ← trigger ApNow; mret (slack_timestamp_is_fresh ts now)
              end;
      if negb fresh then
        mret (into_response (StatusError.with_details
          (StatusError.unauthorized "missing or stale X-Slack-Request-Timestamp")
          (Canon.Object [("reason", Canon.Str "stale_timestamp")])))
      else if negb match signature with
                   | Some sig => verify_slack_signature secret (default "" timestamp) body sig
                   | None => false
                   end then
        mret (into_response (StatusError.with_details
          (StatusError.unauthorized "invalid Slack callback signature")
          (Canon.Object [("reason", Canon.Str "invalid_signature")])))
      else
        match extract_slack_payload_field body with
        | None => mret (into_response (StatusError.bad_request "missing or invalid 'payload' field"))
        | Some payload_json =>
            match parse_json payload_json with
            | Err e => mret (into_response (StatusError.bad_request
                                ("invalid 'payload' JSON: " +:+ e)))
            | Ok payload => slack_decide bot_token payload
            end
        end
  end.

(** ** The gRPC method *)

Context {W : WireExternal}.

(** [ApproverService::approve] of [grpc.rs]: no rate limit, no count of
    failures. *)
Definition grpc_approve (tenant_id approval_id approver_user_id reason : string) :
    Approve (Result (string * string) TonicStatus) :=
  let payload := {| apq_approver_user_id := approver_user_id;
                    apq_reason := if is_empty reason then None else Some reason |} in
  match uuid_parse approval_id with
  | None => mret (Err {| ts_code := InvalidArgument; ts_message := "Invalid approval_id UUID" |})
  | Some approval_uuid =>
      outcome ← approve_approval_inner tenant_id approval_uuid payload;
      mret (match outcome_to_tonic_json outcome with
            | Ok value => Ok (default "" (str_field "status" (Some value)),
                              default "" (str_field "approval_id" (Some value)))
            | Err e => Err e
            end)
  end.
End Slack.
End ApprovalApi.
