(* ===== verification/AgentApi.v ===== *)
(** * The agent API

    Models the handlers of [src/src/src/routes/agents.rs] that change an agent:
    registration, patch, delete, freeze, unfreeze, revoke, restore, token
    rotation, leak reports, tool and MCP-server permissions, as programs over
    the storage operations they call.  [Agents.v] has the tables; the handlers
    that only read (the listings, the scoreboard) are left out. *)

From S2P Require Import Prelude RustString Prog Canon Models Records External Runtime Bans Agents Service Pages Gateway ApprovalApi.

Record RegisterAgentRequest := {
  rga_agent_key : string;
  rga_name : string;
  rga_owner_team : option string;
  rga_environment : string;
  rga_framework : option string;
  rga_model_provider : option string;
  rga_model_name : option string;
  rga_risk_tier : string;
  rga_purpose : option string;
  rga_signing_key : option string;
  rga_allowed_environments : option (list string) }.

Record PatchAgentRequest := {
  pta_name : option string;
  pta_owner_team : option string;
  pta_owner_email : option string;
  pta_environment : option string;
  pta_framework : option string;
  pta_model_provider : option string;
  pta_model_name : option string;
  pta_purpose : option string;
  pta_risk_tier : option string;
  pta_status : option string;
  pta_mtls_cn : option string }.

Record ActiveResponseRequest := { arq_reason : option string; arq_comment : option string }.

Inductive AgentE : Type → Type :=
| AgGetByKey (tenant_id agent_key : string) : AgentE (Fallible (option AgentRecord))
| AgGetById (tenant_id id : string) : AgentE (Fallible (option AgentRecord))
| AgInsert (record : AgentRecord) : AgentE (Fallible unit)
| AgUpdate (record : AgentRecord) : AgentE (Fallible unit)
| AgSetStatus (tenant_id id status : string) : AgentE (Fallible bool)
| AgSetFrozenReason (tenant_id id : string) (reason : option string) : AgentE (Fallible unit)
| AgRotateToken (tenant_id id new_token : string) : AgentE (Fallible unit)
| AgGrantTool (tenant_id id tool_key : string) : AgentE (Fallible unit)
| AgRevokeTool (tenant_id id tool_key : string) : AgentE (Fallible bool)
| AgGrantServer (tenant_id id server_key : string) : AgentE (Fallible unit)
| AgRevokeServer (tenant_id id server_key : string) : AgentE (Fallible bool)
(** the tenant's row: [auto_rotate_token_on_leak_enabled] *)
| AgTenantRotates (tenant_id : string) : AgentE (Fallible (option bool))
| AgInsertAudit (record : AuditEventRecord) : AgentE (Fallible unit)
| AgEmit (event : AseEvent) : AgentE unit
| AgNow : AgentE DateTime
| AgUuid : AgentE Uuid.

Abbreviation OnAgents A := (prog AgentE A).

(** [Uuid::simple], the JSON of an agent as a value and as text, of a list of
    names, and SHA-256 of a token. *)
Class AgentExternal := {
  uuid_simple : Uuid → string;
  json_of_agent : AgentRecord → Canon.Value;
  json_text_of_agent : AgentRecord → string;
  json_text_of_names : list string → option string;
  agent_token_hash : string → string }.

Module AgentApi.
Section Api.
Context {X : External} {HX : HostExternal} {AX : ApprovalExternal} {GX : AgentExternal}.

Definition MAX_REASON_CHARS : Z := 1024.

Definition active_response_reason (request : option ActiveResponseRequest) : option string :=
  reason ← (q ← request; match arq_reason q with Some r => Some r | None => arq_comment q end);
  let reason := trim reason in
  if is_empty reason then None else Some (take_chars MAX_REASON_CHARS reason).

Definition agent_audit (tenant_id event_type : string) (agent_id action resource : option string)
    (event_json : string) (id : Uuid) (now : DateTime) : AuditEventRecord :=
  {| aud_id := uuid_to_string id; aud_tenant_id := tenant_id; aud_event_type := event_type;
     aud_agent_id := agent_id; aud_user_id := None; aud_run_id := None; aud_trace_id := None;
     aud_span_id := None; aud_skill := None; aud_action := action; aud_resource := resource;
     aud_event_json := event_json; aud_input_hash := None; aud_output_hash := None;
     aud_decision_id := None; aud_approval_id := None; aud_created_at := now |}.

(** The row is built, its id and time drawn, and inserted; a failure is only
    logged. *)
Definition insert_audit (tenant_id event_type : string) (agent_id action resource : option string)
    (event_json : string) : OnAgents unit :=
  id ← trigger AgUuid;
  now ← trigger AgNow;
  _ ← trigger (AgInsertAudit (agent_audit tenant_id event_type agent_id action resource event_json id now));
  mret tt.

Definition write_admin_action_audit_event (tenant_id action : string)
    (agent_id resource : option string) (details : Canon.Value) : OnAgents unit :=
  insert_audit tenant_id "admin_action" agent_id (Some action) resource (json_of_value details).

Definition not_found : Response := into_response (StatusError.not_found "Agent not found").
Definition database_error : Response := into_response (StatusError.internal "Database error").
Definition reply (v : Canon.Value) : Response := ApprovalApi.json_reply 200 v.

(** ** Registration *)

Definition register_response (id : Uuid) (agent_key token : string) : Canon.Value :=
  Canon.Object [("id", Canon.Str (uuid_to_string id)); ("agent_key", Canon.Str agent_key);
                ("agent_token", Canon.Str token)].

Definition json_outcome (status : Z) (v : Canon.Value) : AuthorizedOutcome :=
  {| ao_status := status; ao_body := AbJson v |}.

Definition fresh_token : OnAgents string :=
  id ← trigger AgUuid; mret ("agent_tok_" +:+ uuid_simple id).

Definition new_agent (tenant_id : string) (payload : RegisterAgentRequest) (token : string)
    (id : Uuid) (created updated : DateTime) : AgentRecord :=
  {| ar_id := uuid_to_string id; ar_tenant_id := tenant_id; ar_agent_key := rga_agent_key payload;
     ar_agent_token := agent_token_hash token; ar_name := rga_name payload;
     ar_owner_team := rga_owner_team payload; ar_owner_email := None;
     ar_environment := rga_environment payload; ar_framework := rga_framework payload;
     ar_model_provider := rga_model_provider payload; ar_model_name := rga_model_name payload;
     ar_purpose := rga_purpose payload; ar_risk_tier := rga_risk_tier payload;
     ar_status := "active"; ar_last_seen_at := None; ar_frozen_reason := None;
     ar_quarantined_at := None; ar_force_approval := false; ar_signing_key := rga_signing_key payload;
     ar_allowed_environments :=
       (envs ← rga_allowed_environments payload;
        match envs with [] => None | _ => json_text_of_names envs end);
     ar_mtls_cn := None; ar_created_at := created; ar_updated_at := updated |}.

Definition register_agent_inner (tenant_id : string) (payload : RegisterAgentRequest) :
    OnAgents AuthorizedOutcome :=
  r ← trigger (AgGetByKey tenant_id (rga_agent_key payload));
  match r with
  | Err _ => mret (status_error (StatusError.internal "Database error"))
  | Ok (Some agent) =>
      match uuid_parse (ar_id agent) with
      | None => mret (status_error (StatusError.internal "Database error"))
      | Some id =>
          new_token ← fresh_token;
          r ← trigger (AgRotateToken tenant_id (ar_id agent) new_token);
          mret (match r with
                | Err _ => status_error (StatusError.internal "Database error")
                | Ok _ => json_outcome 200 (register_response id (ar_agent_key agent) new_token)
                end)
      end
  | Ok None =>
      agent_token ← fresh_token;
      agent_id ← trigger AgUuid;
      created ← trigger AgNow;
      updated ← trigger AgNow;
      let record := new_agent tenant_id payload agent_token agent_id created updated in
      r ← trigger (AgInsert record);
      match r with
      | Err _ => mret (status_error (StatusError.internal "Database insert failed"))
      | Ok _ =>
          _ ← insert_audit tenant_id "agent_registered" (Some (uuid_to_string agent_id)) None None
                (json_text_of_agent record);
          mret (json_outcome 201 (register_response agent_id (ar_agent_key record) agent_token))
      end
  end.

Definition register_agent (tenant_id : string) (payload : RegisterAgentRequest) : OnAgents Response :=
  o ← register_agent_inner tenant_id payload; mret (outcome_to_response o).

(** ** Patch and delete *)

Definition patched (p : PatchAgentRequest) (a : AgentRecord) : AgentRecord :=
  let over (o d : option string) := match o with Some _ => o | None => d end in
  {| ar_id := ar_id a; ar_tenant_id := ar_tenant_id a; ar_agent_key := ar_agent_key a;
     ar_agent_token := ar_agent_token a; ar_name := default (ar_name a) (pta_name p);
     ar_owner_team := over (pta_owner_team p) (ar_owner_team a);
     ar_owner_email := over (pta_owner_email p) (ar_owner_email a);
     ar_environment := default (ar_environment a) (pta_environment p);
     ar_framework := over (pta_framework p) (ar_framework a);
     ar_model_provider := over (pta_model_provider p) (ar_model_provider a);
     ar_model_name := over (pta_model_name p) (ar_model_name a);
     ar_purpose := over (pta_purpose p) (ar_purpose a);
     ar_risk_tier := default (ar_risk_tier a) (pta_risk_tier p);
     ar_status := default (ar_status a) (pta_status p); ar_last_seen_at := ar_last_seen_at a;
     ar_frozen_reason := ar_frozen_reason a; ar_quarantined_at := ar_quarantined_at a;
     ar_force_approval := ar_force_approval a; ar_signing_key := ar_signing_key a;
     ar_allowed_environments := ar_allowed_environments a;
     ar_mtls_cn := over (pta_mtls_cn p) (ar_mtls_cn a);
     ar_created_at := ar_created_at a; ar_updated_at := ar_updated_at a |}.

Definition patch_agent (tenant_id id : string) (payload : PatchAgentRequest) : OnAgents Response :=
  r ← trigger (AgGetById tenant_id id);
  match r with
  | Err _ => mret database_error
  | Ok None => mret not_found
  | Ok (Some agent) =>
      let agent := patched payload agent in
      r ← trigger (AgUpdate agent);
      mret (match r with Ok _ => reply (json_of_agent agent) | Err _ => database_error end)
  end.

Definition delete_agent (tenant_id id : string) : OnAgents Response :=
  r ← trigger (AgSetStatus tenant_id id "deleted");
  match r with
  | Err _ => mret database_error
  | Ok false => mret not_found
  | Ok true =>
      _ ← write_admin_action_audit_event tenant_id "agent_deleted" (Some id) None
            (Canon.Object [("agent_id", Canon.Str id)]);
      mret (reply (Canon.Object [("message", Canon.Str "Agent successfully deleted")]))
  end.

(** ** Active response *)

Definition set_agent_operational_status (tenant_id agent_id status audit_action : string)
    (reason : option string) : OnAgents Response :=
  r ← trigger (AgSetStatus tenant_id agent_id status);
  match r with
  | Err _ => mret database_error
  | Ok false => mret not_found
  | Ok true =>
      _ ← insert_audit tenant_id audit_action (Some agent_id) (Some audit_action) None
            (json_of_value (Canon.Object
               [("agent_id", Canon.Str agent_id); ("new_status", Canon.Str status);
                ("action", Canon.Str audit_action); ("reason", ApprovalApi.opt_json reason)]));
      mret (reply (Canon.Object
        [("status", Canon.Str status); ("action", Canon.Str audit_action);
         ("reason_recorded", Canon.Bool (bool_decide (is_Some reason)));
         ("agent_id", Canon.Str agent_id)]))
  end.

Definition freeze_agent (tenant_id agent_id : string) (body : option ActiveResponseRequest) :
    OnAgents Response :=
  let reason := active_response_reason body in
  resp ← set_agent_operational_status tenant_id agent_id "frozen" "agent_frozen" reason;
  if (rp_status resp =? 200)%Z then
    _ ← trigger (AgSetFrozenReason tenant_id agent_id reason); mret resp
  else mret resp.

Definition unfreeze_agent (tenant_id agent_id : string) (body : option ActiveResponseRequest) :
    OnAgents Response :=
  set_agent_operational_status tenant_id agent_id "active" "agent_unfrozen" (active_response_reason body).

Definition revoke_agent (tenant_id agent_id : string) (body : option ActiveResponseRequest) :
    OnAgents Response :=
  set_agent_operational_status tenant_id agent_id "revoked" "agent_revoked" (active_response_reason body).

Definition restore_agent (tenant_id agent_id : string) (body : option ActiveResponseRequest) :
    OnAgents Response :=
  set_agent_operational_status tenant_id agent_id "active" "agent_restored" (active_response_reason body).

(** ** Tokens *)

Definition rotate_and_audit_agent_token (tenant_id agent_id reason : string) :
    OnAgents (Fallible string) :=
  new_token ← fresh_token;
  _ ←? trigger (AgRotateToken tenant_id agent_id new_token);
  _ ← insert_audit tenant_id "agent_token_rotated" (Some agent_id) (Some "agent_token_rotated") None
        (json_of_value (Canon.Object [("reason", Canon.Str reason)]));
  mret (Ok new_token).

(** [f] when the agent is there. *)
Definition with_agent (tenant_id agent_id : string) (f : OnAgents Response) : OnAgents Response :=
  r ← trigger (AgGetById tenant_id agent_id);
  match r with
  | Err _ => mret database_error
  | Ok None => mret not_found
  | Ok (Some _) => f
  end.

Definition rotate_agent_token (tenant_id agent_id : string) (reason : option string) :
    OnAgents Response :=
  with_agent tenant_id agent_id
    (r ← rotate_and_audit_agent_token tenant_id agent_id (default "manual_rotation" reason);
     mret (match r with
           | Ok new_token => reply (Canon.Object [("agent_id", Canon.Str agent_id);
                                                  ("agent_token", Canon.Str new_token)])
           | Err _ => database_error
           end)).

Definition leak_event (tenant_id agent_id reason : string) (id : Uuid) (at_ : DateTime) : AseEvent :=
  {| ase_event_id := uuid_to_string id; ase_occurred_at := to_rfc3339 at_;
     ase_tenant_id := tenant_id; ase_kind := "agent_token_leak_detected"; ase_agent_id := agent_id;
     ase_decision := "allow"; ase_tool := ""; ase_action := ""; ase_resource := None;
     ase_risk_score := 0; ase_reason := reason; ase_run_id := None; ase_trace_id := None;
     ase_matched_policies := []; ase_redacted_fields := []; ase_schema_version := 1;
     ase_evidence := None; ase_prompt_injection := None; ase_rag_poisoning := None |}.

Definition report_leak (tenant_id agent_id reason : string) (new_token : option string) :
    OnAgents Response :=
  id ← trigger AgUuid;
  now ← trigger AgNow;
  _ ← trigger (AgEmit (leak_event tenant_id agent_id reason id now));
  mret (reply (Canon.Object [("agent_id", Canon.Str agent_id);
                             ("rotated", Canon.Bool (bool_decide (is_Some new_token)));
                             ("agent_token", ApprovalApi.opt_json new_token)])).

Definition report_leaked_agent_token (tenant_id agent_id reason : string) : OnAgents Response :=
  with_agent tenant_id agent_id
    (r ← trigger (AgTenantRotates tenant_id);
     match r with
     | Err _ => mret database_error
     | Ok row =>
         if default true row then
           r ← rotate_and_audit_agent_token tenant_id agent_id ("leak_detected: " +:+ reason);
           match r with
           | Err _ => mret database_error
           | Ok token => report_leak tenant_id agent_id reason (Some token)
           end
         else
           _ ← insert_audit tenant_id "agent_token_leak_detected_no_rotation" (Some agent_id)
                 (Some "agent_token_leak_detected_no_rotation") None
                 (json_of_value (Canon.Object [("reason", Canon.Str reason)]));
           report_leak tenant_id agent_id reason None
     end).

(** ** Permissions *)

Definition grant_agent_tool_permission (tenant_id agent_id tool_key : string) : OnAgents Response :=
  with_agent tenant_id agent_id
    (r ← trigger (AgGrantTool tenant_id agent_id tool_key);
     mret (match r with
           | Ok _ => reply (Canon.Object [("agent_id", Canon.Str agent_id); ("tool_key", Canon.Str tool_key);
                                          ("granted", Canon.Bool true)])
           | Err _ => database_error
           end)).

Definition grant_agent_mcp_server_permission (tenant_id agent_id server_key : string) :
    OnAgents Response :=
  with_agent tenant_id agent_id
    (r ← trigger (AgGrantServer tenant_id agent_id server_key);
     mret (match r with
           | Ok _ => reply (Canon.Object [("agent_id", Canon.Str agent_id); ("server_key", Canon.Str server_key);
                                          ("granted", Canon.Bool true)])
           | Err _ => database_error
           end)).

Definition revoke_permission (tenant_id agent_id field key action : string)
    (revoked : AgentE (Fallible bool)) : OnAgents Response :=
  r ← trigger revoked;
  match r with
  | Err _ => mret database_error
  | Ok false => mret (into_response (StatusError.not_found "Permission not found"))
  | Ok true =>
      _ ← write_admin_action_audit_event tenant_id action (Some agent_id) (Some key)
            (Canon.Object [("agent_id", Canon.Str agent_id); (field, Canon.Str key)]);
      mret (reply (Canon.Object [("agent_id", Canon.Str agent_id); (field, Canon.Str key);
                                 ("revoked", Canon.Bool true)]))
  end.

Definition revoke_agent_tool_permission (tenant_id agent_id tool_key : string) : OnAgents Response :=
  revoke_permission tenant_id agent_id "tool_key" tool_key "agent_tool_permission_revoked"
    (AgRevokeTool tenant_id agent_id tool_key).

Definition revoke_agent_mcp_server_permission (tenant_id agent_id server_key : string) :
    OnAgents Response :=
  revoke_permission tenant_id agent_id "server_key" server_key "agent_mcp_server_permission_revoked"
    (AgRevokeServer tenant_id agent_id server_key).
End Api.
End AgentApi.
