(* ===== verification/McpStore.v ===== *)
(** * MCP servers, tools and manifests in storage

    Models [src/lib/storage/src/db/mcp.rs] with the two tables of registered
    actions it writes ([insert_skill], [insert_skill_action] and
    [get_skill_action] of [db/agents.rs]) and the composition of three
    statements in [update_mcp_server] of [sqlite.rs].  A statement is the
    function on the rows it denotes; a table is the list of its rows in
    insertion order.  A deleted server keeps its row, with [deleted_at] set. *)

From S2P Require Import Prelude RustString Canon Models Records Bans.

Record McpToolManifestItem := {
  mti_tool_key : string;
  mti_name : string;
  mti_description : option string;
  mti_input_schema : option Canon.Value;
  mti_risk : string;
  mti_mutates_state : bool;
  mti_approval_required : bool }.

Record McpManifestSnapshotRecord := {
  mss_id : string;
  mss_tenant_id : string;
  mss_server_key : string;
  mss_manifest_hash : string;
  mss_manifest_json : string;
  mss_created_at : DateTime }.

(** A row of [mcp_servers]: the record and the column it does not have. *)
Record McpServerRow := { msw_record : McpServerRecord; msw_deleted_at : option DateTime }.

(** A row of [skills]. *)
Record SkillRecord := {
  skr_id : string;
  skr_tenant_id : string;
  skr_skill_key : string;
  skr_name : string;
  skr_type : string;
  skr_auth_type : option string;
  skr_owner_team : option string;
  skr_default_risk : option string;
  skr_created_at : DateTime }.

Record McpTables := {
  mt_servers : list McpServerRow;
  mt_tools : list McpToolRecord;
  mt_snapshots : list McpManifestSnapshotRecord;
  mt_skills : list SkillRecord;
  mt_actions : list SkillActionRecord }.

Module McpStore.
Section Store.
(** [serde_json::Value::to_string] of an input schema. *)
Context (schema_to_string : Canon.Value → string).

Definition same_server (tenant_id server_key : string) (r : McpServerRow) : bool :=
  (msr_tenant_id (msw_record r) == tenant_id) && (msr_server_key (msw_record r) == server_key).
Definition not_deleted (r : McpServerRow) : bool := bool_decide (msw_deleted_at r = None).

Definition with_servers (servers : list McpServerRow) (m : McpTables) : McpTables :=
  {| mt_servers := servers; mt_tools := mt_tools m; mt_snapshots := mt_snapshots m;
     mt_skills := mt_skills m; mt_actions := mt_actions m |}.
Definition with_tools (tools : list McpToolRecord) (m : McpTables) : McpTables :=
  {| mt_servers := mt_servers m; mt_tools := tools; mt_snapshots := mt_snapshots m;
     mt_skills := mt_skills m; mt_actions := mt_actions m |}.

(** ** Lookups *)

Definition get_mcp_server_by_key (m : McpTables) (tenant_id server_key : string) :
    option McpServerRecord :=
  msw_record <$> find (λ r, same_server tenant_id server_key r && not_deleted r) (mt_servers m).

(** [SELECT id FROM mcp_servers WHERE tenant_id = ? AND server_key = ?]: this
    does not look at [deleted_at]. *)
Definition server_id_of (m : McpTables) (tenant_id server_key : string) : option string :=
  msr_id ∘ msw_record <$> find (same_server tenant_id server_key) (mt_servers m).

(** The join of [list_mcp_tools] and [get_mcp_tool_by_key], without
    [deleted_at] either. *)
Definition tool_of_server (m : McpTables) (tenant_id server_key : string) (t : McpToolRecord) : bool :=
  (mtr_tenant_id t == tenant_id) &&
  existsb (λ r, (msr_id (msw_record r) == mtr_server_id t) &&
                (msr_tenant_id (msw_record r) == mtr_tenant_id t) &&
                (msr_server_key (msw_record r) == server_key)) (mt_servers m).

Definition get_mcp_tool_by_key (m : McpTables) (tenant_id server_key tool_key : string) :
    option McpToolRecord :=
  find (λ t, tool_of_server m tenant_id server_key t && (mtr_tool_key t == tool_key)) (mt_tools m).

(** [ORDER BY mt.tool_key ASC] *)
Definition list_mcp_tools (m : McpTables) (tenant_id server_key : string) : list McpToolRecord :=
  map snd (Canon.sort_by_key
    (map (λ t, (mtr_tool_key t, t)) (filter (λ t, tool_of_server m tenant_id server_key t = true) (mt_tools m)))).

(** ** Statements on one server *)

Definition with_record (f : McpServerRecord → McpServerRecord) (r : McpServerRow) : McpServerRow :=
  {| msw_record := f (msw_record r); msw_deleted_at := msw_deleted_at r |}.

Definition update_server (m : McpTables) (tenant_id server_key : string)
    (f : McpServerRow → McpServerRow) : bool * McpTables :=
  let '(n, rows) := update_rows (same_server tenant_id server_key) f (mt_servers m) in
  ((0 <? n)%nat, with_servers rows m).

Definition set_hash (hash : string) (r : McpServerRecord) : McpServerRecord :=
  {| msr_id := msr_id r; msr_tenant_id := msr_tenant_id r; msr_server_key := msr_server_key r;
     msr_name := msr_name r; msr_owner_team := msr_owner_team r; msr_transport := msr_transport r;
     msr_source := msr_source r; msr_trust_level := msr_trust_level r;
     msr_endpoint := msr_endpoint r; msr_version := msr_version r; msr_status := msr_status r;
     msr_manifest_hash := hash; msr_last_discovery_at := msr_last_discovery_at r;
     msr_inspection_enabled := msr_inspection_enabled r;
     msr_manifest_signing_public_key := msr_manifest_signing_public_key r;
     msr_created_at := msr_created_at r |}.
Definition set_discovery (now : DateTime) (r : McpServerRecord) : McpServerRecord :=
  {| msr_id := msr_id r; msr_tenant_id := msr_tenant_id r; msr_server_key := msr_server_key r;
     msr_name := msr_name r; msr_owner_team := msr_owner_team r; msr_transport := msr_transport r;
     msr_source := msr_source r; msr_trust_level := msr_trust_level r;
     msr_endpoint := msr_endpoint r; msr_version := msr_version r; msr_status := msr_status r;
     msr_manifest_hash := msr_manifest_hash r; msr_last_discovery_at := Some now;
     msr_inspection_enabled := msr_inspection_enabled r;
     msr_manifest_signing_public_key := msr_manifest_signing_public_key r;
     msr_created_at := msr_created_at r |}.
Definition set_inspection (enabled : bool) (r : McpServerRecord) : McpServerRecord :=
  {| msr_id := msr_id r; msr_tenant_id := msr_tenant_id r; msr_server_key := msr_server_key r;
     msr_name := msr_name r; msr_owner_team := msr_owner_team r; msr_transport := msr_transport r;
     msr_source := msr_source r; msr_trust_level := msr_trust_level r;
     msr_endpoint := msr_endpoint r; msr_version := msr_version r; msr_status := msr_status r;
     msr_manifest_hash := msr_manifest_hash r; msr_last_discovery_at := msr_last_discovery_at r;
     msr_inspection_enabled := enabled;
     msr_manifest_signing_public_key := msr_manifest_signing_public_key r;
     msr_created_at := msr_created_at r |}.

Definition set_mcp_server_manifest_hash (m : McpTables) (tenant_id server_key hash : string) : McpTables :=
  (update_server m tenant_id server_key (with_record (set_hash hash))).2.

Definition touch_mcp_server_discovery (m : McpTables) (tenant_id server_key : string)
    (now : DateTime) : McpTables :=
  (update_server m tenant_id server_key (with_record (set_discovery now))).2.

Definition set_mcp_server_inspection_enabled (m : McpTables) (tenant_id server_key : string)
    (enabled : bool) : bool * McpTables :=
  update_server m tenant_id server_key (with_record (set_inspection enabled)).

Definition delete_mcp_server (m : McpTables) (tenant_id server_key : string) (now : DateTime) :
    bool * McpTables :=
  let '(n, rows) := update_rows (λ r, same_server tenant_id server_key r && not_deleted r)
                      (λ r, {| msw_record := msw_record r; msw_deleted_at := Some now |}) (mt_servers m) in
  ((0 <? n)%nat, with_servers rows m).

(** [INSERT ... ON CONFLICT(tenant_id, server_key) DO UPDATE].  The columns
    [manifest_hash], [last_discovery_at] and [created_at] are left out: they
    keep their value, or take their default in a new row.  [None]: the id is
    taken. *)
Definition excluded (now : DateTime) (old : option McpServerRow) (rec : McpServerRecord) : McpServerRow :=
  {| msw_record := {|
       msr_id := match old with Some o => msr_id (msw_record o) | None => msr_id rec end;
       msr_tenant_id := msr_tenant_id rec; msr_server_key := msr_server_key rec;
       msr_name := msr_name rec; msr_owner_team := msr_owner_team rec;
       msr_transport := msr_transport rec; msr_source := msr_source rec;
       msr_trust_level := msr_trust_level rec; msr_endpoint := msr_endpoint rec;
       msr_version := msr_version rec; msr_status := msr_status rec;
       msr_manifest_hash := match old with Some o => msr_manifest_hash (msw_record o) | None => "" end;
       msr_last_discovery_at := o ← old; msr_last_discovery_at (msw_record o);
       msr_inspection_enabled := msr_inspection_enabled rec;
       msr_manifest_signing_public_key := msr_manifest_signing_public_key rec;
       msr_created_at := match old with Some o => msr_created_at (msw_record o) | None => now end |};
     msw_deleted_at := None |}.

Definition register_mcp_server (m : McpTables) (rec : McpServerRecord) (now : DateTime) :
    option McpTables :=
  let same := same_server (msr_tenant_id rec) (msr_server_key rec) in
  if existsb (λ r, msr_id (msw_record r) == msr_id rec) (mt_servers m) then None
  else if existsb same (mt_servers m) then
    Some (with_servers (update_rows same (λ r, excluded now (Some r) rec) (mt_servers m)).2 m)
  else Some (with_servers (mt_servers m ++ [excluded now None rec]) m).

(** ** [update_mcp_server] *)

Record McpServerPatch := {
  mpt_name : option string;
  mpt_owner_team : option (option string);
  mpt_transport : option string;
  mpt_source : option (option string);
  mpt_trust_level : option string;
  mpt_endpoint : option string;
  mpt_status : option string;
  mpt_inspection_enabled : option bool;
  mpt_manifest_signing_public_key : option (option string) }.

Definition only_status (status : string) : McpServerPatch :=
  {| mpt_name := None; mpt_owner_team := None; mpt_transport := None; mpt_source := None;
     mpt_trust_level := None; mpt_endpoint := None; mpt_status := Some status;
     mpt_inspection_enabled := None; mpt_manifest_signing_public_key := None |}.

Definition patched (p : McpServerPatch) (r : McpServerRecord) : McpServerRecord :=
  {| msr_id := msr_id r; msr_tenant_id := msr_tenant_id r; msr_server_key := msr_server_key r;
     msr_name := default (msr_name r) (mpt_name p);
     msr_owner_team := default (msr_owner_team r) (mpt_owner_team p);
     msr_transport := default (msr_transport r) (mpt_transport p);
     msr_source := default (msr_source r) (mpt_source p);
     msr_trust_level := default (msr_trust_level r) (mpt_trust_level p);
     msr_endpoint := default (msr_endpoint r) (mpt_endpoint p); msr_version := msr_version r;
     msr_status := default (msr_status r) (mpt_status p);
     msr_manifest_hash := msr_manifest_hash r; msr_last_discovery_at := msr_last_discovery_at r;
     msr_inspection_enabled := msr_inspection_enabled r;
     msr_manifest_signing_public_key :=
       default (msr_manifest_signing_public_key r) (mpt_manifest_signing_public_key p);
     msr_created_at := msr_created_at r |}.

(** [bindings.is_empty()] *)
Definition nothing_bound (p : McpServerPatch) : bool :=
  bool_decide (mpt_name p = None) && bool_decide (mpt_owner_team p = None) &&
  bool_decide (mpt_transport p = None) && bool_decide (mpt_source p = None) &&
  bool_decide (mpt_trust_level p = None) && bool_decide (mpt_endpoint p = None) &&
  bool_decide (mpt_status p = None) && bool_decide (mpt_manifest_signing_public_key p = None).

Definition update_columns (m : McpTables) (tenant_id server_key : string) (p : McpServerPatch) :
    bool * McpTables :=
  if nothing_bound p then (false, m)
  else update_server m tenant_id server_key (with_record (patched p)).

(** The method of the storage trait: the columns, the inspection switch, and
    the row as it is then. *)
Definition update_mcp_server (m : McpTables) (tenant_id server_key : string) (p : McpServerPatch) :
    option McpServerRecord * McpTables :=
  let m := (update_columns m tenant_id server_key p).2 in
  let m := match mpt_inspection_enabled p with
           | Some enabled => (set_mcp_server_inspection_enabled m tenant_id server_key enabled).2
           | None => m
           end in
  (get_mcp_server_by_key m tenant_id server_key, m).

(** ** Tools and their registered actions *)

Definition same_tool (tenant_id server_id tool_key : string) (t : McpToolRecord) : bool :=
  (mtr_tenant_id t == tenant_id) && (mtr_server_id t == server_id) && (mtr_tool_key t == tool_key).

Definition tool_row (id tenant_id server_id : string) (tool : McpToolManifestItem)
    (created now : DateTime) : McpToolRecord :=
  {| mtr_id := id; mtr_tenant_id := tenant_id; mtr_server_id := server_id;
     mtr_tool_key := mti_tool_key tool; mtr_name := mti_name tool;
     mtr_description := mti_description tool;
     mtr_input_schema := schema_to_string <$> mti_input_schema tool; mtr_risk := mti_risk tool;
     mtr_mutates_state := mti_mutates_state tool;
     mtr_approval_required := mti_approval_required tool; mtr_status := "pending";
     mtr_created_at := created; mtr_updated_at := now |}.

(** [None]: the id is taken. *)
Definition upsert_mcp_tool (m : McpTables) (tenant_id server_id : string) (tool : McpToolManifestItem)
    (id : string) (now : DateTime) : option McpTables :=
  let same := same_tool tenant_id server_id (mti_tool_key tool) in
  if existsb (λ t, mtr_id t == id) (mt_tools m) then None
  else if existsb same (mt_tools m) then
    Some (with_tools (update_rows same
            (λ t, tool_row (mtr_id t) tenant_id server_id tool (mtr_created_at t) now) (mt_tools m)).2 m)
  else Some (with_tools (mt_tools m ++ [tool_row id tenant_id server_id tool now now]) m).

Definition with_tool_status (status : string) (now : DateTime) (t : McpToolRecord) : McpToolRecord :=
  {| mtr_id := mtr_id t; mtr_tenant_id := mtr_tenant_id t; mtr_server_id := mtr_server_id t;
     mtr_tool_key := mtr_tool_key t; mtr_name := mtr_name t; mtr_description := mtr_description t;
     mtr_input_schema := mtr_input_schema t; mtr_risk := mtr_risk t;
     mtr_mutates_state := mtr_mutates_state t; mtr_approval_required := mtr_approval_required t;
     mtr_status := status; mtr_created_at := mtr_created_at t; mtr_updated_at := now |}.

Definition set_mcp_tool_status (m : McpTables) (tenant_id server_key tool_key status : string)
    (now : DateTime) : bool * McpTables :=
  let sel t := (mtr_tenant_id t == tenant_id) && (mtr_tool_key t == tool_key) &&
               match server_id_of m tenant_id server_key with
               | Some id => mtr_server_id t == id
               | None => false
               end in
  let '(n, rows) := update_rows sel (with_tool_status status now) (mt_tools m) in
  ((0 <? n)%nat, with_tools rows m).

Definition same_skill (tenant_id skill_key : string) (r : SkillRecord) : bool :=
  (skr_tenant_id r == tenant_id) && (skr_skill_key r == skill_key).

(** The id of the row, existing or new; [None]: the id is taken. *)
Definition insert_skill (m : McpTables) (tenant_id skill_key name type : string)
    (auth_type owner_team default_risk : option string) (id : string) (now : DateTime) :
    option (string * McpTables) :=
  let row i created :=
    {| skr_id := i; skr_tenant_id := tenant_id; skr_skill_key := skill_key; skr_name := name;
       skr_type := type; skr_auth_type := auth_type; skr_owner_team := owner_team;
       skr_default_risk := default_risk; skr_created_at := created |} in
  let set rows := {| mt_servers := mt_servers m; mt_tools := mt_tools m;
                     mt_snapshots := mt_snapshots m; mt_skills := rows; mt_actions := mt_actions m |} in
  if existsb (λ r, skr_id r == id) (mt_skills m) then None
  else match find (same_skill tenant_id skill_key) (mt_skills m) with
       | Some old =>
           Some (skr_id old, set (update_rows (same_skill tenant_id skill_key)
                                    (λ r, row (skr_id r) (skr_created_at r)) (mt_skills m)).2)
       | None => Some (id, set (mt_skills m ++ [row id now]))
       end.

Definition same_action (skill_id action_key : string) (r : SkillActionRecord) : bool :=
  (sar_skill_id r == skill_id) && (sar_action_key r == action_key).

Definition insert_skill_action (m : McpTables) (skill_id action_key : string)
    (description : option string) (risk : string) (mutates_state : bool) (data_access : option string)
    (approval_required : bool) (default_decision : string) (id : string) (now : DateTime) :
    option McpTables :=
  let row i created :=
    {| sar_id := i; sar_skill_id := skill_id; sar_action_key := action_key;
       sar_description := description; sar_risk := risk; sar_mutates_state := mutates_state;
       sar_data_access := data_access; sar_approval_required := approval_required;
       sar_default_decision := default_decision; sar_created_at := created |} in
  let set rows := {| mt_servers := mt_servers m; mt_tools := mt_tools m;
                     mt_snapshots := mt_snapshots m; mt_skills := mt_skills m; mt_actions := rows |} in
  let same := same_action skill_id action_key in
  if existsb (λ r, sar_id r == id) (mt_actions m) then None
  else if existsb same (mt_actions m) then
    Some (set (update_rows same (λ r, row (sar_id r) (sar_created_at r)) (mt_actions m)).2)
  else Some (set (mt_actions m ++ [row id now])).

Definition get_skill_action (m : McpTables) (tenant_id skill_key action_key : string) :
    option SkillActionRecord :=
  find (λ a, (sar_action_key a == action_key) &&
             existsb (λ s, (skr_id s == sar_skill_id a) && same_skill tenant_id skill_key s) (mt_skills m))
    (mt_actions m).

Definition discover_tool (tenant_id server_id skill_id : string) (tool : McpToolManifestItem)
    (ids : string * string) (now : DateTime) (m : McpTables) : option McpTables :=
  m ← upsert_mcp_tool m tenant_id server_id tool ids.1 now;
  insert_skill_action m skill_id (mti_tool_key tool) (mti_description tool) (mti_risk tool)
    (mti_mutates_state tool) None (mti_approval_required tool)
    (if mti_approval_required tool then "require_approval" else "policy") ids.2 now.

(** The statements are not in one transaction: the tables are given also when
    one fails, as the statements before it left them. *)
Fixpoint discover_each (tenant_id server_id skill_id : string) (tools : list McpToolManifestItem)
    (ids : list (string * string)) (now : DateTime) (m : McpTables) : bool * McpTables :=
  match tools, ids with
  | tool :: tools, i :: ids =>
      match discover_tool tenant_id server_id skill_id tool i now m with
      | Some m => discover_each tenant_id server_id skill_id tools ids now m
      | None => (false, default m (upsert_mcp_tool m tenant_id server_id tool i.1 now))
      end
  | _, _ => (true, m)
  end.

Definition discover_mcp_tools (m : McpTables) (tenant_id server_key : string)
    (tools : list McpToolManifestItem) (skill_id : string) (ids : list (string * string))
    (now : DateTime) : option (list McpToolRecord) * McpTables :=
  match get_mcp_server_by_key m tenant_id server_key with
  | None => (None, m)
  | Some server =>
      match insert_skill m tenant_id ("mcp:" +:+ server_key) (msr_name server) "mcp" None
              (msr_owner_team server) None skill_id now with
      | None => (None, m)
      | Some (skill_id, m) =>
          let '(ok, m) := discover_each tenant_id (msr_id server) skill_id tools ids now m in
          (if ok then Some (list_mcp_tools m tenant_id server_key) else None, m)
      end
  end.

(** ** Manifest snapshots *)

Definition insert_mcp_manifest_snapshot (m : McpTables)
    (tenant_id server_key hash json id : string) (now : DateTime) : option McpTables :=
  if existsb (λ r, mss_id r == id) (mt_snapshots m) then None
  else Some {| mt_servers := mt_servers m; mt_tools := mt_tools m;
               mt_snapshots := mt_snapshots m ++ [{|
                 mss_id := id; mss_tenant_id := tenant_id; mss_server_key := server_key;
                 mss_manifest_hash := hash; mss_manifest_json := json; mss_created_at := now |}];
               mt_skills := mt_skills m; mt_actions := mt_actions m |}.

(** The latest first; of two at the same time, the one inserted later, as the
    index on the three columns is walked backwards. *)
Fixpoint insert_latest (r : McpManifestSnapshotRecord) (l : list McpManifestSnapshotRecord) :
    list McpManifestSnapshotRecord :=
  match l with
  | [] => [r]
  | r' :: l' => if (mss_created_at r' <=? mss_created_at r)%Z then r :: l else r' :: insert_latest r l'
  end.

Definition list_mcp_manifest_snapshots (m : McpTables) (tenant_id server_key : string) (limit : Z) :
    list McpManifestSnapshotRecord :=
  take (Z.to_nat limit) (foldl (λ l r, insert_latest r l) []
    (filter (λ r, ((mss_tenant_id r == tenant_id) && (mss_server_key r == server_key)) = true)
       (mt_snapshots m))).

Definition get_mcp_server_by_id (m : McpTables) (tenant_id server_id : string) : option McpServerRecord :=
  msw_record <$> find (λ r, (msr_tenant_id (msw_record r) == tenant_id) &&
                            (msr_id (msw_record r) == server_id) && not_deleted r) (mt_servers m).

Definition set_mcp_server_status (m : McpTables) (tenant_id server_key status : string) :
    bool * McpTables :=
  update_server m tenant_id server_key (with_record (patched (only_status status))).
End Store.
End McpStore.

(** ** The tables as maps

    A server is found by its tenant and key and a tool by its server's id and
    its key: [server_row] and [tool_row].  Each statement changes at most one
    entry of these maps. *)

Module McpView.
Import McpStore.

Definition server_row (m : McpTables) (tenant_id server_key : string) : option McpServerRow :=
  find (same_server tenant_id server_key) (mt_servers m).
Definition tool_row_of (m : McpTables) (tenant_id server_id tool_key : string) : option McpToolRecord :=
  find (same_tool tenant_id server_id tool_key) (mt_tools m).

Definition row_id (r : McpServerRow) : string := msr_id (msw_record r).
Definition row_key (r : McpServerRow) : string * string :=
  (msr_tenant_id (msw_record r), msr_server_key (msw_record r)).

(** The constraints of the tables: the primary key and the unique pair of
    [mcp_servers], and the foreign key of [mcp_tools]. *)
Record wf (m : McpTables) : Prop := {
  wf_ids : NoDup (map row_id (mt_servers m));
  wf_keys : NoDup (map row_key (mt_servers m));
  wf_tools : ∀ t, t ∈ mt_tools m → mtr_server_id t ∈ map row_id (mt_servers m) }.

Lemma same_server_iff t k r : same_server t k r = true ↔ row_key r = (t, k).
Proof.
  unfold same_server, row_key. rewrite andb_true_iff, !eqb_spec_true.
  split; [by intros [-> ->]|by intros [= -> ->]].
Qed.

Lemma server_row_Some m t k r : server_row m t k = Some r → r ∈ mt_servers m ∧ row_key r = (t, k).
Proof. intros [Hin Hs]%find_some. split; [by apply list_elem_of_In|by apply same_server_iff]. Qed.

Lemma server_row_in m t k r : r ∈ mt_servers m → row_key r = (t, k) → is_Some (server_row m t k).
Proof.
  intros Hin Hk. destruct (server_row m t k) eqn:Hr; [done|].
  eapply find_none in Hr; [|by apply list_elem_of_In]. apply same_server_iff in Hk. congruence.
Qed.

Lemma server_row_unique m t k r :
  wf m → r ∈ mt_servers m → row_key r = (t, k) → server_row m t k = Some r.
Proof.
  intros [_ Hnd _] Hin Hk. destruct (server_row_in m t k r Hin Hk) as [r' Hr]. rewrite Hr. f_equal.
  apply server_row_Some in Hr as [Hin' Hk']. eapply NoDup_map_inj; eauto. congruence.
Qed.

Lemma get_server_view m t k :
  wf m → get_mcp_server_by_key m t k =
  (r ← server_row m t k; if not_deleted r then Some (msw_record r) else None).
Proof.
  intros Hwf. unfold get_mcp_server_by_key.
  destruct (find (λ r, same_server t k r && not_deleted r) (mt_servers m)) as [r|] eqn:Hf; simpl.
  - apply find_some in Hf as [Hin [Hs Hn]%andb_true_iff].
    rewrite (server_row_unique m t k r Hwf); [simpl; by rewrite Hn|by apply list_elem_of_In|].
    by apply same_server_iff.
  - destruct (server_row m t k) as [r|] eqn:Hr; [|done]. simpl.
    apply server_row_Some in Hr as [Hin Hs%same_server_iff].
    eapply find_none in Hf; [|by apply list_elem_of_In]. rewrite Hs in Hf. simpl in Hf. by rewrite Hf.
Qed.

(** The join picks the tools of the one server with that key. *)
Lemma tool_of_server_view m t k x :
  wf m → tool_of_server m t k x =
  (mtr_tenant_id x == t) &&
  match server_row m t k with Some r => mtr_server_id x == row_id r | None => false end.
Proof.
  intros Hwf. unfold tool_of_server. destruct (mtr_tenant_id x == t) eqn:Ht; [|done]. simpl. str_eq.
  apply eq_true_iff_eq. rewrite existsb_exists. split.
  - intros (r & Hin & Hr). rewrite !andb_true_iff, !eqb_spec_true in Hr. destruct Hr as [[Hid Hten] Hk].
    rewrite (server_row_unique m (mtr_tenant_id x) k r Hwf); [by rewrite eqb_spec_true| |].
    + by apply list_elem_of_In.
    + unfold row_key. congruence.
  - destruct (server_row m (mtr_tenant_id x) k) as [r|] eqn:Hr; [|done].
    rewrite eqb_spec_true. intros Hid. apply server_row_Some in Hr as [Hin [= Hten Hk]].
    exists r. split; [by apply list_elem_of_In|]. rewrite !andb_true_iff, !eqb_spec_true. done.
Qed.

Lemma get_tool_view m t k key :
  wf m → get_mcp_tool_by_key m t k key = (r ← server_row m t k; tool_row_of m t (row_id r) key).
Proof.
  intros Hwf. unfold get_mcp_tool_by_key, tool_row_of.
  destruct (server_row m t k) as [r|] eqn:Hr; simpl.
  - induction (mt_tools m) as [|x l IH]; [done|]. simpl.
    rewrite (tool_of_server_view m t k x Hwf), Hr. unfold same_tool at 1.
    destruct (_ && _); [done|]. exact IH.
  - induction (mt_tools m) as [|x l IH]; [done|]. simpl.
    rewrite (tool_of_server_view m t k x Hwf), Hr, andb_false_r. simpl. exact IH.
Qed.

(** ** What a statement can change

    [footprint S T m m']: from well-formed tables [m] the statement gives
    well-formed tables [m'], and the lookups of servers outside [S] and of
    tools outside [T] answer the same. *)
Definition footprint (S : string → string → Prop) (T : string → string → string → Prop)
    (m m' : McpTables) : Prop :=
  wf m → wf m' ∧
  (∀ t k, ¬ S t k → get_mcp_server_by_key m' t k = get_mcp_server_by_key m t k) ∧
  (∀ t k x, ¬ T t k x → get_mcp_tool_by_key m' t k x = get_mcp_tool_by_key m t k x).

Definition nowhere (_ _ : string) : Prop := False.
Definition no_tool (_ _ _ : string) : Prop := False.
Definition at_server (t k t' k' : string) : Prop := t' = t ∧ k' = k.
Definition tools_of (t k t' k' _x : string) : Prop := t' = t ∧ k' = k.
Definition at_tool (t k x t' k' x' : string) : Prop := t' = t ∧ k' = k ∧ x' = x.

Lemma footprint_refl S T m : footprint S T m m.
Proof. by intros. Qed.

Lemma footprint_trans S T m1 m2 m3 : footprint S T m1 m2 → footprint S T m2 m3 → footprint S T m1 m3.
Proof.
  intros H12 H23 Hwf. destruct (H12 Hwf) as (Hwf2 & Hs & Ht). destruct (H23 Hwf2) as (Hwf3 & Hs' & Ht').
  split; [done|]. split; intros; [by rewrite Hs', Hs|by rewrite Ht', Ht].
Qed.

Lemma footprint_weaken S T S' T' m m' :
  footprint S T m m' → (∀ t k, S t k → S' t k) → (∀ t k x, T t k x → T' t k x) → footprint S' T' m m'.
Proof. intros H HS HT Hwf. destruct (H Hwf) as (? & ? & ?). split; [done|]. split; eauto. Qed.

(** Rows selected by [sel] are edited, their id and key kept. *)
Lemma server_edit_view m sel f t k :
  (∀ r, sel r = true → row_key (f r) = row_key r) →
  server_row (with_servers (update_rows sel f (mt_servers m)).2 m) t k =
  (λ r, if sel r then f r else r) <$> server_row m t k.
Proof.
  intros Hk. apply find_map_update. intros r Hr. apply eq_true_iff_eq.
  by rewrite !same_server_iff, Hk.
Qed.

Lemma map_edit {B} (g : McpServerRow → B) (sel : McpServerRow → bool) f rows :
  (∀ r, sel r = true → g (f r) = g r) → map g (map (λ r, if sel r then f r else r) rows) = map g rows.
Proof.
  intros Hg. rewrite map_map. apply map_ext. intros r. destruct (sel r) eqn:Hs; [by apply Hg|done].
Qed.

Lemma server_edit_wf m sel f :
  (∀ r, sel r = true → row_key (f r) = row_key r) → (∀ r, sel r = true → row_id (f r) = row_id r) →
  wf m → wf (with_servers (update_rows sel f (mt_servers m)).2 m).
Proof.
  intros Hk Hi [H1 H2 H3]. split; simpl; rewrite ?map_edit by done; done.
Qed.

Lemma server_edit_footprint m sel f S :
  (∀ r, sel r = true → row_key (f r) = row_key r) → (∀ r, sel r = true → row_id (f r) = row_id r) →
  (∀ r, r ∈ mt_servers m → sel r = true →
        S (row_key r).1 (row_key r).2 ∨ not_deleted r = false ∧ not_deleted (f r) = false) →
  footprint S no_tool m (with_servers (update_rows sel f (mt_servers m)).2 m).
Proof.
  intros Hk Hi HS Hwf. set (m' := with_servers _ m).
  assert (wf m') as Hwf' by by apply server_edit_wf. split; [done|]. split.
  - intros t k Hn. rewrite !get_server_view by done. unfold m'. rewrite server_edit_view by done.
    destruct (server_row m t k) as [r|] eqn:Hr; [|done]. simpl.
    destruct (sel r) eqn:Hs; [|done]. apply server_row_Some in Hr as [Hin Hrk].
    destruct (HS r Hin Hs) as [H|[-> ->]]; [|done]. rewrite Hrk in H. done.
  - intros t k x _. rewrite !get_tool_view by done. unfold m'. rewrite server_edit_view by done.
    destruct (server_row m t k) as [r|]; [|done]. simpl. destruct (sel r) eqn:Hs; [|done].
    by rewrite Hi.
Qed.

Lemma update_server_rows m t k f :
  (update_server m t k f).2 = with_servers (update_rows (same_server t k) f (mt_servers m)).2 m.
Proof. done. Qed.

Lemma update_server_footprint m t k f :
  (∀ r, row_key (f r) = row_key r) → (∀ r, row_id (f r) = row_id r) →
  footprint (at_server t k) no_tool m (update_server m t k f).2.
Proof.
  intros Hk Hi. rewrite update_server_rows.
  apply server_edit_footprint; [done..|]. intros r _ Hr%same_server_iff. left. by rewrite Hr.
Qed.

(** A patch of a server that is not there, or deleted, is not seen. *)
Lemma update_server_unseen m t k f :
  (∀ r, row_key (f r) = row_key r) → (∀ r, row_id (f r) = row_id r) →
  (∀ r, msw_deleted_at (f r) = msw_deleted_at r) →
  wf m → get_mcp_server_by_key m t k = None →
  footprint nowhere no_tool m (update_server m t k f).2.
Proof.
  intros Hk Hi Hd Hwf Hnone. rewrite update_server_rows. apply server_edit_footprint; [done..|].
  intros r Hin Hr%same_server_iff. right. unfold not_deleted. rewrite Hd. fold (not_deleted r).
  rewrite get_server_view, (server_row_unique m t k r) in Hnone by done. simpl in Hnone.
  by destruct (not_deleted r).
Qed.

(** What an update of a server's record gives. *)
Lemma get_update m t k g :
  (∀ r, msr_id (g r) = msr_id r) → (∀ r, msr_tenant_id (g r) = msr_tenant_id r) →
  (∀ r, msr_server_key (g r) = msr_server_key r) → wf m →
  get_mcp_server_by_key (update_server m t k (with_record g)).2 t k = g <$> get_mcp_server_by_key m t k.
Proof.
  intros H1 H2 H3 Hwf. rewrite update_server_rows.
  assert (∀ r, row_key (with_record g r) = row_key r) as Hk by (intros; unfold row_key; simpl; by rewrite H2, H3).
  assert (wf (with_servers (update_rows (same_server t k) (with_record g) (mt_servers m)).2 m)) as Hwf'
    by (apply server_edit_wf; [done| |done]; intros r _; apply H1).
  rewrite !get_server_view, server_edit_view by done.
  destruct (server_row m t k) as [r|] eqn:Hr; [|done]. simpl.
  apply server_row_Some in Hr as [_ Hr%same_server_iff]. rewrite Hr.
  unfold not_deleted. simpl. by case_bool_decide.
Qed.

(** ** The statements on servers *)

Lemma set_hash_footprint m t k h :
  footprint (at_server t k) no_tool m (set_mcp_server_manifest_hash m t k h).
Proof. by apply update_server_footprint. Qed.

Lemma touch_footprint m t k now :
  footprint (at_server t k) no_tool m (touch_mcp_server_discovery m t k now).
Proof. by apply update_server_footprint. Qed.

Lemma columns_footprint m t k p : footprint (at_server t k) no_tool m (update_columns m t k p).2.
Proof.
  unfold update_columns. destruct (nothing_bound p); [by apply footprint_refl|].
  by apply update_server_footprint.
Qed.

Lemma update_footprint m t k p : footprint (at_server t k) no_tool m (update_mcp_server m t k p).2.
Proof.
  unfold update_mcp_server. simpl. eapply footprint_trans; [apply columns_footprint|].
  destruct (mpt_inspection_enabled p); [|apply footprint_refl]. by apply update_server_footprint.
Qed.

Lemma get_update_none m t k f :
  (∀ r, row_key (f r) = row_key r) → (∀ r, row_id (f r) = row_id r) →
  (∀ r, msw_deleted_at (f r) = msw_deleted_at r) → wf m →
  get_mcp_server_by_key (update_server m t k f).2 t k = None ↔ get_mcp_server_by_key m t k = None.
Proof.
  intros Hk Hi Hd Hwf. rewrite update_server_rows.
  rewrite !get_server_view, server_edit_view by (try apply server_edit_wf; done).
  destruct (server_row m t k) as [r|] eqn:Hr; [|done]. simpl.
  apply server_row_Some in Hr as [_ Hr%same_server_iff]. rewrite Hr.
  unfold not_deleted. rewrite Hd. by case_bool_decide.
Qed.

Lemma update_unseen m t k p m' :
  wf m → update_mcp_server m t k p = (None, m') → footprint nowhere no_tool m m'.
Proof.
  unfold update_mcp_server. intros Hwf [= Hnone <-].
  set (m1 := (update_columns m t k p).2) in *.
  assert (wf m1) as Hwf1 by by apply (columns_footprint m t k p).
  set (m2 := match mpt_inspection_enabled p with Some _ => _ | None => _ end) in *.
  assert (get_mcp_server_by_key m1 t k = None) as H1.
  { unfold m2 in Hnone. destruct (mpt_inspection_enabled p); [|done]. by apply get_update_none in Hnone. }
  apply footprint_trans with m1.
  - unfold m1, update_columns in *. destruct (nothing_bound p); [apply footprint_refl|].
    apply update_server_unseen; [done..|]. by apply get_update_none in H1.
  - unfold m2. destruct (mpt_inspection_enabled p); [|apply footprint_refl].
    by apply update_server_unseen.
Qed.

Lemma with_servers_id m : with_servers (mt_servers m) m = m.
Proof. by destruct m. Qed.
Lemma with_tools_id m : with_tools (mt_tools m) m = m.
Proof. by destruct m. Qed.

(** Nothing was selected, so nothing changed. *)
Lemma update_rows_zero {A} (sel : A → bool) f rows n rows' :
  update_rows sel f rows = (n, rows') → (0 <? n)%nat = false → rows' = rows.
Proof.
  intros Hu Hn. destruct (existsb sel rows) eqn:He.
  - rewrite <- count_existsb in He. unfold update_rows in Hu. injection Hu as <- _. congruence.
  - rewrite update_rows_none in Hu by done. by injection Hu as <- <-.
Qed.

Lemma delete_footprint m t k now b m' :
  delete_mcp_server m t k now = (b, m') →
  footprint (if b then at_server t k else nowhere) no_tool m m'.
Proof.
  unfold delete_mcp_server. intros Hd. destruct (update_rows _ _ _) as [n rows] eqn:Hu.
  injection Hd as <- <-. destruct (0 <? n)%nat eqn:Hn.
  - replace rows with (update_rows (λ r, same_server t k r && not_deleted r)
      (λ r, {| msw_record := msw_record r; msw_deleted_at := Some now |}) (mt_servers m)).2
      by by rewrite Hu.
    apply server_edit_footprint; [done..|]. intros r _ [Hr%same_server_iff _]%andb_true_iff.
    left. by rewrite Hr.
  - rewrite (update_rows_zero _ _ _ _ _ Hu Hn), with_servers_id. apply footprint_refl.
Qed.

Lemma register_footprint m rec now m' :
  register_mcp_server m rec now = Some m' →
  footprint (at_server (msr_tenant_id rec) (msr_server_key rec)) no_tool m m'.
Proof.
  unfold register_mcp_server. set (same := same_server _ _).
  destruct (existsb (λ r, _) (mt_servers m)) eqn:Hid; [done|].
  destruct (existsb same (mt_servers m)) eqn:He; intros [= <-].
  - apply server_edit_footprint.
    + intros r Hr%same_server_iff. by rewrite Hr.
    + done.
    + intros r _ Hr%same_server_iff. left. by rewrite Hr.
  - intros Hwf. set (row := excluded now None rec). set (m' := with_servers _ m).
    assert (row_id row ∉ map row_id (mt_servers m)) as Hnew.
    { intros (r & Hr & Hin)%list_elem_of_fmap. apply not_true_iff_false in Hid. apply Hid, existsb_exists.
      exists r. split; [by apply list_elem_of_In|]. by apply eqb_spec_true. }
    assert (row_key row ∉ map row_key (mt_servers m)) as Hkey.
    { intros (r & Hr & Hin)%list_elem_of_fmap. apply not_true_iff_false in He. apply He, existsb_exists.
      exists r. split; [by apply list_elem_of_In|]. by apply same_server_iff. }
    destruct Hwf as [H1 H2 H3].
    assert (wf m') as Hwf'.
    { split; simpl; rewrite ?map_app; simpl.
      - apply list.NoDup_app. split; [done|]. split; [|apply NoDup_singleton].
        intros x Hx ->%list_elem_of_singleton. done.
      - apply list.NoDup_app. split; [done|]. split; [|apply NoDup_singleton].
        intros x Hx ->%list_elem_of_singleton. done.
      - intros x Hx. apply elem_of_app. left. by apply H3. }
    assert (wf m) as Hwf by done. split; [done|].
    assert (∀ t k, server_row m' t k = match server_row m t k with
      | Some r => Some r | None => if same_server t k row then Some row else None end) as Hview
      by (intros; apply find_snoc).
    split.
    + intros t k Hn. rewrite !get_server_view, Hview by done.
      destruct (server_row m t k); [done|]. destruct (same_server t k row) eqn:Hs; [|done].
      apply same_server_iff in Hs. injection Hs as <- <-. by destruct Hn.
    + intros t k x _. rewrite !get_tool_view, Hview by done.
      destruct (server_row m t k); [done|]. destruct (same_server t k row); [|done]. simpl.
      destruct (tool_row_of m' t (row_id row) x) as [y|] eqn:Hy; [|done].
      apply find_some in Hy as [Hin Hy]. unfold same_tool in Hy.
      rewrite !andb_true_iff, !eqb_spec_true in Hy. destruct Hy as [[_ Hid'] _].
      destruct Hnew. rewrite <- Hid'. apply H3. by apply list_elem_of_In.
Qed.

(** ** The statements on tools *)

Lemma same_tool_iff t sid x y :
  same_tool t sid x y = true ↔ mtr_tenant_id y = t ∧ mtr_server_id y = sid ∧ mtr_tool_key y = x.
Proof. unfold same_tool. rewrite !andb_true_iff, !eqb_spec_true. naive_solver. Qed.

(** An edit of the tools of one server that keeps their identity. *)
Lemma tool_edit_wf m sel f :
  (∀ y, sel y = true → mtr_server_id (f y) = mtr_server_id y) → wf m →
  wf (with_tools (update_rows sel f (mt_tools m)).2 m).
Proof.
  intros Hf [H1 H2 H3]. split; [done..|]. simpl. intros y (z & -> & Hz)%list_elem_of_fmap.
  destruct (sel z) eqn:Hs; [rewrite Hf by done|]; by apply H3.
Qed.

Lemma tool_edit_view m sel f t sid x :
  (∀ y, sel y = true → same_tool t sid x (f y) = same_tool t sid x y) →
  tool_row_of (with_tools (update_rows sel f (mt_tools m)).2 m) t sid x =
  (λ y, if sel y then f y else y) <$> tool_row_of m t sid x.
Proof. apply find_map_update. Qed.

Lemma server_id_view m t k : server_id_of m t k = row_id <$> server_row m t k.
Proof. done. Qed.

(** Two servers with the same id are the same row. *)
Lemma row_id_unique m t k r t' k' r' :
  wf m → server_row m t k = Some r → server_row m t' k' = Some r' → row_id r = row_id r' →
  t' = t ∧ k' = k.
Proof.
  intros [Hid _ _] [Hin Hk]%server_row_Some [Hin' Hk']%server_row_Some Heq.
  assert (r = r') as <- by by eapply NoDup_map_inj. rewrite Hk in Hk'. by injection Hk'.
Qed.

Lemma tool_edit_footprint m sel f t k x :
  (∀ y, sel y = true → mtr_tenant_id (f y) = mtr_tenant_id y ∧ mtr_server_id (f y) = mtr_server_id y ∧
                       mtr_tool_key (f y) = mtr_tool_key y) →
  (∀ y, sel y = true → mtr_tool_key y = x ∧ ∃ r, server_row m t k = Some r ∧ mtr_server_id y = row_id r) →
  footprint nowhere (at_tool t k x) m (with_tools (update_rows sel f (mt_tools m)).2 m).
Proof.
  intros Hf Hsel Hwf. set (m' := with_tools _ m).
  assert (wf m') as Hwf' by (apply tool_edit_wf; [|done]; intros y Hy; by apply Hf).
  split; [done|]. split; [done|]. intros t' k' x' Hn. rewrite !get_tool_view by done.
  change (server_row m' t' k') with (server_row m t' k').
  destruct (server_row m t' k') as [r'|] eqn:Hr'; [|done]. simpl. unfold m'. rewrite tool_edit_view.
  - destruct (tool_row_of m t' (row_id r') x') as [y|] eqn:Hy; [|done]. simpl.
    destruct (sel y) eqn:Hs; [|done]. destruct (Hsel y Hs) as (Hx & r & Hr & Hid).
    apply find_some in Hy as [_ (_ & Hid' & Hx')%same_tool_iff]. destruct Hn.
    destruct (row_id_unique m t k r t' k' r' Hwf Hr Hr') as [-> ->]; [congruence|].
    split; [done|]. split; congruence.
  - intros y (H1 & H2 & H3)%Hf. unfold same_tool. by rewrite H1, H2, H3.
Qed.

Lemma tool_status_footprint m t k x status now b m' :
  set_mcp_tool_status m t k x status now = (b, m') →
  footprint nowhere (if b then at_tool t k x else no_tool) m m'.
Proof.
  unfold set_mcp_tool_status. set (sel := λ y, _). intros Hd.
  destruct (update_rows sel _ _) as [n rows] eqn:Hu. injection Hd as <- <-.
  destruct (0 <? n)%nat eqn:Hn.
  - replace rows with (update_rows sel (with_tool_status status now) (mt_tools m)).2 by by rewrite Hu.
    apply tool_edit_footprint; [done|]. intros y Hy. unfold sel in Hy. rewrite server_id_view in Hy.
    destruct (server_row m t k) as [r|]; simpl in Hy; [|by rewrite andb_false_r in Hy].
    rewrite !andb_true_iff, !eqb_spec_true in Hy. destruct Hy as [[_ ->] ->]. eauto.
  - rewrite (update_rows_zero _ _ _ _ _ Hu Hn), with_tools_id. apply footprint_refl.
Qed.

Section Discovery.
Context (schema_to_string : Canon.Value → string).

Lemma upsert_footprint m t k r tool id now m' :
  server_row m t k = Some r →
  upsert_mcp_tool schema_to_string m t (row_id r) tool id now = Some m' →
  footprint nowhere (at_tool t k (mti_tool_key tool)) m m' ∧ mt_servers m' = mt_servers m.
Proof.
  intros Hr. unfold upsert_mcp_tool. set (same := same_tool _ _ _).
  destruct (existsb (λ y, mtr_id y == id) _); [done|].
  destruct (existsb same (mt_tools m)) eqn:He; intros [= <-]; (split; [|done]).
  - apply tool_edit_footprint; intros y (H1 & H2 & H3)%same_tool_iff; [done|]. eauto.
  - intros Hwf. set (row := tool_row schema_to_string id t (row_id r) tool now now). set (m' := with_tools _ m).
    assert (wf m') as Hwf'.
    { destruct Hwf as [H1 H2 H3]. split; [done..|]. simpl. intros y [Hy|Hy]%elem_of_app; [by apply H3|].
      apply list_elem_of_singleton in Hy as ->. change (row_id r ∈ map row_id (mt_servers m)).
      apply list_elem_of_fmap_2. by apply server_row_Some in Hr as [? _]. }
    split; [done|]. split; [done|]. intros t' k' x' Hn. rewrite !get_tool_view by done.
    change (server_row m' t' k') with (server_row m t' k').
    destruct (server_row m t' k') as [r'|] eqn:Hr'; [|done]. simpl.
    unfold tool_row_of, m'. simpl. rewrite find_snoc.
    destruct (find _ (mt_tools m)); [done|].
    destruct (same_tool t' (row_id r') x' row) eqn:Hs; [|done].
    apply same_tool_iff in Hs as (<- & Hid & <-). destruct Hn.
    destruct (row_id_unique m t k r t k' r' Hwf Hr Hr' Hid) as [_ ->]. done.
Qed.

Lemma action_footprint m sid key d risk mut da appr dd id now m' :
  insert_skill_action m sid key d risk mut da appr dd id now = Some m' →
  mt_servers m' = mt_servers m ∧ mt_tools m' = mt_tools m.
Proof. unfold insert_skill_action. by case_match; [|case_match]; intros [= <-]. Qed.

Lemma skill_footprint m t key name ty au ow dr id now sid m' :
  insert_skill m t key name ty au ow dr id now = Some (sid, m') →
  mt_servers m' = mt_servers m ∧ mt_tools m' = mt_tools m.
Proof. unfold insert_skill. by case_match; [|case_match]; intros [= _ <-]. Qed.

(** The lookups see only these two tables. *)
Lemma same_tables_footprint S T m m' :
  mt_servers m' = mt_servers m → mt_tools m' = mt_tools m → footprint S T m m'.
Proof.
  intros Hs Ht [H1 H2 H3].
  split; [split; rewrite ?Hs, ?Ht; done|]. unfold get_mcp_server_by_key, get_mcp_tool_by_key, tool_of_server.
  rewrite Hs, Ht. done.
Qed.

Lemma discover_each_footprint t k r sid tools ids now m :
  server_row m t k = Some r →
  let m' := (discover_each schema_to_string t (row_id r) sid tools ids now m).2 in
  footprint nowhere (tools_of t k) m m' ∧ mt_servers m' = mt_servers m.
Proof.
  revert ids m. induction tools as [|tool tools IH]; intros ids m Hr; [split; [apply footprint_refl|done]|].
  destruct ids as [|i ids]; [split; [apply footprint_refl|done]|].
  cbn [discover_each]. unfold discover_tool.
  destruct (upsert_mcp_tool _ _ _ _ _ _ _) as [m1|] eqn:Hu; [|split; [apply footprint_refl|done]].
  destruct (upsert_footprint _ _ _ _ _ _ _ _ Hr Hu) as [Hf1 Hs1].
  assert (footprint nowhere (tools_of t k) m m1) as Hf1'.
  { eapply footprint_weaken; [exact Hf1|done|]. by intros ??? (? & ? & _). }
  simpl. destruct (insert_skill_action _ _ _ _ _ _ _ _ _ _ _) as [m2|] eqn:Ha; simpl; [|done].
  destruct (action_footprint _ _ _ _ _ _ _ _ _ _ _ _ Ha) as [Hs2 Ht2].
  destruct (IH ids m2) as [Hf3 Hs3]; [unfold server_row; by rewrite Hs2, Hs1|]. split; [|congruence].
  eapply footprint_trans; [exact Hf1'|]. eapply footprint_trans; [|exact Hf3].
  by apply same_tables_footprint.
Qed.

Lemma discover_footprint m t k tools sid ids now o m' :
  discover_mcp_tools schema_to_string m t k tools sid ids now = (o, m') →
  wf m → footprint nowhere (tools_of t k) m m'.
Proof.
  unfold discover_mcp_tools. intros Hd Hwf. rewrite get_server_view in Hd by done.
  destruct (server_row m t k) as [r|] eqn:Hr; simpl in Hd; [|injection Hd as _ <-; apply footprint_refl].
  destruct (not_deleted r); [|injection Hd as _ <-; apply footprint_refl].
  destruct (insert_skill _ _ _ _ _ _ _ _ _ _) as [[sid' m1]|] eqn:Hs; [|injection Hd as _ <-; apply footprint_refl].
  destruct (skill_footprint _ _ _ _ _ _ _ _ _ _ _ _ Hs) as [Hs1 Ht1].
  destruct (discover_each_footprint t k r sid' tools ids now m1) as [Hf _]; [unfold server_row; by rewrite Hs1|].
  destruct (discover_each _ _ _ _ _ _ _ _) as [ok m2]. injection Hd as _ <-.
  eapply footprint_trans; [by apply same_tables_footprint|exact Hf].
Qed.

(** The tool [x] of the server with id [sid] is there and waits for approval. *)
Definition pending (m : McpTables) (t sid x : string) : Prop :=
  ∃ row, tool_row_of m t sid x = Some row ∧ mtr_status row = "pending".

Lemma upsert_pending m t sid tool id now m' x :
  upsert_mcp_tool schema_to_string m t sid tool id now = Some m' →
  x = mti_tool_key tool ∨ pending m t sid x → pending m' t sid x.
Proof.
  unfold upsert_mcp_tool. set (same := same_tool _ _ _).
  destruct (existsb (λ y, mtr_id y == id) _); [done|].
  destruct (existsb same (mt_tools m)) eqn:He; intros [= <-] Hx.
  - assert (∃ y, tool_row_of m t sid x = Some y ∧ (same y = false → mtr_status y = "pending")) as (y & Hy & Hp).
    { destruct Hx as [->|(y & Hy & Hp)]; [|eauto].
      destruct (tool_row_of m t sid (mti_tool_key tool)) as [y|] eqn:Hy.
      - exists y. split; [done|]. apply find_some in Hy as [_ Hy]. unfold same. congruence.
      - apply existsb_exists in He as (y & Hin & Hs). eapply find_none in Hy; [|exact Hin].
        unfold same in Hs. congruence. }
    unfold tool_row_of in Hy. eexists. split.
    { unfold tool_row_of. cbn [mt_tools with_tools]. rewrite find_map_update, Hy; [reflexivity|].
      intros z (H1 & H2 & H3)%same_tool_iff. unfold same_tool. simpl. by rewrite H1, H2, H3. }
    simpl. destruct (same y) eqn:Hs; [done|]. by apply Hp.
  - unfold pending, tool_row_of. simpl. rewrite find_snoc.
    destruct Hx as [->|(y & Hy & Hp)]; [|unfold tool_row_of in Hy; rewrite Hy; eauto].
    destruct (find _ (mt_tools m)) as [y|] eqn:Hy.
    + apply find_some in Hy as [Hin Hy]. apply not_true_iff_false in He. destruct He.
      apply existsb_exists. eauto.
    + exists (tool_row schema_to_string id t sid tool now now). split; [|done].
      unfold same_tool. simpl. by str_eq.
Qed.

Lemma discover_each_pending t sid skill tools ids now m m' x :
  length ids = length tools → discover_each schema_to_string t sid skill tools ids now m = (true, m') →
  x ∈ map mti_tool_key tools ∨ pending m t sid x → pending m' t sid x.
Proof.
  revert ids m. induction tools as [|tool tools IH]; intros [|i ids] m; try done; simpl.
  { by intros _ [= <-] [?%elem_of_nil|?]. }
  intros [= Hlen]. unfold discover_tool.
  destruct (upsert_mcp_tool _ _ _ _ _ _ _) as [m1|] eqn:Hu; [|done]. simpl.
  destruct (insert_skill_action _ _ _ _ _ _ _ _ _ _ _) as [m2|] eqn:Ha; [|done].
  intros Hd Hx. eapply (IH ids m2); [done|exact Hd|].
  destruct (action_footprint _ _ _ _ _ _ _ _ _ _ _ _ Ha) as [_ Ht].
  assert (∀ x, pending m1 t sid x → pending m2 t sid x) as H12 by (unfold pending, tool_row_of; by rewrite Ht).
  destruct Hx as [[->|Hx]%elem_of_cons|Hx].
  - right. apply H12. eapply upsert_pending; [exact Hu|]. by left.
  - by left.
  - right. apply H12. eapply upsert_pending; [exact Hu|]. by right.
Qed.

(** Every discovered tool waits for approval, whatever its status was. *)
Lemma discover_pending m t k tools sid ids now rows m' tool :
  wf m → length ids = length tools →
  discover_mcp_tools schema_to_string m t k tools sid ids now = (Some rows, m') → tool ∈ tools →
  ∃ row, get_mcp_tool_by_key m' t k (mti_tool_key tool) = Some row ∧ mtr_status row = "pending".
Proof.
  intros Hwf Hlen Hd Hin. pose proof (discover_footprint _ _ _ _ _ _ _ _ _ Hd Hwf) as Hf.
  destruct (Hf Hwf) as (Hwf' & _ & _). rewrite get_tool_view by done.
  unfold discover_mcp_tools in Hd. rewrite get_server_view in Hd by done.
  destruct (server_row m t k) as [r|] eqn:Hr; simpl in Hd; [|done]. destruct (not_deleted r); [|done].
  destruct (insert_skill _ _ _ _ _ _ _ _ _ _) as [[sid' m1]|] eqn:Hs; [|done].
  destruct (skill_footprint _ _ _ _ _ _ _ _ _ _ _ _ Hs) as [Hs1 _].
  destruct (discover_each_footprint t k r sid' tools ids now m1) as [_ Hs2]; [unfold server_row; by rewrite Hs1|].
  destruct (discover_each _ _ _ _ _ _ _ _) as [ok m2] eqn:He. simpl in Hs2.
  destruct ok; [|done]. injection Hd as _ <-.
  assert (server_row m2 t k = Some r) as -> by (unfold server_row; by rewrite Hs2, Hs1). simpl.
  apply (discover_each_pending _ _ _ _ _ _ _ _ _ Hlen He). left. by apply list_elem_of_fmap_2.
Qed.

Lemma snapshot_footprint S T m t k h j id now m' :
  insert_mcp_manifest_snapshot m t k h j id now = Some m' → footprint S T m m'.
Proof. unfold insert_mcp_manifest_snapshot. case_match; intros [= <-]. by apply same_tables_footprint. Qed.
End Discovery.
End McpView.
