(* ===== verification/Soc.v ===== *)
(** * The security operations plane: data and collaborators

    The records of [src/lib/soc/src] ([rule_dsl.rs], [detect.rs],
    [correlate.rs], [respond.rs], [playbook.rs], [notify.rs],
    [webhook_export.rs]), the rows it stores, and the signature [SocE] of what
    it calls: the database, the notification sink, the exporters, the clock and
    the generator of identifiers. *)

From S2P Require Import Prelude RustString Prog Canon Models Records External Runtime.
From Stdlib Require Import SpecFloat.

(** ** Rules and alerts *)

Record RuleCondition := {
  rc_event_type : option string;
  rc_decision : option string;
  rc_tool : option string;
  rc_action : option string;
  rc_context_trust : option (list string);
  rc_mutating : option bool;
  rc_min_risk_score : option Z;
  rc_max_risk_score : option Z;
  rc_matched_policy_contains : option (list string) }.

(** [#[derive(Default)]]: nothing is asked for. *)
Definition any_event : RuleCondition := {|
  rc_event_type := None; rc_decision := None; rc_tool := None; rc_action := None;
  rc_context_trust := None; rc_mutating := None; rc_min_risk_score := None;
  rc_max_risk_score := None; rc_matched_policy_contains := None |}.

Record YamlRule := {
  yr_rule_key : string;
  yr_name : string;
  yr_severity : string;
  yr_condition : RuleCondition;
  yr_summary_template : string }.

Record Alert := {
  al_alert_id : string;
  al_occurred_at : string;
  al_tenant_id : string;
  al_rule : string;
  al_severity : string;
  al_agent_id : string;
  al_summary : string;
  al_source_event_id : string }.

(** ** Incidents *)

Record Incident := {
  in_incident_id : string;
  in_opened_at : string;
  in_tenant_id : string;
  in_agent_id : string;
  in_kind : string;
  in_severity : string;
  in_summary : string;
  in_source_event_ids : list string }.

Record ResponseAction := {
  ra_action : string;
  ra_description : string;
  ra_critical_notify : bool }.

(** ** Playbooks *)

Inductive TriggerSeverity := Single (s : string) | Several (l : list string).

Record PlaybookTrigger := {
  pt_kind : string;
  pt_severity : TriggerSeverity;
  pt_agent_id : option string;
  pt_environment : option string }.

Inductive PlaybookStep :=
| FreezeAgent (reason : option string)
| ForceApproval
| QuarantineMcp (server_key : string)
| NotifySlack (webhook_url : string) (channel : option string) (text : string)
| NotifyWebhook (url : string) (payload_template : option string).

Record ResponsePlaybook := {
  pb_name : string;
  pb_trigger : PlaybookTrigger;
  pb_steps : list PlaybookStep }.

Record StepResult := { sr_action : string; sr_description : string; sr_dry_run : bool }.

(** ** Rows and messages *)

Record PlaybookRecord := {
  pbr_id : string;
  pbr_tenant_id : string;
  pbr_name : string;
  pbr_trigger_kind : string;
  pbr_trigger_severity : string;
  pbr_trigger_agent_id : option string;
  pbr_trigger_environment : option string;
  pbr_steps_json : string;
  pbr_enabled : bool;
  pbr_created_at : DateTime }.

Record DetectionRuleRecord := {
  drr_id : string;
  drr_tenant_id : string;
  drr_rule_key : string;
  drr_name : string;
  drr_severity : string;
  drr_condition : string;
  drr_summary_template : string;
  drr_enabled : bool;
  drr_created_at : DateTime }.

Record SocAlertRecord := {
  sal_id : string;
  sal_tenant_id : string;
  sal_rule : string;
  sal_severity : string;
  sal_agent_id : string;
  sal_source_event_id : string;
  sal_summary : string;
  sal_created_at : string;
  sal_triage_recommendation : option string }.

Record SocIncidentRecord := {
  sin_id : string;
  sin_tenant_id : string;
  sin_kind : string;
  sin_severity : string;
  sin_agent_id : string;
  sin_summary : string;
  sin_source_event_ids : string;
  sin_opened_at : string;
  sin_status : string;
  sin_closed_at : option string }.

Inductive IncidentUpsertResult := Inserted | Merged (id : string).

Record NotifyMessage := {
  nm_kind : string;
  nm_severity : string;
  nm_tenant_id : string;
  nm_agent_id : string;
  nm_summary : string;
  nm_alert_or_incident_id : option string;
  nm_occurred_at : string }.

Record WebhookExportPayload := {
  we_event_id : string;
  we_kind : string;
  we_event_type : string;
  we_severity : string;
  we_tenant_id : string;
  we_agent_id : string;
  we_summary : string;
  we_occurred_at : string;
  we_rule_key : option string }.

Record WebhookSubscriptionRecord := {
  wsb_id : string;
  wsb_tenant_id : string;
  wsb_url : string;
  wsb_secret_hash : option string;
  wsb_event_types : string;
  wsb_status : string;
  wsb_created_at : DateTime;
  wsb_delivery_secret : option string;
  wsb_min_severity : string;
  wsb_format : string;
  wsb_delivery_status : string;
  wsb_consecutive_failures : Z;
  wsb_last_delivery_at : option DateTime;
  wsb_last_success_at : option DateTime }.

Record AlertSilenceRecord := {
  sil_id : string;
  sil_tenant_id : string;
  sil_rule_key : option string;
  sil_agent_id : option string;
  sil_comment : option string;
  sil_starts_at : DateTime;
  sil_ends_at : DateTime;
  sil_created_by : option string;
  sil_status : string;
  sil_created_at : DateTime }.

Record TriageRecommendation := {
  tr_priority_adjustment : string;
  tr_suggested_priority : string;
  tr_category_label : string;
  tr_recommended_action : string;
  tr_similar_past_alerts : Z;
  tr_agent_recent_alerts : Z;
  tr_generated_at : string;
  tr_agent : string }.

(** ** Collaborators *)

(** An error of the database driver is only logged here. *)
Abbreviation Db A := (Result A SqlxError).

Inductive SocE : Type → Type :=
(* tenants *)
| SoAutoRespond (tenant_id : string) : SocE (Db (option bool))
| SoAutonomyRow (tenant_id : string) : SocE (Db (option (option string)))
(* agents *)
| SoGetAgent (tenant_id agent_id : string) : SocE (Db (option AgentRecord))
| SoSetAgentStatus (tenant_id agent_id status : string) : SocE (Db bool)
| SoSetFrozenReason (tenant_id agent_id : string) (reason : option string) : SocE (Db unit)
| SoSetForceApproval (tenant_id agent_id : string) (value : bool) : SocE (Db unit)
| SoQuarantineMcp (tenant_id server_key : string) : SocE (Fallible unit)
(* rules and playbooks *)
| SoListRules (tenant_id : string) : SocE (Db (list DetectionRuleRecord))
| SoListPlaybooks (tenant_id : string) : SocE (Db (list PlaybookRecord))
(* baselines *)
| SoKnownToolAction (tenant_id agent_id tool action occurred_at : string) : SocE (Db bool)
| SoIncrementHour (tenant_id agent_id bucket : string) : SocE (Db Z)
| SoHourlyCounts (tenant_id agent_id since current : string) : SocE (Db (list Z))
(* alerts, incidents, audit *)
| SoInsertAlert (r : SocAlertRecord) : SocE (Db unit)
| SoCountSimilar (tenant_id rule agent_id alert_id : string) : SocE (Db Z)
| SoCountRecent (tenant_id agent_id : string) : SocE (Db Z)
| SoSetTriage (tenant_id alert_id json : string) : SocE (Db bool)
(** the recommendation a Claude model answers, [None] on any error *)
| SoClaude (api_key : string) (alert : SocAlertRecord) (similar recent : Z) :
    SocE (option TriageRecommendation)
| SoUpsertIncident (r : SocIncidentRecord) : SocE (Db IncidentUpsertResult)
| SoInsertAudit (r : AuditEventRecord) : SocE (Db unit)
(* outbound *)
| SoNotify (m : NotifyMessage) : SocE unit
| SoSilenced (tenant_id : string) (rule_key agent_id : option string) (at_ : DateTime) : SocE (Db bool)
| SoSubscriptions (tenant_id event_type : string) : SocE (Db (list WebhookSubscriptionRecord))
| SoSpawnDelivery (s : WebhookSubscriptionRecord) (p : WebhookExportPayload) : SocE unit
| SoSpawnTriage (r : SocAlertRecord) : SocE unit
| SoPost (url : string) (body : Canon.Value) : SocE unit
(** one attempt: the status of the answer, [None] on an error or after five
    seconds *)
| SoDeliver (url content_type body : string) (signature : option string) : SocE (option Z)
| SoSleepMs (ms : Z) : SocE unit
| SoRecordDelivery (tenant_id id : string) (success : bool) : SocE (Db unit)
| SoSpawnExport (event : AseEvent) : SocE unit
| SoMetric (name : string) (labels : list string) : SocE unit
(* environment, clock, identifiers *)
| SoEnv (name : string) : SocE (option string)
| SoNow : SocE DateTime
| SoUuid : SocE Uuid.

Abbreviation OnSoc A := (prog SocE A).

(** Third-party functions: [serde_yml] on a condition, [chrono] on RFC 3339
    text, on [YYYY-MM-DDTHH:MM:SS] and printing [%Y-%m-%dT%H], [serde_json] on
    stored text, [str::parse] on an [i32] and an [i64], [str::to_uppercase],
    [{:?}] of an optional name, [{:.2}] of an [f64] and the 32 bytes of
    [Sha256::digest]. *)
Class SocExternal := {
  parse_condition : string → Result RuleCondition string;
  parse_from_rfc3339 : string → option DateTime;
  parse_naive : string → option DateTime;
  format_hour : DateTime → string;
  json_of_ids : list string → string;
  parse_ids : string → option (list string);
  parse_trigger_severity : string → option TriggerSeverity;
  parse_steps : string → option (list PlaybookStep);
  parse_payload : string → option Canon.Value;
  json_of_triage : TriageRecommendation → string;
  parse_i32 : string → option Z;
  parse_i64 : string → option Z;
  to_uppercase : string → string;
  debug_opt : option string → string;
  show_f64 : spec_float → string;
  sha256_digest : string → string }.

(** [DateTime::timestamp] of the parsed text, seconds since the epoch *)
Definition rfc3339_seconds {SX : SocExternal} (s : string) : option Z :=
  (λ d, d `div` 1000000000)%Z <$> parse_from_rfc3339 s.

(** An [Alert] or [Incident] is built with a fresh identifier; the ones a pass
    yields are numbered in order. *)
Fixpoint mint {A} (l : list (Uuid → A)) : OnSoc (list A) :=
  match l with
  | [] => mret []
  | f :: l' => id ← trigger SoUuid; rest ← mint l'; mret (f id :: rest)
  end.

Lemma mint_runs {A} (l : list (Uuid → A)) t r :
  runs (mint l) t r → Forall2 (λ f a, ∃ id, a = f id) l r.
Proof.
  revert t r. induction l as [|f l IH]; intros t r Hr; [by destruct Hr as [_ ->]|].
  simpl in Hr. prog_step Hr. prog_step Hr. prog_step Hr. simpl in Hr. simplify_eq.
  constructor; eauto.
Qed.
