(* ===== verification/Manifest.v ===== *)
(** * Tool manifests: hashes and drift

    Models [mcp_manifest_canonical_value], [compute_mcp_manifest_hash],
    [mcp_manifest_signed_hash], [classify_manifest_drift] and
    [severity_for_manifest_drift] of [src/src/src/routes/mod.rs]: what of a
    server's advertised tools is hashed, when two manifests have the same hash,
    and how a change between two of them is reported. *)

From S2P Require Import Prelude RustString Canon Models Records Receipts McpStore.
From Stdlib Require Import SpecFloat FloatOps.
From stdpp Require Import sorting.

(** [ws.join(sep)] *)
Fixpoint join_strings (sep : string) (ws : list string) : string :=
  match ws with
  | [] => ""
  | [w] => w
  | w :: ws => w +:+ sep +:+ join_strings sep ws
  end.

(** ** Equality of [serde_json] values

    [==] on [serde_json::Value]: objects are equal when they have the same
    number of entries and each key of one is found in the other with an equal
    value, and numbers of different representations are different. *)

Definition number_eqb (x y : Canon.Number) : bool :=
  match x, y with
  | Canon.PosInt a, Canon.PosInt b | Canon.NegInt a, Canon.NegInt b => (a =? b)%Z
  | Canon.Float a, Canon.Float b => SFeqb a b
  | _, _ => false
  end.

Fixpoint entry_of {A} (k : string) (m : list (string * A)) : option A :=
  match m with
  | [] => None
  | (k', v) :: m => if k' == k then Some v else entry_of k m
  end.

Fixpoint value_eqb (a b : Canon.Value) : bool :=
  match a, b with
  | Canon.Null, Canon.Null => true
  | Canon.Bool x, Canon.Bool y => Bool.eqb x y
  | Canon.Number_ x, Canon.Number_ y => number_eqb x y
  | Canon.Str x, Canon.Str y => x == y
  | Canon.Array l, Canon.Array l' =>
      (fix go l l' := match l, l' with
                      | [], [] => true
                      | x :: l, y :: l' => value_eqb x y && go l l'
                      | _, _ => false
                      end) l l'
  | Canon.Object m, Canon.Object m' =>
      (length m =? length m')%nat &&
      (fix go m := match m with
                   | [] => true
                   | (k, v) :: m =>
                       match entry_of k m' with Some v' => value_eqb v v' | None => false end && go m
                   end) m
  | _, _ => false
  end.

Definition schema_eqb (a b : option Canon.Value) : bool :=
  match a, b with
  | None, None => true
  | Some x, Some y => value_eqb x y
  | _, _ => false
  end.

Module Manifest.

Definition entry (t : McpToolManifestItem) : Canon.Value :=
  Canon.Object [
    ("tool_key", Canon.Str (mti_tool_key t));
    ("name", Canon.Str (mti_name t));
    ("description", opt_str (mti_description t));
    ("risk", Canon.Str (mti_risk t));
    ("mutates_state", Canon.Bool (mti_mutates_state t));
    ("approval_required", Canon.Bool (mti_approval_required t));
    ("input_schema", default Canon.Null (mti_input_schema t)) ].

(** [v.get("tool_key").and_then(Value::as_str).unwrap_or_default()] *)
Definition tool_key_of (v : Canon.Value) : string :=
  match v with
  | Canon.Object m => match entry_of "tool_key" m with Some (Canon.Str s) => s | _ => "" end
  | _ => ""
  end.

Definition mcp_manifest_canonical_value (tools : list McpToolManifestItem) : Canon.Value :=
  Canon.Array (map snd (Canon.sort_by_key (map (λ v, (tool_key_of v, v)) (map entry tools)))).

Section Hash.
(** [serde_json::to_string] and SHA-256 in hexadecimal. *)
Context (to_string : Canon.Value → option string) (sha256_hex : string → string).

Definition canonical_text (tools : list McpToolManifestItem) : string :=
  Canon.canonical_value_string Some to_string (mcp_manifest_canonical_value tools).

Definition compute_mcp_manifest_hash (tools : list McpToolManifestItem) : string :=
  "sha256:" +:+ sha256_hex (canonical_text tools).

Definition mcp_manifest_signed_hash (tools : list McpToolManifestItem) : string :=
  sha256_hex (canonical_text tools).
End Hash.

(** ** Drift *)

(** [tools.iter().map(|t| (t.tool_key.as_str(), t)).collect()]: the last tool
    of a key stays. *)
Definition by_key (tools : list McpToolManifestItem) : gmap string McpToolManifestItem :=
  foldl (λ m t, <[mti_tool_key t := t]> m) ∅ tools.

(** The keys of a [BTreeMap], in order. *)
Definition sorted_keys {A} (m : gmap string A) : list string :=
  map fst (Canon.sort_by_key (map_to_list m)).

Definition shape_differs (old new : McpToolManifestItem) : bool :=
  (mti_risk old != mti_risk new) ||
  negb (Bool.eqb (mti_mutates_state old) (mti_mutates_state new)) ||
  negb (Bool.eqb (mti_approval_required old) (mti_approval_required new)) ||
  negb (schema_eqb (mti_input_schema old) (mti_input_schema new)).

Definition text_differs (old new : McpToolManifestItem) : bool :=
  (mti_name old != mti_name new) ||
  negb (bool_decide (mti_description old = mti_description new)).

Definition missing_from (m m' : gmap string McpToolManifestItem) : list string :=
  filter (λ k, m' !! k = None) (sorted_keys m).

(** The keys of both whose tools satisfy [test]. *)
Definition changed (test : McpToolManifestItem → McpToolManifestItem → bool)
    (old new : gmap string McpToolManifestItem) : list string :=
  filter (λ k, match old !! k, new !! k with Some o, Some n => test o n | _, _ => false end = true)
    (sorted_keys new).

Definition part (label : string) (keys : list string) : list string :=
  match keys with [] => [] | _ => [label +:+ join_strings ", " keys] end.

Definition classify_manifest_drift (old_tools new_tools : list McpToolManifestItem) : string * string :=
  let old := by_key old_tools in
  let new := by_key new_tools in
  let added := missing_from new old in
  let removed := missing_from old new in
  let modified := changed shape_differs old new in
  let metadata_changed := changed (λ o n, negb (shape_differs o n) && text_differs o n) old new in
  let diff_parts := part "tools added: " added ++ part "tools removed: " removed ++
                    part "tools modified: " modified ++ part "metadata changed: " metadata_changed in
  let classification :=
    match added, removed, modified, metadata_changed with
    | _ :: _, _, _, _ => "tool_added"
    | [], _ :: _, _, _ => "tool_removed"
    | [], [], _ :: _, _ => "tool_modified"
    | [], [], [], _ :: _ => "metadata_changed"
    | [], [], [], [] => "tool_modified"
    end in
  (classification,
   match diff_parts with
   | [] => "manifest changed (no prior snapshot available to diff against)"
   | _ => join_strings "; " diff_parts
   end).

Definition severity_for_manifest_drift (classification : string) : string :=
  if (classification == "tool_added") || (classification == "tool_removed") then "high"
  else if classification == "tool_modified" then "medium"
  else "low".

(** ** When two manifests have the same hash *)

(** The same tool, object keys of the schema in any order; no schema and a
    [null] one are the same. *)
Definition same_item (t t' : McpToolManifestItem) : Prop :=
  mti_tool_key t = mti_tool_key t' ∧ mti_name t = mti_name t' ∧
  mti_description t = mti_description t' ∧ mti_risk t = mti_risk t' ∧
  mti_mutates_state t = mti_mutates_state t' ∧ mti_approval_required t = mti_approval_required t' ∧
  Canon.veq (default Canon.Null (mti_input_schema t)) (default Canon.Null (mti_input_schema t')).

(** The same tools in any order. *)
Definition same_manifest (tools tools' : list McpToolManifestItem) : Prop :=
  ∃ l, l ≡ₚ tools' ∧ Forall2 same_item tools l.

Definition well_formed_item (t : McpToolManifestItem) : Prop :=
  Canon.well_formed (default Canon.Null (mti_input_schema t)).

Definition sort_tools (tools : list McpToolManifestItem) : list McpToolManifestItem :=
  map snd (Canon.sort_by_key (map (λ t, (mti_tool_key t, t)) tools)).

Lemma sorted_entries tools :
  mcp_manifest_canonical_value tools = Canon.Array (map entry (sort_tools tools)).
Proof.
  unfold mcp_manifest_canonical_value, sort_tools. f_equal. rewrite map_map.
  change (map (λ t, (tool_key_of (entry t), entry t)) tools)
    with (map (λ t, (mti_tool_key t, entry t)) tools).
  replace (map (λ t, (mti_tool_key t, entry t)) tools)
    with (map (λ e : string * McpToolManifestItem, (e.1, entry e.2))
            (map (λ t, (mti_tool_key t, t)) tools)) by by rewrite map_map.
  rewrite Canon.sort_by_key_map, !map_map. done.
Qed.

Lemma sort_tools_perm tools : sort_tools tools ≡ₚ tools.
Proof.
  unfold sort_tools. rewrite (Permutation_map snd (Canon.sort_by_key_perm _)), map_map.
  by rewrite map_id.
Qed.

Lemma sort_tools_unique l l' :
  NoDup (map mti_tool_key l) → l ≡ₚ l' → sort_tools l = sort_tools l'.
Proof.
  intros Hnd Hp. unfold sort_tools. f_equal. apply Canon.sort_by_key_unique.
  - change (NoDup (map fst (map (λ t, (mti_tool_key t, t)) l))). by rewrite map_map.
  - by apply Permutation_map.
Qed.

Lemma entry_well_formed t : well_formed_item t → Canon.well_formed (entry t).
Proof.
  intros Hwf. apply Canon.well_formed_object. split.
  - apply (bool_decide_unpack _). by vm_compute.
  - repeat constructor; try done. by destruct (mti_description t).
Qed.

Lemma opt_str_veq a b : Canon.veq (opt_str a) (opt_str b) → a = b.
Proof. by destruct a, b; inversion 1. Qed.

Lemma entry_veq t t' :
  well_formed_item t → Canon.veq (entry t) (entry t') ↔ same_item t t'.
Proof.
  intros Hwf. split.
  - intros H. inversion H as [? Hp| |m m' _ Hv]; subst; [done|].
    assert (Canon.veq (Canon.Str (mti_tool_key t)) (Canon.Str (mti_tool_key t'))) as H1
      by (eapply (Hv "tool_key"); list_in).
    assert (Canon.veq (Canon.Str (mti_name t)) (Canon.Str (mti_name t'))) as H2
      by (eapply (Hv "name"); list_in).
    assert (Canon.veq (opt_str (mti_description t)) (opt_str (mti_description t'))) as H3
      by (eapply (Hv "description"); list_in).
    assert (Canon.veq (Canon.Str (mti_risk t)) (Canon.Str (mti_risk t'))) as H4
      by (eapply (Hv "risk"); list_in).
    assert (Canon.veq (Canon.Bool (mti_mutates_state t)) (Canon.Bool (mti_mutates_state t'))) as H5
      by (eapply (Hv "mutates_state"); list_in).
    assert (Canon.veq (Canon.Bool (mti_approval_required t)) (Canon.Bool (mti_approval_required t')))
      as H6 by (eapply (Hv "approval_required"); list_in).
    apply opt_str_veq in H3. split; [by inversion H1|]. split; [by inversion H2|].
    split; [done|]. split; [by inversion H4|]. split; [by inversion H5|]. split; [by inversion H6|].
    eapply (Hv "input_schema"); list_in.
  - intros (H1 & H2 & H3 & H4 & H5 & H6 & H7). unfold entry. constructor; [done|].
    rewrite <- H1, <- H2, <- H3, <- H4, <- H5, <- H6.
    intros k v v'. rewrite !elem_of_cons.
    assert (Canon.veq (opt_str (mti_description t)) (opt_str (mti_description t))) as Hd
      by (by destruct (mti_description t); constructor).
    intros [[= -> ->]|[[= -> ->]|[[= -> ->]|[[= -> ->]|[[= -> ->]|[[= -> ->]|[[= -> ->]|H]]]]]]];
      [..|by apply not_elem_of_nil in H];
      intros [[= ?]|[[= ?]|[[= ?]|[[= ?]|[[= ?]|[[= ?]|[[= ?]|H']]]]]]];
      try (by apply not_elem_of_nil in H'); subst; try done; by constructor.
Qed.

Lemma insert_by_key_same e e' l l' :
  e.1 = e'.1 → same_item e.2 e'.2 →
  Forall2 (λ a b, a.1 = b.1 ∧ same_item a.2 b.2) l l' →
  Forall2 (λ a b, a.1 = b.1 ∧ same_item a.2 b.2) (Canon.insert_by_key e l) (Canon.insert_by_key e' l').
Proof.
  intros Hk Hs H. induction H as [|a b l l' [Hab Hs'] H IH]; simpl.
  { by constructor. }
  rewrite <- Hk, <- Hab. destruct (String.leb e.1 a.1); by do 2 try constructor.
Qed.

Lemma sort_tools_same l l' : Forall2 same_item l l' → Forall2 same_item (sort_tools l) (sort_tools l').
Proof.
  intros H. unfold sort_tools.
  assert (Forall2 (λ a b, a.1 = b.1 ∧ same_item a.2 b.2)
    (Canon.sort_by_key (map (λ t, (mti_tool_key t, t)) l))
    (Canon.sort_by_key (map (λ t, (mti_tool_key t, t)) l'))) as H'.
  { induction H as [|t t' l l' Hs H IH]; simpl; [constructor|].
    apply insert_by_key_same; [by destruct Hs|done|done]. }
  apply Forall2_fmap_2. eapply Forall2_impl; [exact H'|]. by intros ?? [_ ?].
Qed.

Lemma canonical_entry t t' :
  well_formed_item t → well_formed_item t' →
  Canon.canonicalize_json (entry t) = Canon.canonicalize_json (entry t') ↔ same_item t t'.
Proof.
  intros Ht Ht'. rewrite <- entry_veq by done. apply entry_well_formed in Ht, Ht'. split.
  - intros Heq. eapply Canon.veq_trans; [by apply Canon.veq_canonicalize|].
    rewrite Heq. by apply Canon.veq_sym, Canon.veq_canonicalize.
  - intros H. by apply Canon.veq_same_canon.
Qed.

Lemma same_canonical l l' :
  Forall well_formed_item l → Forall well_formed_item l' →
  map (Canon.canonicalize_json ∘ entry) l = map (Canon.canonicalize_json ∘ entry) l' ↔
  Forall2 same_item l l'.
Proof.
  revert l'. induction l as [|t l IH]; intros [|t' l'] Hw Hw'; cbn [map]; [|by split; inversion 1..|].
  { split; [constructor|done]. }
  apply list.Forall_cons in Hw as [Ht Hl], Hw' as [Ht' Hl'].
  rewrite Forall2_cons, <- (IH l') by done.
  rewrite <- canonical_entry by done.
  split; [by intros [? ?]%cons_eq_inj|]. intros [Ht1 Ht2].
  exact (f_equal2 cons Ht1 Ht2).
Qed.

(** The manifests [l] and [l'] have the same canonical form exactly when they
    list the same tools. *)
Lemma canonical_manifest_exact l l' :
  NoDup (map mti_tool_key l) → NoDup (map mti_tool_key l') →
  Forall well_formed_item l → Forall well_formed_item l' →
  Canon.canonicalize_json (mcp_manifest_canonical_value l) =
  Canon.canonicalize_json (mcp_manifest_canonical_value l') ↔ same_manifest l l'.
Proof.
  intros Hnd Hnd' Hw Hw'. rewrite !sorted_entries. cbn [Canon.canonicalize_json].
  rewrite !map_map. trans (Forall2 same_item (sort_tools l) (sort_tools l')).
  - rewrite <- same_canonical by by rewrite sort_tools_perm. split; intros H.
    + exact (f_equal (λ v, match v with Canon.Array l => l | _ => [] end) H).
    + exact (f_equal Canon.Array H).
  - split.
    + intros H. destruct (Permutation_Forall2 (sort_tools_perm l) H) as (p & Hp & Hf).
      exists p. split; [|done]. rewrite <- Hp. apply sort_tools_perm.
    + intros (p & Hp & Hf). rewrite <- (sort_tools_unique p l'); [by apply sort_tools_same| |done].
      by rewrite (Permutation_map mti_tool_key Hp).
Qed.

Section Pin.
Context (to_string : Canon.Value → option string) (sha256_hex : string → string).

(** [serde_json] prints the canonical forms of both manifests, and prints them
    differently when they differ. *)
Definition printed_apart (l l' : list McpToolManifestItem) : Prop :=
  let c := Canon.canonicalize_json (mcp_manifest_canonical_value l) in
  let c' := Canon.canonicalize_json (mcp_manifest_canonical_value l') in
  is_Some (to_string c) ∧ is_Some (to_string c') ∧ (to_string c = to_string c' → c = c').

(** Two different hashed texts with the same SHA-256. *)
Definition manifest_collision (l l' : list McpToolManifestItem) : Prop :=
  canonical_text to_string l ≠ canonical_text to_string l' ∧
  sha256_hex (canonical_text to_string l) = sha256_hex (canonical_text to_string l').

Lemma canonical_text_exact l l' :
  NoDup (map mti_tool_key l) → NoDup (map mti_tool_key l') →
  Forall well_formed_item l → Forall well_formed_item l' → printed_apart l l' →
  canonical_text to_string l = canonical_text to_string l' ↔ same_manifest l l'.
Proof.
  intros Hnd Hnd' Hw Hw' ([s Hs] & [s' Hs'] & Hinj). rewrite <- canonical_manifest_exact by done.
  unfold canonical_text, Canon.canonical_value_string. rewrite Hs, Hs'. split.
  - intros Heq. apply Hinj. rewrite Hs, Hs'. by f_equal.
  - intros Heq%(f_equal to_string). rewrite Hs, Hs' in Heq. by injection Heq as ->.
Qed.

(** The hash of a manifest is the hash of its tools, in any order. *)
Lemma manifest_hash_exact l l' :
  NoDup (map mti_tool_key l) → NoDup (map mti_tool_key l') →
  Forall well_formed_item l → Forall well_formed_item l' → printed_apart l l' →
  (same_manifest l l' →
     compute_mcp_manifest_hash to_string sha256_hex l = compute_mcp_manifest_hash to_string sha256_hex l') ∧
  (compute_mcp_manifest_hash to_string sha256_hex l = compute_mcp_manifest_hash to_string sha256_hex l' →
     same_manifest l l' ∨ manifest_collision l l').
Proof.
  intros Hnd Hnd' Hw Hw' Hp. unfold compute_mcp_manifest_hash. split.
  - intros Hs. by rewrite (proj2 (canonical_text_exact l l' Hnd Hnd' Hw Hw' Hp) Hs).
  - intros Heq%(inj (String.append _)).
    destruct (decide (canonical_text to_string l = canonical_text to_string l')) as [Ht|Ht].
    + left. by apply canonical_text_exact.
    + by right.
Qed.
End Pin.

(** ** What the report of a drift says *)

Lemma elem_of_sorted_keys {A} (m : gmap string A) k : k ∈ sorted_keys m ↔ is_Some (m !! k).
Proof.
  unfold sorted_keys. change (map fst ?l) with (l.*1).
  rewrite (fmap_Permutation fst _ _ (Canon.sort_by_key_perm _)), list_elem_of_fmap. split.
  - intros ([k' v] & -> & Hin). apply elem_of_map_to_list in Hin. eauto.
  - intros [v Hv]. exists (k, v). split; [done|]. by apply elem_of_map_to_list.
Qed.

Lemma missing_nil m m' : missing_from m m' = [] ↔ ∀ k, is_Some (m !! k) → is_Some (m' !! k).
Proof.
  unfold missing_from. split.
  - intros H k Hk. apply not_eq_None_Some. intros Hn.
    assert (k ∈ filter (λ k, m' !! k = None) (sorted_keys m)) as Hin.
    { apply list_elem_of_filter. split; [done|]. by apply elem_of_sorted_keys. }
    rewrite H in Hin. by apply elem_of_nil in Hin.
  - intros H. apply filter_drops, list.Forall_forall. intros k Hk%elem_of_sorted_keys%H Hn.
    rewrite Hn in Hk. by destruct Hk.
Qed.

Lemma changed_nil test old new :
  changed test old new = [] ↔
  ∀ k o n, old !! k = Some o → new !! k = Some n → test o n = false.
Proof.
  unfold changed. split.
  - intros H k o n Ho Hn. apply not_true_iff_false. intros Ht.
    assert (k ∈ filter (λ k, match old !! k, new !! k with Some o, Some n => test o n | _, _ => false end = true)
              (sorted_keys new)) as Hin.
    { apply list_elem_of_filter. rewrite Ho, Hn. split; [done|]. apply elem_of_sorted_keys. eauto. }
    rewrite H in Hin. by apply elem_of_nil in Hin.
  - intros H. apply filter_drops, list.Forall_forall. intros k _ Ht.
    destruct (old !! k) eqn:Ho, (new !! k) eqn:Hn; try done. by rewrite (H k _ _ Ho Hn) in Ht.
Qed.

Lemma changed_cons test old new k l :
  changed test old new = k :: l →
  ∃ o n, old !! k = Some o ∧ new !! k = Some n ∧ test o n = true.
Proof.
  intros H. assert (k ∈ changed test old new) as Hin by (rewrite H; left).
  apply list_elem_of_filter in Hin as [Ht _].
  destruct (old !! k) eqn:Ho, (new !! k) eqn:Hn; try done. eauto.
Qed.

(** A drift is reported as low exactly when the tools are the same and each has
    the same risk, mutation flag, approval flag and schema, and some name or
    description changed. *)
Lemma low_drift_is_cosmetic old_tools new_tools :
  let old := by_key old_tools in
  let new := by_key new_tools in
  severity_for_manifest_drift (classify_manifest_drift old_tools new_tools).1 = "low" ↔
  (∀ k, is_Some (old !! k) ↔ is_Some (new !! k)) ∧
  (∀ k o n, old !! k = Some o → new !! k = Some n → shape_differs o n = false) ∧
  (∃ k o n, old !! k = Some o ∧ new !! k = Some n ∧ text_differs o n = true).
Proof.
  intros old new. unfold classify_manifest_drift. cbn [fst]. fold old new.
  set (cosmetic := λ o n, negb (shape_differs o n) && text_differs o n).
  destruct (missing_from new old) as [|a l] eqn:Ha.
  2: { split; [done|]. intros [Hk _]. rewrite (proj2 (missing_nil new old)) in Ha; [done|]. naive_solver. }
  destruct (missing_from old new) as [|a l] eqn:Hr.
  2: { split; [done|]. intros [Hk _]. rewrite (proj2 (missing_nil old new)) in Hr; [done|]. naive_solver. }
  destruct (changed shape_differs old new) as [|a l] eqn:Hm.
  2: { split; [done|]. intros (_ & Hs & _). by rewrite (proj2 (changed_nil _ _ _) Hs) in Hm. }
  destruct (changed cosmetic old new) as [|a l] eqn:Hc.
  - split; [done|]. intros (_ & Hs & (k & o & n & Ho & Hn & Ht)).
    rewrite changed_nil in Hc. specialize (Hc k o n Ho Hn). unfold cosmetic in Hc.
    by rewrite (Hs k o n Ho Hn), Ht in Hc.
  - split; [intros _|done]. split.
    { intros k. rewrite missing_nil in Ha, Hr. by split; auto. }
    split; [by apply changed_nil|].
    apply changed_cons in Hc as (o & n & Ho & Hn & [_ Ht]%andb_true_iff). eauto 10.
Qed.
End Manifest.
