(* ===== verification/Inspect.v ===== *)
(** * Inspection of MCP tool responses

    Models [src/lib/soc/src/mcp_inspect.rs]: the scanner that counts social
    security numbers, card numbers, API keys and injection phrases in a tool's
    response and reports categories and counts only.  The scanners that walk
    over [chars] see a character beyond ASCII as several bytes here, none of
    them a digit or a separator, which makes no difference to them. *)

From S2P Require Import Prelude RustString Prog Canon Models Records External Runtime Gateway Soc.

Inductive FindingCategory := Ssn | CreditCard | ApiKey | InjectionAttempt.

Record Finding := { fd_category : FindingCategory; fd_count : nat }.
Record ScanResult := { scn_findings : list Finding; scn_flagged : bool }.

Module Inspect.

Definition API_KEY_PREFIXES : list string := [
  "sk-"; "ghp_"; "gho_"; "ghu_"; "ghs_"; "ghr_"; "AKIA"; "ASIA"; "AIza"; "xoxb-"; "xoxp-";
  "xoxa-"; "xoxr-"; "glpat-"].

Definition INJECTION_PHRASES : list string := [
  "ignore previous instructions"; "ignore all previous instructions"; "disregard the above";
  "disregard previous instructions"; "you are now"; "new instructions:"; "system prompt:";
  "act as if"; "forget everything above"].

(** ** Social security numbers *)

Definition is_digit (a : ascii) : bool :=
  (48 <=? nat_of_ascii a)%nat && (nat_of_ascii a <=? 57)%nat.
Definition is_dash (a : ascii) : bool := Ascii.eqb a "-".

(** [window] is [l[0..11]] when there are that many bytes. *)
Definition ssn_shape (l : list ascii) : bool :=
  match l with
  | a :: b :: c :: d :: e :: f :: g :: h :: i :: j :: k :: _ =>
      is_digit a && is_digit b && is_digit c && is_dash d && is_digit e && is_digit f && is_dash g &&
      is_digit h && is_digit i && is_digit j && is_digit k
  | _ => false
  end.

Definition left_ok (prev : option ascii) : bool :=
  match prev with Some p => negb (is_digit p) | None => true end.
Definition right_ok (l : list ascii) : bool :=
  match drop 11 l with a :: _ => negb (is_digit a) | [] => true end.

(** The loop of [count_ssn]: [prev] is the byte before [l], and [skip] bytes are
    left of the last match ([i += 11]). *)
Fixpoint count_ssn_from (skip : nat) (prev : option ascii) (l : list ascii) : nat :=
  match l with
  | [] => 0
  | a :: l' =>
      match skip with
      | S n => count_ssn_from n (Some a) l'
      | O =>
          if ssn_shape l && left_ok prev && right_ok l then S (count_ssn_from 10 (Some a) l')
          else count_ssn_from 0 (Some a) l'
      end
  end.

Definition count_ssn (text : string) : nat := count_ssn_from 0 None (String.list_ascii_of_string text).

(** ** Card numbers *)

Definition digit_value (a : ascii) : Z := Z.of_nat (nat_of_ascii a) - 48.

Definition luhn_digit (double : bool) (d : Z) : Z :=
  if double then (let d := d * 2 in if 9 <? d then d - 9 else d)%Z else d.

Fixpoint luhn_sum (double : bool) (rev_digits : list ascii) : Z :=
  match rev_digits with
  | [] => 0
  | a :: l => (luhn_digit double (digit_value a) + luhn_sum (negb double) l)%Z
  end.

Definition luhn_valid (digits : list ascii) : bool := (luhn_sum false (rev digits) `mod` 10 =? 0)%Z.

Definition flush (digits : list ascii) (count : nat) : nat :=
  if (13 <=? length digits)%nat && (length digits <=? 19)%nat && luhn_valid digits then S count else count.

Definition is_separator (a : ascii) : bool := Ascii.eqb a " " || Ascii.eqb a "-".

Fixpoint count_cards_from (digits : list ascii) (separator_run : nat) (count : nat) (l : list ascii) : nat :=
  match l with
  | [] => flush digits count
  | a :: l =>
      if is_digit a then count_cards_from (digits ++ [a]) 0 count l
      else if is_separator a && negb (bool_decide (digits = [])) && (separator_run =? 0)%nat then
        count_cards_from digits (S separator_run) count l
      else count_cards_from [] 0 (flush digits count) l
  end.

Definition count_credit_cards (text : string) : nat :=
  count_cards_from [] 0 0 (String.list_ascii_of_string text).

(** ** Keys and phrases *)

Definition count_api_keys (text : string) : nat :=
  length (List.filter (λ tok, existsb (λ p, contains p tok) API_KEY_PREFIXES) (split_whitespace text)).

Section Scan.
Context {X : External} {HX : HostExternal} {SX : SocExternal}.

Definition count_injection_phrases (text : string) : nat :=
  let lower := to_lowercase text in
  length (List.filter (λ phrase, contains phrase lower) INJECTION_PHRASES).

Definition push_if_nonzero (findings : list Finding) (category : FindingCategory) (count : nat) :
    list Finding :=
  if (0 <? count)%nat then findings ++ [{| fd_category := category; fd_count := count |}] else findings.

Definition scan (text : string) : ScanResult :=
  let findings := push_if_nonzero [] Ssn (count_ssn text) in
  let findings := push_if_nonzero findings CreditCard (count_credit_cards text) in
  let findings := push_if_nonzero findings ApiKey (count_api_keys text) in
  let findings := push_if_nonzero findings InjectionAttempt (count_injection_phrases text) in
  {| scn_findings := findings; scn_flagged := negb (bool_decide (length findings = 0%nat)) |}.
End Scan.

(** ** What the counters count *)

(** An isolated number starts at position [i]. *)
Definition ssn_at (l : list ascii) (i : nat) : bool :=
  ssn_shape (drop i l) && left_ok (match i with O => None | S j => l !! j end) && right_ok (drop i l).

(** The positions of [l], the byte before it being [prev]. *)
Fixpoint ssn_positions (prev : option ascii) (l : list ascii) : nat :=
  match l with
  | [] => 0
  | a :: l' => (if ssn_shape l && left_ok prev && right_ok l then 1 else 0) + ssn_positions (Some a) l'
  end.

Lemma dash_not_digit a : is_dash a = true → is_digit a = false.
Proof. unfold is_dash. by intros ->%Ascii.eqb_eq. Qed.

Lemma digit_not_dash a : is_digit a = true → is_dash a = false.
Proof. intros H. destruct (is_dash a) eqn:Hd; [|done]. apply dash_not_digit in Hd. congruence. Qed.

Lemma ssn_shape_digit l i a :
  ssn_shape l = true → i ∈ [0; 1; 2; 4; 5; 7; 8; 9; 10]%nat → l !! i = Some a → is_digit a = true.
Proof.
  destruct l as [|b0 [|b1 [|b2 [|b3 [|b4 [|b5 [|b6 [|b7 [|b8 [|b9 [|b10 l]]]]]]]]]]]; try done.
  cbn [ssn_shape]. intros H Hi Ha. bool_hyps. rewrite !elem_of_cons in Hi.
  destruct Hi as [->|[->|[->|[->|[->|[->|[->|[->|[->|?%elem_of_nil]]]]]]]]]; by simplify_eq/=.
Qed.

Lemma ssn_shape_dash l i a :
  ssn_shape l = true → i ∈ [3; 6]%nat → l !! i = Some a → is_dash a = true.
Proof.
  destruct l as [|b0 [|b1 [|b2 [|b3 [|b4 [|b5 [|b6 [|b7 [|b8 [|b9 [|b10 l]]]]]]]]]]]; try done.
  cbn [ssn_shape]. intros H Hi Ha. bool_hyps. rewrite !elem_of_cons in Hi.
  destruct Hi as [->|[->|?%elem_of_nil]]; by simplify_eq/=.
Qed.

Lemma shape_not l i a :
  l !! i = Some a →
  (i ∈ [0; 1; 2; 4; 5; 7; 8; 9; 10]%nat ∧ is_dash a = true ∨ i ∈ [3; 6]%nat ∧ is_digit a = true) →
  ssn_shape l = false.
Proof.
  intros Ha [[Hi Hd]|[Hi Hd]]; apply not_true_is_false; intros Hs.
  - apply dash_not_digit in Hd. by rewrite (ssn_shape_digit l i a) in Hd.
  - apply digit_not_dash in Hd. by rewrite (ssn_shape_dash l i a) in Hd.
Qed.

(** No number starts inside another one. *)
Lemma ssn_no_overlap a l :
  ssn_shape (a :: l) = true → ssn_positions (Some a) l = ssn_positions (l !! 9%nat) (drop 10 l).
Proof.
  destruct l as [|b [|c [|d [|e [|f [|g [|h [|i [|j [|k l]]]]]]]]]]; try done.
  cbn [ssn_shape]. rewrite !andb_true_iff. intros H. destruct_and! H.
  assert (∀ p q, is_digit p = true → (if ssn_shape q && left_ok (Some p) && right_ok q then 1 else 0)%nat = 0%nat)
    as Hleft by (intros p q Hp; simpl; by rewrite Hp, andb_false_r).
  cbn [ssn_positions lookup list_lookup drop].
  rewrite (shape_not (b :: _) 2 d) by (try done; left; by split; [list_in|]).
  rewrite (shape_not (c :: _) 1 d) by (try done; left; by split; [list_in|]).
  rewrite (shape_not (d :: _) 0 d) by (try done; left; by split; [list_in|]).
  rewrite (shape_not (e :: _) 2 g) by (try done; left; by split; [list_in|]).
  rewrite (shape_not (f :: _) 1 g) by (try done; left; by split; [list_in|]).
  rewrite (shape_not (g :: _) 0 g) by (try done; left; by split; [list_in|]).
  rewrite (shape_not (h :: _) 3 k) by (try done; right; by split; [list_in|]).
  rewrite !Hleft by done. done.
Qed.

Lemma count_ssn_skips n prev a l :
  count_ssn_from n prev (a :: l) =
  count_ssn_from 0 (match n with O => prev | S m => (a :: l) !! m end) (drop n (a :: l)).
Proof.
  revert prev a l. induction n as [|n IH]; intros prev a l; [done|].
  cbn [count_ssn_from drop]. destruct l as [|b l]; [by destruct n|].
  rewrite IH. by destruct n.
Qed.

Lemma count_ssn_all prev l : count_ssn_from 0 prev l = ssn_positions prev l.
Proof.
  remember (length l) as n eqn:Hn. revert prev l Hn.
  induction n as [n IH] using lt_wf_ind; intros prev l ->. destruct l as [|a l]; [done|].
  cbn [count_ssn_from ssn_positions].
  destruct (ssn_shape (a :: l)) eqn:Hs; [|simpl; by eapply IH; [|done]; simpl; lia].
  destruct (left_ok prev && right_ok (a :: l)) eqn:Hok; rewrite <- andb_assoc, Hok.
  2: { simpl. by eapply IH; [|done]; simpl; lia. }
  rewrite (ssn_no_overlap _ _ Hs). cbn [andb]. f_equal.
  destruct l as [|b l]; [done|]. rewrite count_ssn_skips. eapply IH; [|done].
  rewrite length_drop. simpl. lia.
Qed.

Lemma ssn_positions_filter p l :
  ssn_positions (list.last p) l =
  length (filter (λ i, ssn_at (p ++ l) i = true) (seq (length p) (length l))).
Proof.
  revert p. induction l as [|a l IH]; intros p; [done|].
  cbn [ssn_positions length seq]. specialize (IH (p ++ [a])).
  rewrite last_snoc, length_app, <- app_assoc, Nat.add_1_r in IH. cbn [app] in IH. rewrite IH.
  assert (ssn_at (p ++ a :: l) (length p) = ssn_shape (a :: l) && left_ok (list.last p) && right_ok (a :: l)) as <-.
  { unfold ssn_at. rewrite drop_app_length. do 2 f_equal. f_equal.
    destruct p as [|b p _] using rev_ind; [done|]. rewrite length_app, Nat.add_1_r, last_snoc.
    rewrite <- app_assoc. by apply list_lookup_middle. }
  destruct (ssn_at (p ++ a :: l) (length p)) eqn:Hat.
  - by rewrite list.filter_cons_True.
  - by rewrite list.filter_cons_False by congruence.
Qed.

(** [count_ssn] advances past a match, and counts every isolated number all the
    same. *)
Lemma count_ssn_exact text :
  let l := String.list_ascii_of_string text in
  count_ssn text = length (filter (λ i, ssn_at l i = true) (seq 0 (length l))).
Proof. intros l. unfold count_ssn. rewrite count_ssn_all. exact (ssn_positions_filter [] l). Qed.

Lemma luhn_digit_inj double d d' :
  (0 ≤ d ≤ 9)%Z → (0 ≤ d' ≤ 9)%Z →
  (luhn_digit double d `mod` 10 = luhn_digit double d' `mod` 10)%Z → d = d'.
Proof.
  unfold luhn_digit. destruct double; [|intros; rewrite !Z.mod_small in *; lia].
  intros. destruct (Z.ltb_spec 9 (d * 2)), (Z.ltb_spec 9 (d' * 2));
    rewrite !Z.mod_small in * by lia; lia.
Qed.

Lemma luhn_sum_app double p :
  ∃ d, ∀ q', luhn_sum double (p ++ q') = (luhn_sum double p + luhn_sum d q')%Z.
Proof.
  revert double. induction p as [|a p IH]; intros double; [by exists double|].
  destruct (IH (negb double)) as [d Hd]. exists d. intros q'. simpl. rewrite Hd. lia.
Qed.

Lemma digit_value_range a : is_digit a = true → (0 ≤ digit_value a ≤ 9)%Z.
Proof. unfold is_digit, digit_value. rewrite andb_true_iff, !Nat.leb_le. lia. Qed.

Lemma digit_value_inj a b : digit_value a = digit_value b → a = b.
Proof.
  unfold digit_value. intros H. rewrite <- (ascii_nat_embedding a), <- (ascii_nat_embedding b).
  f_equal. lia.
Qed.

(** A card number with one digit changed does not pass the check. *)
Lemma luhn_detects_one_change p a b q :
  is_digit a = true → is_digit b = true → a ≠ b →
  luhn_valid (p ++ a :: q) = true → luhn_valid (p ++ b :: q) = false.
Proof.
  unfold luhn_valid. intros Ha Hb Hne. rewrite !rev_app_distr. simpl. rewrite <- !app_assoc. simpl.
  destruct (luhn_sum_app false (rev q)) as [d Hd]. rewrite !Hd. simpl.
  rewrite Z.eqb_eq, Z.eqb_neq. intros H0 H1. apply Hne, digit_value_inj.
  apply (luhn_digit_inj d); [by apply digit_value_range..|].
  set (x := luhn_digit d (digit_value a)) in *. set (y := luhn_digit d (digit_value b)) in *.
  set (s := luhn_sum false (rev q)) in *. set (u := luhn_sum (negb d) (rev p)) in *.
  pose proof (Z.div_mod (s + (x + u)) 10 ltac:(lia)). pose proof (Z.div_mod (s + (y + u)) 10 ltac:(lia)).
  assert (x = y + 10 * ((s + (x + u)) / 10 - (s + (y + u)) / 10))%Z as -> by lia.
  by rewrite (Z.mul_comm 10), Z_mod_plus_full.
Qed.
End Inspect.
