(* ===== verification/McpApi.v ===== *)
(** * The MCP API

    Models the handlers of [src/src/src/routes/mcp.rs]: registration,
    discovery with its signature check, drift detection and automatic
    quarantine, tool approval, quarantine and restore, deletion, patch,
    inspection of responses and the three lookups, as programs over storage,
    the gateway's caches and the event stream.  [McpStore.v] has the tables,
    [Manifest.v] the hashes, [Inspect.v] the scanner.  The cursor listing of
    servers is [Pages]'. *)

From S2P Require Import Prelude RustString Prog Canon Models Records External Runtime Risk Caches Receipts Service Gateway ApprovalApi AgentApi McpStore Soc Manifest Inspect.
From stdpp Require Import pretty.

Record RegisterMcpServerRequest := {
  rms_server_key : string;
  rms_name : string;
  rms_owner_team : option string;
  rms_transport : string;
  rms_source : option string;
  rms_trust_level : string;
  rms_endpoint : string;
  rms_manifest_signing_public_key : option string }.

Record DiscoverMcpToolsRequest := {
  dmr_tools : list McpToolManifestItem;
  dmr_manifest_signature : option string }.

Record InspectMcpResponseRequest := {
  imr_agent_id : string;
  imr_tool_key : string;
  imr_response_text : string;
  imr_decision_id : option string;
  imr_run_id : option string }.

Inductive McE : Type → Type :=
| McRegister (record : McpServerRecord) : McE (Fallible unit)
| McGetServer (tenant_id server_key : string) : McE (Fallible (option McpServerRecord))
| McUpdate (tenant_id server_key : string) (patch : McpStore.McpServerPatch) :
    McE (Fallible (option McpServerRecord))
| McDelete (tenant_id server_key : string) : McE (Fallible bool)
| McSetHash (tenant_id server_key hash : string) : McE (Fallible unit)
| McTouch (tenant_id server_key : string) : McE (Fallible unit)
| McDiscover (tenant_id server_key : string) (tools : list McpToolManifestItem) (hash : string) :
    McE (Fallible (list McpToolRecord))
| McListTools (tenant_id server_key : string) : McE (Fallible (list McpToolRecord))
| McSetToolStatus (tenant_id server_key tool_key status : string) : McE (Fallible bool)
| McInsertSnapshot (record : McpManifestSnapshotRecord) : McE (Fallible unit)
| McListSnapshots (tenant_id server_key : string) (limit : Z) :
    McE (Fallible (list McpManifestSnapshotRecord))
| McInsertAudit (record : AuditEventRecord) : McE (Fallible unit)
| McInsertAlert (record : SocAlertRecord) : McE (Fallible unit)
(** the caches of [AppState] *)
| McSkillInvalidate (key : string) : McE unit
| McServerInvalidate (key : string) : McE unit
| McToolInvalidate (key : string) : McE unit
| McToolInvalidateServer (tenant_id server_key : string) : McE unit
| McEmit (event : AseEvent) : McE unit
| McNow : McE DateTime
| McUuid : McE Uuid.

Abbreviation OnMcp A := (prog McE A).

(** The serializers of a manifest and of what the API answers, the reading of a
    stored manifest, and Ed25519 verification. *)
Class McpExternal := {
  json_of_tool : McpToolManifestItem → string;
  json_of_tools : list McpToolManifestItem → string;
  tools_from_json : string → option (list McpToolManifestItem);
  value_of_server : McpServerRecord → Canon.Value;
  value_of_tools : list McpToolRecord → Canon.Value;
  value_of_snapshots : list McpManifestSnapshotRecord → Canon.Value;
  manifest_to_string : Canon.Value → option string;
  (** [sign::verify_signature(public_key, message, signature)] *)
  verify_signature : string → string → string → bool }.

Module McpApi.
Section Api.
Context {X : External} {HX : HostExternal} {AX : ApprovalExternal} {GX : AgentExternal}
        {MX : McpExternal}.

Definition manifest_hash (tools : list McpToolManifestItem) : string :=
  Manifest.compute_mcp_manifest_hash manifest_to_string host_sha256_hex tools.
Definition signed_hash (tools : list McpToolManifestItem) : string :=
  Manifest.mcp_manifest_signed_hash manifest_to_string host_sha256_hex tools.

Definition server_not_found : StatusError := StatusError.not_found "MCP server not found".
Definition database_error : StatusError := StatusError.internal "Database error".
Definition reply (v : Canon.Value) : Response := ApprovalApi.json_reply 200 v.

Definition mcp_audit (tenant_id event_type : string) (action : option string) (server_key : string)
    (event_json : string) (id : Uuid) (now : DateTime) : AuditEventRecord :=
  {| aud_id := uuid_to_string id; aud_tenant_id := tenant_id; aud_event_type := event_type;
     aud_agent_id := None; aud_user_id := None; aud_run_id := None; aud_trace_id := None;
     aud_span_id := None; aud_skill := Some ("mcp:" +:+ server_key); aud_action := action;
     aud_resource := Some server_key; aud_event_json := event_json; aud_input_hash := None;
     aud_output_hash := None; aud_decision_id := None; aud_approval_id := None;
     aud_created_at := now |}.

(** A failure of the insert is ignored. *)
Definition insert_audit (tenant_id event_type : string) (action : option string)
    (server_key event_json : string) : OnMcp unit :=
  id ← trigger McUuid;
  now ← trigger McNow;
  _ ← trigger (McInsertAudit (mcp_audit tenant_id event_type action server_key event_json id now));
  mret tt.

Definition invalidate_server (tenant_id server_key : string) : OnMcp unit :=
  trigger (McServerInvalidate (McpServerCache.cache_key tenant_id server_key)).

(** ** Registration *)

Definition new_server (tenant_id : string) (payload : RegisterMcpServerRequest) (id : Uuid)
    (now : DateTime) : McpServerRecord :=
  {| msr_id := uuid_to_string id; msr_tenant_id := tenant_id;
     msr_server_key := rms_server_key payload; msr_name := rms_name payload;
     msr_owner_team := rms_owner_team payload; msr_transport := rms_transport payload;
     msr_source := rms_source payload; msr_trust_level := rms_trust_level payload;
     msr_endpoint := rms_endpoint payload; msr_version := None; msr_status := "active";
     msr_manifest_hash := ""; msr_last_discovery_at := None; msr_inspection_enabled := false;
     msr_manifest_signing_public_key := rms_manifest_signing_public_key payload;
     msr_created_at := now |}.

Definition register_mcp_server_inner (tenant_id : string) (payload : RegisterMcpServerRequest) :
    OnMcp AuthorizedOutcome :=
  id ← trigger McUuid;
  now ← trigger McNow;
  let record := new_server tenant_id payload id now in
  r ← trigger (McRegister record);
  match r with
  | Err _ => mret (status_error database_error)
  | Ok _ =>
      r ← trigger (McGetServer tenant_id (rms_server_key payload));
      let final_server := match r with Ok (Some s) => s | _ => record end in
      _ ← invalidate_server tenant_id (rms_server_key payload);
      mret (AgentApi.json_outcome 201 (Canon.Object
        [("server_id", Canon.Str (msr_id final_server));
         ("server_key", Canon.Str (rms_server_key payload)); ("status", Canon.Str "active")]))
  end.

Definition register_mcp_server (tenant_id : string) (payload : RegisterMcpServerRequest) :
    OnMcp Response :=
  o ← register_mcp_server_inner tenant_id payload; mret (outcome_to_response o).

(** ** Discovery *)

(** The signature check: a server without a pinned key accepts anything. *)
Definition signature_accepted (server : McpServerRecord) (payload : DiscoverMcpToolsRequest) : bool :=
  match msr_manifest_signing_public_key server with
  | None => true
  | Some pubkey =>
      match dmr_manifest_signature payload with
      | Some signature => verify_signature pubkey (signed_hash (dmr_tools payload)) signature
      | None => false
      end
  end.

(** The loop over the discovered tools: cache and audit event of each. *)
Fixpoint record_tools (tenant_id server_key : string) (tools : list McpToolManifestItem) : OnMcp unit :=
  match tools with
  | [] => mret tt
  | tool :: tools =>
      _ ← trigger (McSkillInvalidate (SkillActionCache.cache_key tenant_id ("mcp:" +:+ server_key)
                                        (mti_tool_key tool)));
      _ ← insert_audit tenant_id "mcp_tool_discovered" (Some (mti_tool_key tool)) server_key
            (json_of_tool tool);
      record_tools tenant_id server_key tools
  end.

Definition record_snapshot (tenant_id server_key hash : string) (tools : list McpToolManifestItem) :
    OnMcp unit :=
  id ← trigger McUuid;
  now ← trigger McNow;
  _ ← trigger (McInsertSnapshot
        {| mss_id := uuid_to_string id; mss_tenant_id := tenant_id; mss_server_key := server_key;
           mss_manifest_hash := hash; mss_manifest_json := json_of_tools tools;
           mss_created_at := now |});
  mret tt.

Definition previous_tools (r : Fallible (list McpManifestSnapshotRecord)) : list McpToolManifestItem :=
  default [] (match r with
              | Ok snapshots => s ← snapshots !! 1%nat; tools_from_json (mss_manifest_json s)
              | Err _ => None
              end).

Definition drift_event (tenant_id server_key pinned hash classification diff : string)
    (id : Uuid) (now : DateTime) : AseEvent :=
  {| ase_event_id := uuid_to_string id; ase_occurred_at := to_rfc3339 now;
     ase_tenant_id := tenant_id; ase_kind := "mcp_manifest_drift"; ase_agent_id := "system";
     ase_decision := "flag"; ase_tool := "mcp:" +:+ server_key; ase_action := "discover";
     ase_resource := Some server_key;
     ase_risk_score := Risk.risk_score_for_level (Manifest.severity_for_manifest_drift classification);
     ase_reason := "MCP tool-manifest drift on server '" +:+ server_key +:+ "' (" +:+
                   classification +:+ "): pinned " +:+ pinned +:+ " != observed " +:+ hash +:+
                   " — " +:+ diff;
     ase_run_id := None; ase_trace_id := None; ase_matched_policies := [];
     ase_redacted_fields := []; ase_schema_version := 1; ase_evidence := None;
     ase_prompt_injection := None; ase_rag_poisoning := None |}.

Definition drift_details (server : McpServerRecord) (server_key pinned hash classification diff : string) :
    Canon.Value :=
  Canon.Object [
    ("server_key", Canon.Str server_key);
    ("owner_team", ApprovalApi.opt_json (msr_owner_team server));
    ("classification", Canon.Str classification);
    ("severity", Canon.Str (Manifest.severity_for_manifest_drift classification));
    ("pinned_manifest_hash", Canon.Str pinned); ("observed_manifest_hash", Canon.Str hash);
    ("diff", Canon.Str diff)].

(** Drift: classify the change, report it, quarantine the server. *)
Definition respond_to_drift (tenant_id server_key : string) (server : McpServerRecord)
    (tools : list McpToolManifestItem) (hash : string) : OnMcp unit :=
  let pinned := msr_manifest_hash server in
  snapshots ← trigger (McListSnapshots tenant_id server_key 2);
  let '(classification, diff) := Manifest.classify_manifest_drift (previous_tools snapshots) tools in
  id ← trigger McUuid;
  now ← trigger McNow;
  _ ← trigger (McEmit (drift_event tenant_id server_key pinned hash classification diff id now));
  r ← trigger (McUpdate tenant_id server_key (McpStore.only_status "quarantined"));
  match r with
  | Ok (Some _) =>
      insert_audit tenant_id "mcp_server_auto_quarantined" None server_key
        (json_of_value (drift_details server server_key pinned hash classification diff))
  | _ => mret tt
  end.

(** A failed pin is logged and the discovery goes on. *)
Definition pin_manifest (tenant_id server_key : string) (server : McpServerRecord)
    (tools : list McpToolManifestItem) (hash : string) : OnMcp unit :=
  let pinned := msr_manifest_hash server in
  _ ← (if negb (is_empty pinned) && (pinned != hash)
       then respond_to_drift tenant_id server_key server tools hash else mret tt);
  if pinned != hash then _ ← trigger (McSetHash tenant_id server_key hash); mret tt else mret tt.

Definition discover_mcp_tools_inner (tenant_id server_key : string) (payload : DiscoverMcpToolsRequest) :
    OnMcp AuthorizedOutcome :=
  r ← trigger (McGetServer tenant_id server_key);
  match r with
  | Ok None => mret (status_error server_not_found)
  | Err _ => mret (status_error database_error)
  | Ok (Some server) =>
      if negb (signature_accepted server payload) then
        mret (status_error (StatusError.forbidden
          "Invalid or missing MCP manifest signature for a server with a pinned signing key"))
      else
        let hash := manifest_hash (dmr_tools payload) in
        r ← trigger (McDiscover tenant_id server_key (dmr_tools payload) hash);
        match r with
        | Err _ => mret (status_error (StatusError.internal "Failed to register MCP tools"))
        | Ok tools =>
            _ ← record_tools tenant_id server_key (dmr_tools payload);
            _ ← record_snapshot tenant_id server_key hash (dmr_tools payload);
            _ ← pin_manifest tenant_id server_key server (dmr_tools payload) hash;
            _ ← trigger (McTouch tenant_id server_key);
            _ ← invalidate_server tenant_id server_key;
            _ ← trigger (McToolInvalidateServer tenant_id server_key);
            mret (AgentApi.json_outcome 200 (Canon.Object
              [("status", Canon.Str "success"); ("server_key", Canon.Str server_key);
               ("tools_registered", Canon.Number_ (Canon.PosInt (Z.of_nat (length (dmr_tools payload)))));
               ("tools", value_of_tools tools)]))
        end
  end.

Definition discover_mcp_tools (tenant_id server_key : string) (payload : DiscoverMcpToolsRequest) :
    OnMcp Response :=
  o ← discover_mcp_tools_inner tenant_id server_key payload; mret (outcome_to_response o).

(** ** Lookups *)

Definition get_mcp_server (tenant_id server_key : string) : OnMcp Response :=
  r ← trigger (McGetServer tenant_id server_key);
  mret match r with
       | Ok (Some server) => reply (value_of_server server)
       | Ok None => into_response server_not_found
       | Err _ => into_response database_error
       end.

Definition get_mcp_tool_manifest (tenant_id server_key : string) : OnMcp Response :=
  r ← trigger (McGetServer tenant_id server_key);
  match r with
  | Ok None => mret (into_response server_not_found)
  | Err _ => mret (into_response database_error)
  | Ok (Some _) =>
      r ← trigger (McListTools tenant_id server_key);
      mret match r with
           | Ok tools => reply (Canon.Object [("server_key", Canon.Str server_key);
                                              ("tools", value_of_tools tools)])
           | Err _ => into_response database_error
           end
  end.

Definition get_mcp_manifest_history (tenant_id server_key : string) : OnMcp Response :=
  r ← trigger (McGetServer tenant_id server_key);
  match r with
  | Ok None => mret (into_response server_not_found)
  | Err _ => mret (into_response database_error)
  | Ok (Some _) =>
      r ← trigger (McListSnapshots tenant_id server_key 20);
      mret match r with
           | Ok snapshots => reply (Canon.Object [("server_key", Canon.Str server_key);
                                                  ("snapshots", value_of_snapshots snapshots)])
           | Err _ => into_response database_error
           end
  end.

(** ** Tool status *)

Definition update_mcp_tool_status (tenant_id server_key tool_key status : string) : OnMcp Response :=
  r ← trigger (McSetToolStatus tenant_id server_key tool_key status);
  match r with
  | Ok true =>
      _ ← insert_audit tenant_id "mcp_tool_status_changed" (Some tool_key) server_key
            (json_of_value (Canon.Object
               [("server_key", Canon.Str server_key); ("tool_key", Canon.Str tool_key);
                ("status", Canon.Str status)]));
      _ ← trigger (McToolInvalidate (McpToolCache.cache_key tenant_id server_key tool_key));
      mret (reply (Canon.Object [("server_key", Canon.Str server_key);
                                 ("tool_key", Canon.Str tool_key); ("status", Canon.Str status)]))
  | Ok false => mret (into_response (StatusError.not_found "MCP tool not found"))
  | Err _ => mret (into_response database_error)
  end.

Definition approve_mcp_tool (tenant_id server_key tool_key : string) : OnMcp Response :=
  update_mcp_tool_status tenant_id server_key tool_key "approved".
Definition disable_mcp_tool (tenant_id server_key tool_key : string) : OnMcp Response :=
  update_mcp_tool_status tenant_id server_key tool_key "disabled".

(** ** Quarantine, restore, delete, patch *)

Definition update_mcp_server_quarantine (tenant_id server_key status audit_action : string)
    (reason : option string) : OnMcp Response :=
  r ← trigger (McUpdate tenant_id server_key (McpStore.only_status status));
  match r with
  | Ok (Some _) =>
      _ ← insert_audit tenant_id audit_action (Some audit_action) server_key
            (json_of_value (Canon.Object
               [("server_key", Canon.Str server_key); ("new_status", Canon.Str status);
                ("action", Canon.Str audit_action); ("reason", ApprovalApi.opt_json reason)]));
      _ ← invalidate_server tenant_id server_key;
      mret (reply (Canon.Object
        [("status", Canon.Str status); ("action", Canon.Str audit_action);
         ("reason_recorded", Canon.Bool (bool_decide (is_Some reason)));
         ("server_key", Canon.Str server_key)]))
  | Ok None => mret (into_response server_not_found)
  | Err _ => mret (into_response database_error)
  end.

Definition quarantine_mcp_server (tenant_id server_key : string) (body : option ActiveResponseRequest) :
    OnMcp Response :=
  update_mcp_server_quarantine tenant_id server_key "quarantined" "mcp_server_quarantined"
    (AgentApi.active_response_reason body).
Definition restore_mcp_server (tenant_id server_key : string) (body : option ActiveResponseRequest) :
    OnMcp Response :=
  update_mcp_server_quarantine tenant_id server_key "active" "mcp_server_restored"
    (AgentApi.active_response_reason body).

(** [write_admin_action_audit_event] of [routes/mod.rs]. *)
Definition admin_audit (tenant_id action server_key : string) (details : Canon.Value) : OnMcp unit :=
  id ← trigger McUuid;
  now ← trigger McNow;
  _ ← trigger (McInsertAudit (AgentApi.agent_audit tenant_id "admin_action" None (Some action)
                                (Some server_key) (json_of_value details) id now));
  mret tt.

Definition delete_mcp_server (tenant_id server_key : string) : OnMcp Response :=
  r ← trigger (McDelete tenant_id server_key);
  match r with
  | Ok true =>
      _ ← admin_audit tenant_id "mcp_server_deleted" server_key
            (Canon.Object [("server_key", Canon.Str server_key)]);
      _ ← invalidate_server tenant_id server_key;
      _ ← trigger (McToolInvalidateServer tenant_id server_key);
      mret (reply (Canon.Object [("message", Canon.Str "MCP server successfully deleted")]))
  | Ok false => mret (into_response server_not_found)
  | Err _ => mret (into_response database_error)
  end.

Definition update_mcp_server (tenant_id server_key : string) (patch : McpStore.McpServerPatch) :
    OnMcp Response :=
  r ← trigger (McGetServer tenant_id server_key);
  match r with
  | Ok None => mret (into_response server_not_found)
  | Err _ => mret (into_response database_error)
  | Ok (Some _) =>
      r ← trigger (McUpdate tenant_id server_key patch);
      match r with
      | Ok (Some server) =>
          _ ← invalidate_server tenant_id server_key;
          mret (reply (value_of_server server))
      | Ok None => mret (into_response server_not_found)
      | Err _ => mret (into_response database_error)
      end
  end.

(** ** Inspection *)

Definition category_rule (c : FindingCategory) : string :=
  match c with
  | InjectionAttempt => "mcp_response_injection_attempt"
  | _ => "mcp_response_sensitive_data"
  end.

(** [{:?}] of the category, and its serialized name. *)
Definition category_debug (c : FindingCategory) : string :=
  match c with
  | Ssn => "Ssn" | CreditCard => "CreditCard" | ApiKey => "ApiKey"
  | InjectionAttempt => "InjectionAttempt"
  end.
Definition category_name (c : FindingCategory) : string :=
  match c with
  | Ssn => "ssn" | CreditCard => "credit_card" | ApiKey => "api_key"
  | InjectionAttempt => "injection_attempt"
  end.

Definition finding_value (f : Finding) : Canon.Value :=
  Canon.Object [("category", Canon.Str (category_name (fd_category f)));
                ("count", Canon.Number_ (Canon.PosInt (Z.of_nat (fd_count f))))].

(** A failure of the insert is logged. *)
Fixpoint insert_alerts (tenant_id server_key agent_id tool_key source_event_id now : string)
    (findings : list Finding) : OnMcp unit :=
  match findings with
  | [] => mret tt
  | f :: findings =>
      id ← trigger McUuid;
      _ ← trigger (McInsertAlert
            {| sal_id := uuid_to_string id; sal_tenant_id := tenant_id;
               sal_rule := category_rule (fd_category f); sal_severity := "high";
               sal_agent_id := agent_id; sal_source_event_id := source_event_id;
               sal_summary := "MCP server '" +:+ server_key +:+ "' tool '" +:+ tool_key +:+
                              "' response flagged: " +:+ category_debug (fd_category f) +:+
                              " (count=" +:+ pretty (fd_count f) +:+ ")";
               sal_created_at := now; sal_triage_recommendation := None |});
      insert_alerts tenant_id server_key agent_id tool_key source_event_id now findings
  end.

Definition report_scan (tenant_id server_key : string) (payload : InspectMcpResponseRequest)
    (result : ScanResult) : OnMcp Response :=
  _ ← (if scn_flagged result then
         now ← trigger McNow;
         source_event_id ← match imr_decision_id payload with
                           | Some id => mret id
                           | None => id ← trigger McUuid; mret ("mcp_inspect:" +:+ uuid_to_string id)
                           end;
         insert_alerts tenant_id server_key (imr_agent_id payload) (imr_tool_key payload)
           source_event_id (to_rfc3339 now) (scn_findings result)
       else mret tt);
  mret (reply (Canon.Object
    [("inspected", Canon.Bool true); ("flagged", Canon.Bool (scn_flagged result));
     ("findings", Canon.Array (map finding_value (scn_findings result)))])).

Context {SX : SocExternal}.

Definition inspect_mcp_response (tenant_id server_key : string) (payload : InspectMcpResponseRequest) :
    OnMcp Response :=
  r ← trigger (McGetServer tenant_id server_key);
  match r with
  | Ok None => mret (into_response server_not_found)
  | Err _ => mret (into_response database_error)
  | Ok (Some server) =>
      if negb (msr_inspection_enabled server) then
        mret (reply (Canon.Object [("inspected", Canon.Bool false);
                                   ("reason", Canon.Str "inspection_disabled")]))
      else report_scan tenant_id server_key payload (Inspect.scan (imr_response_text payload))
  end.
End Api.
End McpApi.
