(* ===== verification/SocStore.v ===== *)
(** * The tables of the security operations plane

    Models the statements of [src/lib/storage/src/db/soc.rs] on alerts,
    incidents and baselines, of [db/webhooks.rs] on subscriptions and of
    [db/alerting.rs] on silences.  A table is the list of its rows in insertion
    order; the two counters of the baselines are maps.  Text is compared by
    bytes, as SQLite does. *)

From S2P Require Import Prelude RustString Prog Canon Models Records External Bans Gateway Soc.

(** ** Alerts *)

Module Alerts.

Definition insert_soc_alert (rows : list SocAlertRecord) (r : SocAlertRecord) :
    option (list SocAlertRecord) :=
  if existsb (λ x, sal_id x == sal_id r) rows then None else Some (rows ++ [r]).

Definition with_triage (json : string) (r : SocAlertRecord) : SocAlertRecord := {|
  sal_id := sal_id r; sal_tenant_id := sal_tenant_id r; sal_rule := sal_rule r;
  sal_severity := sal_severity r; sal_agent_id := sal_agent_id r;
  sal_source_event_id := sal_source_event_id r; sal_summary := sal_summary r;
  sal_created_at := sal_created_at r; sal_triage_recommendation := Some json |}.

Definition set_soc_alert_triage_recommendation (rows : list SocAlertRecord)
    (tenant_id alert_id json : string) : bool * list SocAlertRecord :=
  let '(n, rows') :=
    update_rows (λ r, (sal_tenant_id r == tenant_id) && (sal_id r == alert_id)) (with_triage json) rows in
  ((0 <? n)%nat, rows').

Definition count {A} (test : A → bool) (rows : list A) : Z := Z.of_nat (length (List.filter test rows)).

Definition count_similar_soc_alerts (rows : list SocAlertRecord)
    (tenant_id rule agent_id alert_id : string) : Z :=
  count (λ r, (sal_tenant_id r == tenant_id) && (sal_rule r == rule) && (sal_agent_id r == agent_id) &&
              (sal_id r != alert_id)) rows.

(** [since] is what [datetime('now', '-24 hours')] prints. *)
Definition count_agent_recent_soc_alerts (rows : list SocAlertRecord)
    (tenant_id agent_id since : string) : Z :=
  count (λ r, (sal_tenant_id r == tenant_id) && (sal_agent_id r == agent_id) &&
              String.leb since (sal_created_at r)) rows.

Definition needs_triage (tenant_id : string) (r : SocAlertRecord) : bool :=
  (sal_tenant_id r == tenant_id) && ((sal_severity r == "high") || (sal_severity r == "critical")) &&
  match sal_triage_recommendation r with None => true | Some s => is_empty s end.
End Alerts.

(** ** Incidents *)

Module Incidents.
Section Incidents.
Context {X : External} {HX : HostExternal} {SX : SocExternal}.

Definition DEFAULT_INCIDENT_DEDUP_WINDOW_SECS : Z := 3600.

Definition window_secs (env : option string) : Z :=
  match env ≫= parse_i64 with
  | Some v => if (0 <? v)%Z then v else DEFAULT_INCIDENT_DEDUP_WINDOW_SECS
  | None => DEFAULT_INCIDENT_DEDUP_WINDOW_SECS
  end.

Definition cutoff (env : option string) (now : DateTime) : string :=
  to_rfc3339 (now - window_secs env * 1000000000)%Z.

Definition same_case (r x : SocIncidentRecord) : bool :=
  (sin_tenant_id x == sin_tenant_id r) && (sin_agent_id x == sin_agent_id r) && (sin_kind x == sin_kind r).

Definition mergeable (r : SocIncidentRecord) (since : string) (x : SocIncidentRecord) : bool :=
  same_case r x && (sin_status x == "open") && String.leb since (sin_opened_at x).

(** [ORDER BY opened_at DESC LIMIT 1]: among equals, the first inserted. *)
Fixpoint latest (rows : list SocIncidentRecord) : option SocIncidentRecord :=
  match rows with
  | [] => None
  | r :: rows' =>
      match latest rows' with
      | Some r' => if String.leb (sin_opened_at r') (sin_opened_at r) then Some r else Some r'
      | None => Some r
      end
  end.

Fixpoint union_ids (merged new_ids : list string) : list string :=
  match new_ids with
  | [] => merged
  | i :: l => union_ids (if existsb (String.eqb i) merged then merged else merged ++ [i]) l
  end.

Definition evidence (r : SocIncidentRecord) : list string := default [] (parse_ids (sin_source_event_ids r)).

(** The row is written open whatever the record says. *)
Definition opened (r : SocIncidentRecord) : SocIncidentRecord := {|
  sin_id := sin_id r; sin_tenant_id := sin_tenant_id r; sin_kind := sin_kind r;
  sin_severity := sin_severity r; sin_agent_id := sin_agent_id r; sin_summary := sin_summary r;
  sin_source_event_ids := sin_source_event_ids r; sin_opened_at := sin_opened_at r;
  sin_status := "open"; sin_closed_at := None |}.

Definition insert_soc_incident (rows : list SocIncidentRecord) (r : SocIncidentRecord) :
    option (list SocIncidentRecord) :=
  if existsb (λ x, sin_id x == sin_id r) rows then None else Some (rows ++ [opened r]).

Definition merged_into (r : SocIncidentRecord) (json : string) (x : SocIncidentRecord) :
    SocIncidentRecord := {|
  sin_id := sin_id x; sin_tenant_id := sin_tenant_id x; sin_kind := sin_kind x;
  sin_severity := sin_severity x; sin_agent_id := sin_agent_id x; sin_summary := sin_summary r;
  sin_source_event_ids := json; sin_opened_at := sin_opened_at r; sin_status := sin_status x;
  sin_closed_at := sin_closed_at x |}.

Definition upsert_soc_incident (env : option string) (now : DateTime) (rows : list SocIncidentRecord)
    (r : SocIncidentRecord) : option (IncidentUpsertResult * list SocIncidentRecord) :=
  match latest (List.filter (mergeable r (cutoff env now)) rows) with
  | Some existing =>
      let json := json_of_ids (union_ids (evidence existing) (evidence r)) in
      Some (Merged (sin_id existing),
            (update_rows (λ x, (sin_id x == sin_id existing) && (sin_tenant_id x == sin_tenant_id r))
               (merged_into r json) rows).2)
  | None =>
      match insert_soc_incident rows r with
      | Some rows' => Some (Inserted, rows')
      | None => None
      end
  end.

Definition closed (at_ : string) (r : SocIncidentRecord) : SocIncidentRecord := {|
  sin_id := sin_id r; sin_tenant_id := sin_tenant_id r; sin_kind := sin_kind r;
  sin_severity := sin_severity r; sin_agent_id := sin_agent_id r; sin_summary := sin_summary r;
  sin_source_event_ids := sin_source_event_ids r; sin_opened_at := sin_opened_at r;
  sin_status := "closed"; sin_closed_at := Some at_ |}.

Definition close_soc_incident (rows : list SocIncidentRecord) (tenant_id incident_id : string)
    (now : DateTime) : bool * list SocIncidentRecord :=
  let '(n, rows') :=
    update_rows (λ x, (sin_tenant_id x == tenant_id) && (sin_id x == incident_id) &&
                      (sin_status x != "closed")) (closed (to_rfc3339 now)) rows in
  ((n =? 1)%nat, rows').

Definition get_soc_incident (rows : list SocIncidentRecord) (tenant_id incident_id : string) :
    option SocIncidentRecord :=
  find (λ x, (sin_tenant_id x == tenant_id) && (sin_id x == incident_id)) rows.
End Incidents.
End Incidents.

(** ** Baselines *)

Module Baselines.
(** per tenant, agent and hour *)
Abbreviation Counts := (gmap (string * string * string) Z).

Definition increment_agent_hourly_count (t : Counts) (tenant_id agent_id bucket : string) : Z * Counts :=
  let count := (default 0 (t !! (tenant_id, agent_id, bucket)) + 1)%Z in
  (count, <[(tenant_id, agent_id, bucket) := count]> t).

Definition get_recent_hourly_counts (t : Counts) (tenant_id agent_id since current : string) : list Z :=
  (filter (λ '((tn, ag, bucket), _), tn = tenant_id ∧ ag = agent_id ∧
     String.leb since bucket = true ∧ String.ltb bucket current = true) (map_to_list t)).*2.

(** tenant, agent, tool, action *)
Abbreviation Known := (gset (string * string * string * string)).

Definition record_known_tool_action (t : Known) (tenant_id agent_id tool action : string) : bool * Known :=
  if decide ((tenant_id, agent_id, tool, action) ∈ t) then (false, t)
  else (true, {[(tenant_id, agent_id, tool, action)]} ∪ t).
End Baselines.

(** ** Webhook subscriptions *)

Module Webhooks.

(** SQLite's [LIKE]: [%] is any text, [_] any character, ASCII letters match
    in either case. *)
Fixpoint like (pattern : string) : string → bool :=
  match pattern with
  | EmptyString => is_empty
  | String p pattern' =>
      if Ascii.eqb p "%" then
        fix any (s : string) : bool :=
          like pattern' s || match s with EmptyString => false | String _ s' => any s' end
      else λ s,
        match s with
        | EmptyString => false
        | String c s' =>
            (Ascii.eqb p "_" || (to_ascii_lowercase (String p "") == to_ascii_lowercase (String c ""))) &&
            like pattern' s'
        end
  end.

Definition subscribed (event_types event_kind : string) : bool :=
  (event_types == "*") || like ("%," +:+ event_kind +:+ ",%") ("," +:+ event_types +:+ ",").

Definition list_matching_webhook_subscriptions (rows : list WebhookSubscriptionRecord)
    (tenant_id event_kind : string) : list WebhookSubscriptionRecord :=
  List.filter (λ s, (wsb_tenant_id s == tenant_id) && (wsb_status s == "active") &&
                    (wsb_delivery_status s != "dead") && subscribed (wsb_event_types s) event_kind) rows.

Definition health (failures : Z) : string :=
  if (10 <=? failures)%Z then "dead" else if (3 <=? failures)%Z then "degraded" else "healthy".

Definition with_health (failures : Z) (status : string) (delivered succeeded : option DateTime)
    (s : WebhookSubscriptionRecord) : WebhookSubscriptionRecord := {|
  wsb_id := wsb_id s; wsb_tenant_id := wsb_tenant_id s; wsb_url := wsb_url s;
  wsb_secret_hash := wsb_secret_hash s; wsb_event_types := wsb_event_types s;
  wsb_status := wsb_status s; wsb_created_at := wsb_created_at s;
  wsb_delivery_secret := wsb_delivery_secret s; wsb_min_severity := wsb_min_severity s;
  wsb_format := wsb_format s; wsb_delivery_status := status; wsb_consecutive_failures := failures;
  wsb_last_delivery_at := delivered; wsb_last_success_at := succeeded |}.

Definition delivered (success : bool) (now : DateTime) (s : WebhookSubscriptionRecord) :
    WebhookSubscriptionRecord :=
  if success then with_health 0 "healthy" (Some now) (Some now) s
  else
    let failures := (wsb_consecutive_failures s + 1)%Z in
    with_health failures (health failures) (Some now) (wsb_last_success_at s) s.

Definition record_webhook_delivery_result (rows : list WebhookSubscriptionRecord)
    (tenant_id id : string) (success : bool) (now : DateTime) : list WebhookSubscriptionRecord :=
  (update_rows (λ s, (wsb_tenant_id s == tenant_id) && (wsb_id s == id)) (delivered success now) rows).2.
End Webhooks.

(** ** Silences *)

Module Silences.

Definition expired (r : AlertSilenceRecord) : AlertSilenceRecord := {|
  sil_id := sil_id r; sil_tenant_id := sil_tenant_id r; sil_rule_key := sil_rule_key r;
  sil_agent_id := sil_agent_id r; sil_comment := sil_comment r; sil_starts_at := sil_starts_at r;
  sil_ends_at := sil_ends_at r; sil_created_by := sil_created_by r; sil_status := "expired";
  sil_created_at := sil_created_at r |}.

Definition expire_stale_silences (rows : list AlertSilenceRecord) (tenant_id : string) (now : DateTime) :
    list AlertSilenceRecord :=
  (update_rows (λ r, (sil_tenant_id r == tenant_id) && (sil_status r == "active") &&
                     (sil_ends_at r <=? now)%Z) expired rows).2.

Definition covers (wanted actual : option string) : bool :=
  match wanted with Some w => bool_decide (actual = Some w) | None => true end.

Definition silence_matches_row (s : AlertSilenceRecord) (rule_key agent_id : option string) : bool :=
  covers (sil_rule_key s) rule_key && covers (sil_agent_id s) agent_id.

Definition is_alert_silenced (rows : list AlertSilenceRecord) (tenant_id : string)
    (rule_key agent_id : option string) (at_ now : DateTime) : bool * list AlertSilenceRecord :=
  let rows' := expire_stale_silences rows tenant_id now in
  (existsb (λ s, (sil_tenant_id s == tenant_id) && (sil_status s == "active") &&
                 (sil_starts_at s <=? at_)%Z && (at_ <? sil_ends_at s)%Z &&
                 silence_matches_row s rule_key agent_id) rows', rows').
End Silences.

(** ** No evidence is lost *)

Lemma leb_trans s1 s2 s3 : String.leb s1 s2 = true → String.leb s2 s3 = true → String.leb s1 s3 = true.
Proof.
  revert s2 s3. unfold String.leb. induction s1 as [|a s1 IH]; intros [|b s2] [|c s3]; try done.
  simpl. unfold Ascii.compare. specialize (IH s2 s3).
  destruct (N.compare_spec (N_of_ascii a) (N_of_ascii b)) as [Hab|Hab|Hab]; [| |done];
    destruct (N.compare_spec (N_of_ascii b) (N_of_ascii c)) as [Hbc|Hbc|Hbc]; [| |done| | |done];
    destruct (N.compare_spec (N_of_ascii a) (N_of_ascii c)) as [Hac|Hac|Hac]; try lia; auto.
Qed.

Section Evidence.
Context {X : External} {HX : HostExternal} {SX : SocExternal}.
Import Incidents.

Lemma union_ids_spec m n :
  m `prefix_of` union_ids m n ∧ (∀ i, i ∈ union_ids m n ↔ i ∈ m ∨ i ∈ n) ∧
  (NoDup m → NoDup (union_ids m n)).
Proof.
  revert m. induction n as [|i n IH]; intros m; simpl; [set_solver|].
  destruct (existsb (String.eqb i) m) eqn:Hi.
  - apply existsb_exists in Hi as (j & Hj%list_elem_of_In & ->%String.eqb_eq).
    destruct (IH m) as (Hp & He & Hn). split; [done|]. split; [|done]. intros i. rewrite He. set_solver.
  - destruct (IH (m ++ [i])) as (Hp & He & Hn). split_and!.
    + etrans; [|exact Hp]. by apply prefix_app_r.
    + intros j. rewrite He. set_solver.
    + intros Hm. apply Hn. apply list.NoDup_app. split; [done|]. split; [|apply NoDup_singleton].
      intros j Hj ->%list_elem_of_singleton.
      assert (existsb (String.eqb i) m = true) as Ht; [|congruence].
      apply existsb_exists. exists i. rewrite String.eqb_refl. split; [by apply list_elem_of_In|done].
Qed.

Lemma latest_spec rows r :
  latest rows = Some r → r ∈ rows ∧ ∀ x, x ∈ rows → String.leb (sin_opened_at x) (sin_opened_at r) = true.
Proof.
  revert r. induction rows as [|y rows IH]; [done|]. intros r. simpl.
  destruct (latest rows) as [r'|] eqn:Hl.
  - destruct (IH r' eq_refl) as [Hin Hmax].
    destruct (String.leb (sin_opened_at r') (sin_opened_at y)) eqn:Hle; intros [= <-].
    + split; [set_solver|]. intros x [->|Hx]%elem_of_cons.
      * by destruct (String.leb_total (sin_opened_at y) (sin_opened_at y)).
      * eapply leb_trans; eauto.
    + split; [set_solver|]. intros x [->|Hx]%elem_of_cons; [|by apply Hmax].
      destruct (String.leb_total (sin_opened_at y) (sin_opened_at r')); congruence.
  - intros [= <-]. destruct rows as [|z rows]; [|simpl in Hl; by destruct (latest rows); [case_match|]].
    split; [set_solver|]. intros x ->%list_elem_of_singleton.
    by destruct (String.leb_total (sin_opened_at y) (sin_opened_at y)).
Qed.

Lemma latest_None rows : latest rows = None → rows = [].
Proof. destruct rows as [|r rows]; [done|]. simpl. destruct (latest rows); [case_match|]; done. Qed.

(** The case of a record: tenant, agent and kind. *)
Definition case_of (r : SocIncidentRecord) : string * string * string :=
  (sin_tenant_id r, sin_agent_id r, sin_kind r).

Lemma same_case_spec r x : same_case r x = true ↔ case_of x = case_of r.
Proof.
  unfold same_case, case_of. rewrite !andb_true_iff, !String.eqb_eq. split; [intros [[-> ->] ->]; done|].
  by intros [= -> -> ->].
Qed.

(** Recording an incident never loses evidence.  Either there is no open
    incident of the same tenant, agent and kind in the window and a new open
    row is added at the end, the other rows untouched; or the record is merged
    into the most recently opened of them: that row alone changes, takes the
    new summary and time, and lists the earlier events first and then the new
    ones, none twice.  In both cases an open row of the case holds every event
    of the record. *)
Theorem upsert_keeps_evidence env now rows r res rows' :
  (∀ l, parse_ids (json_of_ids l) = Some l) → NoDup (map sin_id rows) →
  upsert_soc_incident env now rows r = Some (res, rows') →
  (∃ row, row ∈ rows' ∧ case_of row = case_of r ∧ sin_status row = "open" ∧
     sin_opened_at row = sin_opened_at r ∧ sin_summary row = sin_summary r ∧
     evidence r ⊆ evidence row) ∧
  match res with
  | Inserted =>
      rows' = rows ++ [opened r] ∧
      ∀ x, x ∈ rows → case_of x = case_of r → sin_status x = "open" →
        String.leb (cutoff env now) (sin_opened_at x) = false
  | Merged id =>
      ∃ i x x', rows !! i = Some x ∧ rows' = <[i := x']> rows ∧ sin_id x = id ∧ sin_id x' = id ∧
        case_of x = case_of r ∧ sin_status x = "open" ∧
        String.leb (cutoff env now) (sin_opened_at x) = true ∧
        (∀ y, y ∈ rows → case_of y = case_of r → sin_status y = "open" →
           String.leb (sin_opened_at y) (sin_opened_at x) = true ∨
           String.leb (cutoff env now) (sin_opened_at y) = false) ∧
        evidence x `prefix_of` evidence x' ∧
        (∀ e, e ∈ evidence x' ↔ e ∈ evidence x ∨ e ∈ evidence r) ∧
        (NoDup (evidence x) → NoDup (evidence x'))
  end.
Proof.
  intros Hjson Hnd. unfold upsert_soc_incident.
  destruct (latest _) as [x|] eqn:Hl.
  - intros Heq%(inj Some). apply pair_equal_spec in Heq as [<- <-]. apply latest_spec in Hl as [Hx Hmax].
    apply list_elem_of_In, filter_In in Hx as [Hx Hm]. apply list_elem_of_In in Hx.
    unfold mergeable in Hm. rewrite !andb_true_iff, same_case_spec, String.eqb_eq in Hm.
    destruct Hm as [[Hcase Hopen] Hsince].
    apply list_elem_of_lookup in Hx as [i Hi].
    set (ids := union_ids (evidence x) (evidence r)). set (x' := merged_into r (json_of_ids ids) x).
    assert (evidence x' = ids) as Hids by (unfold evidence; simpl; by rewrite Hjson).
    rewrite (update_rows_one _ _ _ i x Hi).
    + destruct (union_ids_spec (evidence x) (evidence r)) as (Hp & He & Hn). split.
      * exists x'. split; [apply list_elem_of_lookup; exists i; apply list_lookup_insert_eq; by eapply lookup_lt_Some|].
        split_and!; [done..|]. rewrite Hids. intros e Hr. apply He. by right.
      * exists i, x, x'. rewrite Hids. split_and!; [done..| |done|done|done].
        intros y Hy Hc Ho. destruct (String.leb (cutoff env now) (sin_opened_at y)) eqn:Hs; [|by right].
        left. apply Hmax. apply list_elem_of_In, filter_In. rewrite <- list_elem_of_In. split; [done|].
        unfold mergeable. by rewrite (proj2 (same_case_spec r y) Hc), Ho, Hs.
    + rewrite !String.eqb_refl. by injection Hcase as -> _ _; rewrite String.eqb_refl.
    + intros j y Hj [Hy _]%andb_true_iff. apply String.eqb_eq in Hy.
      eapply NoDup_lookup; [exact Hnd| |]; rewrite list_lookup_fmap; [by rewrite Hj|].
      rewrite Hi. simpl. by rewrite Hy.
  - apply latest_None in Hl. unfold insert_soc_incident.
    destruct (existsb _ rows); [done|]. intros [= <- <-]. split.
    + exists (opened r). split; [set_solver|]. done.
    + split; [done|]. intros x Hx Hc Ho.
      destruct (String.leb (cutoff env now) (sin_opened_at x)) eqn:Hs; [|done].
      assert (x ∈ List.filter (mergeable r (cutoff env now)) rows) as Hin; [|rewrite Hl in Hin; set_solver].
      apply list_elem_of_In, filter_In. rewrite <- list_elem_of_In. split; [done|].
      unfold mergeable. by rewrite (proj2 (same_case_spec r x) Hc), Ho, Hs.
Qed.
End Evidence.

(** ** The health of a subscription *)

Section Health.
Import Webhooks.

(** The failures since the last success. *)
Definition failures_in_a_row (results : list (bool * DateTime)) : Z :=
  fold_left (λ n '(success, _), if (success : bool) then 0 else n + 1)%Z results 0%Z.

Definition deliveries (s : WebhookSubscriptionRecord) (results : list (bool * DateTime)) :
    WebhookSubscriptionRecord :=
  fold_left (λ s '(success, now), delivered success now s) results s.

(** A new subscription is offered the tenant's events of its types exactly as
    long as fewer than ten deliveries in a row have failed. *)
Lemma subscription_offered s results tenant_id kind :
  wsb_consecutive_failures s = 0%Z → wsb_delivery_status s = "healthy" → wsb_status s = "active" →
  wsb_tenant_id s = tenant_id → subscribed (wsb_event_types s) kind = true →
  list_matching_webhook_subscriptions [deliveries s results] tenant_id kind =
    if (10 <=? failures_in_a_row results)%Z then [] else [deliveries s results].
Proof.
  intros Hf Hh Ha Ht Hs.
  assert (wsb_consecutive_failures (deliveries s results) = failures_in_a_row results ∧
          wsb_delivery_status (deliveries s results) = health (failures_in_a_row results) ∧
          wsb_status (deliveries s results) = "active" ∧
          wsb_tenant_id (deliveries s results) = tenant_id ∧
          wsb_event_types (deliveries s results) = wsb_event_types s) as (_ & Hst & Hac & Htn & Het).
  { unfold deliveries, failures_in_a_row.
    induction results as [|[success now] results IH] using rev_ind; [done|].
    rewrite !fold_left_app. cbn [fold_left]. revert IH. generalize (fold_left
      (λ s '(success, now), delivered success now s) results s). intros s' (IHf & IHh & IHa & IHt & IHe).
    destruct success; [by split_and!|]. unfold delivered. simpl. by rewrite IHf. }
  unfold list_matching_webhook_subscriptions. cbn [List.filter].
  rewrite Hst, Hac, Htn, Het, Hs, String.eqb_refl. unfold health.
  destruct (10 <=? _)%Z; [done|]. by destruct (3 <=? _)%Z.
Qed.
End Health.

(** The day's text sorts after any time of the same day printed with a space,
    so an alert more than 24 hours old still counts as recent. *)
Example recent_alert_count_is_by_day :
  Alerts.count_agent_recent_soc_alerts
    [{| sal_id := "a"; sal_tenant_id := "acme"; sal_rule := "deny_storm"; sal_severity := "high";
        sal_agent_id := "agent-1"; sal_source_event_id := "e"; sal_summary := "";
        sal_created_at := "2026-06-11T01:00:00Z"; sal_triage_recommendation := None |}]
    "acme" "agent-1" "2026-06-11 23:00:00" = 1%Z.
Proof. reflexivity. Qed.
