(* ===== verification/Detect.v ===== *)
(** * Detection rules

    Models [src/lib/soc/src/rule_dsl.rs] (conditions, validation, templates,
    the built-in rules), [detect.rs] (the detector) and [backtest.rs] (a rule
    against recorded decisions; its daily rate is an [f64] and is left out). *)

From stdpp Require Import pretty.
From S2P Require Import Prelude RustString Prog Canon Models Records External Runtime Gateway Soc.

Module Rules.

Definition VALID_TRUST_LEVELS : list string :=
  ["trusted_internal_signed"; "trusted_internal_unsigned"; "semi_trusted_customer";
   "untrusted_external"; "malicious_suspected"; "unknown"].
Definition VALID_DECISIONS : list string := ["allow"; "deny"; "require_approval"].
Definition VALID_SEVERITIES : list string := ["high"; "medium"; "low"; "info"].

Definition str_in (s : string) (l : list string) : bool := existsb (String.eqb s) l.

(** ** Matching *)

Definition signals (event : AseEvent) (needles : list string) : bool :=
  let reason := to_ascii_lowercase (ase_reason event) in
  let policies := map to_ascii_lowercase (ase_matched_policies event) in
  existsb (λ needle, let n := to_ascii_lowercase needle in
                     contains n reason || existsb (contains n) policies) needles.

(** [level.split('_').next().unwrap_or(level)] *)
Definition stem (level : string) : string := default level (head (split_on "_" level)).

Definition opt_all {A} (o : option A) (test : A → bool) : bool :=
  match o with None => true | Some a => test a end.

Definition matches (c : RuleCondition) (event : AseEvent) : bool :=
  opt_all (rc_event_type c) (String.eqb (ase_kind event)) &&
  opt_all (rc_decision c) (String.eqb (ase_decision event)) &&
  opt_all (rc_tool c) (String.eqb (ase_tool event)) &&
  opt_all (rc_action c) (String.eqb (ase_action event)) &&
  opt_all (rc_context_trust c) (λ levels, signals event (map stem levels)) &&
  opt_all (rc_mutating c) (λ b, if (b : bool) then signals event ["mutat"; "mutation"] else true) &&
  opt_all (rc_min_risk_score c) (λ m, negb (ase_risk_score event <? m)%Z) &&
  opt_all (rc_max_risk_score c) (λ m, negb (m <? ase_risk_score event)%Z) &&
  opt_all (rc_matched_policy_contains c) (signals event).

(** ** Validation *)

(** [format!("{:?}")] of a list of names that need no escape *)
Definition quoted (s : string) : string := String "034" (s +:+ String "034" "").
Definition debug_names (l : list string) : string :=
  "[" +:+ String.concat ", " (map quoted l) +:+ "]".

Definition invalid_value (field value : string) (expected : list string) : string :=
  "condition." +:+ field +:+ ": invalid value '" +:+ value +:+ "' (expected one of " +:+
  debug_names expected +:+ ")".

(** The first level of the list that is none of the six. *)
Definition unknown_level (c : RuleCondition) : option string :=
  levels ← rc_context_trust c; find (λ level, negb (str_in level VALID_TRUST_LEVELS)) levels.

Definition validate_condition (c : RuleCondition) : Result unit string :=
  match rc_decision c with
  | Some decision =>
      if str_in decision VALID_DECISIONS
      then match unknown_level c with
           | Some level => Err (invalid_value "context_trust" level VALID_TRUST_LEVELS)
           | None => Ok tt
           end
      else Err (invalid_value "decision" decision VALID_DECISIONS)
  | None =>
      match unknown_level c with
      | Some level => Err (invalid_value "context_trust" level VALID_TRUST_LEVELS)
      | None => Ok tt
      end
  end.

Definition validate (rule : YamlRule) : Result unit string :=
  if str_in (yr_severity rule) VALID_SEVERITIES then validate_condition (yr_condition rule)
  else Err ("severity: invalid value '" +:+ yr_severity rule +:+ "' (expected one of " +:+
            debug_names VALID_SEVERITIES +:+ ")").

(** The replacements run one after the other, over what the earlier ones put
    in too. *)
Definition render_summary (rule : YamlRule) (event : AseEvent) : string :=
  let s := yr_summary_template rule in
  let s := replace "{tool}" (ase_tool event) s in
  let s := replace "{action}" (ase_action event) s in
  let s := replace "{decision}" (ase_decision event) s in
  let s := replace "{reason}" (ase_reason event) s in
  let s := replace "{tenant_id}" (ase_tenant_id event) s in
  replace "{agent_id}" (ase_agent_id event) s.

Definition yaml_rule_from_condition {SX : SocExternal}
    (rule_key name severity condition_yaml summary_template : string) : Result YamlRule string :=
  match parse_condition condition_yaml with
  | Err e => Err ("condition: YAML parse error: " +:+ e)
  | Ok condition =>
      let rule := {| yr_rule_key := rule_key; yr_name := name; yr_severity := severity;
                     yr_condition := condition; yr_summary_template := summary_template |} in
      match validate rule with Ok _ => Ok rule | Err e => Err e end
  end.

(** ** The built-in rules *)

Definition CRITICAL_SUMMARY : string :=
  "Critical-tier or unknown-MCP-tool action {tool}.{action} (decision={decision})".
Definition DRIFT_SUMMARY : string :=
  "MCP tool-manifest drift — advertised manifest differs from the pinned hash: {reason}".

Definition drift_rule (key severity : string) (min max : option Z) : YamlRule :=
  {| yr_rule_key := key; yr_name := "mcp_manifest_drift"; yr_severity := severity;
     yr_condition := {|
       rc_event_type := Some "mcp_manifest_drift"; rc_decision := None; rc_tool := None;
       rc_action := None; rc_context_trust := None; rc_mutating := None;
       rc_min_risk_score := min; rc_max_risk_score := max; rc_matched_policy_contains := None |};
     yr_summary_template := DRIFT_SUMMARY |}.

Definition default_rules : list YamlRule := [
  {| yr_rule_key := "confused_deputy_block"; yr_name := "confused_deputy_block"; yr_severity := "high";
     yr_condition := {|
       rc_event_type := None; rc_decision := Some "deny"; rc_tool := None; rc_action := None;
       rc_context_trust := Some ["untrusted_external"; "malicious_suspected"];
       rc_mutating := Some true; rc_min_risk_score := None; rc_max_risk_score := None;
       rc_matched_policy_contains := None |};
     yr_summary_template :=
       "Mutating action {tool}.{action} denied: triggered by untrusted/malicious provenance (confused-deputy / indirect prompt injection)" |};
  {| yr_rule_key := "approval_required_surface"; yr_name := "approval_required_surface";
     yr_severity := "info";
     yr_condition := {|
       rc_event_type := None; rc_decision := Some "require_approval"; rc_tool := None;
       rc_action := None; rc_context_trust := None; rc_mutating := None; rc_min_risk_score := None;
       rc_max_risk_score := None; rc_matched_policy_contains := None |};
     yr_summary_template := "Human approval required for {tool}.{action}" |};
  {| yr_rule_key := "critical_deny_risk_score"; yr_name := "critical_deny"; yr_severity := "high";
     yr_condition := {|
       rc_event_type := None; rc_decision := None; rc_tool := None; rc_action := None;
       rc_context_trust := None; rc_mutating := None; rc_min_risk_score := Some 100%Z;
       rc_max_risk_score := None; rc_matched_policy_contains := None |};
     yr_summary_template := CRITICAL_SUMMARY |};
  {| yr_rule_key := "critical_deny_policy"; yr_name := "critical_deny"; yr_severity := "high";
     yr_condition := {|
       rc_event_type := None; rc_decision := None; rc_tool := None; rc_action := None;
       rc_context_trust := None; rc_mutating := None; rc_min_risk_score := None;
       rc_max_risk_score := None;
       rc_matched_policy_contains := Some ["mcp_unknown_tool"; "critical"] |};
     yr_summary_template := CRITICAL_SUMMARY |};
  {| yr_rule_key := "replay_attempt"; yr_name := "replay_attempt"; yr_severity := "high";
     yr_condition := {|
       rc_event_type := Some "replay_attempt"; rc_decision := None; rc_tool := None;
       rc_action := None; rc_context_trust := None; rc_mutating := None; rc_min_risk_score := None;
       rc_max_risk_score := None; rc_matched_policy_contains := None |};
     yr_summary_template :=
       "Approval-integrity violation ({tool}.{action}) — replay/tamper attempt: {reason}" |};
  drift_rule "mcp_manifest_drift_high" "high" (Some 75%Z) None;
  drift_rule "mcp_manifest_drift_medium" "medium" (Some 40%Z) (Some 74%Z);
  drift_rule "mcp_manifest_drift_low" "low" None (Some 39%Z)].
End Rules.

(** ** The detector *)

Module Detect.
Import Rules.
Section Detect.
Context {HX : HostExternal}.

Definition from_match (event : AseEvent) (rule : YamlRule) (id : Uuid) : Alert :=
  {| al_alert_id := uuid_to_string id; al_occurred_at := ase_occurred_at event;
     al_tenant_id := ase_tenant_id event; al_rule := yr_name rule; al_severity := yr_severity rule;
     al_agent_id := ase_agent_id event; al_summary := render_summary rule event;
     al_source_event_id := ase_event_id event |}.

(** The loop over the rules; [seen] holds the names that have fired. *)
Fixpoint fired (event : AseEvent) (seen : list string) (rules : list YamlRule) : list YamlRule :=
  match rules with
  | [] => []
  | rule :: rest =>
      if negb (matches (yr_condition rule) event) then fired event seen rest
      else if str_in (yr_name rule) seen then fired event seen rest
      else rule :: fired event (seen ++ [yr_name rule]) rest
  end.

Definition evaluate (event : AseEvent) (tenant_rules : list YamlRule) : OnSoc (list Alert) :=
  mint (map (from_match event) (fired event [] (default_rules ++ tenant_rules))).

(** *** Backtests *)

Definition decision_to_ase_event (d : DecisionRecord) (tenant_id : string) : AseEvent :=
  {| ase_event_id := "backtest_" +:+ dr_id d; ase_occurred_at := to_rfc3339 (dr_created_at d);
     ase_tenant_id := tenant_id; ase_kind := "authorize_decision"; ase_agent_id := dr_agent_id d;
     ase_decision := dr_decision d; ase_tool := dr_skill d; ase_action := dr_action d;
     ase_resource := dr_resource d; ase_risk_score := default 0%Z (dr_risk_score d);
     ase_reason := default "" (dr_reason d); ase_run_id := dr_run_id d; ase_trace_id := dr_trace_id d;
     ase_matched_policies :=
       match dr_matched_policy_ids d with
       | Some s => List.filter (λ p, negb (is_empty p)) (split_on "," s)
       | None => []
       end;
     ase_redacted_fields := []; ase_schema_version := 1; ase_evidence := None;
     ase_prompt_injection := None; ase_rag_poisoning := None |}.

Definition run_backtest (rule : YamlRule) (tenant_id : string) (decisions : list DecisionRecord) :
    list string :=
  map dr_id (List.filter (λ d, matches (yr_condition rule) (decision_to_ase_event d tenant_id)) decisions).
End Detect.
End Detect.

(** ** What the detector reports *)

Section DetectSpec.
Import Rules Detect.
Context {HX : HostExternal}.

Lemma str_in_spec s l : str_in s l = true ↔ s ∈ l.
Proof.
  unfold str_in. rewrite existsb_exists. setoid_rewrite <- list_elem_of_In.
  setoid_rewrite String.eqb_eq. naive_solver.
Qed.

(** The first matching rule of a name. *)
Definition first_match (event : AseEvent) (name : string) (rules : list YamlRule) : option YamlRule :=
  find (λ r, matches (yr_condition r) event && (yr_name r == name)) rules.

Lemma fired_spec event seen rules rule :
  rule ∈ fired event seen rules ↔
  yr_name rule ∉ seen ∧ first_match event (yr_name rule) rules = Some rule.
Proof.
  revert seen. induction rules as [|r rules IH]; intros seen; simpl.
  - split; [by intros ?%elem_of_nil|naive_solver].
  - destruct (matches _ event) eqn:Hm; simpl; [|by apply IH].
    destruct (str_in (yr_name r) seen) eqn:Hin.
    + apply str_in_spec in Hin. rewrite IH. destruct (yr_name r == yr_name rule) eqn:Hn; [|done].
      apply eqb_spec_true in Hn. split; [intros [Hns _]|intros [Hns _]]; congruence.
    + assert (yr_name r ∉ seen) as Hns by (by rewrite <- str_in_spec, Hin).
      rewrite elem_of_cons, IH, elem_of_app, list_elem_of_singleton.
      destruct (yr_name r == yr_name rule) eqn:Hn.
      * apply eqb_spec_true in Hn. split.
        -- intros [->|[Hno _]]; [done|]. by destruct Hno; right.
        -- intros [_ [= ->]]. by left.
      * apply eqb_spec_false in Hn. split.
        -- intros [->|[Hno ?]]; [done|]. split; [|done]. intros ?. by apply Hno; left.
        -- intros [Hno Hf]. right. split; [|done]. intros [?|?]; congruence.
Qed.

Lemma fired_app event seen rules rules' :
  fired event seen (rules ++ rules') =
  fired event seen rules ++ fired event (seen ++ map yr_name (fired event seen rules)) rules'.
Proof.
  revert seen. induction rules as [|r rules IH]; intros seen; simpl; [by rewrite app_nil_r|].
  destruct (matches _ event); simpl; [|done]. destruct (str_in _ seen); [done|].
  simpl. by rewrite IH, <- app_assoc.
Qed.

Lemma fired_nodup event seen rules : NoDup (map yr_name (fired event seen rules)).
Proof.
  revert seen. induction rules as [|r rules IH]; intros seen; simpl; [constructor|].
  destruct (matches _ event); simpl; [|done]. destruct (str_in _ seen); [done|].
  simpl. constructor; [|done]. intros (r' & Heq & [Hno _]%fired_spec)%list_elem_of_fmap.
  apply Hno. rewrite <- Heq. set_solver.
Qed.

Lemma first_match_Some event name rules rule :
  first_match event name rules = Some rule →
  rule ∈ rules ∧ yr_name rule = name ∧ matches (yr_condition rule) event = true.
Proof.
  intros [Hin Hm]%find_some. apply andb_true_iff in Hm as [Hm Hn].
  apply eqb_spec_true in Hn. by rewrite <- list_elem_of_In in Hin.
Qed.

Lemma first_match_complete event rules rule :
  rule ∈ rules → matches (yr_condition rule) event = true →
  ∃ rule', first_match event (yr_name rule) rules = Some rule' ∧ yr_name rule' = yr_name rule.
Proof.
  intros Hin Hm. destruct (first_match event (yr_name rule) rules) as [r|] eqn:Hf.
  - exists r. split; [done|]. by apply first_match_Some in Hf as (_ & ? & _).
  - exfalso. apply list_elem_of_In in Hin. pose proof (find_none _ _ Hf _ Hin) as Hn.
    simpl in Hn. by rewrite Hm, eqb_refl in Hn.
Qed.

Lemma minted_alerts event rules t alerts :
  runs (mint (map (from_match event) rules)) t alerts →
  Forall2 (λ rule a, ∃ id, a = from_match event rule id) rules alerts.
Proof. intros Hr%mint_runs. by apply Forall2_fmap_l in Hr. Qed.

(** The detector reports exactly what its rules say.  For one event it
    raises an alert under a name if and only if a built-in or tenant rule of
    that name matches, one alert per name; the alert has the severity and the
    summary of the first such rule and the tenant, agent, time and id of the
    event.  The alerts of the built-in rules come first and are the same
    whatever rules the tenant has, so a tenant rule can neither silence nor
    soften a built-in one. *)
Theorem detector_alerts_exact event tenant_rules t alerts :
  runs (evaluate event tenant_rules) t alerts →
  NoDup (al_rule <$> alerts) ∧
  (∀ name, name ∈ al_rule <$> alerts ↔
     ∃ rule, rule ∈ default_rules ++ tenant_rules ∧ yr_name rule = name ∧
             matches (yr_condition rule) event = true) ∧
  (∀ a, a ∈ alerts → ∃ rule id,
     first_match event (al_rule a) (default_rules ++ tenant_rules) = Some rule ∧
     a = from_match event rule id) ∧
  ∃ built_in own, alerts = built_in ++ own ∧
    Forall2 (λ rule a, ∃ id, a = from_match event rule id) (fired event [] default_rules) built_in.
Proof.
  intros Hr%minted_alerts.
  set (rules := fired event [] (default_rules ++ tenant_rules)) in *.
  assert (al_rule <$> alerts = map yr_name rules) as Hnames.
  { clear -Hr. induction Hr as [|rule a rules alerts [id ->] _ IH]; [done|].
    simpl. f_equal. exact IH. }
  split_and!.
  - rewrite Hnames. apply fired_nodup.
  - intros name. rewrite Hnames, list_elem_of_fmap. split.
    + intros (rule & -> & [_ Hf]%fired_spec). exists rule.
      by apply first_match_Some in Hf as (? & _ & ?).
    + intros (rule & Hin & <- & Hm).
      destruct (first_match_complete event _ rule Hin Hm) as (rule' & Hf & Hn).
      exists rule'. split; [done|]. apply fired_spec. split; [apply not_elem_of_nil|]. by rewrite Hn.
  - intros a Ha. apply list_elem_of_lookup in Ha as [i Hi].
    destruct (Forall2_lookup_r _ _ _ _ _ Hr Hi) as (rule & Hri & id & ->).
    exists rule, id. split; [|done]. simpl.
    by apply list_elem_of_lookup_2, fired_spec in Hri as [_ ?].
  - unfold rules in Hr. rewrite fired_app in Hr. apply Forall2_app_inv_l in Hr as (b & o & Hb & _ & ->).
    by exists b, o.
Qed.

(** A backtest of a rule over recorded decisions finds exactly the
    decisions for which the rule would have matched the event the gateway
    emitted for them, provided policy names are non-empty and contain no
    comma. *)
Theorem backtest_agrees_with_live rule tenant_id (writes : list (DecisionAuditWrite * Z * Z * DateTime))
    event_id event_time :
  Forall (λ w, wr_tenant_id w.1.1.1 = tenant_id ∧
               Forall (λ p, p ≠ "" ∧ has_byte "," p = false) (wr_matched_policies w.1.1.1)) writes →
  run_backtest rule tenant_id
    (map (λ '(w, composite, ms, created_at), Gateway.build_decision_record w composite ms created_at) writes) =
  map (λ w, uuid_to_string (wr_decision_id w))
    (List.filter (λ w, matches (yr_condition rule) (Gateway.decision_event w event_id event_time))
       (map (λ w, w.1.1.1) writes)).
Proof.
  unfold run_backtest. induction 1 as [|[[[w composite] ms] created_at] writes [Ht Hps] _ IH]; [done|].
  simpl. simpl in Ht, Hps. subst tenant_id.
  assert (matches (yr_condition rule) (decision_to_ase_event
            (Gateway.build_decision_record w composite ms created_at) (wr_tenant_id w)) =
          matches (yr_condition rule) (Gateway.decision_event w event_id event_time)) as ->.
  { unfold matches, signals, decision_to_ase_event. simpl. by rewrite split_join_policies. }
  destruct (matches _ _); simpl; by rewrite IH.
Qed.
End DetectSpec.

(** * Scanning of ingested text

    Models [src/lib/soc/src/prompt_injection.rs], [rag_poisoning.rs]:
    the phrase counters, their scores, and the alerts they raise in the drain. *)

(** [(hits as i32).saturating_mul(w)] for counts and weights of the scanners *)
Definition saturating_mul32 (a b : Z) : Z := clamp (-2147483648) 2147483647 (a * b).

Module PromptInjection.

Inductive InjectionPatternKind := InstructionOverride | ContextEscape | RoleHijack.

Definition INSTRUCTION_OVERRIDE_PHRASES : list string := [
  "ignore previous instructions"; "ignore all previous instructions"; "disregard the above";
  "disregard previous instructions"; "override system prompt"; "new instructions:";
  "updated instructions:"; "forget everything above"; "do not follow your rules"].

Definition CONTEXT_ESCAPE_PHRASES : list string := [
  "```system"; "</s>"; "[inst]"; "[/inst]"; "<|im_end|>"; "<|im_start|>"; "begin system prompt";
  "end of document"; "hidden context:"; "---END USER---"; "---BEGIN SYSTEM---"].

Definition ROLE_HIJACK_PHRASES : list string := [
  "you are now"; "act as if you are"; "pretend you are"; "from now on you are";
  "developer mode enabled"; "dan mode"; "jailbreak"; "roleplay as"; "simulate being"].

Definition count_phrases (lower : string) (phrases : list string) : Z :=
  Z.of_nat (length (List.filter (λ phrase, contains phrase lower) phrases)).

Definition weighted_score (instruction_hits context_hits role_hits : Z) (text_len : nat) : Z :=
  let score := (saturating_mul32 instruction_hits 35 + saturating_mul32 context_hits 30 +
                saturating_mul32 role_hits 30)%Z in
  let score := if (text_len <? 500)%nat && (2 <=? instruction_hits + context_hits + role_hits)%Z
               then (score + 10)%Z else score in
  clamp 0 100 score.

Section Scan.
Context {X : External} {HX : HostExternal} {SX : SocExternal}.

Definition classify (text : string) : PromptInjectionScan :=
  let lower := to_lowercase text in
  let instruction := count_phrases lower INSTRUCTION_OVERRIDE_PHRASES in
  let context := count_phrases lower CONTEXT_ESCAPE_PHRASES in
  let role := count_phrases lower ROLE_HIJACK_PHRASES in
  {| pis_channel := None; pis_score := weighted_score instruction context role (String.length text);
     pis_instruction_override_hits := instruction; pis_context_escape_hits := context;
     pis_role_hijack_hits := role; pis_classifier := "heuristic+weighted" |}.

(** [env.ok().and_then(parse).unwrap_or(40).clamp(0, 100)] *)
Definition min_score_from_env (name : string) : OnSoc Z :=
  v ← trigger (SoEnv name);
  mret (clamp 0 100 (default 40%Z (v ≫= parse_i32))).

Definition enabled_from_env (name : string) : OnSoc bool :=
  v ← trigger (SoEnv name);
  mret (match v with
        | None => true
        | Some v => let v := to_lowercase v in
                    negb ((v == "0") || (v == "false") || (v == "off") || (v == "no"))
        end).

Definition severity_for_score (score : Z) : string :=
  if (80 <=? score)%Z then "high" else if (60 <=? score)%Z then "medium" else "info".

Definition rule_for_kind (kind : InjectionPatternKind) : string :=
  match kind with
  | InstructionOverride => "prompt_injection_instruction_override"
  | ContextEscape => "prompt_injection_context_escape"
  | RoleHijack => "prompt_injection_role_hijack"
  end.

Definition summary_for (kind : InjectionPatternKind) (hits : Z) (event : AseEvent)
    (scan : PromptInjectionScan) : string :=
  let pattern := match kind with
                 | InstructionOverride => "instruction override"
                 | ContextEscape => "context escape"
                 | RoleHijack => "role hijack"
                 end in
  "Prompt-injection pattern detected (" +:+ pattern +:+ ", " +:+ pretty hits +:+
  " hit(s)) on agent " +:+ ase_agent_id event +:+ " via channel '" +:+
  default "unknown_channel" (pis_channel scan) +:+ "' (composite score=" +:+ pretty (pis_score scan) +:+
  "). Advisory only — Cedar policy already decided allow/deny on the authorize path.".

Definition injection_alert (event : AseEvent) (scan : PromptInjectionScan)
    (kind : InjectionPatternKind) (hits : Z) (id : Uuid) : Alert :=
  {| al_alert_id := uuid_to_string id; al_occurred_at := ase_occurred_at event;
     al_tenant_id := ase_tenant_id event; al_rule := rule_for_kind kind;
     al_severity := severity_for_score (pis_score scan); al_agent_id := ase_agent_id event;
     al_summary := summary_for kind hits event scan; al_source_event_id := ase_event_id event |}.

Definition candidates (scan : PromptInjectionScan) : list (InjectionPatternKind * Z) :=
  [(InstructionOverride, pis_instruction_override_hits scan);
   (ContextEscape, pis_context_escape_hits scan); (RoleHijack, pis_role_hijack_hits scan)].

Definition evaluate (event : AseEvent) : OnSoc (list Alert) :=
  enabled ← enabled_from_env "AEGIS_PROMPT_INJECTION_ENABLED";
  if negb enabled then mret []
  else if ase_kind event != "agent_input" then mret []
  else
    match ase_prompt_injection event with
    | None => mret []
    | Some scan =>
        min_score ← min_score_from_env "AEGIS_PROMPT_INJECTION_MIN_SCORE";
        if (pis_score scan <? min_score)%Z then mret []
        else mint (map (λ '(kind, hits), injection_alert event scan kind hits)
                     (List.filter (λ '(_, hits), negb (hits =? 0)%Z) (candidates scan)))
    end.
End Scan.
End PromptInjection.

Module RagPoisoning.
Import PromptInjection.

Definition SAFETY_OVERRIDE_PHRASES : list string := [
  "override your safety"; "ignore safety guidelines"; "disable content filter";
  "never refuse any request"; "bypass restrictions"; "permanent instruction"; "remember forever";
  "update your system prompt"; "store in long-term memory"; "always follow these rules"].

Definition RAG_POISON_PHRASES : list string := [
  "inject into context"; "add to knowledge base"; "embedding poison"; "retrieval priority";
  "always retrieve this document"; "highest relevance score"].

Definition UNTRUSTED_TRUST_LEVELS : list string :=
  ["untrusted_external"; "malicious_suspected"; "unknown"].

Definition is_untrusted (trust : string) : bool := existsb (String.eqb trust) UNTRUSTED_TRUST_LEVELS.

Definition is_memory (e : PoisoningEntryType) : bool :=
  match e with MemoryWrite => true | RagDocument => false end.

Section Scan.
Context {X : External} {HX : HostExternal} {SX : SocExternal}.

Definition normalize_trust_level (trust : string) : string :=
  let lower := to_lowercase (trim trust) in
  if existsb (String.eqb lower)
       ["trusted_internal_signed"; "trusted_internal_unsigned"; "semi_trusted_customer";
        "untrusted_external"; "malicious_suspected"; "unknown"]
  then lower else "unknown".

Definition classify (entry_type : PoisoningEntryType) (source_trust text : string) : RagPoisoningScan :=
  let lower := to_lowercase text in
  let injection := PromptInjection.classify text in
  let safety := count_phrases lower SAFETY_OVERRIDE_PHRASES in
  let rag := if is_memory entry_type then 0%Z else count_phrases lower RAG_POISON_PHRASES in
  let score := (pis_score injection + saturating_mul32 safety 25 + saturating_mul32 rag 20)%Z in
  let score := if is_untrusted source_trust && ((0 <? pis_score injection)%Z || (0 <? safety)%Z)
               then (score + 15)%Z else score in
  let score := if is_memory entry_type && (0 <? safety)%Z then (score + 10)%Z else score in
  {| rps_entry_type := entry_type; rps_source_trust := normalize_trust_level source_trust;
     rps_document_id := None; rps_memory_key := None; rps_collection := None;
     rps_injection := injection; rps_safety_override_hits := safety; rps_score := clamp 0 100 score;
     rps_classifier := "heuristic+injection_reuse" |}.

Definition make_alert (event : AseEvent) (scan : RagPoisoningScan) (rule summary : string) (id : Uuid) :
    Alert :=
  {| al_alert_id := uuid_to_string id; al_occurred_at := ase_occurred_at event;
     al_tenant_id := ase_tenant_id event; al_rule := rule;
     al_severity := severity_for_score (rps_score scan); al_agent_id := ase_agent_id event;
     al_summary := summary; al_source_event_id := ase_event_id event |}.

Definition poisoning_alerts (event : AseEvent) (scan : RagPoisoningScan) : list (Uuid → Alert) :=
  let inj := rps_injection scan in
  (if (0 <? pis_instruction_override_hits inj)%Z || (0 <? pis_context_escape_hits inj)%Z ||
      (0 <? pis_role_hijack_hits inj)%Z
   then [make_alert event scan
           (if is_memory (rps_entry_type scan) then "memory_poisoning_injection_pattern"
            else "rag_poisoning_injection_pattern")
           ("Injection pattern detected in " +:+
            (if is_memory (rps_entry_type scan) then "memory" else "RAG document") +:+
            " write for agent " +:+ ase_agent_id event +:+ " (source_trust=" +:+ rps_source_trust scan +:+
            ", composite score=" +:+ pretty (rps_score scan) +:+ "). Advisory only.")]
   else []) ++
  (if (0 <? rps_safety_override_hits scan)%Z && is_memory (rps_entry_type scan)
   then [make_alert event scan "memory_poisoning_safety_override"
           ("Memory write contains safety-override language for agent " +:+ ase_agent_id event +:+
            " (key=" +:+ debug_opt (rps_memory_key scan) +:+ ", source_trust=" +:+ rps_source_trust scan +:+
            ", score=" +:+ pretty (rps_score scan) +:+ "). Advisory only.")]
   else []) ++
  (if is_untrusted (rps_source_trust scan) &&
      ((0 <? pis_score inj)%Z || (0 <? rps_safety_override_hits scan)%Z)
   then [make_alert event scan "rag_poisoning_untrusted_source"
           ("Suspicious " +:+
            (if is_memory (rps_entry_type scan) then "memory write" else "RAG document") +:+
            " content from untrusted source '" +:+ rps_source_trust scan +:+ "' for agent " +:+
            ase_agent_id event +:+ " (score=" +:+ pretty (rps_score scan) +:+
            "). Review provenance before indexing.")]
   else []).

Definition evaluate (event : AseEvent) : OnSoc (list Alert) :=
  enabled ← enabled_from_env "AEGIS_RAG_POISONING_ENABLED";
  if negb enabled then mret []
  else if negb ((ase_kind event == "rag_document") || (ase_kind event == "memory_write")) then mret []
  else
    match ase_rag_poisoning event with
    | None => mret []
    | Some scan =>
        min_score ← min_score_from_env "AEGIS_RAG_POISONING_MIN_SCORE";
        if (rps_score scan <? min_score)%Z then mret [] else mint (poisoning_alerts event scan)
    end.
End Scan.
End RagPoisoning.
