(* ===== verification/Ingest.v ===== *)
(** * Agentless ingestion

    Models [src/lib/soc/src/ingest.rs] and the two receivers of
    [src/src/src/routes/webhooks.rs] that feed it: [POST /v1/ingest] and
    [POST /v1/webhooks/github].  A normalizer that accepts its payload
    draws an identifier and the time for the event, so what it yields here is
    the event as a function of the two. *)

From S2P Require Import Prelude RustString Prog Canon Models Records External Runtime Service Gateway Soc Detect.
From stdpp Require Import pretty.

(** [serde_json::Value] accessors *)
Definition json_get (key : string) (v : Canon.Value) : option Canon.Value :=
  match v with Canon.Object entries => snd <$> find (λ e, e.1 == key) entries | _ => None end.
Definition as_str (v : Canon.Value) : option string :=
  match v with Canon.Str s => Some s | _ => None end.
Definition as_array (v : Canon.Value) : option (list Canon.Value) :=
  match v with Canon.Array l => Some l | _ => None end.
Definition as_bool (v : Canon.Value) : option bool :=
  match v with Canon.Bool b => Some b | _ => None end.
Definition as_u64 (v : Canon.Value) : option Z :=
  match v with Canon.Number_ (Canon.PosInt n) => Some n | _ => None end.
Definition str_field (key : string) (v : Canon.Value) : option string := json_get key v ≫= as_str.

Record IngestRequest := { igr_source : string; igr_payload : Canon.Value }.

Inductive IngestE : Type → Type :=
| IgEmit (event : AseEvent) : IngestE unit
| IgNow : IngestE DateTime
| IgUuid : IngestE Uuid.

(** [serde_json::from_slice] of the two bodies. *)
Class IngestExternal := {
  parse_ingest : string → Result IngestRequest string;
  parse_json_body : string → Result Canon.Value string }.

Module Ingest.
Section Ingest.
Context {X : External} {HX : HostExternal} {HE : HeaderExternal} {IX : IngestExternal}.

Definition SUPPORTED_SOURCES : list string :=
  ["github_webhook"; "openai_trace"; "agent_input"; "rag_document"; "memory_write"].

(** [base_event] with the fields the normalizers then set. *)
Definition ingested (tenant_id kind agent_id tool action reason : string)
    (resource run_id : option string) (injection : option PromptInjectionScan)
    (poisoning : option RagPoisoningScan) (id : Uuid) (at_ : DateTime) : AseEvent :=
  {| ase_event_id := uuid_to_string id; ase_occurred_at := to_rfc3339 at_;
     ase_tenant_id := tenant_id; ase_kind := kind; ase_agent_id := agent_id; ase_decision := "allow";
     ase_tool := tool; ase_action := action; ase_resource := resource; ase_risk_score := 0;
     ase_reason := reason; ase_run_id := run_id; ase_trace_id := None; ase_matched_policies := [];
     ase_redacted_fields := []; ase_schema_version := 1; ase_evidence := None;
     ase_prompt_injection := injection; ase_rag_poisoning := poisoning |}.

Definition BASE_REASON : string := "ingested via /v1/ingest".

Definition with_channel (channel : option string) (s : PromptInjectionScan) : PromptInjectionScan :=
  {| pis_channel := channel; pis_score := pis_score s;
     pis_instruction_override_hits := pis_instruction_override_hits s;
     pis_context_escape_hits := pis_context_escape_hits s;
     pis_role_hijack_hits := pis_role_hijack_hits s; pis_classifier := pis_classifier s |}.

Definition with_ids (document_id memory_key collection : option string) (s : RagPoisoningScan) :
    RagPoisoningScan :=
  {| rps_entry_type := rps_entry_type s; rps_source_trust := rps_source_trust s;
     rps_document_id := document_id; rps_memory_key := memory_key; rps_collection := collection;
     rps_injection := rps_injection s; rps_safety_override_hits := rps_safety_override_hits s;
     rps_score := rps_score s; rps_classifier := rps_classifier s |}.

Definition normalize_agent_input (tenant_id : string) (payload : Canon.Value) :
    option (Uuid → DateTime → AseEvent) :=
  agent_id ← str_field "agent_id" payload;
  input_text ← str_field "input_text" payload;
  let scan := with_channel (str_field "channel" payload) (PromptInjection.classify input_text) in
  Some (ingested tenant_id "agent_input" agent_id "ingress" "user_message"
          "ingested agent input for prompt-injection screening" None (str_field "run_id" payload)
          (Some scan) None).

Definition normalize_rag_document (tenant_id : string) (payload : Canon.Value) :
    option (Uuid → DateTime → AseEvent) :=
  agent_id ← str_field "agent_id" payload;
  content_text ← str_field "content_text" payload;
  let source_trust := default "unknown" (str_field "source_trust" payload) in
  let scan := with_ids (str_field "document_id" payload) None (str_field "collection" payload)
                (RagPoisoning.classify RagDocument source_trust content_text) in
  Some (ingested tenant_id "rag_document" agent_id "rag" "index_document"
          "ingested RAG document for poisoning screening" None (str_field "run_id" payload)
          None (Some scan)).

Definition normalize_memory_write (tenant_id : string) (payload : Canon.Value) :
    option (Uuid → DateTime → AseEvent) :=
  agent_id ← str_field "agent_id" payload;
  content_text ← str_field "content_text" payload;
  let source_trust := default "unknown" (str_field "source_trust" payload) in
  let scan := with_ids None (str_field "memory_key" payload) None
                (RagPoisoning.classify MemoryWrite source_trust content_text) in
  Some (ingested tenant_id "memory_write" agent_id "memory" "write"
          "ingested memory write for poisoning screening" None (str_field "run_id" payload)
          None (Some scan)).

Definition normalize_github_webhook (tenant_id : string) (payload : Canon.Value) :
    option (Uuid → DateTime → AseEvent) :=
  action ← str_field "action" payload;
  sender ← json_get "sender" payload ≫= str_field "login";
  let repo := json_get "repository" payload ≫= str_field "full_name" in
  Some (ingested tenant_id "external_event:github_webhook" sender "github" action BASE_REASON repo None
          None None).

(** The name of the first tool call of the first choice. *)
Definition first_tool_call (payload : Canon.Value) : option string :=
  choices ← json_get "choices" payload; arr ← as_array choices; choice ← head arr;
  m ← json_get "message" choice; tc ← json_get "tool_calls" m; arr ← as_array tc; call ← head arr;
  f ← json_get "function" call; str_field "name" f.

Definition normalize_openai_trace (tenant_id : string) (payload : Canon.Value) :
    option (Uuid → DateTime → AseEvent) :=
  user ← str_field "user" payload;
  let model := str_field "model" payload in
  Some (ingested tenant_id "external_event:openai_trace" user "openai"
          (default "completion" (first_tool_call payload)) BASE_REASON model None None None).

Definition numbered (repo : option string) (sep : string) (n : option Z) : option string :=
  match repo, n with
  | Some r, Some n => Some (r +:+ sep +:+ pretty n)
  | Some r, None => Some r
  | _, _ => None
  end.

Definition native_action (event_type action : string) (repo : option string) (payload : Canon.Value) :
    option (string * option string) :=
  if event_type == "pull_request" then
    let resource := numbered repo "#" (json_get "number" payload ≫= as_u64) in
    if action == "opened" then Some ("pull_request.opened", resource)
    else if action == "closed" then
      let merged := default false (pr ← json_get "pull_request" payload;
                                   m ← json_get "merged" pr; as_bool m) in
      Some (if (merged : bool) then "pull_request.merged" else "pull_request.closed", resource)
    else None
  else if event_type == "issues" then
    if action != "opened" then None
    else Some ("issues.opened",
               numbered repo "#issue-" (i ← json_get "issue" payload; n ← json_get "number" i; as_u64 n))
  else if event_type == "issue_comment" then
    if action != "created" then None else Some ("issue_comment.created", repo)
  else None.

Definition normalize_github_native_event (tenant_id event_type : string) (payload : Canon.Value) :
    option (Uuid → DateTime → AseEvent) :=
  let action := default "" (str_field "action" payload) in
  let sender := default "unknown" (json_get "sender" payload ≫= str_field "login") in
  let repo := json_get "repository" payload ≫= str_field "full_name" in
  '(tool_action, resource) ← native_action event_type action repo payload;
  Some (ingested tenant_id "external_event:github_webhook" sender "github" tool_action BASE_REASON
          resource None None None).

Definition normalize (tenant_id source : string) (payload : Canon.Value) :
    Result (option (Uuid → DateTime → AseEvent)) unit :=
  if source == "github_webhook" then Ok (normalize_github_webhook tenant_id payload)
  else if source == "openai_trace" then Ok (normalize_openai_trace tenant_id payload)
  else if source == "agent_input" then Ok (normalize_agent_input tenant_id payload)
  else if source == "rag_document" then Ok (normalize_rag_document tenant_id payload)
  else if source == "memory_write" then Ok (normalize_memory_write tenant_id payload)
  else Err tt.

(** ** The receivers *)

(** [AEGIS_GITHUB_WEBHOOK_SECRET] *)
Context (github_webhook_secret : option string).

Definition verify_github_webhook_signature (secret body : string) (sig_header : HeaderValue) : bool :=
  match (s ← hv_to_str sig_header; hex_digest ← RustString.strip_prefix "sha256=" s; hex_decode hex_digest) with
  | None => false
  | Some expected =>
      match hmac_sha256 secret body with Some mac => mac == expected | None => false end
  end.

Definition reasoned (e : StatusError) (reason : string) : Response :=
  into_response (StatusError.with_details e (Canon.Object [("reason", Canon.Str reason)])).

(** The signature of a request, [None] when it is right. *)
Definition signature_refused (secret : string) (headers : gmap string HeaderValue) (body : string) : option Response :=
  match headers !! "x-hub-signature-256" with
  | None => Some (reasoned (StatusError.unauthorized "missing X-Hub-Signature-256 header") "missing_signature")
  | Some sig_header =>
      if verify_github_webhook_signature secret body sig_header then None
      else Some (reasoned (StatusError.unauthorized "invalid webhook signature") "invalid_signature")
  end.

Definition accepted (fields : list (string * Canon.Value)) : Response :=
  {| rp_status := 202; rp_retry_after := None; rp_body := AbJson (Canon.Object fields) |}.

Definition emit_accepted (event : Uuid → DateTime → AseEvent) : prog IngestE Response :=
  id ← trigger IgUuid;
  now ← trigger IgNow;
  let event := event id now in
  _ ← trigger (IgEmit event);
  mret (accepted [("status", Canon.Str "accepted"); ("event_id", Canon.Str (ase_event_id event))]).

Definition ingest_normalized (tenant_id : string) (payload : IngestRequest) : prog IngestE Response :=
  match normalize tenant_id (igr_source payload) (igr_payload payload) with
  | Err _ =>
      mret (into_response (StatusError.bad_request
        ("unsupported ingest source '" +:+ igr_source payload +:+ "'; supported: " +:+
         Rules.debug_names SUPPORTED_SOURCES)))
  | Ok None =>
      mret (into_response (StatusError.bad_request "payload could not be normalized for this source"))
  | Ok (Some event) => emit_accepted event
  end.

Definition ingest_event (tenant_id : string) (headers : gmap string HeaderValue) (body : string) :
    prog IngestE Response :=
  match parse_ingest body with
  | Err e => mret (into_response (StatusError.bad_request ("invalid JSON body: " +:+ e)))
  | Ok payload =>
      match (if igr_source payload == "github_webhook"
             then secret ← github_webhook_secret; signature_refused secret headers body
             else None) with
      | Some refusal => mret refusal
      | None => ingest_normalized tenant_id payload
      end
  end.

Definition receive_github_webhook (headers : gmap string HeaderValue) (body : string) : prog IngestE Response :=
  match get_runtime_tenant_from_headers headers with
  | None => mret (into_response (StatusError.bad_request "missing X-Aegis-Tenant-ID header"))
  | Some tenant_id =>
      match (match github_webhook_secret with
             | None => Some (reasoned (StatusError.unauthorized
                         "webhook not configured: AEGIS_GITHUB_WEBHOOK_SECRET is not set")
                         "webhook_not_configured")
             | Some secret => signature_refused secret headers body
             end) with
      | Some refusal => mret refusal
      | None =>
          match header_str headers "x-github-event" with
          | None => mret (reasoned (StatusError.bad_request "missing X-GitHub-Event header")
                            "missing_event_type")
          | Some event_type =>
              match parse_json_body body with
              | Err e => mret (into_response (StatusError.bad_request ("invalid JSON body: " +:+ e)))
              | Ok payload =>
                  match normalize_github_native_event tenant_id event_type payload with
                  | None => mret (accepted [("status", Canon.Str "ignored");
                                            ("reason", Canon.Str "unsupported_event_type")])
                  | Some event => emit_accepted event
                  end
              end
          end
      end
  end.
End Ingest.
End Ingest.

(** ** Ingestion only observes *)

Section Observes.
Context {X : External} {HX : HostExternal} {HE : HeaderExternal} {IX : IngestExternal}.
Import Ingest.

Definition emitted (t : list (event IngestE)) : list AseEvent :=
  omap (λ c, match c with Call e _ => match e with IgEmit ev => Some ev | _ => None end end) t.

(** An allowed action without risk or policies that no built-in rule reports. *)
Definition observation (tenant_id : string) (ev : AseEvent) : Prop :=
  ase_tenant_id ev = tenant_id ∧ ase_decision ev = "allow" ∧ ase_risk_score ev = 0%Z ∧
  ase_matched_policies ev = [] ∧ Detect.fired ev [] Rules.default_rules = [].

Lemma ingested_observes tenant_id kind agent tool action reason resource run inj poison id at_ :
  kind ≠ "replay_attempt" → kind ≠ "mcp_manifest_drift" →
  Rules.signals (ingested tenant_id "" "" "" "" reason None None None None id at_)
    ["mcp_unknown_tool"; "critical"] = false →
  observation tenant_id (ingested tenant_id kind agent tool action reason resource run inj poison id at_).
Proof.
  intros H1 H2 Hs. repeat split. cbn [Rules.default_rules Detect.fired]. unfold Rules.drift_rule, Rules.matches.
  cbn [rc_event_type rc_decision rc_tool rc_action rc_context_trust rc_mutating rc_min_risk_score
       rc_max_risk_score rc_matched_policy_contains yr_condition Rules.opt_all ase_decision ase_kind
       ase_risk_score ingested andb].
  apply String.eqb_neq in H1, H2. rewrite H1, H2. unfold Rules.signals in Hs |- *.
  cbn [ase_reason ase_matched_policies ingested] in Hs |- *. rewrite Hs. reflexivity.
Qed.

Lemma normalized_observes tenant_id source payload f id at_ :
  normalize tenant_id source payload = Ok (Some f) → observation tenant_id (f id at_).
Proof.
  unfold normalize, normalize_github_webhook, normalize_openai_trace, normalize_agent_input,
    normalize_rag_document, normalize_memory_write.
  intros Hn. repeat case_match; simplify_option_eq; by apply ingested_observes.
Qed.

Lemma normalized_source tenant_id source payload o :
  normalize tenant_id source payload = Ok o → source ∈ SUPPORTED_SOURCES.
Proof.
  unfold normalize, SUPPORTED_SOURCES. rewrite !elem_of_cons, <- !eqb_spec_true.
  repeat case_match; intros Hn; auto 8; done.
Qed.

Lemma native_observes tenant_id event_type payload f id at_ :
  normalize_github_native_event tenant_id event_type payload = Some f → observation tenant_id (f id at_).
Proof.
  unfold normalize_github_native_event. intros Hn. destruct (native_action _ _ _ _) as [[a res]|]; [|done].
  simplify_option_eq. by apply ingested_observes.
Qed.

Lemma emit_accepted_run f t r :
  runs (emit_accepted f) t r → rp_status r = 202%Z ∧ ∃ id at_, emitted t = [f id at_].
Proof. unfold emit_accepted. intros Hr. prog_run Hr. subst. split; [done|]. eauto. Qed.

(** The signature the header carries is right for the body. *)
Definition signed (secret : string) (headers : gmap string HeaderValue) (body : string) : Prop :=
  ∃ h, headers !! "x-hub-signature-256" = Some h ∧ verify_github_webhook_signature secret body h = true.

Lemma signature_accepted secret headers body :
  signature_refused secret headers body = None → signed secret headers body.
Proof. unfold signature_refused. intros H. repeat case_match; try done. eexists; eauto. Qed.

(** Ingestion only observes.  A request to either receiver puts at most
    one event on the stream: an [allow] of risk zero for the tenant of the
    request that none of the built-in rules reports.  It is put there exactly
    when the answer is 202 and accepted; a payload that says it comes from
    GitHub only with a signature of the body under the configured secret, and
    through the webhook route only where a secret is configured. *)
Theorem ingestion_observes_only secret tenant_id headers body t r :
  (runs (ingest_event secret tenant_id headers body) t r →
   match emitted t with
   | [] => rp_status r ≠ 202%Z
   | [ev] => rp_status r = 202%Z ∧ observation tenant_id ev ∧
       ∃ q, parse_ingest body = Ok q ∧ igr_source q ∈ SUPPORTED_SOURCES ∧
         (igr_source q = "github_webhook" → ∀ s, secret = Some s → signed s headers body)
   | _ => False
   end) ∧
  (runs (receive_github_webhook secret headers body) t r →
   match emitted t with
   | [] => True
   | [ev] => rp_status r = 202%Z ∧
       ∃ tn s, get_runtime_tenant_from_headers headers = Some tn ∧ observation tn ev ∧
         secret = Some s ∧ signed s headers body
   | _ => False
   end).
Proof.
  split; intros Hr.
  - unfold ingest_event in Hr. destruct (parse_ingest body) as [q|e] eqn:Hq; [|by destruct Hr as [-> ->]].
    destruct (if igr_source q == "github_webhook" then _ else _) as [resp|] eqn:Hsig.
    { destruct Hr as [-> ->]. unfold signature_refused in Hsig.
      repeat case_match; simplify_option_eq; repeat case_match; by simplify_eq. }
    unfold ingest_normalized in Hr.
    destruct (normalize tenant_id (igr_source q) (igr_payload q)) as [[f|]|] eqn:Hn;
      [|by destruct Hr as [-> ->]..].
    destruct (emit_accepted_run _ _ _ Hr) as (Hst & id & at_ & ->). split; [done|].
    split; [by eapply normalized_observes|]. exists q. split; [done|]. split.
    + by eapply normalized_source.
    + intros Hsrc s ->. rewrite Hsrc in Hsig. by apply signature_accepted.
  - unfold receive_github_webhook in Hr.
    destruct (get_runtime_tenant_from_headers headers) as [tn|] eqn:Htn; [|by destruct Hr as [-> ->]].
    destruct secret as [s|]; [|by destruct Hr as [-> ->]].
    destruct (signature_refused s headers body) as [resp|] eqn:Hsig; [by destruct Hr as [-> ->]|].
    destruct (header_str headers "x-github-event"); [|by destruct Hr as [-> ->]].
    destruct (parse_json_body body); [|by destruct Hr as [-> ->]].
    destruct (normalize_github_native_event _ _ _) as [f|] eqn:Hn; [|by destruct Hr as [-> ->]].
    destruct (emit_accepted_run _ _ _ Hr) as (Hst & id & at_ & ->). split; [done|]. exists tn, s.
    split; [done|]. split; [by eapply native_observes|]. split; [done|]. by apply signature_accepted.
Qed.
End Observes.
