(* ===== verification/Correlate.v ===== *)
(** * Correlation of events

    Models [src/lib/soc/src/correlate.rs] with its in-process windows: one list
    of recent events per tenant and agent, five rules over it.  The variant
    that keeps the windows in Postgres is left out.

    A rule that fires builds its incident with a fresh identifier, so what it
    yields is the incident as a function of the identifier. *)

From S2P Require Import Prelude RustString Prog Canon Models Records External Runtime Gateway Soc.
From stdpp Require Import pretty sorting.

Record WindowEntry := {
  win_ts_secs : Z;
  win_event_id : string;
  win_decision : string;
  win_tool : string;
  win_action : string;
  win_exfil_paired : bool;
  win_trust_escalation_paired : bool }.

Inductive ExfilRole := Source | Sink | Other.
#[export] Instance ExfilRole_eq_dec : EqDecision ExfilRole.
Proof. solve_decision. Defined.

(** Per tenant and agent. *)
Definition Correlator : Type := gmap (string * string) (list WindowEntry).

(** The first element that passes the test, and the list with it changed:
    [position] followed by the assignment to the element found. *)
Fixpoint mark_first {A} (test : A → bool) (mark : A → A) (l : list A) : option (A * list A) :=
  match l with
  | [] => None
  | x :: l' =>
      if test x then Some (x, mark x :: l')
      else match mark_first test mark l' with Some (y, l'') => Some (y, x :: l'') | None => None end
  end.

Module Correlate.

Definition DENY_STORM_N : nat := 5.
Definition DENY_STORM_WINDOW_SECS : Z := 60.
Definition RUNAWAY_M : nat := 20.
Definition RUNAWAY_WINDOW_SECS : Z := 10.
Definition REPEATED_APPROVAL_K : nat := 10.
Definition REPEATED_APPROVAL_WINDOW_SECS : Z := 300.
Definition EXFIL_WINDOW_SECS : Z := 120.
Definition TRUST_ESCALATION_WINDOW_SECS : Z := 120.
Definition MAX_WINDOW_SECS : Z := REPEATED_APPROVAL_WINDOW_SECS.

Definition SOURCE_TOKENS : list string :=
  ["read"; "get"; "fetch"; "list"; "download"; "query"; "select"; "export"; "dump"; "cat"].
Definition SINK_TOKENS : list string :=
  ["send"; "post"; "upload"; "email"; "webhook"; "push"; "publish"; "write_external"; "share";
   "transfer"; "exfil"; "http"].

Section Correlate.
Context {X : External} {HX : HostExternal} {SX : SocExternal}.

Definition action_kind (action : string) : ExfilRole :=
  let lower := to_lowercase action in
  if existsb (λ tok, contains tok lower) SINK_TOKENS then Sink
  else if existsb (λ tok, contains tok lower) SOURCE_TOKENS then Source
  else Other.

Definition parse_ts (s : string) : Z := default 0%Z (rfc3339_seconds s).

(** [Incident::new], the identifier still to be given *)
Definition new_incident (ev : AseEvent) (kind severity summary : string) (ids : list string) (id : Uuid) :
    Incident :=
  {| in_incident_id := uuid_to_string id; in_opened_at := ase_occurred_at ev;
     in_tenant_id := ase_tenant_id ev; in_agent_id := ase_agent_id ev; in_kind := kind;
     in_severity := severity; in_summary := summary; in_source_event_ids := ids |}.

Definition pretty_nat (n : nat) : string := pretty (N.of_nat n).

(** ** The rules *)

Definition deny_storm_summary (ev : AseEvent) (count : nat) : string :=
  "Agent " +:+ ase_agent_id ev +:+ " accumulated " +:+ pretty_nat count +:+
  " deny decisions within " +:+ pretty DENY_STORM_WINDOW_SECS +:+
  "s (deny storm — possible brute-force or misconfigured agent)".

Definition rule_deny_storm (ev : AseEvent) (window : list WindowEntry) (ts_now : Z) :
    option (Uuid → Incident) :=
  let cutoff := (ts_now - DENY_STORM_WINDOW_SECS)%Z in
  let in_window := List.filter (λ e, (cutoff <=? win_ts_secs e)%Z && (win_decision e == "deny")) window in
  let count := length in_window in
  if (count =? DENY_STORM_N)%nat
  then Some (new_incident ev "deny_storm" "high" (deny_storm_summary ev count) (map win_event_id in_window))
  else None.

Definition runaway_summary (ev : AseEvent) (count : nat) : string :=
  "Agent " +:+ ase_agent_id ev +:+ " issued " +:+ pretty_nat count +:+ " actions within " +:+
  pretty RUNAWAY_WINDOW_SECS +:+ "s (runaway agent — possible loop or compromise)".

Definition rule_runaway (ev : AseEvent) (window : list WindowEntry) (ts_now : Z) :
    option (Uuid → Incident) :=
  let cutoff := (ts_now - RUNAWAY_WINDOW_SECS)%Z in
  let in_window := List.filter (λ e, (cutoff <=? win_ts_secs e)%Z) window in
  let count := length in_window in
  if (count =? RUNAWAY_M)%nat
  then Some (new_incident ev "runaway" "high" (runaway_summary ev count) (map win_event_id in_window))
  else None.

Definition repeated_approval_summary (ev : AseEvent) (count : nat) : string :=
  "Agent " +:+ ase_agent_id ev +:+ " triggered " +:+ pretty_nat count +:+
  " require_approval decisions within " +:+ pretty REPEATED_APPROVAL_WINDOW_SECS +:+
  "s (possible automation abuse or over-privileged agent)".

Definition rule_repeated_approval (ev : AseEvent) (window : list WindowEntry) (ts_now : Z) :
    option (Uuid → Incident) :=
  let cutoff := (ts_now - REPEATED_APPROVAL_WINDOW_SECS)%Z in
  let in_window :=
    List.filter (λ e, (cutoff <=? win_ts_secs e)%Z && (win_decision e == "require_approval")) window in
  let count := length in_window in
  if (count =? REPEATED_APPROVAL_K)%nat
  then Some (new_incident ev "repeated_approval" "info" (repeated_approval_summary ev count)
               (map win_event_id in_window))
  else None.

Definition exfil_summary (ev : AseEvent) (source_action : string) : string :=
  "Agent " +:+ ase_agent_id ev +:+ " performed a data-access action ('" +:+ source_action +:+
  "') followed by an egress action ('" +:+ ase_action ev +:+ "') within " +:+ pretty EXFIL_WINDOW_SECS +:+
  "s — possible data exfiltration pattern".

Definition mark_exfil (e : WindowEntry) : WindowEntry := {|
  win_ts_secs := win_ts_secs e; win_event_id := win_event_id e; win_decision := win_decision e;
  win_tool := win_tool e; win_action := win_action e; win_exfil_paired := true;
  win_trust_escalation_paired := win_trust_escalation_paired e |}.

(** The test of [position]: an unpaired source in the window. *)
Definition exfil_source (ts_now : Z) (e : WindowEntry) : bool :=
  (ts_now - EXFIL_WINDOW_SECS <=? win_ts_secs e)%Z &&
  ((win_ts_secs e <=? ts_now)%Z && negb (win_exfil_paired e) &&
   bool_decide (action_kind (win_action e) = Source)).

Definition rule_data_exfil (ev : AseEvent) (window : list WindowEntry) (ts_now : Z) :
    option (Uuid → Incident) * list WindowEntry :=
  if negb (bool_decide (action_kind (ase_action ev) = Sink)) then (None, window)
  else
    match mark_first (exfil_source ts_now) mark_exfil window with
    | None => (None, window)
    | Some (source, window') =>
        (Some (new_incident ev "data_exfil_pattern" "high" (exfil_summary ev (win_action source))
                 [win_event_id source; ase_event_id ev]), window')
    end.

Definition escalation_summary (ev : AseEvent) (tool action : string) : string :=
  "Agent " +:+ ase_agent_id ev +:+ " had a hard deny for " +:+ tool +:+ "." +:+ action +:+
  " followed by an allow within " +:+ pretty TRUST_ESCALATION_WINDOW_SECS +:+
  "s — possible privilege-probing or trust manipulation".

Definition mark_escalation (e : WindowEntry) : WindowEntry := {|
  win_ts_secs := win_ts_secs e; win_event_id := win_event_id e; win_decision := win_decision e;
  win_tool := win_tool e; win_action := win_action e; win_exfil_paired := win_exfil_paired e;
  win_trust_escalation_paired := true |}.

(** The test of [position]: an unpaired denial of the same tool and action. *)
Definition escalated_deny (ev : AseEvent) (ts_now : Z) (e : WindowEntry) : bool :=
  (ts_now - TRUST_ESCALATION_WINDOW_SECS <=? win_ts_secs e)%Z &&
  ((win_ts_secs e <=? ts_now)%Z && (win_decision e == "deny") &&
   negb (win_trust_escalation_paired e) && (win_tool e == ase_tool ev) && (win_action e == ase_action ev)).

Definition rule_trust_escalation (ev : AseEvent) (window : list WindowEntry) (ts_now : Z) :
    option (Uuid → Incident) * list WindowEntry :=
  if ase_decision ev != "allow" then (None, window)
  else
    match mark_first (escalated_deny ev ts_now) mark_escalation window with
    | None => (None, window)
    | Some (denied, window') =>
        (Some (new_incident ev "trust_escalation" "high"
                 (escalation_summary ev (win_tool denied) (win_action denied))
                 [win_event_id denied; ase_event_id ev]), window')
    end.

(** ** One event *)

Definition window_key (ev : AseEvent) : string * string := (ase_tenant_id ev, ase_agent_id ev).

Definition entry_of (ev : AseEvent) (ts_now : Z) : WindowEntry := {|
  win_ts_secs := ts_now; win_event_id := ase_event_id ev; win_decision := ase_decision ev;
  win_tool := ase_tool ev; win_action := ase_action ev; win_exfil_paired := false;
  win_trust_escalation_paired := false |}.

Definition opt_list {A} (o : option A) : list A := match o with Some a => [a] | None => [] end.

Definition observe_memory (c : Correlator) (ev : AseEvent) : list (Uuid → Incident) * Correlator :=
  let key := window_key ev in
  let ts_now := parse_ts (ase_occurred_at ev) in
  let window := default [] (c !! key) ++ [entry_of ev ts_now] in
  let window := List.filter (λ e, (ts_now - MAX_WINDOW_SECS <=? win_ts_secs e)%Z) window in
  let storm := rule_deny_storm ev window ts_now in
  let runaway := rule_runaway ev window ts_now in
  let approval := rule_repeated_approval ev window ts_now in
  let '(exfil, window) := rule_data_exfil ev window ts_now in
  let '(escalation, window) := rule_trust_escalation ev window ts_now in
  (opt_list storm ++ opt_list runaway ++ opt_list approval ++ opt_list exfil ++ opt_list escalation,
   <[key := window]> c).

(** A run of the drain, event by event. *)
Fixpoint observe_all (c : Correlator) (evs : list AseEvent) : list (list (Uuid → Incident)) * Correlator :=
  match evs with
  | [] => ([], c)
  | ev :: evs' =>
      let '(out, c) := observe_memory c ev in
      let '(outs, c) := observe_all c evs' in
      (out :: outs, c)
  end.
End Correlate.
End Correlate.

(** ** Lists *)

Lemma filter_filter {A} (f g : A → bool) l :
  List.filter f (List.filter g l) = List.filter (λ x, g x && f x) l.
Proof. induction l as [|x l IH]; [done|]. simpl. destruct (g x); simpl; by rewrite IH. Qed.

Lemma filter_map_eq {A B} (f : A → bool) (g : B → A) l :
  List.filter f (map g l) = map g (List.filter (λ x, f (g x)) l).
Proof. induction l as [|x l IH]; [done|]. simpl. destruct (f (g x)); simpl; by rewrite IH. Qed.

Lemma elem_of_list_filter' {A} (f : A → bool) l x : x ∈ List.filter f l ↔ f x = true ∧ x ∈ l.
Proof. rewrite list_elem_of_In, filter_In, <- list_elem_of_In. tauto. Qed.

(** Marking the first element that passes the test, when the elements are
    images and the mark changes the image of that element only. *)
Lemma mark_first_map {A B K} (key : B → K) (test : A → bool) (mark : A → A) (f f' : B → A) (l : list B) :
  NoDup (map key l) →
  (∀ y, find (λ z, test (f z)) l = Some y →
     f' y = mark (f y) ∧ ∀ x, x ∈ l → key x ≠ key y → f' x = f x) →
  mark_first test mark (map f l) = (λ y, (f y, map f' l)) <$> find (λ z, test (f z)) l.
Proof.
  induction l as [|x l IH]; [done|]. cbn [map find]. intros [Hx Hnd]%NoDup_cons Ho. cbn [mark_first].
  assert (∀ y, y ∈ l → key x ≠ key y) as Hne.
  { intros y Hy Heq. apply Hx. rewrite Heq. apply list_elem_of_fmap. eauto. }
  destruct (test (f x)) eqn:Ht.
  - destruct (Ho x eq_refl) as [Hm Hoth]. simpl. rewrite Hm. do 3 f_equal.
    apply map_ext_in. intros y Hy%list_elem_of_In. symmetry. apply Hoth; [set_solver|].
    intros Heq. by eapply Hne.
  - rewrite IH; [|done|intros y Hy; destruct (Ho y Hy) as [Hm Hoth]; split; [done|set_solver]].
    destruct (find _ l) as [y|] eqn:Hf; [|done]. simpl. do 3 f_equal.
    apply find_some in Hf as Hy. destruct Hy as [Hy%list_elem_of_In _].
    symmetry. apply (Ho y eq_refl); [set_solver|]. by apply Hne.
Qed.

(** ** The rules over the whole history *)

Module FullHistory.
Import Correlate.
Section FullHistory.
Context {X : External} {HX : HostExternal} {SX : SocExternal}.

Definition ts (e : AseEvent) : Z := parse_ts (ase_occurred_at e).
Definition same_key (ev e : AseEvent) : bool := bool_decide (window_key e = window_key ev).
Definition str_mem (s : string) (l : list string) : bool := bool_decide (s ∈ l).

(** Everything that ever happened, and the evidence already used by each of the
    two pairing rules: no window, nothing evicted. *)
Record Ledger := {
  lg_history : list AseEvent;
  lg_exfil_used : list string;
  lg_escalation_used : list string }.

Definition recent (ev : AseEvent) (secs : Z) (test : AseEvent → bool) (h : list AseEvent) : list AseEvent :=
  List.filter (λ e, same_key ev e && ((ts ev - secs <=? ts e)%Z && test e)) h.

Definition threshold (ev : AseEvent) (n : nat) (secs : Z) (test : AseEvent → bool)
    (kind severity : string) (summary : AseEvent → nat → string) (h : list AseEvent) :
    option (Uuid → Incident) :=
  let es := recent ev secs test h in
  if (length es =? n)%nat
  then Some (new_incident ev kind severity (summary ev (length es)) (map ase_event_id es))
  else None.

Definition is_decision (d : string) (e : AseEvent) : bool := ase_decision e == d.

(** The first event of the agent in the last [secs] seconds that passes the
    test and is not used yet. *)
Definition first_unused (ev : AseEvent) (secs : Z) (used : list string) (test : AseEvent → bool)
    (h : list AseEvent) : option AseEvent :=
  find (λ e, same_key ev e && ((ts ev - secs <=? ts e)%Z && ((ts e <=? ts ev)%Z &&
             negb (str_mem (ase_event_id e) used) && test e))) h.

Definition observe_ledger (l : Ledger) (ev : AseEvent) : list (Uuid → Incident) * Ledger :=
  let h := lg_history l ++ [ev] in
  let storm := threshold ev DENY_STORM_N DENY_STORM_WINDOW_SECS (is_decision "deny") "deny_storm" "high"
                 deny_storm_summary h in
  let runaway := threshold ev RUNAWAY_M RUNAWAY_WINDOW_SECS (λ _, true) "runaway" "high" runaway_summary h in
  let approval := threshold ev REPEATED_APPROVAL_K REPEATED_APPROVAL_WINDOW_SECS
                    (is_decision "require_approval") "repeated_approval" "info"
                    repeated_approval_summary h in
  let source := if bool_decide (action_kind (ase_action ev) = Sink)
                then first_unused ev EXFIL_WINDOW_SECS (lg_exfil_used l)
                       (λ e, bool_decide (action_kind (ase_action e) = Source)) h
                else None in
  let denied := if ase_decision ev == "allow"
                then first_unused ev TRUST_ESCALATION_WINDOW_SECS (lg_escalation_used l)
                       (λ e, is_decision "deny" e && (ase_tool e == ase_tool ev) &&
                             (ase_action e == ase_action ev)) h
                else None in
  let exfil := (λ e, new_incident ev "data_exfil_pattern" "high" (exfil_summary ev (ase_action e))
                       [ase_event_id e; ase_event_id ev]) <$> source in
  let escalation := (λ e, new_incident ev "trust_escalation" "high"
                            (escalation_summary ev (ase_tool e) (ase_action e))
                            [ase_event_id e; ase_event_id ev]) <$> denied in
  (opt_list storm ++ opt_list runaway ++ opt_list approval ++ opt_list exfil ++ opt_list escalation,
   {| lg_history := h;
      lg_exfil_used := lg_exfil_used l ++ opt_list (ase_event_id <$> source);
      lg_escalation_used := lg_escalation_used l ++ opt_list (ase_event_id <$> denied) |}).

Fixpoint ledger_all (l : Ledger) (evs : list AseEvent) : list (list (Uuid → Incident)) * Ledger :=
  match evs with
  | [] => ([], l)
  | ev :: evs' =>
      let '(out, l) := observe_ledger l ev in
      let '(outs, l) := ledger_all l evs' in
      (out :: outs, l)
  end.

Definition empty_ledger : Ledger :=
  {| lg_history := []; lg_exfil_used := []; lg_escalation_used := [] |}.

(** The events of an agent arrive in the order of their times. *)
Definition chronological (evs : list AseEvent) : Prop :=
  ∀ i j e e', (i < j)%nat → evs !! i = Some e → evs !! j = Some e' →
    window_key e = window_key e' → (ts e ≤ ts e')%Z.

(** ** The window is a view of the history *)

(** The entry of an event, given the evidence used. *)
Definition entry (ux ut : list string) (e : AseEvent) : WindowEntry := {|
  win_ts_secs := ts e; win_event_id := ase_event_id e; win_decision := ase_decision e;
  win_tool := ase_tool e; win_action := ase_action e;
  win_exfil_paired := str_mem (ase_event_id e) ux;
  win_trust_escalation_paired := str_mem (ase_event_id e) ut |}.

Definition in_view (k : string * string) (t : Z) (e : AseEvent) : bool :=
  bool_decide (window_key e = k) && (t - MAX_WINDOW_SECS <=? ts e)%Z.

Definition view_of (l : Ledger) (k : string * string) (t : Z) : list WindowEntry :=
  map (entry (lg_exfil_used l) (lg_escalation_used l)) (List.filter (in_view k t) (lg_history l)).

Definition related (l : Ledger) (c : Correlator) : Prop :=
  ∀ k t, (∀ e, e ∈ lg_history l → window_key e = k → (ts e ≤ t)%Z) →
    List.filter (λ w, (t - MAX_WINDOW_SECS <=? win_ts_secs w)%Z) (default [] (c !! k)) = view_of l k t.

(** The rules see the same through the window as in the whole history. *)
Lemma rule_sees_history ev ux ut h secs (f : WindowEntry → bool) (g : AseEvent → bool) :
  (secs ≤ MAX_WINDOW_SECS)%Z → (∀ e, f (entry ux ut e) = g e) →
  List.filter (λ w, (ts ev - secs <=? win_ts_secs w)%Z && f w)
    (map (entry ux ut) (List.filter (in_view (window_key ev) (ts ev)) h)) =
  map (entry ux ut) (recent ev secs g h).
Proof.
  intros Hsecs Hfg. rewrite filter_map_eq, filter_filter. f_equal. unfold recent. apply filter_ext.
  intros e. unfold in_view, same_key. simpl. rewrite Hfg.
  destruct (bool_decide _); simpl; [|done].
  destruct (Z.leb_spec (ts ev - secs) (ts e)); simpl; [|by rewrite andb_false_r].
  destruct (Z.leb_spec (ts ev - MAX_WINDOW_SECS) (ts e)); [done|lia].
Qed.

Lemma find_in_filter {A} (f g : A → bool) l : find f (List.filter g l) = find (λ x, g x && f x) l.
Proof.
  induction l as [|x l IH]; [done|]. simpl. destruct (g x); simpl; [|done]. by destruct (f x).
Qed.

Lemma find_ext {A} (f g : A → bool) l : (∀ x, f x = g x) → find f l = find g l.
Proof. intros H. induction l as [|x l IH]; [done|]. simpl. by rewrite H, IH. Qed.

Lemma str_mem_app s l l' : str_mem s (l ++ l') = str_mem s l || str_mem s l'.
Proof. unfold str_mem. apply eq_bool_prop_intro. rewrite orb_True, !bool_decide_spec. apply elem_of_app. Qed.

(** The used evidence is part of the history. *)
Definition used_known (l : Ledger) : Prop :=
  ∀ i, i ∈ lg_exfil_used l ++ lg_escalation_used l → i ∈ map ase_event_id (lg_history l).

(** The window of the agent after the eviction, when the event is new. *)
Lemma evicted_window l c ev :
  related l c → used_known l → NoDup (map ase_event_id (lg_history l ++ [ev])) →
  (∀ e, e ∈ lg_history l → window_key e = window_key ev → (ts e ≤ ts ev)%Z) →
  List.filter (λ e, (ts ev - MAX_WINDOW_SECS <=? win_ts_secs e)%Z)
    (default [] (c !! window_key ev) ++ [entry_of ev (ts ev)]) =
  map (entry (lg_exfil_used l) (lg_escalation_used l))
    (List.filter (in_view (window_key ev) (ts ev)) (lg_history l ++ [ev])).
Proof.
  intros Hr Hu Hnd Hle. rewrite !List.filter_app, map_app, Hr by done. unfold view_of. f_equal.
  assert (ase_event_id ev ∉ lg_exfil_used l ++ lg_escalation_used l) as Hnew.
  { intros Hin%Hu. rewrite map_app in Hnd. apply NoDup_app in Hnd as (_ & Hd & _).
    eapply Hd; [done|]. simpl. set_solver. }
  simpl. unfold in_view. rewrite bool_decide_true by done. simpl.
  destruct (Z.leb_spec (ts ev - MAX_WINDOW_SECS) (ts ev)) as [_|Hlt]; [|unfold MAX_WINDOW_SECS, REPEATED_APPROVAL_WINDOW_SECS in Hlt; lia].
  simpl. unfold entry, str_mem. rewrite !bool_decide_false by set_solver. done.
Qed.

Lemma threshold_sees_history ev ux ut h n secs (f : WindowEntry → bool) (g : AseEvent → bool)
    kind severity summary :
  (secs ≤ MAX_WINDOW_SECS)%Z → (∀ e, f (entry ux ut e) = g e) →
  (let in_window := List.filter (λ w, (ts ev - secs <=? win_ts_secs w)%Z && f w)
     (map (entry ux ut) (List.filter (in_view (window_key ev) (ts ev)) h)) in
   if (length in_window =? n)%nat
   then Some (new_incident ev kind severity (summary ev (length in_window)) (map win_event_id in_window))
   else None) = threshold ev n secs g kind severity summary h.
Proof.
  intros Hs Hfg. cbv zeta. rewrite (rule_sees_history ev ux ut h secs f g) by done.
  unfold threshold. by rewrite length_map, map_map.
Qed.

(** A pairing rule through the window and in the history. *)
Lemma pairing_sees_history ev h es (test : WindowEntry → bool) (mark : WindowEntry → WindowEntry)
    (view view' : AseEvent → WindowEntry) (wanted : AseEvent → bool) :
  es = List.filter (in_view (window_key ev) (ts ev)) h → NoDup (map ase_event_id h) →
  (∀ e, in_view (window_key ev) (ts ev) e && test (view e) = wanted e) →
  (∀ y, find wanted h = Some y →
     view' y = mark (view y) ∧ ∀ x, x ∈ es → ase_event_id x ≠ ase_event_id y → view' x = view x) →
  mark_first test mark (map view es) = (λ y, (view y, map view' es)) <$> find wanted h.
Proof.
  intros -> Hnd Hw Hm.
  assert (find (λ z, test (view z)) (List.filter (in_view (window_key ev) (ts ev)) h) = find wanted h)
    as Hfind by (rewrite find_in_filter; by apply find_ext).
  rewrite (mark_first_map ase_event_id _ _ _ view'), Hfind; [done| |by rewrite Hfind].
  clear -Hnd. induction h as [|e h IH]; [constructor|]. simpl in *.
  apply NoDup_cons in Hnd as [Hn Hnd]. destruct (in_view _ _ e); simpl; [|by apply IH].
  apply NoDup_cons. split; [|by apply IH]. intros (x & Hx & [_ Hin]%elem_of_list_filter')%list_elem_of_fmap.
  apply Hn. rewrite Hx. apply list_elem_of_fmap. eauto.
Qed.

Lemma str_mem_one s i : str_mem s [i] = bool_decide (s = i).
Proof. unfold str_mem. apply bool_decide_ext, list_elem_of_singleton. Qed.

Lemma in_view_range ev e secs (b : bool) :
  (secs ≤ MAX_WINDOW_SECS)%Z →
  in_view (window_key ev) (ts ev) e && ((ts ev - secs <=? ts e)%Z && b) =
  same_key ev e && ((ts ev - secs <=? ts e)%Z && b).
Proof.
  intros Hs. unfold in_view, same_key. destruct (bool_decide _); simpl; [|done].
  destruct (Z.leb_spec (ts ev - secs) (ts e)); simpl; [|by rewrite andb_false_r].
  destruct (Z.leb_spec (ts ev - MAX_WINDOW_SECS) (ts e)); [done|lia].
Qed.

Definition source_of (used : list string) (ev : AseEvent) (h : list AseEvent) : option AseEvent :=
  if bool_decide (action_kind (ase_action ev) = Sink)
  then first_unused ev EXFIL_WINDOW_SECS used (λ e, bool_decide (action_kind (ase_action e) = Source)) h
  else None.

Definition denied_of (used : list string) (ev : AseEvent) (h : list AseEvent) : option AseEvent :=
  if ase_decision ev == "allow"
  then first_unused ev TRUST_ESCALATION_WINDOW_SECS used
         (λ e, is_decision "deny" e && (ase_tool e == ase_tool ev) && (ase_action e == ase_action ev)) h
  else None.

Lemma exfil_refines ux ut ev h es :
  es = List.filter (in_view (window_key ev) (ts ev)) h → NoDup (map ase_event_id h) →
  rule_data_exfil ev (map (entry ux ut) es) (ts ev) =
  ((λ e, new_incident ev "data_exfil_pattern" "high" (exfil_summary ev (ase_action e))
           [ase_event_id e; ase_event_id ev]) <$> source_of ux ev h,
   map (entry (ux ++ opt_list (ase_event_id <$> source_of ux ev h)) ut) es).
Proof.
  intros Hes Hnd. unfold rule_data_exfil, source_of.
  destruct (bool_decide (action_kind _ = Sink)); simpl; [|by rewrite app_nil_r].
  set (src := first_unused _ _ _ _ _).
  rewrite (pairing_sees_history ev h es (exfil_source (ts ev)) mark_exfil (entry ux ut)
             (entry (ux ++ opt_list (ase_event_id <$> src)) ut)
             (λ e, same_key ev e && ((ts ev - EXFIL_WINDOW_SECS <=? ts e)%Z && ((ts e <=? ts ev)%Z &&
               negb (str_mem (ase_event_id e) ux) && bool_decide (action_kind (ase_action e) = Source)))));
    [|done..|intros e; by apply in_view_range|].
  - fold (first_unused ev EXFIL_WINDOW_SECS ux (λ e, bool_decide (action_kind (ase_action e) = Source)) h).
    fold src. destruct src; simpl; [done|]. by rewrite app_nil_r.
  - intros y Hy. fold (first_unused ev EXFIL_WINDOW_SECS ux
      (λ e, bool_decide (action_kind (ase_action e) = Source)) h) in Hy. fold src in Hy. rewrite Hy. simpl.
    split.
    + unfold mark_exfil, entry. simpl. by rewrite str_mem_app, str_mem_one, bool_decide_true, orb_true_r.
    + intros x _ Hne. unfold entry. by rewrite str_mem_app, str_mem_one, bool_decide_false, orb_false_r.
Qed.

Lemma escalation_refines ux ut ev h es :
  es = List.filter (in_view (window_key ev) (ts ev)) h → NoDup (map ase_event_id h) →
  rule_trust_escalation ev (map (entry ux ut) es) (ts ev) =
  ((λ e, new_incident ev "trust_escalation" "high" (escalation_summary ev (ase_tool e) (ase_action e))
           [ase_event_id e; ase_event_id ev]) <$> denied_of ut ev h,
   map (entry ux (ut ++ opt_list (ase_event_id <$> denied_of ut ev h))) es).
Proof.
  intros Hes Hnd. unfold rule_trust_escalation, denied_of.
  destruct (ase_decision ev == "allow"); simpl; [|by rewrite app_nil_r].
  set (test := λ e, is_decision "deny" e && (ase_tool e == ase_tool ev) && (ase_action e == ase_action ev)).
  set (src := first_unused ev TRUST_ESCALATION_WINDOW_SECS ut test h).
  rewrite (pairing_sees_history ev h es (escalated_deny ev (ts ev)) mark_escalation (entry ux ut)
             (entry ux (ut ++ opt_list (ase_event_id <$> src)))
             (λ e, same_key ev e && ((ts ev - TRUST_ESCALATION_WINDOW_SECS <=? ts e)%Z &&
               ((ts e <=? ts ev)%Z && negb (str_mem (ase_event_id e) ut) && test e))));
    [|done..| |].
  - fold (first_unused ev TRUST_ESCALATION_WINDOW_SECS ut test h). fold src.
    destruct src; simpl; [done|]. by rewrite app_nil_r.
  - intros e. rewrite <- in_view_range by done. do 2 f_equal. unfold escalated_deny, test, is_decision. simpl. f_equal.
    destruct (ts e <=? ts ev)%Z, (ase_decision e == "deny"), (str_mem _ ut); simpl; try done.
  - intros y Hy. fold (first_unused ev TRUST_ESCALATION_WINDOW_SECS ut test h) in Hy. fold src in Hy.
    rewrite Hy. simpl. split.
    + unfold mark_escalation, entry. simpl. by rewrite str_mem_app, str_mem_one, bool_decide_true, orb_true_r.
    + intros x _ Hne. unfold entry. by rewrite str_mem_app, str_mem_one, bool_decide_false, orb_false_r.
Qed.

Lemma first_unused_in ev secs used test h e :
  first_unused ev secs used test h = Some e →
  e ∈ h ∧ window_key e = window_key ev ∧ (ts ev - secs ≤ ts e ≤ ts ev)%Z ∧
  ase_event_id e ∉ used ∧ test e = true.
Proof.
  intros [Hin Ht]%find_some. rewrite !andb_true_iff, negb_true_iff in Ht.
  destruct Ht as (Hk & Hlo & (Hhi & Hu) & Ht).
  split_and!; [by apply list_elem_of_In|by apply bool_decide_eq_true in Hk|lia..| |done].
  by apply bool_decide_eq_false in Hu.
Qed.

Lemma source_of_in used ev h e :
  source_of used ev h = Some e →
  e ∈ h ∧ window_key e = window_key ev ∧ (ts ev - EXFIL_WINDOW_SECS ≤ ts e ≤ ts ev)%Z ∧
  ase_event_id e ∉ used ∧ action_kind (ase_action e) = Source ∧ action_kind (ase_action ev) = Sink.
Proof.
  unfold source_of. case_bool_decide; [|done].
  intros (? & ? & ? & ? & Hs)%first_unused_in. by apply bool_decide_eq_true in Hs.
Qed.

Lemma denied_of_in used ev h e :
  denied_of used ev h = Some e →
  e ∈ h ∧ window_key e = window_key ev ∧ (ts ev - TRUST_ESCALATION_WINDOW_SECS ≤ ts e ≤ ts ev)%Z ∧
  ase_event_id e ∉ used ∧ ase_decision e = "deny" ∧ ase_tool e = ase_tool ev ∧
  ase_action e = ase_action ev ∧ ase_decision ev = "allow".
Proof.
  unfold denied_of. destruct (ase_decision ev == "allow") eqn:Ha; [|done].
  intros (? & ? & ? & ? & Hs)%first_unused_in. unfold is_decision in Hs.
  rewrite !andb_true_iff, !eqb_spec_true in Hs. apply eqb_spec_true in Ha.
  destruct Hs as [[? ?] ?]. split_and!; (done || lia).
Qed.

(** What the ledger does, rule by rule. *)
Lemma observe_ledger_state l ev :
  let h := lg_history l ++ [ev] in
  (observe_ledger l ev).2 =
  {| lg_history := h;
     lg_exfil_used := lg_exfil_used l ++ opt_list (ase_event_id <$> source_of (lg_exfil_used l) ev h);
     lg_escalation_used :=
       lg_escalation_used l ++ opt_list (ase_event_id <$> denied_of (lg_escalation_used l) ev h) |}.
Proof. done. Qed.

Lemma used_known_step l ev : used_known l → used_known (observe_ledger l ev).2.
Proof.
  intros Hu i. rewrite observe_ledger_state. simpl. rewrite map_app.
  rewrite !elem_of_app. intros [[Hi|Hi]|[Hi|Hi]].
  - left. apply Hu. set_solver.
  - destruct (source_of _ ev _) as [e|] eqn:He; [|set_solver]. simpl in Hi.
    apply list_elem_of_singleton in Hi as ->. apply source_of_in in He as (He & _).
    rewrite <- elem_of_app, <- map_app. apply list_elem_of_fmap. eauto.
  - left. apply Hu. set_solver.
  - destruct (denied_of _ ev _) as [e|] eqn:He; [|set_solver]. simpl in Hi.
    apply list_elem_of_singleton in Hi as ->. apply denied_of_in in He as (He & _).
    rewrite <- elem_of_app, <- map_app. apply list_elem_of_fmap. eauto.
Qed.

(** The correlator on one event, through the view. *)
Lemma observe_memory_view l c ev :
  related l c → used_known l → NoDup (map ase_event_id (lg_history l ++ [ev])) →
  (∀ e, e ∈ lg_history l → window_key e = window_key ev → (ts e ≤ ts ev)%Z) →
  observe_memory c ev =
  ((observe_ledger l ev).1,
   <[window_key ev := view_of (observe_ledger l ev).2 (window_key ev) (ts ev)]> c).
Proof.
  intros Hr Hu Hnd Hle. unfold observe_memory. fold (ts ev).
  rewrite (evicted_window l c ev) by done.
  set (es := List.filter _ _). set (ux := lg_exfil_used l). set (ut := lg_escalation_used l).
  rewrite (exfil_refines ux ut ev (lg_history l ++ [ev]) es eq_refl Hnd).
  rewrite (escalation_refines _ ut ev (lg_history l ++ [ev]) es eq_refl Hnd).
  unfold view_of. rewrite observe_ledger_state. cbn [lg_history lg_exfil_used lg_escalation_used].
  fold es ux ut. f_equal. unfold observe_ledger. cbn [fst]. fold ux ut. f_equal; [|f_equal; [|f_equal]].
  - f_equal. unfold rule_deny_storm, es.
    by apply (threshold_sees_history ev ux ut _ _ _ (λ w, win_decision w == "deny")).
  - f_equal. unfold rule_runaway, es.
    rewrite <- (threshold_sees_history ev ux ut _ _ _ (λ _, true)) by done. cbv zeta.
    assert (∀ w, (ts ev - RUNAWAY_WINDOW_SECS <=? win_ts_secs w)%Z && true =
                 (ts ev - RUNAWAY_WINDOW_SECS <=? win_ts_secs w)%Z) as Htrue by (intros; apply andb_true_r).
    by rewrite !(filter_ext _ _ Htrue).
  - f_equal. unfold rule_repeated_approval, es.
    by apply (threshold_sees_history ev ux ut _ _ _ (λ w, win_decision w == "require_approval")).
Qed.

Lemma in_view_filter k t t' h :
  (t' ≤ t)%Z →
  List.filter (λ e, (t - MAX_WINDOW_SECS <=? ts e)%Z) (List.filter (in_view k t') h) =
  List.filter (in_view k t) h.
Proof.
  intros Ht. rewrite filter_filter. apply filter_ext. intros e. unfold in_view.
  destruct (bool_decide _); simpl; [|done].
  destruct (Z.leb_spec (t - MAX_WINDOW_SECS) (ts e)), (Z.leb_spec (t' - MAX_WINDOW_SECS) (ts e)); simpl; lia.
Qed.

(** Two events of the history with the same id are the same. *)
Lemma same_id_same h e e' :
  NoDup (map ase_event_id h) → e ∈ h → e' ∈ h → ase_event_id e = ase_event_id e' → e = e'.
Proof.
  intros Hnd [i Hi]%list_elem_of_lookup [j Hj]%list_elem_of_lookup Heq.
  assert (i = j) as ->; [|congruence].
  eapply NoDup_lookup; [exact Hnd| |]; rewrite list_lookup_fmap, ?Hi, ?Hj; simpl; [done|by rewrite Heq].
Qed.

(** Evidence of one agent is not used for another. *)
Lemma flag_kept h used (o : option AseEvent) ev e :
  NoDup (map ase_event_id h) → e ∈ h → window_key e ≠ window_key ev →
  (∀ y, o = Some y → y ∈ h ∧ window_key y = window_key ev) →
  str_mem (ase_event_id e) (used ++ opt_list (ase_event_id <$> o)) = str_mem (ase_event_id e) used.
Proof.
  intros Hnd He Hk Ho. rewrite str_mem_app. destruct o as [y|]; simpl; [|by rewrite orb_false_r].
  destruct (Ho y eq_refl) as [Hy Hky]. rewrite str_mem_one, bool_decide_false, orb_false_r; [done|].
  intros Heq. apply Hk. by rewrite (same_id_same h e y).
Qed.

Lemma related_step l c ev :
  related l c → NoDup (map ase_event_id (lg_history l ++ [ev])) →
  let l' := (observe_ledger l ev).2 in
  related l' (<[window_key ev := view_of l' (window_key ev) (ts ev)]> c).
Proof.
  intros Hr Hnd l' k t Hub. unfold Correlator in *. destruct (decide (k = window_key ev)) as [->|Hk].
  - rewrite lookup_insert_eq. simpl. unfold view_of. rewrite filter_map_eq. f_equal.
    apply in_view_filter. apply Hub; [|done]. unfold l'. rewrite observe_ledger_state. simpl. set_solver.
  - rewrite lookup_insert_ne by done. unfold l' in *. rewrite observe_ledger_state in *.
    cbn [lg_history] in Hub. rewrite Hr by (intros e He; apply Hub; set_solver).
    unfold view_of. cbn [lg_history lg_exfil_used lg_escalation_used].
    rewrite List.filter_app, map_app. simpl. unfold in_view at 3. rewrite bool_decide_false by done.
    simpl. rewrite app_nil_r. apply map_ext_in. intros e He%list_elem_of_In.
    apply elem_of_list_filter' in He as [Hv He]. unfold in_view in Hv.
    apply andb_true_iff in Hv as [Hke%bool_decide_eq_true _]. unfold entry.
    rewrite !(flag_kept (lg_history l ++ [ev]) _ _ ev e) by
      (try done; try (by intros y (? & ? & _)%source_of_in); try (by intros y (? & ? & _)%denied_of_in);
       try congruence; set_solver).
    done.
Qed.

Lemma refines_from l c evs :
  related l c → used_known l → NoDup (map ase_event_id (lg_history l ++ evs)) →
  chronological (lg_history l ++ evs) →
  (observe_all c evs).1 = (ledger_all l evs).1.
Proof.
  revert l c. induction evs as [|ev evs IH]; intros l c Hr Hu Hnd Hch; [done|].
  assert (lg_history l ++ ev :: evs = (lg_history l ++ [ev]) ++ evs) as Happ by (by rewrite <- app_assoc).
  assert (NoDup (map ase_event_id (lg_history l ++ [ev]))) as Hnd1.
  { rewrite Happ, map_app in Hnd. by apply NoDup_app in Hnd as [? _]. }
  cbn [observe_all ledger_all]. rewrite (observe_memory_view l c ev Hr Hu Hnd1).
  - pose proof (related_step l c ev Hr Hnd1) as Hr'. pose proof (used_known_step l ev Hu) as Hu'.
    pose proof (observe_ledger_state l ev) as Hst.
    destruct (observe_ledger l ev) as [out l'] eqn:Hl. cbn [fst snd] in *.
    specialize (IH l' _ Hr' Hu'). rewrite Hst in IH. cbn [lg_history] in IH. rewrite <- Happ in IH.
    specialize (IH Hnd Hch). rewrite <- Hst in IH.
    destruct (observe_all _ evs) as [outs c2], (ledger_all l' evs) as [outs' l2]. simpl in *. by rewrite IH.
  - intros e [i Hi]%list_elem_of_lookup Hk.
    apply (Hch i (length (lg_history l)) e ev); [by eapply lookup_lt_Some| | |done].
    + by apply lookup_app_l_Some.
    + by rewrite lookup_app_r, Nat.sub_diag.
Qed.

Lemma refines_start evs :
  NoDup (map ase_event_id evs) → chronological evs →
  (observe_all ∅ evs).1 = (ledger_all empty_ledger evs).1.
Proof.
  intros Hnd Hch. apply refines_from; [|by intros ? ?%elem_of_nil|done..].
  intros k t _. done.
Qed.

(** C31: the windows lose nothing.  For events with distinct identifiers that
    arrive, agent by agent, in the order of their times, the correlator yields
    event by event exactly the incidents of the rules read over everything that
    ever happened: a threshold rule fires when the number of matching events of
    the agent in its last seconds, the new one included, is the threshold, with
    all of them as evidence; a sink is paired with the first source of the
    agent in the last 120 seconds that no earlier incident used, and an allowed
    call with the first unused denial of the same tool and action. *)
Theorem correlator_refines_full_history evs :
  NoDup (map ase_event_id evs) → chronological evs →
  (observe_all ∅ evs).1 = (ledger_all empty_ledger evs).1.
Proof. exact (refines_start evs). Qed.

(** ** No storm is missed *)

Lemma last_such {A} (f : A → bool) l :
  Forall (λ x, f x = false) l ∨
  ∃ l1 x l2, l = l1 ++ x :: l2 ∧ f x = true ∧ Forall (λ x, f x = false) l2.
Proof.
  induction l as [|y l IH] using rev_ind; [by left|].
  destruct (f y) eqn:Hy; [by right; exists l, y, []|]. destruct IH as [IH|(l1 & x & l2 & -> & Hx & Hl2)].
  - left. apply Forall_app. by repeat constructor.
  - right. exists l1, x, (l2 ++ [y]). rewrite <- app_assoc. split; [done|]. split; [done|].
    apply Forall_app. by repeat constructor.
Qed.

Lemma filter_nil {A} (f : A → bool) l : Forall (λ x, f x = false) l → List.filter f l = [].
Proof. induction 1 as [|x l Hx _ IH]; [done|]. simpl. by rewrite Hx. Qed.

Lemma filter_length_impl {A} (f g : A → bool) l :
  (∀ x, x ∈ l → f x = true → g x = true) → (length (List.filter f l) ≤ length (List.filter g l))%nat.
Proof.
  induction l as [|x l IH]; intros H; [done|]. simpl.
  specialize (IH (λ y Hy, H y (list_elem_of_further _ _ _ Hy))).
  destruct (f x) eqn:Hf; [rewrite (H x (list_elem_of_here _ _) Hf); simpl; lia|].
  destruct (g x); simpl; lia.
Qed.

(** A new event adds one to a count at most, compared with the last event of
    the agent. *)
Lemma recent_step ev secs test pre :
  (∀ e, e ∈ pre → window_key e = window_key ev → (ts e ≤ ts ev)%Z) →
  (length (recent ev secs test (pre ++ [ev])) ≤ 1)%nat ∨
  ∃ pre1 p mid, pre = pre1 ++ p :: mid ∧ window_key p = window_key ev ∧
    Forall (λ e, same_key ev e = false) mid ∧
    (length (recent ev secs test (pre ++ [ev])) ≤ S (length (recent p secs test (pre1 ++ [p]))))%nat.
Proof.
  intros Hle. unfold recent at 1 2. rewrite List.filter_app, length_app.
  assert (∀ f : AseEvent → bool, (length (List.filter f [ev]) ≤ 1)%nat) as Hone.
  { intros f. simpl. destruct (f ev); simpl; lia. }
  destruct (last_such (same_key ev) pre) as [Hno|(pre1 & p & mid & -> & Hp & Hmid)].
  - left. rewrite filter_nil.
    + apply Hone.
    + eapply list.Forall_impl; [exact Hno|]. intros e He. by rewrite He.
  - right. exists pre1, p, mid. apply bool_decide_eq_true in Hp.
    split; [done|]. split; [done|]. split; [done|].
    assert (pre1 ++ p :: mid = (pre1 ++ [p]) ++ mid) as -> by (by rewrite <- app_assoc).
    rewrite List.filter_app, (filter_nil _ mid), app_nil_r.
    + specialize (Hone (λ e, same_key ev e && ((ts ev - secs <=? ts e)%Z && test e))).
      enough (length (List.filter (λ e, same_key ev e && ((ts ev - secs <=? ts e)%Z && test e)) (pre1 ++ [p])) ≤
              length (recent p secs test (pre1 ++ [p])))%nat by lia.
      apply filter_length_impl. intros e He Ht. rewrite !andb_true_iff in Ht |- *.
      destruct Ht as (Hk%bool_decide_eq_true & Hlo & Ht). split_and!; [|apply Z.leb_le in Hlo|done].
      * apply bool_decide_eq_true. by rewrite Hp.
      * specialize (Hle p). rewrite Hp in Hle. specialize (Hle ltac:(set_solver) eq_refl). lia.
    + eapply list.Forall_impl; [exact Hmid|]. intros e He. by rewrite He.
Qed.

Lemma ledger_nth l evs i out :
  (ledger_all l evs).1 !! i = Some out →
  ∃ l' ev, evs !! i = Some ev ∧ lg_history l' = lg_history l ++ take i evs ∧
    out = (observe_ledger l' ev).1.
Proof.
  revert l i. induction evs as [|ev evs IH]; intros l i; [done|]. cbn [ledger_all].
  destruct (observe_ledger l ev) as [o l1] eqn:Hl. destruct (ledger_all l1 evs) as [outs l2] eqn:Hall.
  destruct i as [|i]; cbn [fst take].
  - intros Hi. injection Hi as <-. exists l, ev. by rewrite Hl, app_nil_r.
  - intros Hi. specialize (IH l1 i). rewrite Hall in IH. destruct (IH Hi) as (l' & ev' & He & Hh & ->).
    exists l', ev'. split; [done|]. split; [|done]. rewrite Hh.
    replace l1 with (observe_ledger l ev).2 by (by rewrite Hl). rewrite observe_ledger_state. simpl.
    by rewrite <- app_assoc.
Qed.

Lemma ledger_length l evs : length (ledger_all l evs).1 = length evs.
Proof.
  revert l. induction evs as [|ev evs IH]; intros l; [done|]. cbn [ledger_all].
  destruct (observe_ledger l ev) as [o l1]. specialize (IH l1). destruct (ledger_all l1 evs). simpl in *. lia.
Qed.

(** The three counting rules: the threshold, the seconds, what is counted. *)
Definition counting_rules : list (nat * Z * (AseEvent → bool) * string) :=
  [(DENY_STORM_N, DENY_STORM_WINDOW_SECS, is_decision "deny", "deny_storm");
   (RUNAWAY_M, RUNAWAY_WINDOW_SECS, λ _, true, "runaway");
   (REPEATED_APPROVAL_K, REPEATED_APPROVAL_WINDOW_SECS, is_decision "require_approval", "repeated_approval")].

Definition reports (out : list (Uuid → Incident)) (ev : AseEvent) (kind : string) (ids : list string) : Prop :=
  ∃ inc, inc ∈ out ∧ ∀ id, in_kind (inc id) = kind ∧ in_source_event_ids (inc id) = ids ∧
    in_tenant_id (inc id) = ase_tenant_id ev ∧ in_agent_id (inc id) = ase_agent_id ev.

Lemma reports_intro out ev kind severity summary ids :
  new_incident ev kind severity summary ids ∈ out → reports out ev kind ids.
Proof. intros Hin. eexists. split; [exact Hin|]. by intros id. Qed.

Lemma threshold_reported l ev n secs test kind :
  (n, secs, test, kind) ∈ counting_rules →
  length (recent ev secs test (lg_history l ++ [ev])) = n →
  reports (observe_ledger l ev).1 ev kind (map ase_event_id (recent ev secs test (lg_history l ++ [ev]))).
Proof.
  intros Hr Hn. unfold counting_rules in Hr.
  rewrite !elem_of_cons in Hr.
  destruct Hr as [[= -> -> -> ->]|[[= -> -> -> ->]|[[= -> -> -> ->]|?%elem_of_nil]]]; [| | |done];
    unfold observe_ledger, threshold; cbn [fst]; rewrite Hn, Nat.eqb_refl;
    eapply reports_intro; rewrite !elem_of_app; cbn [opt_list]; rewrite !list_elem_of_singleton; eauto.
Qed.

(** A storm is always reported.  Under the same conditions, whenever an
    event finds at least the threshold of matching events of its agent in the
    seconds of a counting rule, an event at or before it was reported for that
    rule, and the count stayed at or above the threshold at every event of the
    agent from the reported one on. *)
Lemma storm_never_missed evs n secs test kind pre ev post :
  NoDup (map ase_event_id evs) → chronological evs → (n, secs, test, kind) ∈ counting_rules →
  evs = pre ++ ev :: post → (n ≤ length (recent ev secs test (pre ++ [ev])))%nat →
  ∃ pre' ev' mid out,
    pre ++ [ev] = pre' ++ ev' :: mid ∧ window_key ev' = window_key ev ∧
    (observe_all ∅ evs).1 !! length pre' = Some out ∧
    reports out ev' kind (map ase_event_id (recent ev' secs test (pre' ++ [ev']))) ∧
    ∀ a e b, ev' :: mid = a ++ e :: b → window_key e = window_key ev →
      (n ≤ length (recent e secs test (pre' ++ a ++ [e])))%nat.
Proof.
  intros Hnd Hch Hr Hevs. rewrite (refines_start evs) by done.
  assert (1 < n)%nat as Hn.
  { unfold counting_rules in Hr. rewrite !elem_of_cons in Hr.
    destruct Hr as [?|[?|[?|?%elem_of_nil]]]; [| | |done]; simplify_eq;
      unfold DENY_STORM_N, RUNAWAY_M, REPEATED_APPROVAL_K; lia. }
  assert (∃ k, k = length pre) as [k Hk] by eauto.
  revert pre ev post Hk Hevs. induction k as [k IH] using lt_wf_ind. intros pre ev post Hk Hevs Hcount.
  destruct (decide (length (recent ev secs test (pre ++ [ev])) = n)) as [Heq|Hne].
  - assert (is_Some ((ledger_all empty_ledger evs).1 !! length pre)) as [out Hout].
    { apply lookup_lt_is_Some. rewrite ledger_length, Hevs, length_app. simpl. lia. }
    destruct (ledger_nth _ _ _ _ Hout) as (l' & ev0 & Hev & Hh & ->).
    rewrite Hevs, lookup_app_r, Nat.sub_diag in Hev by done. injection Hev as <-.
    rewrite Hevs, take_app_length in Hh. simpl in Hh.
    exists pre, ev, [], (observe_ledger l' ev).1. split_and!; [done..| |].
    + rewrite <- Hh. apply (threshold_reported l' ev n); [done|by rewrite Hh].
    + intros a e b Hab _. destruct a as [|? [|? a]]; [|done..]. injection Hab as <- _. done.
  - destruct (recent_step ev secs test pre) as [Hle|(pre1 & p & mid & -> & Hkp & Hmid & Hle)].
    { intros e [i Hi]%list_elem_of_lookup Hke. subst evs.
      apply (Hch i (length pre) e ev); [by eapply lookup_lt_Some| | |done].
      - by apply lookup_app_l_Some.
      - by rewrite lookup_app_r, Nat.sub_diag. }
    { lia. }
    destruct (IH (length pre1) ltac:(rewrite Hk, length_app; simpl; lia) pre1 p (mid ++ ev :: post) eq_refl)
      as (pre' & ev' & mid' & out & Hsplit & Hkey & Hout & Hrep & Hstay).
    { by rewrite Hevs, <- app_assoc. }
    { lia. }
    exists pre', ev', (mid' ++ mid ++ [ev]), out. split_and!; [|congruence|done|done|].
    { assert (pre1 ++ p :: mid = (pre1 ++ [p]) ++ mid) as -> by (by rewrite <- app_assoc).
      rewrite Hsplit, <- !app_assoc. done. }
    intros a e b Hab Hke.
    assert (∀ c, a = (ev' :: mid') ++ c → mid ++ [ev] = c ++ e :: b →
      (n ≤ length (recent e secs test (pre' ++ a ++ [e])))%nat) as Hlater.
    { intros c -> He. destruct b as [|x b _] using rev_ind.
      - apply app_inj_tail in He as [<- <-].
        assert (pre' ++ ((ev' :: mid') ++ mid) ++ [ev] = (pre1 ++ p :: mid) ++ [ev]) as ->; [|done].
        assert (pre1 ++ p :: mid = (pre1 ++ [p]) ++ mid) as -> by (by rewrite <- app_assoc).
        by rewrite Hsplit, <- !app_assoc.
      - rewrite app_comm_cons, app_assoc in He. apply app_inj_tail in He as [-> _].
        rewrite list.Forall_forall in Hmid. specialize (Hmid e ltac:(set_solver)).
        unfold same_key in Hmid. by rewrite bool_decide_eq_true_2 in Hmid. }
    destruct (app_eq_inv (ev' :: mid') (mid ++ [ev]) a (e :: b) Hab) as [(c & Hc & He)|(c & Hc & He)];
      [|by eapply Hlater].
    destruct c as [|e0 c]; simpl in He.
    + apply (Hlater []); [by rewrite app_nil_r in *|done].
    + injection He as <- _. apply (Hstay a e c Hc). congruence.
Qed.
End FullHistory.
End FullHistory.
