(* ===== verification/Respond.v ===== *)
(** * Response to incidents

    Models [src/lib/soc/src/playbook.rs] and [src/lib/soc/src/respond.rs], with
    the two settings of a tenant they read ([is_auto_respond_enabled] and
    [get_soc_autonomy_level] of [src/lib/storage/src/db/tenant.rs]). *)

From S2P Require Import Prelude RustString Prog Canon Models Records External Runtime Gateway Soc.
From stdpp Require Import pretty.

(** ** The settings of a tenant *)

Module Autonomy.
Section Autonomy.
Context {SX : SocExternal}.

Definition LEVELS : list string := ["L0"; "L1"; "L2"; "L3"; "L4"].

(** The level in capitals, when it is one. *)
Definition recognised (level : option string) : option string :=
  match level with
  | Some level =>
      let upper := to_uppercase level in
      if existsb (String.eqb upper) LEVELS then Some upper else None
  | None => None
  end.

Definition is_auto_respond_enabled (tenant_id : string) : OnSoc (Db bool) :=
  row ←? trigger (SoAutoRespond tenant_id);
  mret (Ok (default false row)).

Definition get_soc_autonomy_level (tenant_id : string) : OnSoc string :=
  row ← trigger (SoAutonomyRow tenant_id);
  let level := match row with Ok (Some level) => level | _ => None end in
  match recognised level with
  | Some upper => mret upper
  | None =>
      env ← trigger (SoEnv "AEGIS_SOC_AUTONOMY_LEVEL");
      mret (default "L1" (recognised env))
  end.
End Autonomy.
End Autonomy.

(** ** Playbooks *)

Module Playbook.

Definition get_severities (t : PlaybookTrigger) : list string :=
  match pt_severity t with Single s => [s] | Several l => l end.

Definition SEVERITIES : list string := ["info"; "low"; "medium"; "high"; "critical"].

Definition blank (s : string) : bool := is_empty (trim s).

Definition step_prefix (i : nat) : string := "Step " +:+ pretty (N.of_nat i) +:+ ": ".

Definition validate_step (i : nat) (step : PlaybookStep) : Result unit string :=
  match step with
  | FreezeAgent _ | ForceApproval => Ok tt
  | QuarantineMcp server_key =>
      if blank server_key then Err (step_prefix i +:+ "server_key cannot be empty in quarantine_mcp")
      else Ok tt
  | NotifySlack webhook_url _ text =>
      if blank webhook_url then Err (step_prefix i +:+ "webhook_url cannot be empty in notify_slack")
      else if blank text then Err (step_prefix i +:+ "text cannot be empty in notify_slack")
      else Ok tt
  | NotifyWebhook url _ =>
      if blank url then Err (step_prefix i +:+ "url cannot be empty in notify_webhook") else Ok tt
  end.

Fixpoint validate_steps (i : nat) (steps : list PlaybookStep) : Result unit string :=
  match steps with
  | [] => Ok tt
  | step :: steps' =>
      match validate_step i step with Ok _ => validate_steps (S i) steps' | Err e => Err e end
  end.

Definition invalid_severity (sev : string) : string :=
  "Invalid severity: '" +:+ sev +:+ "'. Expected one of: info, low, medium, high, critical".

Definition validate (p : ResponsePlaybook) : Result unit string :=
  let severities := get_severities (pb_trigger p) in
  if blank (pb_name p) then Err "Playbook name cannot be empty"
  else if blank (pt_kind (pb_trigger p)) then Err "Trigger kind cannot be empty"
  else match severities with
       | [] => Err "Trigger severity list cannot be empty"
       | _ =>
           match find (λ sev, negb (existsb (String.eqb sev) SEVERITIES)) severities with
           | Some sev => Err (invalid_severity sev)
           | None =>
               match pb_steps p with
               | [] => Err "Playbook must contain at least one step"
               | steps => validate_steps 0 steps
               end
           end
       end.

Definition matches (p : ResponsePlaybook) (incident : Incident) (agent : AgentRecord) : bool :=
  let t := pb_trigger p in
  (pt_kind t == in_kind incident) &&
  existsb (String.eqb (in_severity incident)) (get_severities t) &&
  match pt_agent_id t with
  | Some target => (target == in_agent_id incident) || (target == ar_agent_key agent)
  | None => true
  end &&
  match pt_environment t with Some target => target == ar_environment agent | None => true end.

Definition from_record {SX : SocExternal} (record : PlaybookRecord) : option ResponsePlaybook :=
  severity ← parse_trigger_severity (pbr_trigger_severity record);
  steps ← parse_steps (pbr_steps_json record);
  Some {| pb_name := pbr_name record;
          pb_trigger := {| pt_kind := pbr_trigger_kind record; pt_severity := severity;
                           pt_agent_id := pbr_trigger_agent_id record;
                           pt_environment := pbr_trigger_environment record |};
          pb_steps := steps |}.

(** Placeholder by placeholder, in the order of the source. *)
Definition variables (incident : Incident) (agent : AgentRecord) : list (string * string) := [
  ("{{ incident.incident_id }}", in_incident_id incident);
  ("{{ incident.tenant_id }}", in_tenant_id incident);
  ("{{ incident.agent_id }}", in_agent_id incident);
  ("{{ incident.kind }}", in_kind incident);
  ("{{ incident.severity }}", in_severity incident);
  ("{{ incident.summary }}", in_summary incident);
  ("{{ incident.opened_at }}", in_opened_at incident);
  ("{{ agent.id }}", ar_id agent);
  ("{{ agent.agent_key }}", ar_agent_key agent);
  ("{{ agent.name }}", ar_name agent);
  ("{{ agent.environment }}", ar_environment agent);
  ("{{ agent.risk_tier }}", ar_risk_tier agent);
  ("{{ agent.status }}", ar_status agent);
  ("{{ agent.frozen_reason }}", default "" (ar_frozen_reason agent));
  ("{{ agent.owner_team }}", default "" (ar_owner_team agent));
  ("{{ agent.owner_email }}", default "" (ar_owner_email agent))].

Definition render_template (template : string) (incident : Incident) (agent : AgentRecord) : string :=
  fold_left (λ rendered '(name, value), replace name value rendered) (variables incident agent) template.

(** [Serialize] of an incident *)
Definition incident_value (i : Incident) : Canon.Value := Canon.Object [
  ("incident_id", Canon.Str (in_incident_id i)); ("opened_at", Canon.Str (in_opened_at i));
  ("tenant_id", Canon.Str (in_tenant_id i)); ("agent_id", Canon.Str (in_agent_id i));
  ("kind", Canon.Str (in_kind i)); ("severity", Canon.Str (in_severity i));
  ("summary", Canon.Str (in_summary i));
  ("source_event_ids", Canon.Array (map Canon.Str (in_source_event_ids i)))].

Definition DEFAULT_REASON : string := "auto-response: playbook freeze".

Definition freeze_reason (reason : option string) (incident : Incident) (agent : AgentRecord) : string :=
  match reason with Some r => render_template r incident agent | None => DEFAULT_REASON end.

Section Steps.
Context {SX : SocExternal}.

Definition slack_payload (text : string) (channel : option string) : Canon.Value :=
  Canon.Object (("text", Canon.Str text) ::
                match channel with Some c => [("channel", Canon.Str c)] | None => [] end).

Definition webhook_payload (template : option string) (incident : Incident) (agent : AgentRecord) :
    Canon.Value :=
  match template with
  | Some template =>
      match parse_payload (render_template template incident agent) with
      | Some v => v
      | None => Canon.Object [
          ("incident", incident_value incident);
          ("error", Canon.Str "Failed to render custom payload JSON template")]
      end
  | None => Canon.Object [
      ("incident", incident_value incident);
      ("agent", Canon.Object [
         ("id", Canon.Str (ar_id agent)); ("agent_key", Canon.Str (ar_agent_key agent));
         ("name", Canon.Str (ar_name agent)); ("environment", Canon.Str (ar_environment agent))])]
  end.

(** A statement of the storage backend: the driver's error is wrapped. *)
Definition stored {A} (call : SocE (Db A)) : OnSoc (Fallible A) :=
  r ← trigger call; mret (map_err Database r).

Definition done_step (action description : string) : Fallible StepResult :=
  Ok {| sr_action := action; sr_description := description; sr_dry_run := false |}.

Definition execute_step (step : PlaybookStep) (incident : Incident) (agent : AgentRecord) :
    OnSoc (Fallible StepResult) :=
  let tenant_id := in_tenant_id incident in
  let agent_id := in_agent_id incident in
  match step with
  | FreezeAgent reason =>
      let rendered := freeze_reason reason incident agent in
      _ ←? stored (SoSetAgentStatus tenant_id agent_id "frozen");
      _ ←? stored (SoSetFrozenReason tenant_id agent_id (Some rendered));
      mret (done_step "freeze_agent" ("Froze agent " +:+ agent_id +:+ " with reason: " +:+ rendered))
  | ForceApproval =>
      _ ←? stored (SoSetForceApproval tenant_id agent_id true);
      mret (done_step "force_approval" ("Enabled force_approval for agent " +:+ agent_id))
  | QuarantineMcp server_key =>
      let key := render_template server_key incident agent in
      _ ←? trigger (SoQuarantineMcp tenant_id key);
      mret (done_step "quarantine_mcp" ("Quarantined MCP server '" +:+ key +:+ "'"))
  | NotifySlack webhook_url channel text =>
      let url := render_template webhook_url incident agent in
      let channel := (λ c, render_template c incident agent) <$> channel in
      _ ← trigger (SoPost url (slack_payload (render_template text incident agent) channel));
      mret (done_step "notify_slack" ("Sent Slack notification to " +:+ url))
  | NotifyWebhook url payload_template =>
      let url := render_template url incident agent in
      _ ← trigger (SoPost url (webhook_payload payload_template incident agent));
      mret (done_step "notify_webhook" ("Sent webhook notification to " +:+ url))
  end.
End Steps.

Definition simulated (action description : string) : StepResult :=
  {| sr_action := action; sr_description := description; sr_dry_run := true |}.

Definition simulate_step (step : PlaybookStep) (incident : Incident) (agent : AgentRecord) : StepResult :=
  match step with
  | FreezeAgent reason =>
      simulated "freeze_agent" ("Would freeze agent " +:+ in_agent_id incident +:+ " with reason: " +:+
                                freeze_reason reason incident agent)
  | ForceApproval =>
      simulated "force_approval" ("Would enable force_approval for agent " +:+ in_agent_id incident)
  | QuarantineMcp server_key =>
      simulated "quarantine_mcp"
        ("Would quarantine MCP server '" +:+ render_template server_key incident agent +:+ "'")
  | NotifySlack webhook_url _ text =>
      simulated "notify_slack"
        ("Would send Slack notification to " +:+ render_template webhook_url incident agent +:+ ": " +:+
         render_template text incident agent)
  | NotifyWebhook url _ =>
      simulated "notify_webhook"
        ("Would send webhook notification to " +:+ render_template url incident agent)
  end.
End Playbook.

(** ** Dispatch *)

Module Respond.

Definition recommended_action (i : Incident) : option ResponseAction :=
  let kind := in_kind i in
  if (kind == "deny_storm") || (kind == "runaway") then
    Some {| ra_action := "agent_frozen";
            ra_description := "Auto-froze agent " +:+ in_agent_id i +:+ " in response to " +:+ kind +:+
              " incident " +:+ in_incident_id i +:+ ": " +:+ in_summary i;
            ra_critical_notify := false |}
  else if kind == "data_exfil_pattern" then
    Some {| ra_action := "agent_frozen";
            ra_description := "Auto-froze agent " +:+ in_agent_id i +:+
              " in response to data_exfil_pattern incident " +:+ in_incident_id i +:+ ": " +:+ in_summary i;
            ra_critical_notify := true |}
  else if kind == "trust_escalation" then
    Some {| ra_action := "force_approval_enabled";
            ra_description := "Enabled force_approval for agent " +:+ in_agent_id i +:+
              " in response to trust_escalation incident " +:+ in_incident_id i +:+ ": " +:+ in_summary i;
            ra_critical_notify := false |}
  else None.

Definition freeze_agent (i : Incident) : OnSoc (Db unit) :=
  _ ←? trigger (SoSetAgentStatus (in_tenant_id i) (in_agent_id i) "frozen");
  _ ←? trigger (SoSetFrozenReason (in_tenant_id i) (in_agent_id i)
                  (Some ("auto-response: " +:+ in_kind i +:+ " incident " +:+ in_incident_id i)));
  mret (Ok tt).

Section Respond.
Context {SX : SocExternal}.

(** Enabled, readable and triggered by the incident, in the order listed. *)
Definition matched (records : list PlaybookRecord) (i : Incident) (agent : AgentRecord) :
    list ResponsePlaybook :=
  List.filter (λ p, Playbook.matches p i agent)
    (omap Playbook.from_record (List.filter pbr_enabled records)).

(** A step that fails is logged, and the next one runs. *)
Fixpoint execute_steps (steps : list PlaybookStep) (i : Incident) (agent : AgentRecord) : OnSoc unit :=
  match steps with
  | [] => mret tt
  | step :: steps' =>
      _ ← Playbook.execute_step step i agent;
      execute_steps steps' i agent
  end.

Definition executed_playbooks (l : list ResponsePlaybook) (i : Incident) : ResponseAction :=
  {| ra_action := "playbooks_executed";
     ra_description := "Executed playbook(s): " +:+ String.concat ", " (map pb_name l);
     ra_critical_notify := (in_severity i == "critical") || (in_severity i == "high") |}.

(** What is done when no playbook matches. *)
Definition respond_default (i : Incident) : OnSoc (Db (option ResponseAction)) :=
  match recommended_action i with
  | None => mret (Ok None)
  | Some action =>
      if ra_action action == "agent_frozen" then
        _ ←? freeze_agent i; mret (Ok (Some action))
      else if ra_action action == "force_approval_enabled" then
        _ ←? trigger (SoSetForceApproval (in_tenant_id i) (in_agent_id i) true); mret (Ok (Some action))
      else mret (Ok (Some action))
  end.

Definition dispatch (i : Incident) : OnSoc (Db (option ResponseAction)) :=
  enabled ←? Autonomy.is_auto_respond_enabled (in_tenant_id i);
  if negb enabled then mret (Ok None)
  else
    autonomy ← Autonomy.get_soc_autonomy_level (in_tenant_id i);
    if (autonomy != "L3") && (autonomy != "L4") then mret (Ok None)
    else
      agent ←? trigger (SoGetAgent (in_tenant_id i) (in_agent_id i));
      match agent with
      | None => mret (Ok None)
      | Some agent =>
          playbooks ←? trigger (SoListPlaybooks (in_tenant_id i));
          match matched playbooks i agent with
          | [] => respond_default i
          | l =>
              _ ← execute_steps (concat (map pb_steps l)) i agent;
              mret (Ok (Some (executed_playbooks l i)))
          end
      end.
End Respond.
End Respond.
