(* ===== verification/Drain.v ===== *)
(** * The drain of the event stream

    Models [src/lib/soc/src/events.rs] ([handle_alert] and one turn of [drain])
    with what it calls: the behavioural baseline ([baseline.rs]), the triage of
    an alert ([triage.rs]), the export to subscribed webhooks
    ([webhook_export.rs]).  A task that is spawned is a call; its body is a
    program of its own ([triage_soc_alert], [deliver_with_retry]). *)

From S2P Require Import Prelude RustString Prog Canon Models Records External Runtime Gateway AgentApi Soc Detect Correlate Respond.
From stdpp Require Import pretty.
From Stdlib Require Import SpecFloat.

(** ** Behavioural baseline *)

Module Baseline.

(** [f64]: IEEE 754 binary64 *)
Definition f64_of (z : Z) : spec_float := binary_normalize 53 1024 z 0 false.
Definition f64_add := SFadd 53 1024.
Definition f64_sub := SFsub 53 1024.
Definition f64_mul := SFmul 53 1024.
Definition f64_div := SFdiv 53 1024.
Definition f64_sqrt := SFsqrt 53 1024.

Definition MIN_BASELINE_BUCKETS : nat := 24.
Definition BASELINE_WINDOW_DAYS : Z := 7.
Definition SIGMA_THRESHOLD : spec_float := f64_of 3.

(** Mean and deviation of the history. *)
Definition statistics (history : list Z) : spec_float * spec_float :=
  let n := f64_of (Z.of_nat (length history)) in
  let mean := f64_div (f64_of (fold_left Z.add history 0%Z)) n in
  let squares := map (λ c, let d := f64_sub (f64_of c) mean in f64_mul d d) history in
  let variance := f64_div (fold_left f64_add squares (S754_zero true)) n in
  (mean, f64_sqrt variance).

Section Baseline.
Context {X : External} {HX : HostExternal} {SX : SocExternal}.

Definition hour_bucket (occurred_at : string) : option string :=
  format_hour <$> parse_from_rfc3339 occurred_at.

Definition bucket_minus_window (current : string) : option string :=
  (λ dt, format_hour (dt - BASELINE_WINDOW_DAYS * 86400000000000)%Z) <$> parse_naive (current +:+ ":00:00").

Definition baseline_alert (event : AseEvent) (rule severity summary : string) (id : Uuid) : Alert :=
  {| al_alert_id := uuid_to_string id; al_occurred_at := ase_occurred_at event;
     al_tenant_id := ase_tenant_id event; al_rule := rule; al_severity := severity;
     al_agent_id := ase_agent_id event; al_summary := summary;
     al_source_event_id := ase_event_id event |}.

Definition new_tool_alert (event : AseEvent) : Uuid → Alert :=
  baseline_alert event "behavioral_anomaly_new_tool" "info"
    ("Agent " +:+ ase_agent_id event +:+ " called " +:+ ase_tool event +:+ "/" +:+ ase_action event +:+
     " for the first time").

Definition rate_alert (event : AseEvent) (history : list Z) (current : Z) : option (Uuid → Alert) :=
  if (length history <? MIN_BASELINE_BUCKETS)%nat then None
  else
    let '(mean, stddev) := statistics history in
    let threshold := f64_add mean (f64_mul SIGMA_THRESHOLD stddev) in
    if SFltb (S754_zero false) stddev && SFltb threshold (f64_of current)
    then Some (baseline_alert event "behavioral_anomaly_rate" "high"
           ("Agent " +:+ ase_agent_id event +:+ " action rate this hour (" +:+ pretty current +:+
            ") exceeds its 7-day baseline (mean=" +:+ show_f64 mean +:+ ", stddev=" +:+ show_f64 stddev +:+
            ", threshold=" +:+ show_f64 threshold +:+ ")"))
    else None.

Definition evaluate (event : AseEvent) : OnSoc (Db (list Alert)) :=
  let tenant_id := ase_tenant_id event in
  let agent_id := ase_agent_id event in
  is_new ←? trigger (SoKnownToolAction tenant_id agent_id (ase_tool event) (ase_action event)
                       (ase_occurred_at event));
  alerts ← mint (if (is_new : bool) then [new_tool_alert event] else []);
  match hour_bucket (ase_occurred_at event) with
  | None => mret (Ok alerts)
  | Some current =>
      current_count ←? trigger (SoIncrementHour tenant_id agent_id current);
      match bucket_minus_window current with
      | None => mret (Ok alerts)
      | Some since =>
          history ←? trigger (SoHourlyCounts tenant_id agent_id since current);
          more ← mint (Correlate.opt_list (rate_alert event history current_count));
          mret (Ok (alerts ++ more))
      end
  end.
End Baseline.
End Baseline.

(** ** Triage *)

Module Triage.

Definition category_label_for_rule (rule : string) : string :=
  if (rule == "confused_deputy_block") || (rule == "trust_escalation") then "trust-provenance"
  else if (rule == "deny_storm") || (rule == "approval_hash_mismatch") then "policy-enforcement"
  else if rule == "replay_attempt" then "approval-integrity"
  else if rule == "mcp_manifest_drift" then "mcp-supply-chain"
  else if rule == "data_exfil_pattern" then "data-exfiltration"
  else if rule == "receipt_chain_integrity_failure" then "audit-integrity"
  else "general-soc".

Definition recommended_action_for (rule adjustment : string) : string :=
  if adjustment == "escalate" then
    "Escalate to on-call analyst; review agent activity in the last 24 hours and consider a temporary freeze."
  else if rule == "deny_storm" then
    "Review recent deny decisions for this agent; check for policy misconfiguration or prompt-injection patterns."
  else if (rule == "replay_attempt") || (rule == "approval_hash_mismatch") then
    "Verify approval consumption logs; rotate agent credentials if replay or hash mismatch is confirmed."
  else if (rule == "trust_escalation") || (rule == "confused_deputy_block") then
    "Inspect upstream trust provenance; quarantine untrusted content sources before re-enabling the agent."
  else if rule == "mcp_manifest_drift" then
    "Compare MCP manifest hash against the pinned value; quarantine the server until operator confirms."
  else if rule == "data_exfil_pattern" then
    "Freeze the agent and audit tool calls that accessed sensitive data in this window."
  else if rule == "receipt_chain_integrity_failure" then
    "Treat as compliance incident; run receipt chain verification and preserve audit logs for investigation."
  else "Review alert summary and correlated events; assign to the SOC queue for manual validation.".

(** [as u32] *)
Definition as_u32 (z : Z) : Z := (z `mod` 4294967296)%Z.

Section Triage.
Context {X : External} {HX : HostExternal} {SX : SocExternal}.

Definition compute_priority (similar recent : Z) (severity : string) : string * string :=
  let sev := to_lowercase severity in
  let escalate := (3 <=? similar)%Z || (5 <=? recent)%Z in
  let de_escalate := (similar =? 0)%Z && (recent <=? 1)%Z && (sev == "high") in
  if escalate then ("escalate", if sev == "high" then "critical" else sev)
  else if de_escalate then ("de_escalate", "medium")
  else ("maintain", sev).

(** [TemplateTriageAgent::triage] *)
Definition template_triage (alert : SocAlertRecord) (similar recent : Z) : OnSoc TriageRecommendation :=
  now ← trigger SoNow;
  let '(adjustment, suggested) := compute_priority similar recent (sal_severity alert) in
  mret {| tr_priority_adjustment := adjustment; tr_suggested_priority := suggested;
          tr_category_label := category_label_for_rule (sal_rule alert);
          tr_recommended_action := recommended_action_for (sal_rule alert) adjustment;
          tr_similar_past_alerts := similar; tr_agent_recent_alerts := recent;
          tr_generated_at := to_rfc3339 now; tr_agent := "template" |}.

(** [ClaudeTriageAgent::triage] *)
Definition claude_triage (api_key : string) (alert : SocAlertRecord) (similar recent : Z) :
    OnSoc TriageRecommendation :=
  template ← template_triage alert similar recent;
  answer ← trigger (SoClaude api_key alert similar recent);
  match answer with
  | None => mret template
  | Some rec =>
      now ← trigger SoNow;
      mret {| tr_priority_adjustment := tr_priority_adjustment rec;
              tr_suggested_priority := tr_suggested_priority rec;
              tr_category_label := tr_category_label rec;
              tr_recommended_action := tr_recommended_action rec;
              tr_similar_past_alerts := similar; tr_agent_recent_alerts := recent;
              tr_generated_at := to_rfc3339 now; tr_agent := "claude" |}
  end.

(** [from_env().triage(..)] *)
Definition triage (alert : SocAlertRecord) (similar recent : Z) : OnSoc TriageRecommendation :=
  mode ← trigger (SoEnv "AEGIS_TRIAGE");
  if match mode with Some v => to_lowercase v == "claude" | None => false end then
    key ← trigger (SoEnv "ANTHROPIC_API_KEY");
    match key with
    | Some api_key => claude_triage api_key alert similar recent
    | None => template_triage alert similar recent
    end
  else template_triage alert similar recent.

Definition is_urgent (severity : string) : bool :=
  let sev := to_lowercase severity in (sev == "high") || (sev == "critical").

Definition triage_soc_alert (alert : SocAlertRecord) : OnSoc (Db unit) :=
  if negb (is_urgent (sal_severity alert)) then mret (Ok tt)
  else if match sal_triage_recommendation alert with Some s => negb (is_empty s) | None => false end
  then mret (Ok tt)
  else
    similar ←? trigger (SoCountSimilar (sal_tenant_id alert) (sal_rule alert) (sal_agent_id alert)
                          (sal_id alert));
    recent ←? trigger (SoCountRecent (sal_tenant_id alert) (sal_agent_id alert));
    rec ← triage alert (as_u32 similar) (as_u32 recent);
    _ ←? trigger (SoSetTriage (sal_tenant_id alert) (sal_id alert) (json_of_triage rec));
    mret (Ok tt).
End Triage.
End Triage.

(** ** The signature of an outbound message *)

Module Notify.
Section Hmac.
Context {X : External} {SX : SocExternal}.

(** The first bytes of a block of 64, the others zero. *)
Fixpoint block (n : nat) (s : string) : string :=
  match n with
  | O => EmptyString
  | S n' =>
      match s with
      | EmptyString => String "000" (block n' "")
      | String c s' => String c (block n' s')
      end
  end.

Definition key_block (key : string) : string :=
  block 64 (if (64 <? String.length key)%nat then sha256_digest key else key).

Fixpoint xor_each (pad : N) (s : string) : string :=
  match s with
  | EmptyString => EmptyString
  | String c s' => String (ascii_of_N (N.lxor pad (N_of_ascii c))) (xor_each pad s')
  end.

Definition hmac_sha256 (key message : string) : string :=
  let ipad := xor_each 54 (key_block key) in
  let opad := xor_each 92 (key_block key) in
  let inner_hash := sha256_digest (ipad +:+ message) in
  hex_encode (sha256_digest (opad +:+ inner_hash)).
End Hmac.
End Notify.

(** ** Export to webhooks *)

Module WebhookExport.

Definition severity_rank (s : string) : Z := if s == "high" then 2 else 1.

Definition passes_severity_filter (min_severity event_severity : string) : bool :=
  (severity_rank min_severity <=? severity_rank event_severity)%Z.

Definition json_body (p : WebhookExportPayload) : Canon.Value := Canon.Object [
  ("event_id", Canon.Str (we_event_id p)); ("kind", Canon.Str (we_kind p));
  ("event_type", Canon.Str (we_event_type p)); ("severity", Canon.Str (we_severity p));
  ("tenant_id", Canon.Str (we_tenant_id p)); ("agent_id", Canon.Str (we_agent_id p));
  ("summary", Canon.Str (we_summary p)); ("occurred_at", Canon.Str (we_occurred_at p))].

(** [replace(['|', '\n', '\r'], " ")] *)
Fixpoint blanked (s : string) : string :=
  match s with
  | EmptyString => EmptyString
  | String c s' =>
      String (if Ascii.eqb c "|" || Ascii.eqb c "010" || Ascii.eqb c "013" then " "%char else c) (blanked s')
  end.

Definition cef_body (p : WebhookExportPayload) : string :=
  let cef_severity := if we_severity p == "high" then "10" else "3" in
  "CEF:0|AegisAgent|Gateway|1|" +:+ we_event_type p +:+ "|" +:+ we_kind p +:+ "|" +:+ cef_severity +:+
  "|tenantId=" +:+ we_tenant_id p +:+ " agentId=" +:+ we_agent_id p +:+ " msg=" +:+ blanked (we_summary p).

Section Export.
Context {X : External} {HX : HostExternal} {SX : SocExternal}.

Definition render_body (s : WebhookSubscriptionRecord) (p : WebhookExportPayload) : string * string :=
  if wsb_format s == "cef" then ("text/plain", cef_body p)
  else ("application/json", json_of_value (json_body p)).

Fixpoint spawn_deliveries (subscriptions : list WebhookSubscriptionRecord) (p : WebhookExportPayload) :
    OnSoc unit :=
  match subscriptions with
  | [] => mret tt
  | s :: subscriptions' =>
      if passes_severity_filter (wsb_min_severity s) (we_severity p) then
        _ ← trigger (SoSpawnDelivery s p); spawn_deliveries subscriptions' p
      else spawn_deliveries subscriptions' p
  end.

(** A silence that cannot be read silences nothing. *)
Definition dispatch (p : WebhookExportPayload) : OnSoc unit :=
  at_ ← trigger SoNow;
  silenced ← trigger (SoSilenced (we_tenant_id p) (we_rule_key p) (Some (we_agent_id p)) at_);
  match silenced with
  | Ok true => mret tt
  | _ =>
      subscriptions ← trigger (SoSubscriptions (we_tenant_id p) (we_event_type p));
      match subscriptions with
      | Ok l => spawn_deliveries l p
      | Err _ => mret tt
      end
  end.

Definition MAX_ATTEMPTS : Z := 3.

(** The loop from [attempt], with [fuel] attempts left. *)
Fixpoint attempts (fuel : nat) (attempt : Z) (s : WebhookSubscriptionRecord) (content_type body : string)
    (signature : option string) : OnSoc bool :=
  match fuel with
  | O => mret false
  | S fuel' =>
      _ ← (if (0 <? attempt)%Z then trigger (SoSleepMs (500 * Z.shiftl 1 (attempt - 1))) else mret tt);
      status ← trigger (SoDeliver (wsb_url s) content_type body signature);
      match status with
      | Some status =>
          if (200 <=? status)%Z && (status <=? 299)%Z then mret true
          else attempts fuel' (attempt + 1) s content_type body signature
      | None => attempts fuel' (attempt + 1) s content_type body signature
      end
  end.

Definition deliver_with_retry (s : WebhookSubscriptionRecord) (p : WebhookExportPayload) : OnSoc unit :=
  let '(content_type, body) := render_body s p in
  let signature := (λ secret, "sha256=" +:+ Notify.hmac_sha256 secret body) <$> wsb_delivery_secret s in
  success ← attempts (Z.to_nat MAX_ATTEMPTS) 0 s content_type body signature;
  _ ← trigger (SoRecordDelivery (wsb_tenant_id s) (wsb_id s) success);
  mret tt.
End Export.
End WebhookExport.

(** ** One event *)

Module Drain.
Section Drain.
Context {X : External} {HX : HostExternal} {SX : SocExternal}.

Definition alert_message (a : Alert) : NotifyMessage :=
  {| nm_kind := "alert"; nm_severity := al_severity a; nm_tenant_id := al_tenant_id a;
     nm_agent_id := al_agent_id a; nm_summary := al_summary a;
     nm_alert_or_incident_id := Some (al_alert_id a); nm_occurred_at := al_occurred_at a |}.

Definition alert_export (a : Alert) : WebhookExportPayload :=
  {| we_event_id := al_alert_id a; we_kind := "alert"; we_event_type := "alert";
     we_severity := al_severity a; we_tenant_id := al_tenant_id a; we_agent_id := al_agent_id a;
     we_summary := al_summary a; we_occurred_at := al_occurred_at a; we_rule_key := Some (al_rule a) |}.

Definition alert_row (a : Alert) (id : Uuid) : SocAlertRecord :=
  {| sal_id := uuid_to_string id; sal_tenant_id := al_tenant_id a; sal_rule := al_rule a;
     sal_severity := al_severity a; sal_agent_id := al_agent_id a;
     sal_source_event_id := al_source_event_id a; sal_summary := al_summary a;
     sal_created_at := al_occurred_at a; sal_triage_recommendation := None |}.

(** The time to detection, when the event's time can be read and is past. *)
Definition observe_mttd (occurred_at : string) : OnSoc unit :=
  match parse_from_rfc3339 occurred_at with
  | None => mret tt
  | Some occurred =>
      now ← trigger SoNow;
      if (0 <=? now - occurred)%Z then trigger (SoMetric "mttd" [pretty (now - occurred)%Z]) else mret tt
  end.

Definition handle_alert (notify_enabled : bool) (a : Alert) : OnSoc unit :=
  _ ← trigger (SoMetric "alert" [al_rule a; al_severity a]);
  _ ← observe_mttd (al_occurred_at a);
  _ ← (if (al_severity a == "high") && notify_enabled then
         _ ← trigger (SoNotify (alert_message a));
         WebhookExport.dispatch (alert_export a)
       else mret tt);
  id ← trigger SoUuid;
  let record := alert_row a id in
  inserted ← trigger (SoInsertAlert record);
  match inserted with
  | Err _ => mret tt
  | Ok _ => if Triage.is_urgent (al_severity a) then trigger (SoSpawnTriage record) else mret tt
  end.

Fixpoint handle_alerts (notify_enabled : bool) (alerts : list Alert) : OnSoc unit :=
  match alerts with
  | [] => mret tt
  | a :: alerts' => _ ← handle_alert notify_enabled a; handle_alerts notify_enabled alerts'
  end.

Definition decision_summary (ev : AseEvent) : string :=
  "decision=" +:+ ase_decision ev +:+ " tool=" +:+ ase_tool ev +:+ " action=" +:+ ase_action ev +:+
  " reason=" +:+ ase_reason ev.

Definition decision_message (ev : AseEvent) : NotifyMessage :=
  {| nm_kind := ase_kind ev; nm_severity := "high"; nm_tenant_id := ase_tenant_id ev;
     nm_agent_id := ase_agent_id ev; nm_summary := decision_summary ev;
     nm_alert_or_incident_id := None; nm_occurred_at := ase_occurred_at ev |}.

Definition decision_export (ev : AseEvent) : WebhookExportPayload :=
  {| we_event_id := ase_event_id ev; we_kind := ase_kind ev; we_event_type := ase_decision ev;
     we_severity := "high"; we_tenant_id := ase_tenant_id ev; we_agent_id := ase_agent_id ev;
     we_summary := decision_summary ev; we_occurred_at := ase_occurred_at ev; we_rule_key := None |}.

Definition notify_decision (notify_enabled : bool) (ev : AseEvent) : OnSoc unit :=
  if notify_enabled && ((ase_decision ev == "deny") || (ase_decision ev == "require_approval")) then
    _ ← trigger (SoNotify (decision_message ev));
    WebhookExport.dispatch (decision_export ev)
  else mret tt.

(** The enabled rules of the tenant that are valid. *)
Definition rules_of (records : list DetectionRuleRecord) : list YamlRule :=
  omap (λ r, match Rules.yaml_rule_from_condition (drr_rule_key r) (drr_name r) (drr_severity r)
                     (drr_condition r) (drr_summary_template r) with
             | Ok rule => Some rule
             | Err _ => None
             end) (List.filter drr_enabled records).

Definition load_rules (tenant_id : string) : OnSoc (list YamlRule) :=
  records ← trigger (SoListRules tenant_id);
  mret (match records with Ok l => rules_of l | Err _ => [] end).

(** Detection over the single event: rules, prompt injection, poisoning,
    baseline. *)
Definition detect_phase (notify_enabled : bool) (ev : AseEvent) : OnSoc unit :=
  rules ← load_rules (ase_tenant_id ev);
  alerts ← Detect.evaluate ev rules;
  _ ← handle_alerts notify_enabled alerts;
  injection ← PromptInjection.evaluate ev;
  _ ← handle_alerts notify_enabled injection;
  poisoning ← RagPoisoning.evaluate ev;
  _ ← handle_alerts notify_enabled poisoning;
  baseline ← Baseline.evaluate ev;
  match baseline with
  | Ok alerts => handle_alerts notify_enabled alerts
  | Err _ => mret tt
  end.

Definition incident_row (i : Incident) (id : Uuid) : SocIncidentRecord :=
  {| sin_id := uuid_to_string id; sin_tenant_id := in_tenant_id i; sin_kind := in_kind i;
     sin_severity := in_severity i; sin_agent_id := in_agent_id i; sin_summary := in_summary i;
     sin_source_event_ids := json_of_ids (in_source_event_ids i); sin_opened_at := in_opened_at i;
     sin_status := "open"; sin_closed_at := None |}.

Definition incident_message (i : Incident) : NotifyMessage :=
  {| nm_kind := "incident"; nm_severity := in_severity i; nm_tenant_id := in_tenant_id i;
     nm_agent_id := in_agent_id i; nm_summary := in_summary i;
     nm_alert_or_incident_id := Some (in_incident_id i); nm_occurred_at := in_opened_at i |}.

Definition incident_export (i : Incident) : WebhookExportPayload :=
  {| we_event_id := in_incident_id i; we_kind := "incident"; we_event_type := "incident";
     we_severity := in_severity i; we_tenant_id := in_tenant_id i; we_agent_id := in_agent_id i;
     we_summary := in_summary i; we_occurred_at := in_opened_at i; we_rule_key := None |}.

Definition response_message (i : Incident) (action : ResponseAction) : NotifyMessage :=
  {| nm_kind := "response"; nm_severity := "critical"; nm_tenant_id := in_tenant_id i;
     nm_agent_id := in_agent_id i; nm_summary := ra_description action;
     nm_alert_or_incident_id := Some (in_incident_id i); nm_occurred_at := in_opened_at i |}.

Definition response_audit (i : Incident) (action : ResponseAction) (id : Uuid) (now : DateTime) :
    AuditEventRecord :=
  AgentApi.agent_audit (in_tenant_id i) "soc_response" (Some (in_agent_id i)) (Some (ra_action action))
    (Some (in_incident_id i)) (ra_description action) id now.

(** Persist, notify, respond. *)
Definition handle_incident (autonomy : string) (i : Incident) : OnSoc unit :=
  _ ← trigger (SoMetric "incident" [in_kind i]);
  id ← trigger SoUuid;
  upserted ← trigger (SoUpsertIncident (incident_row i id));
  let was_merged := match upserted with Ok (Merged _) => true | _ => false end in
  _ ← (if (in_severity i == "high") && negb was_merged then
         _ ← trigger (SoNotify (incident_message i));
         WebhookExport.dispatch (incident_export i)
       else mret tt);
  response ← Respond.dispatch i;
  match response with
  | Ok (Some action) =>
      _ ← (if (autonomy == "L3") && ra_critical_notify action
           then trigger (SoNotify (response_message i action)) else mret tt);
      id ← trigger SoUuid;
      now ← trigger SoNow;
      _ ← trigger (SoInsertAudit (response_audit i action id now));
      mret tt
  | _ => mret tt
  end.

Fixpoint handle_incidents (autonomy : string) (incidents : list Incident) : OnSoc unit :=
  match incidents with
  | [] => mret tt
  | i :: incidents' => _ ← handle_incident autonomy i; handle_incidents autonomy incidents'
  end.

(** One turn of the loop of [drain]; [exporter] says whether the vector store
    is configured. *)
Definition drain_event (exporter : bool) (c : Correlator) (ev : AseEvent) : OnSoc Correlator :=
  _ ← (if exporter then trigger (SoSpawnExport ev) else mret tt);
  autonomy ← Autonomy.get_soc_autonomy_level (ase_tenant_id ev);
  let notify_enabled := autonomy != "L0" in
  _ ← notify_decision notify_enabled ev;
  _ ← detect_phase notify_enabled ev;
  let '(found, c) := Correlate.observe_memory c ev in
  incidents ← mint found;
  _ ← handle_incidents autonomy incidents;
  mret c.

(** The loop: the windows start empty, the result counts the events. *)
Fixpoint drain_from (exporter : bool) (c : Correlator) (count : nat) (evs : list AseEvent) : OnSoc nat :=
  match evs with
  | [] => mret count
  | ev :: evs' => c ← drain_event exporter c ev; drain_from exporter c (S count) evs'
  end.

Definition drain (exporter : bool) (evs : list AseEvent) : OnSoc nat := drain_from exporter ∅ 0 evs.
End Drain.
End Drain.
