(* ===== verification/BrokerCore.v ===== *)
(** * Broker actions, credentials and redaction

    Models [src/lib/tool-broker-core/src]: the action and its hash
    ([action.rs]), credential references and their resolution
    ([credential.rs]), the redaction of what leaves the broker
    ([redact.rs], [ConnectorOutput::sanitize] of [connector.rs]).

    A [Secret] is the string it wraps: the wrapper only changes what [Debug],
    [Display] and [Serialize] print. *)

From S2P Require Import Prelude RustString Canon Models Caches Service Pages.

Record BrokerAction := {
  ba_tool : string;
  ba_action : string;
  ba_resource : option string;
  ba_mutates_state : bool;
  ba_parameters : Canon.Value }.

Inductive ResolveError :=
| Unknown (reference : string)
| UnsupportedScheme (reference scheme : string).

Definition CredentialRef := string.
Definition Secret := string.

Module BrokerCore.
Definition CANON_VERSION : string := "aegis-jcs-1".

Section Hash.
(** [serde_json::to_string] and SHA-256 in lower-case hexadecimal *)
Context (to_string : Canon.Value → option string) (sha256_hex : string → string).

(** What the derived [Serialize] gives. *)
Definition action_value (a : BrokerAction) : Canon.Value :=
  Canon.Object [
    ("tool", Canon.Str (ba_tool a));
    ("action", Canon.Str (ba_action a));
    ("resource", match ba_resource a with Some r => Canon.Str r | None => Canon.Null end);
    ("mutates_state", Canon.Bool (ba_mutates_state a));
    ("parameters", ba_parameters a) ].

Definition canonical_action_string (a : BrokerAction) : string :=
  Canon.canonical_value_string (λ a, Some (action_value a)) to_string a.

Definition action_hash (a : BrokerAction) : string := sha256_hex (canonical_action_string a).
End Hash.

(** ** Credentials *)

Definition scheme (r : CredentialRef) : option string := fst <$> split_once ":" r.
Definition key (r : CredentialRef) : option string := snd <$> split_once ":" r.

(** [EnvCredentialResolver::resolve]; [env] is [std::env::var]. *)
Definition resolve (env : string → option string) (r : CredentialRef) : Result Secret ResolveError :=
  if bool_decide (scheme r = Some "env") then
    match env (default "" (key r)) with
    | Some value => if is_empty value then Err (Unknown r) else Ok value
    | None => Err (Unknown r)
    end
  else Err (UnsupportedScheme r (default "" (scheme r))).

(** ** Redaction *)

Definition REDACTED : string := "[REDACTED]".

Definition SENSITIVE_KEY_MARKERS : list string :=
  ["token"; "password"; "passwd"; "secret"; "api_key"; "apikey"; "authorization"; "credential";
   "private_key"; "session_key"; "access_key"].

Definition key_is_sensitive (key : string) : bool :=
  let lower := to_ascii_lowercase key in
  existsb (λ marker, contains marker lower) SENSITIVE_KEY_MARKERS.

Definition scrub_one (out secret : string) : string :=
  if negb (is_empty secret) && contains secret out then replace secret REDACTED out else out.

Definition scrub_string (s : string) (secrets : list string) : string := foldl scrub_one s secrets.

(** [collect] into a [serde_json::Map]: sorted by key, the last value of a key. *)
Definition collect_map {A} (entries : list (string * A)) : list (string * A) :=
  Canon.sort_by_key (Canon.insert_all entries).

Fixpoint redact_secrets (value : Canon.Value) (secrets : list string) : Canon.Value :=
  match value with
  | Canon.Str s => Canon.Str (scrub_string s secrets)
  | Canon.Array items => Canon.Array (map (λ item, redact_secrets item secrets) items)
  | Canon.Object m =>
      Canon.Object (collect_map (map (λ e, (scrub_string e.1 secrets, redact_secrets e.2 secrets)) m))
  | other => other
  end.

Fixpoint redact_sensitive_keys (value : Canon.Value) : Canon.Value :=
  match value with
  | Canon.Array items => Canon.Array (map redact_sensitive_keys items)
  | Canon.Object m =>
      Canon.Object (collect_map (map (λ e,
        if key_is_sensitive e.1 then (e.1, Canon.Str REDACTED)
        else (e.1, redact_sensitive_keys e.2)) m))
  | other => other
  end.

(** [ConnectorOutput::sanitize] *)
Definition sanitize (output : Canon.Value) (secrets : list Secret) : Canon.Value :=
  redact_sensitive_keys (redact_secrets output secrets).

(** ** Secrets do not survive *)

#[local] Arguments starts_with : simpl never.
#[local] Arguments String.append !_ _ / : simpl nomatch.

Lemma starts_with_iff p s : starts_with p s = true ↔ ∃ r, s = p +:+ r.
Proof.
  unfold starts_with. destruct (strip_prefix p s) as [r|] eqn:Hs.
  - apply strip_prefix_Some in Hs as ->. naive_solver.
  - split; [done|]. intros [r ->]. by rewrite strip_prefix_app in Hs.
Qed.

(** A pattern without the byte [c] that occurs across a [c] occurs on one side. *)
Lemma starts_with_sep c p w r :
  has_byte c p = false → starts_with p (w +:+ String c r) = true → starts_with p w = true.
Proof.
  revert w. induction p as [|a p IH]; intros w; [done|]. simpl. intros [Ha Hp]%orb_false_iff.
  destruct w as [|b w]; simpl; rewrite starts_with_cons, andb_true_iff; intros [Hab Hs].
  - congruence.
  - rewrite starts_with_cons, Hab. by apply (IH w).
Qed.

Lemma contains_sep c p w r :
  p ≠ "" → has_byte c p = false →
  contains p (w +:+ String c r) = true → contains p w = true ∨ contains p r = true.
Proof.
  intros Hne Hc. induction w as [|b w IH]; simpl.
  - intros [Hs|Hs]%orb_true_iff; [|by right]. exfalso.
    apply (starts_with_sep c p "") in Hs; [|done]. destruct p; done.
  - intros [Hs|Hs]%orb_true_iff.
    + left. apply orb_true_iff. left. exact (starts_with_sep c p (String b w) r Hc Hs).
    + destruct (IH Hs) as [Hw|Hr]; [left; by rewrite Hw, orb_true_r|by right].
Qed.

(** A secret that redaction can remove: not empty, without brackets and not
    part of the word in the marker. *)
Definition redactable (secret : string) : Prop :=
  secret ≠ "" ∧ has_byte "[" secret = false ∧ has_byte "]" secret = false ∧
  contains secret "REDACTED" = false.

Lemma contains_marker p r :
  redactable p → contains p (REDACTED +:+ r) = true → contains p r = true.
Proof.
  intros (Hne & Ho & Hc & Hm) H.
  change (REDACTED +:+ r) with ("" +:+ String "[" ("REDACTED" +:+ String "]" r)) in H.
  destruct (contains_sep _ _ _ _ Hne Ho H) as [Hn|H']; [by destruct p|].
  destruct (contains_sep _ _ _ _ Hne Hc H') as [Hn|Hr]; [congruence|done].
Qed.

(** Nothing new begins in the text that [replace] copies. *)
Lemma replace_prefix p from s :
  has_byte "[" p = false → starts_with p (replace_from 0 from REDACTED s) = true →
  starts_with p s = true.
Proof.
  revert s. induction p as [|a p IH]; intros s; [done|]. simpl. intros [Ha Hp]%orb_false_iff.
  destruct s as [|b s]; [done|]. simpl. destruct (starts_with from (String b s)).
  - simpl. rewrite starts_with_cons, Ha. done.
  - rewrite !starts_with_cons, !andb_true_iff. intros [-> Hs]. split; [done|]. by apply IH.
Qed.

Lemma replace_no_self p skip s :
  redactable p → contains p (replace_from skip p REDACTED s) = false.
Proof.
  intros Hr. pose proof Hr as (Hne & Ho & _). revert skip.
  induction s as [|a s IH]; intros skip; [simpl; by destruct p|].
  simpl. destruct skip as [|k]; [|apply IH].
  destruct (starts_with p (String a s)) eqn:Hs.
  - apply not_true_is_false. intros H%contains_marker; [|done]. by rewrite IH in H.
  - rewrite contains_cons, IH, orb_false_r. apply not_true_is_false. intros H.
    assert (replace_from 0 p REDACTED (String a s) = String a (replace_from 0 p REDACTED s)) as Heq
      by (simpl; by rewrite Hs).
    rewrite <- Heq in H. apply replace_prefix in H; [congruence|done].
Qed.

Lemma replace_no_new p from skip s :
  redactable p → contains p s = false → contains p (replace_from skip from REDACTED s) = false.
Proof.
  intros Hr. pose proof Hr as (Hne & Ho & _). revert skip.
  induction s as [|a s IH]; intros skip; [done|]. rewrite contains_cons.
  intros [Hs Hc]%orb_false_iff. simpl. destruct skip as [|k]; [|by apply IH].
  destruct (starts_with from (String a s)) eqn:Hf.
  - apply not_true_is_false. intros H%contains_marker; [|done]. by rewrite IH in H.
  - rewrite contains_cons, IH, orb_false_r by done. apply not_true_is_false. intros H.
    assert (replace_from 0 from REDACTED (String a s) =
            String a (replace_from 0 from REDACTED s)) as Heq by (simpl; by rewrite Hf).
    rewrite <- Heq in H. apply replace_prefix in H; [congruence|done].
Qed.

Lemma scrub_one_keeps p out secret :
  redactable p → contains p out = false → contains p (scrub_one out secret) = false.
Proof.
  intros. unfold scrub_one. destruct (_ && _); [|done]. by apply replace_no_new.
Qed.

Lemma scrub_one_removes p out : redactable p → contains p (scrub_one out p) = false.
Proof.
  intros Hr. unfold scrub_one. assert (is_empty p = false) as -> by (destruct Hr; by destruct p).
  simpl. destruct (contains p out) eqn:Hc; [by apply replace_no_self|done].
Qed.

Lemma scrub_string_clean p s secrets :
  redactable p → p ∈ secrets → contains p (scrub_string s secrets) = false.
Proof.
  unfold scrub_string. intros Hr. revert s.
  assert (∀ l s, contains p s = false → contains p (foldl scrub_one s l) = false) as Hkeep.
  { induction l as [|x l IH]; intros s Hs; simpl; [done|]. by apply IH, scrub_one_keeps. }
  induction secrets as [|x secrets IH]; intros s; [by intros ?%elem_of_nil|].
  intros [->|Hin]%elem_of_cons; simpl; [|by apply IH]. by apply Hkeep, scrub_one_removes.
Qed.

(** The text of a value: its strings and the keys of its objects. *)
Fixpoint texts (v : Canon.Value) : list string :=
  match v with
  | Canon.Str s => [s]
  | Canon.Array items => concat (map texts items)
  | Canon.Object m => concat (map (λ e, e.1 :: texts e.2) m)
  | _ => []
  end.

(** The entries of the objects of a value, at every depth. *)
Fixpoint entries (v : Canon.Value) : list (string * Canon.Value) :=
  match v with
  | Canon.Array items => concat (map entries items)
  | Canon.Object m => concat (map (λ e, e :: entries e.2) m)
  | _ => []
  end.

Lemma elem_of_concat_map {A B} (f : A → list B) l y :
  y ∈ concat (map f l) ↔ ∃ x, x ∈ l ∧ y ∈ f x.
Proof.
  induction l as [|a l IH]; simpl; [set_solver|].
  rewrite elem_of_app, IH. setoid_rewrite elem_of_cons. naive_solver.
Qed.

Lemma map_insert_elem {A} k (v : A) m e : e ∈ Canon.map_insert k v m → e = (k, v) ∨ e ∈ m.
Proof.
  induction m as [|[k' v'] m IH]; simpl; [set_solver|].
  destruct (k' == k) eqn:Hk; [apply eqb_spec_true in Hk as ->|];
    rewrite !elem_of_cons; naive_solver.
Qed.

Lemma collect_map_elem {A} (l : list (string * A)) e : e ∈ collect_map l → e ∈ l.
Proof.
  unfold collect_map, Canon.insert_all. rewrite Canon.sort_by_key_perm.
  assert (∀ acc, e ∈ foldl (λ m x, Canon.map_insert x.1 x.2 m) acc l → e ∈ acc ∨ e ∈ l) as Hacc.
  { induction l as [|x l IH]; intros acc; simpl; [by left|]. rewrite elem_of_cons.
    intros [[->|H]%map_insert_elem|H]%IH; destruct x; naive_solver. }
  intros [?%elem_of_nil|?]%Hacc; done.
Qed.

Lemma redact_secrets_clean p secrets v x :
  redactable p → p ∈ secrets → x ∈ texts (redact_secrets v secrets) → contains p x = false.
Proof.
  intros Hr Hin. revert x. induction v as [v Hv|items IH|m IH] using Canon.Value_nested_ind; intros x.
  - destruct v; try done; simpl; try by intros ?%elem_of_nil.
    intros ->%list_elem_of_singleton. by apply scrub_string_clean.
  - simpl. rewrite map_map, elem_of_concat_map. intros (v & Hv & Hx).
    rewrite list.Forall_forall in IH. by apply (IH v).
  - simpl. rewrite elem_of_concat_map. intros (e & He%collect_map_elem & Hx).
    apply list_elem_of_fmap in He as (e' & -> & He'). simpl in Hx.
    apply elem_of_cons in Hx as [->|Hx]; [by apply scrub_string_clean|].
    rewrite list.Forall_forall in IH. by apply (IH e').
Qed.

(** Masking adds no text but the marker. *)
Lemma mask_texts v x : x ∈ texts (redact_sensitive_keys v) → x = REDACTED ∨ x ∈ texts v.
Proof.
  revert x. induction v as [v Hv|items IH|m IH] using Canon.Value_nested_ind; intros x.
  - destruct v; try done; simpl; auto.
  - simpl. rewrite map_map, !elem_of_concat_map. intros (v & Hv & Hx).
    rewrite list.Forall_forall in IH. destruct (IH v Hv x Hx); naive_solver.
  - simpl. rewrite !elem_of_concat_map. intros (e & He%collect_map_elem & Hx).
    apply list_elem_of_fmap in He as (e' & -> & He'). rewrite list.Forall_forall in IH.
    specialize (IH e' He' x). setoid_rewrite elem_of_cons.
    destruct (key_is_sensitive e'.1); simpl in Hx; apply elem_of_cons in Hx as [->|Hx];
      [naive_solver|apply list_elem_of_singleton in Hx; naive_solver|naive_solver..].
Qed.

Lemma mask_entries v k x :
  (k, x) ∈ entries (redact_sensitive_keys v) → key_is_sensitive k = true → x = Canon.Str REDACTED.
Proof.
  revert k x. induction v as [v Hv|items IH|m IH] using Canon.Value_nested_ind; intros k x.
  - by destruct v; simpl; try done; intros ?%elem_of_nil.
  - simpl. rewrite map_map, elem_of_concat_map. intros (v & Hv & Hx).
    rewrite list.Forall_forall in IH. by apply (IH v).
  - simpl. rewrite elem_of_concat_map. intros (e & He%collect_map_elem & Hx) Hk.
    apply list_elem_of_fmap in He as (e' & -> & He'). rewrite list.Forall_forall in IH.
    apply elem_of_cons in Hx as [Heq|Hx]; destruct (key_is_sensitive e'.1) eqn:He; simpl in *.
    + by injection Heq.
    + injection Heq as -> ->. congruence.
    + by apply elem_of_nil in Hx.
    + by apply (IH e' He' k).
Qed.

(** What is sanitized with a secret contains it nowhere, and no value under a
    sensitive key is left. *)
Lemma sanitize_clean output secrets secret :
  redactable secret → secret ∈ secrets →
  (∀ x, x ∈ texts (sanitize output secrets) → contains secret x = false) ∧
  (∀ k v, (k, v) ∈ entries (sanitize output secrets) → key_is_sensitive k = true →
     v = Canon.Str REDACTED).
Proof.
  intros Hr Hin. split; [|intros k v; apply mask_entries].
  intros x [->|Hx]%mask_texts; [|by eapply redact_secrets_clean].
  apply not_true_is_false. intros H. apply (contains_marker secret "" Hr) in H.
  destruct Hr as [Hne _]. by destruct secret.
Qed.

Definition sample_output : Canon.Value :=
  Canon.Object [("echo", Canon.Array [Canon.Str "ghp_1ghp_12 ghp_12"; Canon.Null]);
                ("x-ghp_12", Canon.Bool true); ("Api_Token", Canon.Number_ (Canon.PosInt 7))].

Example sample_sanitized :
  sanitize sample_output ["ghp_12"] =
    Canon.Object [("Api_Token", Canon.Str REDACTED);
                  ("echo", Canon.Array [Canon.Str "ghp_1[REDACTED] [REDACTED]"; Canon.Null]);
                  ("x-[REDACTED]", Canon.Bool true)].
Proof. reflexivity. Qed.

(** A credential that begins with the bracket that ends the marker is put
    together again by the replacement; so are digits in a JSON number kept. *)
Example bracketed_secret_survives :
  sanitize (Canon.Str "]key]keykey") ["]key"] = Canon.Str "[REDACTED][REDACTED]key" ∧
  contains "]key" "[REDACTED][REDACTED]key" = true ∧
  sanitize (Canon.Number_ (Canon.PosInt 123456)) ["123456"] = Canon.Number_ (Canon.PosInt 123456).
Proof. done. Qed.
End BrokerCore.
