(* ===== verification/Broker.v ===== *)
(** * The tool broker

    Models the connectors and the execution engine of
    [src/lib/tool-broker-connectors/src] and the HTTP surface of
    [src/bins/aegis-tool-broker/src] around it.  A connector is a program over
    what it does to the outside world: requests it sends, files it opens,
    commands it runs.

    A path is the list of its components, as [std::path] compares paths. *)

From S2P Require Import Prelude RustString Prog Canon Models Service Pages BrokerCore.
From stdpp Require Import gmap.

(** ** Paths *)

Inductive Component := RootDir | CurDir | ParentDir | Normal (name : string).

#[export] Instance Component_eq_dec : EqDecision Component.
Proof. solve_decision. Defined.

Abbreviation Path := (list Component).

Module Path.
(** One piece between two slashes. *)
Definition piece (s : string) : option Component :=
  if (s == "") || (s == ".") then None
  else if s == ".." then Some ParentDir
  else Some (Normal s).

(** [Path::new(s).components()] on Unix: repeated slashes and inner dots are
    dropped, a leading dot is kept. *)
Definition of_str (s : string) : Path :=
  let parts := split_on "/" s in
  if starts_with "/" s then RootDir :: omap piece parts
  else match parts with
       | first :: rest =>
           if first == "." then CurDir :: omap piece rest else omap piece parts
       | [] => []
       end.

Definition is_absolute (p : Path) : bool := match p with RootDir :: _ => true | _ => false end.

Definition join (p q : Path) : Path :=
  if is_absolute q then q
  else match p with
       | [] => q
       | _ => p ++ filter (λ c, c ≠ CurDir) q
       end.

Definition parent (p : Path) : option Path :=
  match list.last p with
  | None | Some RootDir => None
  | Some _ => Some (take (length p - 1) p)
  end.

Definition file_name (p : Path) : option string :=
  match list.last p with Some (Normal n) => Some n | _ => None end.

(** [p.starts_with(base)], component by component *)
Definition starts_with (p base : Path) : bool := bool_decide (base `prefix_of` p).
End Path.

(** ** What a connector does *)

Inductive Method := GET | HEAD | POST | PUT | PATCH | DELETE.

Record HttpRequest := {
  hr_method : Method;
  hr_url : string;
  hr_headers : list (string * string);
  hr_json : option Canon.Value }.

(** A command, with the whole of the environment it gets. *)
Record CommandLine := {
  cmd_program : string;
  cmd_args : list string;
  cmd_current_dir : Path;
  cmd_env : list (string * string) }.

Inductive CommandResult :=
| TimedOut
| SpawnFailed (e : string)
| Exited (code : option Z) (stdout stderr : string).

Inductive ConnectorE : Type → Type :=
| HttpSend (r : HttpRequest) : ConnectorE (Result Z string)
| HttpText : ConnectorE (Result string string)
| Canonicalize (p : Path) : ConnectorE (Result Path string)
| ReadFile (p : Path) : ConnectorE (Result string string)
| ReadDir (p : Path) : ConnectorE (Result (list string) string)
| WriteFile (p : Path) (content : string) : ConnectorE (Result unit string)
| RunCommand (c : CommandLine) : ConnectorE CommandResult.

Abbreviation Connect A := (prog ConnectorE A).

Inductive ConnectorError :=
| UnsupportedAction (connector action : string)
| ExecutionFailed (message : string).

Inductive GithubMode := Mock | Real (base_url : string).

(** The implementors of the trait [Connector]. *)
Inductive Connector :=
| GithubConnector (mode : GithubMode)
| HttpConnector (allow_plain_http : bool)
| FilesystemConnector (root : Path)
| ShellConnector (workspace : Path).

(** Text the standard library and [serde_json] produce: the
    parser, [{:?}] of a string and of a timeout; the bodies on the wire. *)
Class BrokerExternal := {
  json_from_str : string → option Canon.Value;
  debug_str : string → string;
  debug_timeout : string;
  json_number : Z → Canon.Value;
  broker_to_string : Canon.Value → option string;
  broker_sha256_hex : string → string }.

Module Broker.
Section Connectors.
Context {BX : BrokerExternal}.

Definition param (a : BrokerAction) (key : string) : option Canon.Value :=
  get_field key (ba_parameters a).
Definition str_param (a : BrokerAction) (key : string) : option string :=
  v ← param a key; as_str v.

Definition fail {A} (message : string) : Connect (Result A ConnectorError) :=
  mret (Err (ExecutionFailed message)).

(** An [Err] with its text put into a message. *)
Definition failing {A} (prefix : string) (p : Connect (Result A string)) :
    Connect (Result A ConnectorError) :=
  r ← p; mret (match r with Ok a => Ok a | Err e => Err (ExecutionFailed (prefix +:+ e)) end).

(** [&bytes[..bytes.len().min(n)]] *)
Fixpoint take_bytes (n : Z) (s : string) : string :=
  match s with
  | EmptyString => EmptyString
  | String a s' => if (n <=? 0)%Z then EmptyString else String a (take_bytes (n - 1) s')
  end.

Definition len (s : string) : Z := Z.of_nat (String.length s).

(** *** [github.rs] *)

Definition trim_end_slash (s : string) : string := trim_end_byte "/" s.

Definition api_path (a : BrokerAction) : Result string ConnectorError :=
  match str_param a "path" with
  | Some path => if starts_with "/" path then Ok path
      else Err (ExecutionFailed "github actions require parameters.path starting with '/'")
  | None => Err (ExecutionFailed "github actions require parameters.path starting with '/'")
  end.

Definition bearer (credential : option Secret) : list (string * string) :=
  match credential with Some s => [("Authorization", "Bearer " +:+ s)] | None => [] end.

Definition github_execute (mode : GithubMode) (a : BrokerAction) (credential : option Secret) :
    Connect (Result Canon.Value ConnectorError) :=
  path ←? mret (api_path a);
  is_write ←? mret (if ba_action a == "read" then Ok false
                    else if ba_action a == "write" then Ok true
                    else Err (UnsupportedAction "github" (ba_action a)));
  if is_write && negb (ba_mutates_state a)
  then fail "github write actions must set mutates_state: true"
  else
    let body := default (Canon.Object []) (param a "body") in
    match mode with
    | Mock =>
        mret (Ok (Canon.Object
          [("mode", Canon.Str "mock"); ("action", Canon.Str (ba_action a));
           ("path", Canon.Str path);
           ("delivered_body", if (is_write : bool) then body else Canon.Null);
           ("result", Canon.Str (if (is_write : bool) then "created" else "ok"))]))
    | Real base_url =>
        status ←? failing "github request: " (trigger (HttpSend {|
          hr_method := if (is_write : bool) then POST else GET;
          hr_url := base_url +:+ path;
          hr_headers := [("Accept", "application/vnd.github+json");
                         ("User-Agent", "aegis-tool-broker")] ++ bearer credential;
          hr_json := if (is_write : bool) then Some body else None |}));
        text ←? failing "github body: " (trigger HttpText);
        mret (Ok (Canon.Object
          [("mode", Canon.Str "real"); ("status", json_number status);
           ("body", default (Canon.Str text) (json_from_str text))]))
    end.

(** *** [http.rs] *)

Definition MAX_BODY_BYTES : Z := 64 * 1024.

Definition method_of_name (name : string) : option (Method * bool) :=
  if name == "GET" then Some (GET, false)
  else if name == "HEAD" then Some (HEAD, false)
  else if name == "POST" then Some (POST, true)
  else if name == "PUT" then Some (PUT, true)
  else if name == "PATCH" then Some (PATCH, true)
  else if name == "DELETE" then Some (DELETE, true)
  else None.

Definition method_for (a : BrokerAction) : Result Method ConnectorError :=
  let name := to_ascii_uppercase (default "GET" (str_param a "method")) in
  match method_of_name name with
  | None => Err (UnsupportedAction "http" ("method " +:+ name))
  | Some (method, mutating) =>
      if mutating && negb (ba_mutates_state a)
      then Err (ExecutionFailed ("http " +:+ name +:+ " requests must set mutates_state: true"))
      else Ok method
  end.

(** The loop over the headers of the caller. *)
Fixpoint caller_headers (headers : list (string * Canon.Value)) :
    Result (list (string * string)) ConnectorError :=
  match headers with
  | [] => Ok []
  | (name, value) :: rest =>
      if to_ascii_lowercase name == "authorization" then
        Err (ExecutionFailed
          "callers may not set the Authorization header; credentials are broker-managed")
      else
        match as_str value with
        | None => Err (ExecutionFailed ("header " +:+ name +:+ " must be a string"))
        | Some v =>
            match caller_headers rest with
            | Ok hs => Ok ((name, v) :: hs)
            | Err e => Err e
            end
        end
  end.

Definition http_execute (allow_plain_http : bool) (a : BrokerAction) (credential : option Secret) :
    Connect (Result Canon.Value ConnectorError) :=
  match str_param a "url" with
  | None => fail "http actions require parameters.url"
  | Some url =>
      if negb (starts_with "https://" url || (allow_plain_http && starts_with "http://" url))
      then fail ("url scheme not allowed (https required): " +:+ url)
      else
        method ←? mret (method_for a);
        headers ←? mret (match param a "headers" with
                         | Some (Canon.Object m) => caller_headers m
                         | _ => Ok []
                         end);
        status ←? failing "http request: " (trigger (HttpSend {|
          hr_method := method; hr_url := url; hr_headers := headers ++ bearer credential;
          hr_json := param a "body" |}));
        text ←? failing "http body: " (trigger HttpText);
        mret (Ok (Canon.Object
          [("status", json_number status); ("body", Canon.Str (take_chars MAX_BODY_BYTES text));
           ("truncated", Canon.Bool (MAX_BODY_BYTES <? len text)%Z)]))
  end.

(** *** [filesystem.rs] *)

Definition MAX_READ_BYTES : Z := 64 * 1024.

Definition escapes (p : Path) : bool :=
  existsb (λ c, match c with Normal _ | CurDir => false | _ => true end) p.

Definition fs_resolve (root : Path) (a : BrokerAction) (must_exist : bool) :
    Connect (Result Path ConnectorError) :=
  match str_param a "path" with
  | None => fail "filesystem actions require parameters.path"
  | Some rel =>
      let rel_path := Path.of_str rel in
      let escape := "path escapes the workspace root: " +:+ rel in
      if Path.is_absolute rel_path || escapes rel_path then fail escape
      else
        let joined := Path.join root rel_path in
        if must_exist then
          canonical ←? failing ("path " +:+ rel +:+ ": ") (trigger (Canonicalize joined));
          if negb (Path.starts_with canonical root) then fail escape else mret (Ok canonical)
        else
          let parent := default root (Path.parent joined) in
          canonical_parent ←? failing ("parent of " +:+ rel +:+ ": ") (trigger (Canonicalize parent));
          if negb (Path.starts_with canonical_parent root) then fail escape
          else mret (Ok (Path.join canonical_parent
                           (Path.of_str (default "" (Path.file_name joined)))))
  end.

(** [entries.sort_unstable()] on strings *)
Definition sorted_names (l : list string) : list string :=
  (Canon.sort_by_key (map (λ n, (n, tt)) l)).*1.

Definition fs_execute (root : Path) (a : BrokerAction) : Connect (Result Canon.Value ConnectorError) :=
  if ba_action a == "read" then
    path ←? fs_resolve root a true;
    bytes ←? failing "read: " (trigger (ReadFile path));
    mret (Ok (Canon.Object [("content", Canon.Str (Utf8.from_utf8_lossy (take_bytes MAX_READ_BYTES bytes)));
                            ("truncated", Canon.Bool (MAX_READ_BYTES <? len bytes)%Z)]))
  else if ba_action a == "list" then
    path ←? fs_resolve root a true;
    names ←? failing "list: " (trigger (ReadDir path));
    mret (Ok (Canon.Object [("entries",
      Canon.Array (map Canon.Str (sorted_names (map Utf8.from_utf8_lossy names))))]))
  else if ba_action a == "write" then
    if negb (ba_mutates_state a)
    then fail "filesystem write actions must set mutates_state: true"
    else
      match str_param a "content" with
      | None => fail "filesystem write requires parameters.content"
      | Some content =>
          path ←? fs_resolve root a false;
          _ ←? failing "write: " (trigger (WriteFile path content));
          mret (Ok (Canon.Object [("bytes_written", json_number (len content))]))
      end
  else mret (Err (UnsupportedAction "filesystem" (ba_action a))).

(** *** [shell.rs] *)

Definition MAX_STREAM_BYTES : Z := 64 * 1024.
Definition CAGE_PATH : string := "/usr/bin:/bin".

Definition truncate_stream (bytes : string) : string * bool :=
  (Utf8.from_utf8_lossy (take_bytes MAX_STREAM_BYTES bytes), (MAX_STREAM_BYTES <? len bytes)%Z).

Definition shell_execute (workspace : Path) (a : BrokerAction) :
    Connect (Result Canon.Value ConnectorError) :=
  if negb (ba_action a == "run") then mret (Err (UnsupportedAction "shell" (ba_action a)))
  else
    match (match param a "command" with Some (Canon.Array items) => omap as_str items | _ => [] end) with
    | [] => fail "shell run requires parameters.command as a non-empty argv array"
    | program :: args =>
        r ← trigger (RunCommand {| cmd_program := program; cmd_args := args;
                                   cmd_current_dir := workspace; cmd_env := [("PATH", CAGE_PATH)] |});
        match r with
        | TimedOut => fail ("command timed out after " +:+ debug_timeout)
        | SpawnFailed e => fail ("spawn: " +:+ e)
        | Exited code stdout stderr =>
            let '(out, out_truncated) := truncate_stream stdout in
            let '(err, err_truncated) := truncate_stream stderr in
            mret (Ok (Canon.Object
              [("exit_code", match code with Some c => json_number c | None => Canon.Null end);
               ("stdout", Canon.Str out); ("stderr", Canon.Str err);
               ("truncated", Canon.Bool (out_truncated || err_truncated))]))
        end
    end.

(** *** The trait *)

Definition connector_type (c : Connector) : string :=
  match c with
  | GithubConnector _ => "github"
  | HttpConnector _ => "http"
  | FilesystemConnector _ => "filesystem"
  | ShellConnector _ => "shell"
  end.

Definition connector_execute (c : Connector) (a : BrokerAction) (credential : option Secret) :
    Connect (Result Canon.Value ConnectorError) :=
  match c with
  | GithubConnector mode => github_execute mode a credential
  | HttpConnector allow_plain_http => http_execute allow_plain_http a credential
  | FilesystemConnector root => fs_execute root a
  | ShellConnector workspace => shell_execute workspace a
  end.

(** [Display] of [ConnectorError] *)
Definition display_connector_error (e : ConnectorError) : string :=
  match e with
  | UnsupportedAction connector action =>
      "action " +:+ debug_str action +:+ " is not supported by connector " +:+ debug_str connector
  | ExecutionFailed message => "connector execution failed: " +:+ message
  end.
End Connectors.

(** ** The registry *)

Abbreviation ConnectorRegistry := (gmap string Connector).
Definition register (r : ConnectorRegistry) (c : Connector) : ConnectorRegistry :=
  <[connector_type c := c]> r.
Definition get (r : ConnectorRegistry) (connector_type : string) : option Connector :=
  r !! connector_type.

(** [build_broker_executor]: what the environment variables configure;
    [filesystem] and [shell] are the workspace as the constructors canonicalize
    it, if they do. *)
Definition non_blank (v : option string) : option string :=
  s ← v; if is_empty (trim s) then None else Some s.

Definition build_registry (github_api_base workspace : option string)
    (canonicalize : string → option Path) : ConnectorRegistry :=
  let github_mode :=
    match non_blank github_api_base with
    | Some base_url => Real (trim_end_slash base_url)
    | None => Mock
    end in
  let registry := register (register ∅ (GithubConnector github_mode)) (HttpConnector false) in
  match non_blank workspace ≫= canonicalize with
  | Some dir => register (register registry (FilesystemConnector dir)) (ShellConnector dir)
  | None => registry
  end.

(** ** The execution engine, [executor.rs] *)

Record BrokerToolBinding := {
  btb_tool_name : string;
  btb_connector_type : string;
  btb_credential_ref : option CredentialRef;
  btb_status : string }.

Record ConsumedApproval := { ca_approval_id : string; ca_action_hash : string }.

Inductive ExecuteError :=
| ToolNotActive (tool_name status : string)
| UnknownConnectorType (connector_type : string)
| ApprovalRequired
| ApprovalActionMismatch (approval_id : string)
| CredentialFailed (e : ResolveError)
| ConnectorFailed (message : string).

Section Executor.
Context {BX : BrokerExternal} (registry : ConnectorRegistry)
  (resolver : CredentialRef → Result Secret ResolveError).

Definition hash_of (a : BrokerAction) : string :=
  BrokerCore.action_hash broker_to_string broker_sha256_hex a.

Definition approval_gate (a : BrokerAction) (approval : option ConsumedApproval) :
    Result unit ExecuteError :=
  if ba_mutates_state a then
    match approval with
    | None => Err ApprovalRequired
    | Some ap =>
        if negb (ca_action_hash ap == hash_of a)
        then Err (ApprovalActionMismatch (ca_approval_id ap))
        else Ok tt
    end
  else Ok tt.

Definition resolve_credential (tool : BrokerToolBinding) : Result (option Secret) ExecuteError :=
  match btb_credential_ref tool with
  | None => Ok None
  | Some reference =>
      match resolver reference with Ok s => Ok (Some s) | Err e => Err (CredentialFailed e) end
  end.

Definition secrets_of (secret : option Secret) : list Secret :=
  match secret with Some s => [s] | None => [] end.

Definition scrub_error (secret : option Secret) (message : string) : string :=
  match secret with
  | Some value => if is_empty value then message else replace value BrokerCore.REDACTED message
  | None => message
  end.

Definition execute (tool : BrokerToolBinding) (a : BrokerAction)
    (approval : option ConsumedApproval) : Connect (Result Canon.Value ExecuteError) :=
  if negb (btb_status tool == "active")
  then mret (Err (ToolNotActive (btb_tool_name tool) (btb_status tool)))
  else
    match get registry (btb_connector_type tool) with
    | None => mret (Err (UnknownConnectorType (btb_connector_type tool)))
    | Some connector =>
        _ ←? mret (approval_gate a approval);
        secret ←? mret (resolve_credential tool);
        r ← connector_execute connector a secret;
        mret (match r with
              | Ok output => Ok (BrokerCore.sanitize output (secrets_of secret))
              | Err e => Err (ConnectorFailed (scrub_error secret (display_connector_error e)))
              end)
    end.

(** ** The HTTP surface, [handlers.rs], [auth.rs], [error.rs], [dto.rs] *)

Record ExecuteRequest := {
  exq_tool_name : string;
  exq_connector_type : string;
  exq_credential_ref : option string;
  exq_tool_status : string;
  exq_action : BrokerAction;
  exq_consumed_approval : option (string * string) }.

(** A reply: the status and its body, [{output}], [{error, kind}] or text. *)
Inductive ReplyBody :=
| Output (output : Canon.Value)
| ErrorBody (error kind : string)
| Text (text : string).
Record Reply := { rep_status : Z; rep_body : ReplyBody }.

Definition display_resolve_error (e : ResolveError) : string :=
  match e with
  | Unknown reference => "unknown credential reference " +:+ debug_str reference
  | UnsupportedScheme reference scheme =>
      "credential reference " +:+ debug_str reference +:+ " has unsupported scheme " +:+ debug_str scheme
  end.

Definition display_execute_error (e : ExecuteError) : string :=
  match e with
  | ToolNotActive tool_name status =>
      "tool " +:+ debug_str tool_name +:+ " is not active (status " +:+ debug_str status +:+ ")"
  | UnknownConnectorType ty => "no connector registered for connector_type " +:+ debug_str ty
  | ApprovalRequired => "action mutates state and requires a consumed approval"
  | ApprovalActionMismatch id => "approval " +:+ debug_str id +:+ " is bound to a different action_hash"
  | CredentialFailed e => "credential resolution failed: " +:+ display_resolve_error e
  | ConnectorFailed message => "connector execution failed: " +:+ message
  end.

Definition execute_error_response (e : ExecuteError) : Reply :=
  let '(status, kind) :=
    match e with
    | ToolNotActive _ _ => (403, "tool_not_active")
    | UnknownConnectorType _ => (501, "unknown_connector_type")
    | ApprovalRequired => (403, "approval_required")
    | ApprovalActionMismatch _ => (403, "approval_action_mismatch")
    | CredentialFailed _ => (503, "credential")
    | ConnectorFailed _ => (503, "connector")
    end%Z in
  {| rep_status := status; rep_body := ErrorBody (display_execute_error e) kind |}.

Definition tokens_match (configured provided : string) : bool :=
  broker_sha256_hex configured == broker_sha256_hex provided.

Definition handle_execute (req : ExecuteRequest) : Connect Reply :=
  let binding := {| btb_tool_name := exq_tool_name req; btb_connector_type := exq_connector_type req;
                    btb_credential_ref := exq_credential_ref req;
                    btb_status := exq_tool_status req |} in
  let consumed := (λ c, {| ca_approval_id := c.1; ca_action_hash := c.2 |})
                    <$> exq_consumed_approval req in
  r ← execute binding (exq_action req) consumed;
  mret (match r with
        | Ok output => {| rep_status := 200; rep_body := Output output |}
        | Err e => execute_error_response e
        end).

(** The router for [POST /v1/execute]: the token, then the handler. *)
Definition serve (api_token : string) (authorization : option string) (req : ExecuteRequest) :
    Connect Reply :=
  match authorization ≫= RustString.strip_prefix "Bearer " with
  | Some token =>
      if tokens_match api_token token then handle_execute req
      else mret {| rep_status := 401; rep_body := Text "invalid or missing bearer token" |}
  | None => mret {| rep_status := 401; rep_body := Text "invalid or missing bearer token" |}
  end.
End Executor.

(** ** What the broker may do *)

Definition changes_state (m : Method) : bool :=
  match m with GET | HEAD => false | _ => true end.

Definition allowed_url (c : Connector) (url : string) : Prop :=
  match c with
  | GithubConnector (Real base_url) => ∃ path, url = base_url +:+ String "/" path
  | HttpConnector plain =>
      starts_with "https://" url = true ∨ (plain = true ∧ starts_with "http://" url = true)
  | _ => False
  end.

(** A call the connector [c] may make for the action [a] with the credential
    [cred]: it changes nothing outside unless the action is declared to; the last
    header of a request is the Authorization header with the credential and no
    other header is that one; the path of a file starts with the root; a command
    gets the fixed environment. *)
Definition allowed (c : Connector) (a : BrokerAction) (cred : option Secret) (T : Type)
    (e : ConnectorE T) : Prop :=
  match e with
  | HttpSend r =>
      (changes_state (hr_method r) = true → ba_mutates_state a = true) ∧
      allowed_url c (hr_url r) ∧
      ∃ own, hr_headers r = own ++ bearer cred ∧
        Forall (λ h, to_ascii_lowercase h.1 ≠ "authorization") own
  | HttpText => True
  | Canonicalize _ => ∃ root, c = FilesystemConnector root
  | ReadFile p | ReadDir p => ∃ root, c = FilesystemConnector root ∧ root `prefix_of` p
  | WriteFile p _ =>
      ba_mutates_state a = true ∧ ∃ root, c = FilesystemConnector root ∧ root `prefix_of` p
  | RunCommand cmd =>
      c = ShellConnector (cmd_current_dir cmd) ∧ cmd_env cmd = [("PATH", CAGE_PATH)]
  end.

(** Every branch of a program, down to its calls. *)
Ltac branches :=
  repeat (cbn [all_calls prog_bind mbind prog_mbind mret prog_mret trigger try_bind failing fail];
    match goal with
    | |- True => exact I
    | |- _ ∧ _ => split
    | |- ∀ _, _ => intros ?
    | |- all_calls _ (match ?x with _ => _ end) => destruct x eqn:?
    | |- all_calls _ (prog_bind _ (match ?x with _ => _ end)) => destruct x eqn:?
    | |- all_calls _ (let '(_, _) := ?x in _) => destruct x eqn:?
    end).

Section Allowed.
Context {BX : BrokerExternal}.

Ltac open_program :=
  unfold try_bind, failing, fail, trigger, mret, prog_mret, mbind, prog_mbind.

Lemma api_path_absolute a p : api_path a = Ok p → ∃ q, p = String "/" q.
Proof.
  unfold api_path. destruct (str_param a "path") as [s|]; [|done].
  destruct (starts_with "/" s) eqn:Hs; [|done]. intros [= <-].
  apply BrokerCore.starts_with_iff in Hs as [q ->]. by exists q.
Qed.

Lemma github_allowed mode a cred :
  all_calls (allowed (GithubConnector mode) a cred) (github_execute mode a cred).
Proof.
  unfold github_execute. open_program. branches; [|done].
  match goal with H : api_path a = Ok _ |- _ => apply api_path_absolute in H as [q ->] end.
  simpl. split_and!; [|by exists q|].
  - destruct (ba_mutates_state a); [done|].
    match goal with H : ?b && _ = false |- _ => destruct b; done end.
  - exists [("Accept", "application/vnd.github+json"); ("User-Agent", "aegis-tool-broker")].
    split; [reflexivity|]. repeat constructor; done.
Qed.

Lemma caller_headers_own m hs :
  caller_headers m = Ok hs → Forall (λ h, to_ascii_lowercase h.1 ≠ "authorization") hs.
Proof.
  revert hs. induction m as [|[n v] m IH]; intros hs; simpl; [by intros [= <-]|].
  destruct (_ == _) eqn:Hn; [done|]. destruct (as_str v) as [x|]; [|done].
  destruct (caller_headers m) as [l|] eqn:Hm; [|done]. intros [= <-].
  apply eqb_spec_false in Hn. by constructor; [|apply IH].
Qed.

Lemma method_for_declared a m :
  method_for a = Ok m → changes_state m = true → ba_mutates_state a = true.
Proof.
  unfold method_for, method_of_name. intros Hm Hc. destruct (ba_mutates_state a); [done|].
  repeat case_match; simplify_eq; done.
Qed.

Lemma http_allowed plain a cred :
  all_calls (allowed (HttpConnector plain) a cred) (http_execute plain a cred).
Proof.
  unfold http_execute. open_program. branches; [|done]. simpl. split_and!.
  - by apply method_for_declared.
  - match goal with H : negb _ = false |- _ => apply negb_false_iff, orb_true_iff in H as [->|H] end;
      [by left|]. right. by apply andb_true_iff.
  - eexists. split; [reflexivity|].
    match goal with H : _ = Ok ?l |- Forall _ ?l => revert H end.
    destruct (param a "headers") as [[]|]; try (intros [= <-]; constructor).
    apply caller_headers_own.
Qed.

Lemma shell_allowed ws a cred :
  all_calls (allowed (ShellConnector ws) a cred) (shell_execute ws a).
Proof. unfold shell_execute. open_program. branches. done. Qed.

(** The name of one component, as [Path.of_str] gives it. *)
Definition plain_name (n : string) : Prop := has_byte "/" n = false ∧ Path.piece n = Some (Normal n).

Lemma join_prefix root p q :
  root `prefix_of` p → Path.is_absolute q = false → root `prefix_of` Path.join p q.
Proof.
  intros Hp Hq. unfold Path.join. rewrite Hq. destruct p as [|c p].
  - by apply prefix_nil_inv in Hp as ->; apply prefix_nil.
  - by apply prefix_app_r.
Qed.

Lemma of_str_name n : plain_name n → Path.of_str n = [Normal n].
Proof.
  unfold Path.of_str. intros [Hn Hp]. rewrite split_on_no_sep by done. destruct (starts_with "/" n) eqn:Hs.
  - apply BrokerCore.starts_with_iff in Hs as [r ->]. done.
  - simpl. rewrite Hp. unfold Path.piece in Hp. destruct (n == ".") eqn:Hd; [|done].
    apply eqb_spec_true in Hd as ->. done.
Qed.

Lemma split_on_plain s w : w ∈ split_on "/" s → has_byte "/" w = false.
Proof.
  revert w. induction s as [|a s IH]; intros w; simpl.
  - by intros ->%list_elem_of_singleton.
  - destruct (split_on_cons "/" s) as (x & xs & Hs). rewrite Hs in *.
    destruct (Ascii.eqb a "/") eqn:Ha; rewrite !elem_of_cons; intros [->|H]; try done.
    + apply IH. set_solver.
    + simpl. rewrite Ha. apply IH. set_solver.
    + apply IH. set_solver.
Qed.

Definition plain_path (p : Path) : Prop := ∀ n, Normal n ∈ p → plain_name n.

Lemma of_str_plain s : plain_path (Path.of_str s).
Proof.
  intros n. assert (∀ l : list string, (∀ w, w ∈ l → has_byte "/" w = false) →
    Normal n ∈ omap Path.piece l → plain_name n)
    as Hl.
  { intros l Hall (w & Hw & Hp)%list_elem_of_omap. pose proof Hp as Hn. unfold Path.piece in Hn.
    repeat case_match; simplify_eq. split; [by apply Hall|done]. }
  unfold Path.of_str. pose proof (split_on_plain s) as Hs.
  destruct (starts_with "/" s); [rewrite elem_of_cons; intros [?|?]; [done|by eapply Hl]|].
  destruct (split_on "/" s) as [|w ws]; [by intros ?%elem_of_nil|].
  destruct (w == "."); [|by apply Hl]. rewrite elem_of_cons. intros [?|?]; [done|].
  apply (Hl ws); [|done]. intros x Hx. apply Hs. by apply elem_of_cons; right.
Qed.

Lemma file_name_plain p n : plain_path p → Path.file_name p = Some n → plain_name n.
Proof.
  intros Hp. unfold Path.file_name. destruct (list.last p) as [[| | |m]|] eqn:Hl; try done.
  intros [= <-]. apply Hp. apply last_Some_elem_of in Hl. done.
Qed.

(** A file to be written is its directory or a name in it. *)
Lemma join_file_name dir p :
  dir ≠ [] → plain_path p →
  let file := Path.join dir (Path.of_str (default "" (Path.file_name p))) in
  file = dir ∨ ∃ n, plain_name n ∧ file = dir ++ [Normal n].
Proof.
  intros Hdir Hp. destruct (Path.file_name p) as [n|] eqn:Hn; simpl.
  - right. exists n. assert (plain_name n) as Hpn by (by eapply file_name_plain). split; [done|].
    rewrite of_str_name by done. by destruct dir.
  - left. destruct dir as [|c dir]; [done|]. unfold Path.join. simpl. by rewrite app_nil_r.
Qed.

Lemma join_plain p q : plain_path p → plain_path q → plain_path (Path.join p q).
Proof.
  intros Hp Hq n. unfold Path.join. destruct (Path.is_absolute q); [apply Hq|].
  destruct p; [apply Hq|]. rewrite elem_of_app, list_elem_of_filter.
  intros [?|[_ ?]]; [by apply Hp|by apply Hq].
Qed.

Lemma fs_allowed root a cred :
  plain_path root → root ≠ [] → all_calls (allowed (FilesystemConnector root) a cred) (fs_execute root a).
Proof.
  intros Hroot Hne. unfold fs_execute, fs_resolve. open_program. branches; simpl; try (by eauto).
  all: try (split; [match goal with H : negb _ = false |- _ => by apply negb_false_iff in H end|]).
  all: exists root; split; [done|].
  all: try match goal with H : negb (Path.starts_with _ _) = false |- _ =>
    apply negb_false_iff, bool_decide_eq_true in H end; try done.
  match goal with H : root `prefix_of` ?dir |- _ `prefix_of` Path.join ?dir (Path.of_str (default "" (Path.file_name ?p))) =>
    assert (dir ≠ []) as Hd by (destruct dir; [by apply prefix_nil_inv in H|done]);
    destruct (join_file_name dir p Hd) as [->|(n & _ & ->)] end.
  - apply join_plain; [done|apply of_str_plain].
  - done.
  - by apply prefix_app_r.
Qed.

Definition plain_registry (registry : ConnectorRegistry) : Prop :=
  ∀ ty root, registry !! ty = Some (FilesystemConnector root) → plain_path root ∧ root ≠ [].

Lemma register_plain registry c :
  plain_registry registry → (∀ root, c = FilesystemConnector root → plain_path root ∧ root ≠ []) →
  plain_registry (register registry c).
Proof.
  intros Hp Hc ty root. unfold register. rewrite lookup_insert_Some.
  intros [[_ ?]|[_ ?]]; [by apply Hc|by eapply Hp].
Qed.

Lemma build_registry_plain base workspace canonicalize :
  (∀ s p, canonicalize s = Some p → plain_path p ∧ p ≠ []) →
  plain_registry (build_registry base workspace canonicalize).
Proof.
  intros Hc. unfold build_registry. destruct (non_blank workspace ≫= canonicalize) as [dir|] eqn:Hd.
  - apply bind_Some in Hd as (s & _ & Hs). repeat apply register_plain; try done.
    intros root [= <-]. by eapply Hc.
  - repeat apply register_plain; done.
Qed.

Lemma connector_allowed registry ty c a cred :
  plain_registry registry → get registry ty = Some c →
  all_calls (allowed c a cred) (connector_execute c a cred).
Proof.
  intros Hp Hg. destruct c as [mode|plain|root|ws]; simpl.
  - apply github_allowed.
  - apply http_allowed.
  - apply fs_allowed; by eapply Hp.
  - apply shell_allowed.
Qed.

(** *** Where the credential goes *)

Definition with_bearer (cred : option Secret) (r : HttpRequest) : HttpRequest := {|
  hr_method := hr_method r; hr_url := hr_url r; hr_headers := hr_headers r ++ bearer cred;
  hr_json := hr_json r |}.

(** A call made without a credential, and then given one: a request gets the
    header, everything else is the same. *)
Definition give (cred : option Secret) (ev : event ConnectorE) : event ConnectorE :=
  match ev with
  | @Call _ T e x => Call (match e in ConnectorE T return ConnectorE T with
                           | HttpSend r => HttpSend (with_bearer cred r)
                           | e => e
                           end) x
  end.

Definition exchange (r : HttpRequest) (p1 p2 : string) (k : Z → string → Result Canon.Value ConnectorError) :
    Connect (Result Canon.Value ConnectorError) :=
  status ←? failing p1 (trigger (HttpSend r)); text ←? failing p2 (trigger HttpText); mret (k status text).

Lemma exchange_given cred r p1 p2 k t out :
  runs (exchange (with_bearer cred r) p1 p2 k) t out →
  ∃ t0, runs (exchange r p1 p2 k) t0 out ∧ t = map (give cred) t0.
Proof.
  unfold exchange. open_program. intros (x & t' & -> & H). destruct x as [x|x]; simpl in H.
  - destruct H as (y & t'' & -> & H). exists [Call (HttpSend r) (Ok x); Call HttpText y].
    destruct y as [y|y]; destruct H as [-> ->]; (split; [|reflexivity]); eexists _, _; (split; [reflexivity|]);
      by eexists _, _.
  - destruct H as [-> ->]. exists [Call (HttpSend r) (Err x)]. split; [|reflexivity]. by eexists _, _.
Qed.

Lemma with_bearer_none r : with_bearer None r = r.
Proof. destruct r. unfold with_bearer. simpl. by rewrite app_nil_r. Qed.

(** A program that sends nothing runs the same with a credential. *)
Lemma nothing_sent cred (p : Connect (Result Canon.Value ConnectorError)) t out :
  all_calls (λ T e, match e with HttpSend _ => False | _ => True end) p → runs p t out →
  ∃ t0, runs p t0 out ∧ t = map (give cred) t0.
Proof.
  intros Hp Hr. exists t. split; [done|]. pose proof (all_calls_runs _ _ _ _ Hp Hr) as Ht. clear Hr.
  induction Ht as [|[T e x] t He Ht IH]; [done|]. simpl. f_equal; [by destruct e|exact IH].
Qed.

(** The credential decides nothing: a run with it is a run without it in which
    each request was given the header. *)
Lemma credential_in_header c a cred t out :
  runs (connector_execute c a cred) t out →
  ∃ t0, runs (connector_execute c a None) t0 out ∧ t = map (give cred) t0.
Proof.
  destruct c as [mode|plain|root|ws]; cbn [connector_execute].
  - unfold github_execute. destruct (api_path a) as [path|e]; [|intros [-> ->]; by exists []].
    destruct (ba_action a == "read"), (ba_action a == "write"), (ba_mutates_state a), mode as [|base];
      try (by intros [-> ->]; exists []).
    all: eapply (exchange_given cred (Build_HttpRequest _ _ [("Accept", "application/vnd.github+json");
      ("User-Agent", "aegis-tool-broker")] _)).
  - unfold http_execute. destruct (str_param a "url") as [url|]; [|intros [-> ->]; by exists []].
    destruct (negb _); [intros [-> ->]; by exists []|]. destruct (method_for a) as [m|e]; [|intros [-> ->]; by exists []].
    match goal with |- context [mret ?x] => destruct x as [hs|e] end; [|intros [-> ->]; by exists []].
    intros H. eapply (exchange_given cred (Build_HttpRequest _ _ hs _)) in H as (t0 & H & ->).
    exists t0. split; [|done]. rewrite <- (with_bearer_none (Build_HttpRequest m url hs (param a "body"))) in H. exact H.
  - apply nothing_sent. unfold fs_execute, fs_resolve. open_program. branches; done.
  - apply nothing_sent. unfold shell_execute. open_program. branches; done.
Qed.

(** *** Which files are opened *)

(** A path that is read or listed is one the file system gave as canonical, at
    or below the root; a path that is written is such a directory, or one name
    in it that was not resolved. *)
Definition file_confined (c : Connector) (t : list (event ConnectorE)) (ev : event ConnectorE) : Prop :=
  match ev with
  | Call e _ =>
      match e with
      | ReadFile p | ReadDir p =>
          ∃ root q, c = FilesystemConnector root ∧ Call (Canonicalize q) (Ok p) ∈ t ∧ root `prefix_of` p
      | WriteFile p _ =>
          ∃ root q dir, c = FilesystemConnector root ∧ Call (Canonicalize q) (Ok dir) ∈ t ∧ root `prefix_of` dir ∧
            (p = dir ∨ ∃ n, plain_name n ∧ p = dir ++ [Normal n])
      | _ => True
      end
  end.

Definition no_file T (e : ConnectorE T) : Prop :=
  match e with ReadFile _ | ReadDir _ | WriteFile _ _ => False | _ => True end.

Lemma no_file_confined c t : Forall (event_sat no_file) t → Forall (file_confined c t) t.
Proof. intros H. eapply list.Forall_impl; [exact H|]. intros [T e x]. by destruct e. Qed.

(** What [fs_resolve] answered. *)
Lemma fs_resolve_run root a must_exist t p :
  plain_path root → root ≠ [] → runs (fs_resolve root a must_exist) t (Ok p) →
  ∃ q dir, t = [Call (Canonicalize q) (Ok dir)] ∧ root `prefix_of` dir ∧
    if must_exist then p = dir else p = dir ∨ ∃ n, plain_name n ∧ p = dir ++ [Normal n].
Proof.
  intros Hroot Hne. unfold fs_resolve. open_program. destruct (str_param a "path") as [rel|]; simpl; [|by intros [_ [=]]].
  destruct (_ || _); simpl; [by intros [_ [=]]|].
  destruct must_exist; simpl; intros ([dir|e] & t' & -> & H); simpl in H; try by destruct H as [_ [=]].
  all: destruct (Path.starts_with dir root) eqn:Hs; simpl in H; destruct H as [-> Hp]; [|done]; injection Hp as ->.
  all: apply bool_decide_eq_true in Hs; eexists _, dir; (split; [reflexivity|]); (split; [done|]).
  - done.
  - apply join_file_name; [destruct dir; [by apply prefix_nil_inv in Hs|done]|].
    apply join_plain; [done|apply of_str_plain].
Qed.

Lemma fs_resolve_calls root a must_exist : all_calls no_file (fs_resolve root a must_exist).
Proof. unfold fs_resolve. open_program. branches; done. Qed.

(** One resolved path, and one call on it. *)
Lemma resolved_then {A} root a must_exist (e : Path → ConnectorE (Result A string)) prefix
    (k : A → Result Canon.Value ConnectorError) t out :
  plain_path root → root ≠ [] →
  runs (path ←? fs_resolve root a must_exist; x ←? failing prefix (trigger (e path)); mret (k x)) t out →
  Forall (event_sat no_file) t ∨
  ∃ q dir p x, t = [Call (Canonicalize q) (Ok dir); Call (e p) x] ∧ root `prefix_of` dir ∧
    if must_exist then p = dir else p = dir ∨ ∃ n, plain_name n ∧ p = dir ++ [Normal n].
Proof.
  intros Hroot Hne H. apply runs_try_bind in H as [(t1 & p & t2 & -> & Hres & H)|(err & -> & Hres)].
  2: { left. eapply all_calls_runs; [apply fs_resolve_calls|exact Hres]. }
  right. apply fs_resolve_run in Hres as (q & dir & -> & Hd & Hp); [|done..].
  exists q, dir, p. apply runs_try_bind in H as [(t3 & x & t4 & -> & (y & t5 & -> & Hy) & [-> _])|(err & _ & (y & t5 & -> & Hy))];
    destruct Hy as [-> _]; by exists y.
Qed.

Lemma fs_files root a t out :
  plain_path root → root ≠ [] → runs (fs_execute root a) t out →
  Forall (file_confined (FilesystemConnector root) t) t.
Proof.
  intros Hroot Hne. unfold fs_execute.
  destruct (ba_action a == "read"); [|destruct (ba_action a == "list"); [|destruct (ba_action a == "write")]].
  - intros [H|(q & dir & p & x & -> & Hd & ->)]%(resolved_then root a true ReadFile); [by apply no_file_confined| |done..].
    repeat constructor. eexists root, q. split; [done|]. split; [in_trace|done].
  - intros [H|(q & dir & p & x & -> & Hd & ->)]%(resolved_then root a true ReadDir); [by apply no_file_confined| |done..].
    repeat constructor. eexists root, q. split; [done|]. split; [in_trace|done].
  - destruct (negb _); [by intros [-> _]|]. destruct (str_param a "content") as [content|]; [|by intros [-> _]].
    intros [H|(q & dir & p & x & -> & Hd & Hp)]%(resolved_then root a false (λ p, WriteFile p content));
      [by apply no_file_confined| |done..].
    repeat constructor. eexists root, q, dir. split; [done|]. split; [in_trace|done].
  - by intros [-> _].
Qed.

Lemma connector_files registry ty c a cred t out :
  plain_registry registry → get registry ty = Some c →
  runs (connector_execute c a cred) t out → Forall (file_confined c t) t.
Proof.
  intros Hp Hg. destruct c as [mode|plain|root|ws]; cbn [connector_execute].
  1, 2, 4: intros Hr; eapply no_file_confined, all_calls_runs; [|exact Hr].
  1: unfold github_execute. 2: unfold http_execute. 3: unfold shell_execute.
  1, 2, 3: open_program; branches; done.
  destruct (Hp ty root Hg) as [Hroot Hne]. apply fs_files; done.
Qed.

Context (registry : ConnectorRegistry) (resolver : CredentialRef → Result Secret ResolveError).

(** A run of the engine either does nothing or is a run of the connector,
    behind the gates. *)
Lemma execute_runs tool a approval t r :
  runs (execute registry resolver tool a approval) t r →
  (t = [] ∧ ∃ e, r = Err e ∧ ∀ m, e ≠ ConnectorFailed m) ∨
  ∃ c cred out,
    btb_status tool = "active" ∧ get registry (btb_connector_type tool) = Some c ∧
    approval_gate a approval = Ok tt ∧ resolve_credential resolver tool = Ok cred ∧
    runs (connector_execute c a cred) t out ∧
    r = match out with
        | Ok output => Ok (BrokerCore.sanitize output (secrets_of cred))
        | Err e => Err (ConnectorFailed (scrub_error cred (display_connector_error e)))
        end.
Proof.
  unfold execute. destruct (btb_status tool == "active") eqn:Hs; simpl; [|naive_solver].
  destruct (get _ _) as [c|]; simpl; [|naive_solver].
  open_program. simpl. destruct (approval_gate a approval) as [[]|e] eqn:Hg; simpl.
  2:{ intros [-> ->]. left. split; [done|]. exists e. split; [done|]. intros m ->.
      unfold approval_gate in Hg. repeat case_match; done. }
  destruct (resolve_credential resolver tool) as [cred|e] eqn:Hc; simpl.
  2:{ intros [-> ->]. left. split; [done|]. exists e. split; [done|]. intros m ->.
      unfold resolve_credential in Hc. repeat case_match; done. }
  intros (t1 & out & t2 & -> & Hr & (-> & ->))%runs_bind. right. exists c, cred, out.
  rewrite app_nil_r. apply eqb_spec_true in Hs. done.
Qed.

(** C9: Every effect of the tool broker on the outside world is authorised and
    confined. Whenever the execution engine makes any call at all (sends a
    request, opens a file, runs a command), the tool is active, its connector
    is registered and its credential resolved; a mutating action carries a
    consumed approval bound to the hash of exactly this action; and each call
    is one the connector may make ([allowed]): requests that change state and
    file writes happen only for actions declared as mutating, the HTTP connector
    sends over https (or http where it is configured to), the GitHub connector to
    its base, and a command gets only the fixed PATH. The credential decides
    nothing and goes nowhere but into the one Authorization header: the calls are
    those of a run without a credential, each request with the header added at
    its end. A path that is read or listed was given as canonical by the file
    system and is at or below the root; a path that is written is one name in
    such a directory, and that last name is not resolved, so a link there is
    followed ([write_follows_link_out_of_root]). The roots of the registry are
    paths as [canonicalize] gives them. *)
Theorem broker_effects_gated tool a approval t r :
  plain_registry registry →
  runs (execute registry resolver tool a approval) t r → t ≠ [] →
  btb_status tool = "active" ∧
  ∃ c cred,
    get registry (btb_connector_type tool) = Some c ∧
    resolve_credential resolver tool = Ok cred ∧
    (ba_mutates_state a = true → ∃ ap, approval = Some ap ∧ ca_action_hash ap = hash_of a) ∧
    Forall (event_sat (allowed c a cred)) t ∧
    (∃ t0 out, runs (connector_execute c a None) t0 out ∧ t = map (give cred) t0) ∧
    Forall (file_confined c t) t.
Proof.
  intros Hp [[-> _]|(c & cred & out & Hs & Hg & Ha & Hc & Hr & _)]%execute_runs Ht; [done|].
  split; [done|]. exists c, cred. split_and!; [done..| | | |].
  - unfold approval_gate in Ha. intros Hm. rewrite Hm in Ha.
    destruct approval as [ap|]; [|done]. exists ap. split; [done|].
    destruct (_ == _) eqn:Hh; [|done]. by apply eqb_spec_true.
  - eapply all_calls_runs; [by eapply connector_allowed|done].
  - apply credential_in_header in Hr as (t0 & ? & ?). by exists t0, out.
  - by eapply connector_files.
Qed.

(** C10: What the tool broker answers carries no credential. For every answer of
    the outside world, when the tool's credential resolves to a secret that is
    not empty, has no square bracket and is no part of the word REDACTED, then
    no string and no object key of a successful output, at any depth, contains
    the secret and no value under a sensitive key is left; the text of a
    connector error does not contain it either; and any other error is
    reported without a call having been made. *)
Theorem broker_answers_carry_no_credential tool a approval t r secret :
  runs (execute registry resolver tool a approval) t r →
  resolve_credential resolver tool = Ok (Some secret) → BrokerCore.redactable secret →
  match r with
  | Ok output =>
      (∀ x, x ∈ BrokerCore.texts output → contains secret x = false) ∧
      (∀ k v, (k, v) ∈ BrokerCore.entries output → BrokerCore.key_is_sensitive k = true →
         v = Canon.Str BrokerCore.REDACTED)
  | Err (ConnectorFailed message) => contains secret message = false
  | Err _ => t = []
  end.
Proof.
  intros [[-> (e & -> & He)]|(c & cred & out & _ & _ & _ & Hc & _ & ->)]%execute_runs Hsec Hr.
  - destruct e; try done. by destruct (He message).
  - rewrite Hsec in Hc. injection Hc as <-. destruct out as [output|e].
    + apply BrokerCore.sanitize_clean; [done|]. by apply list_elem_of_singleton.
    + unfold scrub_error. assert (is_empty secret = false) as -> by (destruct Hr; by destruct secret).
      by apply BrokerCore.replace_no_self.
Qed.

(** The shell connector is a way around the approval gate. An active tool of
    type shell without a credential runs any command for an action that is
    declared as not mutating, with no approval at all: the only call of every
    run is that command, in the workspace. *)
Theorem shell_command_needs_no_approval tool a ws program rest t r :
  btb_status tool = "active" → btb_credential_ref tool = None →
  get registry (btb_connector_type tool) = Some (ShellConnector ws) →
  ba_action a = "run" → ba_mutates_state a = false →
  param a "command" = Some (Canon.Array (Canon.Str program :: rest)) →
  runs (execute registry resolver tool a None) t r →
  ∃ res, t = [Call (RunCommand {| cmd_program := program; cmd_args := omap as_str rest;
                                  cmd_current_dir := ws; cmd_env := [("PATH", CAGE_PATH)] |}) res].
Proof.
  intros Hs Hcr Hg Ha Hm Hcmd. unfold execute, approval_gate, resolve_credential.
  rewrite Hs, Hg, Hm, Hcr. simpl. unfold shell_execute. rewrite Ha, Hcmd. simpl.
  intros (res & t' & -> & Hr). exists res. f_equal.
  destruct res; simpl in Hr; by destruct Hr.
Qed.
End Allowed.

(** ** Samples *)

Definition sample_broker : BrokerExternal := {|
  json_from_str _ := None; debug_str s := s; debug_timeout := "30s";
  json_number n := Canon.Number_ (Canon.PosInt n); broker_to_string _ := Some "canonical";
  broker_sha256_hex s := "sha:" +:+ s |}.

(** A world that echoes the credential back and has one file. *)
Definition echo_world : handler ConnectorE unit := λ T e w,
  match e in ConnectorE T return T * unit with
  | HttpSend _ => (Ok 200%Z, w)
  | HttpText => (Ok "you sent Bearer ghp_12", w)
  | Canonicalize p => (Ok p, w)
  | ReadFile _ => (Ok "content", w)
  | ReadDir _ => (Ok ["b"; "a"], w)
  | WriteFile _ _ => (Ok tt, w)
  | RunCommand _ => (Exited (Some 0%Z) "done" "", w)
  end.

Definition sample_registry : ConnectorRegistry :=
  build_registry None (Some "/work") (λ s, if starts_with "/" s then Some (Path.of_str s) else None).
Definition sample_resolver : CredentialRef → Result Secret ResolveError :=
  BrokerCore.resolve (λ v, if v == "GITHUB_TOKEN" then Some "ghp_12" else None).

Definition put_action : BrokerAction := {|
  ba_tool := "deploy"; ba_action := "call"; ba_resource := None; ba_mutates_state := true;
  ba_parameters := Canon.Object [("url", Canon.Str "https://api.acme.com/v1");
                                 ("method", Canon.Str "put")] |}.
Definition put_tool : BrokerToolBinding := {|
  btb_tool_name := "deploy"; btb_connector_type := "http";
  btb_credential_ref := Some "env:GITHUB_TOKEN"; btb_status := "active" |}.
Definition put_approval : ConsumedApproval :=
  {| ca_approval_id := "a1"; ca_action_hash := "sha:canonical" |}.

Definition put_run :=
  run echo_world (execute (BX := sample_broker) sample_registry sample_resolver put_tool put_action
                    (Some put_approval)) tt.

Lemma sample_plain : plain_registry sample_registry.
Proof.
  apply build_registry_plain. intros s p Hp. destruct (starts_with "/" s) eqn:Hs; [|done]. injection Hp as <-.
  split; [apply of_str_plain|]. unfold Path.of_str. by rewrite Hs.
Qed.

Lemma broker_effects_gated_witness :
  put_run.2 ≠ [] ∧
  Forall (event_sat (allowed (HttpConnector false) put_action (Some "ghp_12"))) put_run.2.
Proof.
  assert (put_run.2 ≠ []) as Hne by (vm_compute; discriminate). split; [exact Hne|].
  destruct (broker_effects_gated (BX := sample_broker) sample_registry sample_resolver put_tool
              put_action (Some put_approval) put_run.2 put_run.1.1 sample_plain)
    as (_ & c & cred & Hg & Hc & _ & Hall & _); [apply run_runs|exact Hne|].
  vm_compute in Hg, Hc. injection Hg as <-. injection Hc as <-. exact Hall.
Defined.

Lemma broker_answers_carry_no_credential_witness :
  put_run.1.1 = Ok (Canon.Object [("body", Canon.Str "you sent Bearer [REDACTED]");
                                  ("status", Canon.Number_ (Canon.PosInt 200));
                                  ("truncated", Canon.Bool false)]) ∧
  match put_run.1.1 with
  | Ok output => ∀ x, x ∈ BrokerCore.texts output → contains "ghp_12" x = false
  | Err _ => False
  end.
Proof.
  pose proof (broker_answers_carry_no_credential (BX := sample_broker) sample_registry
                sample_resolver put_tool put_action (Some put_approval) put_run.2 put_run.1.1
                "ghp_12" (run_runs _ _ _) eq_refl ltac:(done)) as H.
  split; [vm_compute; reflexivity|]. vm_compute. vm_compute in H. apply H.
Defined.

Definition shell_action : BrokerAction := {|
  ba_tool := "sh"; ba_action := "run"; ba_resource := None; ba_mutates_state := false;
  ba_parameters := Canon.Object [("command", Canon.Array [Canon.Str "rm"; Canon.Str "-rf"; Canon.Str "."])] |}.
Definition shell_tool : BrokerToolBinding := {|
  btb_tool_name := "sh"; btb_connector_type := "shell"; btb_credential_ref := None;
  btb_status := "active" |}.

Lemma shell_command_needs_no_approval_witness :
  ∃ res, (run echo_world (execute (BX := sample_broker) sample_registry sample_resolver shell_tool
                            shell_action None) tt).2 =
    [Call (RunCommand {| cmd_program := "rm"; cmd_args := ["-rf"; "."];
                         cmd_current_dir := [RootDir; Normal "work"];
                         cmd_env := [("PATH", CAGE_PATH)] |}) res].
Proof.
  apply (shell_command_needs_no_approval (BX := sample_broker) sample_registry sample_resolver
           shell_tool shell_action [RootDir; Normal "work"] "rm" [Canon.Str "-rf"; Canon.Str "."]
           _ (run echo_world (execute (BX := sample_broker) sample_registry sample_resolver
                shell_tool shell_action None) tt).1.1); try reflexivity.
  apply run_runs.
Defined.

(** A file system with one symbolic link in the workspace, to a file outside;
    its state is the files that were written. *)
Definition follow (p : Path) : Path :=
  if decide (p = Path.of_str "/work/out") then Path.of_str "/etc/passwd" else p.

Definition link_world : handler ConnectorE (list (Path * string)) := λ T e w,
  match e in ConnectorE T return T * list (Path * string) with
  | HttpSend _ => (Err "offline", w)
  | HttpText => (Err "offline", w)
  | Canonicalize p => (Ok (follow p), w)
  | ReadFile p => (Ok "", w)
  | ReadDir _ => (Ok [], w)
  | WriteFile p content => (Ok tt, (follow p, content) :: w)
  | RunCommand _ => (TimedOut, w)
  end.

Definition file_action (action : string) : BrokerAction := {|
  ba_tool := "fs"; ba_action := action; ba_resource := None; ba_mutates_state := true;
  ba_parameters := Canon.Object [("path", Canon.Str "out"); ("content", Canon.Str "x")] |}.

(** Reading through the link is refused; writing through it is not, since only
    the directory of a file to be written is checked. *)
Example write_follows_link_out_of_root :
  let root := Path.of_str "/work" in
  let exec a := run link_world (fs_execute (BX := sample_broker) root (file_action a)) [] in
  (exec "read").1 = (Err (ExecutionFailed "path escapes the workspace root: out"), []) ∧
  (exec "write").1.2 = [(Path.of_str "/etc/passwd", "x")].
Proof. split; vm_compute; reflexivity. Qed.
End Broker.
