(* ===== verification/BrokerApi.v ===== *)
(** * The gateway's side of the tool broker

    Models the [broker_tools] table ([src/lib/storage/src/db/broker_tools.rs]),
    the handlers of [src/src/src/routes/broker.rs] (register, switch, execute)
    and the client of the broker process ([src/src/src/tool_broker_client.rs]).
    The handlers are programs over the storage operations and the request they
    send; [Broker.v] is the process that answers it. *)

From S2P Require Import Prelude RustString Prog Canon Models Records External Runtime Caches Bans Service Pages Gateway ApprovalApi BrokerCore Broker.

Record BrokerToolRecord := {
  bt_id : string; bt_tenant_id : string; bt_tool_name : string; bt_connector_type : string;
  bt_credential_ref : string; bt_allowed_scopes : string; bt_status : string;
  bt_created_at : DateTime; bt_updated_at : DateTime }.

(** ** The table *)

Module BrokerTools.
Definition same_name (tenant_id tool_name : string) (r : BrokerToolRecord) : bool :=
  (bt_tenant_id r == tenant_id) && (bt_tool_name r == tool_name).
Definition same_id (tenant_id tool_id : string) (r : BrokerToolRecord) : bool :=
  (bt_tenant_id r == tenant_id) && (bt_id r == tool_id).

(** [None]: a unique constraint is violated, of the id or of the name. *)
Definition insert_broker_tool (rows : list BrokerToolRecord)
    (id tenant_id tool_name connector_type credential_ref allowed_scopes_json : string)
    (now : DateTime) : option (list BrokerToolRecord) :=
  if existsb (λ r, (bt_id r == id) || same_name tenant_id tool_name r) rows then None
  else Some (rows ++ [{| bt_id := id; bt_tenant_id := tenant_id; bt_tool_name := tool_name;
                         bt_connector_type := connector_type; bt_credential_ref := credential_ref;
                         bt_allowed_scopes := allowed_scopes_json; bt_status := "active";
                         bt_created_at := now; bt_updated_at := now |}]).

Definition get_broker_tool (rows : list BrokerToolRecord) (tenant_id tool_id : string) :
    option BrokerToolRecord := find (same_id tenant_id tool_id) rows.

Definition get_broker_tool_by_name (rows : list BrokerToolRecord) (tenant_id tool_name : string) :
    option BrokerToolRecord := find (same_name tenant_id tool_name) rows.

Definition with_status (status : string) (now : DateTime) (r : BrokerToolRecord) : BrokerToolRecord := {|
  bt_id := bt_id r; bt_tenant_id := bt_tenant_id r; bt_tool_name := bt_tool_name r;
  bt_connector_type := bt_connector_type r; bt_credential_ref := bt_credential_ref r;
  bt_allowed_scopes := bt_allowed_scopes r; bt_status := status; bt_created_at := bt_created_at r;
  bt_updated_at := now |}.

Definition set_broker_tool_status (rows : list BrokerToolRecord) (tenant_id tool_id status : string)
    (now : DateTime) : bool * list BrokerToolRecord :=
  let '(n, rows') := update_rows (same_id tenant_id tool_id) (with_status status now) rows in
  ((n =? 1)%nat, rows').
End BrokerTools.

(** ** Requests *)

Record RegisterBrokerToolRequest := {
  rbt_tool_name : string;
  rbt_connector_type : string;
  rbt_credential_ref : string;
  rbt_allowed_scopes : list string }.

Record ExecuteBrokerActionBody := {
  xb_action : string;
  xb_resource : option string;
  xb_mutates_state : bool;
  xb_parameters : Canon.Value }.
Record ExecuteBrokerActionRequest := {
  xq_tool_name : string;
  xq_action : ExecuteBrokerActionBody;
  xq_approval_id : option string }.

Inductive ToolBrokerError :=
| TbForbidden (m : string)
| TbNotImplemented (m : string)
| TbServiceUnavailable (m : string).

(** What the HTTP client reports: nothing in time, a transport error, or a
    status with the body as text. *)
Inductive Posted := PostTimedOut | PostFailed (e : string) | Replied (status : Z) (body : string).

Inductive BrokerE : Type → Type :=
| BkGetToolByName (tenant_id tool_name : string) : BrokerE (Fallible (option BrokerToolRecord))
| BkGetTool (tenant_id tool_id : string) : BrokerE (Fallible (option BrokerToolRecord))
| BkInsertTool (tenant_id tool_name connector_type credential_ref scopes : string) (now : DateTime) :
    BrokerE (Fallible string)
| BkSetStatus (tenant_id tool_id status : string) (now : DateTime) : BrokerE (Fallible bool)
| BkIsBanned (tenant_id target_type target_value : string) (now : DateTime) : BrokerE (Fallible bool)
| BkIsQuarantined (tenant_id target_type target_value : string) : BrokerE (Fallible bool)
| BkConsume (tenant_id approval_id : string) (claimed : option string) : BrokerE (Fallible bool)
| BkStillConsumable (tenant_id approval_id : string) : BrokerE (Fallible bool)
| BkPost (api_token : string) (req : Broker.ExecuteRequest) : BrokerE Posted
| BkAppendReceipt (tenant_id : string) (r : ActionReceiptRecord) :
    BrokerE (Fallible ActionReceiptRecord)
| BkNow : BrokerE DateTime
| BkUuid : BrokerE Uuid.

Abbreviation Brokered A := (prog BrokerE A).

(** The JSON of the wire and of a record, and the text of a status code. *)
Class BrokerApiExternal := {
  json_of_strings : list string → string;
  json_of_broker_tool : BrokerToolRecord → Canon.Value;
  wire_output : string → Result Canon.Value string;
  wire_error : string → option string;
  display_http_status : Z → string }.

Module BrokerApi.
Section Api.
Context {HX : HostExternal} {BX : BrokerExternal} {BA : BrokerApiExternal}.

(** [AEGIS_TOOL_BROKER_API_TOKEN], when the broker is configured. *)
Context (tool_broker : option string).

Definition is_blank (s : string) : bool := is_empty (trim s).
Definition refuse (e : StatusError) : Brokered Response := mret (into_response e).
Definition database_error : Brokered Response := refuse (StatusError.internal "Database error").

(** *** Registration *)

Definition is_valid_status (status : string) : bool := (status == "active") || (status == "disabled").

Definition register_broker_tool (tenant_id : string) (req : RegisterBrokerToolRequest) :
    Brokered Response :=
  if is_blank (rbt_tool_name req) then refuse (StatusError.bad_request "tool_name must not be empty")
  else if is_blank (rbt_connector_type req)
  then refuse (StatusError.bad_request "connector_type must not be empty")
  else if negb (has_byte ":" (rbt_credential_ref req)) then
    refuse (StatusError.bad_request
      "credential_ref must be a scheme-prefixed reference (e.g. env:VAR_NAME), never a raw secret")
  else
    let allowed_scopes_json := json_of_strings (rbt_allowed_scopes req) in
    r ← trigger (BkGetToolByName tenant_id (rbt_tool_name req));
    match r with
    | Ok (Some _) => refuse (StatusError.conflict "a broker tool with this tool_name already exists")
    | Err _ => database_error
    | Ok None =>
        now ← trigger BkNow;
        r ← trigger (BkInsertTool tenant_id (rbt_tool_name req) (rbt_connector_type req)
                       (rbt_credential_ref req) allowed_scopes_json now);
        match r with
        | Err _ => database_error
        | Ok tool_id =>
            r ← trigger (BkGetTool tenant_id tool_id);
            match r with
            | Ok (Some tool) => mret (ApprovalApi.json_reply 201 (json_of_broker_tool tool))
            | Ok None =>
                refuse (StatusError.internal "broker tool vanished immediately after registration")
            | Err _ => database_error
            end
        end
    end.

Definition set_broker_tool_status (tenant_id tool_id status : string) : Brokered Response :=
  if negb (is_valid_status status)
  then refuse (StatusError.bad_request "status must be active or disabled")
  else
    now ← trigger BkNow;
    r ← trigger (BkSetStatus tenant_id tool_id status now);
    match r with
    | Ok true => mret (ApprovalApi.json_reply 200 (Canon.Object [("status", Canon.Str status)]))
    | Ok false => refuse (StatusError.not_found "broker tool not found")
    | Err _ => database_error
    end.

(** *** The client *)

Definition fail_closed (m : string) : ToolBrokerError :=
  TbServiceUnavailable (m +:+ " — failing closed").

Definition client_execute (api_token : string) (req : Broker.ExecuteRequest) :
    Brokered (Result Canon.Value ToolBrokerError) :=
  posted ← trigger (BkPost api_token req);
  mret (match posted with
        | PostFailed e => Err (fail_closed ("tool broker request failed: " +:+ e))
        | PostTimedOut => Err (fail_closed "tool broker request timed out")
        | Replied status body =>
            if (200 <=? status)%Z && (status <? 300)%Z then
              match wire_output body with
              | Ok output => Ok output
              | Err e =>
                  Err (fail_closed ("tool broker returned an unparseable success response: " +:+ e))
              end
            else
              let message :=
                match wire_error body with
                | Some error => error
                | None => "tool broker returned status " +:+ display_http_status status +:+
                          " with an unparseable body"
                end in
              Err (if (status =? 403)%Z then TbForbidden message
                   else if (status =? 501)%Z then TbNotImplemented message
                   else fail_closed ("tool broker returned unexpected status " +:+
                                     display_http_status status +:+ ": " +:+ message))
        end).

Definition tool_broker_error_response (e : ToolBrokerError) : Response :=
  into_response (match e with
                 | TbForbidden m => StatusError.forbidden m
                 | TbNotImplemented m => StatusError.not_implemented m
                 | TbServiceUnavailable m => StatusError.service_unavailable m
                 end).

(** *** Execute *)

(** Bans and quarantines of the tool; both are asked. *)
Definition enforce_bans (tenant_id tool_name : string) : Brokered (option Response) :=
  ban_now ← trigger BkNow;
  banned ← trigger (BkIsBanned tenant_id "tool" tool_name ban_now);
  quarantined ← trigger (BkIsQuarantined tenant_id "tool" tool_name);
  mret (match banned, quarantined with
        | Err _, _ | _, Err _ => Some (into_response (StatusError.internal "Database error"))
        | Ok true, _ =>
            Some (into_response (StatusError.forbidden "broker tool is banned (fail-closed)"))
        | _, Ok true =>
            Some (into_response (StatusError.forbidden "broker tool is quarantined (fail-closed)"))
        | Ok false, Ok false => None
        end).

(** The approval of a mutating action: consumed, with the hash it is bound to,
    or the answer that ends the request. *)
Definition consume_for (tenant_id : string) (approval_id : option string) (mutates_state : bool)
    (claimed_hash : string) : Brokered (Result (option (string * string)) Response) :=
  if mutates_state then
    match approval_id with
    | Some id =>
        if is_blank id then
          mret (Err (into_response
            (StatusError.forbidden "approval_id is required for a state-mutating action")))
        else
          r ← trigger (BkConsume tenant_id id (Some claimed_hash));
          match r with
          | Ok true => mret (Ok (Some (id, claimed_hash)))
          | Ok false =>
              r ← trigger (BkStillConsumable tenant_id id);
              mret (Err (into_response (match r with
                | Ok true => StatusError.conflict "approval is bound to a different action_hash"
                | Ok false => StatusError.forbidden
                    "approval is not consumable (already consumed, expired, or not approved)"
                | Err _ => StatusError.internal "Database error"
                end)))
          | Err _ => mret (Err (into_response (StatusError.internal "Database error")))
          end
    | None =>
        mret (Err (into_response
          (StatusError.forbidden "approval_id is required for a state-mutating action")))
    end
  else if bool_decide (is_Some approval_id) then
    mret (Err (into_response (StatusError.bad_request
      "approval_id is only meaningful when action.mutates_state is true")))
  else mret (Ok None).

Definition broker_receipt (tenant_id : string) (a : BrokerAction)
    (consumed : option (string * string)) (claimed_hash : string) (id : Uuid)
    (ts created_at : DateTime) : ActionReceiptRecord :=
  {| rct_id := uuid_to_string id; rct_tenant_id := tenant_id; rct_decision_id := None;
     rct_ts := to_rfc3339 ts; rct_agent_id := None; rct_user_id := None; rct_run_id := None;
     rct_trace_id := None; rct_tool := Some (ba_tool a); rct_action := Some (ba_action a);
     rct_resource := ba_resource a; rct_source_trust := "trusted_internal_signed";
     rct_decision := "broker_execute"; rct_approver := fst <$> consumed;
     rct_action_hash := Some claimed_hash; rct_prev_receipt_hash := ""; rct_receipt_hash := "";
     rct_canon_version := Gateway.CANON_VERSION; rct_signature := None;
     rct_signer_public_key := None; rct_signer_key_id := None; rct_created_at := created_at |}.

(** The tool and the approval are settled: the broker is called, then the
    receipt is written. *)
Definition dispatch (tenant_id : string) (tool : BrokerToolRecord) (a : BrokerAction)
    (consumed : option (string * string)) (claimed_hash : string) : Brokered Response :=
  match tool_broker with
  | None =>
      refuse (StatusError.not_implemented
        "the tool broker is not configured on this gateway (AEGIS_TOOL_BROKER_URL/AEGIS_TOOL_BROKER_API_TOKEN unset) — POST /v1/broker/execute has no in-process fallback")
  | Some api_token =>
      let credential_ref :=
        if is_empty (bt_credential_ref tool) then None else Some (bt_credential_ref tool) in
      r ← client_execute api_token {|
            Broker.exq_tool_name := bt_tool_name tool;
            Broker.exq_connector_type := bt_connector_type tool;
            Broker.exq_credential_ref := credential_ref; Broker.exq_tool_status := bt_status tool;
            Broker.exq_action := a; Broker.exq_consumed_approval := consumed |};
      match r with
      | Err e => mret (tool_broker_error_response e)
      | Ok output =>
          id ← trigger BkUuid;
          ts ← trigger BkNow;
          created_at ← trigger BkNow;
          r ← Gateway.retry_on_busy 3 (trigger (BkAppendReceipt tenant_id
                (broker_receipt tenant_id a consumed claimed_hash id ts created_at)));
          match r with
          | Err _ => refuse (StatusError.internal
                       "action executed but its receipt could not be durably recorded")
          | Ok _ =>
              mret (ApprovalApi.json_reply 200 (Canon.Object
                [("tool_name", Canon.Str (bt_tool_name tool));
                 ("connector_type", Canon.Str (bt_connector_type tool));
                 ("action_hash", Canon.Str claimed_hash); ("output", output)]))
          end
      end
  end.

Definition brokered_action (tool : BrokerToolRecord) (b : ExecuteBrokerActionBody) : BrokerAction :=
  {| ba_tool := bt_tool_name tool; ba_action := xb_action b; ba_resource := xb_resource b;
     ba_mutates_state := xb_mutates_state b; ba_parameters := xb_parameters b |}.

Definition execute_broker_action (tenant_id : string) (req : ExecuteBrokerActionRequest) :
    Brokered Response :=
  if is_blank (xq_tool_name req) then refuse (StatusError.bad_request "tool_name must not be empty")
  else if is_blank (xb_action (xq_action req))
  then refuse (StatusError.bad_request "action must not be empty")
  else
    r ← trigger (BkGetToolByName tenant_id (xq_tool_name req));
    match r with
    | Err _ => database_error
    | Ok None => refuse (StatusError.not_found "broker tool not found")
    | Ok (Some tool) =>
        refused ← enforce_bans tenant_id (bt_tool_name tool);
        match refused with
        | Some resp => mret resp
        | None =>
            let action := brokered_action tool (xq_action req) in
            let claimed_hash := Broker.hash_of action in
            c ← consume_for tenant_id (xq_approval_id req) (ba_mutates_state action) claimed_hash;
            match c with
            | Err resp => mret resp
            | Ok consumed => dispatch tenant_id tool action consumed claimed_hash
            end
        end
    end.

(** ** What is asked of the broker *)

Definition approval_of (r : Broker.ExecuteRequest) : option Broker.ConsumedApproval :=
  (λ c, {| Broker.ca_approval_id := c.1; Broker.ca_action_hash := c.2 |})
    <$> Broker.exq_consumed_approval r.

(** The calls that must come before the request [r] is sent for [req]. *)
Definition cleared (tenant_id : string) (req : ExecuteBrokerActionRequest) (token : string)
    (r : Broker.ExecuteRequest) (t : list (event BrokerE)) : Prop :=
  tool_broker = Some token ∧
  ∃ tool now,
    Call (BkGetToolByName tenant_id (xq_tool_name req)) (Ok (Some tool)) ∈ t ∧
    Call (BkIsBanned tenant_id "tool" (bt_tool_name tool) now) (Ok false) ∈ t ∧
    Call (BkIsQuarantined tenant_id "tool" (bt_tool_name tool)) (Ok false) ∈ t ∧
    Broker.exq_action r = brokered_action tool (xq_action req) ∧
    Broker.exq_tool_name r = bt_tool_name tool ∧ Broker.exq_tool_status r = bt_status tool ∧
    if xb_mutates_state (xq_action req) then
      ∃ id, xq_approval_id req = Some id ∧
        Broker.exq_consumed_approval r = Some (id, Broker.hash_of (Broker.exq_action r)) ∧
        Call (BkConsume tenant_id id (Some (Broker.hash_of (Broker.exq_action r)))) (Ok true) ∈ t
    else Broker.exq_consumed_approval r = None.

Definition permitted (tenant_id : string) (req : ExecuteBrokerActionRequest)
    (t : list (event BrokerE)) (T : Type) (e : BrokerE T) : Prop :=
  match e with BkPost token r => cleared tenant_id req token r t | _ => True end.

(** What a success says of the calls. *)
Definition evidenced (tenant_id : string) (t : list (event BrokerE)) (resp : Response) : Prop :=
  rp_status resp = 200%Z →
  ∃ token r status body output receipt stored,
    Call (BkPost token r) (Replied status body) ∈ t ∧ (200 <= status < 300)%Z ∧
    wire_output body = Ok output ∧
    Call (BkAppendReceipt tenant_id receipt) (Ok stored) ∈ t ∧
    rct_action_hash receipt = Some (Broker.hash_of (Broker.exq_action r)) ∧
    rct_approver receipt = fst <$> Broker.exq_consumed_approval r ∧
    rct_tool receipt = Some (ba_tool (Broker.exq_action r)) ∧
    rct_action receipt = Some (ba_action (Broker.exq_action r)).

Lemma safe_retry tenant_id req receipt (Q : list (event BrokerE) → Fallible ActionReceiptRecord → Prop) n s :
  (∀ t out, s ⊆ t →
     (∀ stored, out = Ok stored → Call (BkAppendReceipt tenant_id receipt) (Ok stored) ∈ t) → Q t out) →
  safe (checked (permitted tenant_id req)) Q s
    (Gateway.retry_on_busy n (trigger (BkAppendReceipt tenant_id receipt))).
Proof.
  revert s. induction n as [|n IH]; intros s HQ; cbn; (split; [done|]); intros [v|e].
  - apply HQ; [set_solver|]. intros ? [= ->]. in_trace.
  - apply HQ; [set_solver|done].
  - apply HQ; [set_solver|]. intros ? [= ->]. in_trace.
  - destruct (Gateway.is_retryable e).
    + apply IH. intros t out Ht. apply HQ. set_solver.
    + apply HQ; [set_solver|done].
Qed.

#[local] Arguments Gateway.retry_on_busy : simpl never.

Section Checked.
Context (tenant_id : string) (req : ExecuteBrokerActionRequest).

Local Abbreviation rule := (checked (permitted tenant_id req)).

(** One call, for [rule]: permitted, then whatever is answered. *)
Ltac call x := split; [exact I|intros x].

Lemma bans_checked tool s :
  safe rule (λ t out, s ⊆ t ∧ (out = None →
      (∃ now, Call (BkIsBanned tenant_id "tool" tool now) (Ok false) ∈ t) ∧
      Call (BkIsQuarantined tenant_id "tool" tool) (Ok false) ∈ t) ∧
      (∀ resp, out = Some resp → rp_status resp ≠ 200%Z)) s
    (enforce_bans tenant_id tool).
Proof.
  unfold enforce_bans. cbn. call now. call banned. call quarantined. split; [set_solver|].
  destruct banned as [[]|], quarantined as [[]|]; (split; [|by intros ? [= <-]]); intros [=].
  split; [eexists; in_trace|in_trace].
Qed.

Lemma consume_checked a hash s :
  ba_mutates_state a = xb_mutates_state (xq_action req) →
  safe rule (λ t out, s ⊆ t ∧
      match out with
      | Ok consumed =>
          if ba_mutates_state a then
            ∃ id, xq_approval_id req = Some id ∧ consumed = Some (id, hash) ∧
              Call (BkConsume tenant_id id (Some hash)) (Ok true) ∈ t
          else consumed = None
      | Err resp => rp_status resp ≠ 200%Z
      end) s
    (consume_for tenant_id (xq_approval_id req) (ba_mutates_state a) hash).
Proof.
  intros Ha. unfold consume_for. destruct (ba_mutates_state a).
  - destruct (xq_approval_id req) as [id|]; [|done]. destruct (is_blank id); [done|]. cbn. call r.
    destruct r as [[]|]; cbn.
    + split; [set_solver|]. exists id. do 2 (split; [done|]). in_trace.
    + call r. split; [set_solver|]. by destruct r as [[]|].
    + split; [set_solver|done].
  - by destruct (bool_decide _).
Qed.

(** The receipt of the request [r]. *)
Lemma dispatch_checked tool a consumed hash s :
  hash = Broker.hash_of a →
  (∀ token r, tool_broker = Some token → Broker.exq_action r = a →
     Broker.exq_tool_name r = bt_tool_name tool → Broker.exq_tool_status r = bt_status tool →
     Broker.exq_consumed_approval r = consumed → cleared tenant_id req token r s) →
  safe rule (evidenced tenant_id) s (dispatch tenant_id tool a consumed hash).
Proof.
  intros -> Hclear. unfold dispatch. destruct tool_broker as [token|]; [|done].
  cbn. split; [by apply Hclear|]. intros posted.
  destruct posted as [|e|status body]; [done..|].
  destruct ((200 <=? status)%Z && (status <? 300)%Z) eqn:Hst.
  2:{ cbn. destruct (status =? 403)%Z, (status =? 501)%Z; done. }
  destruct (wire_output body) as [output|e] eqn:Hw; [|done]. cbn. call rid. call ts. call at_.
  apply safe_bind; [apply checked_monotone|]. apply safe_retry. intros t out Hsub Hstored.
  destruct out as [stored|e]; cbn; [|done]. intros _.
  eexists token, _, status, body, output, _, stored. split_and!.
  - apply Hsub. in_trace.
  - lia.
  - lia.
  - done.
  - by apply Hstored.
  - done.
  - done.
  - done.
  - done.
Qed.

Lemma execute_checked : safe rule (evidenced tenant_id) [] (execute_broker_action tenant_id req).
Proof.
  unfold execute_broker_action. destruct (is_blank (xq_tool_name req)); [done|].
  destruct (is_blank (xb_action (xq_action req))); [done|]. cbn [safe mbind prog_mbind prog_bind trigger].
  call r. destruct r as [[tool|]|]; [|done..].
  eapply safe_mbind; [apply checked_monotone|apply bans_checked|].
  intros t1 [resp|] (Hs1 & Hban & Hresp); [by intros ?%(Hresp _ eq_refl)|].
  destruct (Hban eq_refl) as [[now Hb] Hq].
  eapply safe_mbind; [apply checked_monotone|by apply consume_checked|].
  intros t2 [consumed|resp] [Hs2 Hc]; [|by intros ?].
  apply dispatch_checked; [done|]. intros token r Htok Ha Hn Hst Hcon. split; [done|].
  exists tool, now. rewrite Ha. split_and!; [apply Hs2, Hs1; in_trace|by apply Hs2..|done|done|done|].
  simpl in Hc. destruct (xb_mutates_state (xq_action req)); [|congruence].
  destruct Hc as (id & Hid & -> & Hin). by exists id.
Qed.

(** C8: What the gateway asks of the tool broker is authorised and recorded. For
    every behaviour of storage and network: a request is sent to the broker
    only for a tool of the caller's tenant that is neither banned nor
    quarantined, with the registered identity of the tool and not what the
    caller wrote; for a mutating action an approval of the tenant was consumed
    first, with the hash of exactly the action sent, and otherwise none is
    claimed, so the broker's own approval check accepts every request; and a
    200 means that the broker reported success and that a receipt with the
    hash, the tool and the approval was stored. *)
Theorem broker_request_authorised t resp :
  runs (execute_broker_action tenant_id req) t resp →
  (∀ token r posted t1 t2, t = t1 ++ Call (BkPost token r) posted :: t2 →
     cleared tenant_id req token r t1 ∧
     Broker.approval_gate (Broker.exq_action r) (approval_of r) = Ok tt) ∧
  evidenced tenant_id t resp.
Proof.
  intros Hr. split; [|exact (checked_runs _ _ _ _ _ _ execute_checked Hr)].
  intros token r posted t1 t2 ->. apply runs_partial in Hr.
  pose proof (checked_partial _ _ _ _ _ _ _ _ _ execute_checked Hr) as Hc. cbn in Hc.
  split; [exact Hc|]. destruct Hc as (_ & tool & now & _ & _ & _ & Ha & _ & _ & Hm).
  unfold Broker.approval_gate, approval_of. rewrite Ha in *. simpl.
  destruct (xb_mutates_state (xq_action req)); [|done].
  destruct Hm as (id & _ & -> & _). simpl. by rewrite eqb_refl.
Qed.
End Checked.
End Api.

(** ** A sample *)

Definition sample_broker_host : HostExternal := {|
  uuid_to_string _ := "uuid"; to_rfc3339 _ := "1970-01-01T00:00:00Z"; json_of_value _ := "{}";
  json_of_tool_call _ := "{}"; json_of_decision _ := "{}"; json_of_approval _ := "{}";
  json_of_tiers _ _ := "{}"; host_sha256_hex s := s; socket_ip a := a; url_parse _ := Err "no url";
  dns_resolve _ _ := None; display_callback_error _ := "blocked" |}.

Definition sample_broker_api : BrokerApiExternal := {|
  json_of_strings _ := "[]"; json_of_broker_tool _ := Canon.Null;
  wire_output s := Ok (Canon.Str s); wire_error _ := None; display_http_status _ := "" |}.

#[local] Existing Instances sample_broker_host Broker.sample_broker sample_broker_api.

Definition deploy_tool : BrokerToolRecord := {|
  bt_id := "t1"; bt_tenant_id := "acme"; bt_tool_name := "deploy"; bt_connector_type := "http";
  bt_credential_ref := "env:GITHUB_TOKEN"; bt_allowed_scopes := "[]"; bt_status := "active";
  bt_created_at := 0%Z; bt_updated_at := 0%Z |}.

(** A store with one tool and one approval; the state is whether the approval
    is still there. *)
Definition store_world : handler BrokerE bool := λ T e w,
  match e in BrokerE T return T * bool with
  | BkGetToolByName _ name => (Ok (if name == "deploy" then Some deploy_tool else None), w)
  | BkGetTool _ _ => (Ok (Some deploy_tool), w)
  | BkInsertTool _ _ _ _ _ _ => (Ok "t2", w)
  | BkSetStatus _ _ _ _ => (Ok true, w)
  | BkIsBanned _ _ _ _ => (Ok false, w)
  | BkIsQuarantined _ _ _ => (Ok false, w)
  | BkConsume _ _ _ => (Ok w, false)
  | BkStillConsumable _ _ => (Ok w, w)
  | BkPost _ _ => (Replied 200 "done", w)
  | BkAppendReceipt _ r => (Ok r, w)
  | BkNow => (0%Z, w)
  | BkUuid => (0%Z, w)
  end.

Definition deploy_request : ExecuteBrokerActionRequest := {|
  xq_tool_name := "deploy";
  xq_action := {| xb_action := "call"; xb_resource := None; xb_mutates_state := true;
                  xb_parameters := Canon.Null |};
  xq_approval_id := Some "a1" |}.

Definition deploy_run (token : option string) :=
  run store_world (execute_broker_action token "acme" deploy_request) true.

Lemma broker_request_authorised_witness :
  rp_status (deploy_run (Some "tok")).1.1 = 200%Z ∧
  evidenced "acme" (deploy_run (Some "tok")).2 (deploy_run (Some "tok")).1.1.
Proof.
  split; [vm_compute; reflexivity|].
  apply (broker_request_authorised (Some "tok") "acme" deploy_request). apply run_runs.
Defined.

(** A gateway without a broker answers 501 after it has spent the approval. *)
Example unconfigured_broker_burns_approval :
  rp_status (deploy_run None).1.1 = 501%Z ∧ (deploy_run None).1.2 = false.
Proof. split; vm_compute; reflexivity. Qed.
End BrokerApi.
