(* ===== verification/System.v ===== *)
(** * Approvals in use

    Any number of handlers at once, over one approvals table: the approval API
    of [ApprovalApi.v] (REST, gRPC, Slack), the broker route of [BrokerApi.v],
    the decision pipeline that creates approvals and the retention job.  The
    database runs the statements one after the other; the calls of different
    handlers interleave in any order, and a handler may stop anywhere.

    A statement whose answer is an error may or may not have taken effect. *)

From S2P Require Import Prelude RustString Prog Canon Models Records External Runtime Caches Bans Approvals Service Pages Gateway ApprovalApi BrokerCore Broker BrokerApi.
From stdpp Require pretty.

Module System.
Section System.
Context {X : External} {HX : HostExternal} {AX : ApprovalExternal} {W : WireExternal}
  {BX : BrokerExternal} {BA : BrokerApiExternal}.
(** The database's comparison of times, and the token of the broker. *)
Context (before : DateTime → DateTime → bool) (tool_broker : option string).

(** ** Requests *)

Inductive Request :=
| ReqConsume (tenant_id : string) (approval_id : Uuid) (claimed : option string)
| ReqApprove (tenant_id : string) (approval_id : Uuid) (addr : SocketAddr)
    (admin_key : option string) (payload : ApproveRequest)
| ReqReject (tenant_id : string) (approval_id : Uuid) (addr : SocketAddr)
    (admin_key : option string) (payload : ApproveRequest)
| ReqEdit (tenant_id : string) (approval_id : Uuid) (addr : SocketAddr)
    (admin_key : option string) (payload : EditApprovalRequest)
| ReqGrpcApprove (tenant_id approval_id approver_user_id reason : string)
| ReqSlack (signing_secret bot_token timestamp signature : option string) (body : string)
| ReqBroker (tenant_id : string) (req : ExecuteBrokerActionRequest).

Definition discard {A} (p : Approve A) : Approve unit := _ ← p; mret tt.

Definition serve (q : Request) : Approve unit :=
  match q with
  | ReqConsume t i c => discard (ApprovalApi.consume_approval t i c)
  | ReqApprove t i addr key p => discard (ApprovalApi.approve_approval t i addr key p)
  | ReqReject t i addr key p => discard (ApprovalApi.reject_approval t i addr key p)
  | ReqEdit t i addr key p => discard (ApprovalApi.edit_approval t i addr key p)
  | ReqGrpcApprove t i u re => discard (ApprovalApi.grpc_approve t i u re)
  | ReqSlack secret bot ts sig body => discard (ApprovalApi.slack_callback secret bot ts sig body)
  | ReqBroker _ _ => mret tt
  end.

(** ** The log *)

(** What happened, in order: a call of a handler with its answer, the insert of
    the decision pipeline, a run of the retention job. *)
Inductive Item :=
| OfApproval (handler : nat) (ev : event ApprovalE)
| OfBroker (handler : nat) (ev : event BrokerE)
| Created (tenant_id : string) (request : AuthorizeRequest) (params : ApprovalCreateParams)
    (approval_id : Uuid) (expires_at created_at db_time : DateTime)
| Retention (cutoff : DateTime).

Definition Log : Type := list (DateTime * Item).

Definition calls_of (h : nat) (w : Log) : list (event ApprovalE) :=
  omap (λ x, match x.2 with OfApproval h' ev => if decide (h' = h) then Some ev else None | _ => None end) w.
Definition broker_calls_of (h : nat) (w : Log) : list (event BrokerE) :=
  omap (λ x, match x.2 with OfBroker h' ev => if decide (h' = h) then Some ev else None | _ => None end) w.

(** Every handler serves the request it was started for. *)
Definition follows (pool : nat → option Request) (w : Log) : Prop :=
  ∀ h,
    (calls_of h w ≠ [] → ∃ q, pool h = Some q ∧ partial (serve q) (calls_of h w)) ∧
    (broker_calls_of h w ≠ [] → ∃ t req, pool h = Some (ReqBroker t req) ∧
       partial (BrokerApi.execute_broker_action tool_broker t req) (broker_calls_of h w)).

(** ** The table *)

Local Abbreviation rows_ := (list ApprovalRow).
Local Abbreviation entries_ := (list Approvals.Entry).

Definition ran (now : DateTime) (s : Approvals.Stmt) (ok : bool) (rows rows' : rows_) (es : entries_) : Prop :=
  es = [(now, s, ok)] ∧ Approvals.exec before now s rows = (ok, rows').
Definition idle (rows rows' : rows_) (es : entries_) : Prop := es = [] ∧ rows' = rows.

Definition stored (now : DateTime) (s : Approvals.Stmt) (r : Fallible bool) (rows rows' : rows_)
    (es : entries_) : Prop :=
  match r with
  | Ok ok => ran now s ok rows rows' es
  | Err _ => idle rows rows' es ∨ ∃ ok, ran now s ok rows rows' es
  end.

Definition looked_up {A} (r : Fallible A) (a : A) : Prop :=
  match r with Ok x => x = a | Err _ => True end.

Definition approval_step (now : DateTime) (ev : event ApprovalE) (rows rows' : rows_)
    (es : entries_) : Prop :=
  match ev with
  | Call e r =>
      match e in ApprovalE T return T → Prop with
      | ApGet t i => λ r, looked_up r (Approvals.get_approval_by_id rows t i) ∧ idle rows rows' es
      | ApConsume t i c => λ r, stored now (Approvals.Consume t i c) r rows rows' es
      | ApStillConsumable t i => λ r,
          looked_up r (Approvals.approval_is_still_consumable rows t i now) ∧ idle rows rows' es
      | ApUpdateStatus t i st u re d => λ r, stored now (Approvals.Decide t i st u re d) r rows rows' es
      | ApUpdateEdit t i u re call h => λ r, stored now (Approvals.Edit t i u re call h) r rows rows' es
      | _ => λ _, idle rows rows' es
      end r
  end.

Definition broker_step (now : DateTime) (ev : event BrokerE) (rows rows' : rows_)
    (es : entries_) : Prop :=
  match ev with
  | Call e r =>
      match e in BrokerE T return T → Prop with
      | BkConsume t i c => λ r, stored now (Approvals.Consume t i c) r rows rows' es
      | BkStillConsumable t i => λ r,
          looked_up r (Approvals.approval_is_still_consumable rows t i now) ∧ idle rows rows' es
      | _ => λ _, idle rows rows' es
      end r
  end.

Definition item_step (now : DateTime) (x : Item) (rows rows' : rows_) (es : entries_) : Prop :=
  match x with
  | OfApproval _ ev => approval_step now ev rows rows' es
  | OfBroker _ ev => broker_step now ev rows rows' es
  | Created t request params id expires_at created_at db_time =>
      ∃ ok, ran now (Approvals.Insert
        (Gateway.build_approval_record t request params id expires_at created_at) db_time) ok rows rows' es
  | Retention cutoff => ran now (Approvals.Sweep cutoff) true rows rows' es
  end.

(** The log [w] can happen, from an empty table; it leaves [rows], and the
    database ran the statements [h]. *)
Inductive system : Log → rows_ → entries_ → Prop :=
| sys_start : system [] [] []
| sys_step w rows h now x rows' es :
    system w rows h → item_step now x rows rows' es →
    system (w ++ [(now, x)]) rows' (h ++ es).

(** ** What the log says of the statements *)

Definition statement_of (x : Item) : option Approvals.Stmt :=
  match x with
  | OfApproval _ (Call e _) =>
      match e with
      | ApConsume t i c => Some (Approvals.Consume t i c)
      | ApUpdateStatus t i st u re d => Some (Approvals.Decide t i st u re d)
      | ApUpdateEdit t i u re call h => Some (Approvals.Edit t i u re call h)
      | _ => None
      end
  | OfBroker _ (Call e _) =>
      match e with BkConsume t i c => Some (Approvals.Consume t i c) | _ => None end
  | Created t request params id expires_at created_at db_time =>
      Some (Approvals.Insert
        (Gateway.build_approval_record t request params id expires_at created_at) db_time)
  | Retention cutoff => Some (Approvals.Sweep cutoff)
  end.

(** A consume that was answered with a yes. *)
Definition consumed (t i : string) (x : Item) : bool :=
  match x with
  | OfApproval _ (Call e r) =>
      match e in ApprovalE T return T → bool with
      | ApConsume t' i' _ => λ r, match r with Ok true => (t' == t) && (i' == i) | _ => false end
      | _ => λ _, false
      end r
  | OfBroker _ (Call e r) =>
      match e in BrokerE T return T → bool with
      | BkConsume t' i' _ => λ r, match r with Ok true => (t' == t) && (i' == i) | _ => false end
      | _ => λ _, false
      end r
  | _ => false
  end.

Lemma step_shape now x rows rows' es :
  item_step now x rows rows' es →
  idle rows rows' es ∨ ∃ s ok, statement_of x = Some s ∧ ran now s ok rows rows' es.
Proof.
  assert (∀ s (r : Fallible bool), stored now s r rows rows' es →
            idle rows rows' es ∨ ∃ ok, ran now s ok rows rows' es) as Hstored.
  { intros s [ok|e]; simpl; [eauto|done]. }
  destruct x as [h [T e r]|h [T e r]|t req params i ex cr db|cutoff]; simpl.
  - destruct e; simpl; try (by intros [_ ?]; left); try (by left).
    all: intros [?|[ok ?]]%Hstored; eauto.
  - destruct e; simpl; try (by intros [_ ?]; left); try (by left).
    intros [?|[ok ?]]%Hstored; eauto.
  - intros [ok ?]. eauto.
  - eauto.
Qed.

Lemma step_consumed now x rows rows' es t i :
  item_step now x rows rows' es → consumed t i x = true →
  ∃ c, statement_of x = Some (Approvals.Consume t i c) ∧
       es = [(now, Approvals.Consume t i c, true)].
Proof.
  destruct x as [h [T e r]|h [T e r]|t' req params i' ex cr db|cutoff]; simpl; [| |done..];
    destruct e; try done; destruct r as [[]|]; try done;
    intros [-> _] [Ht Hi]%andb_true_iff; apply eqb_spec_true in Ht, Hi; subst; eauto.
Qed.

Lemma system_history w rows h :
  system w rows h →
  Approvals.history before [] h rows ∧ Forall Approvals.created_pending h.
Proof.
  induction 1 as [|w rows h now x rows' es _ [IHh IHp] Hx]; [by split; [constructor|]|].
  destruct (step_shape _ _ _ _ _ Hx) as [[-> ->]|(s & ok & Hs & -> & He)].
  - by rewrite app_nil_r.
  - split; [by eapply Approvals.h_snoc|]. apply Forall_app. split; [done|]. constructor; [|done].
    destruct x as [? [? []]|? [? []]| |]; simplify_eq/=; done.
Qed.

Lemma entry_origin w rows h now s ok :
  system w rows h → (now, s, ok) ∈ h → ∃ x, (now, x) ∈ w ∧ statement_of x = Some s.
Proof.
  induction 1 as [|w rows h now' x rows' es _ IH Hx]; [by intros ?%elem_of_nil|].
  intros [Hin|Hin]%elem_of_app.
  - destruct (IH Hin) as (y & ? & ?). exists y. rewrite elem_of_app. auto.
  - destruct (step_shape _ _ _ _ _ Hx) as [[-> _]|(s' & ok' & Hs & -> & _)];
      [by apply elem_of_nil in Hin|].
    apply list_elem_of_singleton in Hin. simplify_eq. exists x. rewrite elem_of_app.
    split; [right; by apply list_elem_of_singleton|done].
Qed.

Lemma consumed_entry w rows h now x t i :
  system w rows h → (now, x) ∈ w → consumed t i x = true →
  ∃ c, statement_of x = Some (Approvals.Consume t i c) ∧ (now, Approvals.Consume t i c, true) ∈ h.
Proof.
  intros Hsys. induction Hsys as [|w rows h now' x' rows' es _ IH Hx]; [by intros ?%elem_of_nil|].
  intros [Hin|[= -> ->]%list_elem_of_singleton]%elem_of_app Hc.
  - destruct (IH Hin Hc) as (c & ? & ?). exists c. rewrite elem_of_app. auto.
  - destruct (step_consumed _ _ _ _ _ _ _ Hx Hc) as (c & ? & ->). exists c.
    rewrite elem_of_app, list_elem_of_singleton. auto.
Qed.

(** No more consumes were confirmed than took effect. *)
Lemma consumed_count w rows h t i :
  system w rows h →
  length (filter (λ y, consumed t i y.2 = true) w) ≤ Approvals.count (Approvals.consumes t i) h.
Proof.
  unfold Approvals.count. induction 1 as [|w rows h now x rows' es _ IH Hx]; [done|].
  rewrite (list.filter_app _ w), (list.filter_app _ h), !length_app. apply Nat.add_le_mono; [done|].
  destruct (consumed t i x) eqn:Hc.
  - destruct (step_consumed _ _ _ _ _ _ _ Hx Hc) as (c & _ & ->).
    rewrite list.filter_cons_True by done. rewrite list.filter_cons_True; [simpl; lia|].
    simpl. by rewrite !eqb_refl.
  - rewrite list.filter_cons_False by (simpl; congruence). simpl. lia.
Qed.

Lemma two_elements {A} (p : A → bool) l x y :
  x ∈ l → y ∈ l → x ≠ y → p x = true → p y = true → 2 ≤ length (filter (λ z, p z = true) l).
Proof.
  intros Hx Hy Hne HPx HPy. apply (submseteq_length [x; y]). apply NoDup_submseteq.
  - apply list.NoDup_cons. split; [by intros ?%list_elem_of_singleton|apply NoDup_singleton].
  - intros z. rewrite elem_of_cons, list_elem_of_singleton, list_elem_of_filter. naive_solver.
Qed.

(** An approval that was created once is consumed by one call. *)
Lemma consumed_once w rows h t i x y :
  system w rows h → Approvals.count (Approvals.creates t i) h ≤ 1 →
  x ∈ w → y ∈ w → consumed t i x.2 = true → consumed t i y.2 = true → ¬ x ≠ y.
Proof.
  intros Hsys Hone Hx Hy Hcx Hcy Hne. destruct (system_history w rows h Hsys) as [Hh _].
  destruct (Approvals.history_refines before [] h rows) as [_ Ht]; [constructor|done|].
  pose proof (Approvals.trace_uses t i _ _ _ (Ht t i)) as Huses. simpl in Huses.
  pose proof (consumed_count w rows h t i Hsys) as Hcount.
  assert (2 ≤ length (filter (λ y, consumed t i y.2 = true) w))
    by exact (two_elements (λ y, consumed t i y.2) w x y Hx Hy Hne Hcx Hcy). lia.
Qed.

(** ** Who approves *)

(** The brute-force guard let the request pass: a valid admin key, or an
    address and an approval within their limits. *)
Definition guard_passed (tenant : string) (id : Uuid) (addr : SocketAddr) (key : option string)
    (t : list (event ApprovalE)) : Prop :=
  (∃ k, key = Some k ∧ Call (ApIsActiveApiKey tenant (hash_token k)) (Ok true) ∈ t) ∨
  (Call (ApIpLimiter (socket_ip addr)) true ∈ t ∧
   Call (ApTrackerBlocked (uuid_to_string id)) false ∈ t).

(** The Slack user is an approver of the tenant. *)
Definition in_group (group : option string) (user : string) (bot : option string)
    (t : list (event ApprovalE)) : Prop :=
  match ApprovalApi.parse_slack_approver_group group with
  | ApprovalApi.AllowAll => True
  | ApprovalApi.UserAllowlist ids => user ∈ ids
  | ApprovalApi.UsergroupId g =>
      ∃ token members, bot = Some token ∧
        Call (ApUsergroupMembers token g) (Ok members) ∈ t ∧ user ∈ members
  end.

(** The callback is signed with the shared secret, fresh, about this approval,
    and from an approver of its tenant. *)
Definition slack_verified (secret bot ts sig : option string) (body tenant id : string)
    (t : list (event ApprovalE)) : Prop :=
  ∃ key stamp sg now json payload value approval uuid group,
    secret = Some key ∧ ts = Some stamp ∧ sig = Some sg ∧
    ApprovalApi.slack_timestamp_is_fresh stamp now = true ∧ Call ApNow now ∈ t ∧
    ApprovalApi.verify_slack_signature key stamp body sg = true ∧
    ApprovalApi.extract_slack_payload_field body = Some json ∧ parse_json json = Ok payload ∧
    ApprovalApi.str_field "value" (ApprovalApi.first_action payload) = Some value ∧
    split_once ":" value = Some (tenant, approval) ∧
    uuid_parse approval = Some uuid ∧ id = uuid_to_string uuid ∧
    Call (ApTenantApprovers tenant) (Ok (Some group)) ∈ t ∧
    in_group group (ApprovalApi.slack_user payload) bot t.

(** The request [q], after the calls [t], may approve [id] of [tenant]. *)
Definition approver (q : Request) (tenant id user : string) (t : list (event ApprovalE)) : Prop :=
  match q with
  | ReqApprove tenant' id' addr key p =>
      tenant' = tenant ∧ uuid_to_string id' = id ∧ user = apq_approver_user_id p ∧
      guard_passed tenant id' addr key t
  | ReqGrpcApprove tenant' approval user' _ =>
      tenant' = tenant ∧ user' = user ∧
      ∃ uuid, uuid_parse approval = Some uuid ∧ id = uuid_to_string uuid
  | ReqSlack secret bot ts sig body => slack_verified secret bot ts sig body tenant id t
  | _ => False
  end.

Definition approving (q : Request) (t : list (event ApprovalE)) (T : Type) (e : ApprovalE T) : Prop :=
  match e with
  | ApUpdateStatus tenant id status user _ _ => status = "APPROVED" → approver q tenant id user t
  | _ => True
  end.

(** A call that approves nothing. *)
Definition quiet (T : Type) (e : ApprovalE T) : Prop :=
  match e with ApUpdateStatus _ _ status _ _ _ => status ≠ "APPROVED" | _ => True end.

Lemma quiet_approving q t T (e : ApprovalE T) : quiet T e → approving q t T e.
Proof. destruct e; try done. intros Hne Heq. by destruct Hne. Qed.

Lemma tamper_quiet t a k i h d : all_calls quiet (ApprovalApi.emit_tamper_attempt_receipt t a k i h d).
Proof. unfold ApprovalApi.emit_tamper_attempt_receipt. calls; try exact I. Qed.

Lemma expired_quiet a : all_calls quiet (ApprovalApi.approval_is_expired a).
Proof. unfold ApprovalApi.approval_is_expired. calls; try exact I. Qed.

Lemma conflict_quiet t i k : all_calls quiet (ApprovalApi.conflict_response_for_failed_transition t i k).
Proof.
  unfold ApprovalApi.conflict_response_for_failed_transition, ApprovalApi.pending_but_expired.
  calls; try exact I; auto using tamper_quiet, expired_quiet.
Qed.

Lemma github_quiet a b : all_calls quiet (ApprovalApi.spawn_github_check_resolution_for_approval a b).
Proof. unfold ApprovalApi.spawn_github_check_resolution_for_approval. calls; try exact I. Qed.

Lemma guard_quiet t i addr key :
  all_calls quiet (ApprovalApi.approval_callback_rate_limit_guard t i addr key).
Proof.
  unfold ApprovalApi.approval_callback_rate_limit_guard, ApprovalApi.has_admin_bypass. calls; try exact I.
Qed.

Lemma failure_quiet st i : all_calls quiet (ApprovalApi.record_approval_attempt_failure st i).
Proof. unfold ApprovalApi.record_approval_attempt_failure. calls; try exact I. Qed.

Lemma reject_quiet t i p : all_calls quiet (ApprovalApi.reject_approval_inner t i p).
Proof.
  unfold ApprovalApi.reject_approval_inner. calls; try exact I; auto using conflict_quiet, github_quiet. done.
Qed.

Lemma edit_quiet t i p : all_calls quiet (ApprovalApi.edit_approval_inner t i p).
Proof. unfold ApprovalApi.edit_approval_inner. calls; try exact I; auto using conflict_quiet. Qed.

Lemma consume_quiet t i c : all_calls quiet (ApprovalApi.consume_approval t i c).
Proof.
  unfold ApprovalApi.consume_approval, ApprovalApi.refuse_consume. calls; try exact I; auto using tamper_quiet.
Qed.

Lemma guarded_quiet t i addr key p :
  all_calls quiet p → all_calls quiet (ApprovalApi.guarded t i addr key p).
Proof.
  intros Hp. unfold ApprovalApi.guarded. calls; try exact I; auto using guard_quiet, failure_quiet.
Qed.

Lemma in_group_mono group user bot t t' :
  t ⊆ t' → in_group group user bot t → in_group group user bot t'.
Proof.
  intros Ht. unfold in_group. destruct (ApprovalApi.parse_slack_approver_group group); try done.
  intros (token & members & ? & ? & ?). exists token, members. auto.
Qed.

Lemma approver_mono q tenant id user t t' :
  t ⊆ t' → approver q tenant id user t → approver q tenant id user t'.
Proof.
  intros Ht. destruct q; simpl; try done.
  - intros (? & ? & ? & [(k & ? & ?)|[? ?]]); split_and!; try done; [left; exists k|right]; auto.
  - intros (key & stamp & sg & now & json & payload & value & approval & uuid & group & ? & ? & ? & ? &
      ? & ? & ? & ? & ? & ? & ? & ? & ? & Hg).
    exists key, stamp, sg, now, json, payload, value, approval, uuid, group.
    split_and!; try done; [by apply Ht..|by eapply in_group_mono].
Qed.

Section Checked.
Context (q : Request).

Local Abbreviation rule := (checked (approving q)).

Lemma quiet_checked {A} (p : Approve A) s :
  all_calls quiet p → safe rule (λ t _, s ⊆ t) s p.
Proof. apply all_calls_checked. intros t T e. apply quiet_approving. Qed.

(** A quiet program, then the rest. *)
Lemma quiet_then {A B} (p : Approve A) (f : A → Approve B) (Q : list (event ApprovalE) → B → Prop) s :
  all_calls quiet p → (∀ t a, s ⊆ t → safe rule Q t (f a)) → safe rule Q s (p ≫= f).
Proof. intros Hp Hf. eapply safe_mbind; [apply checked_monotone|by apply quiet_checked|eauto]. Qed.

Lemma quiet_last {A} (p : Approve A) s : all_calls quiet p → safe rule (λ _ _, True) s p.
Proof.
  intros Hp. eapply safe_impl; [apply checked_monotone| |by apply quiet_checked]. done.
Qed.

(** One call that approves nothing. *)
Ltac call r :=
  cbn [safe mbind prog_mbind prog_bind trigger mret prog_mret]; split; [exact I|intros r].

Lemma approve_inner_checked t i p s :
  approver q t (uuid_to_string i) (apq_approver_user_id p) s →
  safe rule (λ _ _, True) s (ApprovalApi.approve_approval_inner t i p).
Proof.
  intros Happ. unfold ApprovalApi.approve_approval_inner. call r.
  destruct r as [[approval|]|]; [|done..]. destruct (negb _); [done|].
  apply quiet_then; [apply expired_quiet|]. intros t1 [] Ht1.
  { apply quiet_then; [apply tamper_quiet|]. done. }
  cbn [safe mbind prog_mbind prog_bind trigger mret prog_mret]. split.
  { intros _. eapply approver_mono; [|exact Happ]. set_solver. }
  intros [[]|e]; [|apply quiet_last, conflict_quiet|done].
  call u. call now. call r. apply quiet_then; [apply github_quiet|done].
Qed.

Lemma guard_checked t i addr key s :
  safe rule (λ t' out, s ⊆ t' ∧ (out = None → guard_passed t i addr key t')) s
    (ApprovalApi.approval_callback_rate_limit_guard t i addr key).
Proof.
  unfold ApprovalApi.approval_callback_rate_limit_guard.
  apply (safe_mbind _ (λ t' out, s ⊆ t' ∧ (out = true → ∃ k, key = Some k ∧
           Call (ApIsActiveApiKey t (hash_token k)) (Ok true) ∈ t'))); [apply checked_monotone| |].
  - unfold ApprovalApi.has_admin_bypass. destruct key as [k|]; [|by split].
    destruct (is_empty k); [by split|]. call r. split; [set_solver|].
    destruct r as [b|]; [|done]. intros ->. exists k. split; [done|]. in_trace.
  - intros t1 [] [Ht1 Hb]; [split; [done|]; intros _; left; by apply Hb|].
    call limited. destruct limited; cbn; [|split; [set_solver|done]].
    call blocked. destruct blocked; cbn; (split; [set_solver|]); [done|]. intros _. right.
    split; in_trace.
Qed.

Lemma guarded_checked t i addr key p s :
  (∀ t', guard_passed t i addr key t' → safe rule (λ _ _, True) t' p) →
  safe rule (λ _ _, True) s (ApprovalApi.guarded t i addr key p).
Proof.
  intros Hp. unfold ApprovalApi.guarded.
  eapply safe_mbind; [apply checked_monotone|apply guard_checked|].
  intros t1 [resp|] [_ Hg]; [done|]. eapply safe_mbind; [apply checked_monotone|by apply Hp, Hg|].
  intros t2 [status resp] _. apply quiet_last. calls; try exact I. apply failure_quiet.
Qed.

Lemma gate_checked group user bot s :
  safe rule (λ t' out, s ⊆ t' ∧ (out = Ok true → in_group group user bot t')) s
    (ApprovalApi.slack_user_authorized_for_approval group user bot).
Proof.
  unfold ApprovalApi.slack_user_authorized_for_approval, in_group.
  destruct (ApprovalApi.parse_slack_approver_group group) as [|ids|g] eqn:Hg; simpl.
  - done.
  - split; [done|]. intros [= (id & Hin & Heq)%existsb_exists]. apply eqb_spec_true in Heq as ->.
    by apply list_elem_of_In.
  - destruct bot as [token|]; [|by split]. call r. split; [set_solver|].
    destruct r as [members|]; [|done]. intros [= (id & Hin & Heq)%existsb_exists].
    apply eqb_spec_true in Heq as ->. exists token, members. split; [done|].
    split; [in_trace|by apply list_elem_of_In].
Qed.
End Checked.

Lemma slack_checked secret bot ts sig body :
  safe (checked (approving (ReqSlack secret bot ts sig body))) (λ _ _, True) []
    (ApprovalApi.slack_callback secret bot ts sig body).
Proof.
  unfold ApprovalApi.slack_callback. destruct secret as [key|]; [|done].
  destruct ts as [stamp|]; [|done]. cbn [safe mbind prog_mbind prog_bind trigger mret prog_mret].
  split; [exact I|]. intros now.
  destruct (ApprovalApi.slack_timestamp_is_fresh stamp now) eqn:Hfresh; [|done].
  destruct sig as [sg|]; [|done]. cbn [negb default].
  destruct (ApprovalApi.verify_slack_signature key _ body sg) eqn:Hsig; [|done].
  destruct (ApprovalApi.extract_slack_payload_field body) as [json|] eqn:Hjson; [|done].
  destruct (parse_json json) as [payload|e] eqn:Hpayload; [|done]. cbn [negb].
  unfold ApprovalApi.slack_decide.
  destruct (_ ≫= split_once ":") as [[tenant approval]|] eqn:Hv; [|done].
  apply bind_Some in Hv as (value & Hvalue & Hsplit).
  destruct (uuid_parse approval) as [uuid|] eqn:Huuid; [|done].
  cbn [safe mbind prog_mbind prog_bind trigger mret prog_mret].
  split; [exact I|]. intros [[group|]|e]; [|done..].
  eapply safe_mbind; [apply checked_monotone|apply gate_checked|].
  intros t1 [[]|e] [Ht1 Hg]; [|done..].
  assert (slack_verified (Some key) bot (Some stamp) (Some sg) body tenant (uuid_to_string uuid) t1)
    as Hok.
  { exists key, stamp, sg, now, json, payload, value, approval, uuid, group.
    split_and!; try done; [apply Ht1; in_trace..|by apply Hg]. }
  assert (∀ o t', safe (checked (approving (ReqSlack (Some key) bot (Some stamp) (Some sg) body)))
    (λ _ _, True) t' (ApprovalApi.record_approval_attempt_failure (ao_status o) uuid ≫=
                      λ _, mret (outcome_to_response o))) as Hend.
  { intros o t'. apply quiet_last. calls; try exact I. apply failure_quiet. }
  destruct (bool_decide _).
  - eapply safe_mbind; [apply checked_monotone|by apply approve_inner_checked|].
    intros t2 o _. apply Hend.
  - destruct (bool_decide _); [|done]. apply quiet_last. calls; try exact I.
    + apply reject_quiet.
    + apply failure_quiet.
Qed.

Lemma serve_checked q : safe (checked (approving q)) (λ _ _, True) [] (serve q).
Proof.
  assert (∀ A (p : Approve A), safe (checked (approving q)) (λ _ _, True) [] p →
            safe (checked (approving q)) (λ _ _, True) [] (discard p)) as Hd.
  { intros A p Hp. eapply safe_mbind; [apply checked_monotone|exact Hp|done]. }
  destruct q as [t i c|t i addr key p|t i addr key p|t i addr key p|t i u re|secret bot ts sig body|t req];
    cbn [serve]; [apply Hd..|done].
  - apply quiet_last, consume_quiet.
  - apply guarded_checked. intros t' Hg.
    eapply safe_mbind; [apply checked_monotone|by apply approve_inner_checked|done].
  - apply quiet_last, guarded_quiet. calls; try exact I. apply reject_quiet.
  - apply quiet_last, guarded_quiet. calls; try exact I. apply edit_quiet.
  - unfold ApprovalApi.grpc_approve. destruct (uuid_parse i) as [uuid|] eqn:Hu; [|done].
    eapply safe_mbind; [apply checked_monotone|apply approve_inner_checked|done]. simpl. eauto.
  - apply slack_checked.
Qed.

(** ** An approval in use *)

Context (pool : nat → option Request).

(** The handler [h] acts on the approval: it tells an SDK that the action may
    run, or it sends the action to the broker as approved.  [claimed] is the
    hash of the action, where the caller names one. *)
Definition acts_on (w : Log) (h : nat) (tenant id : string) (claimed : option string) : Prop :=
  (∃ uuid resp, pool h = Some (ReqConsume tenant uuid claimed) ∧ id = uuid_to_string uuid ∧
     runs (ApprovalApi.consume_approval tenant uuid claimed) (calls_of h w) resp ∧
     rp_status resp = 200%Z) ∨
  (∃ req token r posted hash, pool h = Some (ReqBroker tenant req) ∧
     Call (BkPost token r) posted ∈ broker_calls_of h w ∧
     Broker.exq_consumed_approval r = Some (id, hash) ∧
     claimed = Some hash ∧ hash = Broker.hash_of (Broker.exq_action r)).

Definition handler_of (x : Item) : option nat :=
  match x with OfApproval h _ | OfBroker h _ => Some h | _ => None end.

Lemma calls_of_elem h w ev : ev ∈ calls_of h w → ∃ now, (now, OfApproval h ev) ∈ w.
Proof.
  intros ([now x] & Hin & Hx)%list_elem_of_omap. simpl in Hx.
  destruct x; simplify_eq. case_decide; simplify_eq. eauto.
Qed.

Lemma broker_calls_of_elem h w ev : ev ∈ broker_calls_of h w → ∃ now, (now, OfBroker h ev) ∈ w.
Proof.
  intros ([now x] & Hin & Hx)%list_elem_of_omap. simpl in Hx.
  destruct x; simplify_eq. case_decide; simplify_eq. eauto.
Qed.

(** A consume that answers 200 was confirmed by the database. *)
Lemma consume_200 tenant uuid claimed t resp :
  runs (ApprovalApi.consume_approval tenant uuid claimed) t resp → rp_status resp = 200%Z →
  Call (ApConsume tenant (uuid_to_string uuid) claimed) (Ok true) ∈ t.
Proof.
  intros Hr Hs. unfold ApprovalApi.consume_approval, ApprovalApi.refuse_consume in Hr.
  prog_step Hr. destruct r as [[]|e]; [in_trace| |prog_run Hr; by subst].
  exfalso. cbn [negb] in Hr. prog_run Hr; by subst.
Qed.

Lemma acts_consumed w h tenant id claimed :
  follows pool w → acts_on w h tenant id claimed →
  ∃ now x, (now, x) ∈ w ∧ handler_of x = Some h ∧ consumed tenant id x = true ∧
    statement_of x = Some (Approvals.Consume tenant id claimed).
Proof.
  intros Hf [(uuid & resp & _ & -> & Hr & Hs)|(req & token & r & posted & hash & Hp & Hin & Hc & -> & ->)].
  - destruct (calls_of_elem _ _ _ (consume_200 _ _ _ _ _ Hr Hs)) as [now Hx].
    eexists now, _. split; [exact Hx|]. simpl. by rewrite !eqb_refl.
  - destruct (proj2 (Hf h)) as (t & req' & Hp' & Hpart); [by destruct (broker_calls_of h w); [inversion Hin|]|].
    rewrite Hp in Hp'. injection Hp' as <- <-. apply list_elem_of_split in Hin as (t1 & t2 & Heq).
    rewrite Heq in Hpart.
    pose proof (checked_partial _ _ _ _ _ _ _ _ _
      (BrokerApi.execute_checked tool_broker tenant req) Hpart) as (_ & tool & now & _ & _ & _ & _ & _ & _ & Hm).
    destruct (xb_mutates_state _); [|congruence]. destruct Hm as (id' & _ & Hc' & Hcons).
    rewrite Hc in Hc'. injection Hc' as <-.
    destruct (broker_calls_of_elem h w _ ltac:(rewrite Heq; apply elem_of_app; left; exact Hcons))
      as [now' Hx].
    eexists now', _. split; [exact Hx|]. simpl. by rewrite !eqb_refl.
Qed.

(** A decision to approve was made by a request that may. *)
Lemma decision_has_approver w rows hist at_ tenant id u re d ok :
  system w rows hist → follows pool w →
  (at_, Approvals.Decide tenant id "APPROVED" u re d, ok) ∈ hist →
  ∃ g q t t', pool g = Some q ∧ calls_of g w = t ++ t' ∧ approver q tenant id u t.
Proof.
  intros Hsys Hf Hin. destruct (entry_origin _ _ _ _ _ _ Hsys Hin) as (y & Hy & Hst).
  assert (∃ g r, y = OfApproval g (Call (ApUpdateStatus tenant id "APPROVED" u re d) r)) as (g & r & ->).
  { destruct y as [g [T [] r]|g [T [] r]| |]; simplify_eq/=; eauto. }
  assert (Call (ApUpdateStatus tenant id "APPROVED" u re d) r ∈ calls_of g w) as Hcall.
  { apply list_elem_of_omap. eexists. split; [exact Hy|]. simpl. by rewrite decide_True. }
  destruct (proj1 (Hf g)) as (q & Hg & Hpart); [by destruct (calls_of g w); [inversion Hcall|]|].
  apply list_elem_of_split in Hcall as (t1 & t2 & Heq). rewrite Heq in Hpart.
  pose proof (checked_partial _ _ _ _ _ _ _ _ _ (serve_checked q) Hpart eq_refl) as Happ.
  by exists g, q, t1, (Call (ApUpdateStatus tenant id "APPROVED" u re d) r :: t2).
Qed.

(** C7: an approved action runs at most once, and as it was approved. Take any
    interleaving of any number of REST, gRPC, Slack and broker handlers, of
    inserts by the decision pipeline and of runs of the retention job, with
    any errors, over one approvals table, and an approval id that was created
    once. If a handler acts on the approval (answers 200 to a consume, or
    sends a mutating action to the tool broker), no other handler does, in any
    order. Moreover the approval was set to APPROVED before, nothing changed
    it between that decision and the consume, the hash the handler claimed is
    the one the approval was bound to when it was decided, and the decision
    came from a request that may approve: a REST call that passed the
    brute-force guard, a Slack callback that is signed, fresh and from an
    approver of the tenant, or the gRPC method, which asks for nothing. *)
Theorem approved_action_runs_once w rows hist h tenant id claimed :
  system w rows hist → follows pool w →
  Approvals.count (Approvals.creates tenant id) hist ≤ 1 →
  acts_on w h tenant id claimed →
  (∀ h' claimed', acts_on w h' tenant id claimed' → h' = h) ∧
  ∃ before_ decided_at user reason at_ between consumed_at_ after bound g q t t',
    hist = before_ ++ (decided_at, Approvals.Decide tenant id "APPROVED" user reason at_, true)
             :: between ++ (consumed_at_, Approvals.Consume tenant id claimed, true) :: after ∧
    Forall (λ e, Approvals.changes tenant id e = false) between ∧
    Approvals.bound_hash tenant id before_ = Some bound ∧
    (∀ hash, claimed = Some hash → hash = bound) ∧
    pool g = Some q ∧ calls_of g w = t ++ t' ∧ approver q tenant id user t.
Proof.
  intros Hsys Hf Hone Hacts. destruct (acts_consumed _ _ _ _ _ Hf Hacts) as (now & x & Hx & Hh & Hcx & Hstmt).
  split.
  - intros h' claimed' Hacts'.
    destruct (acts_consumed _ _ _ _ _ Hf Hacts') as (now' & x' & Hx' & Hh' & Hcx' & _).
    destruct (decide (h' = h)) as [->|Hne]; [done|]. exfalso.
    apply (consumed_once w rows hist tenant id (now, x) (now', x')); try done.
    intros [= -> ->]. congruence.
  - destruct (consumed_entry _ _ _ _ _ _ _ Hsys Hx Hcx) as (c & Hc & Hin).
    rewrite Hstmt in Hc. injection Hc as <-.
    apply list_elem_of_split in Hin as (h1 & h2 & ->).
    destruct (system_history _ _ _ Hsys) as [Hh1 Hp].
    destruct (Approvals.history_refines before [] _ rows ltac:(constructor) Hh1) as [_ Ht].
    apply Forall_app in Hp as [Hp _].
    destruct (Approvals.consume_follows_approval tenant id h1 now claimed h2 _ (Ht tenant id) Hp)
      as (h0 & at_ & u & re & d & h3 & bound & -> & Hq & Hb & Hclaim).
    destruct (decision_has_approver _ _ _ at_ tenant id u re d true Hsys Hf) as (g & q & t & t' & Hg & Ht' & Happ).
    { rewrite !elem_of_app, elem_of_cons. auto. }
    exists h0, at_, u, re, d, h3, now, h2, bound, g, q, t, t'. rewrite <- app_assoc. by split_and!.
Qed.

(** ** One handler after the other *)

(** A database in memory and collaborators that always answer: every statement
    runs at the time [now]. *)
Definition in_memory (now : DateTime) : handler ApprovalE rows_ := λ T e rows,
  match e in ApprovalE T return T * rows_ with
  | ApGet t i => (Ok (Approvals.get_approval_by_id rows t i), rows)
  | ApConsume t i c =>
      let '(ok, rows') := Approvals.exec before now (Approvals.Consume t i c) rows in (Ok ok, rows')
  | ApStillConsumable t i => (Ok (Approvals.approval_is_still_consumable rows t i now), rows)
  | ApUpdateStatus t i st u re d =>
      let '(ok, rows') := Approvals.exec before now (Approvals.Decide t i st u re d) rows in
      (Ok ok, rows')
  | ApUpdateEdit t i u re call h =>
      let '(ok, rows') := Approvals.exec before now (Approvals.Edit t i u re call h) rows in
      (Ok ok, rows')
  | ApAppendReceipt _ r => (Ok r, rows)
  | ApInsertAudit _ => (Ok tt, rows)
  | ApIsActiveApiKey _ _ => (Ok false, rows)
  | ApTenantApprovers _ => (Ok None, rows)
  | ApUsergroupMembers _ _ => (Err "offline", rows)
  | ApIpLimiter _ => (true, rows)
  | ApTrackerBlocked _ => (false, rows)
  | ApTrackerFailure _ => (tt, rows)
  | ApEmit _ => (tt, rows)
  | ApMetric _ => (tt, rows)
  | ApChecksEnabled => (false, rows)
  | ApCheckResolution _ _ _ => (tt, rows)
  | ApNow => (now, rows)
  | ApUuid => (0%Z, rows)
  end.

Definition entries_of (now : DateTime) (ev : event ApprovalE) : entries_ :=
  match ev with
  | Call e r =>
      match e in ApprovalE T return T → entries_ with
      | ApConsume t i c => λ r, match r with Ok ok => [(now, Approvals.Consume t i c, ok)] | Err _ => [] end
      | ApUpdateStatus t i st u re d => λ r,
          match r with Ok ok => [(now, Approvals.Decide t i st u re d, ok)] | Err _ => [] end
      | ApUpdateEdit t i u re call h => λ r,
          match r with Ok ok => [(now, Approvals.Edit t i u re call h, ok)] | Err _ => [] end
      | _ => λ _, []
      end r
  end.

Definition logged (now : DateTime) (h : nat) (t : list (event ApprovalE)) : Log :=
  map (λ ev, (now, OfApproval h ev)) t.

Lemma in_memory_step now T (e : ApprovalE T) rows :
  approval_step now (Call e (in_memory now T e rows).1) rows (in_memory now T e rows).2
    (entries_of now (Call e (in_memory now T e rows).1)).
Proof.
  destruct e; cbn [in_memory]; try (by split); try (by split; [|split]);
    destruct (Approvals.exec before now _ rows) as [ok rows'] eqn:He; by split.
Qed.

(** A handler that runs alone is a part of a log. *)
Lemma alone_in_system now h {A} (p : Approve A) w rows hist :
  system w rows hist →
  system (w ++ logged now h (run (in_memory now) p rows).2) (run (in_memory now) p rows).1.2
    (hist ++ concat (map (entries_of now) (run (in_memory now) p rows).2)).
Proof.
  revert w rows hist. induction p as [x|T e k IH]; intros w rows hist Hsys; simpl; [by rewrite !app_nil_r|].
  pose proof (in_memory_step now T e rows) as Hstep.
  destruct (in_memory now T e rows) as [r rows1]. simpl in Hstep.
  specialize (IH r _ _ _ (sys_step _ _ _ now (OfApproval h (Call e r)) _ _ Hsys Hstep)).
  destruct (run (in_memory now) (k r) rows1) as [[a rows2] t]. simpl in *.
  by rewrite <- !app_assoc in IH.
Qed.
End System.

(** ** A session *)

Definition session_host : HostExternal := {|
  uuid_to_string i := pretty.pretty i; to_rfc3339 _ := "1970-01-01T00:00:00Z"; json_of_value _ := "{}";
  json_of_tool_call _ := "{}"; json_of_decision _ := "{}"; json_of_approval _ := "{}";
  json_of_tiers _ _ := "{}"; host_sha256_hex s := s; socket_ip a := a; url_parse _ := Err "no url";
  dns_resolve _ _ := None; display_callback_error _ := "blocked" |}.

Definition session_approval : ApprovalExternal := {|
  parse_tool_call _ := None; parse_json _ := Err "no json"; hash_token s := s;
  from_timestamp z := Some (z * 1000000000)%Z |}.

Definition session_broker : BrokerApiExternal := {|
  json_of_strings _ := "[]"; json_of_broker_tool _ := Canon.Null; wire_output _ := Ok Canon.Null;
  wire_error _ := None; display_http_status z := pretty.pretty z |}.

#[local] Existing Instances sample_external session_host session_approval sample_wire
  Broker.sample_broker session_broker.

Definition session_request : AuthorizeRequest := {|
  rq_request_id := None; rq_agent := {| actx_id := "agent-1"; actx_environment := "production" |};
  rq_user := None;
  rq_tool_call := {| tc_tool := "github"; tc_action := "merge"; tc_resource := None;
                     tc_mutates_state := true; tc_parameters := Canon.Null |};
  rq_context := {| dctx_source_trust := "trusted_internal_signed";
                   dctx_contains_sensitive_data := false |};
  rq_trace := None; rq_callback := None; rq_nonce := None; rq_timestamp := None;
  rq_dry_run := None |}.

Definition session_params : ApprovalCreateParams := {|
  acp_decision_id := 5%Z; acp_action_hash := "h0"; acp_approver_group := None;
  acp_callback_url := None; acp_callback_secret := None; acp_approval_ttl_secs := 60%Z |}.

(** An approver and two executors. *)
Definition session_pool (h : nat) : option Request :=
  match h with
  | 0 => Some (ReqApprove "acme" 7%Z "10.0.0.1" None
                 {| apq_approver_user_id := "alice"; apq_reason := None |})
  | 1 | 2 => Some (ReqConsume "acme" 7%Z (Some "h0"))
  | _ => None
  end%nat.

Definition session_run (now : DateTime) (h : nat) (rows : list ApprovalRow) :=
  match session_pool h with
  | Some q => run (in_memory Z.ltb now) (serve q) rows
  | None => (tt, rows, [])
  end.

Definition session_created : Item := Created "acme" session_request session_params 7%Z 1000%Z 1%Z 1%Z.
Definition rows0 : list ApprovalRow :=
  (Approvals.exec Z.ltb 1%Z (Approvals.Insert
     (Gateway.build_approval_record "acme" session_request session_params 7%Z 1000%Z 1%Z) 1%Z) []).2.
Definition rows1 : list ApprovalRow := (session_run 2%Z 0 rows0).1.2.
Definition rows2 : list ApprovalRow := (session_run 3%Z 1 rows1).1.2.

Definition session_log : Log :=
  ([(1%Z, session_created)] ++ logged 2%Z 0 (session_run 2%Z 0 rows0).2 ++
   logged 3%Z 1 (session_run 3%Z 1 rows1).2) ++ logged 4%Z 2 (session_run 4%Z 2 rows2).2.

Lemma session_system : ∃ rows hist, system Z.ltb session_log rows hist ∧
  Approvals.count (Approvals.creates "acme" "7") hist ≤ 1.
Proof.
  assert (system Z.ltb [(1%Z, session_created)] rows0 [(1%Z, Approvals.Insert
     (Gateway.build_approval_record "acme" session_request session_params 7%Z 1000%Z 1%Z) 1%Z, true)]) as H.
  { apply (sys_step Z.ltb [] [] [] 1%Z session_created _ [_]); [constructor|].
    exists true. split; [reflexivity|]. vm_compute. reflexivity. }
  eapply (alone_in_system Z.ltb 2%Z 0 (serve (ReqApprove "acme" 7%Z "10.0.0.1" None _))) in H.
  eapply (alone_in_system Z.ltb 3%Z 1 (serve (ReqConsume "acme" 7%Z (Some "h0")))) in H.
  eapply (alone_in_system Z.ltb 4%Z 2 (serve (ReqConsume "acme" 7%Z (Some "h0")))) in H.
  eexists _, _. split; [unfold session_log; rewrite (app_assoc [_]); exact H|]. vm_compute. lia.
Qed.

Lemma session_follows : follows None session_pool session_log.
Proof.
  intros h. split.
  - destruct h as [|[|[|h]]]; intros Hne.
    + eexists. split; [reflexivity|].
      assert (calls_of 0 session_log = (session_run 2%Z 0 rows0).2) as -> by (vm_compute; reflexivity).
      eapply runs_partial, run_runs.
    + eexists. split; [reflexivity|].
      assert (calls_of 1 session_log = (session_run 3%Z 1 rows1).2) as -> by (vm_compute; reflexivity).
      eapply runs_partial, run_runs.
    + eexists. split; [reflexivity|].
      assert (calls_of 2 session_log = (session_run 4%Z 2 rows2).2) as -> by (vm_compute; reflexivity).
      eapply runs_partial, run_runs.
    + destruct Hne. vm_compute. reflexivity.
  - intros []. vm_compute. reflexivity.
Qed.

Lemma session_acts : acts_on session_pool session_log 1 "acme" "7" (Some "h0").
Proof.
  left. exists 7%Z.
  exists (run (in_memory Z.ltb 3%Z) (ApprovalApi.consume_approval "acme" 7%Z (Some "h0")) rows1).1.1.
  split_and!; [reflexivity|vm_compute; reflexivity| |vm_compute; reflexivity].
  assert (calls_of 1 session_log =
          (run (in_memory Z.ltb 3%Z) (ApprovalApi.consume_approval "acme" 7%Z (Some "h0")) rows1).2)
    as -> by (vm_compute; reflexivity).
  apply run_runs.
Qed.

(** In the session the first executor acts and the second does not. *)
Lemma approved_action_runs_once_witness :
  acts_on session_pool session_log 1 "acme" "7" (Some "h0") ∧
  ¬ acts_on session_pool session_log 2 "acme" "7" (Some "h0").
Proof.
  split; [exact session_acts|]. intros H2.
  destruct session_system as (rows & hist & Hsys & Hone).
  assert (2%nat = 1%nat); [|done].
  apply (approved_action_runs_once Z.ltb None session_pool session_log rows hist 1 "acme" "7"
           (Some "h0") Hsys session_follows Hone session_acts) with (Some "h0").
  exact H2.
Defined.
End System.
