(* ===== verification/EgressApi.v ===== *)
(** * The egress check API

    Models [check_egress], [block_egress] and [unblock_egress] of
    [src/src/src/routes/egress.rs] as programs over the storage operations
    they call; [list_egress_events] only lists.  The caller supplies the rules
    in the request; bans and quarantines are looked up by the handler. *)

From S2P Require Import Prelude RustString Prog Models Records Runtime Net Ssrf Egress Bans Gateway.

Record EgressCheckRequest (IpNet : Type) := {
  eq_agent_id : option string;
  eq_run_id : option string;
  eq_sandbox_id : option string;
  eq_destination : string;
  eq_tenant_rules : list (EgressRule IpNet);
  eq_run_rules : list (EgressRule IpNet);
  eq_deny_by_default : bool;
  eq_risk_level : string;
  eq_source_trust : string }.
Arguments eq_agent_id {IpNet} _.
Arguments eq_run_id {IpNet} _.
Arguments eq_sandbox_id {IpNet} _.
Arguments eq_destination {IpNet} _.
Arguments eq_tenant_rules {IpNet} _.
Arguments eq_run_rules {IpNet} _.
Arguments eq_deny_by_default {IpNet} _.
Arguments eq_risk_level {IpNet} _.
Arguments eq_source_trust {IpNet} _.

Record EgressCheckResponse := {
  ep_decision : string;
  ep_reason : string;
  ep_event_id : string;
  ep_receipt : option ActionReceiptRecord }.

Record RuntimeEventRecord := {
  rte_id : string;
  rte_tenant_id : string;
  rte_event_id : string;
  rte_event_type : string;
  rte_severity : option string;
  rte_agent_id : option string;
  rte_run_id : option string;
  rte_sandbox_id : option string;
  rte_trace_id : option string;
  rte_parent_event_id : option string;
  rte_source_component : string;
  rte_source_trust : option string;
  rte_decision : option string;
  rte_reason : option string;
  rte_action_hash : option string;
  rte_prompt_hash : option string;
  rte_request_hash : option string;
  rte_response_hash : option string;
  rte_receipt_id : option string;
  rte_receipt_hash : option string;
  rte_prev_receipt_hash : option string;
  rte_canonical_version : option string;
  rte_redaction_status : option string;
  rte_schema_version : Z;
  rte_observed_at : DateTime;
  rte_received_at : DateTime }.

Record BlockEgressRequest := {
  bq_destination : string;
  bq_actor : string;
  bq_reason : option string;
  bq_expires_at : option DateTime }.

Record UnblockEgressRequest := { uq_ban_id : string; uq_revoked_by : string }.

(** The storage operations and clocks the handlers use. *)
Inductive EgressE : Type → Type :=
| EgIsBanned (tenant_id kind value : string) (now : DateTime) : EgressE (Fallible bool)
| EgIsQuarantined (tenant_id kind value : string) : EgressE (Fallible bool)
| EgAppendReceipt (tenant_id : string) (r : ActionReceiptRecord) :
    EgressE (Fallible ActionReceiptRecord)
| EgInsertRuntimeEvent (r : RuntimeEventRecord) : EgressE (Fallible unit)
| EgInsertBan (r : AgentBanRecord) : EgressE (Fallible unit)
| EgGetBan (tenant_id id : string) : EgressE (Fallible (option AgentBanRecord))
| EgRevokeBan (tenant_id id revoked_by : string) (now : DateTime) : EgressE (Fallible bool)
| EgUtcNow : EgressE DateTime
| EgFreshUuid : EgressE Uuid.

(** The HTTP answers: a body with its status, or [StatusError]. *)
Inductive Answer (A : Type) :=
| Answered (status : Z) (body : A)
| Refused (status : Z) (message : string).
Arguments Answered {A} status body.
Arguments Refused {A} status message.

Module EgressApi.
Section Handlers.
Context {IpNet : Type} (contains : IpNet → IpAddr → bool) `{HX : HostExternal}.

Definition ban_target_type (destination : string) : string :=
  match Net.ip_parse destination with Some _ => "destination_ip" | None => "destination_domain" end.

(** [if let Some(x) = id { if is_quarantined(..).await? { return Ok(true) } }] *)
Definition quarantined_as (tenant_id kind : string) (id : option string) :
    prog EgressE (Fallible bool) :=
  match id with
  | Some x => trigger (EgIsQuarantined tenant_id kind x)
  | None => mret (Ok false)
  end.

Definition any_target_quarantined (tenant_id : string) (req : EgressCheckRequest IpNet) :
    prog EgressE (Fallible bool) :=
  q ←? quarantined_as tenant_id "run" (eq_run_id req);
  if (q : bool) then mret (Ok true) else
  q ←? quarantined_as tenant_id "sandbox" (eq_sandbox_id req);
  if (q : bool) then mret (Ok true) else
  quarantined_as tenant_id "agent" (eq_agent_id req).

Definition destination_of (destination : string) : EgressDestination :=
  match Net.ip_parse destination with Some ip => Ip ip | None => Domain destination end.

Definition decide_egress (req : EgressCheckRequest IpNet) (banned quarantined : bool) :
    EgressDecision * string :=
  if banned then (EgressDeny, "destination is banned")
  else if quarantined then (EgressDeny, "run/sandbox/agent is quarantined")
  else
    match Egress.check contains
            (Egress.policy_new (eq_deny_by_default req) (eq_tenant_rules req) (eq_run_rules req))
            (destination_of (eq_destination req)) with
    | EgressAllow => (EgressAllow, "allowed by rule")
    | EgressDeny => (EgressDeny, "denied by rule")
    end.

Definition decision_str (d : EgressDecision) : string :=
  match d with EgressAllow => "allow" | EgressDeny => "deny" end.

Definition needs_receipt (d : EgressDecision) (risk_level : string) : bool :=
  bool_decide (d = EgressDeny) || (risk_level == "high") || (risk_level == "critical").

Definition egress_receipt (tenant_id : string) (req : EgressCheckRequest IpNet)
    (d : EgressDecision) (id : Uuid) (now : DateTime) : ActionReceiptRecord :=
  {| rct_id := uuid_to_string id; rct_tenant_id := tenant_id; rct_decision_id := None;
     rct_ts := to_rfc3339 now; rct_agent_id := eq_agent_id req; rct_user_id := None;
     rct_run_id := eq_run_id req; rct_trace_id := None; rct_tool := Some "egress";
     rct_action := Some "egress_check"; rct_resource := Some (eq_destination req);
     rct_source_trust := eq_source_trust req; rct_decision := decision_str d;
     rct_approver := None; rct_action_hash := None; rct_prev_receipt_hash := "";
     rct_receipt_hash := ""; rct_canon_version := Gateway.CANON_VERSION; rct_signature := None;
     rct_signer_public_key := None; rct_signer_key_id := None; rct_created_at := now |}.

Definition egress_event (tenant_id : string) (req : EgressCheckRequest IpNet)
    (d : EgressDecision) (reason event_id : string) (id : Uuid)
    (receipt : option ActionReceiptRecord) (now : DateTime) : RuntimeEventRecord :=
  {| rte_id := uuid_to_string id; rte_tenant_id := tenant_id; rte_event_id := event_id;
     rte_event_type := match d with EgressDeny => "egress_blocked" | EgressAllow => "egress_allowed" end;
     rte_severity := Some match d with EgressDeny => "high" | EgressAllow => "low" end;
     rte_agent_id := eq_agent_id req; rte_run_id := eq_run_id req;
     rte_sandbox_id := eq_sandbox_id req; rte_trace_id := None; rte_parent_event_id := None;
     rte_source_component := "egress"; rte_source_trust := Some (eq_source_trust req);
     rte_decision := Some (decision_str d); rte_reason := Some reason; rte_action_hash := None;
     rte_prompt_hash := None; rte_request_hash := None; rte_response_hash := None;
     rte_receipt_id := rct_id <$> receipt; rte_receipt_hash := rct_receipt_hash <$> receipt;
     rte_prev_receipt_hash := None; rte_canonical_version := None; rte_redaction_status := None;
     rte_schema_version := 1; rte_observed_at := now; rte_received_at := now |}.

(** The append of the receipt; a failure is logged and leaves none. *)
Definition append_receipt (tenant_id : string) (req : EgressCheckRequest IpNet)
    (d : EgressDecision) (now : DateTime) : prog EgressE (option ActionReceiptRecord) :=
  if needs_receipt d (eq_risk_level req) then
    id ← trigger EgFreshUuid;
    r ← trigger (EgAppendReceipt tenant_id (egress_receipt tenant_id req d id now));
    mret (match r with Ok rec => Some rec | Err _ => None end)
  else mret None.

(** From the decision to the answer. *)
Definition record_egress (tenant_id : string) (req : EgressCheckRequest IpNet)
    (d : EgressDecision) (reason : string) (now : DateTime) :
    prog EgressE (Answer EgressCheckResponse) :=
  receipt ← append_receipt tenant_id req d now;
  event_id ← trigger EgFreshUuid;
  id ← trigger EgFreshUuid;
  _ ← trigger (EgInsertRuntimeEvent
                (egress_event tenant_id req d reason (uuid_to_string event_id) id receipt now));
  mret (Answered 200 {| ep_decision := decision_str d; ep_reason := reason;
                        ep_event_id := uuid_to_string event_id; ep_receipt := receipt |}).

Definition check_egress (tenant_id : string) (req : EgressCheckRequest IpNet) :
    prog EgressE (Answer EgressCheckResponse) :=
  now ← trigger EgUtcNow;
  banned ← trigger (EgIsBanned tenant_id (ban_target_type (eq_destination req))
                      (eq_destination req) now);
  match banned with
  | Err _ => mret (Refused 500 "Database error")
  | Ok banned =>
      quarantined ← (if (banned : bool) then mret (Ok false)
                     else any_target_quarantined tenant_id req);
      match quarantined with
      | Err _ => mret (Refused 500 "Database error")
      | Ok quarantined =>
          let '(d, reason) := decide_egress req banned quarantined in
          record_egress tenant_id req d reason now
      end
  end.

Definition block_record (tenant_id : string) (req : BlockEgressRequest) (id : Uuid)
    (now : DateTime) : AgentBanRecord :=
  {| abr_id := uuid_to_string id; abr_tenant_id := tenant_id;
     abr_target_type := ban_target_type (bq_destination req);
     abr_target_value := bq_destination req; abr_scope := "tenant"; abr_reason := bq_reason req;
     abr_actor := bq_actor req; abr_status := "active"; abr_created_at := now;
     abr_expires_at := bq_expires_at req; abr_revoked_at := None; abr_revoked_by := None |}.

Definition block_egress (tenant_id : string) (req : BlockEgressRequest) :
    prog EgressE (Answer AgentBanRecord) :=
  now ← trigger EgUtcNow;
  id ← trigger EgFreshUuid;
  let record := block_record tenant_id req id now in
  r ← trigger (EgInsertBan record);
  match r with
  | Ok _ => mret (Answered 201 record)
  | Err _ => mret (Refused 500 "Database error")
  end.

Definition unblock_egress (tenant_id : string) (req : UnblockEgressRequest) :
    prog EgressE (Answer AgentBanRecord) :=
  existing ← trigger (EgGetBan tenant_id (uq_ban_id req));
  match existing with
  | Err _ => mret (Refused 500 "Database error")
  | Ok None => mret (Refused 404 "ban not found")
  | Ok (Some existing) =>
      if abr_status existing == "revoked" then mret (Answered 200 existing) else
      now ← trigger EgUtcNow;
      r ← trigger (EgRevokeBan tenant_id (uq_ban_id req) (uq_revoked_by req) now);
      match r with
      | Err _ => mret (Refused 500 "Database error")
      | Ok _ =>
          again ← trigger (EgGetBan tenant_id (uq_ban_id req));
          match again with
          | Ok (Some rec) => mret (Answered 200 rec)
          | Ok None => mret (Refused 404 "ban not found")
          | Err _ => mret (Refused 500 "Database error")
          end
      end
  end.

(** ** What a run establishes *)

(** The targets of the request that a quarantine can freeze. *)
Definition targets (req : EgressCheckRequest IpNet) : list (string * option string) :=
  [("run", eq_run_id req); ("sandbox", eq_sandbox_id req); ("agent", eq_agent_id req)].

Lemma quarantined_as_false tenant kind id t :
  runs (quarantined_as tenant kind (Some id)) t (Ok false) →
  Call (EgIsQuarantined tenant kind id) (Ok false) ∈ t.
Proof. intros H. apply runs_trigger in H as ->. by left. Qed.

Lemma any_target_quarantined_false tenant req t :
  runs (any_target_quarantined tenant req) t (Ok false) →
  ∀ kind id, (kind, Some id) ∈ targets req →
    Call (EgIsQuarantined tenant kind id) (Ok false) ∈ t.
Proof.
  unfold any_target_quarantined.
  intros [(t1 & q1 & t' & -> & H1 & H)|(e & [=] & _)]%runs_try_bind.
  destruct q1; [by destruct H as [_ [=]]|].
  apply runs_try_bind in H as [(t2 & q2 & t3 & -> & H2 & H3)|(e & [=] & _)].
  destruct q2; [by destruct H3 as [_ [=]]|].
  unfold targets. intros kind id Hin.
  rewrite !elem_of_app. repeat setoid_rewrite elem_of_cons in Hin.
  destruct Hin as [[= -> Hid]|[[= -> Hid]|[[= -> Hid]|[]%elem_of_nil]]];
    rewrite <- Hid in *; eauto using quarantined_as_false.
Qed.

(** How a receipt got, or did not get, into the answer. *)
Definition receipt_explained (tenant : string) (req : EgressCheckRequest IpNet)
    (d : EgressDecision) (now : DateTime) (receipt : option ActionReceiptRecord)
    (t : list (event EgressE)) : Prop :=
  match receipt with
  | Some rec => needs_receipt d (eq_risk_level req) = true ∧
      ∃ id, Call (EgAppendReceipt tenant (egress_receipt tenant req d id now)) (Ok rec) ∈ t
  | None => needs_receipt d (eq_risk_level req) = false ∨
      ∃ id e, Call (EgAppendReceipt tenant (egress_receipt tenant req d id now)) (Err e) ∈ t
  end.

Lemma append_receipt_run tenant req d now t receipt :
  runs (append_receipt tenant req d now) t receipt →
  receipt_explained tenant req d now receipt t.
Proof.
  unfold append_receipt, receipt_explained. intros H. destruct (needs_receipt _ _).
  - prog_run H. subst. destruct r0; [split; [done|]|right]; do 2 (try eexists); in_trace.
  - prog_run H. subst. by left.
Qed.

Lemma record_egress_run tenant req d reason now t status resp :
  runs (record_egress tenant req d reason now) t (Answered status resp) →
  status = 200%Z ∧ ep_decision resp = decision_str d ∧ ep_reason resp = reason ∧
  receipt_explained tenant req d now (ep_receipt resp) t ∧
  ∃ id r, Call (EgInsertRuntimeEvent
                 (egress_event tenant req d reason (ep_event_id resp) id (ep_receipt resp) now)) r ∈ t.
Proof.
  unfold record_egress. intros H. prog_step H.
  apply append_receipt_run in H0. prog_run H. injection H as -> ->. simpl.
  repeat split; [|do 2 eexists; in_trace].
  unfold receipt_explained in *. destruct a; [|destruct H0 as [?|(id & e & Hin)]; [by left|right]].
  - destruct H0 as [? (id & Hin)]. split; [done|]. exists id. apply elem_of_app. by left.
  - exists id, e. apply elem_of_app. by left.
Qed.

Lemma decide_egress_allow req banned quarantined reason :
  decide_egress req banned quarantined = (EgressAllow, reason) →
  banned = false ∧ quarantined = false ∧
  ¬ Egress.ruled contains Deny (eq_tenant_rules req ++ eq_run_rules req)
      (destination_of (eq_destination req)) ∧
  (eq_deny_by_default req = true →
   Egress.ruled contains Allow (eq_tenant_rules req ++ eq_run_rules req)
     (destination_of (eq_destination req))).
Proof.
  unfold decide_egress. destruct banned, quarantined; try done.
  destruct (Egress.check _ _ _) eqn:Hc; [|done]. intros _. split; [done|]. split; [done|].
  by apply Egress.check_allow.
Qed.

(** What an answered check has looked up, decided and recorded. *)
Lemma check_egress_run tenant req t status resp :
  runs (check_egress tenant req) t (Answered status resp) →
  ∃ d now, ep_decision resp = decision_str d ∧
    (d = EgressAllow →
       Call (EgIsBanned tenant (ban_target_type (eq_destination req)) (eq_destination req) now)
         (Ok false) ∈ t ∧
       (∀ kind id, (kind, Some id) ∈ targets req →
          Call (EgIsQuarantined tenant kind id) (Ok false) ∈ t) ∧
       ¬ Egress.ruled contains Deny (eq_tenant_rules req ++ eq_run_rules req)
           (destination_of (eq_destination req)) ∧
       (eq_deny_by_default req = true →
        Egress.ruled contains Allow (eq_tenant_rules req ++ eq_run_rules req)
          (destination_of (eq_destination req)))) ∧
    receipt_explained tenant req d now (ep_receipt resp) t ∧
    ∃ id r, Call (EgInsertRuntimeEvent
      (egress_event tenant req d (ep_reason resp) (ep_event_id resp) id (ep_receipt resp) now)) r ∈ t.
Proof.
  unfold check_egress. intros H. do 2 prog_step H. rename r into now.
  destruct r0 as [banned|e]; [|by destruct H as [_ [=]]].
  prog_step H. destruct a as [quarantined|e]; [|by destruct H as [_ [=]]].
  destruct (decide_egress req banned quarantined) as [d reason] eqn:Hd.
  apply record_egress_run in H as (-> & Hdec & Hre & Hrec & id & r & Hev).
  exists d, now. split; [done|]. subst reason.
  assert (∀ ev, ev ∈ t1 → ev ∈ Call EgUtcNow now ::
    Call (EgIsBanned tenant (ban_target_type (eq_destination req)) (eq_destination req) now)
      (Ok banned) :: t0 ++ t1) as Hin.
  { intros ev Hev'. do 2 right. apply elem_of_app. by right. }
  split; [|split; [|eauto]].
  - intros ->. apply decide_egress_allow in Hd as (-> & -> & Hno & Hyes).
    split; [in_trace|]. split; [|done]. intros kind id' Ht.
    do 2 right. apply elem_of_app. left. by eapply any_target_quarantined_false.
  - unfold receipt_explained in *. destruct (ep_receipt resp); naive_solver.
Qed.

(** An egress check that answers [allow] has found no ban on the
    destination and no quarantine on the run, the sandbox or the agent, no rule
    that denies the destination and, under a policy that denies by default, a
    rule that allows it. Every answer has a runtime event inserted for it; a
    receipt is appended for every [deny] and for an [allow] of high or critical
    risk, and is missing from such an answer only when the append failed, which
    does not change the decision. *)
Theorem egress_answer_checked_and_evidenced tenant req t status resp :
  runs (check_egress tenant req) t (Answered status resp) →
  ∃ d now, ep_decision resp = decision_str d ∧
    (d = EgressAllow →
       Call (EgIsBanned tenant (ban_target_type (eq_destination req)) (eq_destination req) now)
         (Ok false) ∈ t ∧
       (∀ kind id, (kind, Some id) ∈ targets req →
          Call (EgIsQuarantined tenant kind id) (Ok false) ∈ t) ∧
       ¬ Egress.ruled contains Deny (eq_tenant_rules req ++ eq_run_rules req)
           (destination_of (eq_destination req)) ∧
       (eq_deny_by_default req = true →
        Egress.ruled contains Allow (eq_tenant_rules req ++ eq_run_rules req)
          (destination_of (eq_destination req)))) ∧
    receipt_explained tenant req d now (ep_receipt resp) t ∧
    ∃ id r, Call (EgInsertRuntimeEvent
      (egress_event tenant req d (ep_reason resp) (ep_event_id resp) id (ep_receipt resp) now)) r ∈ t.
Proof. apply check_egress_run. Qed.
End Handlers.
End EgressApi.

(** ** A gateway over the stored tables

    The storage operations of the handlers on the rows of [Bans], with a clock
    that stands still and a counter for identifiers.  A receipt and an event
    are stored as they come. *)

Record EgressDb := {
  db_bans : list AgentBanRecord;
  db_quarantines : list QuarantineRecord;
  db_receipts : list ActionReceiptRecord;
  db_events : list RuntimeEventRecord;
  db_now : DateTime;
  db_next : Uuid }.

Definition set_bans (w : EgressDb) (rows : list AgentBanRecord) : EgressDb :=
  {| db_bans := rows; db_quarantines := db_quarantines w; db_receipts := db_receipts w;
     db_events := db_events w; db_now := db_now w; db_next := db_next w |}.

Definition egress_db : handler EgressE EgressDb := λ T e w,
  match e in EgressE T return T * EgressDb with
  | EgIsBanned tenant kind value now => (Ok (Bans.is_banned (db_bans w) tenant kind value now), w)
  | EgIsQuarantined tenant kind value =>
      (Ok (Quarantine.is_quarantined (db_quarantines w) tenant kind value), w)
  | EgAppendReceipt _ r =>
      (Ok r, {| db_bans := db_bans w; db_quarantines := db_quarantines w;
                db_receipts := db_receipts w ++ [r]; db_events := db_events w;
                db_now := db_now w; db_next := db_next w |})
  | EgInsertRuntimeEvent r =>
      (Ok tt, {| db_bans := db_bans w; db_quarantines := db_quarantines w;
                 db_receipts := db_receipts w; db_events := db_events w ++ [r];
                 db_now := db_now w; db_next := db_next w |})
  | EgInsertBan r =>
      match Bans.insert_ban (db_bans w) r with
      | Some rows => (Ok tt, set_bans w rows)
      | None => (Err (Database (DatabaseError (Some "1555") "UNIQUE constraint failed")), w)
      end
  | EgGetBan tenant id => (Ok (Bans.get_ban (db_bans w) tenant id), w)
  | EgRevokeBan tenant id by_ now =>
      let '(b, rows) := Bans.revoke_ban (db_bans w) tenant id by_ now in (Ok b, set_bans w rows)
  | EgUtcNow => (db_now w, w)
  | EgFreshUuid =>
      (db_next w, {| db_bans := db_bans w; db_quarantines := db_quarantines w;
                     db_receipts := db_receipts w; db_events := db_events w;
                     db_now := db_now w; db_next := (db_next w + 1)%Z |})
  end.

(** ** On a concrete host *)

Definition plain_host : HostExternal := {|
  uuid_to_string u := if (u =? 0)%Z then "id-0" else "id-n";
  to_rfc3339 _ := "1970-01-01T00:00:00Z";
  json_of_value _ := "{}"; json_of_tool_call _ := "{}"; json_of_decision _ := "{}";
  json_of_approval _ := "{}"; json_of_tiers _ _ := "{}"; host_sha256_hex s := s;
  socket_ip a := a; url_parse _ := Err "no url";
  dns_resolve _ _ := None; display_callback_error _ := "blocked" |}.

Section Concrete.
#[local] Existing Instance plain_host.

Definition empty_db : EgressDb :=
  {| db_bans := []; db_quarantines := []; db_receipts := []; db_events := []; db_now := 0%Z;
     db_next := 0%Z |}.

Definition ask (destination : string) (risk : string) (rules : list (EgressRule unit))
    (deny_default : bool) : EgressCheckRequest unit :=
  {| eq_agent_id := Some "agent-1"; eq_run_id := None; eq_sandbox_id := None;
     eq_destination := destination; eq_tenant_rules := rules; eq_run_rules := [];
     eq_deny_by_default := deny_default; eq_risk_level := risk;
     eq_source_trust := "trusted_internal_unsigned" |}.

Definition checked (req : EgressCheckRequest unit) (w : EgressDb) :=
  run egress_db (EgressApi.check_egress (λ _ _, false) "acme" req) w.

Definition only_github := ask "api.GitHub.com" "high"
  [{| er_action := Allow; er_matcher := DomainSuffix "github.com" |}] true.

Definition github_response : EgressCheckResponse :=
  Eval vm_compute in
    match (checked only_github empty_db).1.1 with
    | Answered _ r => r
    | Refused _ _ => {| ep_decision := ""; ep_reason := ""; ep_event_id := ""; ep_receipt := None |}
    end.

Lemma egress_answer_checked_and_evidenced_witness :
  ep_decision github_response = "allow" ∧
  ∃ d now, ep_decision github_response = EgressApi.decision_str d ∧
    EgressApi.receipt_explained "acme" only_github d now (ep_receipt github_response)
      (checked only_github empty_db).2.
Proof.
  split; [reflexivity|].
  destruct (EgressApi.egress_answer_checked_and_evidenced (λ _ _, false) "acme" only_github
    (checked only_github empty_db).2 200%Z github_response) as (d & now & Hd & _ & Hr & _).
  - pose proof (run_runs egress_db (EgressApi.check_egress (λ _ _, false) "acme" only_github)
      empty_db) as H.
    assert ((checked only_github empty_db).1.1 = Answered 200%Z github_response) as Ha
      by (vm_compute; reflexivity).
    unfold checked in *. by rewrite <- Ha.
  - eauto.
Defined.

(** A ban names one spelling: after [evil.com] was blocked, a check of
    [evil.com] is denied, and a check of [Evil.com] or of [evil.com.], the same
    name to the rules and to DNS, is allowed. *)
Example ban_misses_other_spellings :
  let blocked := (run egress_db (EgressApi.block_egress "acme"
    {| bq_destination := "evil.com"; bq_actor := "soc"; bq_reason := None;
       bq_expires_at := None |}) empty_db).1.2 in
  let decision d := match (checked (ask d "low" [] false) blocked).1.1 with
                    | Answered _ r => ep_decision r | Refused _ m => m end in
  decision "evil.com" = "deny" ∧ decision "Evil.com" = "allow" ∧ decision "evil.com." = "allow".
Proof. vm_compute. repeat split. Qed.

(** A storage that takes no receipt and no event *)
Definition evidence_down : handler EgressE EgressDb := λ T e w,
  match e in EgressE T return T * EgressDb with
  | EgAppendReceipt _ _ => (Err (Database (DatabaseError (Some "13") "database or disk is full")), w)
  | EgInsertRuntimeEvent _ => (Err (Database (DatabaseError (Some "13") "database or disk is full")), w)
  | e => egress_db _ e w
  end.

(** A high-risk check is allowed without any evidence of it. *)
Example lost_event_still_allows :
  let r := run evidence_down (EgressApi.check_egress (λ _ _, false) "acme" only_github) empty_db in
  match r.1.1 with
  | Answered status resp => status = 200%Z ∧ ep_decision resp = "allow" ∧ ep_receipt resp = None
  | Refused _ _ => False
  end ∧ db_receipts r.1.2 = [] ∧ db_events r.1.2 = [].
Proof. vm_compute. repeat split. Qed.
End Concrete.
