(* ===== verification/Sni.v ===== *)
(** * The server name of a TLS ClientHello

    Models [parse_sni] of [src/bins/aegis-egress-proxy/src/metadata.rs], and
    proves it against the grammar of the messages it reads: it answers a name
    exactly for a complete ClientHello whose first server_name extension has it. *)

From Stdlib Require Import Lia.
From S2P Require Import Prelude RustString.

Module Sni.

(** [&[u8]]: a byte is an [ascii], its value a natural number. *)
Abbreviation buffer := (list ascii).
Abbreviation u8 := nat_of_ascii.

Definition u16_be (a b : ascii) : nat := u8 a * 256 + u8 b.
Definition u24_be (a b c : ascii) : nat := (u8 a * 256 + u8 b) * 256 + u8 c.

(** [buf.get(from..to)] for [from <= to] *)
Definition get_range (buf : buffer) (from to : nat) : option buffer :=
  if (to <=? length buf)%nat then Some (take (to - from) (drop from buf)) else None.

(** [u16::from_be_bytes([*buf.get(pos)?, *buf.get(pos + 1)?])] *)
Definition u16_at (buf : buffer) (pos : nat) : option nat :=
  a ← buf !! pos; b ← buf !! (pos + 1)%nat; Some (u16_be a b).

(** The data of a server_name extension: the length of the list, the type and
    the length of the name, the name. *)
Definition server_name (ext_data : buffer) : option string :=
  match ext_data with
  | _ :: _ :: name_type :: n1 :: n2 :: _ =>
      if negb (u8 name_type =? 0)%nat then None
      else
        name ← get_range ext_data 5 (5 + u16_be n1 n2);
        to_ascii_lowercase <$> Utf8.from_utf8 (String.string_of_list_ascii name)
  | _ => None
  end.

(** The loop over the extensions; each turn takes four bytes at least. *)
Fixpoint find_server_name (fuel : nat) (ext : buffer) : option string :=
  match fuel with
  | O => None
  | S fuel =>
      match ext with
      | t1 :: t2 :: l1 :: l2 :: _ =>
          ext_data ← get_range ext 4 (4 + u16_be l1 l2);
          if (u16_be t1 t2 =? 0)%nat then server_name ext_data
          else find_server_name fuel (drop (4 + u16_be l1 l2) ext)
      | _ => None
      end
  end.

(** From the ClientHello to its extensions. *)
Definition extensions (hello : buffer) : option buffer :=
  session_len ← hello !! 34%nat;
  let pos := (34 + (1 + u8 session_len))%nat in
  cipher_len ← u16_at hello pos;
  let pos := (pos + (2 + cipher_len))%nat in
  compression_len ← hello !! pos;
  let pos := (pos + (1 + u8 compression_len))%nat in
  ext_total ← u16_at hello pos;
  let pos := (pos + 2)%nat in
  get_range hello pos (pos + ext_total).

Definition parse_sni (client_bytes : buffer) : option string :=
  match client_bytes with
  | content_type :: _ :: _ :: l1 :: l2 :: _ =>
      if negb (u8 content_type =? 22)%nat then None
      else
        record ← get_range client_bytes 5 (5 + u16_be l1 l2);
        match record with
        | msg_type :: h1 :: h2 :: h3 :: _ =>
            if negb (u8 msg_type =? 1)%nat then None
            else
              hello ← get_range record 4 (4 + u24_be h1 h2 h3);
              ext ← extensions hello;
              find_server_name (S (length ext)) ext
        | _ => None
        end
  | _ => None
  end.

(** ** The grammar

    A length-prefixed field is its length, in one, two or three bytes, and that
    many bytes. *)

Inductive field8 : buffer → buffer → Prop :=
| field8_intro l body : u8 l = length body → field8 (l :: body) body.
Inductive field16 : buffer → buffer → Prop :=
| field16_intro a b body : u16_be a b = length body → field16 (a :: b :: body) body.
Inductive field24 : buffer → buffer → Prop :=
| field24_intro a b c body : u24_be a b c = length body → field24 (a :: b :: c :: body) body.

Inductive extension : nat → buffer → buffer → Prop :=
| extension_intro t1 t2 field data :
    field16 field data → extension (u16_be t1 t2) data (t1 :: t2 :: field).

(** The data of the extension that names the host; the length of the list is
    not looked at, and neither is what follows the first name. *)
Inductive names_host : buffer → buffer → Prop :=
| names_host_intro l1 l2 type field name rest :
    u8 type = 0%nat → field16 field name → names_host (l1 :: l2 :: type :: field ++ rest) name.

(** A block of extensions whose first of type 0 names the host. *)
Inductive exts_name : buffer → buffer → Prop :=
| exts_here ext data name rest :
    extension 0 data ext → names_host data name → exts_name (ext ++ rest) name
| exts_later ext ty data rest name :
    extension ty data ext → ty ≠ 0%nat → exts_name rest name → exts_name (ext ++ rest) name.

(** A ClientHello: version and random, the session, the cipher suites, the
    compression methods, the extensions. *)
Inductive hello_exts : buffer → buffer → Prop :=
| hello_intro fixed sid session cs ciphers cm compression ef exts rest :
    length fixed = 34%nat → field8 sid session → field16 cs ciphers → field8 cm compression →
    field16 ef exts → hello_exts (fixed ++ sid ++ cs ++ cm ++ ef ++ rest) exts.

(** A handshake record that holds a whole ClientHello, with what came after it. *)
Inductive client_hello : buffer → buffer → Prop :=
| client_hello_intro ct v1 v2 rf record more mt hf hello slack exts name :
    u8 ct = 22%nat → field16 rf record → record = mt :: hf ++ slack → u8 mt = 1%nat →
    field24 hf hello → hello_exts hello exts → exts_name exts name →
    client_hello (ct :: v1 :: v2 :: rf ++ more) name.

(** ** The parser reads the grammar *)

Lemma get_range_Some buf a n m :
  get_range buf a (a + n) = Some m ↔
  ∃ pre post, buf = pre ++ m ++ post ∧ length pre = a ∧ length m = n.
Proof.
  unfold get_range. destruct (Nat.leb_spec (a + n) (length buf)) as [Hl|Hl].
  - replace (a + n - a)%nat with n by lia. split.
    + intros [= <-]. exists (take a buf), (drop n (drop a buf)).
      rewrite (take_drop n (drop a buf)), take_drop, !length_take, length_drop. split; [done|]. lia.
    + intros (pre & post & -> & <- & <-). by rewrite drop_app_length, take_app_length.
  - split; [done|]. intros (pre & post & -> & <- & <-). rewrite !length_app in Hl. lia.
Qed.

Lemma u16_at_Some buf pos n :
  u16_at buf pos = Some n ↔
  ∃ pre a b post, buf = pre ++ a :: b :: post ∧ length pre = pos ∧ u16_be a b = n.
Proof.
  unfold u16_at. split.
  - intros (a & Ha & (b & Hb & [= <-])%bind_Some)%bind_Some.
    apply list_elem_of_split_length in Ha as (pre & post & -> & ->).
    exists pre, a. rewrite lookup_app_r in Hb by lia.
    replace (length pre + 1 - length pre)%nat with 1%nat in Hb by lia.
    destruct post as [|b' post]; [done|]. injection Hb as ->. by exists b, post.
  - intros (pre & a & b & post & -> & <- & <-). rewrite (list_lookup_middle pre (b :: post) a (length pre)) by done. simpl.
    rewrite lookup_app_r by lia. by replace (length pre + 1 - length pre)%nat with 1%nat by lia.
Qed.

Lemma server_name_Some data h :
  server_name data = Some h ↔
  ∃ name, names_host data name ∧ Utf8.valid (String.string_of_list_ascii name) = true ∧
    h = to_ascii_lowercase (String.string_of_list_ascii name).
Proof.
  split.
  - destruct data as [|l1 [|l2 [|ty [|n1 [|n2 data]]]]]; try done. unfold server_name.
    destruct (Nat.eqb_spec (u8 ty) 0) as [Hty|]; [|done]. cbn [negb].
    intros (name & (pre & post & Heq & Hpre & Hlen)%get_range_Some & H)%bind_Some.
    do 6 (destruct pre as [|? pre]; try done). cbn in Heq. simplify_eq.
    apply fmap_Some in H as (s & Hv & ->). unfold Utf8.from_utf8 in Hv.
    destruct (Utf8.valid _) eqn:?; [|done]. injection Hv as <-. exists name. split; [|done].
    apply (names_host_intro _ _ _ (_ :: _ :: name)); [done|by constructor].
  - intros (name & Hn & Hv & ->). inversion Hn as [l1 l2 ty field nm rest Hty Hf]; subst.
    inversion Hf as [n1 n2 ? Hlen]; subst. unfold server_name. cbn [app]. rewrite Hty. cbn [negb Nat.eqb].
    rewrite (proj2 (get_range_Some _ 5 (u16_be n1 n2) name)); [|by exists [l1; l2; ty; n1; n2], rest].
    simpl. unfold Utf8.from_utf8. by rewrite Hv.
Qed.

Lemma find_server_name_Some fuel exts h :
  (length exts < fuel)%nat →
  find_server_name fuel exts = Some h ↔
  ∃ name, exts_name exts name ∧ Utf8.valid (String.string_of_list_ascii name) = true ∧
    h = to_ascii_lowercase (String.string_of_list_ascii name).
Proof.
  revert exts. induction fuel as [|fuel IH]; intros exts Hf; [lia|]. split.
  - destruct exts as [|t1 [|t2 [|l1 [|l2 exts]]]]; try done. cbn [find_server_name].
    intros (data & (pre & post & Heq & Hpre & Hlen)%get_range_Some & H)%bind_Some.
    do 5 (destruct pre as [|? pre]; try done). injection Heq as <- <- <- <- ->.
    assert (extension (u16_be t1 t2) data (t1 :: t2 :: l1 :: l2 :: data)) as Hext by by do 2 constructor.
    destruct (Nat.eqb_spec (u16_be t1 t2) 0) as [Hz|Hz].
    + apply server_name_Some in H as (name & Hn & ?). exists name. split; [|done].
      rewrite Hz in Hext. by apply (exts_here (t1 :: t2 :: l1 :: l2 :: data) data).
    + rewrite <- Hlen in H. cbn [drop Nat.add] in H. rewrite drop_app_length in H.
      apply IH in H as (name & Hn & ?); [|simpl in Hf; rewrite length_app in Hf; lia].
      exists name. split; [|done]. by apply (exts_later (t1 :: t2 :: l1 :: l2 :: data) (u16_be t1 t2) data).
  - intros (name & Hn & Hv). inversion Hn as [ext data nm rest He Hh|ext ty data rest nm He Hty Hr]; subst;
      inversion He as [t1 t2 field d Hfd]; subst; inversion Hfd as [l1 l2 d Hlen]; subst;
      cbn [find_server_name app];
      (rewrite (proj2 (get_range_Some _ 4 (u16_be l1 l2) data));
        [cbn [mbind option_bind]|by exists [t1; t2; l1; l2], rest]).
    + match goal with H : _ = 0%nat |- _ => rewrite H end. apply server_name_Some. eauto.
    + rewrite (proj2 (Nat.eqb_neq _ _)) by done.
      rewrite Hlen. cbn [drop Nat.add]. rewrite drop_app_length.
      apply IH; [simpl in Hf; rewrite length_app in Hf; lia|]. eauto.
Qed.

Lemma app_longer (p x q y : buffer) :
  p ++ x = q ++ y → (length q <= length p)%nat → ∃ k, p = q ++ k ∧ y = k ++ x.
Proof.
  intros [(k & -> & ->)|(k & -> & ->)]%app_eq_inv Hl; [eauto|].
  rewrite length_app in Hl. destruct k; [|simpl in Hl; lia]. exists []. by rewrite !app_nil_r.
Qed.

(** The next cut of a list is behind the last one. *)
Lemma next_cut (l p x q m y : buffer) :
  l = q ++ m ++ y → l = p ++ x → (length q + length m <= length p)%nat →
  ∃ k, p = q ++ m ++ k ∧ y = k ++ x ∧ length p = (length q + length m + length k)%nat.
Proof.
  intros -> Heq Hl. rewrite app_assoc in Heq. symmetry in Heq.
  apply app_longer in Heq as (k & -> & ->); [|by rewrite length_app].
  exists k. rewrite !length_app, app_assoc. split_and!; done || lia.
Qed.

Lemma extensions_Some hello exts : extensions hello = Some exts ↔ hello_exts hello exts.
Proof.
  unfold extensions. split.
  - intros (l & (fixed & r1 & Hh & Hf)%list_elem_of_split_length & H)%bind_Some.
    apply bind_Some in H as (n & (p1 & a & b & r2 & Heq1 & Hp1 & Hn)%u16_at_Some & H).
    apply bind_Some in H as (c & (p2 & r3 & Heq2 & Hp2)%list_elem_of_split_length & H).
    apply bind_Some in H as (m & (p3 & d & e & r4 & Heq3 & Hp3 & Hm)%u16_at_Some & H).
    apply get_range_Some in H as (p4 & rest & Heq4 & Hp4 & Hx).
    destruct (next_cut hello p1 (a :: b :: r2) fixed [l] r1) as (session & -> & _ & Hl1);
      [done..|cbn [length]; lia|].
    destruct (next_cut hello p2 (c :: r3) _ [a; b] r2 Heq1) as (ciphers & -> & _ & Hl2);
      [done|cbn [length]; lia|].
    destruct (next_cut hello p3 (d :: e :: r4) _ [c] r3 Heq2) as (compression & -> & _ & Hl3);
      [done|cbn [length]; lia|].
    destruct (next_cut hello p4 (exts ++ rest) _ [d; e] r4 Heq3) as (k & -> & _ & Hl4);
      [done|cbn [length]; lia|].
    cbn [length] in *. assert (k = []) as -> by (apply nil_length_inv; lia).
    replace hello with
      (fixed ++ (l :: session) ++ (a :: b :: ciphers) ++ (c :: compression) ++ (d :: e :: exts) ++ rest)
      by (rewrite Heq4, <- !app_assoc; done).
    by econstructor; [|constructor|constructor|constructor|constructor]; lia.
  - intros [fixed sid session cs ciphers cm compression ef exts' rest Hf Hsid Hcs Hcm Hef].
    inversion Hsid as [l s Hl]; inversion Hcs as [a b s2 Hab]; inversion Hcm as [c s3 Hc];
      inversion Hef as [d e s4 Hde]; subst. cbn [app].
    apply bind_Some. exists l. split; [by apply list_lookup_middle|].
    apply bind_Some. exists (length ciphers). split.
    { apply u16_at_Some. exists (fixed ++ l :: session), a, b. eexists.
      split; [by rewrite <- app_assoc|]. by rewrite length_app, length_cons, Hf, Hl. }
    set (p2 := fixed ++ l :: session ++ a :: b :: ciphers).
    assert (length p2 = 34 + (1 + u8 l) + (2 + length ciphers))%nat as Hp2.
    { unfold p2. repeat rewrite ?length_app, ?length_cons. lia. }
    apply bind_Some. exists c. split.
    { rewrite <- Hp2.
      replace (fixed ++ l :: _) with (p2 ++ c :: (compression ++ d :: e :: exts' ++ rest)) 
        by (by unfold p2; rewrite <- !app_assoc; simpl; rewrite <- !app_assoc).
      by apply list_lookup_middle. }
    set (p3 := p2 ++ c :: compression).
    assert (length p3 = 34 + (1 + u8 l) + (2 + length ciphers) + (1 + u8 c))%nat as Hp3.
    { unfold p3. rewrite length_app, length_cons. lia. }
    assert (fixed ++ l :: session ++ a :: b :: ciphers ++ c :: compression ++ d :: e :: exts' ++ rest
      = p3 ++ d :: e :: exts' ++ rest) as ->.
    { unfold p3, p2. rewrite <- !app_assoc. simpl. by rewrite <- !app_assoc. }
    apply bind_Some. exists (length exts'). split; [apply u16_at_Some; by exists p3, d, e, (exts' ++ rest)|].
    apply get_range_Some. exists (p3 ++ [d; e]), rest. rewrite <- app_assoc, length_app. cbn [length].
    split_and!; done || lia.
Qed.

(** C20: the parser answers exactly the name that the grammar gives to the bytes, in
    lower case, when it is a string. *)
Theorem parse_sni_exact b h :
  parse_sni b = Some h ↔
  ∃ name, client_hello b name ∧ Utf8.valid (String.string_of_list_ascii name) = true ∧
    h = to_ascii_lowercase (String.string_of_list_ascii name).
Proof.
  split.
  - destruct b as [|ct [|v1 [|v2 [|l1 [|l2 b]]]]]; try done. cbn [parse_sni].
    destruct (Nat.eqb_spec (u8 ct) 22) as [Hct|]; [|done]. cbn [negb].
    intros (record & (pre & more & Heq & Hpre & Hlen)%get_range_Some & H)%bind_Some.
    do 6 (destruct pre as [|? pre]; try done). injection Heq as <- <- <- <- <- ->.
    destruct record as [|mt [|h1 [|h2 [|h3 record]]]]; try done.
    destruct (Nat.eqb_spec (u8 mt) 1) as [Hmt|]; [|done]. cbn [negb] in H.
    apply bind_Some in H as (hello & (pre & slack & Heq & Hpre' & Hlen')%get_range_Some & H).
    do 5 (destruct pre as [|? pre]; try done). injection Heq as <- <- <- <- ->.
    apply bind_Some in H as (exts & Hx%extensions_Some & (name & Hn & Hv)%find_server_name_Some); [|lia].
    exists name. split; [|done].
    by apply (client_hello_intro ct v1 v2 (l1 :: l2 :: mt :: h1 :: h2 :: h3 :: hello ++ slack)
      (mt :: h1 :: h2 :: h3 :: hello ++ slack) more mt (h1 :: h2 :: h3 :: hello) hello slack exts).
  - intros (name & Hch & Hv). inversion Hch as [ct v1 v2 rf record more mt hf hello slack exts nm Hct Hrf Hrec Hmt
      Hhf Hh Hn]; subst. inversion Hrf as [l1 l2 r Hl]; subst. inversion Hhf as [h1 h2 h3 hl Hl']; subst.
    cbn [parse_sni app]. rewrite Hct. cbn [negb Nat.eqb].
    apply bind_Some. exists (mt :: h1 :: h2 :: h3 :: hello ++ slack).
    split; [apply get_range_Some; by exists [ct; v1; v2; l1; l2], more|].
    cbn [app]. rewrite Hmt. cbn [negb Nat.eqb].
    apply bind_Some. exists hello. split; [apply get_range_Some; by exists [mt; h1; h2; h3], slack|].
    apply bind_Some. exists exts. split; [by apply extensions_Some|]. apply find_server_name_Some; [lia|eauto].
Qed.
End Sni.
