(* ===== verification/Proxy.v ===== *)
(** * The egress proxy

    Models [src/bins/aegis-egress-proxy]: the request line and its destination
    ([metadata.rs]), the two deciders ([decider.rs]), and the handling of one
    connection ([proxy.rs]) as a program over the two sockets, the decider and
    the event sink.  The deciders implement the call [Decide] of that program, the
    gateway one over an HTTP client.

    A connection has no bound on its length: [tunnel] and [handle_connection]
    take the number of turns of the byte pump that are looked at, and answer
    [None] when the connection is still open after them. *)

From stdpp Require Import pretty.
From S2P Require Import Prelude RustString Prog Risk Net Sni Egress.

Local Open Scope Z_scope.

Abbreviation IoError := string (only parsing).

Inductive ProxyError :=
| Io (e : IoError)
| MalformedRequest (message : string).

Inductive ProxyProtocol := Connect | HttpForward.
#[export] Instance ProxyProtocol_eq_dec : EqDecision ProxyProtocol.
Proof. solve_decision. Defined.

Record ConnectTarget := {
  ct_host : string;
  ct_port : Z;
  ct_protocol : ProxyProtocol;
  ct_origin_form_path : string }.

Record EgressCheckOutcome := { eco_decision : EgressDecision; eco_reason : string }.

Inductive ProxyEventType := EgressAllowed | EgressBlocked | LargeUpload | SniMismatch.
#[export] Instance ProxyEventType_eq_dec : EqDecision ProxyEventType.
Proof. solve_decision. Defined.

Record ProxyEvent (DateTime : Type) := {
  pe_event_type : ProxyEventType;
  pe_host : string;
  pe_port : Z;
  pe_occurred_at : DateTime;
  pe_detail : option string }.
Arguments pe_event_type {DateTime} _.
Arguments pe_host {DateTime} _.
Arguments pe_port {DateTime} _.
Arguments pe_occurred_at {DateTime} _.
Arguments pe_detail {DateTime} _.

Record ProxyConfig := {
  large_upload_threshold_bytes : Z;
  enforce_sni_match : bool }.

(** What [tokio::select!] saw first, with what was read; no byte is the end. *)
Inductive Readable :=
| FromClient (read : Result string IoError)
| FromUpstream (read : Result string IoError).

(** The sockets, the clock and the sink.  [None] is an elapsed timeout. *)
Inductive NetE (DateTime : Type) : Type → Type :=
| ClientRead : NetE DateTime (option (Result string IoError))
| ClientWrite (data : string) : NetE DateTime (Result unit IoError)
| ClientShutdown : NetE DateTime (Result unit IoError)
| UpstreamConnect (host : string) (port : Z) : NetE DateTime (option (Result unit IoError))
| UpstreamWrite (data : string) : NetE DateTime (Result unit IoError)
| UpstreamShutdown : NetE DateTime (Result unit IoError)
| Select : NetE DateTime Readable
| UtcNow : NetE DateTime DateTime
| RecordEvent (e : ProxyEvent DateTime) : NetE DateTime unit.
Arguments ClientRead {DateTime}.
Arguments ClientWrite {DateTime} data.
Arguments ClientShutdown {DateTime}.
Arguments UpstreamConnect {DateTime} host port.
Arguments UpstreamWrite {DateTime} data.
Arguments UpstreamShutdown {DateTime}.
Arguments Select {DateTime}.
Arguments UtcNow {DateTime}.
Arguments RecordEvent {DateTime} e.

(** A connection also asks the decider, an [Arc<dyn EgressDecider>]. *)
Inductive ProxyE (DateTime : Type) : Type → Type :=
| OnNet {T} (e : NetE DateTime T) : ProxyE DateTime T
| Decide (host : string) (port : Z) : ProxyE DateTime EgressCheckOutcome.
Arguments OnNet {DateTime T} e.
Arguments Decide {DateTime} host port.

Definition len (s : string) : Z := Z.of_nat (String.length s).

(** ** The request line *)

Module Target.
Section Target.
(** [{:?}] of a string, in the text of an error *)
Context (debug_str : string → string).

(** A port that is all digits must be a [u16]; anything else is part of the
    host. *)
Definition split_authority (authority : string) (default_port : Z) : Result (string * Z) ProxyError :=
  let parsed :=
    match rsplit_once ":" authority with
    | Some (host, port) =>
        match (if is_empty port then None else Risk.parse_digits 0 port) with
        | Some n => if n <=? u16_max then Ok (host, n)
                    else Err (MalformedRequest ("bad port in " +:+ debug_str authority))
        | None => Ok (authority, default_port)
        end
    | None => Ok (authority, default_port)
    end in
  match parsed with
  | Err e => Err e
  | Ok (host, port) =>
      let host := trim_end_byte "]" (trim_start_byte "[" host) in
      if is_empty host then Err (MalformedRequest "empty host in request target")
      else Ok (to_ascii_lowercase host, port)
  end.

Definition parse_request_target (request_line : string) : Result ConnectTarget ProxyError :=
  match split_whitespace request_line with
  | [] => Err (MalformedRequest "empty request line")
  | [_] => Err (MalformedRequest "missing request target")
  | method :: target :: _ =>
      if to_ascii_lowercase method == "connect" then
        match split_authority target 443 with
        | Err e => Err e
        | Ok (host, port) =>
            Ok {| ct_host := host; ct_port := port; ct_protocol := Connect; ct_origin_form_path := "" |}
        end
      else
        match strip_prefix "http://" target with
        | None => Err (MalformedRequest
            ("expected CONNECT or an absolute http:// URI, got " +:+ debug_str target))
        | Some rest =>
            let '(authority, path) :=
              match split_once "/" rest with
              | Some (authority, path) => (authority, String "/" path)
              | None => (rest, "/")
              end in
            match split_authority authority 80 with
            | Err e => Err e
            | Ok (host, port) =>
                Ok {| ct_host := host; ct_port := port; ct_protocol := HttpForward;
                      ct_origin_form_path := path |}
            end
        end
  end.
End Target.
End Target.

(** ** The deciders *)

Module Decider.
Definition is_allowed (o : EgressCheckOutcome) : bool :=
  match eco_decision o with EgressAllow => true | EgressDeny => false end.

Definition allow (reason : string) : EgressCheckOutcome :=
  {| eco_decision := EgressAllow; eco_reason := reason |}.
Definition deny (reason : string) : EgressCheckOutcome :=
  {| eco_decision := EgressDeny; eco_reason := reason |}.

Definition destination_for (host : string) : EgressDestination :=
  match Net.ip_parse host with Some ip => Ip ip | None => Domain host end.

Section Deciders.
(** [IpNet] with its containment test, of the [ipnet] crate *)
Context {IpNet : Type} (contains : IpNet → IpAddr → bool).

(** [PolicyDecider::check] *)
Definition policy_check (policy : Egress.EgressPolicy) (host : string) (port : Z) : EgressCheckOutcome :=
  match Egress.check contains policy (destination_for host) with
  | EgressAllow => allow "allowed by local egress policy"
  | EgressDeny => deny "denied by local egress policy"
  end.
End Deciders.

(** The body of the check; the fields that are [None] are left out. *)
Record GatewayCheckRequest (IpNet : Type) := {
  gq_agent_id : option string;
  gq_run_id : option string;
  gq_sandbox_id : option string;
  gq_destination : string;
  gq_tenant_rules : list (EgressRule IpNet);
  gq_run_rules : list (EgressRule IpNet);
  gq_deny_by_default : bool }.

Record GatewayCheckResponse := { gr_decision : string; gr_reason : string }.

Record GatewayDecider (IpNet : Type) := {
  gd_check_url : string;
  gd_api_token : string;
  gd_agent_id : option string;
  gd_run_id : option string;
  gd_sandbox_id : option string;
  gd_tenant_rules : list (EgressRule IpNet);
  gd_run_rules : list (EgressRule IpNet);
  gd_deny_by_default : bool }.
Arguments gq_agent_id {IpNet} _.
Arguments gq_run_id {IpNet} _.
Arguments gq_sandbox_id {IpNet} _.
Arguments gq_destination {IpNet} _.
Arguments gq_tenant_rules {IpNet} _.
Arguments gq_run_rules {IpNet} _.
Arguments gq_deny_by_default {IpNet} _.
Arguments gd_check_url {IpNet} _.
Arguments gd_api_token {IpNet} _.
Arguments gd_agent_id {IpNet} _.
Arguments gd_run_id {IpNet} _.
Arguments gd_sandbox_id {IpNet} _.
Arguments gd_tenant_rules {IpNet} _.
Arguments gd_run_rules {IpNet} _.
Arguments gd_deny_by_default {IpNet} _.

(** An HTTP response: its status, with the text it is displayed as. *)
Record HttpStatus := { hs_code : Z; hs_display : string }.
Definition is_success (s : HttpStatus) : bool := (200 <=? hs_code s) && (hs_code s <? 300).

(** What the gateway decider calls: the request with its timeout, and the body
    of the answer as JSON.  An error is its display. *)
Inductive WireE (DateTime IpNet : Type) : Type → Type :=
| Wire {T} (e : NetE DateTime T) : WireE DateTime IpNet T
| GwPost (url token : string) (body : GatewayCheckRequest IpNet) :
    WireE DateTime IpNet (Result HttpStatus string)
| GwJson : WireE DateTime IpNet (Result GatewayCheckResponse string).
Arguments Wire {DateTime IpNet T} e.
Arguments GwPost {DateTime IpNet} url token body.
Arguments GwJson {DateTime IpNet}.

Section Gateway.
Context {DateTime IpNet : Type}.

(** [GatewayDecider::new]; the three ids are fields that [main] sets. *)
Definition gateway_new (gateway_base_url api_token : string) (tenant_rules run_rules : list (EgressRule IpNet))
    (deny_by_default : bool) : GatewayDecider IpNet :=
  {| gd_check_url := trim_end_byte "/" gateway_base_url +:+ "/v1/egress/check";
     gd_api_token := api_token; gd_agent_id := None; gd_run_id := None; gd_sandbox_id := None;
     gd_tenant_rules := tenant_rules; gd_run_rules := run_rules; gd_deny_by_default := deny_by_default |}.

Definition check_request (d : GatewayDecider IpNet) (host : string) : GatewayCheckRequest IpNet :=
  {| gq_agent_id := gd_agent_id d; gq_run_id := gd_run_id d; gq_sandbox_id := gd_sandbox_id d;
     gq_destination := host; gq_tenant_rules := gd_tenant_rules d; gq_run_rules := gd_run_rules d;
     gq_deny_by_default := gd_deny_by_default d |}.

Definition em_dash : string := bytes [32; 226; 128; 148; 32]%nat.

(** [GatewayDecider::check] *)
Definition gateway_check (d : GatewayDecider IpNet) (host : string) (port : Z) :
    prog (WireE DateTime IpNet) EgressCheckOutcome :=
  response ← trigger (GwPost (gd_check_url d) (gd_api_token d) (check_request d host));
  match response with
  | Err err => mret (deny ("gateway unreachable (" +:+ err +:+ ")" +:+ em_dash +:+ "failing closed"))
  | Ok status =>
      if is_success status then
        check ← trigger GwJson;
        match check with
        | Ok check =>
            if gr_decision check == "allow" then mret (allow (gr_reason check))
            else mret (deny (gr_reason check))
        | Err err => mret (deny ("unparseable gateway egress response (" +:+ err +:+ ")" +:+ em_dash +:+
                                 "failing closed"))
        end
      else mret (deny ("gateway egress check returned " +:+ hs_display status +:+ em_dash +:+
                       "failing closed"))
  end.

(** The two implementors of [EgressDecider]. *)
Definition by_gateway (d : GatewayDecider IpNet) : ∀ T, ProxyE DateTime T → prog (WireE DateTime IpNet) T :=
  λ T e, match e with
         | OnNet e => trigger (Wire e)
         | Decide host port => gateway_check d host port
         end.
Definition by_policy (contains : IpNet → IpAddr → bool) (policy : Egress.EgressPolicy) :
    ∀ T, ProxyE DateTime T → prog (WireE DateTime IpNet) T :=
  λ T e, match e with
         | OnNet e => trigger (Wire e)
         | Decide host port => mret (policy_check contains policy host port)
         end.
End Gateway.
End Decider.

(** ** One connection *)

Module Proxy.
Definition MAX_HEAD_BYTES : nat := 16 * 1024.
Definition DEFAULT_LARGE_UPLOAD_THRESHOLD_BYTES : Z := 10 * 1024 * 1024.

Definition default_config : ProxyConfig :=
  {| large_upload_threshold_bytes := DEFAULT_LARGE_UPLOAD_THRESHOLD_BYTES; enforce_sni_match := true |}.

Definition CRLF : string := bytes [13; 10]%nat.

(** The index after the first blank line. *)
Fixpoint find_head_end (buf : string) : option nat :=
  if starts_with (CRLF +:+ CRLF) buf then Some 4%nat
  else match buf with
       | EmptyString => None
       | String _ buf => S <$> find_head_end buf
       end.

Section Connection.
Context {DateTime : Type} (debug_str : string → string).
Abbreviation OnProxy := (prog (ProxyE DateTime)).

Definition on {T} (e : NetE DateTime T) : OnProxy T := trigger (OnNet e).

(** [?] on an [std::io::Result] *)
Definition io {A} (r : Result A IoError) : Result A ProxyError := map_err Io r.

(** The loop of [read_head]; it ends by itself, since every turn adds a byte
    and more than [MAX_HEAD_BYTES] of them are an error. *)
Fixpoint read_head_from (fuel : nat) (buf : string) : OnProxy (Result (string * string) ProxyError) :=
  let too_long := MalformedRequest ("request head exceeds " +:+ pretty (Z.of_nat MAX_HEAD_BYTES) +:+ " bytes") in
  match fuel with
  | O => mret (Err too_long)
  | S fuel =>
      read ← on ClientRead;
      match read with
      | None => mret (Err (MalformedRequest "request head read timed out"))
      | Some (Err e) => mret (Err (Io e))
      | Some (Ok chunk) =>
          if is_empty chunk then
            mret (Err (MalformedRequest "connection closed before request head completed"))
          else
            let buf := buf +:+ chunk in
            match find_head_end buf with
            | Some n => mret (Ok (split_at n buf))
            | None => if (MAX_HEAD_BYTES <? String.length buf)%nat then mret (Err too_long)
                      else read_head_from fuel buf
            end
      end
  end.
Definition read_head : OnProxy (Result (string * string) ProxyError) :=
  read_head_from (S MAX_HEAD_BYTES) "".

Definition simple_response (status_line body : string) : string :=
  status_line +:+ CRLF +:+ "content-length: " +:+ pretty (len body) +:+ CRLF +:+ "connection: close" +:+
  CRLF +:+ CRLF +:+ body.

Definition write_simple_response (status_line body : string) : OnProxy (Result unit IoError) :=
  _ ←? on (ClientWrite (simple_response status_line body));
  on ClientShutdown.

(** [sink.record(ProxyEvent::new(..).with_detail(..))] *)
Definition record (ty : ProxyEventType) (target : ConnectTarget) (detail : string) : OnProxy unit :=
  now ← on UtcNow;
  on (RecordEvent {| pe_event_type := ty; pe_host := ct_host target; pe_port := ct_port target;
                     pe_occurred_at := now; pe_detail := Some detail |}).

(** [head_text.lines().next().unwrap_or_default()] *)
Definition first_line (s : string) : string :=
  match split_once "010" s with
  | Some (line, _) => default line (strip_suffix "013" line)
  | None => s
  end.

(** The header lines that go on to the destination. *)
Fixpoint forward_lines (lines : list string) : string :=
  match lines with
  | [] => ""
  | line :: lines =>
      if is_empty line then ""
      else
        let lower := to_ascii_lowercase line in
        if starts_with "proxy-" lower || starts_with "connection:" lower then forward_lines lines
        else line +:+ CRLF +:+ forward_lines lines
  end.

Definition rewrite_forward_head (head_text : string) (target : ConnectTarget) : string :=
  match split_crlf head_text with
  | [] => ""
  | request_line :: lines =>
      let method := default "GET" (head (split_whitespace request_line)) in
      method +:+ " " +:+ ct_origin_form_path target +:+ " HTTP/1.1" +:+ CRLF +:+
      forward_lines lines +:+ "connection: close" +:+ CRLF +:+ CRLF
  end.

(** *** The byte pump

    [uploaded] is a [u64] that counts bytes of one connection; it is never near
    its bound. *)
Record Pump := {
  uploaded : Z;
  large_upload_reported : bool;
  awaiting_first_client_bytes : bool }.

Definition sni_of (data : string) : option string := Sni.parse_sni (String.list_ascii_of_string data).

(** The first client bytes name another host than the one that was authorised. *)
Definition sni_mismatch (st : Pump) (target : ConnectTarget) (data : string) : option string :=
  if awaiting_first_client_bytes st then
    sni ← sni_of data; if sni != ct_host target then Some sni else None
  else None.

Definition mismatch_detail (target : ConnectTarget) (sni : string) : string :=
  "CONNECT host " +:+ ct_host target +:+ " but TLS SNI " +:+ sni.

Definition upload_detail (config : ProxyConfig) (n : Z) : string :=
  pretty n +:+ " bytes uploaded (threshold " +:+ pretty (large_upload_threshold_bytes config) +:+ ")".

(** The count after [data], and whether this is the read that passes the
    threshold. *)
Definition count_upload (config : ProxyConfig) (st : Pump) (data : string) : bool * Pump :=
  let n := uploaded st + len data in
  let report := negb (large_upload_reported st) && (large_upload_threshold_bytes config <? n) in
  (report, {| uploaded := n; large_upload_reported := large_upload_reported st || report;
              awaiting_first_client_bytes := false |}).

(** [Some] when the loop is left: by [break], or by an error. *)
Fixpoint pump (turns : nat) (target : ConnectTarget) (config : ProxyConfig) (st : Pump) :
    OnProxy (option (Result unit IoError)) :=
  match turns with
  | O => mret None
  | S turns =>
      readable ← on Select;
      match readable with
      | FromClient (Err e) => mret (Some (Err e))
      | FromClient (Ok data) =>
          if is_empty data then mret (Some (Ok tt))
          else
            match sni_mismatch st target data with
            | Some sni =>
                _ ← record SniMismatch target (mismatch_detail target sni);
                mret (Some (Ok tt))
            | None =>
                let '(report, st) := count_upload config st data in
                _ ← (if report then record LargeUpload target (upload_detail config (uploaded st))
                     else mret tt);
                w ← on (UpstreamWrite data);
                match w with
                | Err e => mret (Some (Err e))
                | Ok _ => pump turns target config st
                end
            end
      | FromUpstream (Err e) => mret (Some (Err e))
      | FromUpstream (Ok data) =>
          if is_empty data then mret (Some (Ok tt))
          else
            w ← on (ClientWrite data);
            match w with
            | Err e => mret (Some (Err e))
            | Ok _ => pump turns target config st
            end
      end
  end.

Definition tunnel (turns : nat) (target : ConnectTarget) (config : ProxyConfig) (check_sni : bool) :
    OnProxy (option (Result unit IoError)) :=
  r ← pump turns target config {| uploaded := 0; large_upload_reported := false;
                                  awaiting_first_client_bytes := check_sni |};
  match r with
  | Some (Ok _) =>
      _ ← on UpstreamShutdown;
      _ ← on ClientShutdown;
      mret (Some (Ok tt))
  | r => mret r
  end.

(** [upstream.write_all(&leftover).await?] when there is any *)
Definition forward_leftover (leftover : string) : OnProxy (Result unit IoError) :=
  if is_empty leftover then mret (Ok tt) else on (UpstreamWrite leftover).

(** After the connection to the destination was made. *)
Definition serve (turns : nat) (config : ProxyConfig) (target : ConnectTarget) (head_text leftover : string) :
    OnProxy (option (Result unit IoError)) :=
  match ct_protocol target with
  | Connect =>
      w ← on (ClientWrite ("HTTP/1.1 200 Connection Established" +:+ CRLF +:+ CRLF));
      match w with
      | Err e => mret (Some (Err e))
      | Ok _ =>
          w ← forward_leftover leftover;
          match w with
          | Err e => mret (Some (Err e))
          | Ok _ => tunnel turns target config (enforce_sni_match config && is_empty leftover)
          end
      end
  | HttpForward =>
      w ← on (UpstreamWrite (rewrite_forward_head head_text target));
      match w with
      | Err e => mret (Some (Err e))
      | Ok _ =>
          w ← forward_leftover leftover;
          match w with
          | Err e => mret (Some (Err e))
          | Ok _ => tunnel turns target config false
          end
      end
  end.

(** The connection to the destination, for an outcome that allows it. *)
Definition dial (turns : nat) (config : ProxyConfig) (target : ConnectTarget) (head_text leftover reason : string) :
    OnProxy (option (Result unit ProxyError)) :=
  upstream ← on (UpstreamConnect (ct_host target) (ct_port target));
  match upstream with
  | Some (Ok _) =>
      _ ← record EgressAllowed target reason;
      r ← serve turns config target head_text leftover;
      mret (io <$> r)
  | Some (Err err) =>
      w ← write_simple_response "HTTP/1.1 502 Bad Gateway" "";
      mret (Some (match w with Err e => Err (Io e) | Ok _ => Err (Io err) end))
  | None =>
      w ← write_simple_response "HTTP/1.1 504 Gateway Timeout" "";
      mret (Some (match w with
                  | Err e => Err (Io e)
                  | Ok _ => Err (MalformedRequest ("upstream connect to " +:+ ct_host target +:+ ":" +:+
                                                   pretty (ct_port target) +:+ " timed out"))
                  end))
  end.

(** A request that cannot be read is answered 400 and ends with its error. *)
Definition bad_request (err : ProxyError) : OnProxy (option (Result unit ProxyError)) :=
  _ ← write_simple_response "HTTP/1.1 400 Bad Request" "";
  mret (Some (Err err)).

Definition handle_connection (turns : nat) (config : ProxyConfig) :
    OnProxy (option (Result unit ProxyError)) :=
  parts ← read_head;
  match parts with
  | Err err => bad_request err
  | Ok (head, leftover) =>
      let head_text := Utf8.from_utf8_lossy head in
      match Target.parse_request_target debug_str (first_line head_text) with
      | Err err => bad_request err
      | Ok target =>
          outcome ← trigger (Decide (ct_host target) (ct_port target));
          if negb (Decider.is_allowed outcome) then
            _ ← record EgressBlocked target (eco_reason outcome);
            w ← write_simple_response "HTTP/1.1 403 Forbidden" (eco_reason outcome);
            mret (Some (io w))
          else dial turns config target head_text leftover (eco_reason outcome)
      end
  end.
End Connection.
End Proxy.

(** ** The command line ([main.rs]) *)

Module Cli.
Section Cli.
Context {DateTime IpNet : Type} (contains : IpNet → IpAddr → bool).

Record Cli := {
  gateway_url : option string;
  api_token : string;
  allow_domains : list string;
  deny_domains : list string;
  allow_cidrs : list IpNet;
  deny_cidrs : list IpNet;
  allow_by_default : bool;
  agent_id : option string;
  run_id : option string;
  sandbox_id : option string;
  cli_large_upload_threshold_bytes : Z;
  no_enforce_sni_match : bool }.

Definition rules (cli : Cli) : list (EgressRule IpNet) :=
  map (λ d, {| er_action := Deny; er_matcher := DomainSuffix d |}) (deny_domains cli) ++
  map (λ n, {| er_action := Deny; er_matcher := Cidr n |}) (deny_cidrs cli) ++
  map (λ d, {| er_action := Allow; er_matcher := DomainSuffix d |}) (allow_domains cli) ++
  map (λ n, {| er_action := Allow; er_matcher := Cidr n |}) (allow_cidrs cli).

Definition gateway_decider (cli : Cli) (url : string) : Decider.GatewayDecider IpNet :=
  let d := Decider.gateway_new url (api_token cli) (rules cli) [] (negb (allow_by_default cli)) in
  {| Decider.gd_check_url := Decider.gd_check_url d; Decider.gd_api_token := Decider.gd_api_token d;
     Decider.gd_agent_id := agent_id cli; Decider.gd_run_id := run_id cli;
     Decider.gd_sandbox_id := sandbox_id cli;
     Decider.gd_tenant_rules := Decider.gd_tenant_rules d; Decider.gd_run_rules := Decider.gd_run_rules d;
     Decider.gd_deny_by_default := Decider.gd_deny_by_default d |}.

(** The decider that [main] builds. *)
Definition decider (cli : Cli) : ∀ T, ProxyE DateTime T → prog (Decider.WireE DateTime IpNet) T :=
  match gateway_url cli with
  | Some url => Decider.by_gateway (gateway_decider cli url)
  | None => Decider.by_policy contains (Egress.policy_new (negb (allow_by_default cli)) (rules cli) [])
  end.

Definition config (cli : Cli) : ProxyConfig :=
  {| large_upload_threshold_bytes := cli_large_upload_threshold_bytes cli;
     enforce_sni_match := negb (no_enforce_sni_match cli) |}.
End Cli.
End Cli.
