(* ===== verification/ProxySafety.v ===== *)
(** * What the egress proxy lets out

    The theorems on [Proxy.v]: a connection is opened only to the destination
    that was asked for and after the decider allowed it; from then on the bytes
    are relayed as they are, except that a TLS server name that is not the
    authorised host ends the tunnel before anything of it is sent; and what that
    means with the gateway as the decider. *)

From Stdlib Require Import Lia.
From stdpp Require Import pretty.
From S2P Require Import Prelude RustString Net Prog Risk Models Records Runtime Egress Bans Gateway EgressApi Sni Proxy.

(** ** What a trace shows *)

Section Trace.
Context {DateTime : Type}.
Abbreviation trace := (list (event (ProxyE DateTime))).

(** What a call of the network sent or got, by the direction. *)
Definition net_view {A} (f : ∀ T, NetE DateTime T → T → A) (d : A) (ev : event (ProxyE DateTime)) : A :=
  match ev with
  | Call e r => match e in ProxyE _ T return T → A with
                | OnNet e' => f _ e'
                | Decide _ _ => λ _, d
                end r
  end.

Definition head_bytes : event (ProxyE DateTime) → string :=
  net_view (λ T e, match e in NetE _ T return T → string with
                   | ClientRead => λ r, match r with Some (Ok s) => s | _ => "" end
                   | _ => λ _, ""
                   end) "".
Definition upstream_bytes : event (ProxyE DateTime) → string :=
  net_view (λ T e, match e in NetE _ T return T → string with
                   | UpstreamWrite s => λ _, s | _ => λ _, "" end) "".
Definition client_bytes : event (ProxyE DateTime) → string :=
  net_view (λ T e, match e in NetE _ T return T → string with
                   | ClientWrite s => λ _, s | _ => λ _, "" end) "".
Definition tunnel_up : event (ProxyE DateTime) → list string :=
  net_view (λ T e, match e in NetE _ T return T → list string with
                   | Select => λ r, match r with
                                    | FromClient (Ok s) => if is_empty s then [] else [s]
                                    | _ => []
                                    end
                   | _ => λ _, []
                   end) [].
Definition tunnel_down : event (ProxyE DateTime) → string :=
  net_view (λ T e, match e in NetE _ T return T → string with
                   | Select => λ r, match r with FromUpstream (Ok s) => s | _ => "" end
                   | _ => λ _, ""
                   end) "".
Definition recorded : event (ProxyE DateTime) → list ProxyEventType :=
  net_view (λ T e, match e in NetE _ T return T → list ProxyEventType with
                   | RecordEvent ev => λ _, [pe_event_type ev] | _ => λ _, [] end) [].

Definition gather (f : event (ProxyE DateTime) → string) (t : trace) : string :=
  Utf8.concat_strings (map f t).
Definition collect {A} (f : event (ProxyE DateTime) → list A) (t : trace) : list A := concat (map f t).

Lemma concat_strings_app l l' :
  Utf8.concat_strings (l ++ l') = Utf8.concat_strings l +:+ Utf8.concat_strings l'.
Proof.
  induction l as [|s l IH]; [done|].
  change (s +:+ Utf8.concat_strings (l ++ l') = (s +:+ Utf8.concat_strings l) +:+ Utf8.concat_strings l').
  by rewrite IH, string_app_assoc.
Qed.

Lemma gather_cons f ev t : gather f (ev :: t) = f ev +:+ gather f t.
Proof. done. Qed.

Lemma collect_cons {A} (f : event (ProxyE DateTime) → list A) ev t : collect f (ev :: t) = f ev ++ collect f t.
Proof. done. Qed.

Lemma gather_app f t t' : gather f (t ++ t') = gather f t +:+ gather f t'.
Proof. unfold gather. by rewrite map_app, concat_strings_app. Qed.

Lemma collect_app {A} (f : event (ProxyE DateTime) → list A) t t' :
  collect f (t ++ t') = collect f t ++ collect f t'.
Proof. unfold collect. by rewrite map_app, concat_app. Qed.
End Trace.

Section Connection.
Context {DateTime : Type} (debug_str : string → string).
Abbreviation trace := (list (event (ProxyE DateTime))).

(** ** The head *)

(** [head] ends with its first blank line. *)
Definition complete_head (head leftover : string) : Prop :=
  ∃ n, Proxy.find_head_end (head +:+ leftover) = Some n ∧ split_at n (head +:+ leftover) = (head, leftover).

Lemma read_head_from_run fuel buf t r :
  (String.length buf <= Proxy.MAX_HEAD_BYTES)%nat →
  runs (Proxy.read_head_from (DateTime := DateTime) fuel buf) t r →
  (∀ head leftover, r = Ok (head, leftover) →
     buf +:+ gather head_bytes t = head +:+ leftover ∧ complete_head head leftover).
Proof.
  revert buf t. induction fuel as [|fuel IH]; intros buf t Hb H; [by destruct H as [_ ->]|].
  cbn [Proxy.read_head_from] in H. unfold Proxy.on in H. prog_step H.
  destruct r0 as [[chunk|e]|]; [|by destruct H as [_ ->]..].
  destruct (is_empty chunk) eqn:Hc; [by destruct H as [_ ->]|].
  assert (gather head_bytes (Call (OnNet ClientRead) (Some (Ok chunk)) :: t0) = chunk +:+ gather head_bytes t0)
    as Hg by done.
  destruct (Proxy.find_head_end (buf +:+ chunk)) as [n|] eqn:He.
  - destruct H as [-> ->]. intros head leftover [= Hs]. rewrite Hg.
    pose proof (split_at_app n (buf +:+ chunk)) as Ha. rewrite Hs in Ha. simpl in Ha.
    unfold gather at 1. cbn. rewrite string_app_nil. split; [done|].
    exists n. rewrite Ha. split; [done|]. by rewrite Hs.
  - destruct (Nat.ltb_spec Proxy.MAX_HEAD_BYTES (String.length (buf +:+ chunk))); [by destruct H as [_ ->]|].
    intros head leftover ->. destruct (IH _ _ ltac:(done) H head leftover eq_refl) as [Hgo ?].
    split; [|done]. by rewrite Hg, <- string_app_assoc.
Qed.
(** The fuel is enough: more of it changes no run. *)
Lemma read_head_fuel fuel fuel' buf t r :
  (String.length buf <= Proxy.MAX_HEAD_BYTES)%nat →
  (Proxy.MAX_HEAD_BYTES < String.length buf + fuel)%nat → (fuel <= fuel')%nat →
  runs (Proxy.read_head_from (DateTime := DateTime) fuel buf) t r ↔ runs (Proxy.read_head_from fuel' buf) t r.
Proof.
  revert fuel' buf t. induction fuel as [|fuel IH]; intros fuel' buf t Hb Hf Hle; [lia|].
  destruct fuel' as [|fuel']; [lia|]. cbn [Proxy.read_head_from].
  unfold Proxy.on, trigger, mbind, prog_mbind. cbn [prog_bind runs].
  f_equiv; intros [[chunk|e]|]; f_equiv; intros t'; f_equiv; [|done..].
  destruct (is_empty chunk) eqn:Hc; [done|]. destruct (Proxy.find_head_end _); [done|].
  destruct (Nat.ltb_spec Proxy.MAX_HEAD_BYTES (String.length (buf +:+ chunk))); [done|].
  apply IH; [done| |lia]. rewrite string_length_app in *. destruct chunk; [done|]. simpl. lia.
Qed.

(** ** The byte pump *)

(** The server name of the first bytes, when it is looked at and is not the
    host of [target]. *)
Definition first_mismatch (check : bool) (target : ConnectTarget) (chunks : list string) : option string :=
  if check then c ← head chunks; sni ← Proxy.sni_of c; if sni != ct_host target then Some sni else None
  else None.

Definition upload_events (reported : bool) (threshold total : Z) : list ProxyEventType :=
  if negb reported && (threshold <? total)%Z then [LargeUpload] else [].

Lemma len_concat a b : len (a +:+ b) = (len a + len b)%Z.
Proof. unfold len. rewrite string_length_app. lia. Qed.

Lemma upload_events_step reported threshold a b :
  (0 <= b)%Z →
  upload_events reported threshold a ++
    upload_events (reported || (negb reported && (threshold <? a)%Z)) threshold (a + b)
  = upload_events reported threshold (a + b).
Proof.
  unfold upload_events. intros Hb. destruct reported; [done|]. cbn [negb andb orb].
  destruct (Z.ltb_spec threshold a), (Z.ltb_spec threshold (a + b)); done || lia.
Qed.
(** What the pump did with the bytes and what it reported. *)
Definition pumped (st : Proxy.Pump) (target : ConnectTarget) (config : ProxyConfig) (t : trace)
    (r : option (Result unit IoError)) : Prop :=
  let chunks := collect tunnel_up t in
  gather client_bytes t = gather tunnel_down t ∧
  match first_mismatch (Proxy.awaiting_first_client_bytes st) target chunks with
  | Some _ => gather upstream_bytes t = "" ∧ collect recorded t = [SniMismatch] ∧ r = Some (Ok tt)
  | None =>
      gather upstream_bytes t = Utf8.concat_strings chunks ∧
      collect recorded t = upload_events (Proxy.large_upload_reported st) (large_upload_threshold_bytes config)
                             (Proxy.uploaded st + len (Utf8.concat_strings chunks))
  end.

(** The invariant of the pump. *)
Definition counted (st : Proxy.Pump) (config : ProxyConfig) : Prop :=
  upload_events (Proxy.large_upload_reported st) (large_upload_threshold_bytes config) (Proxy.uploaded st) = [].

Lemma pumped_quiet st target config t r :
  counted st config → collect tunnel_up t = [] → gather client_bytes t = gather tunnel_down t →
  gather upstream_bytes t = "" → collect recorded t = [] → pumped st target config t r.
Proof.
  intros Hc Hu Hd Hg Hr. split; [done|]. rewrite Hu. unfold first_mismatch.
  change (len (Utf8.concat_strings [])) with 0%Z.
  destruct (Proxy.awaiting_first_client_bytes st); cbn; (split; [done|]); by rewrite Z.add_0_r, Hr.
Qed.

Lemma record_run ty target detail t u :
  runs (Proxy.record (DateTime := DateTime) ty target detail) t u →
  ∃ now, t = [Call (OnNet UtcNow) now;
              Call (OnNet (RecordEvent {| pe_event_type := ty; pe_host := ct_host target;
                pe_port := ct_port target; pe_occurred_at := now; pe_detail := Some detail |})) tt].
Proof. unfold Proxy.record, Proxy.on. intros H. prog_run H. destruct r0. eauto. Qed.

Lemma count_upload_counted config st data :
  counted (Proxy.count_upload config st data).2 config.
Proof.
  unfold counted, Proxy.count_upload, upload_events. cbn.
  destruct (Proxy.large_upload_reported st); [done|]. cbn.
  by destruct (_ <? _)%Z.
Qed.

Lemma len_at_least_0 s : (0 <= len s)%Z.
Proof. unfold len. lia. Qed.

(** One chunk of the client that is forwarded. *)
Lemma pumped_chunk st target config data ev t r :
  Proxy.sni_mismatch st target data = None → is_empty data = false →
  pumped (Proxy.count_upload config st data).2 target config t r →
  collect recorded ev = upload_events (Proxy.large_upload_reported st) (large_upload_threshold_bytes config)
                          (Proxy.uploaded st + len data) →
  gather client_bytes ev = "" → gather tunnel_down ev = "" → collect tunnel_up ev = [] →
  gather upstream_bytes ev = data →
  pumped st target config (Call (OnNet Select) (FromClient (Ok data)) :: ev ++ t) r.
Proof.
  intros Hm Hne [Hcd Hup] Hrec Hc Hd Hu Hg.
  set (c := Call (OnNet (DateTime := DateTime) Select) (FromClient (Ok data))).
  assert (∀ f, gather f (c :: ev ++ t) = f c +:+ (gather f ev +:+ gather f t)) as Hga.
  { intros f. by rewrite <- gather_app. }
  assert (∀ A (f : _ → list A), collect f (c :: ev ++ t) = f c ++ (collect f ev ++ collect f t)) as Hca.
  { intros A f. by rewrite <- collect_app. }
  unfold pumped. rewrite !Hga, !Hca, Hrec, Hc, Hd, Hu, Hg.
  assert (tunnel_up c = [data]) as -> by (cbn; by rewrite Hne). split; [exact Hcd|].
  change (first_mismatch (Proxy.awaiting_first_client_bytes st) target ([data] ++ [] ++ collect tunnel_up t))
    with (Proxy.sni_mismatch st target data). rewrite Hm.
  destruct Hup as [-> ->]. split; [done|].
  change (Utf8.concat_strings ([data] ++ [] ++ collect tunnel_up t))
    with (data +:+ Utf8.concat_strings (collect tunnel_up t)).
  rewrite len_concat, Z.add_assoc. apply upload_events_step, len_at_least_0.
Qed.

Lemma pump_run turns target config st t r :
  counted st config → runs (Proxy.pump (DateTime := DateTime) turns target config st) t r →
  pumped st target config t r.
Proof.
  revert st t. induction turns as [|turns IH]; intros st t Hst H.
  { destruct H as [-> ->]. by apply pumped_quiet. }
  cbn [Proxy.pump] in H. unfold Proxy.on in H. prog_step H. destruct r0 as [[data|e]|[data|e]].
  - destruct (is_empty data) eqn:He.
    { destruct H as [-> ->]. apply pumped_quiet; try done. cbn. by rewrite He. }
    destruct (Proxy.sni_mismatch st target data) as [sni|] eqn:Hm.
    { prog_step H. destruct H as [-> ->]. apply record_run in H0 as [now ->]. split; [done|]. cbn. rewrite He.
      cbn. change (first_mismatch _ _ _) with (Proxy.sni_mismatch st target data). by rewrite Hm. }
    pose proof (count_upload_counted config st data) as Hcnt.
    pose proof (pumped_chunk st target config data) as Hone.
    destruct (Proxy.count_upload config st data) as [report st'] eqn:Hst'.
    assert (report = (negb (Proxy.large_upload_reported st) &&
      (large_upload_threshold_bytes config <? Proxy.uploaded st + len data)%Z)) as Hrep by (by injection Hst').
    do 2 prog_step H. rename t into ev, t0 into rest.
    assert (pumped st' target config rest r) as Hrest.
    { destruct r0; [by apply IH|]. destruct H as [-> ->]. by apply pumped_quiet. }
    rewrite (app_assoc ev [_] rest : ev ++ Call (OnNet (UpstreamWrite data)) r0 :: rest = _).
    apply Hone; try done; clear Hone.
    all: rewrite ?collect_app, ?gather_app.
    all: assert (ev = [] ∧ report = false ∨ report = true ∧ ∃ now d, ev = [Call (OnNet UtcNow) now;
      Call (OnNet (RecordEvent {| pe_event_type := LargeUpload; pe_host := ct_host target;
                pe_port := ct_port target; pe_occurred_at := now; pe_detail := Some d |})) tt]) as Hev
      by (destruct report; [right; apply record_run in H0 as [? ->]; eauto|left; by destruct H0]).
    all: destruct Hev as [[-> Hr]|(Hr & now & d & ->)]; cbn; rewrite ?string_app_nil; try done.
    all: unfold upload_events; by rewrite <- Hrep, Hr.
  - destruct H as [-> ->]. by apply pumped_quiet.
  - destruct (is_empty data) eqn:He.
    { destruct data; [|done]. destruct H as [-> ->]. by apply pumped_quiet. }
    prog_step H.
    assert (pumped st target config t r) as Hrest.
    { destruct r0; [by apply IH|]. destruct H as [-> ->]. by apply pumped_quiet. }
    destruct Hrest as [Hcd Hup]. split; [|exact Hup].
    change (data +:+ gather client_bytes t = data +:+ gather tunnel_down t). by rewrite Hcd.
  - destruct H as [-> ->]. by apply pumped_quiet.
Qed.
(** ** A whole connection *)

Definition idle : Proxy.Pump → Prop := λ st, Proxy.uploaded st = 0%Z ∧ Proxy.large_upload_reported st = false.

(** The calls of a part of the connection in which nothing is relayed. *)
Definition silent (t : trace) : Prop :=
  gather upstream_bytes t = "" ∧ gather client_bytes t = "" ∧ gather tunnel_down t = "" ∧
  collect tunnel_up t = [] ∧ collect recorded t = [].

Lemma silent_app t t' : silent t → silent t' → silent (t ++ t').
Proof.
  intros (H1 & H2 & H3 & H4 & H5) (H6 & H7 & H8 & H9 & H10). unfold silent.
  by rewrite !gather_app, !collect_app, H1, H2, H3, H4, H5, H6, H7, H8, H9, H10.
Qed.

Lemma pumped_then_silent st target config t t' r :
  pumped st target config t r → silent t' → pumped st target config (t ++ t') r.
Proof.
  intros Hp (H1 & H2 & H3 & H4 & H5). unfold pumped.
  by rewrite !gather_app, !collect_app, H1, H2, H3, H4, H5, !string_app_nil, !app_nil_r.
Qed.

Definition start (check_sni : bool) : Proxy.Pump :=
  {| Proxy.uploaded := 0; Proxy.large_upload_reported := false;
     Proxy.awaiting_first_client_bytes := check_sni |}.

Lemma tunnel_run turns target config check_sni t r :
  (0 <= large_upload_threshold_bytes config)%Z →
  runs (Proxy.tunnel (DateTime := DateTime) turns target config check_sni) t r →
  pumped (start check_sni) target config t r.
Proof.
  intros Hth H. unfold Proxy.tunnel in H. prog_step H. apply pump_run in H0.
  2:{ unfold counted, upload_events. cbn. by rewrite (proj2 (Z.ltb_ge _ _)). }
  destruct a as [[[]|e]|]; unfold Proxy.on in H; prog_run H; subst.
  - by apply pumped_then_silent.
  - by rewrite app_nil_r.
  - by rewrite app_nil_r.
Qed.

Definition established : string := "HTTP/1.1 200 Connection Established" +:+ Proxy.CRLF +:+ Proxy.CRLF.

(** What the client is told, and what the destination is sent, before the
    tunnel. *)
Definition greeting (target : ConnectTarget) : string :=
  match ct_protocol target with Connect => established | HttpForward => "" end.
Definition preamble (target : ConnectTarget) (head_text leftover : string) : string :=
  match ct_protocol target with
  | Connect => leftover
  | HttpForward => Proxy.rewrite_forward_head head_text target +:+ leftover
  end.
Definition checks_sni (config : ProxyConfig) (target : ConnectTarget) (leftover : string) : bool :=
  match ct_protocol target with
  | Connect => enforce_sni_match config && is_empty leftover
  | HttpForward => false
  end.

Definition is_select : ∀ T, ProxyE DateTime T → Prop :=
  λ T e, match e with OnNet Select => True | _ => False end.
Definition tunnelled (t : trace) : Prop := Exists (event_sat is_select) t.

(** The part before the tunnel. *)
Definition opening (target : ConnectTarget) (head_text leftover : string) (t : trace) : Prop :=
  gather upstream_bytes t = preamble target head_text leftover ∧ gather client_bytes t = greeting target ∧
  gather tunnel_down t = "" ∧ collect tunnel_up t = [] ∧ collect recorded t = [].

Lemma forward_leftover_run leftover t r :
  runs (Proxy.forward_leftover (DateTime := DateTime) leftover) t r →
  (leftover = "" ∧ t = []) ∨ t = [Call (OnNet (UpstreamWrite leftover)) r].
Proof.
  unfold Proxy.forward_leftover. destruct leftover; simpl; intros H.
  - left. by destruct H.
  - right. by apply runs_trigger in H.
Qed.

Ltac no_tunnel Hs :=
  exfalso; revert Hs; unfold tunnelled; rewrite ?Exists_app, ?Exists_cons, ?Exists_nil; cbn; tauto.

(** After the first write, the bytes that came with the head and the tunnel. *)
Lemma leftover_then_tunnel turns config target leftover check t r :
  runs (w ← Proxy.forward_leftover (DateTime := DateTime) leftover;
        match w with
        | Err e => mret (Some (Err e))
        | Ok _ => Proxy.tunnel turns target config check
        end) t r → tunnelled t →
  ∃ t1 t2, t = t1 ++ t2 ∧ gather upstream_bytes t1 = leftover ∧ gather client_bytes t1 = "" ∧
    gather tunnel_down t1 = "" ∧ collect tunnel_up t1 = [] ∧ collect recorded t1 = [] ∧
    runs (Proxy.tunnel turns target config check) t2 r.
Proof.
  intros H Hs. prog_step H. apply forward_leftover_run in H0. destruct a.
  - exists t0, t1. split; [done|].
    by destruct H0 as [[-> ->]| ->]; cbn; rewrite ?string_app_nil.
  - destruct H as [-> ->]. destruct H0 as [[-> ->]| ->]; no_tunnel Hs.
Qed.

Lemma serve_run turns config target head_text leftover t r :
  runs (Proxy.serve (DateTime := DateTime) turns config target head_text leftover) t r → tunnelled t →
  ∃ t1 t2, t = t1 ++ t2 ∧ opening target head_text leftover t1 ∧
    runs (Proxy.tunnel turns target config (checks_sni config target leftover)) t2 r.
Proof.
  unfold Proxy.serve, opening, preamble, greeting, checks_sni, Proxy.on. intros H Hs.
  destruct (ct_protocol target); prog_step H;
    (destruct r0; [|destruct H as [-> ->]; no_tunnel Hs]);
    (apply leftover_then_tunnel in H as (t1 & t2 & -> & Hu & Hc & Hd & Hup & Hr & H);
      [|by inversion Hs]);
    (eexists (_ :: t1), t2; split; [done|]; split; [|done]).
  all: rewrite !gather_cons, !collect_cons, Hu, Hc, Hd, Hup, Hr; cbn; by rewrite ?string_app_nil.
Qed.
(** Only the client is read. *)
Definition reads_client : ∀ T, ProxyE DateTime T → Prop :=
  λ T e, match e with OnNet ClientRead => True | _ => False end.

Lemma read_head_calls fuel buf : all_calls reads_client (Proxy.read_head_from (DateTime := DateTime) fuel buf).
Proof.
  revert buf. induction fuel as [|fuel IH]; intros buf; cbn [Proxy.read_head_from]; [done|].
  unfold Proxy.on. calls; done || apply IH.
Qed.

Lemma reads_silent t : Forall (event_sat reads_client) t → silent t.
Proof.
  induction 1 as [|[T e r] t He _ IH]; [done|].
  destruct e as [T e|]; [|done]. by destruct e.
Qed.

(** The request that the bytes of the client are. *)
Definition requested (t : trace) (head leftover : string) (target : ConnectTarget) : Prop :=
  gather head_bytes t = head +:+ leftover ∧ complete_head head leftover ∧
  Target.parse_request_target debug_str (Proxy.first_line (Utf8.from_utf8_lossy head)) = Ok target.

Lemma read_head_run t head leftover :
  runs (Proxy.read_head (DateTime := DateTime)) t (Ok (head, leftover)) →
  gather head_bytes t = head +:+ leftover ∧ complete_head head leftover ∧
  Forall (event_sat reads_client) t.
Proof.
  unfold Proxy.read_head. intros H.
  pose proof (all_calls_runs _ _ _ _ (read_head_calls _ _) H) as Hall.
  destruct (read_head_from_run _ "" _ _ (Nat.le_0_l _) H head leftover eq_refl) as [Hg Hc].
  split; [exact Hg|]. by split.
Qed.

Lemma write_simple_response_calls status body :
  all_calls (λ T (e : ProxyE DateTime T), match e with OnNet (ClientWrite _) | OnNet ClientShutdown => True | _ => False end)
    (Proxy.write_simple_response status body).
Proof. unfold Proxy.write_simple_response, Proxy.on. calls; done. Qed.

(** A part of the connection that only answers the client. *)
Lemma answer_no_tunnel status body t r :
  runs (Proxy.write_simple_response (DateTime := DateTime) status body) t r → ¬ tunnelled t.
Proof.
  intros H Hs. pose proof (all_calls_runs _ _ _ _ (write_simple_response_calls _ _) H) as Hall.
  apply Exists_exists in Hs as ([T e x] & Hin & He).
  rewrite Forall_forall in Hall. specialize (Hall _ Hin). cbn in *.
  destruct e as [T e|]; [destruct e|]; done.
Qed.

Lemma reads_no_tunnel t : Forall (event_sat reads_client) t → ¬ tunnelled t.
Proof.
  intros Hall Hs. apply Exists_exists in Hs as ([T e x] & Hin & He).
  rewrite Forall_forall in Hall. specialize (Hall _ Hin). cbn in *. destruct e as [T e|]; [destruct e|]; done.
Qed.

Lemma dial_run turns config target head_text leftover reason t r :
  runs (Proxy.dial (DateTime := DateTime) turns config target head_text leftover reason) t r → tunnelled t →
  ∃ ev t1 t2 r', t = Call (OnNet (UpstreamConnect (ct_host target) (ct_port target))) (Some (Ok tt)) ::
                     ev ++ t1 ++ t2 ∧
    collect recorded ev = [EgressAllowed] ∧ gather upstream_bytes ev = "" ∧ gather client_bytes ev = "" ∧
    gather tunnel_down ev = "" ∧ collect tunnel_up ev = [] ∧
    opening target head_text leftover t1 ∧
    runs (Proxy.tunnel turns target config (checks_sni config target leftover)) t2 r'.
Proof.
  unfold Proxy.dial. intros H Hs. unfold Proxy.on in H. prog_step H.
  destruct r0 as [[[]|e]|].
  - do 2 prog_step H. destruct H as [-> ->]. apply record_run in H0 as [now ->].
    apply serve_run in H1 as (t1 & t2 & -> & Ho & H).
    2:{ rewrite app_nil_r in Hs. do 3 (apply Exists_cons in Hs as [[]|Hs]). exact Hs. }
    rewrite app_nil_r. eexists [_; _], t1, t2, _. by split.
  - prog_step H. destruct H as [-> ->]. apply answer_no_tunnel in H0.
    exfalso. apply Exists_cons in Hs as [[]|Hs]. by rewrite app_nil_r in Hs.
  - prog_step H. destruct H as [-> ->]. apply answer_no_tunnel in H0.
    exfalso. apply Exists_cons in Hs as [[]|Hs]. by rewrite app_nil_r in Hs.
Qed.
(** The head is not read again. *)
Definition past_head : ∀ T, ProxyE DateTime T → Prop :=
  λ T e, match e with OnNet ClientRead => False | _ => True end.

Lemma pump_past_head turns target config st :
  all_calls past_head (Proxy.pump (DateTime := DateTime) turns target config st).
Proof.
  revert st. induction turns as [|turns IH]; intros st; cbn [Proxy.pump]; [done|].
  unfold Proxy.on, Proxy.record, Proxy.on. calls; done || apply IH.
Qed.

Lemma dial_past_head turns config target head_text leftover reason :
  all_calls past_head (Proxy.dial (DateTime := DateTime) turns config target head_text leftover reason).
Proof.
  unfold Proxy.dial, Proxy.serve, Proxy.tunnel, Proxy.forward_leftover, Proxy.write_simple_response, Proxy.record, Proxy.on.
  calls; done || apply pump_past_head.
Qed.

Lemma past_head_bytes t : Forall (event_sat past_head) t → gather head_bytes t = "".
Proof.
  induction 1 as [|[T e r] t He _ IH]; [done|]. rewrite gather_cons, IH.
  destruct e as [T e|]; [|done]. by destruct e.
Qed.

(** The connection up to the tunnel. *)
Lemma connection_run turns config t r :
  runs (Proxy.handle_connection (DateTime := DateTime) debug_str turns config) t r → tunnelled t →
  ∃ t0 head leftover target o t', t = t0 ++ Call (Decide (ct_host target) (ct_port target)) o :: t' ∧
    Forall (event_sat reads_client) t0 ∧ requested t0 head leftover target ∧
    Decider.is_allowed o = true ∧ tunnelled t' ∧
    runs (Proxy.dial turns config target (Utf8.from_utf8_lossy head) leftover (eco_reason o)) t' r.
Proof.
  unfold Proxy.handle_connection, Proxy.bad_request. intros H Hs. prog_step H. destruct a as [[head leftover]|err].
  2:{ exfalso. prog_step H. destruct H as [-> ->]. rewrite app_nil_r in Hs. apply Exists_app in Hs as [Hs|Hs].
      - by apply (all_calls_runs _ _ _ _ (read_head_calls _ _)), reads_no_tunnel in H0.
      - by apply answer_no_tunnel in H1. }
  apply read_head_run in H0 as (Hg & Hc & Hall).
  destruct (Target.parse_request_target _ _) as [target|err] eqn:Hp.
  2:{ exfalso. prog_step H. destruct H as [-> ->]. rewrite app_nil_r in Hs. apply Exists_app in Hs as [Hs|Hs].
      - by apply reads_no_tunnel in Hs.
      - by apply answer_no_tunnel in H0. }
  prog_step H. apply Exists_app in Hs as [Hs|Hs]; [by apply reads_no_tunnel in Hs|].
  apply Exists_cons in Hs as [[]|Hs]. destruct (Decider.is_allowed r0) eqn:Ha; cbn [negb] in H.
  - exists t0, head, leftover, target, r0, t. by split_and!.
  - exfalso. do 2 prog_step H. destruct H as [-> ->]. rewrite app_nil_r in Hs.
    apply record_run in H0 as [now ->]. apply Exists_app in Hs as [Hs|Hs]; [no_tunnel Hs|].
    by apply answer_no_tunnel in H1.
Qed.

(** The server name is looked at only when nothing was sent before. *)
Lemma no_preamble config target leftover chunks head_text s :
  first_mismatch (checks_sni config target leftover) target chunks = Some s →
  preamble target head_text leftover = "".
Proof.
  unfold first_mismatch, checks_sni, preamble. destruct (ct_protocol target); [|done].
  destruct leftover; [done|]. by rewrite andb_false_r.
Qed.

(** C18: what a connection relays.  Once the tunnel of a connection is open, the
    destination has been sent the rewritten head of a forwarded request (nothing
    of the head for CONNECT), what came with the head, and then the client's
    bytes as they were read; the client has been sent the answer to CONNECT and
    the destination's bytes as they were read.  A large upload is recorded once,
    exactly when the bytes of the tunnel pass the threshold.  When the tunnel's
    first bytes are looked at and name another TLS host than the authorised one,
    nothing at all has been sent and the mismatch is recorded. *)
Theorem connection_relays_exactly turns config t r :
  (0 <= large_upload_threshold_bytes config)%Z →
  runs (Proxy.handle_connection (DateTime := DateTime) debug_str turns config) t r → tunnelled t →
  ∃ head leftover target, requested t head leftover target ∧
    let chunks := collect tunnel_up t in
    gather client_bytes t = greeting target +:+ gather tunnel_down t ∧
    match first_mismatch (checks_sni config target leftover) target chunks with
    | Some _ => gather upstream_bytes t = "" ∧ collect recorded t = [EgressAllowed; SniMismatch]
    | None =>
        gather upstream_bytes t
          = preamble target (Utf8.from_utf8_lossy head) leftover +:+ Utf8.concat_strings chunks ∧
        collect recorded t = EgressAllowed :: upload_events false (large_upload_threshold_bytes config)
                                                (len (Utf8.concat_strings chunks))
    end.
Proof.
  intros Hth H Hs. apply connection_run in H as (t0 & head & leftover & target & o & t' & -> & Hall & Hreq & _ & Hs' & H);
    [|done]. clear Hs.
  pose proof (past_head_bytes _ (all_calls_runs _ _ _ _ (dial_past_head _ _ _ _ _ _) H)) as Hhead.
  apply dial_run in H as (ev & t1 & t2 & r' & -> & Hr1 & Hu1 & Hc1 & Hd1 & Hp1 & (Hu2 & Hc2 & Hd2 & Hp2 & Hr2) & H);
    [|done]. clear Hs'.
  apply tunnel_run in H as [Hcd Hup]; [|done].
  apply reads_silent in Hall as (Hu0 & Hc0 & Hd0 & Hp0 & Hr0).
  exists head, leftover, target. split.
  { destruct Hreq as (Hg & Hc & Hp). split; [|by split]. rewrite gather_app, gather_cons, Hg, Hhead. apply string_app_nil. }
  rewrite !collect_app, !gather_app, !collect_cons, !gather_cons, !collect_app, !gather_app,
    Hu0, Hc0, Hd0, Hp0, Hr0, Hu1, Hc1, Hd1, Hp1, Hr1, Hu2, Hc2, Hd2, Hp2, Hr2, <- Hcd.
  cbn [start Proxy.awaiting_first_client_bytes Proxy.large_upload_reported Proxy.uploaded] in Hup.
  split; [done|]. cbn [app].
  change (tunnel_up (Call (Decide (ct_host target) (ct_port target)) o)) with (@nil string).
  change (tunnel_up (Call (OnNet (UpstreamConnect (ct_host target) (ct_port target))) (Some (Ok tt))))
    with (@nil string). cbn [app].
  destruct (first_mismatch _ _ (collect tunnel_up t2)) eqn:Hm.
  - destruct Hup as (-> & -> & _). split; [|done]. rewrite (no_preamble _ _ _ _ _ _ Hm). done.
  - destruct Hup as [-> ->]. by split.
Qed.

(** ** Nothing leaves before the decision *)

Definition is_decide : ∀ T, ProxyE DateTime T → Prop :=
  λ T e, match e with Decide _ _ => True | _ => False end.

(** When a call may be made, after the calls [s]: the decider is asked once, for
    the destination of the request the client has sent; a connection is opened
    to a destination it allowed; and the destination is written to when there is
    such a connection. *)
Definition permitted (s : trace) : ∀ T, ProxyE DateTime T → Prop :=
  λ T e, match e with
         | Decide host port =>
             ¬ Exists (event_sat is_decide) s ∧
             ∃ head leftover target, requested s head leftover target ∧
               host = ct_host target ∧ port = ct_port target
         | OnNet (UpstreamConnect host port) =>
             ∃ o, Call (Decide host port) o ∈ s ∧ Decider.is_allowed o = true
         | OnNet (UpstreamWrite _) | OnNet UpstreamShutdown | OnNet Select =>
             ∃ host port, Call (OnNet (UpstreamConnect host port)) (Some (Ok tt)) ∈ s
         | _ => True
         end.

(** Calls that are always permitted. *)
Definition harmless : ∀ T, ProxyE DateTime T → Prop :=
  λ T e, match e with
         | OnNet (ClientRead | ClientWrite _ | ClientShutdown | UtcNow | RecordEvent _) => True
         | _ => False
         end.

Lemma harmless_permitted s T (e : ProxyE DateTime T) : harmless T e → permitted s T e.
Proof. destruct e as [T e|]; [destruct e|]; done. Qed.

Lemma harmless_safe {A} (p : prog (ProxyE DateTime) A) (Q : trace → A → Prop) s :
  all_calls harmless p → (∀ t a, runs p t a → Q (s ++ t) a) → safe (Prog.checked permitted) Q s p.
Proof.
  intros Hp HQ. eapply safe_impl; [apply checked_monotone| |
    exact (all_calls_checked_runs _ _ p s harmless_permitted Hp)].
  intros s' a (t & -> & Hr). by apply HQ.
Qed.

(** Calls on a connection that was made. *)
Lemma connected_safe {A} (p : prog (ProxyE DateTime) A) s host port :
  Call (OnNet (UpstreamConnect host port)) (Some (Ok tt)) ∈ s →
  all_calls (λ T e, match e with Decide _ _ | OnNet (UpstreamConnect _ _) => False | _ => True end) p →
  safe (Prog.checked permitted) (λ _ _, True) s p.
Proof.
  revert s. induction p as [x|T e k IH]; intros s Hs; cbn [all_calls safe]; [done|]. intros [He Hk]. split.
  - destruct e as [T e|]; [destruct e|]; cbn; eauto; done.
  - intros r. apply IH; [|done]. apply elem_of_app. by left.
Qed.

Lemma pump_calls turns target config st :
  all_calls (λ T e, match e with Decide _ _ | OnNet (UpstreamConnect _ _) => False | _ => True end)
    (Proxy.pump (DateTime := DateTime) turns target config st).
Proof.
  revert st. induction turns as [|turns IH]; intros st; cbn [Proxy.pump]; [done|].
  unfold Proxy.on, Proxy.record, Proxy.on. calls; done || apply IH.
Qed.

Lemma dial_safe turns config target head_text leftover reason o s :
  Call (Decide (ct_host target) (ct_port target)) o ∈ s → Decider.is_allowed o = true →
  safe (Prog.checked permitted) (λ _ _, True) s
    (Proxy.dial (DateTime := DateTime) turns config target head_text leftover reason).
Proof.
  intros Hin Ha. unfold Proxy.dial, Proxy.on. cbn [trigger mbind prog_mbind prog_bind safe].
  split; [by exists o|]. intros [[[]|e]|].
  - apply (connected_safe _ _ (ct_host target) (ct_port target)); [apply elem_of_app; right; by left|].
    unfold Proxy.serve, Proxy.tunnel, Proxy.forward_leftover, Proxy.record, Proxy.on.
    calls; done || apply pump_calls.
  - apply harmless_safe; [|done]. unfold Proxy.write_simple_response, Proxy.on. calls; done.
  - apply harmless_safe; [|done]. unfold Proxy.write_simple_response, Proxy.on. calls; done.
Qed.

Lemma connection_safe turns config :
  safe (Prog.checked permitted) (λ _ _, True) []
    (Proxy.handle_connection (DateTime := DateTime) debug_str turns config).
Proof.
  unfold Proxy.handle_connection. eapply safe_mbind; [apply checked_monotone| |].
  { apply (harmless_safe _ (λ s r, runs Proxy.read_head s r)); [|done].
    apply (all_calls_impl reads_client); [|apply read_head_calls].
    intros T e. destruct e as [T e|]; [destruct e|]; done. }
  intros s [[head leftover]|err] Hr; cbn beta iota.
  2:{ apply harmless_safe; [|done]. unfold Proxy.bad_request, Proxy.write_simple_response, Proxy.on. calls; done. }
  apply read_head_run in Hr as (Hg & Hc & Hall).
  destruct (Target.parse_request_target _ _) as [target|err] eqn:Hp.
  2:{ apply harmless_safe; [|done]. unfold Proxy.bad_request, Proxy.write_simple_response, Proxy.on. calls; done. }
  cbn [trigger mbind prog_mbind prog_bind safe]. split.
  { split; [|by exists head, leftover, target].
    intros Hd. apply Exists_exists in Hd as ([T e x] & Hin & He). rewrite Forall_forall in Hall.
    specialize (Hall _ Hin). cbn in *. destruct e; done. }
  intros o. destruct (Decider.is_allowed o) eqn:Ha; cbn [negb].
  - apply (dial_safe _ _ _ _ _ _ o); [|done]. apply elem_of_app. right. by left.
  - apply harmless_safe; [|done].
    unfold Proxy.record, Proxy.write_simple_response, Proxy.on. calls; done.
Qed.

(** C17: the proxy is not open.  At every point of a connection, whatever the
    client, the network and the decider do: a connection is opened only to a host
    and port for which the decider has answered allow; it is asked once, for the
    destination that the request line of the client's complete head states; and
    nothing is written to, or read from, the destination without the connection
    that followed. *)
Theorem proxy_dials_only_allowed turns config t1 T (e : ProxyE DateTime T) r t2 :
  partial (Proxy.handle_connection debug_str turns config) (t1 ++ Call e r :: t2) → permitted t1 T e.
Proof. intros Hp. exact (checked_partial _ _ _ _ _ _ _ _ _ (connection_safe turns config) Hp). Qed.
End Connection.

(** ** With the deciders of the binary *)

Section Deployed.
Context {DateTime IpNet : Type} (contains : IpNet → IpAddr → bool) (debug_str : string → string).
Context `{HX : HostExternal}.
Abbreviation wire_trace := (list (event (Decider.WireE DateTime IpNet))).

Definition dials (host : string) (port : Z) : ∀ T, Decider.WireE DateTime IpNet T → Prop :=
  λ T e, match e with
         | Decider.Wire (UpstreamConnect h p) => h = host ∧ p = port
         | _ => False
         end.

(** The connection as the binary runs it. *)
Definition deployed (cli : Cli.Cli) (turns : nat) :
    prog (Decider.WireE DateTime IpNet) (option (Result unit ProxyError)) :=
  interp (Cli.decider contains cli) (Proxy.handle_connection debug_str turns (Cli.config cli)).

(** A connection that is opened is one for which the decider's program was run
    and allowed it. *)
Lemma deployed_dial cli turns t r host port :
  runs (deployed cli turns) t r → Exists (event_sat (dials host port)) t →
  ∃ tr o, runs (Cli.decider (DateTime := DateTime) contains cli _ (Decide host port)) tr o ∧ tr ⊆ t ∧
    Decider.is_allowed o = true.
Proof.
  intros (t' & ts & Hr & -> & Hf)%interp_runs (ev & Hin & Hev)%list.Exists_exists.
  assert (∃ x, Call (OnNet (UpstreamConnect host port)) x ∈ t') as [x Hx].
  { clear Hr. revert ev Hin Hev. induction Hf as [|[T e x] tr t' ts Hi _ IH]; intros ev Hin Hev;
      [by apply elem_of_nil in Hin|].
    cbn [concat] in Hin. apply elem_of_app in Hin as [Hin|Hin].
    2:{ destruct (IH ev Hin Hev) as [y Hy]. exists y. by right. }
    cbn in Hi. unfold Cli.decider in Hi. destruct e as [T e|h p].
    - assert (tr = [Call (Decider.Wire e) x]) as ->.
      { destruct (Cli.gateway_url cli); by apply runs_trigger in Hi. }
      apply list_elem_of_singleton in Hin as ->. cbn in Hev. destruct e; try done.
      destruct Hev as [-> ->]. exists x. by left.
    - exfalso. destruct (Cli.gateway_url cli); cbn in Hi.
      + unfold Decider.gateway_check in Hi. prog_run Hi;
          repeat match goal with H : _ ∈ _ :: _ |- _ => apply elem_of_cons in H as [->|H] end;
          try done; by apply elem_of_nil in Hin.
      + destruct Hi as [-> _]. by apply elem_of_nil in Hin. }
  apply list_elem_of_split in Hx as (t1 & t2 & ->).
  pose proof (checked_partial _ _ _ _ _ _ _ _ _ (connection_safe debug_str turns (Cli.config cli))
    (runs_partial _ _ _ Hr)) as (o & Ho & Ha).
  destruct (implements_in _ _ _ (Call (Decide host port) o) Hf) as (tr & Hi & Hsub).
  { apply elem_of_app. by left. }
  exists tr, o. by split_and!.
Qed.
Lemma gateway_check_allows d host port t o :
  runs (Decider.gateway_check (DateTime := DateTime) (IpNet := IpNet) d host port) t o →
  Decider.is_allowed o = true →
  ∃ status check,
    Call (Decider.GwPost (Decider.gd_check_url d) (Decider.gd_api_token d) (Decider.check_request d host))
      (Ok status) ∈ t ∧
    Decider.is_success status = true ∧ Call Decider.GwJson (Ok check) ∈ t ∧
    Decider.gr_decision check = "allow".
Proof.
  unfold Decider.gateway_check. intros H Ha. prog_run H; subst; try done.
  eexists _, _. split; [by left|]. split; [done|]. split; [right; by left|].
  by apply eqb_spec_true.
Qed.

(** The body of the check as the gateway's handler reads it: the fields that the
    proxy does not send have their defaults. *)
Definition as_received (q : Decider.GatewayCheckRequest IpNet) : EgressCheckRequest IpNet :=
  {| eq_agent_id := Decider.gq_agent_id q; eq_run_id := Decider.gq_run_id q;
     eq_sandbox_id := Decider.gq_sandbox_id q; eq_destination := Decider.gq_destination q;
     eq_tenant_rules := Decider.gq_tenant_rules q; eq_run_rules := Decider.gq_run_rules q;
     eq_deny_by_default := Decider.gq_deny_by_default q; eq_risk_level := "low";
     eq_source_trust := "trusted_internal_unsigned" |}.

(** The HTTP transport: an answer of success with a body is one that the handler
    of the gateway gave to the same request, for the tenant of the token. *)
Definition answered_by_gateway (tenant : string) (t : wire_trace) : Prop :=
  ∀ url token body status check,
    Call (Decider.GwPost url token body) (Ok status) ∈ t → Decider.is_success status = true →
    Call Decider.GwJson (Ok check) ∈ t →
    ∃ te st resp, runs (EgressApi.check_egress contains tenant (as_received body)) te (Answered st resp) ∧
      Decider.gr_decision check = ep_decision resp.

(** The rules of the command line allow [host]. *)
Definition ruled_in (cli : Cli.Cli) (host : string) : Prop :=
  ¬ Egress.ruled contains Deny (Cli.rules cli) (Decider.destination_for host) ∧
  (Cli.allow_by_default cli = false →
   Egress.ruled contains Allow (Cli.rules cli) (Decider.destination_for host)).

(** What the gateway has done about [host] in the calls [te]. *)
Definition cleared_by_gateway (cli : Cli.Cli (IpNet := IpNet)) (tenant host : string)
    (te : list (event EgressE)) : Prop :=
  (∃ now, Call (EgIsBanned tenant (EgressApi.ban_target_type host) host now) (Ok false) ∈ te) ∧
  (∀ kind id, (kind, Some id) ∈ [("run", Cli.run_id cli); ("sandbox", Cli.sandbox_id cli);
                                 ("agent", Cli.agent_id cli)] →
     Call (EgIsQuarantined tenant kind id) (Ok false) ∈ te) ∧
  ∃ ev r, Call (EgInsertRuntimeEvent ev) r ∈ te ∧ rte_event_type ev = "egress_allowed" ∧
    rte_agent_id ev = Cli.agent_id cli ∧ rte_tenant_id ev = tenant.

(** C19: what a workload behind the proxy can reach.  The binary opens a connection
    only to a host that its rules do not deny and, unless it was told to allow by
    default, allow; with a gateway, only to a host for which that gateway's
    handler has found no ban and no quarantine of the run, the sandbox or the
    agent, and has asked storage to insert the event of the allowed call.  Whether
    that insert succeeded is not looked at by the handler, so the event can be
    missing ([EgressApi.lost_event_still_allows]). *)
Theorem proxied_egress_is_authorised cli turns t r host port tenant :
  runs (deployed cli turns) t r → Exists (event_sat (dials host port)) t →
  answered_by_gateway tenant t →
  ruled_in cli host ∧
  match Cli.gateway_url cli with
  | None => True
  | Some _ => ∃ te st resp q, runs (EgressApi.check_egress contains tenant q) te (Answered st resp) ∧
                eq_destination q = host ∧ cleared_by_gateway cli tenant host te
  end.
Proof.
  intros H Hd Hgw. destruct (deployed_dial _ _ _ _ _ _ H Hd) as (tr & o & Hr & Hsub & Ha). clear H Hd.
  unfold Cli.decider in Hr. destruct (Cli.gateway_url cli) as [url|].
  - destruct (gateway_check_allows _ _ port _ _ Hr Ha) as (status & check & Hp & Hs & Hj & Hall).
    destruct (Hgw _ _ _ _ _ (Hsub _ Hp) Hs (Hsub _ Hj)) as (te & st & resp & Hte & Hdec).
    rewrite Hall in Hdec.
    destruct (EgressApi.check_egress_run _ _ _ _ _ _ Hte) as (d & now & Hd' & Hok & _ & id & x & Hev).
    destruct d; [|by rewrite Hd' in Hdec]. destruct (Hok eq_refl) as (Hban & Hq & Hno & Hyes). cbn in Hno, Hyes.
    rewrite app_nil_r in Hno, Hyes. split.
    + split; [done|]. intros Hdef. apply Hyes. by rewrite Hdef.
    + exists te, st, resp, (as_received (Decider.check_request (Cli.gateway_decider cli url) host)).
      split; [done|]. split; [done|]. split; [by exists now|]. split; [exact Hq|].
      eexists _, x. split; [exact Hev|]. done.
  - split; [|done]. destruct Hr as [-> ->]. unfold Decider.policy_check, Decider.is_allowed in Ha.
    destruct (Egress.check _ _ _) eqn:Hc; [|done]. apply Egress.check_allow in Hc as [Hno Hyes].
    rewrite app_nil_r in Hno, Hyes. split; [done|]. intros Hdef. apply Hyes. by rewrite Hdef.
Qed.
End Deployed.
