(* ===== verification/ProxyScenarios.v ===== *)
(** * Connections through the egress proxy

    [Proxy.v] run on a scripted network, with and without the gateway of
    [EgressApi.v] behind the decider: the theorems of [ProxySafety.v] on concrete
    connections, and the connections in which the server name of a TLS handshake
    or the address of the destination is not looked at. *)

From S2P Require Import Prelude RustString Net Prog Risk Models Records Runtime Egress Bans Gateway EgressApi Sni Proxy ProxySafety.

Section Concrete.
#[local] Existing Instance plain_host.

(** ** The network *)

Definition in_no_net (net : unit) (ip : IpAddr) : bool := false.

(** What the client will send before and in the tunnel, the stores of the
    gateway, and the answer of the gateway that was not read yet. *)
Record World := {
  w_reads : list (option (Result string string));
  w_turns : list Readable;
  w_db : EgressDb;
  w_answer : option EgressCheckResponse }.

Definition network {T} (e : NetE Z T) (w : World) : T * World :=
  match e in NetE _ T return T * World with
  | ClientRead =>
      (default None (head (w_reads w)),
       {| w_reads := tail (w_reads w); w_turns := w_turns w; w_db := w_db w; w_answer := w_answer w |})
  | Select =>
      (default (FromClient (Ok "")) (head (w_turns w)),
       {| w_reads := w_reads w; w_turns := tail (w_turns w); w_db := w_db w; w_answer := w_answer w |})
  | UpstreamConnect _ _ => (Some (Ok tt), w)
  | ClientWrite _ | ClientShutdown | UpstreamWrite _ | UpstreamShutdown => (Ok tt, w)
  | UtcNow => (0%Z, w)
  | RecordEvent _ => (tt, w)
  end.

(** A decider that allows everything. *)
Definition permissive : handler (ProxyE Z) World := λ T e w,
  match e in ProxyE _ T return T * World with
  | OnNet e => network e w
  | Decide _ _ => (Decider.allow "ok", w)
  end.

(** The HTTP client, with the handler of the gateway at the other end. *)
Definition wired : handler (Decider.WireE Z unit) World := λ T e w,
  match e in Decider.WireE _ _ T return T * World with
  | Decider.Wire e => network e w
  | Decider.GwPost _ _ body =>
      let '(a, db, _) := run egress_db (EgressApi.check_egress in_no_net "acme" (as_received body)) (w_db w) in
      match a with
      | Answered st resp =>
          (Ok {| Decider.hs_code := st; Decider.hs_display := "200 OK" |},
           {| w_reads := w_reads w; w_turns := w_turns w; w_db := db; w_answer := Some resp |})
      | Refused st _ => (Ok {| Decider.hs_code := st; Decider.hs_display := "500 Internal Server Error" |}, w)
      end
  | Decider.GwJson =>
      (match w_answer w with
       | Some resp => Ok {| Decider.gr_decision := ep_decision resp; Decider.gr_reason := ep_reason resp |}
       | None => Err "no body"
       end, w)
  end.

(** ** A TLS handshake *)

Definition be16 (n : nat) : string := bytes [n / 256; n mod 256]%nat.
Definition sized (s : string) : string := be16 (String.length s) +:+ s.

(** A minimal ClientHello that carries [sni]. *)
Definition client_hello (sni : string) : string :=
  let ext_data := sized (bytes [0]%nat +:+ sized sni) in
  let extensions := sized (be16 0 +:+ sized ext_data) in
  let hello := bytes (replicate 34 3%nat) +:+ bytes [0]%nat +:+ sized (bytes [19; 1]%nat) +:+
               bytes [1; 0]%nat +:+ extensions in
  let handshake := bytes [1; 0]%nat +:+ sized hello in
  bytes [22; 3; 1]%nat +:+ sized handshake.

Example hello_names_its_host : Proxy.sni_of (client_hello "API.Example.COM") = Some "api.example.com".
Proof. vm_compute. reflexivity. Qed.

Definition connect_line (authority : string) : string :=
  "CONNECT " +:+ authority +:+ " HTTP/1.1" +:+ Proxy.CRLF +:+ Proxy.CRLF.

(** The client sends [head] in one segment and then [chunks]. *)
Definition client (head : string) (chunks : list string) : World :=
  {| w_reads := [Some (Ok head)]; w_turns := map (λ c, FromClient (Ok c)) chunks; w_db := empty_db;
     w_answer := None |}.

Definition connection (w : World) :=
  run permissive (Proxy.handle_connection (λ s, s) 8 Proxy.default_config) w.

(** ** The theorems at concrete connections *)

Definition honest : World := client (connect_line "api.example.com:443") [client_hello "api.example.com"; "data"].
Definition fronted : World := client (connect_line "api.example.com:443") [client_hello "evil.example"; "data"].

Lemma connection_relays_exactly_witness :
  collect recorded (connection fronted).2 = [EgressAllowed; SniMismatch] ∧
  ∃ head leftover target, requested (λ s, s) (connection fronted).2 head leftover target.
Proof.
  split; [vm_compute; reflexivity|].
  destruct (connection_relays_exactly (λ s, s) 8 Proxy.default_config (connection fronted).2
    (connection fronted).1.1) as (head & leftover & target & Hr & _).
  - done.
  - apply run_runs.
  - vm_compute. auto 20 using Exists_cons_hd, Exists_cons_tl.
  - eauto.
Defined.

Lemma proxy_dials_only_allowed_witness :
  ∃ o, Call (Decide "api.example.com" 443) o ∈ take 2 (connection honest).2 ∧ Decider.is_allowed o = true.
Proof.
  apply (proxy_dials_only_allowed (λ s, s) 8 Proxy.default_config (take 2 (connection honest).2) _
    (OnNet (UpstreamConnect "api.example.com" 443)) (Some (Ok tt)) (drop 3 (connection honest).2)).
  assert (take 2 (connection honest).2 ++
    Call (OnNet (UpstreamConnect "api.example.com" 443)) (Some (Ok tt)) :: drop 3 (connection honest).2
    = (connection honest).2) as -> by (vm_compute; reflexivity).
  eapply runs_partial, run_runs.
Defined.
(** *** With the gateway *)

Definition cli : Cli.Cli (IpNet := unit) :=
  {| Cli.gateway_url := Some "http://127.0.0.1:8080"; Cli.api_token := "token";
     Cli.allow_domains := ["example.com"]; Cli.deny_domains := []; Cli.allow_cidrs := [];
     Cli.deny_cidrs := []; Cli.allow_by_default := false; Cli.agent_id := Some "agent-1";
     Cli.run_id := None; Cli.sandbox_id := None; Cli.cli_large_upload_threshold_bytes := 1000;
     Cli.no_enforce_sni_match := false |}.

Definition proxied (w : World) := run wired (deployed in_no_net (λ s, s) cli 8) w.

(** The posts and the bodies of a trace. *)
Definition posted (ev : event (Decider.WireE Z unit)) : option (Decider.GatewayCheckRequest unit) :=
  match ev with
  | Call e _ => match e with Decider.GwPost _ _ body => Some body | _ => None end
  end.
Definition body_read (ev : event (Decider.WireE Z unit)) : option (Result Decider.GatewayCheckResponse string) :=
  match ev with
  | Call e r => match e in Decider.WireE _ _ T return T → option (Result Decider.GatewayCheckResponse string) with
                | Decider.GwJson => λ r, Some r
                | _ => λ _, None
                end r
  end.

Definition the_check : Decider.GatewayCheckRequest unit :=
  Decider.check_request (Cli.gateway_decider cli "http://127.0.0.1:8080") "api.example.com".
Definition the_run := run egress_db (EgressApi.check_egress in_no_net "acme" (as_received the_check)) empty_db.

Lemma honest_answered : answered_by_gateway in_no_net "acme" (proxied honest).2.
Proof.
  intros url token body status check Hp _ Hj.
  apply (list_elem_of_fmap_2 posted) in Hp. apply (list_elem_of_fmap_2 body_read) in Hj.
  assert (Forall (λ o, o = None ∨ o = Some the_check) (posted <$> (proxied honest).2)) as Hposts.
  { vm_compute. repeat (apply Forall_cons; [auto|]). apply Forall_nil. }
  rewrite list.Forall_forall in Hposts. destruct (Hposts _ Hp) as [[=]|[= ->]].
  assert (Forall (λ o, o = None ∨ o = Some (Ok {| Decider.gr_decision := "allow";
    Decider.gr_reason := "allowed by rule" |})) (body_read <$> (proxied honest).2)) as Hbodies.
  { vm_compute. repeat (apply Forall_cons; [auto|]). apply Forall_nil. }
  rewrite list.Forall_forall in Hbodies. destruct (Hbodies _ Hj) as [[=]|[= ->]].
  pose proof (run_runs egress_db (EgressApi.check_egress in_no_net "acme" (as_received the_check)) empty_db) as H.
  destruct the_run.1.1 as [st resp|] eqn:Ha; [|vm_compute in Ha; discriminate Ha].
  exists the_run.2, st, resp. unfold the_run in *. rewrite Ha in H. split; [exact H|].
  vm_compute in Ha. by injection Ha as <- <-.
Qed.

Lemma proxied_egress_is_authorised_witness :
  ruled_in in_no_net cli "api.example.com" ∧
  ∃ te st resp q,
    runs (EgressApi.check_egress in_no_net "acme" q) te (Answered st resp) ∧
    eq_destination q = "api.example.com" ∧ cleared_by_gateway cli "acme" "api.example.com" te.
Proof.
  apply (proxied_egress_is_authorised in_no_net (λ s, s) cli 8 (proxied honest).2 (proxied honest).1.1
    "api.example.com" 443 "acme").
  - apply run_runs.
  - vm_compute. do 3 apply Exists_cons_tl. by apply Exists_cons_hd.
  - exact honest_answered.
Defined.

(** ** What is not looked at *)

(** The server name is checked in the first read of the tunnel only.  A client
    that sends its handshake right behind the CONNECT line, or cuts it in two,
    reaches the destination with another name. *)
Example early_hello_is_not_checked :
  let w := client (connect_line "api.example.com:443" +:+ client_hello "evil.example") ["data"] in
  gather upstream_bytes (connection w).2 = client_hello "evil.example" +:+ "data" ∧
  collect recorded (connection w).2 = [EgressAllowed].
Proof. split; vm_compute; reflexivity. Qed.

Example split_hello_is_not_checked :
  let '(first, second) := split_at 20 (client_hello "evil.example") in
  let w := client (connect_line "api.example.com:443") [first; second; "data"] in
  gather upstream_bytes (connection w).2 = client_hello "evil.example" +:+ "data" ∧
  collect recorded (connection w).2 = [EgressAllowed].
Proof. split; vm_compute; reflexivity. Qed.

(** The rules see addresses only in their one spelling: the resolver takes the
    number 2130706433 and the name of a host in a denied network for an address
    of that network, the policy takes both for domains. *)
Definition loopback (net : unit) (ip : IpAddr) : bool :=
  match ip with V4 v4 => (v4_a v4 =? 127)%Z | V6 _ => false end.

Example address_rules_see_one_spelling :
  let policy := Egress.policy_new false [{| er_action := Deny; er_matcher := Cidr tt |}] [] in
  let decided host := Decider.is_allowed (Decider.policy_check loopback policy host 80) in
  (decided "127.0.0.1", decided "2130706433", decided "127.1", decided "0x7f.0.0.1", decided "localhost")
    = (false, true, true, true, true).
Proof. vm_compute. reflexivity. Qed.
End Concrete.
