(* ===== verification/Spool.v ===== *)
(** * The sensor's durable spool

    Models [src/bins/aegis-node-sensor/src/spool.rs]: one append-only log of
    checksummed frames per lane, a watermark of what was acknowledged, and the
    compaction of the log.  The operations are programs over the file system
    ([DiskE]), so that every call can fail and the process can stop between two
    of them; [Disk.step] says what a file system does on a call.

    CRC-32 is the crate's and a parameter. *)

From stdpp Require Import pretty.
From S2P Require Import Prelude RustString Prog Risk Slab Pages.

Local Open Scope Z_scope.

(** ** Frames *)

Definition byte_of (z : Z) : byte := default x00 (Byte.of_N (Z.to_N (z `mod` 256))).
Definition value_of_byte (b : byte) : Z := Z.of_N (Byte.to_N b).

(** [n.to_le_bytes()] and [u32::from_le_bytes] *)
Definition u32_le (n : Z) : list byte := [byte_of n; byte_of (n / 256); byte_of (n / 65536); byte_of (n / 16777216)].
Definition le_u32 (l : list byte) : Z :=
  match l with
  | [a; b; c; d] => value_of_byte a + 256 * value_of_byte b + 65536 * value_of_byte c + 16777216 * value_of_byte d
  | _ => 0
  end.

Lemma value_of_byte_of z : value_of_byte (byte_of z) = z `mod` 256.
Proof.
  unfold byte_of, value_of_byte. pose proof (Z.mod_pos_bound z 256 ltac:(lia)) as Hb.
  destruct (Byte.of_N (Z.to_N (z `mod` 256))) as [b|] eqn:Hn; simpl.
  - apply Byte.to_of_N in Hn. rewrite Hn. lia.
  - apply Byte.of_N_None_iff in Hn. lia.
Qed.

Lemma le_u32_le n : 0 <= n < 2 ^ 32 → le_u32 (u32_le n) = n.
Proof.
  intros Hn. unfold u32_le, le_u32. rewrite !value_of_byte_of.
  pose proof (Z.div_mod n 256 ltac:(lia)) as H1.
  pose proof (Z.div_mod (n / 256) 256 ltac:(lia)) as H2.
  pose proof (Z.div_mod (n / 65536) 256 ltac:(lia)) as H3.
  assert (n / 256 / 256 = n / 65536) as E1 by (rewrite Z.div_div by lia; done).
  assert (n / 65536 / 256 = n / 16777216) as E2 by (rewrite Z.div_div by lia; done).
  rewrite E1 in H2. rewrite E2 in H3.
  assert ((n / 16777216) `mod` 256 = n / 16777216) as ->; [|lia].
  apply Z.mod_small. split; [apply Z.div_pos; lia|]. apply Z.div_lt_upper_bound; lia.
Qed.

Lemma length_u32_le n : length (u32_le n) = 4%nat.
Proof. done. Qed.

(** ** The file system *)

Abbreviation IoErr := string (only parsing).

Inductive DiskE : Type → Type :=
| LogLen : DiskE (Result Z IoErr)
| LogRead (offset n : Z) : DiskE (Result (list byte) IoErr)
| LogAppend (data : list byte) : DiskE (Result unit IoErr)
| WriteTmp (data : list byte) : DiskE (Result unit IoErr)
| RenameTmp : DiskE (Result unit IoErr)
| OpenLog : DiskE (Result unit IoErr)
| WriteState (text : string) : DiskE (Result unit IoErr)
| ReadState : DiskE (option string).

(** What a file system does.  The log that is open is the file at the log's
    path, or one that a rename has unlinked since it was opened.  A file has no
    more than [i64::MAX] bytes.  Where [F] holds a call may also fail: an append
    ([write_all]) that fails has written any part of its bytes, from the front; a
    write of the watermark ([fs::write]) leaves the old text or any part of the
    new one; a watermark that is there may be found unreadable.
    [fs::rename] replaces the file at once. *)
Record Disk := {
  dk_log : list byte;
  dk_unlinked : option (list byte);
  dk_tmp : option (list byte);
  dk_state : option string }.

Module Disk.
Definition empty : Disk := {| dk_log := []; dk_unlinked := None; dk_tmp := None; dk_state := None |}.

Definition contents (d : Disk) : list byte := default (dk_log d) (dk_unlinked d).
Definition set_contents (l : list byte) (d : Disk) : Disk :=
  match dk_unlinked d with
  | None => {| dk_log := l; dk_unlinked := None; dk_tmp := dk_tmp d; dk_state := dk_state d |}
  | Some _ => {| dk_log := dk_log d; dk_unlinked := Some l; dk_tmp := dk_tmp d; dk_state := dk_state d |}
  end.
Definition set_tmp (t : option (list byte)) (d : Disk) : Disk :=
  {| dk_log := dk_log d; dk_unlinked := dk_unlinked d; dk_tmp := t; dk_state := dk_state d |}.
Definition set_state (s : option string) (d : Disk) : Disk :=
  {| dk_log := dk_log d; dk_unlinked := dk_unlinked d; dk_tmp := dk_tmp d; dk_state := s |}.
Definition rename_to (l : list byte) (d : Disk) : Disk :=
  {| dk_log := l; dk_unlinked := Some (contents d); dk_tmp := None; dk_state := dk_state d |}.
Definition reopen (d : Disk) : Disk :=
  {| dk_log := dk_log d; dk_unlinked := None; dk_tmp := dk_tmp d; dk_state := dk_state d |}.

Definition slice (l : list byte) (offset n : Z) : list byte := take (Z.to_nat n) (drop (Z.to_nat offset) l).

(** The answer of a disk that does what it is asked. *)
Definition answer {T} (e : DiskE T) (d : Disk) : T * Disk :=
  match e with
  | LogLen => (Ok (len (contents d)), d)
  | LogRead offset n =>
      if offset + n <=? len (contents d) then (Ok (slice (contents d) offset n), d)
      else (Err "failed to fill whole buffer", d)
  | LogAppend data =>
      if len (contents d ++ data) <? 2 ^ 63 then (Ok tt, set_contents (contents d ++ data) d)
      else (Err "file too large", d)
  | WriteTmp data => (Ok tt, set_tmp (Some data) d)
  | RenameTmp => match dk_tmp d with Some l => (Ok tt, rename_to l d) | None => (Err "no such file", d) end
  | OpenLog => (Ok tt, reopen d)
  | WriteState text => (Ok tt, set_state (Some text) d)
  | ReadState => (dk_state d, d)
  end.

Definition handle : handler DiskE Disk := λ T e d, answer e d.

(** What a call leaves when it fails, or when the process is stopped in it. *)
Definition fails {T} (e : DiskE T) (r : T) (d d' : Disk) : Prop :=
  match e in DiskE T return T → Prop with
  | LogLen | LogRead _ _ => λ r, (∃ err, r = Err err) ∧ d' = d
  | RenameTmp | OpenLog => λ r, (∃ err, r = Err err) ∧ d' = d
  | LogAppend data => λ r, (∃ err, r = Err err) ∧
      ∃ k, d' = set_contents (contents d ++ take k data) d ∧ len (contents d ++ take k data) < 2 ^ 63
  | WriteTmp _ => λ r, (∃ err, r = Err err) ∧ ∃ t, d' = set_tmp t d
  | WriteState text => λ r, (∃ err, r = Err err) ∧
      (d' = d ∨ ∃ written rest, text = written +:+ rest ∧ d' = set_state (Some written) d)
  | ReadState => λ r, r = None ∧ d' = d
  end r.

Definition step (F : Prop) T (e : DiskE T) (r : T) (d d' : Disk) : Prop :=
  (r, d') = answer e d ∨ F ∧ fails e r d d'.
End Disk.

Inductive Lane := Critical | Normal.
#[export] Instance Lane_eq_dec : EqDecision Lane.
Proof. solve_decision. Defined.

Inductive SpoolError :=
| SpoolIo (source : IoErr)
| CriticalLaneFull.

Record SpoolRecord := { sr_payload : list byte; sr_next_offset : Z }.

(** The open file is the log of [DiskE]; the rest of the lane is its state. *)
Record LaneState := { ls_ack_offset : Z; ls_max_bytes : Z }.

Definition set_ack (n : Z) (s : LaneState) : LaneState :=
  {| ls_ack_offset := n; ls_max_bytes := ls_max_bytes s |}.

(** ** Methods of [&mut LaneState]

    A method takes the state and gives it back, also when it fails. *)
Definition method (A : Type) : Type := LaneState → prog DiskE (Result A SpoolError * LaneState).

Definition mreturn {A} (a : A) : method A := λ s, mret (Ok a, s).
Definition mthen {A B} (p : method A) (f : A → method B) : method B := λ s,
  '(r, s) ← p s;
  match r with Ok a => f a s | Err e => mret (Err e, s) end.
Definition self : method LaneState := λ s, mret (Ok s, s).
Definition assign (f : LaneState → LaneState) : method unit := λ s, mret (Ok tt, f s).
Definition io {A} (e : DiskE (Result A IoErr)) : method A := λ s,
  r ← trigger e; mret (map_err SpoolIo r, s).

Notation "x ⇐ p ; q" := (mthen p (λ x, q))
  (at level 20, p at level 100, q at level 200, format "x  ⇐  p ;  '/' q").

Module Spool.
Section Spool.
Context (crc32 : list byte → Z).

Definition HEADER_LEN : Z := 8.
Definition RESYNC_SCAN_LIMIT_BYTES : Z := 1048576.

(** [payload.len() as u32] keeps the low 32 bits. *)
Definition frame (payload : list byte) : list byte :=
  u32_le (len payload `mod` 2 ^ 32) ++ u32_le (crc32 payload) ++ payload.

(** [s.trim().parse::<u64>().ok()] of the watermark *)
Definition parse_offset (s : string) : option Z :=
  let s := trim s in
  let digits := match s with String "+" s' => s' | _ => s end in
  if is_empty digits then None
  else n ← Risk.parse_digits 0 digits; if n <? two64 then Some n else None.

(** [LaneState::open] after the log was opened *)
Definition open (max_bytes : Z) : prog DiskE (Result LaneState SpoolError) :=
  r ← trigger OpenLog;
  match r with
  | Err e => mret (Err (SpoolIo e))
  | Ok _ =>
      text ← trigger ReadState;
      mret (Ok {| ls_ack_offset := default 0 (text ≫= parse_offset); ls_max_bytes := max_bytes |})
  end.

Definition file_len : method Z := io LogLen.

Definition persist_ack_offset : method unit :=
  s ⇐ self;
  io (WriteState (pretty (ls_ack_offset s))).

Definition append (payload : list byte) : method unit := io (LogAppend (frame payload)).

Definition read_frame_at (offset : Z) : method (option (list byte * Z)) :=
  length ⇐ file_len;
  if length <? offset + HEADER_LEN then mreturn None
  else
    header ⇐ io (LogRead offset HEADER_LEN);
    let payload_len := le_u32 (take 4 header) in
    let expected_checksum := le_u32 (drop 4 header) in
    if length <? offset + HEADER_LEN + payload_len then mreturn None
    else
      payload ⇐ io (LogRead (offset + HEADER_LEN) payload_len);
      if negb (crc32 payload =? expected_checksum) then mreturn None
      else mreturn (Some (payload, offset + HEADER_LEN + payload_len)).

Definition record_of (f : list byte * Z) : SpoolRecord :=
  {| sr_payload := f.1; sr_next_offset := f.2 |}.

(** The scan of [n] candidates, from [candidate] on. *)
Fixpoint resync (n : nat) (candidate : Z) : method (option SpoolRecord) :=
  match n with
  | O => mreturn None
  | S n =>
      found ⇐ read_frame_at candidate;
      match found with
      | Some f =>
          _ ⇐ assign (set_ack candidate);
          _ ⇐ persist_ack_offset;
          mreturn (Some (record_of f))
      | None => resync n (candidate + 1)
      end
  end.

Definition read_next : method (option SpoolRecord) :=
  s ⇐ self;
  found ⇐ read_frame_at (ls_ack_offset s);
  match found with
  | Some f => mreturn (Some (record_of f))
  | None =>
      length ⇐ file_len;
      let scan_end := Z.min length (ls_ack_offset s + RESYNC_SCAN_LIMIT_BYTES) in
      resync (Z.to_nat (scan_end - (ls_ack_offset s + 1))) (ls_ack_offset s + 1)
  end.

Definition ack (record : SpoolRecord) : method unit :=
  _ ⇐ assign (λ s, set_ack (Z.max (ls_ack_offset s) (sr_next_offset record)) s);
  persist_ack_offset.

(** [len - self.ack_offset] is a [u64]; the log is never shorter than the
    watermark when a lane is open ([Represents]). *)
Definition compact : method unit :=
  s ⇐ self;
  if ls_ack_offset s =? 0 then mreturn tt
  else
    length ⇐ file_len;
    remainder ⇐ io (LogRead (ls_ack_offset s) (length - ls_ack_offset s));
    _ ⇐ io (WriteTmp remainder);
    _ ⇐ io RenameTmp;
    _ ⇐ io OpenLog;
    _ ⇐ assign (set_ack 0);
    persist_ack_offset.

Definition pending_bytes : method Z :=
  s ⇐ self;
  length ⇐ file_len;
  mreturn (Z.max 0 (length - ls_ack_offset s)).

(** The loop that makes room in the normal lane: each turn moves the watermark
    by a header at least, so [fuel] turns are enough when it is more than the
    bytes that are pending. *)
Fixpoint make_room (fuel : nat) (payload : list byte) : method unit :=
  match fuel with
  | O => mreturn tt
  | S fuel =>
      pending ⇐ pending_bytes;
      s ⇐ self;
      if ls_max_bytes s <? pending + HEADER_LEN + len payload then
        next ⇐ read_next;
        match next with
        | Some dropped =>
            _ ⇐ ack dropped;
            make_room fuel payload
        | None => mreturn tt
        end
      else mreturn tt
  end.

Definition enqueue (lane : Lane) (payload : list byte) : method unit :=
  pending ⇐ pending_bytes;
  s ⇐ self;
  if ls_max_bytes s <? pending + HEADER_LEN + len payload then
    match lane with
    | Critical => λ s, mret (Err CriticalLaneFull, s)
    | Normal =>
        _ ⇐ make_room (S (Z.to_nat pending)) payload;
        _ ⇐ compact;
        append payload
    end
  else append payload.

Definition compact_if_reclaimable (min_reclaimable_bytes : Z) : method bool :=
  s ⇐ self;
  if (ls_ack_offset s =? 0) || (ls_ack_offset s <? min_reclaimable_bytes) then mreturn false
  else
    _ ⇐ compact;
    mreturn true.
End Spool.
End Spool.
