(* ===== verification/SpoolSafety.v ===== *)
(** * The spool as a queue

    What [Spool.v] guarantees: on a disk that does what it is asked the lane is a
    bounded first-in first-out queue ([spool_refines_queue]).  The second part is
    about a disk that fails: what the operations do on a log in which appends and
    writes of the watermark were cut short ([Piece]); [Shipper.v] has the theorem
    on it. *)

From stdpp Require Import pretty.
From S2P Require Import Prelude RustString Prog Risk Slab Pages Spool.


Local Open Scope Z_scope.

(** ** The watermark as text *)

Definition is_digit (c : ascii) : bool := (48 <=? nat_of_ascii c)%nat && (nat_of_ascii c <=? 57)%nat.

Lemma pretty_digits x s :
  Forall (λ c, is_digit c = true) (String.list_ascii_of_string s) →
  Forall (λ c, is_digit c = true) (String.list_ascii_of_string (pretty_N_go x s)).
Proof.
  revert s. induction (N.lt_wf_0 x) as [x _ IH]; intros s Hs.
  destruct (decide (x = 0)%N) as [->|Hx]; [done|].
  rewrite pretty_N_go_step by lia. apply IH; [apply N.div_lt; lia|].
  simpl. constructor; [|done].
  pose proof (N.mod_lt x 10 ltac:(done)) as Hd. apply Pages.digit_cases in Hd.
  rewrite !elem_of_cons, elem_of_nil in Hd. repeat (destruct Hd as [->|Hd]; [done|]). done.
Qed.

Definition digits (s : string) : Prop := Forall (λ c, is_digit c = true) (String.list_ascii_of_string s).

Lemma strip_one_digits ws s :
  Forall (λ w, match w with String c _ => is_digit c = false | EmptyString => False end) ws →
  digits s → strip_one ws s = None.
Proof.
  intros Hws Hs. induction Hws as [|w ws Hw _ IH]; simpl; [done|]. rewrite IH.
  destruct w as [|c w]; [done|]. destruct s as [|d s]; [done|]. inv Hs.
  destruct (strip_prefix (String c w) (String d s)) as [r|] eqn:Hp; [|done].
  apply strip_prefix_Some in Hp. injection Hp as -> _. congruence.
Qed.

Lemma strip_many_digits n ws s :
  Forall (λ w, match w with String c _ => is_digit c = false | EmptyString => False end) ws →
  digits s → strip_many n ws s = s.
Proof. intros. destruct n; simpl; [done|]. by rewrite strip_one_digits. Qed.


Lemma rev_app_list s t :
  String.list_ascii_of_string (String.rev_app s t) =
  reverse (String.list_ascii_of_string s) ++ String.list_ascii_of_string t.
Proof.
  revert t. induction s as [|c s IH]; intros t; simpl; [done|].
  by rewrite IH, reverse_cons, <- app_assoc.
Qed.

Lemma rev_list s : String.list_ascii_of_string (String.rev s) = reverse (String.list_ascii_of_string s).
Proof. unfold String.rev. rewrite rev_app_list. by rewrite app_nil_r. Qed.

Lemma string_rev_involutive s : String.rev (String.rev s) = s.
Proof.
  rewrite <- (String.string_of_list_ascii_of_string (String.rev (String.rev s))).
  by rewrite !rev_list, reverse_involutive, String.string_of_list_ascii_of_string.
Qed.

Lemma trim_digits s : digits s → trim s = s.
Proof.
  intros Hs. unfold trim, trim_end, trim_start.
  rewrite (strip_many_digits _ whitespace_seqs) by (done || by repeat constructor).
  rewrite strip_many_digits; [apply string_rev_involutive|by repeat constructor|].
  unfold digits. rewrite rev_list. by apply Forall_reverse.
Qed.

Lemma parse_offset_pretty n : 0 <= n < 2 ^ 63 → Spool.parse_offset (pretty n) = Some n.
Proof.
  intros Hn. destruct n as [|p|p]; [done| |lia].
  change (pretty (Z.pos p)) with (pretty_N_go (N.pos p) ""). unfold Spool.parse_offset.
  rewrite trim_digits by (apply pretty_digits; constructor).
  pose proof (Pages.parse_digits_pretty (N.pos p) "") as Hv.
  destruct (Pages.pretty_starts (N.pos p) "") as (d & s & Hd & Hs); [done|]. rewrite Hs in Hv |- *.
  assert ((match String (pretty_N_char d) s with String "+" s' => s' | _ => String (pretty_N_char d) s end) =
          String (pretty_N_char d) s) as ->.
  { apply Pages.digit_cases in Hd. rewrite !elem_of_cons, elem_of_nil in Hd.
    repeat (destruct Hd as [->|Hd]; [done|]). done. }
  rewrite Hv. simpl. by rewrite (proj2 (Z.ltb_lt _ _)) by (unfold two64; lia).
Qed.

(** ** Frames in a log *)

Section Lane.
Context (crc32 : list byte → Z).
Context (crc32_u32 : ∀ p, 0 <= crc32 p < 2 ^ 32).

Abbreviation frame := (Spool.frame crc32).

(** A payload whose length the header can hold *)
Definition fits (p : list byte) : Prop := len p < 2 ^ 32.

Definition frames (ps : list (list byte)) : list byte := concat (frame <$> ps).

Lemma frames_app ps qs : frames (ps ++ qs) = frames ps ++ frames qs.
Proof. unfold frames. by rewrite fmap_app, concat_app. Qed.

Lemma len_frame p : len (frame p) = Spool.HEADER_LEN + len p.
Proof. unfold Spool.frame. rewrite !len_app. change (len (u32_le _)) with 4. unfold Spool.HEADER_LEN. lia. Qed.

Lemma frames_cons p ps : frames (p :: ps) = frame p ++ frames ps.
Proof. done. Qed.

Lemma len_frames_pos p ps : Spool.HEADER_LEN <= len (frames (p :: ps)).
Proof. rewrite frames_cons, len_app, len_frame. pose proof (len_nonneg p). pose proof (len_nonneg (frames ps)). lia. Qed.

(** What [read_frame_at] finds in a log. *)
Definition frame_at (log : list byte) (offset : Z) : option (list byte * Z) :=
  if len log <? offset + Spool.HEADER_LEN then None
  else
    let header := Disk.slice log offset Spool.HEADER_LEN in
    let n := le_u32 (take 4 header) in
    if len log <? offset + Spool.HEADER_LEN + n then None
    else
      let payload := Disk.slice log (offset + Spool.HEADER_LEN) n in
      if negb (crc32 payload =? le_u32 (drop 4 header)) then None
      else Some (payload, offset + Spool.HEADER_LEN + n).

Lemma slice_app a b c : Disk.slice (a ++ b ++ c) (len a) (len b) = b.
Proof.
  unfold Disk.slice, len. rewrite !Nat2Z.id, drop_app_length. apply take_app_length.
Qed.

Lemma frame_at_frame pre p post :
  fits p → frame_at (pre ++ frame p ++ post) (len pre) = Some (p, len pre + len (frame p)).
Proof.
  intros Hp. unfold fits in Hp. pose proof (len_nonneg p) as H0.
  assert (pre ++ frame p ++ post =
    pre ++ (u32_le (len p) ++ u32_le (crc32 p)) ++ p ++ post) as ->.
  { unfold Spool.frame. rewrite Z.mod_small by lia. rewrite <- !app_assoc. done. }
  assert (Hs : Disk.slice (pre ++ (u32_le (len p) ++ u32_le (crc32 p)) ++ p ++ post) (len pre) Spool.HEADER_LEN
    = u32_le (len p) ++ u32_le (crc32 p)) by apply (slice_app pre (u32_le (len p) ++ u32_le (crc32 p))).
  unfold frame_at. rewrite Hs.
  replace (take 4 (u32_le (len p) ++ u32_le (crc32 p))) with (u32_le (len p)) by done.
  replace (drop 4 (u32_le (len p) ++ u32_le (crc32 p))) with (u32_le (crc32 p)) by done.
  rewrite !le_u32_le by (done || lia). rewrite !len_app.
  change (len (u32_le (len p))) with 4. change (len (u32_le (crc32 p))) with 4.
  pose proof (len_nonneg post). unfold Spool.HEADER_LEN.
  rewrite !(proj2 (Z.ltb_ge _ _)) by lia.
  assert (len (pre ++ u32_le (len p) ++ u32_le (crc32 p)) = len pre + 8) as Hl.
  { rewrite !len_app. change (len (u32_le _)) with 4. lia. }
  rewrite <- Hl, (app_assoc pre), slice_app, Z.eqb_refl, Hl, len_frame. simpl. do 2 f_equal.
  unfold Spool.HEADER_LEN. lia.
Qed.

Lemma frame_at_end log offset : len log <= offset → frame_at log offset = None.
Proof. intros Hl. unfold frame_at. rewrite (proj2 (Z.ltb_lt _ _)); [done|]. unfold Spool.HEADER_LEN. lia. Qed.

(** ** Methods on a disk

    [spec p s w Q]: whatever the disk does, [Q] holds of what [p] answers and
    leaves, and [I] holds at every call it makes. *)
Section Specs.
Context (F : Prop) (I : Disk → Prop).

Definition spec {A} (p : method A) (s : LaneState) (w : Disk)
    (Q : Result A SpoolError → LaneState → Disk → Prop) : Prop :=
  safe (stepping (Disk.step F) I) (λ w x, Q x.1 x.2 w) w (p s).

Lemma spec_impl {A} (p : method A) s w (P Q : Result A SpoolError → LaneState → Disk → Prop) :
  (∀ r s w, P r s w → Q r s w) → spec p s w P → spec p s w Q.
Proof. intros H. apply safe_impl; [apply stepping_monotone|]. intros w' [r s']. apply H. Qed.

Lemma spec_then {A B} (p : method A) (f : A → method B) s w Q :
  spec p s w (λ r s w, match r with Ok a => spec (f a) s w Q | Err e => Q (Err e) s w end) →
  spec (mthen p f) s w Q.
Proof.
  intros Hp. unfold spec, mthen. eapply safe_mbind; [apply stepping_monotone|exact Hp|].
  intros w' [[a|e] s']; simpl; done.
Qed.

Lemma spec_io {A} (e : DiskE (Result A IoErr)) s w Q :
  I w → (∀ r w', Disk.step F _ e r w w' → Q (map_err SpoolIo r) s w') → spec (io e) s w Q.
Proof. intros HI HQ. unfold spec, io. simpl. split; [done|]. intros r w' Hs. by apply HQ. Qed.

(** [p] answers [a] and changes nothing, or fails where calls can fail. *)
Definition reads {A} (p : method A) (a : A) (s : LaneState) (w : Disk) : Prop :=
  spec p s w (λ r s' w', s' = s ∧ w' = w ∧ (r = Ok a ∨ F ∧ ∃ e, r = Err (SpoolIo e))).

Lemma reads_then {A B} (p : method A) (f : A → method B) a s w Q :
  reads p a s w → spec (f a) s w Q → (F → ∀ e, Q (Err (SpoolIo e)) s w) → spec (mthen p f) s w Q.
Proof.
  intros Hp Hf HF. apply spec_then. eapply spec_impl; [|exact Hp].
  intros r s' w' (-> & -> & [->|(HF' & e & ->)]); auto.
Qed.

Lemma reads_return {A} (a : A) s w : reads (mreturn a) a s w.
Proof. unfold reads, spec. simpl. auto. Qed.

Lemma reads_chain {A B} (p : method A) (f : A → method B) a b s w :
  reads p a s w → reads (f a) b s w → reads (mthen p f) b s w.
Proof. intros Hp Hf. eapply reads_then; [exact Hp|exact Hf|]. intros HF e. split_and!; eauto 10. Qed.

Lemma reads_self s w : reads self s s w.
Proof. unfold reads, spec. simpl. auto. Qed.

Lemma file_len_reads s w : I w → reads Spool.file_len (len (Disk.contents w)) s w.
Proof.
  intros HI. apply spec_io; [done|].
  intros r w' [[= -> ->]|[HF [[e ->] ->]]]; simpl; [auto|]. eauto 10.
Qed.

Lemma log_read_reads offset n s w :
  I w → offset + n <= len (Disk.contents w) →
  reads (io (LogRead offset n)) (Disk.slice (Disk.contents w) offset n) s w.
Proof.
  intros HI Hn. apply spec_io; [done|]. unfold Disk.step. simpl.
  rewrite (proj2 (Z.leb_le _ _)) by done.
  intros r w' [[= -> ->]|[HF [[e ->] ->]]]; simpl; [auto|]. eauto 10.
Qed.

Lemma read_frame_at_reads offset s w :
  I w → reads (Spool.read_frame_at crc32 offset) (frame_at (Disk.contents w) offset) s w.
Proof.
  intros HI. unfold Spool.read_frame_at, frame_at.
  eapply reads_chain; [by apply file_len_reads|].
  destruct (Z.ltb_spec (len (Disk.contents w)) (offset + Spool.HEADER_LEN)); [apply reads_return|].
  eapply reads_chain; [by apply log_read_reads|].
  set (n := le_u32 (take 4 _)). destruct (Z.ltb_spec (len (Disk.contents w)) (offset + Spool.HEADER_LEN + n));
    [apply reads_return|].
  eapply reads_chain; [by apply log_read_reads|]. destruct (negb _); apply reads_return.
Qed.

Lemma pending_bytes_reads s w :
  I w → reads Spool.pending_bytes (Z.max 0 (len (Disk.contents w) - ls_ack_offset s)) s w.
Proof.
  intros HI. unfold Spool.pending_bytes. eapply reads_chain; [apply reads_self|].
  eapply reads_chain; [by apply file_len_reads|]. apply reads_return.
Qed.

(** ** What a lane holds

    The log is a sequence [hist] of records; the lane has consumed [n] of them,
    and the watermark on disk may be behind. *)

Definition watermark (w : Disk) : Z := default 0 (dk_state w ≫= Spool.parse_offset).

Definition offset_of (hist : list (list byte)) (n : nat) : Z := len (frames (take n hist)).

Record Durable (hist : list (list byte)) (n : nat) (w : Disk) : Prop := {
  du_log : dk_log w = frames hist;
  du_fits : Forall fits hist;
  du_size : len (frames hist) < 2 ^ 63;
  du_mark : ∃ m, (m <= n)%nat ∧ watermark w = offset_of hist m }.

Record Holds (hist : list (list byte)) (n : nat) (s : LaneState) (w : Disk) : Prop := {
  ho_durable : Durable hist n w;
  ho_linked : dk_unlinked w = None;
  ho_bound : (n <= length hist)%nat;
  ho_ack : ls_ack_offset s = offset_of hist n }.

Lemma holds_contents hist n s w : Holds hist n s w → Disk.contents w = frames hist.
Proof. intros []. unfold Disk.contents. rewrite ho_linked0. apply ho_durable0. Qed.

Lemma durable_later hist n n' w : (n <= n')%nat → Durable hist n w → Durable hist n' w.
Proof. intros Hn []. destruct du_mark0 as (m & ? & ?). constructor; try done. exists m. split; [lia|done]. Qed.

Lemma frames_split hist n : frames hist = frames (take n hist) ++ frames (drop n hist).
Proof. by rewrite <- frames_app, take_drop. Qed.

Lemma offset_le hist n : 0 <= offset_of hist n <= len (frames hist).
Proof.
  unfold offset_of. rewrite (frames_split hist n), len_app.
  pose proof (len_nonneg (frames (take n hist))). pose proof (len_nonneg (frames (drop n hist))). lia.
Qed.

Lemma offset_S hist n p : hist !! n = Some p → offset_of hist (S n) = offset_of hist n + len (frame p).
Proof.
  intros Hp. unfold offset_of. rewrite (take_S_r _ _ _ Hp), frames_app, len_app, frames_cons, len_app.
  change (len (frames [])) with 0. lia.
Qed.

Lemma frame_at_hist hist n p :
  Forall fits hist → hist !! n = Some p →
  frame_at (frames hist) (offset_of hist n) = Some (p, offset_of hist (S n)).
Proof.
  intros Hf Hp. rewrite (offset_S _ _ _ Hp).
  rewrite <- (take_drop_middle hist n p Hp) at 1. rewrite frames_app, frames_cons.
  apply frame_at_frame. by eapply Forall_lookup_1.
Qed.

Lemma offset_all hist n : (length hist <= n)%nat → offset_of hist n = len (frames hist).
Proof. intros Hn. unfold offset_of. by rewrite take_ge. Qed.

Lemma offset_min hist n : offset_of hist (min n (length hist)) = offset_of hist n.
Proof.
  unfold offset_of. destruct (Nat.le_ge_cases n (length hist)); [by rewrite Nat.min_l|].
  by rewrite Nat.min_r, !take_ge by lia.
Qed.

(** The record [read_next] answers *)
Definition oldest (hist : list (list byte)) (n : nat) : option SpoolRecord :=
  (λ p, {| sr_payload := p; sr_next_offset := offset_of hist (S n) |}) <$> hist !! n.

Lemma read_next_reads hist n s w :
  Holds hist n s w → I w → reads (Spool.read_next crc32) (oldest hist n) s w.
Proof.
  intros H HI. pose proof (holds_contents _ _ _ _ H) as Hc. destruct H as [[] ? ? Ha].
  unfold Spool.read_next, oldest. eapply reads_chain; [apply reads_self|].
  eapply reads_chain; [by apply read_frame_at_reads|]. rewrite Hc, Ha.
  destruct (hist !! n) as [p|] eqn:Hn; simpl.
  - rewrite (frame_at_hist _ _ _ du_fits0 Hn). apply reads_return.
  - apply lookup_ge_None in Hn. rewrite (offset_all _ _ Hn), frame_at_end by lia.
    eapply reads_chain; [by apply file_len_reads|]. rewrite Hc.
    replace (Z.to_nat _) with 0%nat by lia. apply reads_return.
Qed.

(** ** Acknowledging and appending *)

Lemma watermark_pretty n w : 0 <= n < 2 ^ 63 → watermark (Disk.set_state (Some (pretty n)) w) = n.
Proof. intros Hn. unfold watermark. simpl. by rewrite parse_offset_pretty. Qed.

(** The watermark on disk is the lane's. *)
Definition Synced (s : LaneState) (w : Disk) : Prop := watermark w = ls_ack_offset s.

Definition persisted (r : Result unit SpoolError) (s : LaneState) (w : Disk) : Prop :=
  r = Ok tt ∧ Synced s w ∨ F ∧ ∃ e, r = Err (SpoolIo e).

Lemma persist_spec hist n s w :
  (F → False) → Holds hist n s w → I w →
  spec Spool.persist_ack_offset s w (λ r s' w', s' = s ∧ Holds hist n s w' ∧ persisted r s w').
Proof.
  intros HF [[] ? ? Ha] HI. unfold Spool.persist_ack_offset. apply spec_then. simpl.
  apply spec_io; [done|]. pose proof (offset_le hist n).
  assert (watermark (Disk.set_state (Some (pretty (ls_ack_offset s))) w) = ls_ack_offset s) as Hm.
  { rewrite Ha. apply watermark_pretty. lia. }
  intros r w' [[= -> ->]|[[]%HF _]]; simpl. split; [done|]. split; [|unfold persisted; eauto].
  constructor; try done. constructor; try done. exists n. split; [done|]. by rewrite Hm.
Qed.

Lemma ack_spec hist n p s w :
  (F → False) → Holds hist n s w → hist !! n = Some p → (∀ w, Durable hist (S n) w → I w) →
  spec (Spool.ack {| sr_payload := p; sr_next_offset := offset_of hist (S n) |}) s w
    (λ r s' w', s' = set_ack (offset_of hist (S n)) s ∧ Holds hist (S n) s' w' ∧ persisted r s' w').
Proof.
  intros HF [] Hp HI. unfold Spool.ack. apply spec_then. unfold spec at 1. simpl.
  pose proof (offset_S _ _ _ Hp) as Ho. pose proof (len_nonneg (frame p)).
  rewrite ho_ack0, Z.max_r by lia.
  assert (Durable hist (S n) w) as Hd by (eapply durable_later; [|done]; lia).
  eapply spec_impl; [|apply persist_spec; [done| |by apply HI]].
  - intros r s' w' (-> & Hh & Hr). done.
  - constructor; try done. by apply lookup_lt_Some in Hp.
Qed.

Lemma append_spec hist n p s w :
  (F → False) → Holds hist n s w → fits p → I w →
  spec (Spool.append crc32 p) s w (λ r s' w', s' = s ∧
    (r = Ok tt ∧ watermark w' = watermark w ∧ Holds (hist ++ [p]) n s w' ∨
     w' = w ∧ (∃ e, r = Err (SpoolIo e)) ∧ 2 ^ 63 <= len (frames (hist ++ [p])))).
Proof.
  intros HF H Hp HI. pose proof (holds_contents _ _ _ _ H) as Hc. destruct H as [[] Hu Hb Ha].
  assert (frames (hist ++ [p]) = frames hist ++ frame p) as Hf.
  { rewrite frames_app. unfold frames at 2. simpl. by rewrite app_nil_r. }
  apply spec_io; [done|]. unfold Disk.step. simpl. rewrite Hc, <- Hf.
  destruct (Z.ltb_spec (len (frames (hist ++ [p]))) (2 ^ 63)) as [Hl|Hl];
    intros r w' [[= -> ->]|[[]%HF _]]; simpl; (split; [done|]); eauto 10.
  left. unfold Disk.set_contents. rewrite Hu. destruct du_mark0 as (m & Hm & Hw).
  split; [done|]. split; [done|]. constructor; simpl; try done.
  - constructor; try done; [by apply Forall_app; auto|]. exists m. split; [done|].
    unfold watermark, offset_of in *. simpl. by rewrite take_app_le by lia.
  - rewrite length_app. lia.
  - unfold offset_of in *. by rewrite take_app_le.
Qed.

Lemma pending_reads hist n s w :
  Holds hist n s w → I w → reads Spool.pending_bytes (len (frames (drop n hist))) s w.
Proof.
  intros H HI. pose proof (pending_bytes_reads s w HI) as Hp.
  rewrite (holds_contents _ _ _ _ H) in Hp. destruct H as [_ _ _ Ha].
  replace (len (frames (drop n hist))) with (Z.max 0 (len (frames hist) - ls_ack_offset s)); [done|].
  rewrite Ha. unfold offset_of. rewrite (frames_split hist n), len_app.
  pose proof (len_nonneg (frames (drop n hist))). lia.
Qed.

End Specs.

(** ** A disk that does what it is asked *)

Abbreviation ok_spec := (spec False (λ _, True)).

Lemma ok_io {A} (e : DiskE (Result A IoErr)) s w (Q : Result A SpoolError → LaneState → Disk → Prop) :
  Q (map_err SpoolIo (Disk.answer e w).1) s (Disk.answer e w).2 → ok_spec (io e) s w Q.
Proof. intros HQ. apply spec_io; [done|]. intros r w' [Heq|[[] _]]. by rewrite <- Heq in HQ. Qed.

Lemma ok_then {A B} (p : method A) (f : A → method B) a s w Q :
  reads False (λ _, True) p a s w → ok_spec (f a) s w Q → ok_spec (mthen p f) s w Q.
Proof. intros Hp Hf. by eapply reads_then. Qed.

Lemma offset_zero hist n : (n <= length hist)%nat → offset_of hist n = 0 → n = 0%nat.
Proof.
  destruct n as [|n]; [done|]. destruct hist as [|p hist]; simpl; [lia|]. intros _ H0.
  unfold offset_of in H0. simpl in H0. pose proof (len_frames_pos p (take n hist)) as Hp.
  unfold Spool.HEADER_LEN in Hp. lia.
Qed.

Lemma compact_spec hist n s w :
  Holds hist n s w →
  ok_spec Spool.compact s w (λ r s' w', r = Ok tt ∧ ls_max_bytes s' = ls_max_bytes s ∧
    (Synced s w → Synced s' w') ∧ Holds (drop n hist) 0 s' w').
Proof.
  intros H. pose proof (holds_contents _ _ _ _ H) as Hc. unfold Spool.compact.
  eapply ok_then; [apply reads_self|]. pose proof H as [[] Hu Hb Ha].
  destruct (Z.eqb_spec (ls_ack_offset s) 0) as [H0|H0].
  { rewrite Ha in H0. apply (offset_zero _ _ Hb) in H0. subst n. unfold spec. simpl. done. }
  eapply ok_then; [by apply file_len_reads|]. rewrite Hc, Ha.
  eapply ok_then; [apply log_read_reads; [done|]; rewrite Hc; lia|]. rewrite Hc.
  replace (Disk.slice (frames hist) (offset_of hist n) (len (frames hist) - offset_of hist n))
    with (frames (drop n hist)); last first.
  { rewrite (frames_split hist n), len_app. unfold offset_of.
    replace (_ - _) with (len (frames (drop n hist))) by lia.
    symmetry. rewrite <- (app_nil_r (frames (drop n hist))) at 1. apply slice_app. }
  do 3 (apply spec_then, ok_io; cbn [Disk.answer fst snd map_err Disk.set_tmp dk_tmp]).
  apply spec_then. unfold spec at 1. cbn [assign mret prog_mret safe fst snd].
  apply spec_then. unfold spec at 1. cbn [self mret prog_mret safe fst snd].
  apply ok_io. cbn [Disk.answer fst snd map_err]. split; [done|]. split; [done|]. split; [done|].
  rewrite (frames_split hist n), len_app in du_size0. pose proof (len_nonneg (frames (take n hist))).
  constructor; simpl; try done; [|lia].
  constructor; simpl; [done|by apply Forall_drop|lia|]. exists 0%nat. split; [done|].
  by apply (watermark_pretty 0).
Qed.

(** ** The queue a lane implements *)

(** What is left of the queue when room was made for [p]: the oldest records go
    first, and all of them when [p] alone is over the budget. *)
Fixpoint room (max : Z) (p : list byte) (q : list (list byte)) : list (list byte) :=
  match q with
  | [] => []
  | _ :: q' => if max <? len (frames q) + Spool.HEADER_LEN + len p then room max p q' else q
  end.

Inductive Op :=
| OpEnqueue (payload : list byte)
| OpReadNext
| OpTake
| OpCompact
| OpCompactIf (min_reclaimable_bytes : Z)
| OpRestart.

Abbreviation Answer := (Result (option (list byte)) SpoolError) (only parsing).

Definition queue_op (lane : Lane) (max : Z) (op : Op) (q : list (list byte)) : Answer * list (list byte) :=
  match op with
  | OpEnqueue p =>
      if max <? len (frames q) + Spool.HEADER_LEN + len p then
        match lane with
        | Critical => (Err CriticalLaneFull, q)
        | Normal => (Ok None, room max p q ++ [p])
        end
      else (Ok None, q ++ [p])
  | OpReadNext => (Ok (head q), q)
  | OpTake => (Ok (head q), tail q)
  | OpCompact | OpCompactIf _ | OpRestart => (Ok None, q)
  end.

(** The same operations on a lane *)
Definition restart : method unit := λ s,
  r ← Spool.open (ls_max_bytes s);
  mret match r with Ok s' => (Ok tt, s') | Err e => (Err e, s) end.

Definition perform (lane : Lane) (op : Op) : method (option (list byte)) :=
  match op with
  | OpEnqueue p => _ ⇐ Spool.enqueue crc32 lane p; mreturn None
  | OpReadNext => r ⇐ Spool.read_next crc32; mreturn (sr_payload <$> r)
  | OpTake =>
      r ⇐ Spool.read_next crc32;
      match r with
      | Some record => _ ⇐ Spool.ack record; mreturn (Some (sr_payload record))
      | None => mreturn None
      end
  | OpCompact => _ ⇐ Spool.compact; mreturn None
  | OpCompactIf n => _ ⇐ Spool.compact_if_reclaimable n; mreturn None
  | OpRestart => _ ⇐ restart; mreturn None
  end.

Lemma make_room_spec fuel hist n p s w :
  Holds hist n s w → Synced s w → (length (drop n hist) < fuel)%nat →
  ok_spec (Spool.make_room crc32 fuel p) s w (λ r s' w', r = Ok tt ∧ ls_max_bytes s' = ls_max_bytes s ∧
    Synced s' w' ∧ ∃ n', Holds hist n' s' w' ∧ drop n' hist = room (ls_max_bytes s) p (drop n hist)).
Proof.
  revert n s w. induction fuel as [|fuel IH]; intros n s w H Hsync Hf; [lia|]. simpl.
  eapply ok_then; [by eapply pending_reads|]. eapply ok_then; [apply reads_self|].
  destruct (hist !! n) as [p0|] eqn:Hn.
  - rewrite (drop_S _ _ _ Hn) in Hf |- *. cbn [room length] in Hf |- *.
    destruct (Z.ltb_spec (ls_max_bytes s) (len (frames (p0 :: drop (S n) hist)) + Spool.HEADER_LEN + len p)).
    + eapply ok_then; [by eapply read_next_reads|]. unfold oldest. rewrite Hn. simpl.
      apply spec_then. eapply spec_impl; [|by apply ack_spec].
      intros r s' w' (-> & Hh & [[-> Hs']|[[] _]]). eapply spec_impl; [|apply (IH _ _ _ Hh); [done|lia]]. done.
    + unfold spec. simpl. do 3 (split; [done|]). exists n. by rewrite (drop_S _ _ _ Hn).
  - apply lookup_ge_None in Hn as Hl. rewrite (drop_ge hist n) by done. simpl.
    assert (ok_spec (mreturn ()) s w (λ r s' w', r = Ok tt ∧ ls_max_bytes s' = ls_max_bytes s ∧
      Synced s' w' ∧ ∃ n', Holds hist n' s' w' ∧ drop n' hist = [])) as Hr.
    { unfold spec. simpl. do 3 (split; [done|]). exists n. by rewrite drop_ge. }
    destruct (_ <? _); [|exact Hr]. eapply ok_then; [by eapply read_next_reads|].
    unfold oldest. by rewrite Hn.
Qed.

Lemma length_le_len q : (length q <= Z.to_nat (len (frames q)))%nat.
Proof.
  induction q as [|p q IH]; [done|]. rewrite frames_cons, len_app, len_frame.
  pose proof (len_nonneg p). pose proof (len_nonneg (frames q)). unfold Spool.HEADER_LEN. simpl. lia.
Qed.

Lemma len_frames_drop n hist : len (frames (drop n hist)) <= len (frames hist).
Proof. rewrite (frames_split hist n), len_app. pose proof (len_nonneg (frames (take n hist))). lia. Qed.

(** The bytes an operation can add to the log *)
Definition cost (op : Op) : Z := match op with OpEnqueue p => len (frame p) | _ => 0 end.
Definition op_fits (op : Op) : Prop := match op with OpEnqueue p => fits p | _ => True end.

(** The lane [s] on the disk [w] holds the queue [q]. *)
Definition Queued (max : Z) (q : list (list byte)) (size : Z) (s : LaneState) (w : Disk) : Prop :=
  ∃ hist n, Holds hist n s w ∧ Synced s w ∧ ls_max_bytes s = max ∧ q = drop n hist ∧ len (frames hist) <= size.

Lemma frames_snoc hist p : frames (hist ++ [p]) = frames hist ++ frame p.
Proof. rewrite frames_app. unfold frames at 2. simpl. by rewrite app_nil_r. Qed.

Lemma append_queued hist n p s w size :
  Holds hist n s w → Synced s w → fits p → len (frames hist) <= size → size + len (frame p) < 2 ^ 63 →
  ok_spec (Spool.append crc32 p) s w (λ r s' w',
    r = Ok tt ∧ Queued (ls_max_bytes s) (drop n hist ++ [p]) (size + len (frame p)) s' w').
Proof.
  intros H Hs Hp Hl Hsize. eapply spec_impl; [|by apply append_spec].
  intros r s' w' (-> & [(-> & Hm & Hh)|(_ & _ & Hbig)]).
  - split; [done|]. exists (hist ++ [p]), n.
    split; [done|]. split; [by unfold Synced; rewrite Hm|]. split; [done|]. split.
    + rewrite drop_app_le; [done|]. apply H.
    + rewrite frames_snoc, len_app. lia.
  - rewrite frames_snoc, len_app in Hbig. lia.
Qed.

Definition no_record (r : Result unit SpoolError) : Answer :=
  match r with Ok _ => Ok None | Err e => Err e end.

Lemma enqueue_queued lane p max q size s w :
  Queued max q size s w → fits p → size + len (frame p) < 2 ^ 63 →
  ok_spec (Spool.enqueue crc32 lane p) s w (λ r s' w',
    no_record r = (queue_op lane max (OpEnqueue p) q).1 ∧
    Queued max (queue_op lane max (OpEnqueue p) q).2 (size + len (frame p)) s' w').
Proof.
  intros (hist & n & H & Hs & <- & -> & Hl) Hp Hsize. unfold Spool.enqueue.
  eapply ok_then; [by eapply pending_reads|]. eapply ok_then; [apply reads_self|]. cbn [queue_op].
  destruct (Z.ltb_spec (ls_max_bytes s) (len (frames (drop n hist)) + Spool.HEADER_LEN + len p)).
  2: { eapply spec_impl; [|by apply append_queued]. by intros r s' w' [-> HQ]. }
  destruct lane; cbn [fst snd].
  - unfold spec. simpl. split; [done|]. exists hist, n. pose proof (len_nonneg (frame p)). split_and!; done || lia.
  - apply spec_then. eapply spec_impl; [|apply (make_room_spec _ _ _ _ _ _ H Hs)].
    2: { pose proof (length_le_len (drop n hist)). lia. }
    intros r s1 w1 (-> & <- & Hs1 & n1 & H1 & <-). apply spec_then.
    eapply spec_impl; [|by apply (compact_spec _ _ _ _ H1)].
    intros r s2 w2 (-> & <- & Hs2 & H2). specialize (Hs2 Hs1).
    eapply spec_impl; [|eapply (append_queued _ _ _ _ _ size H2); try done].
    + by intros r s' w' [-> HQ].
    + pose proof (len_frames_drop n1 hist). lia.
Qed.

Lemma compact_queued max q size s w :
  Queued max q size s w →
  ok_spec Spool.compact s w (λ r s' w', r = Ok tt ∧ Queued max q size s' w').
Proof.
  intros (hist & n & H & Hs & <- & -> & Hl). eapply spec_impl; [|by apply (compact_spec _ _ _ _ H)].
  intros r s' w' (-> & Hmax & Hs' & H'). specialize (Hs' Hs). split; [done|]. exists (drop n hist), 0%nat.
  pose proof (len_frames_drop n hist). split_and!; done || lia.
Qed.

Lemma restart_queued max q size s w :
  Queued max q size s w → ok_spec restart s w (λ r s' w', r = Ok tt ∧ Queued max q size s' w').
Proof.
  intros (hist & n & H & Hs & <- & -> & Hl). unfold spec, restart, Spool.open. simpl.
  split; [done|]. intros r w1 [[= -> ->]|[[] _]]. simpl. split; [done|].
  intros t w2 [[= -> ->]|[[] _]]. simpl. split; [done|]. destruct H as [[] Hu Hb Ha].
  assert (Disk.reopen w = w) as -> by (destruct w; unfold Disk.reopen; simpl in *; by subst).
  exists hist, n. split_and!; try done. constructor; try done. simpl.
  unfold Synced, watermark in Hs. by rewrite Hs.
Qed.

Lemma take_queued lane max q size s w :
  Queued max q size s w →
  ok_spec (perform lane OpTake) s w (λ r s' w', r = Ok (head q) ∧ Queued max (tail q) size s' w').
Proof.
  intros (hist & n & H & Hs & <- & -> & Hl). simpl.
  eapply ok_then; [by eapply read_next_reads|]. unfold oldest.
  destruct (hist !! n) as [p|] eqn:Hn; simpl.
  - apply spec_then. eapply spec_impl; [|by apply ack_spec].
    intros r s' w' (-> & Hh & [[-> Hs']|[[] _]]). unfold spec. simpl.
    rewrite (drop_S _ _ _ Hn). split; [done|]. exists hist, (S n). done.
  - unfold spec. simpl. apply lookup_ge_None in Hn. rewrite drop_ge by done. split; [done|].
    exists hist, n. by rewrite drop_ge.
Qed.

Lemma perform_queued lane op max q size s w :
  Queued max q size s w → op_fits op → size + cost op < 2 ^ 63 →
  ok_spec (perform lane op) s w (λ r s' w',
    r = (queue_op lane max op q).1 ∧ Queued max (queue_op lane max op q).2 (size + cost op) s' w').
Proof.
  intros HQ Hf Hc. destruct op; cbn [cost op_fits] in *; rewrite ?Z.add_0_r in *.
  - unfold perform. apply spec_then. eapply spec_impl; [|by apply (enqueue_queued lane _ _ _ _ _ _ HQ)].
    intros [[]|e] s' w' [<- HQ']; done.
  - destruct HQ as (hist & n & H & Hs & <- & -> & Hl). simpl. eapply ok_then; [by eapply read_next_reads|].
    unfold spec. simpl. split; [|by exists hist, n]. unfold oldest.
    destruct (hist !! n) as [p|] eqn:Hn; simpl; [by rewrite (drop_S _ _ _ Hn)|].
    apply lookup_ge_None in Hn. by rewrite drop_ge.
  - by apply take_queued.
  - simpl. apply spec_then. eapply spec_impl; [|by apply (compact_queued _ _ _ _ _ HQ)].
    by intros r s' w' [-> HQ'].
  - simpl. unfold Spool.compact_if_reclaimable. apply spec_then. eapply ok_then; [apply reads_self|].
    destruct (_ || _); [by unfold spec|]. apply spec_then.
    eapply spec_impl; [|by apply (compact_queued _ _ _ _ _ HQ)]. by intros r s' w' [-> HQ'].
  - simpl. apply spec_then. eapply spec_impl; [|by apply (restart_queued _ _ _ _ _ HQ)].
    by intros r s' w' [-> HQ'].
Qed.

(** ** Sessions *)

(** The operations one after the other, with their answers. *)
Fixpoint session (lane : Lane) (ops : list Op) (s : LaneState) : prog DiskE (list Answer * LaneState) :=
  match ops with
  | [] => mret ([], s)
  | op :: ops =>
      '(r, s) ← perform lane op s;
      '(rs, s) ← session lane ops s;
      mret (r :: rs, s)
  end.

Fixpoint queue_session (lane : Lane) (max : Z) (ops : list Op) (q : list (list byte)) :
    list Answer * list (list byte) :=
  match ops with
  | [] => ([], q)
  | op :: ops =>
      let '(r, q) := queue_op lane max op q in
      let '(rs, q) := queue_session lane max ops q in
      (r :: rs, q)
  end.

Definition total (ops : list Op) : Z := foldr (λ op n, cost op + n) 0 ops.

Lemma session_queued lane ops max q size s w :
  Queued max q size s w → Forall op_fits ops → size + total ops < 2 ^ 63 →
  safe (stepping (Disk.step False) (λ _, True))
    (λ w' x, x.1 = (queue_session lane max ops q).1 ∧
             Queued max (queue_session lane max ops q).2 (size + total ops) x.2 w')
    w (session lane ops s).
Proof.
  revert q size s w. induction ops as [|op ops IH]; intros q size s w HQ Hf Hsize.
  { simpl in *. by rewrite Z.add_0_r. }
  inv Hf as [|? ? Hop Hops]. cbn [session queue_session total foldr] in *. fold (total ops) in *.
  assert (0 <= cost op) by (destruct op; try done; apply len_nonneg).
  assert (0 <= total ops) by (clear; induction ops as [|[] ? ?]; simpl; try lia; fold (total ops) in *;
    pose proof (len_nonneg (frame payload)); lia).
  eapply safe_mbind; [apply stepping_monotone|apply (perform_queued lane op _ _ _ _ _ HQ Hop); lia|].
  intros w1 [r s1] [Hr HQ1]. simpl in Hr, HQ1. destruct (queue_op lane max op q) as [r' q1]. simpl in *. subst r'.
  eapply safe_mbind; [apply stepping_monotone|apply (IH _ _ _ _ HQ1 Hops); lia|].
  intros w2 [rs s2] [Hrs HQ2]. simpl in Hrs, HQ2. destruct (queue_session lane max ops q1) as [rs' q2]. simpl in *.
  subst. rewrite Z.add_assoc. done.
Qed.

Lemma handle_steps F T (e : DiskE T) w : Disk.step F T e (Disk.handle T e w).1 w (Disk.handle T e w).2.
Proof. left. unfold Disk.handle. by destruct (Disk.answer e w). Qed.

(** A lane from its first start on an empty directory *)
Definition lane_session (lane : Lane) (max : Z) (ops : list Op) :
    prog DiskE (Result (list Answer * LaneState) SpoolError) :=
  s ←? Spool.open max;
  r ← session lane ops s;
  mret (Ok r).

Lemma lane_session_queued lane max ops :
  Forall op_fits ops → total ops < 2 ^ 63 →
  safe (stepping (Disk.step False) (λ _, True))
    (λ w r, ∃ s, r = Ok ((queue_session lane max ops []).1, s) ∧
                 Queued max (queue_session lane max ops []).2 (total ops) s w)
    Disk.empty (lane_session lane max ops).
Proof.
  intros Hf Hsize. set (s0 := {| ls_ack_offset := 0; ls_max_bytes := max |}).
  assert (Queued max [] 0 s0 Disk.empty) as HQ.
  { exists [], 0%nat. split_and!; try done. constructor; try done. constructor; try done. by exists 0%nat. }
  unfold lane_session, Spool.open. simpl.
  split; [done|]. intros r w1 [[= -> ->]|[[] _]]. simpl. split; [done|].
  intros t w2 [[= -> ->]|[[] _]]. simpl. fold s0.
  eapply safe_bind; [apply stepping_monotone|].
  eapply safe_impl; [apply stepping_monotone| |by apply (session_queued lane ops max [] 0)].
  intros w [rs s] [Hr HQ']. simpl in *. exists s. by rewrite <- Hr.
Qed.

(** C29: a lane is a bounded first-in first-out queue.  On a disk that does what
    it is asked, a lane opened on an empty directory answers every sequence of
    enqueues, reads, acknowledged reads, compactions and restarts as the queue
    [queue_session] does: the critical lane refuses the record that would take
    it over its budget and drops nothing, the normal lane drops its oldest
    records until the new one fits, and neither compaction nor a restart can be
    seen.  A payload is less than 4 GiB, and the bytes appended over the whole
    sequence less than [2^63]. *)
Theorem spool_refines_queue lane max ops :
  Forall op_fits ops → total ops < 2 ^ 63 →
  ∃ s w t, run Disk.handle (lane_session lane max ops) Disk.empty =
             (Ok ((queue_session lane max ops []).1, s), w, t) ∧
           Queued max (queue_session lane max ops []).2 (total ops) s w.
Proof.
  intros Hf Hsize.
  pose proof (run_executes _ Disk.handle (lane_session lane max ops) Disk.empty (handle_steps False)) as Hx.
  eapply stepping_executes in Hx; [|by apply (lane_session_queued lane max ops)].
  destruct (run Disk.handle (lane_session lane max ops) Disk.empty) as [[r w] t]. simpl in Hx.
  destruct Hx as (s & -> & HQ). by exists s, w, t.
Qed.

(** ** A log with torn appends

    An append that fails or is cut short leaves bytes that are no record.  The log
    is then a sequence of records and torn pieces. *)

Inductive Piece := Rec (payload : list byte) | Torn (bytes : list byte).

Definition piece_bytes (x : Piece) : list byte := match x with Rec p => frame p | Torn b => b end.
Definition bytes_of (lay : list Piece) : list byte := concat (piece_bytes <$> lay).

(** The records of a log that starts at the offset [o], with their offsets *)
Fixpoint placed (o : Z) (lay : list Piece) : list (Z * list byte) :=
  match lay with
  | [] => []
  | Rec p :: lay => (o, p) :: placed (o + len (frame p)) lay
  | Torn b :: lay => placed (o + len b) lay
  end.

Lemma bytes_app l l' : bytes_of (l ++ l') = bytes_of l ++ bytes_of l'.
Proof. unfold bytes_of. by rewrite fmap_app, concat_app. Qed.

Lemma placed_app o l l' : placed o (l ++ l') = placed o l ++ placed (o + len (bytes_of l)) l'.
Proof.
  revert o. induction l as [|[p|b] l IH]; intros o; cbn [app placed].
  - change (len (bytes_of [])) with 0. by rewrite Z.add_0_r.
  - rewrite IH. change (bytes_of (Rec p :: l)) with (frame p ++ bytes_of l).
    by rewrite len_app, Z.add_assoc.
  - rewrite IH. change (bytes_of (Torn b :: l)) with (b ++ bytes_of l). by rewrite len_app, Z.add_assoc.
Qed.

Lemma placed_bounds a lay o p :
  (o, p) ∈ placed a lay → a <= o ∧ o + len (frame p) <= a + len (bytes_of lay).
Proof.
  revert a. induction lay as [|[q|b] lay IH]; intros a; cbn [placed]; [by intros ?%elem_of_nil|..].
  - change (bytes_of (Rec q :: lay)) with (frame q ++ bytes_of lay). rewrite len_app.
    pose proof (len_nonneg (frame q)). pose proof (len_nonneg (bytes_of lay)).
    intros [[= -> ->]|Hin%IH]%elem_of_cons; lia.
  - change (bytes_of (Torn b :: lay)) with (b ++ bytes_of lay). rewrite len_app.
    pose proof (len_nonneg b). intros Hin%IH. lia.
Qed.

(** A record is read as a frame at its offset. *)
Lemma placed_frame pre lay o p :
  (o, p) ∈ placed (len pre) lay → fits p →
  frame_at (pre ++ bytes_of lay) o = Some (p, o + len (frame p)).
Proof.
  revert pre. induction lay as [|[q|b] lay IH]; intros pre; cbn [placed]; [by intros ?%elem_of_nil|..].
  - change (bytes_of (Rec q :: lay)) with (frame q ++ bytes_of lay).
    intros [[= -> ->]|Hin]%elem_of_cons Hp; [by apply frame_at_frame|].
    rewrite app_assoc. apply IH; [|done]. by rewrite len_app.
  - change (bytes_of (Torn b :: lay)) with (b ++ bytes_of lay). intros Hin Hp.
    rewrite app_assoc. apply IH; [|done]. by rewrite len_app.
Qed.

(** The records [l] are read in [log] one after the other, from [o] on. *)
Fixpoint frames_from (log : list byte) (o : Z) (l : list (Z * list byte)) : Prop :=
  match l with
  | [] => True
  | (a, p) :: l => o <= a ∧ frame_at log a = Some (p, a + len (frame p)) ∧ frames_from log (a + len (frame p)) l
  end.

Lemma frames_from_earlier log o o' l : o <= o' → frames_from log o' l → frames_from log o l.
Proof. intros Ho. destruct l as [|[a p] l]; [done|]. intros (? & ? & ?). split_and!; [lia|done..]. Qed.

Lemma placed_from pre lay :
  Forall fits (placed (len pre) lay).*2 → frames_from (pre ++ bytes_of lay) (len pre) (placed (len pre) lay).
Proof.
  revert pre. induction lay as [|[q|b] lay IH]; intros pre; cbn [placed fmap list_fmap]; [done|..].
  - intros [Hq Hf]%list.Forall_cons. change (bytes_of (Rec q :: lay)) with (frame q ++ bytes_of lay).
    split; [done|]. split; [by apply frame_at_frame|].
    rewrite app_assoc. rewrite <- len_app in Hf |- *. by apply IH.
  - change (bytes_of (Torn b :: lay)) with (b ++ bytes_of lay). intros Hf.
    apply (frames_from_earlier _ _ (len pre + len b)); [pose proof (len_nonneg b); lia|].
    rewrite app_assoc. rewrite <- len_app in Hf |- *. by apply IH.
Qed.

(** The log from the offset [k] on: the records that start there or later are
    still whole. *)
Lemma cut_at k a lay :
  a <= k <= a + len (bytes_of lay) →
  ∃ before after lay', placed a lay = before ++ after ∧
    Forall (λ x, x.1 < k) before ∧ Forall (λ x, k <= x.1) after ∧
    drop (Z.to_nat (k - a)) (bytes_of lay) = bytes_of lay' ∧ placed k lay' = after.
Proof.
  revert a. induction lay as [|x lay IH]; intros a Hk.
  - exists [], [], []. change (len (bytes_of [])) with 0 in Hk. change (bytes_of []) with (@nil byte).
    by rewrite drop_nil.
  - change (bytes_of (x :: lay)) with (piece_bytes x ++ bytes_of lay) in *. rewrite len_app in Hk.
    pose proof (len_nonneg (piece_bytes x)) as Hx.
    destruct (decide (k <= a)) as [Ha|Ha].
    { assert (k = a) as -> by lia. exists [], (placed a (x :: lay)), (x :: lay).
      split; [done|]. split; [done|]. split.
      - apply list.Forall_forall. intros [o p] Hin. by apply placed_bounds in Hin as [? _].
      - by rewrite Z.sub_diag. }
    destruct (decide (a + len (piece_bytes x) <= k)) as [Hb|Hb].
    + destruct (IH (a + len (piece_bytes x))) as (before & after & lay' & Hp & H1 & H2 & Hd & Hl); [lia|].
      assert (drop (Z.to_nat (k - a)) (piece_bytes x ++ bytes_of lay) = bytes_of lay') as Hdrop.
      { rewrite drop_app_ge by (unfold len in *; lia). rewrite <- Hd. f_equal. unfold len in *. lia. }
      destruct x as [p|b]; cbn [placed piece_bytes] in *.
      * exists ((a, p) :: before), after, lay'. rewrite Hp. split; [done|]. split; [by constructor; [simpl; lia|]|]. done.
      * exists before, after, lay'. done.
    + set (rest := drop (Z.to_nat (k - a)) (piece_bytes x)).
      assert (k + len rest = a + len (piece_bytes x)) as Hrest.
      { unfold rest, len in *. rewrite length_drop. lia. }
      assert (Forall (λ x, k <= x.1) (placed (k + len rest) lay)) as Hall.
      { apply list.Forall_forall. intros [o p] Hin. apply placed_bounds in Hin as [? _]. simpl. lia. }
      assert (drop (Z.to_nat (k - a)) (piece_bytes x ++ bytes_of lay) = bytes_of (Torn rest :: lay)) as Hdrop.
      { rewrite drop_app_le by (unfold len in *; lia). done. }
      destruct x as [p|b]; cbn [placed piece_bytes] in *.
      * exists [(a, p)], (placed (k + len rest) lay), (Torn rest :: lay). rewrite Hrest.
        split; [done|]. split; [by constructor; [simpl; lia|]|]. rewrite <- Hrest. done.
      * exists [], (placed (k + len rest) lay), (Torn rest :: lay). rewrite Hrest.
        split; [done|]. split; [done|]. rewrite <- Hrest. done.
Qed.

Lemma placed_shift a b lay : placed b lay = (λ x, (x.1 + (b - a), x.2)) <$> placed a lay.
Proof.
  revert a b. induction lay as [|[p|t] lay IH]; intros a b; cbn [placed]; [done|..].
  - rewrite fmap_cons. f_equal; [f_equal; simpl; lia|].
    rewrite (IH (a + len (frame p)) (b + len (frame p))). apply list_fmap_ext. intros _ [o q] _. simpl. f_equal. lia.
  - rewrite (IH (a + len t) (b + len t)). apply list_fmap_ext. intros _ [o q] _. simpl. f_equal. lia.
Qed.

(** ** The watermark when its write was cut short *)

Lemma parse_digits_app a s t v :
  0 <= a → Risk.parse_digits a (s +:+ t) = Some v → ∃ u, Risk.parse_digits a s = Some u ∧ a <= u <= v.
Proof.
  revert a. induction s as [|c s IH]; intros a Ha; simpl.
  - intros Hv. exists a. split; [done|]. split; [done|]. revert a Ha Hv. induction t as [|c t IH]; intros a Ha; simpl.
    + intros [= ->]. done.
    + destruct (Z.leb_spec 0 (Z.of_nat (nat_of_ascii c) - 48)); [|done].
      destruct (Z.leb_spec (Z.of_nat (nat_of_ascii c) - 48) 9); [|done]. simpl.
      intros Hv%IH; lia.
  - destruct (Z.leb_spec 0 (Z.of_nat (nat_of_ascii c) - 48)); [|done].
    destruct (Z.leb_spec (Z.of_nat (nat_of_ascii c) - 48) 9); [|done]. simpl.
    intros (u & Hu & ?)%IH; [|lia]. exists u. split; [done|lia].
Qed.

Lemma pretty_all_digits n : 0 <= n → digits (pretty n).
Proof.
  intros Hn. destruct n as [|p|p]; [by repeat constructor| |lia].
  apply (pretty_digits (N.pos p) ""). constructor.
Qed.

Lemma parse_pretty n : 0 <= n → Risk.parse_digits 0 (pretty n) = Some n.
Proof.
  intros Hn. destruct n as [|p|p]; [done| |lia]. exact (Pages.parse_digits_pretty (N.pos p) "").
Qed.

Definition marks (st : option string) : Z := default 0 (st ≫= Spool.parse_offset).

(** Part of the text of a watermark is a smaller one. *)
Lemma marks_part n written rest :
  0 <= n → pretty n = written +:+ rest → 0 <= marks (Some written) <= n.
Proof.
  intros Hn Hw. pose proof (parse_pretty n Hn) as Hp. rewrite Hw in Hp.
  destruct (parse_digits_app 0 written rest n ltac:(lia) Hp) as (u & Hu & Hle).
  assert (digits written) as Hd.
  { pose proof (pretty_all_digits n Hn) as H. rewrite Hw in H. clear -H. unfold digits in *. revert H.
    induction written as [|c s IH]; simpl; [by constructor|]. intros H. inv H. constructor; [done|]. by apply IH. }
  unfold marks, Spool.parse_offset. simpl. rewrite trim_digits by done.
  assert ((match written with String "+" s' => s' | _ => written end) = written) as ->.
  { destruct written as [|c s]; [done|]. inv Hd as [|? ? Hc _]. by destruct c as [[] [] [] [] [] [] [] []]. }
  destruct (is_empty written); [done|]. rewrite Hu. simpl. destruct (u <? two64); simpl; lia.
Qed.

(** ** Reading a log with torn appends *)

(** Only the watermark has changed, to one that is not past [k]. *)
Definition remarked (k : Z) (w w' : Disk) : Prop :=
  ∃ st, w' = Disk.set_state st w ∧ (st = dk_state w ∨ 0 <= marks st <= k).

Lemma remarked_same k w : remarked k w w.
Proof. exists (dk_state w). split; [by destruct w|by left]. Qed.

Section Torn.
Context (I : Disk → Prop).

Lemma persist_torn s w :
  I w → 0 <= ls_ack_offset s < 2 ^ 63 →
  spec True I Spool.persist_ack_offset s w (λ r s' w', s' = s ∧ remarked (ls_ack_offset s) w w').
Proof.
  intros HI Hs. unfold Spool.persist_ack_offset. apply spec_then. simpl. apply spec_io; [done|].
  intros r w' [[= -> ->]|[_ [[e ->] [->|(written & rest & Ht & ->)]]]]; simpl; (split; [done|]).
  - exists (Some (pretty (ls_ack_offset s))). split; [done|]. right. unfold marks. simpl.
    rewrite parse_offset_pretty by done. simpl. lia.
  - apply remarked_same.
  - exists (Some written). split; [done|]. right. apply (marks_part _ _ rest); [lia|done].
Qed.

(** What [read_next] does: the lane moves over bytes that are no frame. *)
Definition advanced (s : LaneState) (w : Disk) (r : Result (option SpoolRecord) SpoolError) (s' : LaneState)
    (w' : Disk) : Prop :=
  ls_max_bytes s' = ls_max_bytes s ∧ ls_ack_offset s <= ls_ack_offset s' <= Z.max (ls_ack_offset s) (len (Disk.contents w)) ∧
  (∀ o, ls_ack_offset s <= o < ls_ack_offset s' → frame_at (Disk.contents w) o = None) ∧
  remarked (ls_ack_offset s') w w' ∧
  ∀ rec, r = Ok (Some rec) →
    frame_at (Disk.contents w) (ls_ack_offset s') = Some (sr_payload rec, sr_next_offset rec).

Lemma advanced_here s w r :
  (∀ rec, r = Ok (Some rec) →
    frame_at (Disk.contents w) (ls_ack_offset s) = Some (sr_payload rec, sr_next_offset rec)) →
  advanced s w r s w.
Proof. intros Hr. split; [done|]. split; [lia|]. split; [lia|]. split; [apply remarked_same|done]. Qed.

Lemma frame_at_inside log o p e :
  0 <= o → frame_at log o = Some (p, e) → o + Spool.HEADER_LEN <= e <= len log.
Proof.
  intros Ho. unfold frame_at. destruct (Z.ltb_spec (len log) (o + Spool.HEADER_LEN)); [done|].
  set (n := le_u32 _). assert (0 <= n) as Hn.
  { unfold n, le_u32. repeat case_match; try done. unfold value_of_byte. lia. }
  destruct (Z.ltb_spec (len log) (o + Spool.HEADER_LEN + n)); [done|]. destruct (negb _); [done|].
  intros [= <- <-]. lia.
Qed.

Lemma resync_torn n c s w :
  I w → 0 <= ls_ack_offset s <= c → c + Z.of_nat n <= len (Disk.contents w) < 2 ^ 63 →
  (∀ o, ls_ack_offset s <= o < c → frame_at (Disk.contents w) o = None) →
  spec True I (Spool.resync crc32 n c) s w (advanced s w).
Proof.
  intros HI. revert c. induction n as [|n IH]; intros c Hs Hc Hnone; cbn [Spool.resync].
  { unfold spec. simpl. by apply advanced_here. }
  eapply reads_then; [by apply read_frame_at_reads| |intros _ e; by apply advanced_here].
  destruct (frame_at (Disk.contents w) c) as [[p e]|] eqn:Hf.
  - apply spec_then. unfold spec at 1. simpl. apply spec_then.
    eapply spec_impl; [|apply persist_torn; [done|simpl; lia]].
    intros r s' w' [-> Hw]. simpl in *.
    assert (∀ x, (∀ rec, x = Ok (Some rec) → rec = Spool.record_of (p, e)) → advanced s w x (set_ack c s) w') as Hadv.
    { intros x Hx. split; [done|]. split; [simpl; lia|]. split; [done|]. split; [done|].
      intros rec Hrec. rewrite (Hx rec Hrec). done. }
    destruct r as [[]|err]; [|by apply Hadv]. unfold spec. simpl. apply Hadv. by intros rec [= <-].
  - apply IH; [lia|lia|]. intros o Ho. destruct (decide (o = c)) as [->|]; [done|]. apply Hnone. lia.
Qed.

Lemma read_next_torn s w :
  I w → 0 <= ls_ack_offset s <= len (Disk.contents w) → len (Disk.contents w) < 2 ^ 63 →
  spec True I (Spool.read_next crc32) s w (advanced s w).
Proof.
  intros HI Hs Hl. unfold Spool.read_next. eapply reads_then; [apply reads_self| |intros _ e; by apply advanced_here].
  eapply reads_then; [by apply read_frame_at_reads| |intros _ e; by apply advanced_here].
  destruct (frame_at (Disk.contents w) (ls_ack_offset s)) as [[p e]|] eqn:Hf.
  { unfold spec. simpl. apply advanced_here. by intros rec [= <-]. }
  eapply reads_then; [by apply file_len_reads| |intros _ e; by apply advanced_here].
  set (n := Z.to_nat _). destruct (decide (n = 0%nat)) as [Hn|Hn].
  { rewrite Hn. unfold spec. simpl. by apply advanced_here. }
  apply resync_torn; [done|lia| |].
  - unfold n in *. lia.
  - intros o Ho. assert (o = ls_ack_offset s) as -> by lia. done.
Qed.

Lemma ack_torn rec s w :
  I w → 0 <= ls_ack_offset s <= sr_next_offset rec → sr_next_offset rec < 2 ^ 63 →
  spec True I (Spool.ack rec) s w (λ r s' w',
    s' = set_ack (sr_next_offset rec) s ∧ remarked (sr_next_offset rec) w w').
Proof.
  intros HI Hs Hn. unfold Spool.ack. apply spec_then. unfold spec at 1. simpl. rewrite Z.max_r by lia.
  eapply spec_impl; [|apply persist_torn; [done|simpl; lia]]. by intros r s' w' [-> Hw].
Qed.

(** An enqueue in the critical lane: the record is appended whole, or not and
    then a part of it may be. *)
Lemma enqueue_torn p s w :
  I w → dk_unlinked w = None →
  spec True I (Spool.enqueue crc32 Critical p) s w (λ r s' w', s' = s ∧
    ∃ b, w' = Disk.set_contents (dk_log w ++ b) w ∧ (b = [] ∨ len (dk_log w ++ b) < 2 ^ 63) ∧
      (r = Ok tt ∧ b = frame p ∨ (∃ e, r = Err e) ∧ ∃ k, b = take k (frame p))).
Proof.
  intros HI Hu. assert (Disk.contents w = dk_log w) as Hc by (unfold Disk.contents; by rewrite Hu).
  assert (∀ e, ∃ b, w = Disk.set_contents (dk_log w ++ b) w ∧ (b = [] ∨ len (dk_log w ++ b) < 2 ^ 63) ∧
      (Err e = Ok tt ∧ b = frame p ∨ (∃ e' : SpoolError, Err (A := unit) e = Err e') ∧ ∃ k, b = take k (frame p))) as Hnone.
  { intros e. exists []. split.
    - rewrite app_nil_r. destruct w. unfold Disk.set_contents. simpl in *. by rewrite Hu.
    - split; [by left|]. right. split; [by exists e|]. by exists 0%nat. }
  unfold Spool.enqueue. eapply reads_then; [by apply pending_bytes_reads| |by intros _ e].
  eapply reads_then; [apply reads_self| |by intros _ e]. destruct (_ <? _).
  { unfold spec. simpl. auto. }
  apply spec_io; [done|]. unfold Disk.step. simpl. rewrite Hc.
  destruct (Z.ltb_spec (len (dk_log w ++ frame p)) (2 ^ 63)) as [Hl|Hl];
    intros r w' [[= -> ->]|[_ [[e ->] (k & -> & Hk)]]]; simpl; (split; [done|]); auto.
  - exists (frame p). auto.
  - exists (take k (frame p)). split; [done|]. split; [by right|]. right. eauto.
  - exists (take k (frame p)). split; [done|]. split; [by right|]. right. eauto.
Qed.
End Torn.
End Lane.
