(* ===== verification/Shipper.v ===== *)
(** * The shipper

    Models [src/bins/aegis-node-sensor/src/shipper.rs] and the part of
    [gateway_client.rs] it uses: the records of a lane are sent to the gateway in
    order, each with retries, and acknowledged only when the gateway has
    confirmed them.

    The HTTP client and the JSON parser are parameters: a response comes with
    its text and its parsed body, and [from_slice] parses a record. *)

From S2P Require Import Prelude RustString Prog Slab Spool SpoolSafety.

Local Open Scope Z_scope.

Record RuntimeEventPayload {DateTime : Type} := {
  re_event_id : string;
  re_event_type : string;
  re_severity : option string;
  re_agent_id : option string;
  re_run_id : option string;
  re_sandbox_id : option string;
  re_trace_id : option string;
  re_parent_event_id : option string;
  re_source_component : string;
  re_source_trust : option string;
  re_decision : option string;
  re_reason : option string;
  re_action_hash : option string;
  re_prompt_hash : option string;
  re_request_hash : option string;
  re_response_hash : option string;
  re_receipt_id : option string;
  re_receipt_hash : option string;
  re_prev_receipt_hash : option string;
  re_canonical_version : option string;
  re_redaction_status : option string;
  re_observed_at : option DateTime }.
Arguments RuntimeEventPayload : clear implicits.

Inductive GatewayClientError :=
| ClientRequest (e : string)
| RejectedRequest (status : Z) (body : string).

Record IngestResponse := { ingested : bool }.

(** A response: its status, its body as text and its body as JSON *)
Record HttpResponse (T : Type) := {
  hr_status : Z;
  hr_text : Result string string;
  hr_json : Result T string }.
Arguments hr_status {T}.
Arguments hr_text {T}.
Arguments hr_json {T}.

Inductive ShipperError :=
| ShipperSpool (e : SpoolError)
| InvalidPayload (e : string).

Module Shipper.
Section Shipper.
Context {DateTime : Type} (crc32 : list byte → Z).
Context (from_slice : list byte → Result (RuntimeEventPayload DateTime) string).

Inductive ShipE : Type → Type :=
| OnDisk {T} (e : DiskE T) : ShipE T
| PostRuntimeEvent (req : RuntimeEventPayload DateTime) : ShipE (Result (HttpResponse IngestResponse) string)
| SleepMillis (n : Z) : ShipE unit.

(** [StatusCode::is_success] *)
Definition is_success (status : Z) : bool := (200 <=? status) && (status <? 300).

Definition parse_response {T} (response : HttpResponse T) : Result T GatewayClientError :=
  if is_success (hr_status response) then
    match hr_json response with Ok v => Ok v | Err e => Err (ClientRequest e) end
  else
    Err (RejectedRequest (hr_status response) match hr_text response with Ok t => t | Err _ => "" end).

Definition ingest_runtime_event (req : RuntimeEventPayload DateTime) :
    prog ShipE (Result IngestResponse GatewayClientError) :=
  r ← trigger (PostRuntimeEvent req);
  match r with
  | Err e => mret (Err (ClientRequest e))
  | Ok response => mret (parse_response response)
  end.

Definition SHIP_MAX_ATTEMPTS : nat := 5.
Definition SHIP_BASE_DELAY : Z := 200.

(** The attempts that are left, [n] more after this one. *)
Fixpoint attempts (n : nat) (delay : Z) (payload : RuntimeEventPayload DateTime) :
    prog ShipE (Result unit GatewayClientError) :=
  r ← ingest_runtime_event payload;
  match r, n with
  | Ok _, _ => mret (Ok tt)
  | Err _, S n =>
      _ ← trigger (SleepMillis delay);
      attempts n (delay * 2) payload
  | Err e, O => mret (Err e)
  end.

Definition ship_with_retries (payload : RuntimeEventPayload DateTime) : prog ShipE (Result unit GatewayClientError) :=
  attempts (SHIP_MAX_ATTEMPTS - 1) SHIP_BASE_DELAY payload.

(** A call on the spool *)
Definition on_spool {A} (p : method A) (s : LaneState) : prog ShipE (Result A SpoolError * LaneState) :=
  interp (λ T e, trigger (OnDisk e)) (p s).

(** The loop, for [turns] turns. *)
Fixpoint ship_lane (turns : nat) (shipped : Z) (s : LaneState) :
    prog ShipE (Result Z ShipperError * LaneState) :=
  match turns with
  | O => mret (Ok shipped, s)
  | S turns =>
      '(r, s) ← on_spool (Spool.read_next crc32) s;
      match r with
      | Err e => mret (Err (ShipperSpool e), s)
      | Ok None => mret (Ok shipped, s)
      | Ok (Some record) =>
          match from_slice (sr_payload record) with
          | Err e => mret (Err (InvalidPayload e), s)
          | Ok payload =>
              sent ← ship_with_retries payload;
              match sent with
              | Ok _ =>
                  '(r, s) ← on_spool (Spool.ack record) s;
                  match r with
                  | Err e => mret (Err (ShipperSpool e), s)
                  | Ok _ => ship_lane turns (shipped + 1) s
                  end
              | Err e => mret (Ok shipped, s)
              end
          end
      end
  end.
End Shipper.
End Shipper.

(** * No event is lost between the sensor and the gateway

    The lane of [Spool.v] and the shipper of [Shipper.v] over the life of a
    sensor: enqueues, shipping, restarts, failing calls and stops at any call. *)

Section Sensor.
Context {DateTime : Type} (crc32 : list byte → Z).
Context (crc32_u32 : ∀ p, 0 <= crc32 p < 2 ^ 32).
Context (from_slice : list byte → Result (RuntimeEventPayload DateTime) string).

Abbreviation bytes_of := (SpoolSafety.bytes_of crc32).
Abbreviation placed := (SpoolSafety.placed crc32).

(** The disk and the events the gateway has confirmed *)
Definition World : Type := Disk * list (RuntimeEventPayload DateTime).

(** A confirmation is an answer the client takes for one. *)
Definition confirms (r : Result (HttpResponse IngestResponse) string) : bool :=
  match r with
  | Ok response => match Shipper.parse_response response with Ok _ => true | Err _ => false end
  | Err _ => false
  end.

(** [G] says which answers the gateway may give, [F] whether the disk fails. *)
Definition world_step (F : Prop) (G : Result (HttpResponse IngestResponse) string → Prop)
    T (e : Shipper.ShipE T) (r : T) (w w' : World) : Prop :=
  match e in Shipper.ShipE T return T → Prop with
  | Shipper.OnDisk e => λ r, Disk.step F _ e r w.1 w'.1 ∧ w'.2 = w.2
  | Shipper.PostRuntimeEvent req => λ r, G r ∧ w' = (w.1, if confirms r then w.2 ++ [req] else w.2)
  | Shipper.SleepMillis _ => λ _, w' = w
  end r.

Section Specs.
Context (F : Prop) (G : Result (HttpResponse IngestResponse) string → Prop) (I : World → Prop).

Abbreviation rule := (stepping (world_step F G) I).

(** What holds of a method holds of it in the sensor. *)
Lemma on_spool_safe {A} (p : method A) s d conf (Q : Result A SpoolError → LaneState → Disk → Prop) :
  spec F (λ d, I (d, conf)) p s d Q →
  safe rule (λ w x, w.2 = conf ∧ Q x.1 x.2 w.1) (d, conf) (Shipper.on_spool p s).
Proof.
  unfold spec, Shipper.on_spool. revert d. generalize (p s). intros q.
  induction q as [[r s']|T e k IH]; intros d; simpl; [done|].
  intros [HI Hk]. split; [done|]. intros r [d' conf'] [Hs Hc]. simpl in *. subst. auto.
Qed.

Lemma attempts_safe n delay payload d conf :
  I (d, conf) →
  safe rule (λ w r, (r = Ok tt ∧ w = (d, conf ++ [payload])) ∨ ((∃ e, r = Err e) ∧ w = (d, conf) ∧ ∃ a, G a ∧ confirms a = false))
    (d, conf) (Shipper.attempts n delay payload).
Proof.
  intros HI. revert delay. induction n as [|n IH]; intros delay; simpl; (split; [done|]);
    intros r w [Hg ->]; destruct (confirms r) eqn:Hr; destruct r as [response|e]; simpl in *; try done.
  - destruct (Shipper.parse_response response); [|done]. simpl. auto.
  - destruct (Shipper.parse_response response) eqn:Hp; [done|]. simpl. right. split; [eauto|]. split; [done|].
    exists (Ok response). simpl. by rewrite Hp.
  - right. split; [eauto|]. eauto.
  - destruct (Shipper.parse_response response); [|done]. simpl. auto.
  - destruct (Shipper.parse_response response); [done|]. simpl. split; [done|]. intros [] w ->. auto.
  - split; [done|]. intros [] w ->. auto.
Qed.
End Specs.

(** ** The records that were accepted *)

Definition confirmed (conf : list (RuntimeEventPayload DateTime)) (p : list byte) : Prop :=
  ∃ e, from_slice p = Ok e ∧ e ∈ conf.

Lemma confirmed_more conf e p : confirmed conf p → confirmed (conf ++ [e]) p.
Proof. intros (x & Hx & Hin). exists x. split; [done|]. apply elem_of_app. by left. Qed.

Lemma confirmed_last conf e p : from_slice p = Ok e → confirmed (conf ++ [e]) p.
Proof. intros He. exists e. split; [done|]. apply elem_of_app. right. by left. Qed.

(** The records that start before the offset [m] are confirmed. *)
Definition Kept (conf : list (RuntimeEventPayload DateTime)) (lay : list Piece) (m : Z) : Prop :=
  0 <= m <= len (bytes_of lay) ∧ ∀ o p, (o, p) ∈ placed 0 lay → o < m → confirmed conf p.

(** The accepted records [acc] are among those of the log and those compacted
    away from it, [old], in order, and the ones before the watermark are
    confirmed. *)
Record Logged (acc old : list (list byte)) (lay : list Piece) (w : World) : Prop := {
  lo_records : acc `sublist_of` old ++ (placed 0 lay).*2;
  lo_old : Forall (confirmed w.2) old;
  lo_log : dk_log w.1 = bytes_of lay;
  lo_fits : Forall fits (placed 0 lay).*2;
  lo_size : len (bytes_of lay) < 2 ^ 63;
  lo_mark : Kept w.2 lay (watermark w.1) }.

Definition Stopped (acc : list (list byte)) (w : World) : Prop := ∃ old lay, Logged acc old lay w.

Definition Running (acc : list (list byte)) (s : LaneState) (w : World) : Prop :=
  ∃ old lay, Logged acc old lay w ∧ dk_unlinked w.1 = None ∧ Kept w.2 lay (ls_ack_offset s).

Lemma running_stopped acc s w : Running acc s w → Stopped acc w.
Proof. intros (old & lay & H & _). by exists old, lay. Qed.

Lemma kept_earlier conf lay m m' : Kept conf lay m → 0 <= m' <= m → Kept conf lay m'.
Proof. intros [Hb Hk] Hm. split; [lia|]. intros o p Hin Ho. apply (Hk o p Hin). lia. Qed.

Lemma kept_more conf e lay m : Kept conf lay m → Kept (conf ++ [e]) lay m.
Proof. intros [Hb Hk]. split; [done|]. intros o p Hin Ho. by apply confirmed_more, (Hk o p). Qed.

Lemma logged_more acc old lay d conf e : Logged acc old lay (d, conf) → Logged acc old lay (d, conf ++ [e]).
Proof.
  intros []. constructor; simpl in *; try done; [|by apply kept_more].
  eapply list.Forall_impl; [done|]. intros p. apply confirmed_more.
Qed.

(** A write of the watermark that is at [k] at most *)
Lemma logged_remarked acc old lay d d' conf k :
  Logged acc old lay (d, conf) → Kept conf lay k → remarked k d d' →
  Logged acc old lay (d', conf) ∧ dk_unlinked d' = dk_unlinked d ∧ dk_log d' = dk_log d.
Proof.
  intros [] Hk (st & -> & Hst). split; [|done]. constructor; simpl in *; try done.
  change (watermark (Disk.set_state st d)) with (marks st).
  destruct Hst as [->|Hst]; [done|]. by eapply kept_earlier.
Qed.

(** No two frames that can be read in a log overlap. *)
Definition separate (log : list byte) : Prop := ∀ o p e o' p' e',
  0 <= o < o' → frame_at crc32 log o = Some (p, e) → frame_at crc32 log o' = Some (p', e') → e <= o'.

Lemma logged_frame acc old lay w o p :
  Logged acc old lay w → (o, p) ∈ placed 0 lay →
  0 <= o ∧ frame_at crc32 (dk_log w.1) o = Some (p, o + len (Spool.frame crc32 p)).
Proof.
  intros [] Hin. split; [by apply placed_bounds in Hin as [? _]|]. rewrite lo_log0.
  apply (placed_frame crc32 crc32_u32 []); [done|]. eapply list.Forall_forall; [done|].
  by apply (list_elem_of_fmap_2 snd) in Hin.
Qed.

(** The lane moves over bytes that are no frame. *)
Lemma kept_advanced acc old lay d conf s r s' d' :
  Logged acc old lay (d, conf) → dk_unlinked d = None → Kept conf lay (ls_ack_offset s) →
  advanced crc32 s d r s' d' → Kept conf lay (ls_ack_offset s').
Proof.
  intros HL Hu [Hb Hk] (_ & Hs & Hnone & _). unfold Disk.contents in *. rewrite Hu in *. simpl in *.
  pose proof (lo_log _ _ _ _ HL) as Hlog. simpl in Hlog. rewrite Hlog in Hs. split; [lia|]. intros o p Hin Ho.
  destruct (decide (o < ls_ack_offset s)); [by apply (Hk o)|].
  destruct (logged_frame _ _ _ _ _ _ HL Hin) as [_ Hf]. simpl in Hf. rewrite Hnone in Hf; [done|lia].
Qed.

(** The lane moves over the frame it has read, whose event was confirmed. *)
Lemma kept_next acc old lay d conf a p e n :
  Logged acc old lay (d, conf) → Kept conf lay a → separate (dk_log d) →
  frame_at crc32 (dk_log d) a = Some (p, n) → from_slice p = Ok e → Kept (conf ++ [e]) lay n.
Proof.
  intros HL [Hb Hk] Hsep Hf He. pose proof (frame_at_inside crc32 _ _ _ _ (proj1 Hb) Hf) as Hin.
  pose proof (lo_log _ _ _ _ HL) as Hlog. simpl in Hlog. rewrite Hlog in Hin. unfold Spool.HEADER_LEN in Hin. split; [lia|]. intros o q Ho Hlt.
  destruct (logged_frame _ _ _ _ _ _ HL Ho) as [H0 Hq]. simpl in Hq.
  destruct (Z.lt_trichotomy o a) as [?|[->|?]].
  - by apply confirmed_more, (Hk o).
  - rewrite Hf in Hq. injection Hq as <- _. by apply confirmed_last.
  - pose proof (Hsep a p n o _ _ ltac:(lia) Hf Hq). lia.
Qed.

Abbreviation any_answer := (λ _ : Result (HttpResponse IngestResponse) string, True).

Lemma ship_lane_safe acc turns shipped s w :
  Running acc s w → separate (dk_log w.1) →
  safe (stepping (world_step True any_answer) (Stopped acc))
    (λ w x, Running acc x.2 w) w (Shipper.ship_lane crc32 from_slice turns shipped s).
Proof.
  revert shipped s w. induction turns as [|turns IH]; intros shipped s [d conf] H Hsep; [done|].
  cbn [Shipper.ship_lane]. pose proof (running_stopped _ _ _ H) as Hst.
  destruct H as (old & lay & HL & Hu & Hk). simpl in Hu, Hk, Hsep.
  assert (Disk.contents d = dk_log d) as Hc by (unfold Disk.contents; by rewrite Hu).
  pose proof (lo_log _ _ _ _ HL) as Hlog. pose proof (lo_size _ _ _ _ HL) as Hsize. simpl in Hlog.
  eapply safe_mbind; [apply stepping_monotone|apply on_spool_safe, read_next_torn; try done|].
  1-2: rewrite Hc, Hlog; first [apply Hk|done].
  intros [d1 conf1] [r s1] (Hc1 & Hadv). simpl in Hc1, Hadv. subst conf1.
  pose proof (kept_advanced _ _ _ _ _ _ _ _ _ HL Hu Hk Hadv) as Hk1.
  destruct Hadv as (_ & _ & _ & Hw & Hr).
  destruct (logged_remarked _ _ _ _ _ _ _ HL Hk1 Hw) as (HL1 & Hu1 & Hd1). rewrite Hu in Hu1.
  assert (Running acc s1 (d1, conf)) as Hrun by (exists old, lay; done).
  destruct r as [[rec|]|e]; [|done..]. specialize (Hr rec eq_refl). rewrite Hc, <- Hd1 in Hr. rewrite <- Hd1 in Hsep.
  destruct (from_slice (sr_payload rec)) as [e|e] eqn:He; [|done].
  eapply safe_mbind; [apply stepping_monotone|apply attempts_safe; by eapply running_stopped|].
  intros w2 sent [[-> ->]|((e' & ->) & -> & _)]; [|done].
  pose proof (kept_next _ _ _ _ _ _ _ _ _ HL1 Hk1 Hsep Hr He) as Hk2.
  pose proof (logged_more _ _ _ _ _ e HL1) as HL2.
  pose proof (frame_at_inside crc32 _ _ _ _ (proj1 (proj1 Hk1)) Hr) as Hin. unfold Spool.HEADER_LEN in Hin.
  pose proof (lo_log _ _ _ _ HL1) as Hlog1. simpl in Hlog1. rewrite Hlog1 in Hin.
  eapply safe_mbind; [apply stepping_monotone|apply on_spool_safe, ack_torn|].
  1-3: first [by exists old, lay | pose proof (proj1 Hk1); lia].
  intros [d3 conf3] [r s3] (Hc3 & Hs3 & Hw3). simpl in Hc3, Hs3, Hw3. subst conf3 s3.
  destruct (logged_remarked _ _ _ _ _ _ _ HL2 Hk2 Hw3) as (HL3 & Hu3 & Hd3). rewrite Hu1 in Hu3.
  assert (Running acc (set_ack (sr_next_offset rec) s1) (d3, conf ++ [e])) as Hrun3 by (exists old, lay; done).
  destruct r as [[]|e']; [|done]. apply IH; [done|]. simpl. by rewrite Hd3.
Qed.

(** Bytes at the end of the log move no record. *)
Lemma kept_append conf lay x m : Kept conf lay m → Kept conf (lay ++ [x]) m.
Proof.
  intros [Hb Hk]. unfold Kept. rewrite bytes_app. split; [rewrite len_app; pose proof (len_nonneg (bytes_of [x])); lia|].
  intros o p. rewrite placed_app. intros [Hin|Hin]%elem_of_app Ho; [by apply (Hk o)|].
  apply placed_bounds in Hin as [? _]. lia.
Qed.

Lemma logged_append acc old lay d conf x :
  Logged acc old lay (d, conf) → dk_unlinked d = None → len (bytes_of (lay ++ [x])) < 2 ^ 63 →
  match x with Rec p => fits p | Torn _ => True end →
  Logged (match x with Rec p => acc ++ [p] | Torn _ => acc end) old (lay ++ [x])
    (Disk.set_contents (dk_log d ++ piece_bytes crc32 x) d, conf).
Proof.
  intros [] Hu Hl Hx. simpl in *. unfold Disk.set_contents. rewrite Hu.
  assert ((placed 0 (lay ++ [x])).*2 =
    (placed 0 lay).*2 ++ match x with Rec p => [p] | Torn _ => [] end) as Hp.
  { rewrite placed_app, fmap_app. by destruct x. }
  constructor; simpl; rewrite ?Hp; try done.
  - rewrite app_assoc. destruct x; [by apply sublist_app|by rewrite app_nil_r].
  - rewrite bytes_app, lo_log0. f_equal. unfold bytes_of. simpl. by rewrite app_nil_r.
  - apply Forall_app. split; [done|]. by destruct x; repeat constructor.
  - by apply kept_append.
Qed.

Lemma enqueue_safe acc p s w :
  Running acc s w → fits p →
  safe (stepping (world_step True any_answer) (Stopped acc))
    (λ w x, Running (match x.1 with Ok _ => acc ++ [p] | Err _ => acc end) x.2 w) w
    (Shipper.on_spool (Spool.enqueue crc32 Critical p) s).
Proof.
  intros H Hp. pose proof (running_stopped _ _ _ H) as Hst. destruct H as (old & lay & HL & Hu & Hk).
  destruct w as [d conf]. simpl in Hu, Hk.
  eapply safe_impl; [apply stepping_monotone| |by apply on_spool_safe, enqueue_torn].
  intros [d' conf'] [r s'] H. simpl in H. destruct H as (-> & -> & b & -> & Hb & Hr). simpl.
  assert (∀ x, piece_bytes crc32 x = b → len (bytes_of (lay ++ [x])) < 2 ^ 63) as Hsize.
  { intros x Hx. rewrite bytes_app. replace (bytes_of [x]) with b.
    - pose proof (lo_log _ _ _ _ HL) as Hlog. simpl in Hlog. rewrite <- Hlog. destruct Hb as [->|Hb]; [|done].
      rewrite app_nil_r, Hlog. apply HL.
    - unfold bytes_of. simpl. by rewrite app_nil_r. }
  assert (∀ q, dk_unlinked (Disk.set_contents q d) = None) as Hu' by (intros q; unfold Disk.set_contents; by rewrite Hu).
  destruct Hr as [[-> ->]|[[e ->] _]].
  - exists old, (lay ++ [Rec p]). split; [|split; [apply Hu'|by apply kept_append]].
    apply (logged_append _ _ _ _ _ (Rec p) HL); auto.
  - exists old, (lay ++ [Torn b]). split; [|split; [apply Hu'|by apply kept_append]].
    apply (logged_append _ _ _ _ _ (Torn b) HL); auto.
Qed.

Lemma open_safe acc max w :
  Stopped acc w →
  safe (stepping (world_step True any_answer) (Stopped acc))
    (λ w x, match x.1 with Ok _ => Running acc x.2 w | Err _ => Stopped acc w end) w
    (Shipper.on_spool restart {| ls_ack_offset := 0; ls_max_bytes := max |}).
Proof.
  intros Hst. pose proof Hst as (old & lay & HL). destruct w as [d conf].
  assert (Logged acc old lay (Disk.reopen d, conf)) as HL' by (destruct HL; by constructor).
  eapply safe_impl; [apply stepping_monotone| |apply (on_spool_safe _ _ _ _ _ _ _ (λ r s' d',
    match r with Ok _ => d' = Disk.reopen d ∧ (ls_ack_offset s' = 0 ∨ ls_ack_offset s' = watermark d)
    | Err _ => d' = d end))].
  - intros [d' conf'] [[[]|e] s'] [Hc H]; simpl in *; subst conf'; [|by subst].
    destruct H as [-> Ha]. exists old, lay. split; [done|]. split; [done|].
    pose proof (lo_mark _ _ _ _ HL) as Hm. simpl in Hm. destruct Ha as [->| ->]; [|done].
    eapply kept_earlier; [done|]. pose proof (proj1 Hm). lia.
  - unfold spec, restart, Spool.open. simpl. split; [done|].
    intros r d1 [[= -> ->]|[_ [[e ->] ->]]]; simpl; [|done].
    split; [by exists old, lay|]. intros t d2 [[= -> ->]|[_ [-> ->]]]; simpl; auto.
Qed.

(** ** Compaction

    A compaction replaces the log by what is after the lane's offset. *)

Definition compacted (s : LaneState) (d : Disk) : list byte := drop (Z.to_nat (ls_ack_offset s)) (dk_log d).

(** How a compaction can end: nothing has changed, it is done, or it has failed
    when it had replaced the log. *)
Definition compaction {A} (s : LaneState) (d : Disk) (r : Result A SpoolError) (s' : LaneState) (d' : Disk) : Prop :=
  s' = s ∧ dk_log d' = dk_log d ∧ dk_unlinked d' = None ∧ dk_state d' = dk_state d ∨
  s' = set_ack 0 s ∧ dk_log d' = compacted s d ∧ dk_unlinked d' = None ∧ watermark d' = 0 ∨
  (∃ e, r = Err e) ∧ dk_log d' ≠ dk_log d.

Lemma compact_torn (I : Disk → Prop) k s d :
  dk_unlinked d = None → 0 <= ls_ack_offset s <= len (dk_log d) →
  (∀ d', dk_log d' = dk_log d → dk_state d' = dk_state d → I d') → (∀ d', dk_log d' ≠ dk_log d → I d') →
  spec True I (Spool.compact_if_reclaimable k) s d (compaction s d).
Proof.
  intros Hu Ha Hsame Hother. assert (I d) as HI by auto.
  assert (Disk.contents d = dk_log d) as Hc by (unfold Disk.contents; by rewrite Hu).
  assert (∀ A (r : Result A SpoolError), compaction s d r s d) as Hnone by (intros; left; done).
  unfold Spool.compact_if_reclaimable. eapply reads_then; [apply reads_self| |intros _ e; by apply Hnone].
  destruct (_ || _); [by unfold spec; simpl|]. apply spec_then.
  eapply (spec_impl _ _ _ _ _ (compaction s d)).
  { intros [[]|e] s' d' H; [|by destruct H as [H|[H|[_ H]]]; [left|right; left|right; right; eauto]].
    unfold spec. simpl. destruct H as [H|[H|[[e [=]] _]]]; [by left|by right; left]. }
  unfold Spool.compact. eapply reads_then; [apply reads_self| |intros _ e; by apply Hnone].
  destruct (Z.eqb_spec (ls_ack_offset s) 0) as [H0|H0]; [by unfold spec; simpl|].
  eapply reads_then; [by apply file_len_reads| |intros _ e; by apply Hnone].
  eapply reads_then; [apply log_read_reads; [done|]; lia| |intros _ e; by apply Hnone]. rewrite Hc.
  replace (Disk.slice _ _ _) with (compacted s d); last first.
  { unfold compacted, Disk.slice. symmetry. apply take_ge. rewrite length_drop. unfold len. lia. }
  assert (compacted s d ≠ dk_log d) as Hne.
  { intros Heq%(f_equal length). unfold compacted in Heq. rewrite length_drop in Heq. unfold len in Ha. lia. }
  apply spec_then, spec_io; [done|]. intros r d1 [[= -> ->]|[_ [[e ->] [t ->]]]]; simpl; [|by left].
  apply spec_then, spec_io; [by apply Hsame|]. intros r d2 [[= -> ->]|[_ [[e ->] ->]]]; simpl; [|by left].
  apply spec_then, spec_io; [by apply Hother|]. intros r d3 [[= -> ->]|[_ [[e ->] ->]]]; simpl; [|right; right; eauto].
  apply spec_then. unfold spec at 1. simpl. apply spec_then. unfold spec at 1. simpl.
  apply spec_io; [by apply Hother|].
  intros r d4 [[= -> ->]|[_ [[e ->] [->|(written & rest & _ & ->)]]]]; simpl; [|right; right; eauto..].
  right; left. split_and!; try done.
Qed.

Lemma logged_compacted acc old lay s d d' conf :
  Logged acc old lay (d, conf) → Kept conf lay (ls_ack_offset s) →
  dk_log d' = compacted s d → watermark d' = 0 → ∃ old' lay', Logged acc old' lay' (d', conf).
Proof.
  intros [] [Hb Hk] Hd Hm. simpl in *.
  destruct (cut_at crc32 (ls_ack_offset s) 0 lay) as (before & after & lay' & Hp & Hlt & _ & Hdrop & Hl); [lia|].
  rewrite (placed_shift crc32 0) in Hl. apply (f_equal (fmap snd)) in Hl. rewrite <- list_fmap_compose in Hl.
  assert ((placed 0 lay').*2 = after.*2) as Hafter by (rewrite <- Hl; by apply list_fmap_ext).
  rewrite Z.sub_0_r in Hdrop. rewrite Hp, fmap_app in lo_records0, lo_fits0.
  exists (old ++ before.*2), lay'. constructor; simpl; rewrite ?Hafter.
  - by rewrite <- app_assoc.
  - apply Forall_app. split; [done|]. apply Forall_fmap, list.Forall_forall. intros [o p] Hin.
    apply (Hk o); [rewrite Hp; apply elem_of_app; by left|]. exact (proj1 (list.Forall_forall _ _) Hlt _ Hin).
  - rewrite Hd. unfold compacted. by rewrite lo_log0.
  - by apply Forall_app in lo_fits0 as [_ ?].
  - rewrite <- Hdrop. unfold len in *. rewrite length_drop. lia.
  - rewrite Hm. split; [pose proof (len_nonneg (bytes_of lay')); lia|]. intros o p Hin.
    apply placed_bounds in Hin as [? _]. lia.
Qed.

Lemma compact_safe acc k s w :
  Running acc s w →
  safe (stepping (world_step True any_answer) (λ w', dk_log w'.1 = dk_log w.1 → Stopped acc w'))
    (λ w' x, (∃ b, x.1 = Ok b) ∨ dk_log w'.1 = dk_log w.1 → Running acc x.2 w') w
    (Shipper.on_spool (Spool.compact_if_reclaimable k) s).
Proof.
  intros (old & lay & HL & Hu & Hk). destruct w as [d conf]. simpl in Hu, Hk.
  assert (∀ d', dk_log d' = dk_log d → dk_state d' = dk_state d → Logged acc old lay (d', conf)) as Hsame.
  { intros d' Hd Hs. destruct HL. constructor; simpl in *; try done; [by rewrite Hd|].
    unfold watermark. by rewrite Hs. }
  eapply safe_impl; [apply stepping_monotone| |apply on_spool_safe, compact_torn]; try done.
  - intros [d' conf'] [r s'] [Hc H] Hok. simpl in *. subst conf'.
    destruct H as [(-> & Hd & Hu' & Hs)|[(-> & Hd & Hu' & Hm)|[[e ->] Hd]]].
    + exists old, lay. auto.
    + destruct (logged_compacted _ _ _ _ _ _ _ HL Hk Hd Hm) as (old' & lay' & HL'). exists old', lay'.
      split; [done|]. split; [done|]. simpl. rewrite <- Hm. apply HL'.
    + by destruct Hok as [[b [=]]|].
  - rewrite (lo_log _ _ _ _ HL : dk_log d = _). apply Hk.
  - intros d' Hd Hs _. exists old, lay. auto.
Qed.

(** ** The life of a sensor *)

(** [life max acc st w]: the lane was opened with the budget [max]; [acc] are
    the records whose enqueue was answered [Ok]; [st] is the lane when the
    process is up.  Every call can fail, an append that fails or is cut short
    leaves any part of its bytes, and the process can stop at every call.  A
    compaction that has replaced the log completes; before that it too can fail
    or be stopped at every call. *)
Inductive life (max : Z) : list (list byte) → option LaneState → World → Prop :=
| LifeNew : life max [] None (Disk.empty, [])
| LifeOpen acc w x w' :
    life max acc None w →
    executes (world_step True any_answer)
      (Shipper.on_spool restart {| ls_ack_offset := 0; ls_max_bytes := max |}) w x w' →
    life max acc (match x.1 with Ok _ => Some x.2 | Err _ => None end) w'
| LifeEnqueue acc s w p x w' :
    life max acc (Some s) w → fits p →
    executes (world_step True any_answer) (Shipper.on_spool (Spool.enqueue crc32 Critical p) s) w x w' →
    life max (match x.1 with Ok _ => acc ++ [p] | Err _ => acc end) (Some x.2) w'
| LifeShip acc s w turns x w' :
    life max acc (Some s) w → separate (dk_log w.1) →
    executes (world_step True any_answer) (Shipper.ship_lane crc32 from_slice turns 0 s) w x w' →
    life max acc (Some x.2) w'
| LifeCompact acc s w k x w' :
    life max acc (Some s) w →
    executes (world_step True any_answer) (Shipper.on_spool (Spool.compact_if_reclaimable k) s) w x w' →
    (∃ b, x.1 = Ok b) ∨ dk_log w'.1 = dk_log w.1 →
    life max acc (Some x.2) w'
| LifeStopEnqueue acc s w p w' :
    life max acc (Some s) w → fits p →
    stops (world_step True any_answer) (Shipper.on_spool (Spool.enqueue crc32 Critical p) s) w w' →
    life max acc None w'
| LifeStopShip acc s w turns w' :
    life max acc (Some s) w → separate (dk_log w.1) →
    stops (world_step True any_answer) (Shipper.ship_lane crc32 from_slice turns 0 s) w w' →
    life max acc None w'
| LifeStopCompact acc s w k w' :
    life max acc (Some s) w →
    stops (world_step True any_answer) (Shipper.on_spool (Spool.compact_if_reclaimable k) s) w w' →
    dk_log w'.1 = dk_log w.1 →
    life max acc None w'.

Lemma life_accounted max acc st w :
  life max acc st w → match st with Some s => Running acc s w | None => Stopped acc w end.
Proof.
  induction 1 as [|acc w [[[]|e] s] w' _ IH Hx|acc s w p x w' _ IH Hp Hx|acc s w turns x w' _ IH Hsep Hx
                 |acc s w k x w' _ IH Hx Hok|acc s w p w' _ IH Hp Hx|acc s w turns w' _ IH Hsep Hx
                 |acc s w k w' _ IH Hx Hd]; simpl in *.
  - exists [], []. constructor; simpl; try done. split; [done|]. by intros o p ?%elem_of_nil.
  - exact (stepping_executes _ _ _ _ _ _ _ (open_safe acc max w IH) Hx).
  - exact (stepping_executes _ _ _ _ _ _ _ (open_safe acc max w IH) Hx).
  - exact (stepping_executes _ _ _ _ _ _ _ (enqueue_safe acc p s w IH Hp) Hx).
  - exact (stepping_executes _ _ _ _ _ _ _ (ship_lane_safe acc turns 0 s w IH Hsep) Hx).
  - exact (stepping_executes _ _ _ _ _ _ _ (compact_safe acc k s w IH) Hx Hok).
  - refine (stepping_stops _ _ _ _ _ _ (enqueue_safe acc p s w IH Hp) _ Hx).
    intros w1 [[[]|e] s1] H1; [|by eapply running_stopped]. apply running_stopped in H1.
    destruct H1 as (old & lay & []). exists old, lay. constructor; try done.
    etrans; [|exact lo_records0]. by apply sublist_inserts_r.
  - refine (stepping_stops _ _ _ _ _ _ (ship_lane_safe acc turns 0 s w IH Hsep) _ Hx).
    intros w1 x. apply running_stopped.
  - refine (stepping_stops _ _ _ _ _ _ (compact_safe acc k s w IH) _ Hx Hd).
    intros w1 x Hr Hd1. eapply running_stopped. auto.
Qed.

(** What the next start of the sensor finds on the disk: whole records of the
    log, one after the other behind the watermark *)
Definition unread (d : Disk) (q : list (list byte)) : Prop :=
  ∃ l, q = l.*2 ∧ frames_from crc32 (dk_log d) (watermark d) l.

Lemma stopped_unread acc w :
  Stopped acc w → ∃ done q, acc `sublist_of` done ++ q ∧ Forall (confirmed w.2) done ∧ unread w.1 q.
Proof.
  intros (old & lay & [Hrec Hold Hlog Hfits _ [Hb Hk]]).
  destruct (cut_at crc32 (watermark w.1) 0 lay) as (before & after & lay' & Hp & Hlt & _ & Hdrop & Hl); [lia|].
  rewrite Z.sub_0_r in Hdrop. rewrite Hp, fmap_app in Hrec, Hfits. apply Forall_app in Hfits as [_ Hfits].
  exists (old ++ before.*2), after.*2. split; [by rewrite <- app_assoc|]. split.
  - apply Forall_app. split; [done|]. apply Forall_fmap, list.Forall_forall. intros [o p] Hin.
    apply (Hk o); [rewrite Hp; apply elem_of_app; by left|]. exact (proj1 (list.Forall_forall _ _) Hlt _ Hin).
  - exists after. split; [done|]. set (n := Z.to_nat (watermark w.1)) in *.
    assert (watermark w.1 = len (take n (bytes_of lay))) as Hn.
    { unfold n, len in *. rewrite length_take. lia. }
    rewrite Hlog, <- (take_drop n (bytes_of lay)), Hdrop. rewrite Hn in Hl |- *. rewrite <- Hl in Hfits |- *.
    by apply placed_from.
Qed.

(** C30: no critical event is lost between the sensor and the gateway when calls
    fail and the process stops.  At every point of the life of a sensor, the
    records whose enqueue was answered [Ok] are, in their order, among records
    the gateway has confirmed followed by whole records that can be read in the
    log behind the watermark, where the next start begins.  Every disk call may
    fail; an append that fails or is cut short may leave any part of its record
    in the log, a write of the watermark any part of its text; the gateway may
    be unreachable; and the process may stop at any call.  Three things are
    excluded: a compaction that fails or is stopped after its rename has
    replaced the log (which does lose records, see
    [stopped_compaction_loses_record] and [failed_reopen_loses_records]), a
    payload of 4 GiB or more, whose length its header cannot hold, and shipping
    from a log in which two frames with matching checksums overlap, as a record
    with a frame inside its payload would give ([separate]).  The disk keeps
    what a call has written: the spool never calls [fsync], and a loss of power
    is not modelled.  Kept is not shipped: torn bytes over more than the scan
    window ([Spool.RESYNC_SCAN_LIMIT_BYTES]) hold up the records behind them. *)
Theorem accepted_events_are_shipped_or_kept max acc st w :
  life max acc st w →
  ∃ done q, acc `sublist_of` done ++ q ∧ Forall (confirmed w.2) done ∧ unread w.1 q.
Proof.
  intros H%life_accounted. apply stopped_unread. destruct st; [by eapply running_stopped|done].
Qed.

(** ** A gateway that answers *)

(** The disk does what it is asked, and the gateway answers each event with
    [reply]. *)
Definition serving (reply : RuntimeEventPayload DateTime → Result (HttpResponse IngestResponse) string) :
    handler (Shipper.ShipE (DateTime := DateTime)) World := λ T e w,
  match e in Shipper.ShipE T return T * World with
  | Shipper.OnDisk e => let '(r, d) := Disk.handle _ e w.1 in (r, (d, w.2))
  | Shipper.PostRuntimeEvent req => (reply req, (w.1, if confirms (reply req) then w.2 ++ [req] else w.2))
  | Shipper.SleepMillis _ => (tt, w)
  end.

Abbreviation confirming := (λ a : Result (HttpResponse IngestResponse) string, confirms a = true).

Lemma serving_steps F (G : Result (HttpResponse IngestResponse) string → Prop) reply T (e : Shipper.ShipE T) w :
  (∀ req, G (reply req)) →
  world_step F G T e (serving reply T e w).1 w (serving reply T e w).2.
Proof.
  intros Hr. destruct e as [T e|req|n]; simpl; [|done|done].
  pose proof (handle_steps F T e w.1) as Hs. by destruct (Disk.handle T e w.1).
Qed.

Lemma ship_lane_drains turns shipped s d conf max q size es :
  Queued crc32 max q size s d → Forall2 (λ p e, from_slice p = Ok e) q es → (length q < turns)%nat →
  safe (stepping (world_step False confirming) (λ _, True))
    (λ w x, x.1 = Ok (shipped + Z.of_nat (length q)) ∧ Queued crc32 max [] size x.2 w.1 ∧ w.2 = conf ++ es)
    (d, conf) (Shipper.ship_lane crc32 from_slice turns shipped s).
Proof.
  revert turns shipped s d conf es. induction q as [|p q IH]; intros [|turns] shipped s d conf es HQ Hes Ht;
    [simpl in Ht; lia| |simpl in Ht; lia|]; cbn [Shipper.ship_lane];
    destruct HQ as (hist & n & H & Hs & Hmax & Hq & Hl);
    (eapply safe_mbind; [apply stepping_monotone|
      apply on_spool_safe, (read_next_reads crc32 crc32_u32 _ _ hist n); done|]);
    intros [d1 conf1] [r s1] (Hc & Hs1 & Hd1 & [Hr|[[] _]]); simpl in Hc, Hs1, Hd1, Hr; subst d1 conf1 s1 r;
    unfold oldest; inv Hes.
  - assert (hist !! n = None) as ->.
    { apply lookup_ge_None. apply (f_equal length) in Hq. rewrite length_drop in Hq. simpl in Hq. lia. }
    simpl. rewrite Z.add_0_r, app_nil_r. split; [done|]. split; [|done]. by exists hist, n.
  - rename select (from_slice p = Ok _) into Hp. rename select (Forall2 _ q _) into Hes.
    assert (hist !! n = Some p) as Hn by (by rewrite <- (Nat.add_0_r n), <- lookup_drop, <- Hq).
    rewrite Hn. cbn [fmap option_fmap option_map sr_payload]. rewrite Hp.
    eapply safe_mbind; [apply stepping_monotone|by apply attempts_safe|].
    intros w2 sent [[-> ->]|(_ & _ & a & Ha & Hb)]; [|congruence].
    eapply safe_mbind; [apply stepping_monotone|apply on_spool_safe, (ack_spec crc32 _ _ hist n); done|].
    intros [d3 conf3] [r s3] (Hc & Hs3 & Hh & Hr). simpl in Hc, Hs3, Hh, Hr. subst conf3.
    destruct Hr as [[-> Hsync]|[[] _]].
    eapply safe_impl; [apply stepping_monotone| |apply (IH turns (shipped + 1) s3 d3 (conf ++ [y]) l')]; try done.
    + intros w x (Hx & HQ & Hw). split; [rewrite Hx; f_equal; simpl; lia|]. split; [done|].
      by rewrite Hw, <- app_assoc.
    + exists hist, (S n). split_and!; try done; [by subst s3|].
      rewrite (drop_S _ _ _ Hn) in Hq. by simplify_eq.
    + simpl in Ht. lia.
Qed.

(** A gateway that answers gets everything.  When the gateway confirms each
    event and the disk does what it is asked, one pass of the shipper over a
    lane sends all queued events, in order and each once, and leaves the lane
    empty; the pass needs no more turns than there are records, and one to see
    that there are no more. *)
Theorem shipper_drains_lane reply turns s d conf max q size es :
  (∀ req, confirms (reply req) = true) →
  Queued crc32 max q size s d → Forall2 (λ p e, from_slice p = Ok e) q es → (length q < turns)%nat →
  ∃ s' d' t, run (serving reply) (Shipper.ship_lane crc32 from_slice turns 0 s) (d, conf) =
               (Ok (Z.of_nat (length q)), s', (d', conf ++ es), t) ∧
             Queued crc32 max [] size s' d'.
Proof.
  intros Hr HQ Hes Ht.
  pose proof (run_executes _ (serving reply) (Shipper.ship_lane crc32 from_slice turns 0 s) (d, conf)
    (λ T e w, serving_steps False confirming reply T e w Hr)) as Hx.
  eapply stepping_executes in Hx; [|by apply (ship_lane_drains turns 0 s d conf max q size es)].
  destruct (run _ _ _) as [[[r s'] [d' conf']] t]. simpl in Hx. destruct Hx as (-> & HQ' & ->).
  by exists s', d', t.
Qed.

(** A record that is not an event stops its lane: the shipper fails on it before
    it is acknowledged, so every later pass fails on it again. *)
Lemma unparseable_record_blocks_lane reply turns s d conf max p q size e :
  Queued crc32 max (p :: q) size s d → from_slice p = Err e →
  ∃ t, run (serving reply) (Shipper.ship_lane crc32 from_slice (S turns) 0 s) (d, conf) =
         (Err (InvalidPayload e), s, (d, conf), t).
Proof.
  intros (hist & n & H & Hs & Hmax & Hq & Hl) Hp.
  pose proof (run_executes _ (serving reply) (Shipper.ship_lane crc32 from_slice (S turns) 0 s) (d, conf)
    (λ T e w, serving_steps False any_answer reply T e w (λ _, I))) as Hx.
  assert (hist !! n = Some p) as Hn by (by rewrite <- (Nat.add_0_r n), <- lookup_drop, <- Hq).
  assert (safe (stepping (world_step False any_answer) (λ _, True))
    (λ w x, x = (Err (InvalidPayload e), s) ∧ w = (d, conf)) (d, conf)
    (Shipper.ship_lane crc32 from_slice (S turns) 0 s)) as Hsafe.
  { cbn [Shipper.ship_lane]. eapply safe_mbind; [apply stepping_monotone|
      apply on_spool_safe, (read_next_reads crc32 crc32_u32 _ _ hist n); done|].
    intros [d1 conf1] [r s1] (Hc & Hs1 & Hd1 & [Hr|[[] _]]); simpl in Hc, Hs1, Hd1, Hr; subst d1 conf1 s1 r.
    unfold oldest. rewrite Hn. simpl. by rewrite Hp. }
  eapply stepping_executes in Hx; [|exact Hsafe]. destruct (run _ _ _) as [[x w] t]. simpl in Hx.
  destruct Hx as [-> ->]. by exists t.
Qed.
End Sensor.
