(* ===== verification/SpoolScenarios.v ===== *)
(** * The spool at work

    Concrete runs of the lane and the shipper: the witnesses of the theorems on
    them, and the runs in which a record is lost or a lane stops. *)

From S2P Require Import Prelude RustString Prog Slab Spool SpoolSafety Shipper.

Local Open Scope Z_scope.

(** A checksum in the place of CRC-32, with its value on no bytes *)
Definition sum32 (p : list byte) : Z := foldr (λ b n, value_of_byte b + n) 0 p `mod` 2 ^ 32.

Lemma sum32_u32 p : 0 <= sum32 p < 2 ^ 32.
Proof. apply Z.mod_pos_bound. lia. Qed.

Definition text (s : string) : list byte := byte_of_ascii <$> String.list_ascii_of_string s.

Definition event_of (p : list byte) : RuntimeEventPayload Z := {|
  re_event_id := String.string_of_list_ascii (ascii_of_byte <$> p); re_event_type := "tool_call";
  re_severity := None; re_agent_id := None; re_run_id := None; re_sandbox_id := None; re_trace_id := None;
  re_parent_event_id := None; re_source_component := "sensor"; re_source_trust := None; re_decision := None;
  re_reason := None; re_action_hash := None; re_prompt_hash := None; re_request_hash := None;
  re_response_hash := None; re_receipt_id := None; re_receipt_hash := None; re_prev_receipt_hash := None;
  re_canonical_version := None; re_redaction_status := None; re_observed_at := None |}.

(** A record that is empty is no JSON. *)
Definition parse_event (p : list byte) : Result (RuntimeEventPayload Z) string :=
  if bool_decide (p = []) then Err "EOF while parsing a value" else Ok (event_of p).

(** ** The queue *)

Definition sample_ops : list Op :=
  [OpEnqueue (text "one"); OpEnqueue (text "two"); OpReadNext; OpTake; OpEnqueue (text "three");
   OpRestart; OpCompactIf 4; OpEnqueue (text "four"); OpTake; OpRestart; OpTake; OpTake].

Example normal_lane_drops_the_oldest :
  (queue_session sum32 Normal 30 sample_ops []).1 =
  [Ok None; Ok None; Ok (Some (text "one")); Ok (Some (text "one")); Ok None; Ok None; Ok None; Ok None;
   Ok (Some (text "three")); Ok None; Ok (Some (text "four")); Ok None].
Proof. vm_compute. reflexivity. Qed.

Lemma spool_refines_queue_witness :
  Forall op_fits sample_ops ∧ total sum32 sample_ops < 2 ^ 63 ∧
  ∃ s w t, run Disk.handle (lane_session sum32 Critical 30 sample_ops) Disk.empty =
             (Ok ((queue_session sum32 Critical 30 sample_ops []).1, s), w, t) ∧
           Queued sum32 30 (queue_session sum32 Critical 30 sample_ops []).2 (total sum32 sample_ops) s w.
Proof.
  assert (Forall op_fits sample_ops) as Hf by (repeat constructor).
  assert (total sum32 sample_ops < 2 ^ 63) as Ht by (vm_compute; reflexivity).
  split; [exact Hf|]. split; [exact Ht|].
  exact (spool_refines_queue sum32 sum32_u32 Critical 30 sample_ops Hf Ht).
Defined.

(** ** The life of a sensor *)

Definition gateway_down : RuntimeEventPayload Z → Result (HttpResponse IngestResponse) string :=
  λ _, Err "connection refused".
Definition gateway_up : RuntimeEventPayload Z → Result (HttpResponse IngestResponse) string :=
  λ _, Ok {| hr_status := 200; hr_text := Ok ""; hr_json := Ok {| ingested := true |} |}.

Definition perform_on {A} (reply : RuntimeEventPayload Z → Result (HttpResponse IngestResponse) string)
    (p : prog (Shipper.ShipE (DateTime := Z)) A) (w : World (DateTime := Z)) : A * World :=
  (run (serving reply) p w).1.

(** A disk that is full in the middle of an append: [n] bytes are written. *)
Definition tearing (n : nat) : handler DiskE Disk := λ T e w,
  match e in DiskE T return T * Disk with
  | LogAppend data =>
      if len (Disk.contents w ++ data) <? 2 ^ 63
      then (Err "no space left on device", Disk.set_contents (Disk.contents w ++ take n data) w)
      else Disk.answer (LogAppend data) w
  | e => Disk.handle _ e w
  end.

Definition serving_torn (n : nat) : handler (Shipper.ShipE (DateTime := Z)) (World (DateTime := Z)) := λ T e w,
  match e in Shipper.ShipE T return T * World with
  | Shipper.OnDisk e => let '(r, d) := tearing n _ e w.1 in (r, (d, w.2))
  | e => serving gateway_down _ e w
  end.

Lemma tearing_steps n T (e : DiskE T) d : Disk.step True T e (tearing n T e d).1 d (tearing n T e d).2.
Proof.
  destruct e; try exact (handle_steps True _ _ d). simpl. destruct (Z.ltb_spec (len (Disk.contents d ++ data)) (2 ^ 63)).
  - right. split; [done|]. split; [by eexists|]. exists n. split; [done|].
    unfold len in *. rewrite !length_app in *. rewrite length_take. lia.
  - left. unfold Disk.answer. by rewrite (proj2 (Z.ltb_ge _ _)).
Qed.

Lemma serving_torn_steps n T (e : Shipper.ShipE T) w :
  world_step True (λ _, True) T e (serving_torn n T e w).1 w (serving_torn n T e w).2.
Proof.
  destruct e as [T e|req|k]; simpl; [|done|done].
  pose proof (tearing_steps n T e w.1) as Hs. by destruct (tearing n T e w.1).
Qed.

(** In a short log [separate] can be checked. *)
Definition separate_bool (log : list byte) : bool :=
  let at_ i := frame_at sum32 log (Z.of_nat i) in
  let all := List.seq 0 (length log) in
  forallb (λ i, forallb (λ j,
    match at_ i, at_ j with
    | Some (_, e), Some _ => (Z.of_nat j <=? Z.of_nat i) || (e <=? Z.of_nat j)
    | _, _ => true
    end) all) all.

Lemma separate_checked log : separate_bool log = true → separate sum32 log.
Proof.
  intros Hb o p e o' p' e' Ho Hf Hf'.
  pose proof (frame_at_inside sum32 _ _ _ _ (proj1 Ho) Hf) as H1.
  assert (0 <= o') as Ho' by lia. pose proof (frame_at_inside sum32 _ _ _ _ Ho' Hf') as H2.
  unfold Spool.HEADER_LEN, len in *.
  unfold separate_bool in Hb. rewrite List.forallb_forall in Hb.
  specialize (Hb (Z.to_nat o)). rewrite List.forallb_forall in Hb.
  assert (∀ n, 0 <= n < Z.of_nat (length log) → List.In (Z.to_nat n) (List.seq 0 (length log))) as Hin
    by (intros; apply List.in_seq; lia).
  specialize (Hb (Hin o ltac:(lia)) (Z.to_nat o') (Hin o' ltac:(lia))).
  rewrite !Z2Nat.id in Hb by lia. rewrite Hf, Hf' in Hb.
  apply orb_true_iff in Hb as [Hb%Z.leb_le|Hb%Z.leb_le]; lia.
Qed.

Definition closed : LaneState := {| ls_ack_offset := 0; ls_max_bytes := 100 |}.
Definition opened := perform_on gateway_down (Shipper.on_spool restart closed) (Disk.empty, []).
Definition with_one := perform_on gateway_down
  (Shipper.on_spool (Spool.enqueue sum32 Critical (text "one")) opened.1.2) opened.2.
Definition with_two := perform_on gateway_down
  (Shipper.on_spool (Spool.enqueue sum32 Critical (text "two")) with_one.1.2) with_one.2.

(** After the first record the disk is full, and nine bytes of an append stay in
    the log; then there is room again. *)
Definition with_tear := (run (serving_torn 9)
  (Shipper.on_spool (Spool.enqueue sum32 Critical (text "lost")) with_one.1.2) with_one.2).1.
Definition after_tear := perform_on gateway_down
  (Shipper.on_spool (Spool.enqueue sum32 Critical (text "two")) with_tear.1.2) with_tear.2.
Definition shipping := Shipper.ship_lane sum32 parse_event 1 0 after_tear.1.2.

(** The calls of the shipper up to the confirmation of the first event, and no
    further: the process stops before it can acknowledge it. *)
Fixpoint stop_after {E W A} (n : nat) (h : handler E W) (p : prog E A) (w : W) : W :=
  match n, p with
  | S n, Vis e k => let '(r, w) := h _ e w in stop_after n h (k r) w
  | _, _ => w
  end.

Lemma stop_after_stops {E W A} (step : ∀ T, E T → T → W → W → Prop) n (h : handler E W) (p : prog E A) w :
  (∀ T e w, step T e (h T e w).1 w (h T e w).2) → stops step p w (stop_after n h p w).
Proof.
  intros Hh. revert p w. induction n as [|n IH]; intros [x|T e k] w; simpl; auto.
  pose proof (Hh T e w) as He. destruct (h T e w) as [r w1]. right. exists r, w1. auto.
Qed.

Definition stopped : World := stop_after 4 (serving gateway_up) shipping after_tear.2.

Lemma stopped_life : life sum32 parse_event 100 [text "one"; text "two"] None stopped.
Proof.
  assert (∀ reply T (e : Shipper.ShipE (DateTime := Z) T) w, world_step True (λ _, True) T e (serving reply T e w).1 w
    (serving reply T e w).2) as Hs by (intros; by apply serving_steps).
  apply (LifeStopShip sum32 parse_event 100 _ after_tear.1.2 after_tear.2 1 stopped);
    [|by apply separate_checked; vm_compute|by apply stop_after_stops].
  apply (LifeEnqueue sum32 parse_event 100 [text "one"] with_tear.1.2 with_tear.2 (text "two") after_tear.1 after_tear.2);
    [|done|by apply run_executes].
  apply (LifeEnqueue sum32 parse_event 100 [text "one"] with_one.1.2 with_one.2 (text "lost") with_tear.1 with_tear.2);
    [|done|apply run_executes, serving_torn_steps].
  apply (LifeEnqueue sum32 parse_event 100 [] opened.1.2 opened.2 (text "one") with_one.1 with_one.2);
    [|done|by apply run_executes].
  apply (LifeOpen sum32 parse_event 100 [] (Disk.empty, []) opened.1 opened.2); [constructor|by apply run_executes].
Qed.

(** The torn bytes are in the log, and the next start reads over them. *)
Example torn_append_is_skipped :
  with_tear.1.1 = Err (SpoolIo "no space left on device") ∧ len (dk_log after_tear.2.1) = 31 ∧
  (perform_on gateway_up (Shipper.ship_lane sum32 parse_event 9 0 after_tear.1.2) after_tear.2).2.2 =
    [event_of (text "one"); event_of (text "two")].
Proof. vm_compute. done. Qed.

Lemma accepted_events_are_shipped_or_kept_witness :
  stopped.2 = [event_of (text "one")] ∧
  ∃ done q, [text "one"; text "two"] `sublist_of` done ++ q ∧
    Forall (confirmed parse_event stopped.2) done ∧ unread sum32 stopped.1 q.
Proof.
  split; [vm_compute; reflexivity|].
  exact (accepted_events_are_shipped_or_kept sum32 sum32_u32 parse_event 100 _ None stopped stopped_life).
Defined.

Lemma with_two_queued : Queued sum32 100 [text "one"; text "two"] 22 with_two.1.2 with_two.2.1.
Proof.
  exists [text "one"; text "two"], 0%nat. split; [|by vm_compute].
  constructor; [|done|simpl; lia|done]. constructor; [done|by repeat constructor|done|]. by exists 0%nat.
Qed.

Lemma shipper_drains_lane_witness :
  ∃ s' d' t, run (serving gateway_up) (Shipper.ship_lane sum32 parse_event 3 0 with_two.1.2) (with_two.2.1, []) =
               (Ok 2, s', (d', [event_of (text "one"); event_of (text "two")]), t) ∧
             Queued sum32 100 [] 22 s' d'.
Proof.
  apply (shipper_drains_lane sum32 sum32_u32 parse_event gateway_up 3 with_two.1.2 with_two.2.1 [] 100
    [text "one"; text "two"] 22 [event_of (text "one"); event_of (text "two")]);
    [done|exact with_two_queued|repeat constructor|simpl; lia].
Defined.

(** ** Where records are lost *)

(** Both records enqueued and the first one acknowledged *)
Definition acked_one := (run Disk.handle (perform sum32 Critical OpTake with_two.1.2) with_two.2.1).1.

Definition next_start (w : Disk) : Result (option (list byte)) SpoolError :=
  (run Disk.handle (x ← perform sum32 Critical OpRestart closed;
                    perform sum32 Critical OpReadNext x.2) w).1.1.1.

Example next_start_reads_two : next_start acked_one.2 = Ok (Some (text "two")).
Proof. vm_compute. reflexivity. Qed.

(** The compaction stops after its rename: the watermark is that of the old log,
    and the record that was never acknowledged is behind it. *)
Example stopped_compaction_loses_record :
  let w := stop_after 4 Disk.handle (Spool.compact acked_one.1.2) acked_one.2 in
  dk_log w = frames sum32 [text "two"] ∧ next_start w = Ok None.
Proof. vm_compute. done. Qed.

(** The log cannot be opened again after the rename: the compaction fails, the
    lane goes on with the file that was unlinked, and what it accepts from then
    on is nowhere on disk. *)
Definition cannot_open : handler DiskE Disk := λ T e w,
  match e in DiskE T return T * Disk with
  | OpenLog => (Err "too many open files", w)
  | e => Disk.handle _ e w
  end.

Example failed_reopen_loses_records :
  let compacted := (run cannot_open (Spool.compact acked_one.1.2) acked_one.2).1 in
  let accepted := (run Disk.handle (Spool.enqueue sum32 Critical (text "three") compacted.1.2) compacted.2).1 in
  compacted.1.1 = Err (SpoolIo "too many open files") ∧ accepted.1.1 = Ok tt ∧
  dk_log accepted.2 = frames sum32 [text "two"].
Proof. vm_compute. done. Qed.

(** Eight zero bytes, as a file system may leave at the end of a log after a
    crash, are a frame with no payload, which is no event: the lane stops. *)
Example zeros_are_a_record :
  frame_at sum32 (frames sum32 [text "one"] ++ replicate 8 x00) 11 = Some ([], 19) ∧
  parse_event [] = Err "EOF while parsing a value".
Proof. vm_compute. done. Qed.
