(* ===== verification/RunStore.v ===== *)
(** * Agent runs and control commands in storage

    Models [src/lib/storage/src/db/agent_runs.rs], [control_commands.rs] and the
    insert of [runtime_events.rs]: each SQL statement as the function on the table's rows it denotes, with the
    tables as in [Bans.v].  The primary key of a run is its [id] and
    [(tenant_id, run_key)] is unique; the primary key of a command is its
    [command_id] and [(tenant_id, nonce)] is unique. *)

From S2P Require Import Prelude RustString Models Bans EgressApi.

Record AgentRunRecord := {
  arn_id : string;
  arn_tenant_id : string;
  arn_agent_id : option string;
  arn_run_key : string;
  arn_source_component : string;
  arn_mode : string;
  arn_status : string;
  arn_started_at : DateTime;
  arn_finished_at : option DateTime;
  arn_root_trace_id : option string;
  arn_root_trust_level : option string;
  arn_policy_bundle_id : option string;
  arn_claimed_by : option string;
  arn_claimed_at : option DateTime;
  arn_last_heartbeat_at : option DateTime;
  arn_image_ref : option string;
  arn_image_digest : option string;
  arn_command_json : option string;
  arn_working_dir : option string;
  arn_resource_limits_json : option string;
  arn_network_spec_json : option string;
  arn_tooling_spec_json : option string;
  arn_environment_json : option string;
  arn_workspace_spec_json : option string;
  arn_controlled_mounts_json : option string;
  arn_exit_code : option Z;
  arn_created_at : DateTime }.

Record ControlCommandRecord := {
  cc_command_id : string;
  cc_tenant_id : string;
  cc_target_type : string;
  cc_target_id : string;
  cc_action : string;
  cc_reason : option string;
  cc_issued_by : string;
  cc_issued_at : DateTime;
  cc_expires_at : DateTime;
  cc_nonce : string;
  cc_requires_ack : bool;
  cc_receipt_required : bool;
  cc_signature : string;
  cc_status : string;
  cc_created_at : DateTime }.

Definition SOC_MAX_LIMIT : nat := 200.

(** [COALESCE(?, column)] *)
Definition coalesce {A} (a b : option A) : option A := match a with Some x => Some x | None => b end.

Module Runs.

(** The columns a statement sets *)
Definition with_columns (status : string) (finished_at : option DateTime) (claimed_by : option string)
    (claimed_at last_heartbeat_at : option DateTime) (exit_code : option Z) (r : AgentRunRecord) :
    AgentRunRecord :=
  {| arn_id := arn_id r; arn_tenant_id := arn_tenant_id r; arn_agent_id := arn_agent_id r;
     arn_run_key := arn_run_key r; arn_source_component := arn_source_component r;
     arn_mode := arn_mode r; arn_status := status; arn_started_at := arn_started_at r;
     arn_finished_at := finished_at; arn_root_trace_id := arn_root_trace_id r;
     arn_root_trust_level := arn_root_trust_level r; arn_policy_bundle_id := arn_policy_bundle_id r;
     arn_claimed_by := claimed_by; arn_claimed_at := claimed_at;
     arn_last_heartbeat_at := last_heartbeat_at; arn_image_ref := arn_image_ref r;
     arn_image_digest := arn_image_digest r; arn_command_json := arn_command_json r;
     arn_working_dir := arn_working_dir r; arn_resource_limits_json := arn_resource_limits_json r;
     arn_network_spec_json := arn_network_spec_json r; arn_tooling_spec_json := arn_tooling_spec_json r;
     arn_environment_json := arn_environment_json r; arn_workspace_spec_json := arn_workspace_spec_json r;
     arn_controlled_mounts_json := arn_controlled_mounts_json r; arn_exit_code := exit_code;
     arn_created_at := arn_created_at r |}.

(** [None]: the primary key or the unique index is violated. *)
Definition insert_agent_run (rows : list AgentRunRecord) (record : AgentRunRecord) :
    option (list AgentRunRecord) :=
  if existsb (λ r, (arn_id r == arn_id record) ||
                   ((arn_tenant_id r == arn_tenant_id record) && (arn_run_key r == arn_run_key record))) rows
  then None else Some (rows ++ [record]).

(** [tenant_id = ? AND id = ?] *)
Definition is_run (tenant_id run_id : string) (r : AgentRunRecord) : bool :=
  (arn_tenant_id r == tenant_id) && (arn_id r == run_id).

Definition get_agent_run (rows : list AgentRunRecord) (tenant_id run_id : string) : option AgentRunRecord :=
  head (filter (λ r, is_run tenant_id run_id r = true) rows).

(** An [UPDATE], with [rows_affected() == 1] *)
Definition update_one (sel : AgentRunRecord → bool) (set_ : AgentRunRecord → AgentRunRecord)
    (rows : list AgentRunRecord) : bool * list AgentRunRecord :=
  let '(n, rows') := update_rows sel set_ rows in ((n =? 1)%nat, rows').

Definition update_agent_run_status (rows : list AgentRunRecord) (tenant_id run_id status : string)
    (finished_at : option DateTime) : bool * list AgentRunRecord :=
  update_one (is_run tenant_id run_id)
    (λ r, with_columns status (coalesce finished_at (arn_finished_at r)) (arn_claimed_by r)
            (arn_claimed_at r) (arn_last_heartbeat_at r) (arn_exit_code r) r) rows.

(** [status = 'started' AND image_ref IS NOT NULL] *)
Definition claimable (r : AgentRunRecord) : bool :=
  (arn_status r == "started") && bool_decide (is_Some (arn_image_ref r)).

Definition claim_agent_run (rows : list AgentRunRecord) (tenant_id run_id runner_id : string)
    (now : DateTime) : bool * list AgentRunRecord :=
  update_one (λ r, is_run tenant_id run_id r && claimable r)
    (λ r, with_columns "claimed" (arn_finished_at r) (Some runner_id) (Some now)
            (arn_last_heartbeat_at r) (arn_exit_code r) r) rows.

(** [claimed_by = ?]: never true of [NULL] *)
Definition held_by (runner_id : string) (r : AgentRunRecord) : bool :=
  match arn_claimed_by r with Some x => x == runner_id | None => false end.

(** [status IN ('claimed', 'running')] *)
Definition leased (r : AgentRunRecord) : bool := (arn_status r == "claimed") || (arn_status r == "running").

Definition heartbeat_agent_run (rows : list AgentRunRecord) (tenant_id run_id runner_id : string)
    (now : DateTime) : bool * list AgentRunRecord :=
  update_one (λ r, is_run tenant_id run_id r && held_by runner_id r && leased r)
    (λ r, with_columns (arn_status r) (arn_finished_at r) (arn_claimed_by r) (arn_claimed_at r)
            (Some now) (arn_exit_code r) r) rows.

Definition update_claimed_agent_run_status (rows : list AgentRunRecord)
    (tenant_id run_id runner_id status : string) (finished_at : option DateTime) (exit_code : option Z) :
    bool * list AgentRunRecord :=
  update_one (λ r, is_run tenant_id run_id r && held_by runner_id r)
    (λ r, with_columns status (coalesce finished_at (arn_finished_at r)) (arn_claimed_by r)
            (arn_claimed_at r) (arn_last_heartbeat_at r) (coalesce exit_code (arn_exit_code r)) r) rows.

(** [COALESCE(last_heartbeat_at, claimed_at) < ?], which is not true of [NULL] *)
Definition stale (threshold : DateTime) (r : AgentRunRecord) : bool :=
  match coalesce (arn_last_heartbeat_at r) (arn_claimed_at r) with
  | Some t => (t <? threshold)%Z
  | None => false
  end.

Definition mark_stale_agent_runs_stalled (rows : list AgentRunRecord) (threshold : DateTime) :
    nat * list AgentRunRecord :=
  update_rows (λ r, leased r && stale threshold r)
    (λ r, with_columns "stalled" (arn_finished_at r) (arn_claimed_by r) (arn_claimed_at r)
            (arn_last_heartbeat_at r) (arn_exit_code r) r) rows.

(** [ACTIVE_RUN_STATUSES] *)
Definition active (r : AgentRunRecord) : bool :=
  existsb (String.eqb (arn_status r)) ["started"; "claimed"; "running"; "paused"; "stalled"].

(** [ORDER BY started_at ASC]; rows of the same time keep their order. *)
Fixpoint insert_by_start (r : AgentRunRecord) (l : list AgentRunRecord) : list AgentRunRecord :=
  match l with
  | [] => [r]
  | r' :: l' => if (arn_started_at r <=? arn_started_at r')%Z then r :: l else r' :: insert_by_start r l'
  end.

Definition list_active_agent_runs_for_agent (rows : list AgentRunRecord) (tenant_id agent_id : string) :
    list AgentRunRecord :=
  take SOC_MAX_LIMIT (foldr insert_by_start []
    (filter (λ r, (arn_tenant_id r == tenant_id) && bool_decide (arn_agent_id r = Some agent_id) && active r = true)
      rows)).
End Runs.

Module Commands.

(** [None]: the primary key or the unique index is violated. *)
Definition insert_control_command (rows : list ControlCommandRecord) (c : ControlCommandRecord) :
    option (list ControlCommandRecord) :=
  if existsb (λ r, (cc_command_id r == cc_command_id c) ||
                   ((cc_tenant_id r == cc_tenant_id c) && (cc_nonce r == cc_nonce c))) rows
  then None else Some (rows ++ [c]).

Definition is_command (tenant_id command_id : string) (c : ControlCommandRecord) : bool :=
  (cc_tenant_id c == tenant_id) && (cc_command_id c == command_id).

Definition get_control_command (rows : list ControlCommandRecord) (tenant_id command_id : string) :
    option ControlCommandRecord :=
  head (filter (λ r, is_command tenant_id command_id r = true) rows).

Definition with_status (status : string) (c : ControlCommandRecord) : ControlCommandRecord :=
  {| cc_command_id := cc_command_id c; cc_tenant_id := cc_tenant_id c;
     cc_target_type := cc_target_type c; cc_target_id := cc_target_id c; cc_action := cc_action c;
     cc_reason := cc_reason c; cc_issued_by := cc_issued_by c; cc_issued_at := cc_issued_at c;
     cc_expires_at := cc_expires_at c; cc_nonce := cc_nonce c; cc_requires_ack := cc_requires_ack c;
     cc_receipt_required := cc_receipt_required c; cc_signature := cc_signature c;
     cc_status := status; cc_created_at := cc_created_at c |}.

Definition update_control_command_status (rows : list ControlCommandRecord)
    (tenant_id command_id status : string) : bool * list ControlCommandRecord :=
  let '(n, rows') := update_rows (is_command tenant_id command_id) (with_status status) rows in
  ((n =? 1)%nat, rows').

(** [ORDER BY issued_at DESC, rowid DESC]: the rows are given in [rowid] order,
    so of two rows of one time the later one comes first. *)
Fixpoint insert_by_issue (c : ControlCommandRecord) (l : list ControlCommandRecord) :
    list ControlCommandRecord :=
  match l with
  | [] => [c]
  | c' :: l' => if (cc_issued_at c' <=? cc_issued_at c)%Z then c :: l else c' :: insert_by_issue c l'
  end.

Definition newest_first (rows : list ControlCommandRecord) : list ControlCommandRecord :=
  fold_left (λ l c, insert_by_issue c l) rows [].

Definition list_control_commands (rows : list ControlCommandRecord) (tenant_id : string)
    (limit offset : nat) : list ControlCommandRecord :=
  take (Nat.min SOC_MAX_LIMIT (Nat.max 1 limit))
    (drop offset (newest_first (filter (λ c, (cc_tenant_id c == tenant_id) = true) rows))).
End Commands.

(** [insert_agent_run_with_start_command]: both rows or none. *)
Definition insert_agent_run_with_start_command (runs : list AgentRunRecord)
    (commands : list ControlCommandRecord) (run : AgentRunRecord)
    (start_command : option ControlCommandRecord) :
    option (list AgentRunRecord * list ControlCommandRecord) :=
  runs' ← Runs.insert_agent_run runs run;
  commands' ← match start_command with
              | Some c => Commands.insert_control_command commands c
              | None => Some commands
              end;
  Some (runs', commands').

Module Events.

(** [ON CONFLICT (tenant_id, event_id) DO NOTHING]; [None]: the primary key is
    violated. *)
Definition insert_runtime_event (rows : list RuntimeEventRecord) (r : RuntimeEventRecord) :
    option (bool * list RuntimeEventRecord) :=
  if existsb (λ x, (rte_tenant_id x == rte_tenant_id r) && (rte_event_id x == rte_event_id r)) rows
  then Some (false, rows)
  else if existsb (λ x, rte_id x == rte_id r) rows then None
  else Some (true, rows ++ [r]).
End Events.
