(* ===== verification/Signing.v ===== *)
(** * Signed control commands

    Models [CommandSigner] and [canonical_command_bytes] of [src/src/src/sign.rs]
    and the receivers of [src/bins/aegis-node-sensor/src/command_receiver.rs] and
    [src/bins/aegis-cage-runner/src/command_receiver.rs], which verify the same
    way.  Ed25519 is a parameter: [public_key] and [sign_bytes] of a secret,
    [key_from_bytes] and [verify_bytes] of a public key. *)

From S2P Require Import Prelude RustString Canon Models Records External Gateway Receipts RunStore.
From stdpp Require Import gmap.

(** The wire shape of a command: the JSON of a [ControlCommandRecord] with the
    fields the sensor knows. *)
Record SignedCommand := {
  sc_command_id : string;
  sc_tenant_id : string;
  sc_target_type : string;
  sc_target_id : string;
  sc_action : string;
  sc_reason : option string;
  sc_issued_by : string;
  sc_issued_at : DateTime;
  sc_expires_at : DateTime;
  sc_nonce : string;
  sc_requires_ack : bool;
  sc_receipt_required : bool;
  sc_signature : string;
  sc_status : string }.

Definition on_wire (c : ControlCommandRecord) : SignedCommand :=
  {| sc_command_id := cc_command_id c; sc_tenant_id := cc_tenant_id c;
     sc_target_type := cc_target_type c; sc_target_id := cc_target_id c; sc_action := cc_action c;
     sc_reason := cc_reason c; sc_issued_by := cc_issued_by c; sc_issued_at := cc_issued_at c;
     sc_expires_at := cc_expires_at c; sc_nonce := cc_nonce c; sc_requires_ack := cc_requires_ack c;
     sc_receipt_required := cc_receipt_required c; sc_signature := cc_signature c;
     sc_status := cc_status c |}.

Class Ed25519 := {
  VerifyingKey : Type;
  public_key : string → string;
  sign_bytes : string → string → string;
  key_from_bytes : string → option VerifyingKey;
  verify_bytes : VerifyingKey → string → string → bool }.

(** What the scheme promises: keys have 32 bytes and signatures 64, the public
    key of a secret is a key, and it verifies what the secret signed. *)
Class Ed25519Laws `{!Ed25519} := {
  public_key_length sk : String.length sk = 32 → String.length (public_key sk) = 32;
  signature_length sk m : String.length sk = 32 → String.length (sign_bytes sk m) = 64;
  signed_verifies sk m : String.length sk = 32 →
    ∃ vk, key_from_bytes (public_key sk) = Some vk ∧ verify_bytes vk m (sign_bytes sk m) = true }.

Inductive CommandError :=
| NoPublicKeyConfigured
| InvalidSignature
| WrongTenant (command_tenant sensor_tenant : string)
| Expired (at_ : DateTime)
| ReplayedNonce (nonce : string).

Module Signing.
Section Signing.
Context {X : External} {HX : HostExternal} {ED : Ed25519}.

(** ** The gateway's side *)

(** A [BTreeMap] lists its entries by key. *)
Definition canonical_command_value (c : ControlCommandRecord) : Canon.Value :=
  Canon.Object (Canon.sort_by_key
    [("command_id", Canon.Str (cc_command_id c));
     ("tenant_id", Canon.Str (cc_tenant_id c));
     ("target_type", Canon.Str (cc_target_type c));
     ("target_id", Canon.Str (cc_target_id c));
     ("action", Canon.Str (cc_action c));
     ("reason", opt_str (cc_reason c));
     ("issued_by", Canon.Str (cc_issued_by c));
     ("issued_at", Canon.Str (to_rfc3339 (cc_issued_at c)));
     ("expires_at", Canon.Str (to_rfc3339 (cc_expires_at c)));
     ("nonce", Canon.Str (cc_nonce c));
     ("requires_ack", Canon.Bool (cc_requires_ack c));
     ("receipt_required", Canon.Bool (cc_receipt_required c))]).

Definition canonical_command_bytes (c : ControlCommandRecord) : string :=
  json_of_value (canonical_command_value c).

Record CommandSigner := { cs_signing_key : string; cs_key_id : option string }.

Definition from_secret_hex (secret_hex : string) : Result CommandSigner string :=
  match hex_decode (trim secret_hex) with
  | None => Err "secret key is not valid hex"
  | Some bytes =>
      if (String.length bytes =? 32)%nat then Ok {| cs_signing_key := bytes; cs_key_id := None |}
      else Err "secret key must be 32 bytes"
  end.

Definition from_env_value (value : string) : Result CommandSigner string :=
  match split_once ":" (trim value) with
  | Some (key_id, hex_secret) =>
      if is_empty key_id then from_secret_hex value
      else match from_secret_hex hex_secret with
           | Ok signer => Ok {| cs_signing_key := cs_signing_key signer; cs_key_id := Some key_id |}
           | Err e => Err e
           end
  | None => from_secret_hex value
  end.

Definition sign (s : CommandSigner) (canonical_bytes : string) : string :=
  hex_encode (sign_bytes (cs_signing_key s) canonical_bytes).

Definition public_key_hex (s : CommandSigner) : string := hex_encode (public_key (cs_signing_key s)).

(** [record.signature = signer.sign(&canonical_command_bytes(&record))] *)
Definition with_signature (signature : string) (c : ControlCommandRecord) : ControlCommandRecord :=
  {| cc_command_id := cc_command_id c; cc_tenant_id := cc_tenant_id c;
     cc_target_type := cc_target_type c; cc_target_id := cc_target_id c; cc_action := cc_action c;
     cc_reason := cc_reason c; cc_issued_by := cc_issued_by c; cc_issued_at := cc_issued_at c;
     cc_expires_at := cc_expires_at c; cc_nonce := cc_nonce c; cc_requires_ack := cc_requires_ack c;
     cc_receipt_required := cc_receipt_required c; cc_signature := signature;
     cc_status := cc_status c; cc_created_at := cc_created_at c |}.

Definition signed (s : CommandSigner) (c : ControlCommandRecord) : ControlCommandRecord :=
  with_signature (sign s (canonical_command_bytes c)) c.

(** ** The receiver's side *)

Definition canonical_bytes (c : SignedCommand) : string :=
  json_of_value (Canon.Object (Canon.sort_by_key
    [("command_id", Canon.Str (sc_command_id c));
     ("tenant_id", Canon.Str (sc_tenant_id c));
     ("target_type", Canon.Str (sc_target_type c));
     ("target_id", Canon.Str (sc_target_id c));
     ("action", Canon.Str (sc_action c));
     ("reason", opt_str (sc_reason c));
     ("issued_by", Canon.Str (sc_issued_by c));
     ("issued_at", Canon.Str (to_rfc3339 (sc_issued_at c)));
     ("expires_at", Canon.Str (to_rfc3339 (sc_expires_at c)));
     ("nonce", Canon.Str (sc_nonce c));
     ("requires_ack", Canon.Bool (sc_requires_ack c));
     ("receipt_required", Canon.Bool (sc_receipt_required c))])).

Record CommandReceiver := {
  cr_verifying_key : option VerifyingKey;
  cr_tenant_id : string;
  cr_seen_nonces : gset string }.

Definition new (gateway_public_key_hex : option string) (tenant_id : string) : CommandReceiver :=
  {| cr_verifying_key :=
       hex_key ← gateway_public_key_hex;
       bytes ← hex_decode hex_key;
       if (String.length bytes =? 32)%nat then key_from_bytes bytes else None;
     cr_tenant_id := tenant_id;
     cr_seen_nonces := ∅ |}.

Definition see (nonce : string) (r : CommandReceiver) : CommandReceiver :=
  {| cr_verifying_key := cr_verifying_key r; cr_tenant_id := cr_tenant_id r;
     cr_seen_nonces := {[ nonce ]} ∪ cr_seen_nonces r |}.

Definition verify (r : CommandReceiver) (cmd : SignedCommand) (now : DateTime) :
    Result unit CommandError * CommandReceiver :=
  match cr_verifying_key r with
  | None => (Err NoPublicKeyConfigured, r)
  | Some verifying_key =>
      if sc_tenant_id cmd != cr_tenant_id r then (Err (WrongTenant (sc_tenant_id cmd) (cr_tenant_id r)), r)
      else if (sc_expires_at cmd <=? now)%Z then (Err (Expired (sc_expires_at cmd)), r)
      else
        match hex_decode (sc_signature cmd) with
        | None => (Err InvalidSignature, r)
        | Some sig_bytes =>
            if negb (String.length sig_bytes =? 64)%nat then (Err InvalidSignature, r)
            else if negb (verify_bytes verifying_key (canonical_bytes cmd) sig_bytes) then (Err InvalidSignature, r)
            else if bool_decide (sc_nonce cmd ∈ cr_seen_nonces r) then (Err (ReplayedNonce (sc_nonce cmd)), r)
            else (Ok tt, see (sc_nonce cmd) r)
        end
  end.

(** ** What a verification means *)

(** The command was signed by the holder of the pinned key, for this tenant, and
    is not expired. *)
Definition authentic (r : CommandReceiver) (cmd : SignedCommand) (now : DateTime) : Prop :=
  ∃ vk sig, cr_verifying_key r = Some vk ∧ hex_decode (sc_signature cmd) = Some sig ∧
    String.length sig = 64%nat ∧ verify_bytes vk (canonical_bytes cmd) sig = true ∧
    sc_tenant_id cmd = cr_tenant_id r ∧ (now < sc_expires_at cmd)%Z.

(** [verify] accepts exactly the authentic commands whose nonce is new, and then
    the nonce is not new any more. *)
Lemma verify_ok r cmd now r' :
  verify r cmd now = (Ok tt, r') ↔
  authentic r cmd now ∧ sc_nonce cmd ∉ cr_seen_nonces r ∧ r' = see (sc_nonce cmd) r.
Proof.
  unfold verify, authentic. destruct (cr_verifying_key r) as [vk|]; [|naive_solver].
  destruct (String.eqb_spec (sc_tenant_id cmd) (cr_tenant_id r)) as [Ht|Ht]; cbn [negb]; [|naive_solver].
  destruct (Z.leb_spec (sc_expires_at cmd) now); [split; [done|]; intros [(?&?&?&?&?&?&?&?) _]; lia|].
  destruct (hex_decode (sc_signature cmd)) as [sig|]; [|naive_solver].
  destruct (Nat.eqb_spec (String.length sig) 64) as [Hl|Hl]; cbn [negb];
    [|split; [done|]; intros [(?&?&_&[= <-]&?&_) _]; done].
  destruct (verify_bytes vk (canonical_bytes cmd) sig) eqn:Hv; cbn [negb];
    [|split; [done|]; intros [(?&?&[= <-]&[= <-]&_&?&_) _]; congruence].
  case_bool_decide; [naive_solver|]. split; [|intros (_ & _ & ->); done].
  intros [= <-]. split; [|done]. exists vk, sig. done.
Qed.

(** A verification that fails changes nothing. *)
Lemma verify_err r cmd now e r' : verify r cmd now = (Err e, r') → r' = r.
Proof. unfold verify. repeat case_match; naive_solver. Qed.

Lemma canonical_agree c : canonical_bytes (on_wire c) = canonical_command_bytes c.
Proof. done. Qed.

Lemma canonical_unsigned s c : canonical_command_bytes (with_signature s c) = canonical_command_bytes c.
Proof. done. Qed.

(** A command the gateway signed is authentic to every receiver that pins the
    key of the signer. *)
Lemma signed_authentic `{!Ed25519Laws} s c r now :
  hex_roundtrip → String.length (cs_signing_key s) = 32%nat →
  (∃ seen, r = {| cr_verifying_key := cr_verifying_key (new (Some (public_key_hex s)) (cc_tenant_id c));
                  cr_tenant_id := cc_tenant_id c; cr_seen_nonces := seen |}) →
  (now < cc_expires_at c)%Z → authentic r (on_wire (signed s c)) now.
Proof.
  intros Hhex Hlen (seen & ->) Hnow. unfold authentic, public_key_hex, sign. simpl. unfold sign. rewrite !Hhex. simpl.
  destruct (signed_verifies (cs_signing_key s) (canonical_command_bytes c) Hlen) as (vk & Hk & Hv).
  exists vk, (sign_bytes (cs_signing_key s) (canonical_command_bytes c)).
  rewrite public_key_length by done. simpl. split_and!; try done. by apply signature_length.
Qed.

Lemma from_secret_hex_length h s : from_secret_hex h = Ok s → String.length (cs_signing_key s) = 32%nat.
Proof.
  unfold from_secret_hex. destruct (hex_decode _); [|done].
  destruct (Nat.eqb_spec (String.length s0) 32); [|done]. by intros [= <-].
Qed.

Lemma from_env_value_length v s : from_env_value v = Ok s → String.length (cs_signing_key s) = 32%nat.
Proof.
  unfold from_env_value. destruct (split_once ":" (trim v)) as [[key_id h]|]; [|apply from_secret_hex_length].
  destruct (is_empty key_id); [apply from_secret_hex_length|].
  destruct (from_secret_hex h) as [s'|] eqn:Hh; [|done]. intros Heq. injection Heq as <-. simpl.
  by eapply from_secret_hex_length.
Qed.
End Signing.
End Signing.
