(* ===== verification/Sensor.v ===== *)
(** * The node sensor: commands and processes

    Models [src/bins/aegis-node-sensor/src/process_enforcer.rs], [execute] of
    [command_receiver.rs], [poll_and_process_commands] of [main.rs] and
    [mode_engine.rs].  The enforcer keeps a map of runs and sends signals through
    the [kill] command ([OsE]); the poll asks the gateway for the commands and
    reports what became of them ([PollE]). *)

From S2P Require Import Prelude RustString Prog Canon Models Records External Gateway RunStore Signing.
From stdpp Require Import gmap pretty.

Local Open Scope Z_scope.

(** ** Signals *)

(** What [Command::output] gives: success, what was written to standard error,
    and the exit status as it is displayed. *)
Record ProcessOutput := { po_success : bool; po_stderr : string; po_status : string }.

Inductive OsE : Type → Type :=
| KillOutput (flag : string) (pid : Z) : OsE (Result ProcessOutput string)
| KillZero (pid : Z) : OsE (Result bool string)
| OsSleepMillis (n : Z) : OsE unit.

Inductive EnforceError :=
| SignalFailed (pid signal : Z) (detail : string)
| InvalidPid (pid : Z).

Inductive RunState := Running | Paused | Killed.
#[export] Instance RunState_eq_dec : EqDecision RunState.
Proof. solve_decision. Defined.

Record TrackedRun := { tr_pid : Z; tr_state : RunState }.

Inductive ExecutionOutcome := Acked | Nacked (reason : string).

Definition display_enforce_error (e : EnforceError) : string :=
  match e with
  | SignalFailed pid signal detail =>
      "process " +:+ pretty pid +:+ " signal " +:+ pretty signal +:+ " failed: " +:+ detail
  | InvalidPid pid => "invalid pid " +:+ pretty pid
  end.

Module Enforcer.

Definition SIGKILL : Z := 9.
Definition SIGTERM : Z := 15.
Definition SIGCONT : Z := 18.
Definition SIGSTOP : Z := 19.

Definition flag_of (signal : Z) : option string :=
  if signal =? SIGTERM then Some "-TERM"
  else if signal =? SIGKILL then Some "-KILL"
  else if signal =? SIGSTOP then Some "-STOP"
  else if signal =? SIGCONT then Some "-CONT"
  else None.

Definition send_signal (pid signal : Z) : prog OsE (Result unit EnforceError) :=
  if pid <=? 0 then mret (Err (InvalidPid pid))
  else
    match flag_of signal with
    | None => mret (Err (SignalFailed pid signal ("unsupported signal " +:+ pretty signal)))
    | Some flag =>
        output ← trigger (KillOutput flag pid);
        match output with
        | Err e => mret (Err (SignalFailed pid signal e))
        | Ok output =>
            if po_success output then mret (Ok tt)
            else
              let detail := trim (Utf8.from_utf8_lossy (po_stderr output)) in
              if contains "No such process" detail || contains "no such process" detail then mret (Ok tt)
              else mret (Err (SignalFailed pid signal
                (if is_empty detail then "kill exited " +:+ po_status output else detail)))
        end
    end.

Definition process_alive (pid : Z) : prog OsE bool :=
  if pid <=? 0 then mret false
  else
    r ← trigger (KillZero pid);
    mret match r with Ok success => success | Err _ => false end.

(** [Err(SignalFailed { detail, .. }) if detail.contains("No such process")] *)
Definition already_gone (e : EnforceError) : bool :=
  match e with SignalFailed _ _ detail => contains "No such process" detail | InvalidPid _ => false end.

Definition kill_pid (pid : Z) : prog OsE (Result unit EnforceError) :=
  r ← send_signal pid SIGTERM;
  match r with
  | Err e => if already_gone e then mret (Ok tt) else mret (Err e)
  | Ok _ =>
      _ ← trigger (OsSleepMillis 200);
      alive ← process_alive pid;
      if (alive : bool) then
        r ← send_signal pid SIGKILL;
        match r with
        | Err e => if already_gone e then mret (Ok tt) else mret (Err e)
        | Ok _ => mret (Ok tt)
        end
      else mret (Ok tt)
  end.

(** ** The registry *)

Abbreviation Runs := (gmap string TrackedRun).

Definition register_run (run_id : string) (pid : Z) (runs : Runs) : Result unit EnforceError * Runs :=
  if pid <=? 0 then (Err (InvalidPid pid), runs)
  else (Ok tt, <[run_id := {| tr_pid := pid; tr_state := Running |}]> runs).

Definition unregister_run (run_id : string) (runs : Runs) : option Z * Runs :=
  (tr_pid <$> runs !! run_id, delete run_id runs).

Definition has_run (run_id : string) (runs : Runs) : bool := bool_decide (is_Some (runs !! run_id)).
Definition pid_for (run_id : string) (runs : Runs) : option Z := tr_pid <$> runs !! run_id.
Definition state_for (run_id : string) (runs : Runs) : option RunState := tr_state <$> runs !! run_id.

(** The source sets the state under the lock and then sends the signal; nothing
    reads the map in between, so the programs below return the new map at the end. *)
Definition set_state (run_id : string) (state : RunState) (runs : Runs) : Runs :=
  alter (λ r, {| tr_pid := tr_pid r; tr_state := state |}) run_id runs.

Definition kill_run (run_id : string) (runs : Runs) : prog OsE (Result unit EnforceError * Runs) :=
  match runs !! run_id with
  | None => mret (Ok tt, runs)
  | Some tracked =>
      if bool_decide (tr_state tracked = Killed) then mret (Ok tt, runs)
      else
        r ← kill_pid (tr_pid tracked);
        mret (r, set_state run_id Killed runs)
  end.

Definition pause_run (run_id : string) (runs : Runs) : prog OsE (Result unit EnforceError * Runs) :=
  match runs !! run_id with
  | None => mret (Ok tt, runs)
  | Some tracked =>
      if bool_decide (tr_state tracked = Killed) then mret (Ok tt, runs)
      else if bool_decide (tr_state tracked = Paused) then mret (Ok tt, runs)
      else
        r ← send_signal (tr_pid tracked) SIGSTOP;
        mret (r, set_state run_id Paused runs)
  end.

Definition resume_run (run_id : string) (runs : Runs) : prog OsE (Result unit EnforceError * Runs) :=
  match runs !! run_id with
  | None => mret (Ok tt, runs)
  | Some tracked =>
      if bool_decide (tr_state tracked = Killed) then mret (Ok tt, runs)
      else
        r ← send_signal (tr_pid tracked) SIGCONT;
        mret (r, set_state run_id Running runs)
  end.

Definition quarantine_run (run_id : string) (runs : Runs) : prog OsE (Result unit EnforceError * Runs) :=
  kill_run run_id runs.

(** [for id in ids { self.kill_run(&id)?; }] *)
Fixpoint kill_each (ids : list string) (runs : Runs) : prog OsE (Result unit EnforceError * Runs) :=
  match ids with
  | [] => mret (Ok tt, runs)
  | id :: ids =>
      '(r, runs) ← kill_run id runs;
      match r with Ok _ => kill_each ids runs | Err e => mret (Err e, runs) end
  end.

Section Order.
(** The order in which a [HashMap] lists its keys *)
Context (keys : Runs → list string).

Definition kill_all_registered (runs : Runs) : prog OsE (Result unit EnforceError * Runs) :=
  kill_each (keys runs) runs.

Definition enforce (action target_type target_id : string) (runs : Runs) :
    option (prog OsE (Result unit EnforceError * Runs)) :=
  if (action == "kill_run") && (target_type == "run") then Some (kill_run target_id runs)
  else if (action == "pause_run") && (target_type == "run") then Some (pause_run target_id runs)
  else if (action == "resume_run") && (target_type == "run") then Some (resume_run target_id runs)
  else if (action == "quarantine_run") && (target_type == "run") then Some (quarantine_run target_id runs)
  else if (action == "kill_run") && (target_type == "sensor") then Some (kill_all_registered runs)
  else None.

Definition execute (cmd : SignedCommand) (runs : Runs) : prog OsE (ExecutionOutcome * Runs) :=
  match enforce (sc_action cmd) (sc_target_type cmd) (sc_target_id cmd) runs with
  | None =>
      mret (Nacked ("unsupported action/target: " +:+ sc_action cmd +:+ "/" +:+ sc_target_type cmd), runs)
  | Some p =>
      '(r, runs) ← p;
      mret (match r with Ok _ => Acked | Err e => Nacked (display_enforce_error e) end, runs)
  end.
End Order.
End Enforcer.

(** ** The poll *)

Module Poll.
Section Poll.
Context {X : External} {HX : HostExternal} {ED : Ed25519}.

(** The client of the gateway, the clock, and the enforcer that is shared with
    the collectors *)
Inductive ClientE : Type → Type :=
| ListCommands : ClientE (Result (list SignedCommand) string)
| UpdateStatus (command_id status : string) : ClientE (Result unit string)
| PollUtcNow : ClientE DateTime.

Inductive PollE : Type → Type :=
| OnClient {T} (e : ClientE T) : PollE T
| HasRun (run_id : string) : PollE bool
| Execute (cmd : SignedCommand) : PollE ExecutionOutcome.

(** The [filter] of the loop *)
Definition addressed (sensor_id : string) (c : SignedCommand) : prog PollE bool :=
  if sc_status c != "issued" then mret false
  else if sc_target_type c == "sensor" then mret (sc_target_id c == sensor_id)
  else if sc_target_type c == "run" then trigger (HasRun (sc_target_id c))
  else mret false.

Definition process_command (cmd : SignedCommand) (receiver : Signing.CommandReceiver) :
    prog PollE Signing.CommandReceiver :=
  now ← trigger (OnClient PollUtcNow);
  let '(verified, receiver) := Signing.verify receiver cmd now in
  new_status ←
    match verified with
    | Ok _ =>
        outcome ← trigger (Execute cmd);
        mret match outcome with Acked => "acked" | Nacked _ => "nacked" end
    | Err _ => mret "nacked"
    end;
  _ ← trigger (OnClient (UpdateStatus (sc_command_id cmd) new_status));
  mret receiver.

Fixpoint process_commands (sensor_id : string) (commands : list SignedCommand)
    (receiver : Signing.CommandReceiver) : prog PollE Signing.CommandReceiver :=
  match commands with
  | [] => mret receiver
  | cmd :: commands =>
      ours ← addressed sensor_id cmd;
      receiver ← (if (ours : bool) then process_command cmd receiver else mret receiver);
      process_commands sensor_id commands receiver
  end.

Definition poll_and_process_commands (sensor_id : string) (receiver : Signing.CommandReceiver) :
    prog PollE Signing.CommandReceiver :=
  commands ← trigger (OnClient ListCommands);
  match commands with
  | Ok commands => process_commands sensor_id commands receiver
  | Err _ => mret receiver
  end.

(** [n] ticks of the poll *)
Fixpoint polls (n : nat) (sensor_id : string) (receiver : Signing.CommandReceiver) :
    prog PollE Signing.CommandReceiver :=
  match n with
  | O => mret receiver
  | S n => receiver ← poll_and_process_commands sensor_id receiver; polls n sensor_id receiver
  end.

(** ** The poll and the enforcer together *)

Inductive SensorE : Type → Type :=
| Client {T} (e : ClientE T) : SensorE T
| Os {T} (e : OsE T) : SensorE T.

Context (keys : Enforcer.Runs → list string).

Fixpoint with_enforcer {A} (p : prog PollE A) (runs : Enforcer.Runs) : prog SensorE (A * Enforcer.Runs) :=
  match p with
  | Ret a => mret (a, runs)
  | Vis e k =>
      match e in PollE T return (T → Enforcer.Runs → prog SensorE (A * Enforcer.Runs)) → _ with
      | OnClient e => λ k, r ← trigger (Client e); k r runs
      | HasRun run_id => λ k, k (Enforcer.has_run run_id runs) runs
      | Execute cmd => λ k,
          '(outcome, runs) ← interp (λ T e, trigger (Os e)) (Enforcer.execute keys cmd runs);
          k outcome runs
      end (λ r, with_enforcer (k r))
  end.
End Poll.
End Poll.

(** ** Modes *)

Inductive SensorMode := Observe | Enforce | Lockdown.
Inductive GatewayReachability := Reachable | Unreachable.
Inductive ActionDecision := ActionAllow | ActionBlock.
Inductive UnknownRunDecision := Continue | PauseOrKill.

Definition decide_controlled_action (mode : SensorMode) (gateway : GatewayReachability) : ActionDecision :=
  match mode, gateway with
  | Observe, _ => ActionAllow
  | Enforce, Reachable => ActionAllow
  | Enforce, Unreachable => ActionBlock
  | Lockdown, _ => ActionBlock
  end.

Definition decide_unknown_run (mode : SensorMode) (gateway : GatewayReachability) : UnknownRunDecision :=
  match mode, gateway with
  | Lockdown, Unreachable => PauseOrKill
  | _, _ => Continue
  end.
