(* ===== verification/RunApi.v ===== *)
(** * The run control API

    Models [src/src/src/routes/runtime.rs] and [src/src/src/routes/control.rs]:
    the handlers that register, claim and control cage runs, ingest runtime
    events, and keep bans, quarantines and control commands, as programs over
    the storage operations they call.  The listings only page through a table
    and are left out.

    The JSON text of a specification and the debug form of a string are
    parameters. *)

From S2P Require Import Prelude RustString Prog Models Records External Runtime Bans Gateway EgressApi Risk RunStore Signing.

(** ** Requests *)

Record CageResourceLimitsRequest := {
  crl_cpu_millis : Z;
  crl_memory_bytes : Z;
  crl_process_limit : Z;
  crl_timeout_seconds : Z;
  crl_max_stdout_bytes : option Z;
  crl_max_stderr_bytes : option Z }.

Record CageWorkspaceSpecRequest := {
  cws_template_id : option string;
  cws_max_bytes : Z;
  cws_max_files : Z;
  cws_preserve_on_failure : bool }.

Record CageNetworkSpecRequest := {
  cns_direct_internet : bool;
  cns_egress_proxy_url : option string;
  cns_allowed_destinations : list string }.

Record CageToolingSpecRequest := {
  cts_tool_broker_url : option string;
  cts_mcp_gateway_url : option string }.

Inductive CageMountSourceType := GitSnapshot | Artifact | SecretlessConfig | Tmpfs.

Record CageControlledMountRequest := {
  ccm_mount_id : string;
  ccm_source_type : CageMountSourceType;
  ccm_target_path : string;
  ccm_read_only : bool;
  ccm_reason : string;
  ccm_approved_by : string }.

(** The entries of [environment] are in the order the map lists them. *)
Record CageRunSpecRequest := {
  crs_image_ref : string;
  crs_image_digest : option string;
  crs_command : list string;
  crs_working_dir : string;
  crs_resources : CageResourceLimitsRequest;
  crs_workspace : CageWorkspaceSpecRequest;
  crs_network : CageNetworkSpecRequest;
  crs_tooling : CageToolingSpecRequest;
  crs_environment : list (string * string);
  crs_controlled_mounts : list CageControlledMountRequest }.

Record CreateAgentRunRequest := {
  crr_run_key : string;
  crr_agent_id : option string;
  crr_source_component : string;
  crr_mode : option string;
  crr_root_trace_id : option string;
  crr_root_trust_level : option string;
  crr_cage_spec : option CageRunSpecRequest }.

Record UpdateRunStatusRequest := {
  urs_runner_id : string;
  urs_status : string;
  urs_finished_at : option DateTime;
  urs_exit_code : option Z }.

Record RunControlRequest := { rcr_actor : string; rcr_reason : option string }.

Record IngestRuntimeEventRequest := {
  ire_event_id : string;
  ire_event_type : string;
  ire_severity : option string;
  ire_agent_id : option string;
  ire_run_id : option string;
  ire_sandbox_id : option string;
  ire_trace_id : option string;
  ire_parent_event_id : option string;
  ire_source_component : string;
  ire_source_trust : option string;
  ire_decision : option string;
  ire_reason : option string;
  ire_action_hash : option string;
  ire_prompt_hash : option string;
  ire_request_hash : option string;
  ire_response_hash : option string;
  ire_receipt_id : option string;
  ire_receipt_hash : option string;
  ire_prev_receipt_hash : option string;
  ire_canonical_version : option string;
  ire_redaction_status : option string;
  ire_observed_at : option DateTime }.

Record CreateBanRequest := {
  cbr_target_type : string;
  cbr_target_value : string;
  cbr_scope : string;
  cbr_reason : option string;
  cbr_actor : string;
  cbr_expires_at : option DateTime }.

Record CreateQuarantineRequest := {
  cqr_target_type : string;
  cqr_target_value : string;
  cqr_reason : option string;
  cqr_actor : string;
  cqr_incident_id : option string }.

Record IssueControlCommandRequest := {
  icc_target_type : string;
  icc_target_id : string;
  icc_action : string;
  icc_reason : option string;
  icc_issued_by : string;
  icc_expires_at : DateTime;
  icc_nonce : string;
  icc_requires_ack : bool;
  icc_receipt_required : bool;
  icc_signature : string }.

(** ** The calls of the handlers *)

Inductive RunE : Type → Type :=
| RnUtcNow : RunE DateTime
| RnFreshUuid : RunE Uuid
| RnIsBanned (tenant_id kind value : string) (now : DateTime) : RunE (Fallible bool)
| RnIsQuarantined (tenant_id kind value : string) : RunE (Fallible bool)
| RnGetRun (tenant_id run_id : string) : RunE (Fallible (option AgentRunRecord))
| RnInsertRun (run : AgentRunRecord) (start_command : option ControlCommandRecord) : RunE (Fallible unit)
| RnClaim (tenant_id run_id runner_id : string) (now : DateTime) : RunE (Fallible bool)
| RnHeartbeat (tenant_id run_id runner_id : string) (now : DateTime) : RunE (Fallible bool)
| RnUpdateClaimed (tenant_id run_id runner_id status : string) (finished_at : option DateTime)
    (exit_code : option Z) : RunE (Fallible bool)
| RnUpdateStatus (tenant_id run_id status : string) (finished_at : option DateTime) : RunE (Fallible bool)
| RnListActive (tenant_id agent_id : string) : RunE (Fallible (list AgentRunRecord))
| RnInsertCommand (c : ControlCommandRecord) : RunE (Fallible unit)
| RnGetCommand (tenant_id command_id : string) : RunE (Fallible (option ControlCommandRecord))
| RnUpdateCommand (tenant_id command_id status : string) : RunE (Fallible bool)
| RnInsertBan (r : AgentBanRecord) : RunE (Fallible unit)
| RnGetBan (tenant_id id : string) : RunE (Fallible (option AgentBanRecord))
| RnRevokeBan (tenant_id id revoked_by : string) (now : DateTime) : RunE (Fallible bool)
| RnInsertQuarantine (r : QuarantineRecord) : RunE (Fallible unit)
| RnGetQuarantine (tenant_id id : string) : RunE (Fallible (option QuarantineRecord))
| RnReleaseQuarantine (tenant_id id status released_by : string) (now : DateTime) : RunE (Fallible bool)
| RnInsertEvent (r : RuntimeEventRecord) : RunE (Fallible bool).

Class RunExternal := {
  debug_str : string → string;
  debug_strs : list string → string;
  json_of_strings : list string → option string;
  json_of_resources : CageResourceLimitsRequest → option string;
  json_of_network : CageNetworkSpecRequest → option string;
  json_of_tooling : CageToolingSpecRequest → option string;
  json_of_environment : list (string * string) → option string;
  json_of_workspace : CageWorkspaceSpecRequest → option string;
  json_of_mounts : list CageControlledMountRequest → option string }.

Module RunApi.

Definition CONTROL_COMMAND_EXPIRY_SECS : Z := 300.
Definition START_RUN_COMMAND_EXPIRY_SECS : Z := 3600.
Definition NANOS : Z := 1000000000.

Definition FORBIDDEN_MOUNT_PATH_PREFIXES : list string :=
  ["/var/run/docker.sock"; "/run/docker.sock"; "/root/.ssh"; "/root/.aws"; "/root/.kube";
   "/root/.config/gcloud"; "/home"; "/etc/kubernetes"].

Definition FORBIDDEN_ENV_NAME_SUBSTRINGS : list string :=
  ["SECRET"; "PASSWORD"; "PRIVATE_KEY"; "ACCESS_KEY"; "TOKEN"; "API_KEY"].

Definition is_explicitly_allowed_env_name (name : string) : bool :=
  existsb (String.eqb name) ["AEGIS_RUN_ID"; "AEGIS_SANDBOX_ID"; "HTTP_PROXY"; "HTTPS_PROXY"; "NO_PROXY"].

Definition RUNNER_REPORTABLE_STATUSES : list string := ["running"; "paused"; "finished"; "killed"; "stalled"].

Section Handlers.
Context {X : External} {HX : HostExternal} {ED : Ed25519} {RX : RunExternal}.
(** [AEGIS_COMMAND_SIGNING_KEY] *)
Context (command_signing_key : option string).

(** ** The specification of a sandbox *)

Definition forbidden_mount (m : CageControlledMountRequest) : bool :=
  existsb (λ p, starts_with p (ccm_target_path m)) FORBIDDEN_MOUNT_PATH_PREFIXES.

Definition looks_like_credential (name : string) : bool :=
  negb (is_explicitly_allowed_env_name name) &&
  existsb (λ s, contains s (to_ascii_uppercase name)) FORBIDDEN_ENV_NAME_SUBSTRINGS.

Definition has_whitespace (s : string) : bool := existsb (λ w, contains w s) whitespace_seqs.

(** [egress_proxy_url.as_deref().map(str::trim).filter(|s| !s.is_empty())] *)
Definition proxy_of (n : CageNetworkSpecRequest) : option string :=
  u ← cns_egress_proxy_url n; if is_empty (trim u) then None else Some (trim u).

Definition validate_network (n : CageNetworkSpecRequest) : Result unit string :=
  if cns_direct_internet n then
    Err ("cage_spec.network.direct_internet must be false " +:+ bytes [226; 128; 148] +:+
         " all egress goes through the egress proxy")
  else if negb (bool_decide (cns_allowed_destinations n = [])) && bool_decide (proxy_of n = None) then
    Err ("cage_spec.network.allowed_destinations requires egress_proxy_url " +:+
         "(allowlists are enforced at the egress proxy)")
  else
    match proxy_of n with
    | Some url =>
        if negb (starts_with "http://" url || starts_with "https://" url) then
          Err "cage_spec.network.egress_proxy_url must be an http:// or https:// URL"
        else if has_whitespace url then
          Err "cage_spec.network.egress_proxy_url must not contain whitespace"
        else Ok tt
    | None =>
        match cns_egress_proxy_url n with
        | Some _ => Err "cage_spec.network.egress_proxy_url must not be empty when set"
        | None => Ok tt
        end
    end.

Definition validate_cage_spec (spec : CageRunSpecRequest) : Result unit string :=
  if is_empty (trim (crs_image_ref spec)) then Err "cage_spec.image_ref must not be empty"
  else if starts_with "-" (crs_image_ref spec) then Err "cage_spec.image_ref must not start with '-'"
  else if bool_decide (crs_command spec = []) then Err "cage_spec.command must not be empty"
  else if (crl_timeout_seconds (crs_resources spec) =? 0)%Z then
    Err "cage_spec.resources.timeout_seconds must be greater than zero"
  else
    match validate_network (crs_network spec) with
    | Err e => Err e
    | Ok _ =>
        match find forbidden_mount (crs_controlled_mounts spec) with
        | Some m => Err ("controlled mount " +:+ debug_str (ccm_mount_id m) +:+
                         " targets forbidden path " +:+ debug_str (ccm_target_path m))
        | None =>
            match find looks_like_credential (crs_environment spec).*1 with
            | Some name => Err ("environment variable " +:+ debug_str name +:+
                " looks like a raw credential and cannot be injected directly")
            | None => Ok tt
            end
        end
    end.

(** ** Bans *)

(** A refusal with its status and message. *)
Abbreviation StatusError := (Z * string)%type.

Definition refuse {A} (e : StatusError) : Answer A := Refused e.1 e.2.
Definition database_error : StatusError := (500%Z, "Database error").

Definition agent_ban_denial (tenant_id agent_id : string) : prog RunE (Result (option StatusError) StatusError) :=
  now ← trigger RnUtcNow;
  banned ← trigger (RnIsBanned tenant_id "agent" agent_id now);
  quarantined ← trigger (RnIsQuarantined tenant_id "agent" agent_id);
  match banned with
  | Err _ => mret (Err database_error)
  | Ok banned =>
      match quarantined with
      | Err _ => mret (Err database_error)
      | Ok quarantined =>
          mret (Ok (if (banned : bool) then Some (403%Z, "agent is banned; runs are denied (fail-closed)")
                    else if (quarantined : bool) then
                      Some (403%Z, "agent is quarantined; runs are denied (fail-closed)")
                    else None))
      end
  end.

Definition image_digest_ban_denial (tenant_id image_digest : string) :
    prog RunE (Result (option StatusError) StatusError) :=
  now ← trigger RnUtcNow;
  banned ← trigger (RnIsBanned tenant_id "image_digest" image_digest now);
  match banned with
  | Err _ => mret (Err database_error)
  | Ok true => mret (Ok (Some (403%Z, "sandbox image digest is banned; runs are denied (fail-closed)")))
  | Ok false => mret (Ok None)
  end.

(** [if let Some(x) = value { match denial(x).await { .. => return .. } }] *)
Definition unless_denied {A} (value : option string)
    (denial : string → prog RunE (Result (option StatusError) StatusError))
    (k : prog RunE (Answer A)) : prog RunE (Answer A) :=
  match value with
  | None => k
  | Some x =>
      r ← denial x;
      match r with
      | Ok (Some e) | Err e => mret (refuse e)
      | Ok None => k
      end
  end.

(** ** Commands *)

Definition unsigned_command (tenant_id run_id action : string) (reason : option string) (issued_by : string)
    (now : DateTime) (expiry_secs : Z) (receipt_required : bool) (command_id nonce : Uuid) :
    ControlCommandRecord :=
  {| cc_command_id := uuid_to_string command_id; cc_tenant_id := tenant_id; cc_target_type := "run";
     cc_target_id := run_id; cc_action := action; cc_reason := reason; cc_issued_by := issued_by;
     cc_issued_at := now; cc_expires_at := (now + expiry_secs * NANOS)%Z;
     cc_nonce := uuid_to_string nonce; cc_requires_ack := true; cc_receipt_required := receipt_required;
     cc_signature := ""; cc_status := "issued"; cc_created_at := now |}.

Definition issue_run_control_command (tenant_id run_id action : string) (req : RunControlRequest) :
    prog RunE (Result ControlCommandRecord StatusError) :=
  run ← trigger (RnGetRun tenant_id run_id);
  match run with
  | Err _ => mret (Err database_error)
  | Ok None => mret (Err (404%Z, "agent run not found"))
  | Ok (Some _) =>
      match command_signing_key with
      | None => mret (Err (503%Z,
          "gateway command signing key not configured; cannot issue control commands"))
      | Some signing_key_hex =>
          match Signing.from_env_value signing_key_hex with
          | Err _ => mret (Err (503%Z,
              "gateway command signing key is misconfigured; cannot issue control commands"))
          | Ok signer =>
              now ← trigger RnUtcNow;
              command_id ← trigger RnFreshUuid;
              nonce ← trigger RnFreshUuid;
              let record := Signing.signed signer
                (unsigned_command tenant_id run_id action (rcr_reason req) (rcr_actor req) now
                   CONTROL_COMMAND_EXPIRY_SECS true command_id nonce) in
              r ← trigger (RnInsertCommand record);
              match r with
              | Ok _ => mret (Ok record)
              | Err _ => mret (Err database_error)
              end
          end
      end
  end.

(** [pause_run], [resume_run] and [kill_run] *)
Definition control_run (action tenant_id run_id : string) (req : RunControlRequest) :
    prog RunE (Answer ControlCommandRecord) :=
  r ← issue_run_control_command tenant_id run_id action req;
  mret match r with Ok record => Answered 201 record | Err e => refuse e end.

Definition pause_run := control_run "pause_run".
Definition resume_run := control_run "resume_run".
Definition kill_run := control_run "kill_run".

Definition run_quarantine_record (tenant_id run_id : string) (req : RunControlRequest) (id : Uuid)
    (now : DateTime) : QuarantineRecord :=
  {| qr_id := uuid_to_string id; qr_tenant_id := tenant_id; qr_target_type := "run";
     qr_target_value := run_id; qr_reason := rcr_reason req; qr_actor := rcr_actor req;
     qr_status := "active"; qr_incident_id := None; qr_created_at := now; qr_released_at := None;
     qr_released_by := None |}.

Definition quarantine_run (tenant_id run_id : string) (req : RunControlRequest) :
    prog RunE (Answer (ControlCommandRecord * QuarantineRecord)) :=
  r ← issue_run_control_command tenant_id run_id "quarantine_run" req;
  match r with
  | Err e => mret (refuse e)
  | Ok command =>
      now ← trigger RnUtcNow;
      id ← trigger RnFreshUuid;
      let quarantine := run_quarantine_record tenant_id run_id req id now in
      inserted ← trigger (RnInsertQuarantine quarantine);
      match inserted with
      | Err _ => mret (refuse database_error)
      | Ok _ =>
          _ ← trigger (RnUpdateStatus tenant_id run_id "quarantined" None);
          mret (Answered 201 (command, quarantine))
      end
  end.

(** ** Registering a run *)

(** The command that lets a runner find the run *)
Definition start_command (signer : Signing.CommandSigner) (tenant_id run_id : string) (now : DateTime)
    (command_id nonce : Uuid) : ControlCommandRecord :=
  Signing.signed signer
    (unsigned_command tenant_id run_id "start_run" None "gateway" now START_RUN_COMMAND_EXPIRY_SECS false
       command_id nonce).

Definition run_record (tenant_id run_id : string) (req : CreateAgentRunRequest) (now : DateTime) :
    AgentRunRecord :=
  let spec := crr_cage_spec req in
  {| arn_id := run_id; arn_tenant_id := tenant_id; arn_agent_id := crr_agent_id req;
     arn_run_key := crr_run_key req; arn_source_component := crr_source_component req;
     arn_mode := default "observe" (crr_mode req); arn_status := "started"; arn_started_at := now;
     arn_finished_at := None; arn_root_trace_id := crr_root_trace_id req;
     arn_root_trust_level := crr_root_trust_level req; arn_policy_bundle_id := None;
     arn_claimed_by := None; arn_claimed_at := None; arn_last_heartbeat_at := None;
     arn_image_ref := crs_image_ref <$> spec;
     arn_image_digest := spec ≫= crs_image_digest;
     arn_command_json := s ← spec; json_of_strings (crs_command s);
     arn_working_dir := crs_working_dir <$> spec;
     arn_resource_limits_json := s ← spec; json_of_resources (crs_resources s);
     arn_network_spec_json := s ← spec; json_of_network (crs_network s);
     arn_tooling_spec_json := s ← spec; json_of_tooling (crs_tooling s);
     arn_environment_json := s ← spec; json_of_environment (crs_environment s);
     arn_workspace_spec_json := s ← spec; json_of_workspace (crs_workspace s);
     arn_controlled_mounts_json := s ← spec; json_of_mounts (crs_controlled_mounts s);
     arn_exit_code := None; arn_created_at := now |}.

(** The block under [if let Some(spec) = req.cage_spec] *)
Definition prepare_start (tenant_id run_id : string) (spec : option CageRunSpecRequest) (now : DateTime) :
    prog RunE (Result (option ControlCommandRecord) StatusError) :=
  match spec with
  | None => mret (Ok None)
  | Some spec =>
      match command_signing_key with
      | None => mret (Err (503%Z,
          "gateway command signing key not configured; cannot start cage-executed runs"))
      | Some signing_key_hex =>
          match validate_cage_spec spec with
          | Err e => mret (Err (400%Z, e))
          | Ok _ =>
              match Signing.from_env_value signing_key_hex with
              | Err _ => mret (Err (503%Z,
                  "gateway command signing key is misconfigured; cannot start cage-executed runs"))
              | Ok signer =>
                  command_id ← trigger RnFreshUuid;
                  nonce ← trigger RnFreshUuid;
                  mret (Ok (Some (start_command signer tenant_id run_id now command_id nonce)))
              end
          end
      end
  end.

Definition create_agent_run (tenant_id : string) (req : CreateAgentRunRequest) :
    prog RunE (Answer AgentRunRecord) :=
  now ← trigger RnUtcNow;
  id ← trigger RnFreshUuid;
  let run_id := uuid_to_string id in
  unless_denied (crr_agent_id req) (agent_ban_denial tenant_id)
    (unless_denied (crr_cage_spec req ≫= crs_image_digest) (image_digest_ban_denial tenant_id)
      (start ← prepare_start tenant_id run_id (crr_cage_spec req) now;
       match start with
       | Err e => mret (refuse e)
       | Ok start =>
           let record := run_record tenant_id run_id req now in
           r ← trigger (RnInsertRun record start);
           match r with
           | Ok _ => mret (Answered 201 record)
           | Err _ => mret (Refused 409 "agent run already exists for this run_key")
           end
       end)).

(** ** The runner's calls *)

(** [match get_agent_run { Ok(Some(r)) => (OK, r), Ok(None) => 404, Err => 500 }] *)
Definition get_agent_run (tenant_id run_id : string) : prog RunE (Answer AgentRunRecord) :=
  r ← trigger (RnGetRun tenant_id run_id);
  mret match r with
       | Ok (Some r) => Answered 200 r
       | Ok None => Refused 404 "agent run not found"
       | Err _ => refuse database_error
       end.

Definition claim_now (tenant_id run_id runner_id : string) : prog RunE (Answer AgentRunRecord) :=
  now ← trigger RnUtcNow;
  claimed ← trigger (RnClaim tenant_id run_id runner_id now);
  match claimed with
  | Ok true => get_agent_run tenant_id run_id
  | Ok false =>
      r ← trigger (RnGetRun tenant_id run_id);
      mret match r with
           | Ok (Some _) => Refused 409
               "run is not claimable (already claimed, not started, or has no cage_spec)"
           | Ok None => Refused 404 "agent run not found"
           | Err _ => refuse database_error
           end
  | Err _ => mret (refuse database_error)
  end.

Definition claim_run (tenant_id run_id runner_id : string) : prog RunE (Answer AgentRunRecord) :=
  run ← trigger (RnGetRun tenant_id run_id);
  match run with
  | Err _ => mret (refuse database_error)
  | Ok None => mret (Refused 404 "agent run not found")
  | Ok (Some run) =>
      unless_denied (arn_agent_id run) (agent_ban_denial tenant_id)
        (unless_denied (arn_image_digest run) (image_digest_ban_denial tenant_id)
          (q ← trigger (RnIsQuarantined tenant_id "run" run_id);
           match q with
           | Ok true => mret (Refused 403 "run is quarantined; claim denied (fail-closed)")
           | Ok false => claim_now tenant_id run_id runner_id
           | Err _ => mret (refuse database_error)
           end))
  end.

Definition not_held {A} : Answer A := Refused 409 "caller does not hold the claim on this run".

Definition heartbeat_run (tenant_id run_id runner_id : string) : prog RunE (Answer unit) :=
  now ← trigger RnUtcNow;
  r ← trigger (RnHeartbeat tenant_id run_id runner_id now);
  mret match r with
       | Ok true => Answered 200 tt
       | Ok false => not_held
       | Err _ => refuse database_error
       end.

Definition update_run_status (tenant_id run_id : string) (req : UpdateRunStatusRequest) :
    prog RunE (Answer AgentRunRecord) :=
  if negb (existsb (String.eqb (urs_status req)) RUNNER_REPORTABLE_STATUSES) then
    mret (Refused 400 ("status must be one of " +:+ debug_strs RUNNER_REPORTABLE_STATUSES))
  else
    r ← trigger (RnUpdateClaimed tenant_id run_id (urs_runner_id req) (urs_status req)
                   (urs_finished_at req) (urs_exit_code req));
    match r with
    | Ok true => get_agent_run tenant_id run_id
    | Ok false => mret not_held
    | Err _ => mret (refuse database_error)
    end.

(** ** Runtime events *)

Definition runtime_event (tenant_id : string) (req : IngestRuntimeEventRequest) (id : Uuid) (now : DateTime) :
    RuntimeEventRecord :=
  {| rte_id := uuid_to_string id; rte_tenant_id := tenant_id; rte_event_id := ire_event_id req;
     rte_event_type := ire_event_type req; rte_severity := ire_severity req;
     rte_agent_id := ire_agent_id req; rte_run_id := ire_run_id req; rte_sandbox_id := ire_sandbox_id req;
     rte_trace_id := ire_trace_id req; rte_parent_event_id := ire_parent_event_id req;
     rte_source_component := ire_source_component req; rte_source_trust := ire_source_trust req;
     rte_decision := ire_decision req; rte_reason := ire_reason req; rte_action_hash := ire_action_hash req;
     rte_prompt_hash := ire_prompt_hash req; rte_request_hash := ire_request_hash req;
     rte_response_hash := ire_response_hash req; rte_receipt_id := ire_receipt_id req;
     rte_receipt_hash := ire_receipt_hash req; rte_prev_receipt_hash := ire_prev_receipt_hash req;
     rte_canonical_version := ire_canonical_version req; rte_redaction_status := ire_redaction_status req;
     rte_schema_version := 1; rte_observed_at := default now (ire_observed_at req); rte_received_at := now |}.

Definition ingest_runtime_event (tenant_id : string) (req : IngestRuntimeEventRequest) :
    prog RunE (Answer bool) :=
  now ← trigger RnUtcNow;
  id ← trigger RnFreshUuid;
  r ← trigger (RnInsertEvent (runtime_event tenant_id req id now));
  mret match r with Ok ingested => Answered 200 ingested | Err _ => refuse database_error end.

(** ** Bans and quarantines *)

Definition ban_record (tenant_id : string) (req : CreateBanRequest) (id : Uuid) (now : DateTime) :
    AgentBanRecord :=
  {| abr_id := uuid_to_string id; abr_tenant_id := tenant_id; abr_target_type := cbr_target_type req;
     abr_target_value := cbr_target_value req; abr_scope := cbr_scope req; abr_reason := cbr_reason req;
     abr_actor := cbr_actor req; abr_status := "active"; abr_created_at := now;
     abr_expires_at := cbr_expires_at req; abr_revoked_at := None; abr_revoked_by := None |}.

(** The loop over the live runs; a failure is logged. *)
Fixpoint kill_runs (tenant_id : string) (req : RunControlRequest) (l : list AgentRunRecord) :
    prog RunE unit :=
  match l with
  | [] => mret tt
  | run :: l =>
      _ ← issue_run_control_command tenant_id (arn_id run) "kill_run" req;
      kill_runs tenant_id req l
  end.

Definition propagate_ban (record : AgentBanRecord) : prog RunE unit :=
  if abr_target_type record == "agent" then
    match command_signing_key with
    | None => mret tt
    | Some _ =>
        r ← trigger (RnListActive (abr_tenant_id record) (abr_target_value record));
        match r with
        | Ok l => kill_runs (abr_tenant_id record)
                    {| rcr_actor := abr_actor record; rcr_reason := abr_reason record |} l
        | Err _ => mret tt
        end
    end
  else mret tt.

Definition create_ban (tenant_id : string) (req : CreateBanRequest) : prog RunE (Answer AgentBanRecord) :=
  now ← trigger RnUtcNow;
  id ← trigger RnFreshUuid;
  let record := ban_record tenant_id req id now in
  r ← trigger (RnInsertBan record);
  match r with
  | Err _ => mret (refuse database_error)
  | Ok _ => _ ← propagate_ban record; mret (Answered 201 record)
  end.

(** The answer after an update: the row as it is now *)
Definition answer_row {A} (r : Fallible (option A)) (missing : string) : Answer A :=
  match r with
  | Ok (Some x) => Answered 200 x
  | Ok None => Refused 404 missing
  | Err _ => refuse database_error
  end.

Definition revoke_ban (tenant_id ban_id revoked_by : string) : prog RunE (Answer AgentBanRecord) :=
  existing ← trigger (RnGetBan tenant_id ban_id);
  match existing with
  | Err _ => mret (refuse database_error)
  | Ok None => mret (Refused 404 "ban not found")
  | Ok (Some existing) =>
      if abr_status existing == "revoked" then mret (Answered 200 existing)
      else
        now ← trigger RnUtcNow;
        r ← trigger (RnRevokeBan tenant_id ban_id revoked_by now);
        match r with
        | Err _ => mret (refuse database_error)
        | Ok _ => again ← trigger (RnGetBan tenant_id ban_id); mret (answer_row again "ban not found")
        end
  end.

Definition quarantine_record (tenant_id : string) (req : CreateQuarantineRequest) (id : Uuid) (now : DateTime) :
    QuarantineRecord :=
  {| qr_id := uuid_to_string id; qr_tenant_id := tenant_id; qr_target_type := cqr_target_type req;
     qr_target_value := cqr_target_value req; qr_reason := cqr_reason req; qr_actor := cqr_actor req;
     qr_status := "active"; qr_incident_id := cqr_incident_id req; qr_created_at := now;
     qr_released_at := None; qr_released_by := None |}.

Definition create_quarantine (tenant_id : string) (req : CreateQuarantineRequest) :
    prog RunE (Answer QuarantineRecord) :=
  now ← trigger RnUtcNow;
  id ← trigger RnFreshUuid;
  let record := quarantine_record tenant_id req id now in
  r ← trigger (RnInsertQuarantine record);
  mret match r with Ok _ => Answered 201 record | Err _ => refuse database_error end.

Definition release_quarantine (tenant_id id released_by status : string) : prog RunE (Answer QuarantineRecord) :=
  existing ← trigger (RnGetQuarantine tenant_id id);
  match existing with
  | Err _ => mret (refuse database_error)
  | Ok None => mret (Refused 404 "quarantine record not found")
  | Ok (Some existing) =>
      if qr_status existing != "active" then mret (Answered 200 existing)
      else
        now ← trigger RnUtcNow;
        r ← trigger (RnReleaseQuarantine tenant_id id status released_by now);
        match r with
        | Err _ => mret (refuse database_error)
        | Ok _ =>
            again ← trigger (RnGetQuarantine tenant_id id);
            mret (answer_row again "quarantine record not found")
        end
  end.

(** ** Commands of the caller's own *)

Definition caller_command (tenant_id : string) (req : IssueControlCommandRequest) (id : Uuid) (now : DateTime) :
    ControlCommandRecord :=
  {| cc_command_id := uuid_to_string id; cc_tenant_id := tenant_id;
     cc_target_type := icc_target_type req; cc_target_id := icc_target_id req; cc_action := icc_action req;
     cc_reason := icc_reason req; cc_issued_by := icc_issued_by req; cc_issued_at := now;
     cc_expires_at := icc_expires_at req; cc_nonce := icc_nonce req;
     cc_requires_ack := icc_requires_ack req; cc_receipt_required := icc_receipt_required req;
     cc_signature := icc_signature req; cc_status := "issued"; cc_created_at := now |}.

Definition issue_control_command (tenant_id : string) (req : IssueControlCommandRequest) :
    prog RunE (Answer ControlCommandRecord) :=
  now ← trigger RnUtcNow;
  id ← trigger RnFreshUuid;
  let record := caller_command tenant_id req id now in
  r ← trigger (RnInsertCommand record);
  mret match r with Ok _ => Answered 201 record | Err _ => Refused 409 "control command nonce already used" end.

Definition update_control_command_status (tenant_id command_id status : string) :
    prog RunE (Answer ControlCommandRecord) :=
  existing ← trigger (RnGetCommand tenant_id command_id);
  match existing with
  | Err _ => mret (refuse database_error)
  | Ok None => mret (Refused 404 "control command not found")
  | Ok (Some existing) =>
      if cc_status existing == status then mret (Answered 200 existing)
      else
        r ← trigger (RnUpdateCommand tenant_id command_id status);
        match r with
        | Err _ => mret (refuse database_error)
        | Ok _ =>
            again ← trigger (RnGetCommand tenant_id command_id);
            mret (answer_row again "control command not found")
        end
  end.
End Handlers.
End RunApi.
