(* ===== verification/RunSafety.v ===== *)
(** * Runs and their control

    What the handlers of [RunApi.v], the tables of [RunStore.v] and the sensor of
    [Sensor.v] guarantee together: a run is in the hands of one runner, a run is
    claimed only when its agent is clear, the sensor executes only commands that
    the gateway signed, and a command to kill reaches the process. *)

From S2P Require Import Prelude RustString Prog Models Records External Runtime Bans Gateway EgressApi RunStore Signing Sensor RunApi.
From stdpp Require Import gmap.

(** ** The handlers and their tables *)

Section Handlers.
Context {X : External} {HX : HostExternal} {ED : Ed25519} {RX : RunExternal}.
Context (command_signing_key : option string).

Inductive RunRequest :=
| RqCreate (tenant_id : string) (req : CreateAgentRunRequest)
| RqClaim (tenant_id run_id runner_id : string)
| RqHeartbeat (tenant_id run_id runner_id : string)
| RqStatus (tenant_id run_id : string) (req : UpdateRunStatusRequest)
| RqGet (tenant_id run_id : string)
| RqPause (tenant_id run_id : string) (req : RunControlRequest)
| RqResume (tenant_id run_id : string) (req : RunControlRequest)
| RqKill (tenant_id run_id : string) (req : RunControlRequest)
| RqQuarantine (tenant_id run_id : string) (req : RunControlRequest)
| RqBan (tenant_id : string) (req : CreateBanRequest)
| RqRevokeBan (tenant_id ban_id revoked_by : string)
| RqCreateQuarantine (tenant_id : string) (req : CreateQuarantineRequest)
| RqReleaseQuarantine (tenant_id id released_by status : string)
| RqIssue (tenant_id : string) (req : IssueControlCommandRequest)
| RqCommandStatus (tenant_id command_id status : string)
| RqIngest (tenant_id : string) (req : IngestRuntimeEventRequest).

Definition ignore {A} (p : prog RunE A) : prog RunE unit := _ ← p; mret tt.

Definition serve_run (q : RunRequest) : prog RunE unit :=
  match q with
  | RqCreate t req => ignore (RunApi.create_agent_run command_signing_key t req)
  | RqClaim t i r => ignore (RunApi.claim_run t i r)
  | RqHeartbeat t i r => ignore (RunApi.heartbeat_run t i r)
  | RqStatus t i req => ignore (RunApi.update_run_status t i req)
  | RqGet t i => ignore (RunApi.get_agent_run t i)
  | RqPause t i req => ignore (RunApi.pause_run command_signing_key t i req)
  | RqResume t i req => ignore (RunApi.resume_run command_signing_key t i req)
  | RqKill t i req => ignore (RunApi.kill_run command_signing_key t i req)
  | RqQuarantine t i req => ignore (RunApi.quarantine_run command_signing_key t i req)
  | RqBan t req => ignore (RunApi.create_ban command_signing_key t req)
  | RqRevokeBan t i u => ignore (RunApi.revoke_ban t i u)
  | RqCreateQuarantine t req => ignore (RunApi.create_quarantine t req)
  | RqReleaseQuarantine t i u s => ignore (RunApi.release_quarantine t i u s)
  | RqIssue t req => ignore (RunApi.issue_control_command t req)
  | RqCommandStatus t i s => ignore (RunApi.update_control_command_status t i s)
  | RqIngest t req => ignore (RunApi.ingest_runtime_event t req)
  end.

(** What the handler of [q] writes into the table of runs: a new run is started
    and unclaimed, a runner reports none of the states that are not its own, the
    gateway itself only quarantines, and only a request to claim claims. *)
Definition run_call (q : RunRequest) (T : Type) (e : RunE T) : Prop :=
  match e with
  | RnClaim t i r _ => q = RqClaim t i r
  | RnInsertRun run _ => arn_status run = "started" ∧ arn_claimed_by run = None
  | RnUpdateClaimed _ _ _ status _ _ => status ∈ RunApi.RUNNER_REPORTABLE_STATUSES
  | RnUpdateStatus _ _ status _ => status = "quarantined"
  | _ => True
  end.

Lemma issue_calls q key t i a req : all_calls (run_call q) (RunApi.issue_run_control_command key t i a req).
Proof. unfold RunApi.issue_run_control_command. calls; done. Qed.

Lemma kill_runs_calls q key t req l : all_calls (run_call q) (RunApi.kill_runs key t req l).
Proof.
  induction l as [|run l IH]; cbn [RunApi.kill_runs]; [done|].
  apply all_calls_bind; [apply issue_calls|by intros].
Qed.

Lemma denial_calls {A} q value (denial : string → prog RunE (Result (option (Z * string)) (Z * string)))
    (k : prog RunE (Answer A)) :
  (∀ x, all_calls (run_call q) (denial x)) → all_calls (run_call q) k →
  all_calls (run_call q) (RunApi.unless_denied value denial k).
Proof. intros Hd Hk. unfold RunApi.unless_denied. calls; auto. Qed.

Lemma serve_run_calls q : all_calls (run_call q) (serve_run q).
Proof.
  destruct q; unfold serve_run, ignore; (apply all_calls_bind; [|by intros]).
  - unfold RunApi.create_agent_run. calls; try done.
    repeat apply denial_calls; intros; [unfold RunApi.agent_ban_denial; calls; done|
      unfold RunApi.image_digest_ban_denial; calls; done|].
    calls; try done. unfold RunApi.prepare_start. calls; done.
  - unfold RunApi.claim_run. calls; try done.
    repeat apply denial_calls; intros; [unfold RunApi.agent_ban_denial; calls; done|
      unfold RunApi.image_digest_ban_denial; calls; done|].
    unfold RunApi.claim_now, RunApi.get_agent_run. calls; done.
  - unfold RunApi.heartbeat_run. calls; done.
  - unfold RunApi.update_run_status, RunApi.get_agent_run. calls; try done.
    rename select (negb _ = false) into Hs. apply negb_false_iff, existsb_exists in Hs as (s & Hin & ->%String.eqb_eq).
    by apply list_elem_of_In.
  - unfold RunApi.get_agent_run. calls; done.
  - apply all_calls_bind; [apply issue_calls|done].
  - apply all_calls_bind; [apply issue_calls|done].
  - apply all_calls_bind; [apply issue_calls|done].
  - apply all_calls_bind; [apply issue_calls|]. intros [command|e]; calls; done.
  - unfold RunApi.create_ban, RunApi.propagate_ban. calls; done || apply kill_runs_calls.
  - unfold RunApi.revoke_ban. calls; done.
  - unfold RunApi.create_quarantine. calls; done.
  - unfold RunApi.release_quarantine. calls; done.
  - unfold RunApi.issue_control_command. calls; done.
  - unfold RunApi.update_control_command_status. calls; done.
  - unfold RunApi.ingest_runtime_event. calls; done.
Qed.
End Handlers.

(** ** The tables *)

Record Tables := {
  tb_runs : list AgentRunRecord;
  tb_commands : list ControlCommandRecord;
  tb_bans : list AgentBanRecord;
  tb_quarantines : list QuarantineRecord;
  tb_events : list RuntimeEventRecord }.

Definition no_rows : Tables :=
  {| tb_runs := []; tb_commands := []; tb_bans := []; tb_quarantines := []; tb_events := [] |}.

Definition with_runs (l : list AgentRunRecord) (ts : Tables) : Tables :=
  {| tb_runs := l; tb_commands := tb_commands ts; tb_bans := tb_bans ts;
     tb_quarantines := tb_quarantines ts; tb_events := tb_events ts |}.
Definition with_commands (l : list ControlCommandRecord) (ts : Tables) : Tables :=
  {| tb_runs := tb_runs ts; tb_commands := l; tb_bans := tb_bans ts;
     tb_quarantines := tb_quarantines ts; tb_events := tb_events ts |}.
Definition with_bans (l : list AgentBanRecord) (ts : Tables) : Tables :=
  {| tb_runs := tb_runs ts; tb_commands := tb_commands ts; tb_bans := l;
     tb_quarantines := tb_quarantines ts; tb_events := tb_events ts |}.
Definition with_quarantines (l : list QuarantineRecord) (ts : Tables) : Tables :=
  {| tb_runs := tb_runs ts; tb_commands := tb_commands ts; tb_bans := tb_bans ts;
     tb_quarantines := l; tb_events := tb_events ts |}.
Definition with_events (l : list RuntimeEventRecord) (ts : Tables) : Tables :=
  {| tb_runs := tb_runs ts; tb_commands := tb_commands ts; tb_bans := tb_bans ts;
     tb_quarantines := tb_quarantines ts; tb_events := l |}.

(** An insert that can violate a key *)
Definition inserted (ts : Tables) (o : option Tables) : Fallible unit * Tables :=
  match o with Some ts' => (Ok tt, ts') | None => (Err (Internal "UNIQUE constraint failed"), ts) end.

(** What the database answers to a call, and what it leaves; the clock and the
    source of identifiers are [now] and [id]. *)
Definition db_answer {T} (now : DateTime) (id : Uuid) (e : RunE T) (ts : Tables) : T * Tables :=
  match e with
  | RnUtcNow => (now, ts)
  | RnFreshUuid => (id, ts)
  | RnIsBanned t k v at_ => (Ok (Bans.is_banned (tb_bans ts) t k v at_), ts)
  | RnIsQuarantined t k v => (Ok (Quarantine.is_quarantined (tb_quarantines ts) t k v), ts)
  | RnGetRun t i => (Ok (Runs.get_agent_run (tb_runs ts) t i), ts)
  | RnInsertRun run c =>
      inserted ts ((λ x, with_commands x.2 (with_runs x.1 ts)) <$>
        insert_agent_run_with_start_command (tb_runs ts) (tb_commands ts) run c)
  | RnClaim t i r at_ =>
      let '(b, l) := Runs.claim_agent_run (tb_runs ts) t i r at_ in (Ok b, with_runs l ts)
  | RnHeartbeat t i r at_ =>
      let '(b, l) := Runs.heartbeat_agent_run (tb_runs ts) t i r at_ in (Ok b, with_runs l ts)
  | RnUpdateClaimed t i r s f x =>
      let '(b, l) := Runs.update_claimed_agent_run_status (tb_runs ts) t i r s f x in (Ok b, with_runs l ts)
  | RnUpdateStatus t i s f =>
      let '(b, l) := Runs.update_agent_run_status (tb_runs ts) t i s f in (Ok b, with_runs l ts)
  | RnListActive t a => (Ok (Runs.list_active_agent_runs_for_agent (tb_runs ts) t a), ts)
  | RnInsertCommand c =>
      inserted ts ((λ l, with_commands l ts) <$> Commands.insert_control_command (tb_commands ts) c)
  | RnGetCommand t i => (Ok (Commands.get_control_command (tb_commands ts) t i), ts)
  | RnUpdateCommand t i s =>
      let '(b, l) := Commands.update_control_command_status (tb_commands ts) t i s in (Ok b, with_commands l ts)
  | RnInsertBan r => inserted ts ((λ l, with_bans l ts) <$> Bans.insert_ban (tb_bans ts) r)
  | RnGetBan t i => (Ok (Bans.get_ban (tb_bans ts) t i), ts)
  | RnRevokeBan t i u at_ =>
      let '(b, l) := Bans.revoke_ban (tb_bans ts) t i u at_ in (Ok b, with_bans l ts)
  | RnInsertQuarantine r =>
      inserted ts ((λ l, with_quarantines l ts) <$> Quarantine.insert_quarantine (tb_quarantines ts) r)
  | RnGetQuarantine t i => (Ok (Quarantine.get_quarantine (tb_quarantines ts) t i), ts)
  | RnReleaseQuarantine t i s u at_ =>
      let '(b, l) := Quarantine.release_quarantine (tb_quarantines ts) t i s u at_ in (Ok b, with_quarantines l ts)
  | RnInsertEvent r =>
      match Events.insert_runtime_event (tb_events ts) r with
      | Some (b, l) => (Ok b, with_events l ts)
      | None => (Err (Internal "UNIQUE constraint failed"), ts)
      end
  end.

Definition is_error {T} (e : RunE T) : T → Prop :=
  match e with
  | RnUtcNow | RnFreshUuid => λ _, False
  | _ => λ r, ∃ err, r = Err err
  end.

(** A call whose answer is an error may or may not have taken effect. *)
Definition db_step (ev : event RunE) (ts ts' : Tables) : Prop :=
  match ev with
  | Call e r => ∃ now id, (r, ts') = db_answer now id e ts ∨
                  is_error e r ∧ (ts' = ts ∨ ts' = (db_answer now id e ts).2)
  end.

(** ** One runner per run *)

Definition held (l : list AgentRunRecord) (t i r : string) : Prop :=
  ∃ row, row ∈ l ∧ Runs.is_run t i row = true ∧ arn_claimed_by row = Some r.

(** Keys are unique, and a run that is only started is nobody's. *)
Record RunsWf (l : list AgentRunRecord) : Prop := {
  rw_keys : NoDup (arn_id <$> l);
  rw_free : Forall (λ r, arn_status r = "started" → arn_claimed_by r = None) l }.

Lemma run_unique l t i r r' :
  RunsWf l → r ∈ l → r' ∈ l → Runs.is_run t i r = true → Runs.is_run t i r' = true → r = r'.
Proof.
  unfold Runs.is_run. intros [Hk _] Hr Hr' [_ Hi%String.eqb_eq]%andb_true_iff [_ Hi'%String.eqb_eq]%andb_true_iff.
  apply list_elem_of_lookup in Hr as [n Hn], Hr' as [m Hm].
  assert (n = m) as <-; [|congruence].
  apply (NoDup_lookup (arn_id <$> l) n m i); [done|rewrite list_lookup_fmap, Hn; simpl; congruence|
    rewrite list_lookup_fmap, Hm; simpl; congruence].
Qed.

Lemma held_unique l t i r r' : RunsWf l → held l t i r → held l t i r' → r = r'.
Proof.
  intros Hwf (row & Hin & Hk & Hc) (row' & Hin' & Hk' & Hc').
  pose proof (run_unique _ _ _ _ _ Hwf Hin Hin' Hk Hk') as ->. congruence.
Qed.

(** An update that keeps the key, and the runner once there is one *)
Definition keeps (sel : AgentRunRecord → bool) (f : AgentRunRecord → AgentRunRecord) : Prop :=
  (∀ r, arn_id (f r) = arn_id r ∧ arn_tenant_id (f r) = arn_tenant_id r) ∧
  (∀ r, sel r = true → (arn_status r = "started" → arn_claimed_by r = None) →
        (∀ x, arn_claimed_by r = Some x → arn_claimed_by (f r) = Some x) ∧
        (arn_status (f r) = "started" → arn_claimed_by (f r) = None)).

Lemma update_wf sel f l : keeps sel f → RunsWf l → RunsWf (update_rows sel f l).2.
Proof.
  intros [Hk Hf] [Hkeys Hfree]. constructor; unfold update_rows; cbn [snd].
  - refine (eq_ind_r NoDup Hkeys _).
    clear -Hk. induction l as [|r l IH]; [done|]. simpl. f_equal; [|exact IH].
    destruct (sel r); [|done]. by destruct (Hk r).
  - clear Hkeys. induction Hfree as [|r l Hr _ IH]; simpl; constructor; [|done].
    destruct (sel r) eqn:Hs; [|done]. by apply Hf.
Qed.

Lemma update_keeps_held sel f l t i r :
  keeps sel f → RunsWf l → held l t i r → held (update_rows sel f l).2 t i r.
Proof.
  intros [Hk Hf] [_ Hfree] (row & Hin & Hkey & Hc). unfold held, update_rows. cbn [snd].
  rewrite Forall_forall in Hfree. exists (if sel row then f row else row).
  split; [by apply (list_elem_of_fmap_2 (λ r, if sel r then f r else r))|].
  destruct (sel row) eqn:Hs; [|done]. destruct (Hk row) as [Hi Ht]. split.
  - unfold Runs.is_run in *. by rewrite Hi, Ht.
  - by apply (proj1 (Hf row Hs (Hfree row Hin))).
Qed.

Lemma update_one_true sel f l l' :
  Runs.update_one sel f l = (true, l') → ∃ row, row ∈ l ∧ sel row = true ∧ f row ∈ l'.
Proof.
  unfold Runs.update_one, update_rows. intros [= Hn <-].
  apply Nat.eqb_eq in Hn. destruct (filter (λ r, sel r = true) l) as [|row k] eqn:Hf; [done|].
  assert (row ∈ filter (λ r, sel r = true) l) as [Hs Hin]%list_elem_of_filter by (rewrite Hf; by left).
  exists row. split; [done|]. split; [done|].
  pose proof (list_elem_of_fmap_2 (λ r, if sel r then f r else r) l row Hin) as H. simpl in H.
  by rewrite Hs in H.
Qed.

Lemma update_one_rows sel f l : (Runs.update_one sel f l).2 = (update_rows sel f l).2.
Proof. done. Qed.

(** ** The statements of the table *)

Lemma status_keeps t i s fin : s ≠ "started" →
  keeps (Runs.is_run t i) (λ r, Runs.with_columns s (coalesce fin (arn_finished_at r)) (arn_claimed_by r)
            (arn_claimed_at r) (arn_last_heartbeat_at r) (arn_exit_code r) r).
Proof. intros Hs. split; [done|]. intros r _ Hr. by split. Qed.

Lemma claim_keeps t i r now :
  keeps (λ x, Runs.is_run t i x && Runs.claimable x)
    (λ x, Runs.with_columns "claimed" (arn_finished_at x) (Some r) (Some now)
            (arn_last_heartbeat_at x) (arn_exit_code x) x).
Proof.
  split; [done|]. intros x [_ [Hs%String.eqb_eq _]%andb_true_iff]%andb_true_iff Hx.
  split; [|done]. intros y Hy. rewrite (Hx Hs) in Hy. done.
Qed.

Lemma heartbeat_keeps sel now :
  keeps sel (λ r, Runs.with_columns (arn_status r) (arn_finished_at r) (arn_claimed_by r) (arn_claimed_at r)
            (Some now) (arn_exit_code r) r).
Proof. split; [done|]. intros r _ Hr. by split. Qed.

Lemma report_keeps sel s fin code :
  s ∈ RunApi.RUNNER_REPORTABLE_STATUSES →
  keeps sel (λ r, Runs.with_columns s (coalesce fin (arn_finished_at r)) (arn_claimed_by r)
            (arn_claimed_at r) (arn_last_heartbeat_at r) (coalesce code (arn_exit_code r)) r).
Proof.
  intros Hs. split; [done|]. intros r _ Hr. split; [done|]. simpl. intros ->.
  by repeat (apply elem_of_cons in Hs as [Hs|Hs]; [done|]); apply elem_of_nil in Hs.
Qed.

Lemma stale_keeps sel :
  keeps sel (λ r, Runs.with_columns "stalled" (arn_finished_at r) (arn_claimed_by r) (arn_claimed_at r)
            (arn_last_heartbeat_at r) (arn_exit_code r) r).
Proof. split; [done|]. intros r _ Hr. by split. Qed.

Lemma insert_wf l r l' :
  RunsWf l → arn_status r = "started" ∧ arn_claimed_by r = None → Runs.insert_agent_run l r = Some l' →
  RunsWf l' ∧ ∀ t i x, held l t i x → held l' t i x.
Proof.
  intros [Hk Hf] [Hs Hc]. unfold Runs.insert_agent_run. destruct (existsb _ l) eqn:He; [done|].
  intros [= <-]. split.
  - constructor; [|apply Forall_app; split; [done|by constructor]].
    rewrite fmap_app. apply NoDup_app. split; [done|]. split; [|apply NoDup_singleton].
    intros id Hin Hid%list_elem_of_singleton. apply list_elem_of_fmap in Hin as (r' & -> & Hr').
    assert (existsb (λ r0, (arn_id r0 == arn_id r) || ((arn_tenant_id r0 == arn_tenant_id r) &&
      (arn_run_key r0 == arn_run_key r))) l = true) as Hx; [|congruence].
    apply existsb_exists. exists r'. split; [by apply list_elem_of_In|]. by rewrite Hid, String.eqb_refl.
  - intros t i x (row & Hin & H). exists row. split; [|done]. apply elem_of_app. by left.
Qed.

(** The claim an answer says somebody holds: whether it was taken by this call,
    the run and the runner *)
Definition holder_of (ev : event RunE) : option (bool * string * string * string) :=
  match ev with
  | Call e r =>
      match e in RunE T return T → _ with
      | RnClaim t i r _ => λ a, match a with Ok true => Some (true, t, i, r) | _ => None end
      | RnHeartbeat t i r _ => λ a, match a with Ok true => Some (false, t, i, r) | _ => None end
      | RnUpdateClaimed t i r _ _ _ => λ a, match a with Ok true => Some (false, t, i, r) | _ => None end
      | _ => λ _, None
      end r
  end.

Lemma claim_true l t i r now l' :
  RunsWf l → Runs.claim_agent_run l t i r now = (true, l') → held l' t i r ∧ ∀ x, ~ held l t i x.
Proof.
  intros Hwf (row & Hin & [Hk [Hs%String.eqb_eq _]%andb_true_iff]%andb_true_iff & Hin')%update_one_true.
  split.
  - eexists. split; [exact Hin'|]. done.
  - intros x (row' & Hr' & Hk' & Hc). pose proof (run_unique _ _ _ _ _ Hwf Hin Hr' Hk Hk') as <-.
    destruct Hwf as [_ Hfree]. rewrite Forall_forall in Hfree. rewrite (Hfree row Hin Hs) in Hc. done.
Qed.

Lemma held_by_held t i r row l : row ∈ l → Runs.is_run t i row = true → Runs.held_by r row = true → held l t i r.
Proof.
  intros Hin Hk Hh. exists row. split; [done|]. split; [done|]. unfold Runs.held_by in Hh.
  destruct (arn_claimed_by row); [|done]. by apply String.eqb_eq in Hh as ->.
Qed.

Definition RunsKept (l l' : list AgentRunRecord) : Prop :=
  RunsWf l' ∧ ∀ t i x, held l t i x → held l' t i x.

Lemma update_kept sel f l : keeps sel f → RunsWf l → RunsKept l (update_rows sel f l).2.
Proof. intros Hk Hwf. split; [by apply update_wf|]. intros t i x. by apply update_keeps_held. Qed.

Lemma answer_kept q now id T (e : RunE T) ts :
  run_call q T e → RunsWf (tb_runs ts) → RunsKept (tb_runs ts) (tb_runs (db_answer now id e ts).2).
Proof.
  intros Hc Hwf. assert (RunsKept (tb_runs ts) (tb_runs ts)) as Hid by (by split).
  destruct e; simpl in *; try exact Hid.
  - destruct (insert_agent_run_with_start_command _ _ run start_command) as [[l c]|] eqn:Hi; [|exact Hid].
    unfold insert_agent_run_with_start_command in Hi. apply bind_Some in Hi as (l0 & Hl & Hi).
    apply bind_Some in Hi as (c0 & _ & [= <- <-]). simpl. by eapply insert_wf.
  - apply update_kept; [apply claim_keeps|done].
  - apply update_kept; [apply heartbeat_keeps|done].
  - apply update_kept; [by apply report_keeps|done].
  - subst status. apply update_kept; [by apply status_keeps|done].
  - by destruct (Commands.insert_control_command _ _).
  - by destruct (Bans.insert_ban _ _).
  - by destruct (Quarantine.insert_quarantine _ _).
  - by destruct (Events.insert_runtime_event _ _) as [[]|].
Qed.

Lemma step_kept q T (e : RunE T) r ts ts' :
  run_call q T e → RunsWf (tb_runs ts) → db_step (Call e r) ts ts' → RunsKept (tb_runs ts) (tb_runs ts').
Proof.
  intros Hc Hwf (now & id & [Heq|(_ & [->| ->])]); [| |by eapply answer_kept]; [|by split].
  pose proof (answer_kept q now id T e ts Hc Hwf) as H. by rewrite <- Heq in H.
Qed.

Lemma step_holder ev ts ts' c t i x :
  RunsWf (tb_runs ts) → db_step ev ts ts' → holder_of ev = Some (c, t, i, x) →
  held (tb_runs ts') t i x ∧ if c then ∀ y, ~ held (tb_runs ts) t i y else held (tb_runs ts) t i x.
Proof.
  intros Hwf Hs Hh. destruct ev as [T e r]. destruct e; try done; simpl in Hh, r;
    (destruct r as [[]|]; try done); injection Hh as <- <- <- <-;
    destruct Hs as (now' & id & [Heq|[[err [=]] _]]); cbn [db_answer] in Heq.
  - destruct (Runs.claim_agent_run _ _ _ _ _) as [b l] eqn:Hu. injection Heq as <- ->. by eapply claim_true.
  - destruct (Runs.heartbeat_agent_run _ _ _ _ _) as [b l] eqn:Hu. injection Heq as <- ->.
    apply update_one_true in Hu as (row & Hin & [[Hk Hb]%andb_true_iff _]%andb_true_iff & Hin').
    split; [|by eapply held_by_held]. by eapply (held_by_held _ _ _ _ _ Hin').
  - destruct (Runs.update_claimed_agent_run_status _ _ _ _ _ _ _) as [b l] eqn:Hu. injection Heq as <- ->.
    apply update_one_true in Hu as (row & Hin & [Hk Hb]%andb_true_iff & Hin').
    split; [|by eapply held_by_held]. by eapply (held_by_held _ _ _ _ _ Hin').
Qed.

(** ** Any number of handlers at once *)

(** What happened, in order: a call of a handler with its answer, or a run of
    the lease sweep. *)
Inductive RunItem :=
| OfRun (handler : nat) (ev : event RunE)
| Sweep (threshold : DateTime).

Definition run_calls_of (h : nat) (w : list RunItem) : list (event RunE) :=
  omap (λ x, match x with OfRun h' ev => if decide (h' = h) then Some ev else None | Sweep _ => None end) w.

Definition item_step (x : RunItem) (ts ts' : Tables) : Prop :=
  match x with
  | OfRun _ ev => db_step ev ts ts'
  | Sweep threshold => ts' = with_runs (Runs.mark_stale_agent_runs_stalled (tb_runs ts) threshold).2 ts
  end.

(** The log [w] can happen, from empty tables, and leaves [ts]. *)
Inductive run_system : list RunItem → Tables → Prop :=
| RsStart : run_system [] no_rows
| RsStep w ts x ts' : run_system w ts → item_step x ts ts' → run_system (w ++ [x]) ts'.

Section System.
Context {X : External} {HX : HostExternal} {ED : Ed25519} {RX : RunExternal}.
Context (command_signing_key : option string) (pool : nat → RunRequest).

(** Every handler serves the request it was started for. *)
Definition serving_pool (w : list RunItem) : Prop :=
  ∀ h, partial (serve_run command_signing_key (pool h)) (run_calls_of h w).

Lemma partial_all_calls {E : Type → Type} {A} (P : ∀ T, E T → Prop) (p : prog E A) t :
  all_calls P p → partial p t → Forall (event_sat P) t.
Proof.
  revert t. induction p as [x|T e k IH]; intros t; simpl; [by intros _ ->|].
  intros [He Hk] [->|(r & t' & -> & Ht)]; [done|]. constructor; [done|]. by apply (IH r).
Qed.

Lemma partial_prefix {E : Type → Type} {A} (p : prog E A) t1 t2 : partial p (t1 ++ t2) → partial p t1.
Proof.
  revert t1. induction p as [x|T e k IH]; intros t1; simpl.
  - by intros [-> _]%app_eq_nil.
  - destruct t1 as [|ev t1]; [by left|]. intros [?|(r & t' & Heq & Ht)]; [done|].
    right. simpl in Heq. pose proof (f_equal tail Heq) as Htl. simpl in Htl. subst t'.
    pose proof (f_equal head Heq) as Hhd. simpl in Hhd. injection Hhd as ->.
    exists r, t1. split; [done|]. by eapply IH.
Qed.

Lemma run_calls_of_app h w w' : run_calls_of h (w ++ w') = run_calls_of h w ++ run_calls_of h w'.
Proof. apply omap_app. Qed.

Lemma serving_prefix w x : serving_pool (w ++ [x]) → serving_pool w.
Proof. intros H h. specialize (H h). rewrite run_calls_of_app in H. by eapply partial_prefix. Qed.

Lemma serving_call w h ev : serving_pool (w ++ [OfRun h ev]) → event_sat (run_call (pool h)) ev.
Proof.
  intros H. specialize (H h). eapply partial_all_calls in H; [|apply serve_run_calls].
  rewrite run_calls_of_app in H. apply Forall_app in H as [_ H]. simpl in H.
  rewrite decide_True in H by done. by inv H.
Qed.

Lemma system_holders w ts :
  run_system w ts → serving_pool w →
  RunsWf (tb_runs ts) ∧
  (∀ h ev c t i x, OfRun h ev ∈ w → holder_of ev = Some (c, t, i, x) → held (tb_runs ts) t i x).
Proof.
  induction 1 as [|w ts x ts' _ IH Hs]; intros Hp.
  { split; [by constructor; constructor|]. by intros ? ? ? ? ? ? ?%elem_of_nil. }
  destruct (IH (serving_prefix _ _ Hp)) as [Hwf Hold].
  assert (RunsKept (tb_runs ts) (tb_runs ts')) as [Hwf' Hkept].
  { destruct x as [h [T e r]|threshold]; simpl in Hs.
    - eapply step_kept; [exact (serving_call _ _ _ Hp)|done|exact Hs].
    - subst ts'. apply update_kept; [apply stale_keeps|done]. }
  split; [done|]. intros h ev c t i y [Hin|Hin%list_elem_of_singleton]%elem_of_app Hh; [eauto|].
  subst x. simpl in Hs. by apply (step_holder _ _ _ _ _ _ _ Hwf Hs Hh).
Qed.

(** C23: a run is in the hands of one runner.  However the requests to create,
    claim, renew, report, control and ban interleave, call by call, and whenever
    the lease sweep runs and calls fail: when the database has told a runner
    that it holds a run (a claim, a renewed lease, an accepted report), every
    later such answer for that run is given to the same runner, and none of
    them is a claim. *)
Theorem one_runner_per_run w ts n m h h' ev ev' c c' t i r r' :
  run_system w ts → serving_pool w → (n < m)%nat →
  w !! n = Some (OfRun h ev) → w !! m = Some (OfRun h' ev') →
  holder_of ev = Some (c, t, i, r) → holder_of ev' = Some (c', t, i, r') →
  r' = r ∧ c' = false.
Proof.
  intros Hsys. revert n m h h' ev ev' c c' r r'.
  induction Hsys as [|w ts x ts' Hsys IH Hs]; intros n m h h' ev ev' c c' r r' Hp Hnm Hn Hm Hh Hh'; [done|].
  pose proof (serving_prefix _ _ Hp) as Hp'.
  destruct (decide (m < length w)%nat) as [Hlt|Hge].
  { rewrite lookup_app_l in Hn, Hm by lia. exact (IH n m h h' ev ev' c c' r r' Hp' Hnm Hn Hm Hh Hh'). }
  apply lookup_lt_Some in Hm as Hml. rewrite length_app in Hml. simpl in Hml.
  assert (m = length w) as -> by lia. rewrite lookup_app_l in Hn by lia.
  rewrite list_lookup_middle in Hm by done. injection Hm as ->. simpl in Hs.
  destruct (system_holders _ _ Hsys Hp') as [Hwf Hold].
  assert (held (tb_runs ts) t i r) as Hr by (eapply Hold; [by eapply list_elem_of_lookup_2|done]).
  destruct (step_holder _ _ _ _ _ _ _ Hwf Hs Hh') as [_ Hc]. destruct c'; [by destruct (Hc r Hr)|].
  split; [|done]. by eapply held_unique.
Qed.
End System.

(** ** A claim is made for a run that is clear *)

(** What a handler has to have seen before it claims a run *)
Definition cleared (s : list (event RunE)) (t i : string) : Prop :=
  ∃ run, Call (RnGetRun t i) (Ok (Some run)) ∈ s ∧
    (∀ a, arn_agent_id run = Some a →
       (∃ n, Call RnUtcNow n ∈ s ∧ Call (RnIsBanned t "agent" a n) (Ok false) ∈ s) ∧
       Call (RnIsQuarantined t "agent" a) (Ok false) ∈ s) ∧
    (∀ d, arn_image_digest run = Some d →
       ∃ n, Call RnUtcNow n ∈ s ∧ Call (RnIsBanned t "image_digest" d n) (Ok false) ∈ s) ∧
    Call (RnIsQuarantined t "run" i) (Ok false) ∈ s.

Definition claims_cleared (s : list (event RunE)) (T : Type) (e : RunE T) : Prop :=
  match e with RnClaim t i _ _ => cleared s t i | _ => True end.

Lemma unless_denied_safe {A} C (Q : list (event RunE) → Answer A → Prop) s value denial k :
  (∀ s a, Q s a) → (value = None → safe (Prog.checked C) Q s k) →
  (∀ x, value = Some x →
    safe (Prog.checked C) (λ s' r, r = Ok None → safe (Prog.checked C) Q s' k) s (denial x)) →
  safe (Prog.checked C) Q s (RunApi.unless_denied value denial k).
Proof.
  intros HQ Hn Hs. unfold RunApi.unless_denied. destruct value as [x|]; [|auto].
  eapply safe_mbind; [apply checked_monotone|by apply Hs|].
  intros s' [[e|]|e] H; simpl; auto.
Qed.

Ltac found := rewrite ?elem_of_app, ?list_elem_of_singleton; tauto.

Lemma agent_denial_safe s t a :
  safe (Prog.checked claims_cleared) (λ s' r, s ⊆ s' ∧ (r = Ok None →
      (∃ n, Call RnUtcNow n ∈ s' ∧ Call (RnIsBanned t "agent" a n) (Ok false) ∈ s') ∧
      Call (RnIsQuarantined t "agent" a) (Ok false) ∈ s')) s (RunApi.agent_ban_denial t a).
Proof.
  unfold RunApi.agent_ban_denial. simpl. split; [done|]. intros now. split; [done|].
  intros [banned|e]; (split; [done|]); intros [quarantined|e']; simpl; (split; [set_solver|]); try done.
  destruct banned, quarantined; try done. intros _. split; [exists now; split|]; found.
Qed.

Lemma digest_denial_safe s t d :
  safe (Prog.checked claims_cleared) (λ s' r, s ⊆ s' ∧ (r = Ok None →
      ∃ n, Call RnUtcNow n ∈ s' ∧ Call (RnIsBanned t "image_digest" d n) (Ok false) ∈ s')) s (RunApi.image_digest_ban_denial t d).
Proof.
  unfold RunApi.image_digest_ban_denial. simpl. split; [done|]. intros now. split; [done|].
  intros [[]|e]; simpl; (split; [set_solver|]); try done. intros _. exists now. split; found.
Qed.

Lemma claim_run_safe t i r : safe (Prog.checked claims_cleared) (λ _ _, True) [] (RunApi.claim_run t i r).
Proof.
  unfold RunApi.claim_run. cbn [mbind prog_mbind trigger prog_bind safe]. split; [done|].
  intros [[run|]|e]; try done. set (s0 := [] ++ [_]).
  assert (Call (RnGetRun t i) (Ok (Some run)) ∈ s0) as H0 by (unfold s0; found).
  (* the checks on the agent, then on the image, then on the run *)
  assert (∀ s1, s0 ⊆ s1 → (∀ a, arn_agent_id run = Some a →
      (∃ n, Call RnUtcNow n ∈ s1 ∧ Call (RnIsBanned t "agent" a n) (Ok false) ∈ s1) ∧
      Call (RnIsQuarantined t "agent" a) (Ok false) ∈ s1) →
    safe (Prog.checked claims_cleared) (λ _ _, True) s1
      (RunApi.unless_denied (arn_image_digest run) (RunApi.image_digest_ban_denial t)
        (q ← trigger (RnIsQuarantined t "run" i);
         match q with
         | Ok true => mret (Refused 403 "run is quarantined; claim denied (fail-closed)")
         | Ok false => RunApi.claim_now t i r
         | Err _ => mret (RunApi.refuse RunApi.database_error)
         end))) as Himage.
  { intros s1 Hs1 Ha.
    assert (∀ s2, s1 ⊆ s2 → (∀ d, arn_image_digest run = Some d →
        ∃ n, Call RnUtcNow n ∈ s2 ∧ Call (RnIsBanned t "image_digest" d n) (Ok false) ∈ s2) →
      safe (Prog.checked claims_cleared) (λ _ _, True) s2
        (q ← trigger (RnIsQuarantined t "run" i);
         match q with
         | Ok true => mret (Refused 403 "run is quarantined; claim denied (fail-closed)")
         | Ok false => RunApi.claim_now t i r
         | Err _ => mret (RunApi.refuse RunApi.database_error)
         end)) as Hrun.
    { intros s2 Hs2 Hd. simpl. split; [done|]. intros [[]|e]; try done. simpl. split; [done|]. intros now.
      split; [|intros [[]|e]; simpl; done].
      exists run. split_and!.
      - set_solver.
      - intros a Hag. destruct (Ha a Hag) as [(n & Hu & Hn) Hq]. split; [exists n; split|]; set_solver.
      - intros d Hdg. destruct (Hd d Hdg) as (n & Hu & Hn). exists n. split; set_solver.
      - set_solver. }
    apply unless_denied_safe; [done|intros Hn; apply Hrun; [done|congruence]|].
    intros d Hd. eapply safe_impl; [apply checked_monotone| |apply digest_denial_safe].
    intros s2 o [Hsub Ho] Hok. apply Hrun; [done|]. intros d' Hd'. rewrite Hd in Hd'. injection Hd' as <-. auto. }
  apply unless_denied_safe; [done|intros Hn; apply Himage; [done|congruence]|].
  intros a Ha. eapply safe_impl; [apply checked_monotone| |apply agent_denial_safe].
  intros s1 o [Hsub Ho] Hok. apply Himage; [done|]. intros a' Ha'. rewrite Ha in Ha'. injection Ha' as <-. auto.
Qed.

Section Clearance.
Context {X : External} {HX : HostExternal} {ED : Ed25519} {RX : RunExternal}.
Context (command_signing_key : option string) (pool : nat → RunRequest).

Lemma serve_run_safe q : safe (Prog.checked claims_cleared) (λ _ _, True) [] (serve_run command_signing_key q).
Proof.
  assert ((∃ t i r, q = RqClaim t i r) ∨ ∀ t i r, q ≠ RqClaim t i r) as [(t & i & r & ->)|Hq]
    by (destruct q; naive_solver).
  { eapply safe_mbind; [apply checked_monotone|apply claim_run_safe|]. done. }
  eapply safe_impl; [apply checked_monotone| |apply (all_calls_checked (run_call q)); [|apply serve_run_calls]]; [done|].
  intros s T e He. destruct e; try done. by destruct (Hq _ _ _ He).
Qed.

(** [P] held of the tables at some moment before the [n]th item of the log. *)
Definition once (w : list RunItem) (n : nat) (P : Tables → Prop) : Prop :=
  ∃ p ts, (p < n)%nat ∧ run_system (take p w) ts ∧ P ts.

Lemma system_prefix w ts p : run_system w ts → (p < length w)%nat →
  ∃ x ts1 ts2, w !! p = Some x ∧ run_system (take p w) ts1 ∧ item_step x ts1 ts2.
Proof.
  induction 1 as [|w ts x ts' Hsys IH Hs]; intros Hp; [simpl in Hp; lia|].
  rewrite length_app in Hp. simpl in Hp. destruct (decide (p < length w)%nat) as [Hlt|Hge].
  - destruct (IH Hlt) as (y & ts1 & ts2 & Hy & H1 & H2). exists y, ts1, ts2.
    rewrite lookup_app_l, take_app_le by lia. done.
  - assert (p = length w) as -> by lia. exists x, ts, ts'.
    by rewrite list_lookup_middle, take_app_length.
Qed.

(** What a handler was told held of the tables when it was told. *)
Lemma told w ts h n ev (P : Tables → Prop) :
  run_system w ts → ev ∈ run_calls_of h (take n w) →
  (∀ ts1 ts2, db_step ev ts1 ts2 → P ts1) → once w n P.
Proof.
  intros Hsys Hin HP. apply list_elem_of_omap in Hin as (x & Hx & Hev).
  apply list_elem_of_lookup in Hx as [p Hp]. apply lookup_take_Some in Hp as [Hp Hn].
  destruct x as [h' ev'|]; [|done]. destruct (decide (h' = h)); [|done]. injection Hev as ->.
  destruct (system_prefix _ _ p Hsys) as (y & ts1 & ts2 & Hy & H1 & H2); [by eapply lookup_lt_Some|].
  rewrite Hp in Hy. injection Hy as <-. exists p, ts1. eauto.
Qed.

(** C24: a run is claimed only when it is clear.  In every interleaving of the
    handlers, when a claim reaches the database, the handler has before seen the
    run in the table, and before that, each at some moment, the tables had no
    ban of the run's agent and none of its image in force at a time the handler
    read from the clock, no quarantine of the agent and none of the run itself. *)
Theorem claimed_run_was_cleared w ts n h t i r now a :
  run_system w ts → serving_pool command_signing_key pool w →
  w !! n = Some (OfRun h (Call (RnClaim t i r now) a)) →
  ∃ run, once w n (λ ts, Runs.get_agent_run (tb_runs ts) t i = Some run) ∧
    (∀ agent, arn_agent_id run = Some agent →
       (∃ at_, Call RnUtcNow at_ ∈ run_calls_of h (take n w) ∧
          once w n (λ ts, Bans.is_banned (tb_bans ts) t "agent" agent at_ = false)) ∧
       once w n (λ ts, Quarantine.is_quarantined (tb_quarantines ts) t "agent" agent = false)) ∧
    (∀ digest, arn_image_digest run = Some digest →
       ∃ at_, Call RnUtcNow at_ ∈ run_calls_of h (take n w) ∧
         once w n (λ ts, Bans.is_banned (tb_bans ts) t "image_digest" digest at_ = false)) ∧
    once w n (λ ts, Quarantine.is_quarantined (tb_quarantines ts) t "run" i = false).
Proof.
  intros Hsys Hp Hn. specialize (Hp h). rewrite <- (take_drop_middle w n _ Hn), run_calls_of_app in Hp.
  cbn [run_calls_of omap list_omap] in Hp. rewrite decide_True in Hp by done.
  eapply checked_partial in Hp; [|apply serve_run_safe]. simpl in Hp.
  destruct Hp as (run & Hrun & Hag & Hdg & Hq). exists run.
  assert (∀ ev P, ev ∈ run_calls_of h (take n w) → (∀ ts1 ts2, db_step ev ts1 ts2 → P ts1) → once w n P) as Ht
    by (intros; by eapply told).
  split_and!.
  - eapply Ht; [exact Hrun|]. intros ts1 ts2 (n' & id & [Heq|[[e [=]] _]]). by injection Heq.
  - intros ag Ha. destruct (Hag ag Ha) as [(n' & Hu & Hb) Hqa]. split.
    + exists n'. split; [done|]. eapply Ht; [exact Hb|]. intros ts1 ts2 (n2 & id & [Heq|[[e [=]] _]]). by injection Heq.
    + eapply Ht; [exact Hqa|]. intros ts1 ts2 (n2 & id & [Heq|[[e [=]] _]]). by injection Heq.
  - intros d Hd. destruct (Hdg d Hd) as (n' & Hu & Hb). exists n'. split; [done|]. eapply Ht; [exact Hb|].
    intros ts1 ts2 (n2 & id & [Heq|[[e [=]] _]]). by injection Heq.
  - eapply Ht; [exact Hq|]. intros ts1 ts2 (n' & id & [Heq|[[e [=]] _]]). by injection Heq.
Qed.
End Clearance.
