(* ===== verification/CommandSafety.v ===== *)
(** * From the operator to the process

    The sensor executes only commands the gateway signed, each once, and a
    command to kill that the gateway has issued reaches the process of the run. *)

From S2P Require Import Prelude RustString Prog Models Records External Runtime Gateway EgressApi RunStore Signing Sensor RunApi.
From stdpp Require Import gmap.

Section Commands.
Context {X : External} {HX : HostExternal} {ED : Ed25519}.

Abbreviation Receiver := Signing.CommandReceiver.

(** The commands a trace executes, in order *)
Definition executed (t : list (event Poll.PollE)) : list SignedCommand :=
  omap (λ ev, match ev with
              | Call e r => match e in Poll.PollE T return T → _ with
                            | Poll.Execute cmd => λ _, Some cmd
                            | _ => λ _, None
                            end r
              end) t.

Lemma executed_app t t' : executed (t ++ t') = executed t ++ executed t'.
Proof. apply omap_app. Qed.

Definition listed (t : list (event Poll.PollE)) (cmd : SignedCommand) : Prop :=
  ∃ cmds, Call (Poll.OnClient Poll.ListCommands) (Ok cmds) ∈ t ∧ cmd ∈ cmds.

(** From [r] to [r'] the receiver executed commands that are authentic, each with
    a nonce that was new and is remembered. *)
Record Faithful (P : SignedCommand → Prop) (r : Receiver) (t : list (event Poll.PollE)) (r' : Receiver) : Prop := {
  fa_key : Signing.cr_verifying_key r' = Signing.cr_verifying_key r;
  fa_tenant : Signing.cr_tenant_id r' = Signing.cr_tenant_id r;
  fa_seen : Signing.cr_seen_nonces r ⊆ Signing.cr_seen_nonces r';
  fa_once : NoDup (sc_nonce <$> executed t);
  fa_each : Forall (λ cmd, P cmd ∧
      sc_nonce cmd ∉ Signing.cr_seen_nonces r ∧ sc_nonce cmd ∈ Signing.cr_seen_nonces r' ∧
      ∃ now, Call (Poll.OnClient Poll.PollUtcNow) now ∈ t ∧ Signing.authentic r cmd now) (executed t) }.

Lemma faithful_nothing P r t : executed t = [] → Faithful P r t r.
Proof. intros Ht. constructor; rewrite ?Ht; try done. constructor. Qed.

Lemma authentic_same r r' cmd now :
  Signing.cr_verifying_key r' = Signing.cr_verifying_key r → Signing.cr_tenant_id r' = Signing.cr_tenant_id r →
  Signing.authentic r' cmd now → Signing.authentic r cmd now.
Proof. unfold Signing.authentic. by intros -> ->. Qed.

Lemma faithful_app (P : SignedCommand → Prop) r t r1 t' r2 :
  Faithful P r t r1 → Faithful P r1 t' r2 → Faithful P r (t ++ t') r2.
Proof.
  intros [K1 T1 S1 O1 E1] [K2 T2 S2 O2 E2]. constructor; rewrite ?executed_app.
  - congruence.
  - congruence.
  - set_solver.
  - rewrite fmap_app. apply NoDup_app. split; [done|]. split; [|done].
    intros x (c & -> & Hc)%list_elem_of_fmap (c' & Heq & Hc')%list_elem_of_fmap.
    rewrite Forall_forall in E1, E2. destruct (E1 _ Hc) as (_ & _ & Hin & _), (E2 _ Hc') as (_ & Hnin & _).
    rewrite Heq in Hin. done.
  - apply Forall_app. split.
    + eapply list.Forall_impl; [exact E1|]. intros c (HP & Hn & Hi & now & Hnow & Ha).
      split; [done|]. split; [done|]. split; [set_solver|]. exists now. split; [|done]. apply elem_of_app. by left.
    + eapply list.Forall_impl; [exact E2|]. intros c (HP & Hn & Hi & now & Hnow & Ha).
      split; [done|]. split; [set_solver|]. split; [done|]. exists now. split; [apply elem_of_app; by right|].
      by eapply authentic_same.
Qed.

Lemma faithful_impl (P Q : SignedCommand → Prop) r t r' :
  (∀ c, P c → Q c) → Faithful P r t r' → Faithful Q r t r'.
Proof.
  intros H [K1 T1 S1 O1 E1]. constructor; try done. eapply list.Forall_impl; [exact E1|]. naive_solver.
Qed.

Lemma process_command_faithful (P : SignedCommand → Prop) cmd r t r' :
  P cmd → runs (Poll.process_command cmd r) t r' → Faithful P r t r'.
Proof.
  intros HP H. unfold Poll.process_command in H. prog_step H.
  destruct (Signing.verify r cmd r0) as [v rec] eqn:Hv.
  apply runs_bind in H as (t1 & status & t2 & -> & H1 & H). destruct v as [[]|e].
  - apply Signing.verify_ok in Hv as (Ha & Hn & ->). prog_run H1. prog_run H. subst.
    constructor; simpl; try done; [set_solver|apply NoDup_singleton|].
    constructor; [|done]. split; [done|]. split; [done|]. split; [set_solver|].
    exists r0. split; [by left|done].
  - apply Signing.verify_err in Hv as ->. prog_run H1. prog_run H. subst. by apply faithful_nothing.
Qed.

Lemma addressed_runs sid c t b : runs (Poll.addressed sid c) t b → executed t = [] ∧ (b = true → sc_status c = "issued").
Proof.
  unfold Poll.addressed. destruct (String.eqb_spec (sc_status c) "issued") as [Hs|Hs]; cbn [negb];
    intros H; prog_run H; subst; done.
Qed.

Lemma process_commands_faithful sid cmds r t r' :
  runs (Poll.process_commands sid cmds r) t r' →
  Faithful (λ c, sc_status c = "issued" ∧ c ∈ cmds) r t r'.
Proof.
  revert r t. induction cmds as [|c cmds IH]; intros r t H; cbn [Poll.process_commands] in H.
  { destruct H as [-> ->]. by apply faithful_nothing. }
  apply runs_bind in H as (t1 & b & t2 & -> & H1 & H). apply runs_bind in H as (t3 & r1 & t4 & -> & H3 & H4).
  apply addressed_runs in H1 as [He Hb]. apply (faithful_app _ _ _ r); [by apply faithful_nothing|].
  apply (faithful_app _ _ _ r1).
  - destruct b; [|destruct H3 as [-> ->]; by apply faithful_nothing].
    apply (process_command_faithful _ c); [|done]. split; [auto|by left].
  - eapply faithful_impl; [|by apply IH]. intros c' [? ?]. split; [done|by right].
Qed.

Lemma poll_faithful sid r t r' :
  runs (Poll.poll_and_process_commands sid r) t r' →
  Faithful (λ c, sc_status c = "issued" ∧ listed t c) r t r'.
Proof.
  intros H. apply runs_bind in H as (t1 & a & t2 & -> & H1 & H). apply runs_trigger in H1 as ->.
  apply (faithful_app _ _ _ r); [by apply faithful_nothing|].
  destruct a as [cmds|e]; [|destruct H as [-> ->]; by apply faithful_nothing].
  eapply faithful_impl; [|by eapply process_commands_faithful]. intros c [Hs Hc]. split; [done|].
  exists cmds. split; [by left|done].
Qed.

(** C22: the sensor executes only what the gateway has signed, and once.  Over any
    number of polls, whatever the gateway's answers, the clock and the processes
    do: every command that is executed was in a list the gateway answered, as
    issued, carries a signature of its own contents by the pinned key, is for
    the tenant of the sensor and had not expired when it was looked at; no two
    of them have the same nonce, and none has one that was seen before. *)
Theorem executed_commands_are_authentic n sid r t r' :
  runs (Poll.polls n sid r) t r' →
  NoDup (sc_nonce <$> executed t) ∧
  ∀ cmd, cmd ∈ executed t →
    sc_status cmd = "issued" ∧ listed t cmd ∧ sc_nonce cmd ∉ Signing.cr_seen_nonces r ∧
    ∃ now, Call (Poll.OnClient Poll.PollUtcNow) now ∈ t ∧ Signing.authentic r cmd now.
Proof.
  assert (∀ t0, t0 ⊆ t → runs (Poll.polls n sid r) t0 r' →
    Faithful (λ c, sc_status c = "issued" ∧ listed t c) r t0 r') as H.
  { revert r. induction n as [|n IH]; intros r t0 Hsub H; cbn [Poll.polls] in H.
    - destruct H as [-> ->]. by apply faithful_nothing.
    - apply runs_bind in H as (t1 & r1 & t2 & -> & H1 & H2). apply (faithful_app _ _ _ r1).
      + eapply faithful_impl; [|by eapply poll_faithful]. intros c [Hs (cmds & Hc & Hin)]. split; [done|].
        exists cmds. split; [set_solver|done].
      + apply IH; [set_solver|done]. }
  intros Hr. destruct (H t ltac:(done) Hr) as [_ _ _ Ho He]. split; [done|]. intros cmd Hc.
  rewrite Forall_forall in He. destruct (He _ Hc) as ((Hs & Hl) & Hn & _ & Ha). done.
Qed.
End Commands.

(** ** The enforcer *)

Definition term_sent (t : list (event OsE)) (pid : Z) : Prop := ∃ r, Call (KillOutput "-TERM" pid) r ∈ t.

(** The process of the run is tracked and was not killed yet. *)
Definition live (m : Enforcer.Runs) (run_id : string) (pid : Z) : Prop :=
  ∃ tr, m !! run_id = Some tr ∧ tr_pid tr = pid ∧ tr_state tr ≠ Killed.

Lemma term_sent_app t t' pid : term_sent t pid ∨ term_sent t' pid → term_sent (t ++ t') pid.
Proof. intros [[r H]|[r H]]; exists r; apply elem_of_app; auto. Qed.

Lemma kill_pid_terms pid t r : (0 < pid)%Z → runs (Enforcer.kill_pid pid) t r → term_sent t pid.
Proof.
  intros Hp H. apply runs_bind in H as (t1 & a & t2 & -> & H & _).
  unfold Enforcer.send_signal in H. rewrite (proj2 (Z.leb_gt _ _)) in H by done. cbn in H.
  destruct H as (o & t' & -> & _). exists o. by left.
Qed.

Lemma live_other m id st run_id pid :
  id ≠ run_id → live m run_id pid → live (Enforcer.set_state id st m) run_id pid.
Proof. intros Hne (tr & Hm & H). exists tr. split; [|done]. unfold Enforcer.set_state. by rewrite lookup_alter_ne. Qed.

Lemma live_set m st run_id pid :
  st ≠ Killed → live m run_id pid → live (Enforcer.set_state run_id st m) run_id pid.
Proof.
  intros Hst (tr & Hm & Hp & _). eexists. unfold Enforcer.set_state. rewrite lookup_alter_eq, Hm. done.
Qed.

Lemma kill_run_live id run_id pid m t r m' :
  (0 < pid)%Z → live m run_id pid → runs (Enforcer.kill_run id m) t (r, m') →
  term_sent t pid ∨ live m' run_id pid.
Proof.
  intros Hp Hl H. unfold Enforcer.kill_run in H. destruct (m !! id) as [tracked|] eqn:Hm.
  2: { destruct H as [_ [= -> ->]]. by right. }
  case_bool_decide as Hk; [destruct H as [_ [= -> ->]]; by right|].
  apply runs_bind in H as (t1 & r1 & t2 & -> & H1 & [-> [= -> ->]]). destruct (decide (id = run_id)) as [->|Hne].
  - destruct Hl as (tr & Htr & <- & _). rewrite Hm in Htr. injection Htr as ->. left.
    rewrite app_nil_r. by eapply kill_pid_terms.
  - right. by apply live_other.
Qed.

(** [pause_run] and [resume_run] keep every process that is not killed. *)
Lemma signal_run_live id run_id pid m t r m' :
  live m run_id pid →
  runs (Enforcer.pause_run id m) t (r, m') ∨ runs (Enforcer.resume_run id m) t (r, m') → live m' run_id pid.
Proof.
  intros Hl [H|H]; [unfold Enforcer.pause_run in H|unfold Enforcer.resume_run in H];
    (destruct (m !! id) as [tracked|]; [|by destruct H as [_ [= -> ->]]]);
    repeat (case_bool_decide; [by destruct H as [_ [= -> ->]]|]);
    apply runs_bind in H as (t1 & r1 & t2 & -> & _ & [-> [= -> ->]]);
    (destruct (decide (id = run_id)) as [->|Hne]; [by apply live_set|by apply live_other]).
Qed.

Lemma kill_each_live ids run_id pid m t r m' :
  (0 < pid)%Z → live m run_id pid → runs (Enforcer.kill_each ids m) t (r, m') →
  term_sent t pid ∨ live m' run_id pid.
Proof.
  intros Hp. revert m t. induction ids as [|id ids IH]; intros m t Hl H; cbn [Enforcer.kill_each] in H.
  { destruct H as [_ [= -> ->]]. by right. }
  apply runs_bind in H as (t1 & [r1 m1] & t2 & -> & H1 & H2).
  destruct (kill_run_live _ _ _ _ _ _ _ Hp Hl H1) as [Ht|Hl1]; [left; apply term_sent_app; by left|].
  destruct r1 as [[]|e]; [|destruct H2 as [_ [= -> ->]]; by right].
  destruct (IH _ _ Hl1 H2) as [Ht|Hl2]; [left; apply term_sent_app; by right|by right].
Qed.

Section Reach.
Context {X : External} {HX : HostExternal} {ED : Ed25519}.
Context (keys : Enforcer.Runs → list string).

Lemma execute_live cmd run_id pid m t o m' :
  (0 < pid)%Z → live m run_id pid → runs (Enforcer.execute keys cmd m) t (o, m') →
  term_sent t pid ∨ live m' run_id pid.
Proof.
  intros Hp Hl H. unfold Enforcer.execute in H.
  destruct (Enforcer.enforce keys (sc_action cmd) (sc_target_type cmd) (sc_target_id cmd) m) as [p|] eqn:He;
    [|destruct H as [_ [= -> ->]]; by right].
  apply runs_bind in H as (t1 & [r1 m1] & t2 & -> & H1 & [-> [= -> ->]]). rewrite app_nil_r.
  unfold Enforcer.enforce in He. repeat case_match; simplify_eq.
  - by eapply kill_run_live.
  - right. eapply signal_run_live; eauto.
  - right. eapply signal_run_live; eauto.
  - by eapply kill_run_live.
  - by eapply kill_each_live.
Qed.

(** A command to kill a run that is tracked sends the signal. *)
Lemma execute_kill cmd run_id pid m t o m' :
  sc_action cmd = "kill_run" → sc_target_type cmd = "run" → sc_target_id cmd = run_id →
  (0 < pid)%Z → live m run_id pid → runs (Enforcer.execute keys cmd m) t (o, m') → term_sent t pid.
Proof.
  intros Ha Ht Hi Hp (tr & Hm & Hpid & Hk) H. unfold Enforcer.execute in H. rewrite Ha, Ht, Hi in H. cbn in H.
  apply runs_bind in H as (t1 & [r1 m1] & t2 & -> & H1 & [-> [= -> ->]]). rewrite app_nil_r.
  unfold Enforcer.kill_run in H1. rewrite Hm in H1. rewrite bool_decide_eq_false_2 in H1 by done.
  apply runs_bind in H1 as (t3 & r3 & t4 & -> & H3 & [-> [= -> ->]]). rewrite app_nil_r.
  rewrite Hpid in H3. by eapply kill_pid_terms.
Qed.

(** ** The sensor *)

Definition signalled (t : list (event Poll.SensorE)) (pid : Z) : Prop :=
  ∃ r, Call (Poll.Os (KillOutput "-TERM" pid)) r ∈ t.

Lemma signalled_app t t' pid : signalled t pid ∨ signalled t' pid → signalled (t ++ t') pid.
Proof. intros [[r H]|[r H]]; exists r; apply elem_of_app; auto. Qed.

Lemma with_enforcer_bind {A B} (f : A → prog Poll.PollE B) p m t b :
  runs (Poll.with_enforcer keys (prog_bind f p) m) t b →
  ∃ t1 a m1 t2, t = t1 ++ t2 ∧ runs (Poll.with_enforcer keys p m) t1 (a, m1) ∧
    runs (Poll.with_enforcer keys (f a) m1) t2 b.
Proof.
  revert m t. induction p as [x|T e k IH]; intros m t H; [by exists [], x, m, t|].
  destruct e as [T e|run_id|cmd]; simpl in H |- *.
  - destruct H as (r & t' & -> & (t1 & a & m1 & t2 & -> & H1 & H2)%IH).
    exists (Call (Poll.Client e) r :: t1), a, m1, t2. split; [done|]. split; [|done]. by exists r, t1.
  - by apply IH.
  - apply runs_bind in H as (t1 & [o m1] & t2 & -> & H1 & (t3 & a & m3 & t4 & -> & H3 & H4)%IH).
    exists (t1 ++ t3), a, m3, t4. split; [by rewrite app_assoc|]. split; [|done].
    apply runs_bind. by exists t1, (o, m1), t3.
Qed.

Lemma os_runs {A} (p : prog OsE A) t a :
  runs (interp (λ T e, trigger (Poll.Os e)) p) t a →
  ∃ t', runs p t' a ∧ ∀ pid, term_sent t' pid → signalled t pid.
Proof.
  intros (t' & ts & Hr & -> & Hf)%interp_runs. exists t'. split; [done|]. intros pid [r Hin].
  destruct (implements_in _ _ _ _ Hf Hin) as (tr & Htr & Hsub). simpl in Htr.
  destruct Htr as (x & t1 & -> & (-> & <-)). exists r. apply Hsub. by left.
Qed.

(** The command [c] is waiting for the receiver [r]. *)
Record Waiting (c : SignedCommand) (r : Signing.CommandReceiver) (t : list (event Poll.SensorE)) : Prop := {
  wt_authentic now : Call (Poll.Client Poll.PollUtcNow) now ∈ t → Signing.authentic r c now;
  wt_new : sc_nonce c ∉ Signing.cr_seen_nonces r }.

Lemma addressed_keeps sid c m t b m' :
  runs (Poll.with_enforcer keys (Poll.addressed sid c) m) t (b, m') → m' = m.
Proof. unfold Poll.addressed. repeat case_match; cbn; by intros [_ [= _ ->]]. Qed.

(** Another command does not get in the way of [c]. *)
Lemma process_other c x r m t r' m' run_id pid :
  sc_nonce x ≠ sc_nonce c → sc_nonce c ∉ Signing.cr_seen_nonces r → (0 < pid)%Z → live m run_id pid →
  runs (Poll.with_enforcer keys (Poll.process_command x r) m) t (r', m') →
  sc_nonce c ∉ Signing.cr_seen_nonces r' ∧ Signing.cr_verifying_key r' = Signing.cr_verifying_key r ∧
  Signing.cr_tenant_id r' = Signing.cr_tenant_id r ∧ (signalled t pid ∨ live m' run_id pid).
Proof.
  intros Hne Hn Hp Hl H. apply with_enforcer_bind in H as (t1 & now & m1 & t2 & -> & H1 & H).
  cbn in H1. destruct H1 as (n & t' & -> & (-> & [= -> ->])).
  destruct (Signing.verify r x n) as [v rec] eqn:Hv.
  apply with_enforcer_bind in H as (t3 & status & m3 & t4 & -> & H3 & H).
  cbn in H. destruct H as (u & t5 & -> & (-> & [= -> ->])).
  destruct v as [[]|e].
  - apply Signing.verify_ok in Hv as (_ & _ & ->).
    apply with_enforcer_bind in H3 as (t6 & o & m6 & t7 & -> & H6 & [-> [= _ <-]]).
    simpl in H6. apply runs_bind in H6 as (t8 & [o' m8] & t9 & -> & H8 & [-> [= -> ->]]).
    apply os_runs in H8 as (t' & H8 & Hsig). split; [simpl; set_solver|]. split; [done|]. split; [done|].
    destruct (execute_live _ _ _ _ _ _ _ Hp Hl H8) as [Ht|Ht]; [|by right].
    left. destruct (Hsig _ Ht) as [z Hz]. exists z. set_solver.
  - apply Signing.verify_err in Hv as ->. destruct H3 as [-> [= _ <-]]. auto.
Qed.

Lemma process_waiting c r m t r' m' run_id pid :
  Waiting c r t → sc_action c = "kill_run" → sc_target_type c = "run" → sc_target_id c = run_id →
  (0 < pid)%Z → live m run_id pid →
  runs (Poll.with_enforcer keys (Poll.process_command c r) m) t (r', m') → signalled t pid.
Proof.
  intros [Ha Hn] Hac Hty Hid Hp Hl H. apply with_enforcer_bind in H as (t1 & now & m1 & t2 & -> & H1 & H).
  cbn in H1. destruct H1 as (n & t' & -> & (-> & [= -> ->])).
  rewrite (proj2 (Signing.verify_ok r c n (Signing.see (sc_nonce c) r))) in H.
  2: { split; [|done]. apply Ha. by left. }
  apply with_enforcer_bind in H as (t3 & status & m3 & t4 & -> & H3 & _).
  apply with_enforcer_bind in H3 as (t6 & o & m6 & t7 & -> & H6 & _).
  simpl in H6. apply runs_bind in H6 as (t8 & [o' m8] & t9 & -> & H8 & [-> [= -> ->]]).
  apply os_runs in H8 as (t' & H8 & Hsig).
  destruct (Hsig pid (execute_kill _ _ _ _ _ _ _ Hac Hty Hid Hp Hl H8)) as [z Hz]. exists z. set_solver.
Qed.

Lemma waiting_later c r r' t1 t2 :
  Waiting c r (t1 ++ t2) → sc_nonce c ∉ Signing.cr_seen_nonces r' →
  Signing.cr_verifying_key r' = Signing.cr_verifying_key r → Signing.cr_tenant_id r' = Signing.cr_tenant_id r →
  Waiting c r' t2.
Proof.
  intros [Ha _] Hn Hk Ht. constructor; [|done]. intros now Hin.
  eapply authentic_same; [symmetry; exact Hk|symmetry; exact Ht|]. apply Ha, elem_of_app. by right.
Qed.

Lemma waiting_here c r t1 t2 : Waiting c r (t1 ++ t2) → Waiting c r t1.
Proof. intros [Ha Hn]. constructor; [|done]. intros now Hin. apply Ha, elem_of_app. by left. Qed.

Lemma addressed_live sid c m t b m' pid :
  sc_status c = "issued" → sc_target_type c = "run" → live m (sc_target_id c) pid →
  runs (Poll.with_enforcer keys (Poll.addressed sid c) m) t (b, m') → b = true.
Proof.
  intros Hs Ht (tr & Hm & _). unfold Poll.addressed. rewrite Hs, Ht. cbn. intros [_ [= -> _]].
  unfold Enforcer.has_run. rewrite Hm. by apply bool_decide_eq_true_2.
Qed.

Lemma process_commands_reach sid cmds c r m t r' m' run_id pid :
  c ∈ cmds → (∀ x, x ∈ cmds → sc_nonce x = sc_nonce c → x = c) → Waiting c r t →
  sc_status c = "issued" → sc_action c = "kill_run" → sc_target_type c = "run" → sc_target_id c = run_id →
  (0 < pid)%Z → live m run_id pid →
  runs (Poll.with_enforcer keys (Poll.process_commands sid cmds r) m) t (r', m') → signalled t pid.
Proof.
  intros Hin Huniq Hw Hs Ha Hty Hid Hp. revert r m t Hin Huniq Hw.
  induction cmds as [|x cmds IH]; intros r m t Hin Huniq Hw Hl H; [by apply elem_of_nil in Hin|].
  cbn [Poll.process_commands] in H.
  apply with_enforcer_bind in H as (t1 & b & m1 & t2 & -> & H1 & H).
  pose proof (addressed_keeps _ _ _ _ _ _ H1) as ->.
  apply with_enforcer_bind in H as (t3 & r3 & m3 & t4 & -> & H3 & H4).
  pose proof (wt_new _ _ _ Hw) as Hn.
  assert (Waiting c r (t3 ++ t4)) as Hw34 by (by eapply waiting_later).
  destruct (decide (sc_nonce x = sc_nonce c)) as [Heq|Hne].
  - assert (x = c) as -> by (apply Huniq; [by left|done]).
    rewrite (addressed_live _ _ _ _ _ _ pid Hs Hty ltac:(by rewrite Hid) H1) in H3.
    apply signalled_app. right. apply signalled_app. left.
    eapply process_waiting; [by eapply waiting_here|done..].
  - apply elem_of_cons in Hin as [->|Hin]; [done|].
    assert (sc_nonce c ∉ Signing.cr_seen_nonces r3 ∧ Signing.cr_verifying_key r3 = Signing.cr_verifying_key r ∧
      Signing.cr_tenant_id r3 = Signing.cr_tenant_id r ∧ (signalled t3 pid ∨ live m3 run_id pid))
      as (Hn3 & Hk3 & Ht3 & [Hsig|Hl3]).
    { destruct b; [by eapply process_other|]. destruct H3 as [-> [= -> ->]]. auto. }
    + apply signalled_app. right. apply signalled_app. by left.
    + apply signalled_app. right. apply signalled_app. right. eapply (IH r3 m3); try done.
      * intros y Hy. apply Huniq. by right.
      * by eapply waiting_later.
Qed.
End Reach.

(** ** The listing of commands *)

Lemma insert_by_issue_perm c l : Commands.insert_by_issue c l ≡ₚ c :: l.
Proof. induction l as [|c' l IH]; simpl; [done|]. case_match; [done|]. rewrite IH. constructor. Qed.

Lemma newest_first_perm rows : Commands.newest_first rows ≡ₚ rows.
Proof.
  unfold Commands.newest_first. rewrite <- (app_nil_r rows) at 2. generalize (@nil ControlCommandRecord).
  induction rows as [|c rows IH]; intros l; simpl; [done|].
  rewrite IH, insert_by_issue_perm. by rewrite Permutation_middle.
Qed.

Lemma command_listing_rows rows t limit offset c :
  c ∈ Commands.list_control_commands rows t limit offset → c ∈ rows ∧ cc_tenant_id c = t.
Proof.
  unfold Commands.list_control_commands. intros Hc%subseteq_take%subseteq_drop.
  rewrite newest_first_perm in Hc. apply list_elem_of_filter in Hc as [Ht%String.eqb_eq Hc]. done.
Qed.

(** Two commands of a tenant have different nonces. *)
Definition CommandsWf (rows : list ControlCommandRecord) : Prop :=
  NoDup ((λ c, (cc_tenant_id c, cc_nonce c)) <$> rows).

Lemma insert_command_wf rows c rows' :
  CommandsWf rows → Commands.insert_control_command rows c = Some rows' → CommandsWf rows'.
Proof.
  unfold CommandsWf, Commands.insert_control_command. intros Hwf.
  destruct (existsb _ rows) eqn:He; [done|]. intros [= <-]. rewrite fmap_app. apply NoDup_app.
  split; [done|]. split; [|apply NoDup_singleton].
  intros x (c' & -> & Hc')%list_elem_of_fmap Heq%list_elem_of_singleton. injection Heq as Ht Hn.
  assert (existsb (λ r, (cc_command_id r == cc_command_id c) ||
    ((cc_tenant_id r == cc_tenant_id c) && (cc_nonce r == cc_nonce c))) rows = true) as Hx; [|congruence].
  apply existsb_exists. exists c'. split; [by apply list_elem_of_In|].
  by rewrite Ht, Hn, !String.eqb_refl, orb_true_r.
Qed.

Lemma command_unique rows c c' :
  CommandsWf rows → c ∈ rows → c' ∈ rows → cc_tenant_id c' = cc_tenant_id c → cc_nonce c' = cc_nonce c → c' = c.
Proof.
  intros Hwf Hc Hc' Ht Hn. apply list_elem_of_lookup in Hc as [i Hi], Hc' as [j Hj].
  assert (j = i) as ->; [|congruence].
  apply (NoDup_lookup _ j i (cc_tenant_id c, cc_nonce c) Hwf).
  - rewrite list_lookup_fmap, Hj. simpl. by rewrite Ht, Hn.
  - by rewrite list_lookup_fmap, Hi.
Qed.

(** ** From the operator to the process *)

Section EndToEnd.
Context {X : External} {HX : HostExternal} {ED : Ed25519} {RX : RunExternal} {EL : Ed25519Laws}.
Context (keys : Enforcer.Runs → list string).

(** What the gateway issues: the command, signed, five minutes to live. *)
Lemma issued_command k t run_id action req tr c :
  runs (RunApi.issue_run_control_command (Some k) t run_id action req) tr (Ok c) →
  ∃ signer now id nonce, Signing.from_env_value k = Ok signer ∧ Call RnUtcNow now ∈ tr ∧
    Call (RnInsertCommand c) (Ok tt) ∈ tr ∧
    c = Signing.signed signer (RunApi.unsigned_command t run_id action (rcr_reason req) (rcr_actor req) now
          RunApi.CONTROL_COMMAND_EXPIRY_SECS true id nonce).
Proof.
  unfold RunApi.issue_run_control_command. intros H.
  apply runs_bind in H as (t1 & run & t2 & -> & H1 & H). destruct run as [[run|]|e]; [|by destruct H..].
  destruct (Signing.from_env_value k) as [signer|e] eqn:Hk; [|by destruct H].
  prog_run H. simplify_eq. match goal with u : unit |- _ => destruct u end. eexists signer, _, _, _. split; [done|]. split; [in_trace|]. split; [|done]. in_trace.
Qed.

Definition list_answer (ev : event Poll.SensorE) : option (Result (list SignedCommand) string) :=
  match ev with
  | Call e r =>
      match e in Poll.SensorE T return T → _ with
      | Poll.Client e => match e in Poll.ClientE T return T → _ with
                         | Poll.ListCommands => λ r, Some r
                         | _ => λ _, None
                         end
      | Poll.Os _ => λ _, None
      end r
  end.

(** What the gateway answers to the sensor: a page of the table *)
Definition page (rows : list ControlCommandRecord) (t : string) (limit offset : nat) : list SignedCommand :=
  on_wire <$> Commands.list_control_commands rows t limit offset.

(** C21: a command to kill reaches the process.  The gateway answers the
    operator's request to kill a run with a command [c] that it has stored.  Any
    sensor of that tenant that pins the gateway's key, tracks the run with a
    process that it has not killed, and polls within the five minutes a command
    lives, sends SIGTERM to that process if its list, a page of the table, has
    [c] on it: whatever other commands are on the list and whatever their
    execution does, no other command can take its place or use up its nonce. *)
Theorem issued_kill_reaches_process k signer t run_id req tg c rows limit offset sid r m ts r' m' pid :
  hex_roundtrip → Signing.from_env_value k = Ok signer →
  runs (RunApi.kill_run (Some k) t run_id req) tg (Answered 201 c) →
  CommandsWf rows → c ∈ Commands.list_control_commands rows t limit offset →
  Signing.cr_verifying_key r = Signing.cr_verifying_key (Signing.new (Some (Signing.public_key_hex signer)) t) →
  Signing.cr_tenant_id r = t → cc_nonce c ∉ Signing.cr_seen_nonces r →
  (0 < pid)%Z → live m run_id pid →
  runs (Poll.with_enforcer keys (Poll.poll_and_process_commands sid r) m)
    (Call (Poll.Client Poll.ListCommands) (Ok (page rows t limit offset)) :: ts) (r', m') →
  ∃ issued_at, Call RnUtcNow issued_at ∈ tg ∧
    ((∀ now, Call (Poll.Client Poll.PollUtcNow) now ∈ ts → (now < issued_at + 300 * 1000000000)%Z) →
     signalled ts pid).
Proof.
  intros Hhex Hk Hg Hwf Hin Hvk Hten Hnew Hp Hl Hpoll.
  apply runs_bind in Hg as (tg1 & o & tg2 & -> & Hg & [-> Ho]).
  destruct o as [c'|[st e]]; [|done]. injection Ho as <-.
  destruct (issued_command _ _ _ _ _ _ _ Hg) as (signer' & now & id & nonce & Hk' & Hnow & _ & Hc).
  rewrite Hk in Hk'. injection Hk' as <-. rewrite app_nil_r. exists now. split; [done|]. intros Hclock.
  apply with_enforcer_bind in Hpoll as (t1 & a & m1 & t2 & Hts & H1 & H2). simpl in H1.
  destruct H1 as (a' & t' & -> & (-> & [= -> ->])).
  pose proof (f_equal tail Hts) as Htl. simpl in Htl. subst t2.
  pose proof (f_equal (λ l, head l ≫= list_answer) Hts) as Hhd. simpl in Hhd. injection Hhd as <-.
  eapply (process_commands_reach keys sid _ (on_wire c)); [| | | | | | |exact Hp|exact Hl|exact H2]; try (by subst c).
  - by apply list_elem_of_fmap_2.
  - intros x (c' & -> & Hc')%list_elem_of_fmap Hx. f_equal.
    apply command_listing_rows in Hin as [Hin Ht], Hc' as [Hc' Ht']. eapply command_unique; try done. congruence.
  - constructor; [|done]. intros n Hn. specialize (Hclock n Hn). subst c.
    set (u := RunApi.unsigned_command _ _ _ _ _ _ _ _ _ _) in *.
    eapply (authentic_same _ {| Signing.cr_verifying_key := Signing.cr_verifying_key r;
      Signing.cr_tenant_id := t; Signing.cr_seen_nonces := Signing.cr_seen_nonces r |}); [done|done|].
    rewrite Hvk. apply (Signing.signed_authentic signer u); [done|by eapply Signing.from_env_value_length|by eexists|].
    exact Hclock.
Qed.
End EndToEnd.
