(* ===== verification/Cage.v ===== *)
(** * The cage runner: sandboxes

    Models [src/bins/aegis-cage-runner/src/spec.rs], [workspace.rs],
    [docker_cli.rs], [docker_runtime.rs], [events.rs] and [build_sandbox_spec] of
    [gateway_client.rs]: the specification of a sandbox and its checks, the
    command lines that are given to [docker], and the runtime that keeps the
    workspaces and networks of the sandboxes it has created.

    The [docker] command, the file system, the clocks and the sink of events are
    calls of [CageE]; the text of a number of processors, the debug form of a
    string and the JSON parsers are parameters.  The parts of a specification
    that the gateway stores are the records of [RunApi.v]: the two crates declare
    them with the same fields. *)

From stdpp Require Import gmap pretty.
From S2P Require Import Prelude RustString Prog Models Records External Runtime Risk RunStore Signing RunApi.

Local Open Scope Z_scope.

(** ** Specifications *)

Record ImageSpec := { im_image_ref : string; im_digest : string; im_read_only_rootfs : bool }.

(** [environment] lists its entries in the order the map does. *)
Record SandboxSpec := {
  ss_tenant_id : string;
  ss_run_id : string;
  ss_agent_id : string;
  ss_sandbox_id : string;
  ss_mode : string;
  ss_image : ImageSpec;
  ss_command : list string;
  ss_working_dir : string;
  ss_workspace : CageWorkspaceSpecRequest;
  ss_resources : CageResourceLimitsRequest;
  ss_network : CageNetworkSpecRequest;
  ss_tooling : CageToolingSpecRequest;
  ss_environment : list (string * string);
  ss_controlled_mounts : list CageControlledMountRequest }.

Inductive CageError :=
| InvalidSpec (e : string)
| RuntimeError (e : string)
| NotFound (id : string).

Definition display_cage_error (e : CageError) : string :=
  match e with
  | InvalidSpec e => "sandbox spec is invalid: " +:+ e
  | RuntimeError e => "runtime backend error: " +:+ e
  | NotFound id => "sandbox not found: " +:+ id
  end.

(** The subset of a stored run that the gateway's answer is read into *)
Record AgentRunPayload := {
  ap_id : string;
  ap_tenant_id : string;
  ap_agent_id : option string;
  ap_mode : string;
  ap_status : string;
  ap_claimed_by : option string;
  ap_image_ref : option string;
  ap_image_digest : option string;
  ap_command_json : option string;
  ap_working_dir : option string;
  ap_resource_limits_json : option string;
  ap_network_spec_json : option string;
  ap_tooling_spec_json : option string;
  ap_environment_json : option string;
  ap_workspace_spec_json : option string;
  ap_controlled_mounts_json : option string;
  ap_exit_code : option Z }.

(** [serde_json::from_str] at each of the types of the columns, and what a
    number of processors and a string look like in a message *)
Class CageExternal := {
  strings_of_json : string → Result (list string) string;
  resources_of_json : string → Result CageResourceLimitsRequest string;
  network_of_json : string → Result CageNetworkSpecRequest string;
  tooling_of_json : string → Result CageToolingSpecRequest string;
  environment_of_json : string → Result (list (string * string)) string;
  workspace_of_json : string → Result CageWorkspaceSpecRequest string;
  mounts_of_json : string → Result (list CageControlledMountRequest) string;
  cpus_text : Z → string }.

Module Spec.
Section Spec.
Context {RX : RunExternal} {CX : CageExternal}.

(** [c.is_ascii_alphanumeric() || c == '-' || c == '_'] for every character *)
Definition id_char (a : ascii) : bool :=
  let n := nat_of_ascii a in
  ((48 <=? n) && (n <=? 57) || (65 <=? n) && (n <=? 90) || (97 <=? n) && (n <=? 122) || (n =? 45) || (n =? 95))%nat.
Definition valid_id (s : string) : bool :=
  negb (is_empty s) && forallb id_char (String.list_ascii_of_string s).

Definition validate_network (n : CageNetworkSpecRequest) : Result unit CageError :=
  let proxy := RunApi.proxy_of n in
  if negb (bool_decide (cns_allowed_destinations n = [])) && bool_decide (proxy = None) then
    Err (InvalidSpec ("network.allowed_destinations requires network.egress_proxy_url " +:+
      "(allowlists are enforced at the egress proxy, not with open bridge egress)"))
  else
    let blank :=
      if existsb (λ d, is_empty (trim d)) (cns_allowed_destinations n) then
        Err (InvalidSpec "network.allowed_destinations entries must not be empty")
      else Ok tt in
    match proxy with
    | Some url =>
        if negb (starts_with "http://" url || starts_with "https://" url) then
          Err (InvalidSpec "network.egress_proxy_url must be an http:// or https:// URL")
        else if contains " " url || contains (bytes [10]%nat) url || contains (bytes [13]%nat) url then
          Err (InvalidSpec "network.egress_proxy_url must not contain whitespace")
        else blank
    | None =>
        match cns_egress_proxy_url n with
        | Some _ => Err (InvalidSpec "network.egress_proxy_url must not be empty when set")
        | None => blank
        end
    end.

Definition validate_mounts (spec : SandboxSpec) : Result unit CageError :=
  match find RunApi.forbidden_mount (ss_controlled_mounts spec) with
  | Some m => Err (InvalidSpec ("controlled mount " +:+ debug_str (ccm_mount_id m) +:+
                   " targets forbidden path " +:+ debug_str (ccm_target_path m)))
  | None => Ok tt
  end.

Definition validate_environment (spec : SandboxSpec) : Result unit CageError :=
  match find RunApi.looks_like_credential (ss_environment spec).*1 with
  | Some name => Err (InvalidSpec ("environment variable " +:+ debug_str name +:+
                   " looks like a raw credential and cannot be injected directly"))
  | None => Ok tt
  end.

Definition validate (spec : SandboxSpec) : Result unit CageError :=
  if is_empty (trim (im_image_ref (ss_image spec))) then Err (InvalidSpec "image.ref must not be empty")
  else if starts_with "-" (im_image_ref (ss_image spec)) then
    Err (InvalidSpec "image.ref must not start with '-'")
  else if negb (valid_id (ss_sandbox_id spec)) then
    Err (InvalidSpec "sandbox_id must be non-empty and contain only ASCII alphanumerics, '-', or '_'")
  else if bool_decide (ss_command spec = []) then Err (InvalidSpec "command must not be empty")
  else if crl_timeout_seconds (ss_resources spec) =? 0 then
    Err (InvalidSpec "resources.timeout_seconds must be greater than zero")
  else if cns_direct_internet (ss_network spec) then
    Err (InvalidSpec ("network.direct_internet must be false " +:+ bytes [226; 128; 148]%nat +:+
      " all egress goes through the egress proxy"))
  else
    match validate_network (ss_network spec) with
    | Err e => Err e
    | Ok _ =>
        match validate_mounts spec with
        | Err e => Err e
        | Ok _ => validate_environment spec
        end
    end.

(** ** From the stored run *)

Definition parse_json_field {T} (from_str : string → Result T string) (field : option string)
    (field_name : string) : Result (option T) CageError :=
  match field with
  | None => Ok None
  | Some s =>
      match from_str s with
      | Ok v => Ok (Some v)
      | Err e => Err (InvalidSpec ("invalid " +:+ field_name +:+ ": " +:+ e))
      end
  end.

(** [f(..)?] *)
Definition and_then {A B} (r : Result A CageError) (f : A → Result B CageError) : Result B CageError :=
  match r with Ok a => f a | Err e => Err e end.

Definition no_network : CageNetworkSpecRequest :=
  {| cns_direct_internet := false; cns_egress_proxy_url := None; cns_allowed_destinations := [] |}.
Definition no_tooling : CageToolingSpecRequest := {| cts_tool_broker_url := None; cts_mcp_gateway_url := None |}.
Definition no_workspace : CageWorkspaceSpecRequest :=
  {| cws_template_id := None; cws_max_bytes := 0; cws_max_files := 0; cws_preserve_on_failure := false |}.

Definition build_sandbox_spec (run : AgentRunPayload) (sandbox_id : string) : Result SandboxSpec CageError :=
  and_then
    match ap_image_ref run with
    | Some r => Ok r
    | None => Err (InvalidSpec "run has no image_ref -- not a cage run")
    end (λ image_ref,
  and_then
    match ap_command_json run with
    | Some s => match strings_of_json s with
                | Ok v => Ok v
                | Err e => Err (InvalidSpec ("invalid command_json: " +:+ e))
                end
    | None => Err (InvalidSpec "run has no command_json -- not a cage run")
    end (λ command,
  and_then (parse_json_field resources_of_json (ap_resource_limits_json run) "resource_limits_json") (λ resources,
  and_then
    match resources with
    | Some r => Ok r
    | None => Err (InvalidSpec "run has no resource_limits_json -- not a cage run")
    end (λ resources,
  and_then (parse_json_field network_of_json (ap_network_spec_json run) "network_spec_json") (λ network,
  and_then (parse_json_field tooling_of_json (ap_tooling_spec_json run) "tooling_spec_json") (λ tooling,
  and_then (parse_json_field environment_of_json (ap_environment_json run) "environment_json") (λ environment,
  and_then (parse_json_field workspace_of_json (ap_workspace_spec_json run) "workspace_spec_json") (λ workspace,
  and_then (parse_json_field mounts_of_json (ap_controlled_mounts_json run) "controlled_mounts_json") (λ mounts,
  Ok {| ss_tenant_id := ap_tenant_id run; ss_run_id := ap_id run;
        ss_agent_id := default "anon" (ap_agent_id run); ss_sandbox_id := sandbox_id;
        ss_mode := ap_mode run;
        ss_image := {| im_image_ref := image_ref; im_digest := default "" (ap_image_digest run);
                       im_read_only_rootfs := true |};
        ss_command := command; ss_working_dir := default "/workspace" (ap_working_dir run);
        ss_workspace := default no_workspace workspace; ss_resources := resources;
        ss_network := default no_network network; ss_tooling := default no_tooling tooling;
        ss_environment := default [] environment; ss_controlled_mounts := default [] mounts |}))))))))).
End Spec.
End Spec.

(** How far a loop got: it goes on, the process has panicked, or it has ended. *)
Inductive Fate (A : Type) := Unfinished | Panicked | Ended (a : A).
#[global] Arguments Unfinished {A}.
#[global] Arguments Panicked {A}.
#[global] Arguments Ended {A} a.

(** ** The calls of the runtime *)

(** What [Command::output] gives *)
Record DockerOutput := { dk_success : bool; dk_stdout : string; dk_stderr : string }.

Inductive CageEventType := AgentRunStarted | ProcessStarted | ProcessExited | AgentRunFinished.

Record CageEvent := {
  ce_event_type : CageEventType;
  ce_tenant_id : string;
  ce_run_id : string;
  ce_sandbox_id : string;
  ce_occurred_at : DateTime;
  ce_exit_code : option Z }.

(** Times of the monotonic clock are in nanoseconds. *)
Inductive CageE : Type → Type :=
| Docker (args : list string) : CageE (Result DockerOutput string)
| PathExists (path : string) : CageE bool
| CreateDirAll (path : string) : CageE (Result unit string)
| RemoveDirAll (path : string) : CageE (Result unit string)
| CageUtcNow : CageE DateTime
| InstantNow : CageE Z
| CageSleep (nanos : Z) : CageE unit
| RecordEvent (e : CageEvent) : CageE unit.

Inductive SandboxStatus := StCreated | StRunning | StPaused | StExited | StKilled | StTimedOut.
#[export] Instance SandboxStatus_eq_dec : EqDecision SandboxStatus.
Proof. solve_decision. Defined.

Record SandboxState := { sx_status : SandboxStatus; sx_exit_code : option Z }.

Record SandboxHandle := {
  sh_sandbox_id : string;
  sh_backend_id : string;
  sh_tenant_id : string;
  sh_run_id : string;
  sh_created_at : DateTime }.

(** The reason is recorded nowhere: the parameter of [kill] is unused. *)
Inductive KillReason :=
| SignedCommandKill (command_id : string)
| TimeoutKill
| PolicyViolation (reason : string)
| OperatorRequest (actor : string).

(** ** The command line *)

Module DockerCli.
Section DockerCli.
Context {CX : CageExternal}.

Definition run_docker (args : list string) : prog CageE (Result string CageError) :=
  output ← trigger (Docker args);
  match output with
  | Err e => mret (Err (RuntimeError ("failed to invoke docker: " +:+ e)))
  | Ok output =>
      if negb (dk_success output) then
        mret (Err (RuntimeError ("docker " +:+ default "" (head args) +:+ " failed: " +:+
                trim (Utf8.from_utf8_lossy (dk_stderr output)))))
      else mret (Ok (trim (Utf8.from_utf8_lossy (dk_stdout output))))
  end.

(** [run_docker(..).await.map(|_| ())] *)
Definition run_docker_unit (args : list string) : prog CageE (Result unit CageError) :=
  r ← run_docker args;
  mret match r with Ok _ => Ok tt | Err e => Err e end.

Definition FORCED_PROXY_ENV_KEYS : list string :=
  ["HTTP_PROXY"; "HTTPS_PROXY"; "http_proxy"; "https_proxy"; "ALL_PROXY"; "all_proxy"; "NO_PROXY"; "no_proxy"].

Record EgressNetworkPlan := {
  ep_docker_network : string;
  ep_proxy_url : option string;
  ep_create_isolated_network : bool }.

(** [rest.find([':', '/']).map(|i| &rest[i..]).unwrap_or("")] *)
Fixpoint after_host (s : string) : string :=
  match s with
  | EmptyString => ""
  | String a s' => if Ascii.eqb a ":" || Ascii.eqb a "/" then s else after_host s'
  end.

Definition rewrite_proxy_for_sidecar (proxy_url container : string) : option string :=
  match strip_prefix "http://" proxy_url with
  | Some rest => Some ("http://" +:+ container +:+ after_host rest)
  | None =>
      match strip_prefix "https://" proxy_url with
      | Some rest => Some ("https://" +:+ container +:+ after_host rest)
      | None => None
      end
  end.

Definition plan_egress_network (spec : SandboxSpec) (egress_proxy_container : option string) : EgressNetworkPlan :=
  match RunApi.proxy_of (ss_network spec) with
  | None => {| ep_docker_network := "none"; ep_proxy_url := None; ep_create_isolated_network := false |}
  | Some url =>
      {| ep_docker_network := "aegis-cage-egress-" +:+ ss_sandbox_id spec;
         ep_proxy_url := c ← egress_proxy_container; rewrite_proxy_for_sidecar url c;
         ep_create_isolated_network := true |}
  end.

Definition create_egress_network (name : string) : prog CageE (Result unit CageError) :=
  run_docker_unit ["network"; "create"; "--driver"; "bridge"; "--internal"; "-o";
    "com.docker.network.bridge.enable_ip_masquerade=false"; name].
Definition remove_network (name : string) : prog CageE (Result unit CageError) :=
  run_docker_unit ["network"; "rm"; name].
Definition connect_container_to_network (network container : string) : prog CageE (Result unit CageError) :=
  run_docker_unit ["network"; "connect"; network; container].
Definition disconnect_container_from_network (network container : string) : prog CageE (Result unit CageError) :=
  run_docker_unit ["network"; "disconnect"; network; container].

Definition forced_key (key : string) : bool :=
  existsb (λ k, to_ascii_lowercase k == to_ascii_lowercase key) FORCED_PROXY_ENV_KEYS.

Definition tenant_env (environment : list (string * string)) : list string :=
  flat_map (λ e, if forced_key e.1 then [] else ["-e"; e.1 +:+ "=" +:+ e.2]) environment.

(** [v.join(",")] *)
Definition join_comma (l : list string) : string := join_with "," l.

Definition proxy_env (spec : SandboxSpec) (egress : EgressNetworkPlan) : list string :=
  match ep_proxy_url egress with
  | None => []
  | Some proxy_url =>
      flat_map (λ key, ["-e"; key +:+ "=" +:+ proxy_url]) ["HTTP_PROXY"; "HTTPS_PROXY"; "http_proxy"; "https_proxy"] ++
      ["-e"; "NO_PROXY="; "-e"; "no_proxy="] ++
      match cns_allowed_destinations (ss_network spec) with
      | [] => []
      | l => ["-e"; "AEGIS_EGRESS_ALLOWED_DESTINATIONS=" +:+ join_comma l]
      end
  end.

Definition build_create_args (spec : SandboxSpec) (container_name workspace_dir : string)
    (egress : EgressNetworkPlan) : list string :=
  ["create"; "--name"; container_name; "--network"; ep_docker_network egress; "--cap-drop"; "ALL";
   "--security-opt"; "no-new-privileges:true"; "--pids-limit"; pretty (crl_process_limit (ss_resources spec));
   "--memory"; pretty (crl_memory_bytes (ss_resources spec)); "--cpus";
   cpus_text (crl_cpu_millis (ss_resources spec))] ++
  (if im_read_only_rootfs (ss_image spec) then
     ["--read-only"; "--tmpfs"; "/tmp:rw,nosuid,nodev,noexec,size=64m"] else []) ++
  ["-v"; workspace_dir +:+ ":" +:+ ss_working_dir spec; "-w"; ss_working_dir spec] ++
  tenant_env (ss_environment spec) ++ proxy_env spec egress ++
  ["--"; im_image_ref (ss_image spec)] ++ ss_command spec.

(** [let _ = disconnect(..); let _ = remove_network(..)] *)
Definition drop_network (network : string) (proxy_container : option string) : prog CageE unit :=
  _ ← match proxy_container with
      | Some c => disconnect_container_from_network network c
      | None => mret (Ok tt)
      end;
  _ ← remove_network network;
  mret tt.

Definition prepare_network (egress : EgressNetworkPlan) (egress_proxy_container : option string) :
    prog CageE (Result unit CageError) :=
  if ep_create_isolated_network egress then
    _ ←? create_egress_network (ep_docker_network egress);
    match egress_proxy_container with
    | None => mret (Ok tt)
    | Some proxy_container =>
        r ← connect_container_to_network (ep_docker_network egress) proxy_container;
        match r with
        | Ok _ => mret (Ok tt)
        | Err e => _ ← remove_network (ep_docker_network egress); mret (Err e)
        end
    end
  else mret (Ok tt).

Definition create (spec : SandboxSpec) (container_name workspace_dir : string)
    (egress_proxy_container : option string) : prog CageE (Result (string * option string) CageError) :=
  let egress := plan_egress_network spec egress_proxy_container in
  _ ←? prepare_network egress egress_proxy_container;
  r ← run_docker (build_create_args spec container_name workspace_dir egress);
  match r with
  | Ok id => mret (Ok (id, if ep_create_isolated_network egress then Some (ep_docker_network egress) else None))
  | Err e =>
      _ ← (if ep_create_isolated_network egress
           then drop_network (ep_docker_network egress) egress_proxy_container else mret tt);
      mret (Err e)
  end.

Definition start (container_id : string) := run_docker_unit ["start"; container_id].
Definition pause (container_id : string) := run_docker_unit ["pause"; container_id].
Definition unpause (container_id : string) := run_docker_unit ["unpause"; container_id].
Definition kill (container_id : string) := run_docker_unit ["kill"; container_id].
Definition remove (container_id : string) := run_docker_unit ["rm"; "-f"; container_id].

Definition tab : ascii := ascii_of_nat 9.
Definition INSPECT_FORMAT : string :=
  "{{.State.Status}}" +:+ String tab "" +:+ "{{.State.ExitCode}}".

Definition status_of (s : string) : SandboxStatus :=
  if s == "created" then StCreated
  else if s == "running" then StRunning
  else if s == "paused" then StPaused
  else StExited.

Definition inspect_status (container_id : string) : prog CageE (Result SandboxState CageError) :=
  output ←? run_docker ["inspect"; "--format"; INSPECT_FORMAT; container_id];
  match split_once tab output with
  | None => mret (Err (RuntimeError ("unexpected docker inspect output: " +:+ output)))
  | Some (status_str, exit_code_str) =>
      let status := status_of status_str in
      mret (Ok {| sx_status := status;
                  sx_exit_code := if bool_decide (status = StExited) then Risk.parse_i32 (trim exit_code_str)
                                  else None |})
  end.
End DockerCli.
End DockerCli.

(** ** The runtime *)

Record DockerRuntime := {
  dr_workspaces : gmap string string;
  dr_networks : gmap string string }.

Definition new_runtime : DockerRuntime := {| dr_workspaces := ∅; dr_networks := ∅ |}.

Module Workspace.
Section Workspace.
Context {RX : RunExternal}.

(** [root.join(id)] of a name without separators *)
Definition join (root id : string) : string :=
  if is_empty root || ends_with "/" root then root +:+ id else root +:+ "/" +:+ id.

Definition create_isolated_workspace (root sandbox_id : string) : prog CageE (Result string CageError) :=
  let workspace_dir := join root sandbox_id in
  exists_ ← trigger (PathExists workspace_dir);
  if (exists_ : bool) then
    mret (Err (InvalidSpec ("workspace for sandbox " +:+ debug_str sandbox_id +:+ " already exists " +:+
      bytes [226; 128; 148]%nat +:+ " refusing to reuse it")))
  else
    r ← trigger (CreateDirAll workspace_dir);
    mret match r with
         | Ok _ => Ok workspace_dir
         | Err e => Err (RuntimeError ("failed to create workspace directory: " +:+ e))
         end.

Definition destroy_workspace (workspace_dir : string) : prog CageE (Result unit CageError) :=
  exists_ ← trigger (PathExists workspace_dir);
  if negb exists_ then mret (Ok tt)
  else
    r ← trigger (RemoveDirAll workspace_dir);
    mret match r with
         | Ok _ => Ok tt
         | Err e => Err (RuntimeError ("failed to remove workspace directory: " +:+ e))
         end.
End Workspace.
End Workspace.

Module DockerRt.
Section DockerRt.
Context {RX : RunExternal} {CX : CageExternal}.
Context (workspace_root : string) (egress_proxy_container : option string).

Definition POLL_INTERVAL : Z := 200 * 1000000.

Definition emit (event_type : CageEventType) (handle : SandboxHandle) (exit_code : option Z) : prog CageE unit :=
  now ← trigger CageUtcNow;
  trigger (RecordEvent {| ce_event_type := event_type; ce_tenant_id := sh_tenant_id handle;
    ce_run_id := sh_run_id handle; ce_sandbox_id := sh_sandbox_id handle; ce_occurred_at := now;
    ce_exit_code := exit_code |}).

Definition container_name (sandbox_id : string) : string := "aegis-cage-" +:+ sandbox_id.

Definition remember (sandbox_id workspace_dir : string) (network : option string) (rt : DockerRuntime) :
    DockerRuntime :=
  {| dr_workspaces := <[sandbox_id := workspace_dir]> (dr_workspaces rt);
     dr_networks := match network with
                    | Some net => <[sandbox_id := net]> (dr_networks rt)
                    | None => dr_networks rt
                    end |}.

Definition create (spec : SandboxSpec) (rt : DockerRuntime) :
    prog CageE (Result SandboxHandle CageError * DockerRuntime) :=
  match Spec.validate spec with
  | Err e => mret (Err e, rt)
  | Ok _ =>
      w ← Workspace.create_isolated_workspace workspace_root (ss_sandbox_id spec);
      match w with
      | Err e => mret (Err e, rt)
      | Ok workspace_dir =>
          r ← DockerCli.create spec (container_name (ss_sandbox_id spec)) workspace_dir egress_proxy_container;
          match r with
          | Err e => _ ← Workspace.destroy_workspace workspace_dir; mret (Err e, rt)
          | Ok (container_id, network) =>
              now ← trigger CageUtcNow;
              mret (Ok {| sh_sandbox_id := ss_sandbox_id spec; sh_backend_id := container_id;
                          sh_tenant_id := ss_tenant_id spec; sh_run_id := ss_run_id spec;
                          sh_created_at := now |},
                    remember (ss_sandbox_id spec) workspace_dir network rt)
          end
      end
  end.

Definition start (handle : SandboxHandle) : prog CageE (Result unit CageError) :=
  _ ←? DockerCli.start (sh_backend_id handle);
  _ ← emit AgentRunStarted handle None;
  _ ← emit ProcessStarted handle None;
  mret (Ok tt).

Definition pause (handle : SandboxHandle) := DockerCli.pause (sh_backend_id handle).
Definition resume (handle : SandboxHandle) := DockerCli.unpause (sh_backend_id handle).

Definition kill (handle : SandboxHandle) (reason : KillReason) : prog CageE (Result unit CageError) :=
  _ ←? DockerCli.kill (sh_backend_id handle);
  _ ← emit ProcessExited handle None;
  mret (Ok tt).

Definition status (handle : SandboxHandle) := DockerCli.inspect_status (sh_backend_id handle).

(** The network that was made for the sandbox; failures are logged. *)
Definition destroy_network (network : option string) : prog CageE unit :=
  match network with
  | None => mret tt
  | Some network => DockerCli.drop_network network egress_proxy_container
  end.

(** A workspace that cannot be removed leaves the network in place, and the maps
    forget the workspace all the same. *)
Definition destroy (handle : SandboxHandle) (rt : DockerRuntime) :
    prog CageE (Result unit CageError * DockerRuntime) :=
  removed ← DockerCli.remove (sh_backend_id handle);
  match removed with
  | Err e => mret (Err e, rt)
  | Ok _ =>
      let rt1 := {| dr_workspaces := delete (sh_sandbox_id handle) (dr_workspaces rt);
                    dr_networks := dr_networks rt |} in
      w ← match dr_workspaces rt !! sh_sandbox_id handle with
          | Some workspace_dir => Workspace.destroy_workspace workspace_dir
          | None => mret (Ok tt)
          end;
      match w with
      | Err e => mret (Err e, rt1)
      | Ok _ =>
          _ ← destroy_network (dr_networks rt1 !! sh_sandbox_id handle);
          _ ← emit AgentRunFinished handle None;
          mret (Ok tt, {| dr_workspaces := dr_workspaces rt1;
                          dr_networks := delete (sh_sandbox_id handle) (dr_networks rt1) |})
      end
  end.

(** The loop that waits, for [polls] looks at the container; [None] is a loop
    that goes on. *)
Fixpoint wait_until (polls : nat) (handle : SandboxHandle) (deadline : Z) :
    prog CageE (Fate (Result SandboxState CageError)) :=
  match polls with
  | O => mret Unfinished
  | S polls =>
      s ← status handle;
      match s with
      | Err e => mret (Ended (Err e))
      | Ok state =>
          if negb (bool_decide (sx_status state = StRunning)) then
            _ ← emit ProcessExited handle (sx_exit_code state);
            mret (Ended (Ok state))
          else
            now ← trigger InstantNow;
            if deadline <=? now then
              k ← kill handle TimeoutKill;
              match k with
              | Err e => mret (Ended (Err e))
              | Ok _ => mret (Ended (Ok {| sx_status := StTimedOut; sx_exit_code := None |}))
              end
            else
              now ← trigger InstantNow;
              _ ← trigger (CageSleep (Z.min POLL_INTERVAL (Z.max 0 (deadline - now))));
              wait_until polls handle deadline
      end
  end.

(** [Instant + Duration]: an instant has its seconds in an [i64], and a sum that
    does not fit panics. *)
Definition INSTANT_MAX : Z := 2 ^ 63 * 1000000000 - 1.
Definition instant_add (now timeout : Z) : option Z :=
  if now + timeout <=? INSTANT_MAX then Some (now + timeout) else None.

Definition wait_or_kill_on_timeout (polls : nat) (handle : SandboxHandle) (timeout : Z) :
    prog CageE (Fate (Result SandboxState CageError)) :=
  now ← trigger InstantNow;
  match instant_add now timeout with
  | None => mret Panicked
  | Some deadline => wait_until polls handle deadline
  end.
End DockerRt.
End DockerRt.
