(* ===== verification/Runner.v ===== *)
(** * The cage runner: runs

    Models [src/bins/aegis-cage-runner/src/main.rs] and the client it uses
    ([gateway_client.rs]), with [execute] of [command_receiver.rs]: a runner looks
    for a command to start a run, claims the run, executes it in a sandbox and
    follows the commands that are issued for it.

    [run_one] waits for the sandbox while it serves its timers: the future that
    waits is a program of which one awaited call is answered at a time, and
    [Select] says which branch of [tokio::select!] is taken. *)

From stdpp Require Import gmap pretty.
From S2P Require Import Prelude RustString Prog Models Records External Runtime Gateway RunStore Signing RunApi Spool Shipper Cage.

Local Open Scope Z_scope.

Inductive RunnerClientError :=
| ClientFailed (e : GatewayClientError)
| ClaimLost.

(** The branches of [select!]: the awaited call of the wait is answered, the
    shutdown flag was written, a heartbeat is due, a look at the commands is due *)
Inductive Branch := WaitReady | ShutdownChanged (requested : bool) | HeartbeatTick | ControlTick.

Inductive RunnerE : Type → Type :=
| InCage {T} (e : CageE T) : RunnerE T
| PostClaim (run_id runner_id : string) : RunnerE (Result (HttpResponse AgentRunPayload) string)
| PostHeartbeat (run_id runner_id : string) : RunnerE (Result (HttpResponse unit) string)
| PostRunStatus (run_id runner_id status : string) (finished_at : option DateTime) (exit_code : option Z) :
    RunnerE (Result (HttpResponse AgentRunPayload) string)
| GetCommands : RunnerE (Result (HttpResponse (list SignedCommand)) string)
| PostCommandStatus (command_id status : string) : RunnerE (Result (HttpResponse unit) string)
| RunnerUuid : RunnerE Uuid
| Select : RunnerE Branch.

Module Runner.
Section Runner.
Context {X : External} {HX : HostExternal} {ED : Ed25519} {RX : RunExternal} {CX : CageExternal}.

Definition in_cage {A} (p : prog CageE A) : prog RunnerE A := interp (λ T e, trigger (InCage e)) p.

(** ** The client *)

(** [response?] and [parse_response] *)
Definition parsed {T} (r : Result (HttpResponse T) string) : Result T GatewayClientError :=
  match r with Err e => Err (ClientRequest e) | Ok response => Shipper.parse_response response end.

(** The calls whose body is not looked at *)
Definition acknowledged {T} (r : Result (HttpResponse T) string) : Result unit GatewayClientError :=
  match r with
  | Err e => Err (ClientRequest e)
  | Ok response =>
      if Shipper.is_success (hr_status response) then Ok tt
      else Err (RejectedRequest (hr_status response) match hr_text response with Ok t => t | Err _ => "" end)
  end.

Definition claim_run (run_id runner_id : string) : prog RunnerE (Result AgentRunPayload RunnerClientError) :=
  r ← trigger (PostClaim run_id runner_id);
  mret match r with
       | Err e => Err (ClientFailed (ClientRequest e))
       | Ok response =>
           if hr_status response =? 409 then Err ClaimLost
           else match Shipper.parse_response response with Ok run => Ok run | Err e => Err (ClientFailed e) end
       end.

Definition heartbeat_run (run_id runner_id : string) : prog RunnerE (Result unit GatewayClientError) :=
  r ← trigger (PostHeartbeat run_id runner_id); mret (acknowledged r).

Definition update_run_status (run_id runner_id status : string) (finished_at : option DateTime)
    (exit_code : option Z) : prog RunnerE (Result AgentRunPayload GatewayClientError) :=
  r ← trigger (PostRunStatus run_id runner_id status finished_at exit_code); mret (parsed r).

Definition list_control_commands : prog RunnerE (Result (list SignedCommand) GatewayClientError) :=
  r ← trigger GetCommands; mret (parsed r).

Definition update_command_status (command_id status : string) : prog RunnerE (Result unit GatewayClientError) :=
  r ← trigger (PostCommandStatus command_id status); mret (acknowledged r).

(** ** Looking for a run *)

Definition is_start (c : SignedCommand) : bool :=
  (sc_target_type c == "run") && (sc_action c == "start_run") && (sc_status c == "issued").

Fixpoint claim_first (runner_id : string) (commands : list SignedCommand) (receiver : Signing.CommandReceiver) :
    prog RunnerE (option AgentRunPayload * Signing.CommandReceiver) :=
  match commands with
  | [] => mret (None, receiver)
  | cmd :: commands =>
      now ← trigger (InCage CageUtcNow);
      let '(verified, receiver) := Signing.verify receiver cmd now in
      match verified with
      | Err _ =>
          _ ← update_command_status (sc_command_id cmd) "nacked";
          claim_first runner_id commands receiver
      | Ok _ =>
          claimed ← claim_run (sc_target_id cmd) runner_id;
          match claimed with
          | Ok run =>
              _ ← update_command_status (sc_command_id cmd) "acked";
              mret (Some run, receiver)
          | Err ClaimLost =>
              _ ← update_command_status (sc_command_id cmd) "acked";
              claim_first runner_id commands receiver
          | Err (ClientFailed _) => claim_first runner_id commands receiver
          end
      end
  end.

Definition find_and_claim_a_run (runner_id : string) (receiver : Signing.CommandReceiver) :
    prog RunnerE (option AgentRunPayload * Signing.CommandReceiver) :=
  commands ← list_control_commands;
  match commands with
  | Err _ => mret (None, receiver)
  | Ok commands => claim_first runner_id (filter (λ c, is_start c = true) commands) receiver
  end.

(** ** Commands for the run *)

Definition RECOGNIZED_RUN_ACTIONS : list string :=
  ["start_run"; "pause_run"; "resume_run"; "kill_run"; "quarantine_run"].

(** [CommandReceiver::execute]: only whether the action is known *)
Definition recognized (action : string) : bool := existsb (String.eqb action) RECOGNIZED_RUN_ACTIONS.

Definition for_run (run_id : string) (c : SignedCommand) : bool :=
  (sc_target_type c == "run") && (sc_target_id c == run_id) && (sc_action c != "start_run") &&
  (sc_status c == "issued").

Definition message {A} (r : Result A CageError) : Result A string :=
  match r with Ok a => Ok a | Err e => Err (display_cage_error e) end.

Definition dispatch (cmd : SignedCommand) (handle : SandboxHandle) : prog CageE (Result unit string) :=
  if negb (recognized (sc_action cmd)) then mret (Err ("unsupported action: " +:+ sc_action cmd))
  else if sc_action cmd == "pause_run" then r ← DockerRt.pause handle; mret (message r)
  else if sc_action cmd == "resume_run" then r ← DockerRt.resume handle; mret (message r)
  else if sc_action cmd == "kill_run" then
    r ← DockerRt.kill handle (SignedCommandKill (sc_command_id cmd)); mret (message r)
  else if sc_action cmd == "quarantine_run" then
    r ← DockerRt.kill handle (PolicyViolation (default "" (sc_reason cmd))); mret (message r)
  else mret (Err ("unrecognized run action: " +:+ sc_action cmd)).

(** The status of the run that goes with a command that was executed; the second
    component is the new terminal status. *)
Definition report (run_id runner_id : string) (cmd : SignedCommand) (terminal : option string) :
    prog RunnerE (option string) :=
  if sc_action cmd == "pause_run" then
    _ ← update_run_status run_id runner_id "paused" None None; mret terminal
  else if sc_action cmd == "resume_run" then
    _ ← update_run_status run_id runner_id "running" None None; mret terminal
  else if (sc_action cmd == "kill_run") || (sc_action cmd == "quarantine_run") then
    let status := if sc_action cmd == "quarantine_run" then "quarantined" else "killed" in
    now ← trigger (InCage CageUtcNow);
    _ ← update_run_status run_id runner_id status (Some now) None;
    mret (Some status)
  else mret terminal.

(** What the handlers of the loop share: the receiver and the terminal status
    that a command has set *)
Record Shared := { sd_receiver : Signing.CommandReceiver; sd_terminal : option string }.

Definition process_run_command (run_id runner_id : string) (handle : SandboxHandle) (cmd : SignedCommand)
    (s : Shared) : prog RunnerE Shared :=
  now ← trigger (InCage CageUtcNow);
  let '(verified, receiver) := Signing.verify (sd_receiver s) cmd now in
  match verified with
  | Err _ =>
      _ ← update_command_status (sc_command_id cmd) "nacked";
      mret {| sd_receiver := receiver; sd_terminal := sd_terminal s |}
  | Ok _ =>
      outcome ← in_cage (dispatch cmd handle);
      match outcome with
      | Ok _ =>
          terminal ← report run_id runner_id cmd (sd_terminal s);
          _ ← update_command_status (sc_command_id cmd) "acked";
          mret {| sd_receiver := receiver; sd_terminal := terminal |}
      | Err _ =>
          _ ← update_command_status (sc_command_id cmd) "nacked";
          mret {| sd_receiver := receiver; sd_terminal := sd_terminal s |}
      end
  end.

Fixpoint process_run_commands (run_id runner_id : string) (handle : SandboxHandle) (commands : list SignedCommand)
    (s : Shared) : prog RunnerE Shared :=
  match commands with
  | [] => mret s
  | cmd :: commands =>
      s ← process_run_command run_id runner_id handle cmd s;
      process_run_commands run_id runner_id handle commands s
  end.

Definition poll_and_process_run_commands (run_id runner_id : string) (handle : SandboxHandle) (s : Shared) :
    prog RunnerE Shared :=
  commands ← list_control_commands;
  match commands with
  | Err _ => mret s
  | Ok commands =>
      process_run_commands run_id runner_id handle (filter (λ c, for_run run_id c = true) commands) s
  end.

(** ** The wait as a future *)

(** The calls that are awaited; the others are made when the future is polled. *)
Definition awaited {T} (e : CageE T) : bool :=
  match e with Docker _ | CageSleep _ => true | _ => false end.

(** [p] up to its next awaited call *)
Fixpoint settle {A} (p : prog CageE A) : prog RunnerE (prog CageE A) :=
  match p with
  | Ret a => mret (Ret a)
  | Vis e k => if awaited e then mret (Vis e k) else r ← trigger (InCage e); settle (k r)
  end.

(** The awaited call is answered. *)
Definition advance {A} (w : prog CageE A) : prog RunnerE (prog CageE A) :=
  match w with
  | Ret a => mret (Ret a)
  | Vis e k => r ← trigger (InCage e); settle (k r)
  end.

(** ** One run

    The branches of the loop are tried with the wait first ([biased]), so that a
    panic of the wait when it is first polled comes before every other branch.  A
    panic ends the process: [run_one] is awaited by [main]. *)

Context (workspace_root : string) (egress_proxy_container : option string).

(** How the loop ends: by the wait, or by a [return] of a handler *)
Inductive Ending := Waited (r : Result SandboxState CageError) | Returned.

Definition destroy (handle : SandboxHandle) (rt : DockerRuntime) : prog RunnerE DockerRuntime :=
  '(_, rt) ← in_cage (DockerRt.destroy egress_proxy_container handle rt);
  mret rt.

Definition killed_now (run_id runner_id : string) : prog RunnerE unit :=
  now ← trigger (InCage CageUtcNow);
  _ ← update_run_status run_id runner_id "killed" (Some now) None;
  mret tt.

Definition lease_lost (r : Result unit GatewayClientError) : bool :=
  match r with Err (RejectedRequest status _) => status =? 409 | _ => false end.

(** The loop, for [turns] branches *)
Fixpoint loop (turns : nat) (run_id runner_id : string) (handle : SandboxHandle)
    (w : prog CageE (Fate (Result SandboxState CageError))) (s : Shared) (rt : DockerRuntime) :
    prog RunnerE (Fate (Ending * Shared * DockerRuntime)) :=
  match turns with
  | O => mret Unfinished
  | S turns =>
      branch ← trigger Select;
      match branch with
      | WaitReady =>
          w ← advance w;
          match w with
          | Ret (Ended state) => mret (Ended (Waited state, s, rt))
          | Ret Unfinished => mret Unfinished
          | Ret Panicked => mret Panicked
          | _ => loop turns run_id runner_id handle w s rt
          end
      | ShutdownChanged true =>
          _ ← in_cage (DockerRt.kill handle (OperatorRequest "runner-shutdown"));
          rt ← destroy handle rt;
          _ ← killed_now run_id runner_id;
          mret (Ended (Returned, s, rt))
      | ShutdownChanged false => loop turns run_id runner_id handle w s rt
      | HeartbeatTick =>
          r ← heartbeat_run run_id runner_id;
          if lease_lost r then
            _ ← in_cage (DockerRt.kill handle (OperatorRequest "lease-lost"));
            rt ← destroy handle rt;
            mret (Ended (Returned, s, rt))
          else loop turns run_id runner_id handle w s rt
      | ControlTick =>
          s ← poll_and_process_run_commands run_id runner_id handle s;
          loop turns run_id runner_id handle w s rt
      end
  end.

Definition final_status (terminal : option string) (r : Result SandboxState CageError) : string * option Z :=
  match terminal with
  | Some status => (status, None)
  | None =>
      match r with
      | Ok state =>
          (match sx_status state with StKilled | StTimedOut => "killed" | _ => "finished" end, sx_exit_code state)
      | Err _ => ("killed", None)
      end
  end.

Definition SECOND : Z := 1000000000.

Definition supervise (polls turns : nat) (run_id runner_id : string) (timeout_secs : Z) (handle : SandboxHandle)
    (s : Shared) (rt : DockerRuntime) : prog RunnerE (Fate (Shared * DockerRuntime)) :=
  w ← settle (DockerRt.wait_or_kill_on_timeout polls handle (timeout_secs * SECOND));
  ending ← match w with
           | Ret Panicked => mret Panicked
           | _ => loop turns run_id runner_id handle w s rt
           end;
  match ending with
  | Unfinished => mret Unfinished
  | Panicked => mret Panicked
  | Ended (Returned, s, rt) => mret (Ended (s, rt))
  | Ended (Waited final_state, s, rt) =>
      let '(status, exit_code) := final_status (sd_terminal s) final_state in
      now ← trigger (InCage CageUtcNow);
      rt ← destroy handle rt;
      _ ← update_run_status run_id runner_id status (Some now) exit_code;
      mret (Ended (s, rt))
  end.

Definition run_one (polls turns : nat) (run : AgentRunPayload) (runner_id : string)
    (receiver : Signing.CommandReceiver) (rt : DockerRuntime) :
    prog RunnerE (Fate (Signing.CommandReceiver * DockerRuntime)) :=
  id ← trigger RunnerUuid;
  let sandbox_id := uuid_to_string id in
  match Spec.build_sandbox_spec run sandbox_id with
  | Err _ => _ ← killed_now (ap_id run) runner_id; mret (Ended (receiver, rt))
  | Ok spec =>
      '(created, rt) ← in_cage (DockerRt.create workspace_root egress_proxy_container spec rt);
      match created with
      | Err _ => _ ← killed_now (ap_id run) runner_id; mret (Ended (receiver, rt))
      | Ok handle =>
          started ← in_cage (DockerRt.start handle);
          match started with
          | Err _ =>
              rt ← destroy handle rt;
              _ ← killed_now (ap_id run) runner_id;
              mret (Ended (receiver, rt))
          | Ok _ =>
              _ ← update_run_status (ap_id run) runner_id "running" None None;
              r ← supervise polls turns (ap_id run) runner_id (crl_timeout_seconds (ss_resources spec)) handle
                    {| sd_receiver := receiver; sd_terminal := None |} rt;
              mret match r with
                   | Ended (s, rt) => Ended (sd_receiver s, rt)
                   | Panicked => Panicked
                   | Unfinished => Unfinished
                   end
          end
      end
  end.

(** One turn of the main loop: a tick of the timer *)
Definition claim_and_run (polls turns : nat) (runner_id : string) (receiver : Signing.CommandReceiver)
    (rt : DockerRuntime) : prog RunnerE (Fate (Signing.CommandReceiver * DockerRuntime)) :=
  '(run, receiver) ← find_and_claim_a_run runner_id receiver;
  match run with
  | None => mret (Ended (receiver, rt))
  | Some run => run_one polls turns run runner_id receiver rt
  end.
End Runner.
End Runner.
