(* ===== verification/RunnerSafety.v ===== *)
(** * What the cage runner guarantees

    Every container it creates is confined and is removed again, the wait for a
    sandbox ends by its deadline, what it executes is what was registered, and it claims only
    runs the gateway has told it to start. *)

From stdpp Require Import gmap pretty.
From S2P Require Import Prelude RustString Prog Models Records External Runtime Gateway EgressApi RunStore Signing RunApi Spool Shipper Cage Runner.

Local Open Scope Z_scope.

(** ** Programs of the runtime inside the runner *)

Lemma wp_in_cage {S A} (step : ∀ T, RunnerE T → T → S → S) (Q : S → A → Prop) s (p : prog CageE A) :
  wp (λ T e, step T (InCage e)) Q s p → wp step Q s (Runner.in_cage p).
Proof. unfold Runner.in_cage. revert s. induction p as [x|T e k IH]; intros s; simpl; [done|]. eauto. Qed.

Lemma all_calls_in_cage {A} (P : ∀ T, RunnerE T → Prop) (p : prog CageE A) :
  all_calls (λ T e, P T (InCage e)) p → all_calls P (Runner.in_cage p).
Proof.
  unfold Runner.in_cage. induction p as [x|T e k IH]; simpl; [done|]. intros [He Hk]. split; [done|]. eauto.
Qed.

(** Calls the monitor does not look at *)
Lemma wp_keeps {E : Type → Type} {S A} (step : ∀ T, E T → T → S → S) (P : ∀ T, E T → Prop)
    (Q : S → A → Prop) s (p : prog E A) :
  (∀ T e r s, P T e → step T e r s = s) → all_calls P p → (∀ a, Q s a) → wp step Q s p.
Proof.
  intros Hk. revert s. induction p as [x|T e k IH]; intros s; simpl; [auto|].
  intros [He Hp] HQ r. rewrite Hk by done. eauto.
Qed.

Lemma wp_impl {E : Type → Type} {S A} (step : ∀ T, E T → T → S → S) (P Q : S → A → Prop) s (p : prog E A) :
  (∀ s a, P s a → Q s a) → wp step P s p → wp step Q s p.
Proof. intros HPQ. revert s. induction p as [x|T e k IH]; intros s; simpl; [auto|]. eauto. Qed.

Lemma checked_all {E : Type → Type} {A} (P : ∀ T, E T → Prop) (Q : list (event E) → A → Prop) s (p : prog E A) t a :
  safe (Prog.checked (λ _ T e, P T e)) Q s p → runs p t a → Forall (event_sat P) t.
Proof.
  intros Hs Hr%runs_partial. rewrite Forall_forall. intros [T e r] Hin.
  apply in_split in Hin as (t1 & t2 & ->). exact (checked_partial _ _ _ _ _ _ _ _ _ Hs Hr).
Qed.

(** ** No container is left behind *)

Definition container_of (out : DockerOutput) : string := trim (Utf8.from_utf8_lossy (dk_stdout out)).

Definition is_create (args : list string) : bool := bool_decide (head args = Some "create").
(** The container that [docker rm -f] is told to remove *)
Definition removed_id (args : list string) : option string :=
  match args with [a; b; id] => if (a == "rm") && (b == "-f") then Some id else None | _ => None end.

(** The containers that were created and that no one has tried to remove *)
Definition cage_live T (e : CageE T) : T → gset string → gset string :=
  match e with
  | Docker args => λ r L,
      if is_create args then
        match r with Ok out => if dk_success out then {[ container_of out ]} ∪ L else L | Err _ => L end
      else match removed_id args with Some id => L ∖ {[ id ]} | None => L end
  | _ => λ _ L, L
  end.
Definition live_step T (e : RunnerE T) : T → gset string → gset string :=
  match e with InCage e => cage_live _ e | _ => λ _ L, L end.

(** Neither makes nor removes a container *)
Definition cage_quiet T (e : CageE T) : Prop :=
  match e with Docker args => is_create args = false ∧ removed_id args = None | _ => True end.
Definition quiet T (e : RunnerE T) : Prop := match e with InCage e => cage_quiet _ e | _ => True end.

Lemma cage_quiet_keeps T (e : CageE T) r L : cage_quiet T e → cage_live T e r L = L.
Proof. destruct e; try done. simpl. by intros [-> ->]. Qed.
Lemma quiet_keeps T (e : RunnerE T) r L : quiet T e → live_step T e r L = L.
Proof. destruct e; try done. apply cage_quiet_keeps. Qed.

Lemma live_later L t id :
  id ∈ L → id ∉ monitor live_step L t → ∃ r, Call (InCage (Docker ["rm"; "-f"; id])) r ∈ t.
Proof.
  revert L. induction t as [|[T e r] t IH]; intros L Hin Hout; [done|]. simpl in Hout.
  destruct (decide (id ∈ live_step T e r L)) as [Hk|Hk].
  { destruct (IH _ Hk Hout) as [r' H]. exists r'. by right. }
  destruct e as [T e| | | | | | |]; try done. destruct e; try done. simpl in Hk.
  destruct (is_create args) eqn:Hc.
  { exfalso. apply Hk. destruct r as [out|]; [|done]. destruct (dk_success out); set_solver. }
  destruct args as [|a [|b [|c [|]]]]; simpl in Hk; try done.
  destruct (String.eqb_spec a "rm") as [->|]; [|done]. destruct (String.eqb_spec b "-f") as [->|]; [|done].
  simpl in Hk. destruct (decide (id = c)) as [->|Hne]; [exists r; by left|].
  exfalso. apply Hk, elem_of_difference. by rewrite elem_of_singleton.
Qed.

(** ** The runtime *)

Create HintDb cage.

Section Cage.
Context {X : External} {HX : HostExternal} {ED : Ed25519} {RX : RunExternal} {CX : CageExternal}.
Context (workspace_root : string) (egress_proxy_container : option string).

Abbreviation cage_wp := (wp cage_live).

Lemma run_docker_quiet args :
  is_create args = false → removed_id args = None → all_calls cage_quiet (DockerCli.run_docker args).
Proof. intros. unfold DockerCli.run_docker. calls; done. Qed.

Lemma run_docker_unit_quiet args :
  is_create args = false → removed_id args = None → all_calls cage_quiet (DockerCli.run_docker_unit args).
Proof. intros. unfold DockerCli.run_docker_unit. calls. by apply run_docker_quiet. Qed.

Ltac quiet := calls; first [ done | by apply run_docker_unit_quiet | by apply run_docker_quiet | solve [eauto with cage] ].

Lemma emit_quiet ty handle code : all_calls cage_quiet (DockerRt.emit ty handle code).
Proof. unfold DockerRt.emit. quiet. Qed.
Hint Resolve emit_quiet : cage.

Lemma drop_network_quiet n c : all_calls cage_quiet (DockerCli.drop_network n c).
Proof. unfold DockerCli.drop_network. quiet. Qed.
Hint Resolve drop_network_quiet : cage.

Lemma prepare_network_quiet e c : all_calls cage_quiet (DockerCli.prepare_network e c).
Proof. unfold DockerCli.prepare_network. quiet. Qed.

Lemma kill_quiet h r : all_calls cage_quiet (DockerRt.kill h r).
Proof. unfold DockerRt.kill. quiet. Qed.
Hint Resolve kill_quiet : cage.

Lemma create_workspace_quiet root id : all_calls cage_quiet (Workspace.create_isolated_workspace root id).
Proof. unfold Workspace.create_isolated_workspace. quiet. Qed.
Lemma destroy_workspace_quiet d : all_calls cage_quiet (Workspace.destroy_workspace d).
Proof. unfold Workspace.destroy_workspace. quiet. Qed.

Lemma start_quiet h : all_calls cage_quiet (DockerRt.start h).
Proof. unfold DockerRt.start. quiet. Qed.

Lemma status_quiet h : all_calls cage_quiet (DockerRt.status h).
Proof. unfold DockerRt.status, DockerCli.inspect_status. quiet. Qed.
Hint Resolve status_quiet : cage.

Lemma wait_quiet n h d : all_calls cage_quiet (DockerRt.wait_until n h d).
Proof. induction n as [|n IH]; cbn [DockerRt.wait_until]; quiet. Qed.

Lemma wait_or_kill_quiet n h timeout : all_calls cage_quiet (DockerRt.wait_or_kill_on_timeout n h timeout).
Proof. split; [done|]. intros now. simpl. destruct (DockerRt.instant_add now timeout); [apply wait_quiet|done]. Qed.

Lemma dispatch_quiet c h : all_calls cage_quiet (Runner.dispatch c h).
Proof. unfold Runner.dispatch. quiet. Qed.

Lemma cage_step_quiet {A} (Q : gset string → A → Prop) L p :
  all_calls cage_quiet p → (∀ a, Q L a) → cage_wp Q L p.
Proof. intros Hp HQ. apply (wp_keeps _ cage_quiet); [apply cage_quiet_keeps|done|done]. Qed.

(** Creating adds the container of the handle, or nothing. *)
Lemma create_live spec rt L :
  cage_wp (λ L' r, match r.1 with Ok h => L' = {[ sh_backend_id h ]} ∪ L | Err _ => L' = L end) L
    (DockerRt.create workspace_root egress_proxy_container spec rt).
Proof.
  unfold DockerRt.create. destruct (Spec.validate spec); [|done]. apply wp_bind.
  apply cage_step_quiet; [apply create_workspace_quiet|].
  intros [dir|e]; [|done]. apply wp_bind. unfold DockerCli.create, try_bind. apply wp_bind.
  apply cage_step_quiet; [apply prepare_network_quiet|].
  assert (∀ e : CageError, cage_wp (λ L' r, match r.1 with Ok h => L' = {[ sh_backend_id h ]} ∪ L | Err _ => L' = L end) L
    (_ ← Workspace.destroy_workspace dir; mret (Err e : Result SandboxHandle CageError, rt))) as Hfail.
  { intros e. apply wp_bind, cage_step_quiet; [apply destroy_workspace_quiet|done]. }
  intros [[]|e]; [|apply Hfail].
  assert (∀ e : CageError, cage_wp (λ s a, cage_wp
      (λ L' r, match r.1 with Ok h => L' = {[ sh_backend_id h ]} ∪ L | Err _ => L' = L end) s
      (match a with
       | Err e => _ ← Workspace.destroy_workspace dir; mret (Err e, rt)
       | Ok (container_id, network) =>
           now ← trigger CageUtcNow;
           mret (Ok {| sh_sandbox_id := ss_sandbox_id spec; sh_backend_id := container_id;
                       sh_tenant_id := ss_tenant_id spec; sh_run_id := ss_run_id spec; sh_created_at := now |},
                 DockerRt.remember (ss_sandbox_id spec) dir network rt)
       end)) L
    (_ ← (if DockerCli.ep_create_isolated_network (DockerCli.plan_egress_network spec egress_proxy_container)
          then DockerCli.drop_network (DockerCli.ep_docker_network (DockerCli.plan_egress_network spec egress_proxy_container))
                 egress_proxy_container else mret tt);
     mret (Err e : Result (string * option string) CageError))) as Hdrop.
  { intros e. apply wp_bind. apply cage_step_quiet; [case_match; [apply drop_network_quiet|done]|].
    intros _. apply Hfail. }
  apply wp_bind. unfold DockerCli.run_docker. cbn. intros [out|e]; cbn; [|apply Hdrop].
  destruct (dk_success out) eqn:Hs; cbn; [done|apply Hdrop].
Qed.

Lemma destroy_live h rt L :
  cage_wp (λ L' _, L' = L ∖ {[ sh_backend_id h ]}) L (DockerRt.destroy egress_proxy_container h rt).
Proof.
  unfold DockerRt.destroy, DockerCli.remove, DockerCli.run_docker_unit, DockerCli.run_docker.
  assert (∀ rt1, all_calls cage_quiet (_ ← DockerRt.destroy_network egress_proxy_container (dr_networks rt !! sh_sandbox_id h);
    _ ← DockerRt.emit AgentRunFinished h None; mret (Ok tt : Result unit CageError, rt1 : DockerRuntime))) as Hrest.
  { intros rt1. unfold DockerRt.destroy_network. quiet. }
  cbn. intros [out|e]; cbn; [|done]. destruct (dk_success out); cbn; [|done].
  apply wp_bind. apply cage_step_quiet.
  { case_match; [apply destroy_workspace_quiet|done]. }
  intros [[]|e]; [|done]. apply cage_step_quiet; [apply Hrest|done].
Qed.

(** ** The runner *)

Lemma in_cage_quiet {A} (p : prog CageE A) : all_calls cage_quiet p → all_calls quiet (Runner.in_cage p).
Proof. apply (all_calls_in_cage quiet). Qed.

Lemma runner_step_quiet {A} (Q : gset string → A → Prop) L p :
  all_calls quiet p → (∀ a, Q L a) → wp live_step Q L p.
Proof. intros Hp HQ. apply (wp_keeps _ quiet); [apply quiet_keeps|done|done]. Qed.

Lemma commands_quiet run_id runner_id h cmds s :
  all_calls quiet (Runner.process_run_commands run_id runner_id h cmds s).
Proof.
  revert s. induction cmds as [|c cmds IH]; intros s; cbn [Runner.process_run_commands]; [done|].
  apply all_calls_bind; [|auto]. unfold Runner.process_run_command, Runner.report, Runner.update_run_status,
    Runner.update_command_status. calls; try done. apply in_cage_quiet, dispatch_quiet.
Qed.

Lemma poll_quiet run_id runner_id h s : all_calls quiet (Runner.poll_and_process_run_commands run_id runner_id h s).
Proof.
  unfold Runner.poll_and_process_run_commands, Runner.list_control_commands. calls; try done. apply commands_quiet.
Qed.

(** What is left of a future that makes quiet calls is one. *)
Lemma settle_live {A} (p : prog CageE A) Q L :
  all_calls cage_quiet p → (∀ w, all_calls cage_quiet w → Q L w) → wp live_step Q L (Runner.settle p).
Proof.
  induction p as [x|T e k IH]; simpl; [auto|]. intros [He Hk] HQ.
  destruct (Runner.awaited e); [by apply HQ|]. simpl. intros r.
  change (cage_live T e r L) with (live_step T (InCage e) r L). rewrite (quiet_keeps T (InCage e) r L He).
  by apply IH.
Qed.

Lemma advance_live {A} (w : prog CageE A) Q L :
  all_calls cage_quiet w → (∀ w, all_calls cage_quiet w → Q L w) → wp live_step Q L (Runner.advance w).
Proof.
  destruct w as [x|T e k]; [by intros _ HQ; apply HQ|]. intros [He Hk] HQ r.
  change (cage_live T e r L) with (live_step T (InCage e) r L). rewrite (quiet_keeps T (InCage e) r L He).
  by apply settle_live.
Qed.

Abbreviation loop := (Runner.loop egress_proxy_container).

Lemma destroy_wp {A} h rt L (Q : gset string → A → Prop) k :
  (∀ rt', wp live_step Q (L ∖ {[ sh_backend_id h ]}) (k rt')) →
  wp live_step Q L (prog_bind k (Runner.destroy egress_proxy_container h rt)).
Proof.
  intros Hk. apply wp_bind. unfold Runner.destroy. apply wp_bind, wp_in_cage.
  eapply wp_impl; [|apply destroy_live]. intros s [r rt'] ->. apply Hk.
Qed.

Lemma loop_live turns run_id runner_id h w s rt L :
  all_calls cage_quiet w →
  wp live_step (λ L' r, match r with
                        | Ended (Runner.Waited _, _, _) => L' = L
                        | Ended (Runner.Returned, _, _) => L' = L ∖ {[ sh_backend_id h ]}
                        | _ => True
                        end) L (loop turns run_id runner_id h w s rt).
Proof.
  revert w s. induction turns as [|turns IH]; intros w s Hw; cbn [Runner.loop]; [done|].
  apply wp_bind. intros [|[]| |]; cbn [wp live_step].
  - apply wp_bind, advance_live; [done|]. intros [[| |state]|T e k] Hw'; [done..|by apply IH].
  - apply wp_bind, runner_step_quiet; [apply in_cage_quiet, kill_quiet|]. intros _. apply destroy_wp. intros rt'.
    apply wp_bind, runner_step_quiet; [|done]. unfold Runner.killed_now, Runner.update_run_status. calls; done.
  - by apply IH.
  - apply wp_bind, runner_step_quiet; [unfold Runner.heartbeat_run; calls; done|]. intros r.
    destruct (Runner.lease_lost r); [|by apply IH].
    apply wp_bind, runner_step_quiet; [apply in_cage_quiet, kill_quiet|]. intros _. by apply destroy_wp.
  - apply wp_bind, runner_step_quiet; [apply poll_quiet|]. intros s'. by apply IH.
Qed.

(** The loop, or the panic of the wait *)
Lemma waiting_live turns run_id runner_id h w s rt L :
  all_calls cage_quiet w →
  wp live_step (λ L' r, match r with
                        | Ended (Runner.Waited _, _, _) => L' = L
                        | Ended (Runner.Returned, _, _) => L' = L ∖ {[ sh_backend_id h ]}
                        | _ => True
                        end) L
    (match w with Ret Panicked => mret Panicked | _ => loop turns run_id runner_id h w s rt end).
Proof. intros Hw. destruct w as [[| |x]|T e k]; try (by apply loop_live); done. Qed.

Abbreviation run_one := (Runner.run_one workspace_root egress_proxy_container).

Lemma run_one_live polls turns run runner_id receiver rt L :
  wp live_step (λ L' r, match r with Ended _ => L' ⊆ L | _ => True end) L (run_one polls turns run runner_id receiver rt).
Proof.
  assert (∀ (x : Signing.CommandReceiver * DockerRuntime) L', L' ⊆ L →
    wp live_step (λ L' r, match r with Ended _ => L' ⊆ L | _ => True end) L' (_ ← Runner.killed_now (ap_id run) runner_id; mret (Ended x))) as Hk.
  { intros x L' HL. apply runner_step_quiet; [|by intros []].
    unfold Runner.killed_now, Runner.update_run_status. calls; done. }
  unfold Runner.run_one. apply wp_bind. intros id. cbn [wp live_step].
  destruct (Spec.build_sandbox_spec run (uuid_to_string id)) as [spec|]; [|by apply Hk].
  apply wp_bind, wp_in_cage. eapply wp_impl; [|apply create_live]. intros L' [[h|e] rt'] HL'; simpl in HL'; [|by apply Hk; subst].
  apply wp_bind, runner_step_quiet; [apply in_cage_quiet, start_quiet|].
  assert (L' ∖ {[ sh_backend_id h ]} ⊆ L) as Hsub by (subst L'; set_solver).
  intros [[]|e]; [|apply destroy_wp; intros; by apply Hk].
  apply wp_bind, runner_step_quiet; [unfold Runner.update_run_status; calls; done|]. intros _.
  apply wp_bind. unfold Runner.supervise. apply wp_bind, settle_live; [apply wait_or_kill_quiet|].
  intros w Hw. apply wp_bind. eapply wp_impl; [|by apply waiting_live].
  intros L2 [| |[[[st|] s2] rt2]] HL2; [done|done|subst L2|by subst L2].
  destruct (Runner.final_status _ _) as [status code]. apply wp_bind. intros now. cbn [wp live_step cage_live].
  apply destroy_wp. intros rt3. apply runner_step_quiet; [unfold Runner.update_run_status; calls; done|].
  by intros [| |[]].
Qed.

(** ** The end of the run is reported *)

(** The end of the run, with its time, was reported by the last call; a lease was
    refused by some call. *)
Definition reported_step (run_id runner_id : string) T (e : RunnerE T) : T → bool * bool → bool * bool :=
  match e with
  | PostRunStatus i r _ (Some _) _ => λ _ s, (s.1, (i == run_id) && (r == runner_id))
  | PostHeartbeat i r => λ a s,
      (s.1 || ((i == run_id) && (r == runner_id) && Runner.lease_lost (Runner.acknowledged a)), false)
  | _ => λ _ s, (s.1, false)
  end.

Lemma reported_last run_id runner_id s t :
  (monitor (reported_step run_id runner_id) s t).2 = true →
  s.2 = true ∨ ∃ t0 st now code r, t = t0 ++ [Call (PostRunStatus run_id runner_id st (Some now) code) r].
Proof.
  destruct t as [|ev t] using rev_ind; [by left|]. unfold monitor. rewrite fold_left_app. clear IHt. simpl.
  set (s' := fold_left _ t s). destruct ev as [T e r]. destruct e; simpl; try done.
  destruct finished_at as [now|]; [|done]. intros [->%String.eqb_eq ->%String.eqb_eq]%andb_true_iff.
  right. by exists t, status, now, exit_code, r.
Qed.

Lemma refused_before run_id runner_id s t :
  (monitor (reported_step run_id runner_id) s t).1 = true →
  s.1 = true ∨ ∃ resp, Call (PostHeartbeat run_id runner_id) (Ok resp) ∈ t ∧ hr_status resp = 409.
Proof.
  revert s. induction t as [|[T e r] t IH]; intros s; [by left|].
  intros [H|(resp & Hin & Hr)]%IH; [|right; exists resp; split; [by right|done]].
  destruct e; simpl in H; try (by left); [|destruct finished_at; by left].
  apply orb_true_iff in H as [H|H]; [by left|]. right.
  apply andb_true_iff in H as [[->%String.eqb_eq ->%String.eqb_eq]%andb_true_iff H].
  destruct r as [resp|]; [|done]. simpl in H. destruct (Shipper.is_success _); [done|]. simpl in H.
  exists resp. split; [by left|]. by apply Z.eqb_eq.
Qed.

Lemma wp_true {E : Type → Type} {S A} (step : ∀ T, E T → T → S → S) (Q : S → A → Prop) s (p : prog E A) :
  (∀ s a, Q s a) → wp step Q s p.
Proof. intros HQ. revert s. induction p as [x|T e k IH]; intros s; simpl; eauto. Qed.

Section Report.
Context (run_id runner_id : string).
Abbreviation step := (reported_step run_id runner_id).

(** A lease that was refused stays refused. *)
Lemma lost_stays {A} (Q : bool * bool → A → Prop) s (p : prog RunnerE A) :
  s.1 = true → (∀ s a, s.1 = true → Q s a) → wp step Q s p.
Proof.
  intros Hs HQ. revert s Hs. induction p as [x|T e k IH]; intros s Hs; simpl; [auto|]. intros r. apply IH.
  destruct e; simpl; try done; [by rewrite Hs|]. by destruct finished_at.
Qed.

Lemma status_reports {B} (Q : bool * bool → B → Prop) s st now code k :
  (∀ s, s.2 = true → Q s k) →
  wp step Q s (prog_bind (λ _, Ret k) (Runner.update_run_status run_id runner_id st (Some now) code)).
Proof. intros HQ. cbn. intros r. apply HQ. simpl. by rewrite !String.eqb_refl. Qed.

Lemma killed_now_reports {B} (Q : bool * bool → B → Prop) s k :
  (∀ s, s.2 = true → Q s k) → wp step Q s (prog_bind (λ _, Ret k) (Runner.killed_now run_id runner_id)).
Proof. intros HQ. cbn. intros now r. apply HQ. simpl. by rewrite !String.eqb_refl. Qed.

Lemma loop_reports turns h w sh rt s :
  wp step (λ s r, match r with Ended (Runner.Returned, _, _) => s.1 = true ∨ s.2 = true | _ => True end) s
    (loop turns run_id runner_id h w sh rt).
Proof.
  revert w sh s. induction turns as [|turns IH]; intros w sh s; cbn [Runner.loop]; [done|].
  apply wp_bind. intros [|[]| |]; cbn [wp].
  - apply wp_bind, wp_true. intros s' [[| |state]|T e k]; [done..|apply IH].
  - apply wp_bind, wp_true. intros s' _. apply wp_bind, wp_true. intros s2 rt'.
    apply killed_now_reports. by right.
  - apply IH.
  - apply wp_bind. unfold Runner.heartbeat_run. apply wp_bind. intros a. cbn [wp mret prog_mret reported_step].
    destruct (Runner.lease_lost (Runner.acknowledged a)); [|apply IH].
    apply lost_stays; [by rewrite !String.eqb_refl, orb_true_r|]. intros s' [| |[[[] ?] ?]] Hs; auto.
  - apply wp_bind, wp_true. intros s' sh'. apply IH.
Qed.

Lemma waiting_reports turns h w sh rt s :
  wp step (λ s r, match r with Ended (Runner.Returned, _, _) => s.1 = true ∨ s.2 = true | _ => True end) s
    (match w with Ret Panicked => mret Panicked | _ => loop turns run_id runner_id h w sh rt end).
Proof. destruct w as [[| |x]|T e k]; try apply loop_reports; done. Qed.
End Report.

(** ** A panic *)

(** No run of the program ends in a panic. *)
Definition calm {E : Type → Type} {A} (p : prog E (Fate A)) : Prop :=
  wp (λ _ _ _ u, u) (λ (_ : unit) a, a ≠ Panicked) tt p.

Lemma calm_settle {A} (p : prog CageE (Fate A)) :
  calm p → wp (λ _ _ _ u, u) (λ (_ : unit) w, calm w) tt (Runner.settle p).
Proof.
  unfold calm. induction p as [x|T e k IH]; [done|]. intros Hk. cbn [Runner.settle].
  destruct (Runner.awaited e); [done|]. intros r. apply IH, Hk.
Qed.

Lemma calm_loop turns run_id runner_id h w sh rt :
  calm w → calm (loop turns run_id runner_id h w sh rt).
Proof.
  unfold calm. revert w sh. induction turns as [|turns IH]; intros w sh Hw; cbn [Runner.loop]; [done|].
  apply wp_bind. intros [|[]| |]; cbn [wp].
  - apply wp_bind. assert (wp (λ _ _ _ u, u) (λ (_ : unit) w, calm w) tt (Runner.advance w)) as Ha.
    { destruct w as [x|T e k]; [exact Hw|]. intros r. apply calm_settle, Hw. }
    eapply wp_impl; [|exact Ha]. intros [] [[| |state]|T e k] Hw'; [done|by destruct Hw'|done|by apply IH].
  - apply wp_bind, wp_true. intros [] _. apply wp_bind, wp_true. intros [] rt'. apply wp_bind, wp_true. done.
  - by apply IH.
  - apply wp_bind, wp_true. intros [] a. destruct (Runner.lease_lost a); [|by apply IH].
    apply wp_bind, wp_true. intros [] _. apply wp_bind, wp_true. done.
  - apply wp_bind, wp_true. intros [] sh'. by apply IH.
Qed.

Lemma calm_wait n h deadline : calm (DockerRt.wait_until n h deadline).
Proof.
  unfold calm. induction n as [|n IH]; cbn [DockerRt.wait_until]; [done|].
  apply wp_bind, wp_true. intros [] [st|e]; [|done]. destruct (negb _); [by intros ?|].
  apply wp_bind. intros now. cbn [wp]. destruct (deadline <=? now).
  - apply wp_bind, wp_true. intros [] [u|e]; done.
  - apply wp_bind. intros now2. cbn [wp]. apply wp_bind. intros u. apply IH.
Qed.

(** The supervision of a sandbox panics only when the deadline does not fit. *)
Lemma supervise_panics polls turns run_id runner_id timeout_secs h sh rt t :
  runs (Runner.supervise egress_proxy_container polls turns run_id runner_id timeout_secs h sh rt) t Panicked →
  ∃ now, Call (InCage InstantNow) now ∈ t ∧ DockerRt.INSTANT_MAX < now + timeout_secs * Runner.SECOND.
Proof.
  unfold Runner.supervise. intros (t1 & w & t2 & -> & H1 & H)%runs_bind.
  destruct H1 as (now & t3 & -> & H1). exists now. split; [set_solver|].
  cbn in H1. unfold DockerRt.instant_add in H1. destruct (Z.leb_spec (now + timeout_secs * Runner.SECOND) DockerRt.INSTANT_MAX) as [Hle|?]; [|done].
  exfalso. pose proof (wp_runs _ _ _ _ _ _ (calm_settle _ (calm_wait polls h (now + timeout_secs * Runner.SECOND))) H1) as Hw.
  apply runs_bind in H as (t4 & ending & t5 & -> & H2 & H).
  assert (ending ≠ Panicked) as Hne.
  { eapply (wp_runs (λ _ _ _ u, u) (λ (_ : unit) a, a ≠ Panicked)); [|exact H2].
    assert (calm (loop turns run_id runner_id h w sh rt)) as Hl by (by apply calm_loop).
    destruct w as [[| |x]|T e k]; done. }
  destruct ending as [| |[[[] ?] ?]]; [by destruct H| done| |by destruct H].
  destruct (Runner.final_status _ _). by prog_run H.
Qed.

Lemma run_one_reports polls turns run runner_id receiver rt s :
  wp (reported_step (ap_id run) runner_id) (λ s r, match r with Ended _ => s.1 = true ∨ s.2 = true | _ => True end) s
    (run_one polls turns run runner_id receiver rt).
Proof.
  assert (∀ s (x : Signing.CommandReceiver * DockerRuntime),
    wp (reported_step (ap_id run) runner_id) (λ s r, match r with Ended _ => s.1 = true ∨ s.2 = true | _ => True end) s
      (_ ← Runner.killed_now (ap_id run) runner_id; mret (Ended x))) as Hk.
  { intros s0 x. apply killed_now_reports. auto. }
  unfold Runner.run_one. apply wp_bind. intros id. cbn [wp].
  destruct (Spec.build_sandbox_spec run (uuid_to_string id)) as [spec|]; [|apply Hk].
  apply wp_bind, wp_true. intros s1 [[h|e] rt1]; [|apply Hk]. apply wp_bind, wp_true. intros s2 [[]|e].
  2: { apply wp_bind, wp_true. intros. apply Hk. }
  apply wp_bind, wp_true. intros s3 _. apply wp_bind. unfold Runner.supervise. apply wp_bind, wp_true. intros s4 w.
  apply wp_bind. eapply wp_impl; [|apply (waiting_reports _ _ _ _ w)].
  intros s5 [| |[[[st|] sh] rt2]] Hs5; [done|done| |done].
  destruct (Runner.final_status _ _) as [status code]. apply wp_bind. intros now. apply wp_bind, wp_true. intros s6 rt3.
  apply status_reports. by right.
Qed.

Lemma run_one_panics polls turns run runner_id receiver rt t :
  runs (run_one polls turns run runner_id receiver rt) t Panicked →
  ∃ id spec now, Call RunnerUuid id ∈ t ∧ Spec.build_sandbox_spec run (uuid_to_string id) = Ok spec ∧
    Call (InCage InstantNow) now ∈ t ∧
    DockerRt.INSTANT_MAX < now + crl_timeout_seconds (ss_resources spec) * Runner.SECOND.
Proof.
  unfold Runner.run_one. intros (t1 & id & t2 & -> & H1 & H)%runs_bind. apply runs_trigger in H1 as ->.
  destruct (Spec.build_sandbox_spec run (uuid_to_string id)) as [spec|e] eqn:Hspec; [|by prog_run H].
  apply runs_bind in H as (t3 & [[h|e] rt1] & t4 & -> & _ & H); [|by prog_run H].
  apply runs_bind in H as (t5 & [[]|e] & t6 & -> & _ & H).
  2: { apply runs_bind in H as (? & ? & ? & _ & _ & H). by prog_run H. }
  apply runs_bind in H as (t7 & u & t8 & -> & _ & H). apply runs_bind in H as (t9 & f & t10 & -> & H2 & [-> Hf]).
  destruct f as [| |[]]; [done| |done]. apply supervise_panics in H2 as (now & Hin & Hlt).
  exists id, spec, now. split; [by left|]. split; [done|]. split; [set_solver|done].
Qed.

(** C26: a run ends with nothing left behind.  Whatever the gateway, [docker], the
    timers and the shutdown flag do, when the execution of a claimed run ends,
    every container that was created for it has since been given to [docker rm
    -f]; and the last thing the runner did was to report the end of the run with
    its time, unless the gateway has told it that it lost the claim.  The one
    other way out is a panic, which ends the process and leaves the container
    ([RunScenarios.huge_timeout_leaves_container]); it happens only when the
    timeout of the run, which nothing bounds from above, takes the deadline past
    the last instant the clock can show. *)
Theorem finished_run_leaves_nothing polls turns run runner_id receiver rt t x :
  runs (run_one polls turns run runner_id receiver rt) t x →
  match x with
  | Unfinished => True
  | Panicked =>
      ∃ id spec now, Call RunnerUuid id ∈ t ∧ Spec.build_sandbox_spec run (uuid_to_string id) = Ok spec ∧
        Call (InCage InstantNow) now ∈ t ∧
        DockerRt.INSTANT_MAX < now + crl_timeout_seconds (ss_resources spec) * Runner.SECOND
  | Ended _ =>
      (∀ t1 args out t2, t = t1 ++ Call (InCage (Docker ("create" :: args))) (Ok out) :: t2 → dk_success out = true →
         ∃ r, Call (InCage (Docker ["rm"; "-f"; container_of out])) r ∈ t2) ∧
      ((∃ t0 st now code r, t = t0 ++ [Call (PostRunStatus (ap_id run) runner_id st (Some now) code) r]) ∨
       ∃ resp, Call (PostHeartbeat (ap_id run) runner_id) (Ok resp) ∈ t ∧ hr_status resp = 409)
  end.
Proof.
  intros Hr. destruct x as [| |x]; [done|by apply run_one_panics in Hr|]. split.
  - intros t1 args out t2 -> Hs.
    pose proof (wp_runs _ _ _ _ _ _ (run_one_live polls turns run runner_id receiver rt ∅) Hr) as HL.
    unfold monitor in HL. rewrite fold_left_app in HL. simpl in HL. rewrite Hs in HL.
    eapply live_later; [|intros Hin; apply HL, elem_of_empty in Hin; exact Hin]. by apply elem_of_union_l, elem_of_singleton.
  - destruct (wp_runs _ _ _ _ _ _ (run_one_reports polls turns run runner_id receiver rt (false, false)) Hr) as [H|H].
    + right. by destruct (refused_before _ _ _ _ H).
    + left. by destruct (reported_last _ _ _ _ H).
Qed.
End Cage.

(** ** The wait ends by its deadline *)

(** A clock that does not go back, and that moves at least as far as a sleep
    lasts; [s] is the earliest time it can show. *)
Fixpoint ticking (s : Z) (t : list (event CageE)) : Prop :=
  match t with
  | [] => True
  | Call e r :: t =>
      match e in CageE T return T → Prop with
      | InstantNow => λ now, s <= now ∧ ticking now t
      | CageSleep d => λ _, ticking (s + Z.max 0 d) t
      | _ => λ _, ticking s t
      end r
  end.

Section Deadline.
Context {RX : RunExternal} {CX : CageExternal}.

Definition timeless T (e : CageE T) : Prop := match e with InstantNow | CageSleep _ => False | _ => True end.

Lemma ticking_app s t t' : Forall (event_sat timeless) t → ticking s (t ++ t') ↔ ticking s t'.
Proof.
  induction 1 as [|[T e r] t He _ IH]; [done|]. simpl. destruct e; done.
Qed.

Lemma status_timeless h : all_calls timeless (DockerRt.status h).
Proof. unfold DockerRt.status, DockerCli.inspect_status, DockerCli.run_docker. calls; done. Qed.

(** A wait that has not ended after [n] looks has not reached its deadline. *)
Lemma unfinished_wait n h deadline s t :
  runs (DockerRt.wait_until n h deadline) t Unfinished → ticking s t →
  n = 0%nat ∨ Z.of_nat (n - 1) * DockerRt.POLL_INTERVAL < deadline - s.
Proof.
  revert s t. induction n as [|n IH]; intros s t H Ht; [by left|]. right. cbn [DockerRt.wait_until] in H.
  apply runs_bind in H as (t1 & st & t2 & -> & H1 & H).
  rewrite ticking_app in Ht by (eapply all_calls_runs; [apply status_timeless|exact H1]). clear H1.
  destruct st as [state|e]; [|by destruct H].
  destruct (negb (bool_decide (sx_status state = StRunning))).
  { by apply runs_bind in H as (? & ? & ? & _ & _ & [_ [=]]). }
  apply runs_bind in H as (t3 & now1 & t4 & -> & Hc & H). apply runs_trigger in Hc as ->. destruct Ht as [Hs1 Ht].
  destruct (Z.leb_spec deadline now1) as [Hd|Hd].
  { apply runs_bind in H as (? & [[]|] & ? & _ & _ & H); by destruct H. }
  apply runs_bind in H as (t3 & now2 & t5 & -> & Hc & H). apply runs_trigger in Hc as ->. destruct Ht as [Hs2 Ht].
  apply runs_bind in H as (t3 & u & t6 & -> & Hc & H). apply runs_trigger in Hc as ->. simpl in Ht.
  unfold DockerRt.POLL_INTERVAL in *.
  destruct (IH _ _ H Ht) as [->|IH']; [|destruct n as [|n]]; simpl in *; [lia|lia|].
  rewrite Nat.sub_0_r in IH'. lia.
Qed.

Lemma status_seen h t st : runs (DockerRt.status h) t (Ok st) → sx_status st ≠ StTimedOut.
Proof.
  unfold DockerRt.status, DockerCli.inspect_status. intros H.
  apply runs_try_bind in H as [(t1 & out & t2 & -> & _ & H)|(e & [=] & _)].
  destruct (split_once DockerCli.tab out) as [[s c]|]; [|by destruct H]. destruct H as [_ [=]]. subst st. simpl.
  unfold DockerCli.status_of. by repeat case_match.
Qed.

(** What a wait answers: a container that is not running, or one that was killed *)
Lemma wait_ended n h deadline t state :
  runs (DockerRt.wait_until n h deadline) t (Ended (Ok state)) →
  sx_status state ≠ StRunning ∧
  (sx_status state = StTimedOut → ∃ r, Call (Docker ["kill"; sh_backend_id h]) r ∈ t).
Proof.
  revert t. induction n as [|n IH]; intros t H; [by destruct H|]. cbn [DockerRt.wait_until] in H.
  apply runs_bind in H as (t1 & [st|e] & t2 & -> & Hst & H); [|by destruct H].
  case_bool_decide as Hrun; cbn [negb] in H.
  - apply runs_bind in H as (t3 & now1 & t4 & -> & _ & H). destruct (deadline <=? now1).
    + apply runs_bind in H as (t5 & [[]|] & t6 & -> & Hk & [_ [=]]). subst. split; [done|]. intros _.
      destruct Hk as (r & t7 & -> & _). exists r. set_solver.
    + apply runs_bind in H as (t5 & now2 & t6 & -> & _ & H).
      apply runs_bind in H as (t7 & u & t8 & -> & _ & H). destruct (IH _ H) as [Hr Hk]. split; [done|].
      intros [r Hin]%Hk. exists r. set_solver.
  - apply runs_bind in H as (? & ? & ? & _ & _ & [_ [=]]). subst. split; [done|].
    intros Ho. by destruct (status_seen _ _ _ Hst).
Qed.

(** C27: the wait for a sandbox ends by its deadline.  On a clock that moves as
    far as the sleeps last, it ends within one look at the container per fifth
    of a second of the timeout, and one more: with the state of a container that
    is not running any more, or with a container that was given to [docker kill],
    or because [docker] fails; or it panics at once, because the deadline is past
    the last instant the clock can show.  The looks are those of the wait alone:
    the loop of a run does not poll the wait while it awaits an answer of the
    gateway, for which the client sets no timeout. *)
Theorem wait_ends_by_deadline n h timeout s t a :
  runs (DockerRt.wait_or_kill_on_timeout n h timeout) t a → ticking s t →
  timeout <= Z.of_nat n * 200000000 - 200000000 → n ≠ 0%nat →
  match a with
  | Unfinished => False
  | Panicked => ∃ now, t = [Call InstantNow now] ∧ DockerRt.INSTANT_MAX < now + timeout
  | Ended (Ok state) => sx_status state ≠ StRunning ∧
      (sx_status state = StTimedOut → ∃ o, Call (Docker ["kill"; sh_backend_id h]) o ∈ t)
  | Ended (Err _) => True
  end.
Proof.
  intros H Ht Hn Hn0. apply runs_bind in H as (t1 & now & t2 & -> & H1 & H). apply runs_trigger in H1 as ->.
  simpl in Ht. destruct Ht as [_ Ht]. unfold DockerRt.instant_add in H.
  destruct (Z.leb_spec (now + timeout) DockerRt.INSTANT_MAX) as [Hfit|Hfit].
  2: { destruct H as [-> ->]. by exists now. }
  destruct a as [| |[state|e]]; [| | |done].
  - destruct (unfinished_wait _ _ _ _ _ H Ht) as [?|Hlt]; [done|]. unfold DockerRt.POLL_INTERVAL in Hlt. lia.
  - by destruct (wp_runs _ _ _ _ _ _ (calm_wait n h (now + timeout)) H).
  - destruct (wait_ended _ _ _ _ _ H) as [Hr Hk]. split; [done|]. intros [o Ho]%Hk. exists o. by right.
Qed.
End Deadline.

(** ** Every container is confined *)

(** The command line of [docker create] as its manual describes it: options, of
    which [--read-only] takes no value, up to [--]; then the image and its
    command.  An option that is not listed is not read. *)
Definition VALUED_OPTIONS : list string :=
  ["--name"; "--network"; "--cap-drop"; "--security-opt"; "--pids-limit"; "--memory"; "--cpus"; "--tmpfs";
   "-v"; "-w"; "-e"].

Fixpoint read_options (args : list string) : option (list (string * string) * list string) :=
  match args with
  | [] => None
  | f :: rest =>
      if f == "--" then Some ([], rest)
      else if f == "--read-only" then '(o, r) ← read_options rest; Some ((f, "") :: o, r)
      else if existsb (String.eqb f) VALUED_OPTIONS then
        match rest with
        | [] => None
        | v :: rest => '(o, r) ← read_options rest; Some ((f, v) :: o, r)
        end
      else None
  end.

Definition values (f : string) (opts : list (string * string)) : list string :=
  map snd (List.filter (λ o, o.1 == f) opts).

Section Confined.
Context {X : External} {HX : HostExternal} {ED : Ed25519} {RX : RunExternal} {CX : CageExternal}.
Context (workspace_root : string) (egress_proxy_container : option string).

Definition tenant_values (environment : list (string * string)) : list string :=
  flat_map (λ e, if DockerCli.forced_key e.1 then [] else [e.1 +:+ "=" +:+ e.2]) environment.
Definition proxy_values (spec : SandboxSpec) (url : option string) : list string :=
  match url with
  | None => []
  | Some url =>
      map (λ key, key +:+ "=" +:+ url) ["HTTP_PROXY"; "HTTPS_PROXY"; "http_proxy"; "https_proxy"] ++
      ["NO_PROXY="; "no_proxy="] ++
      match cns_allowed_destinations (ss_network spec) with
      | [] => []
      | l => ["AEGIS_EGRESS_ALLOWED_DESTINATIONS=" +:+ DockerCli.join_comma l]
      end
  end.

Definition set_each (vs : list string) : list string := flat_map (λ v, ["-e"; v]) vs.

Lemma set_each_app vs ws : set_each (vs ++ ws) = set_each vs ++ set_each ws.
Proof. apply flat_map_app. Qed.

Lemma tenant_env_set env : DockerCli.tenant_env env = set_each (tenant_values env).
Proof.
  induction env as [|e env IH]; [done|].
  change (tenant_values (e :: env)) with
    ((if DockerCli.forced_key e.1 then [] else [e.1 +:+ "=" +:+ e.2]) ++ tenant_values env).
  rewrite set_each_app, <- IH. unfold DockerCli.tenant_env. simpl. by destruct (DockerCli.forced_key e.1).
Qed.

Lemma proxy_env_set spec egress :
  DockerCli.proxy_env spec egress = set_each (proxy_values spec (DockerCli.ep_proxy_url egress)).
Proof.
  unfold DockerCli.proxy_env, proxy_values. destruct (DockerCli.ep_proxy_url egress) as [url|]; [|done].
  by destruct (cns_allowed_destinations (ss_network spec)).
Qed.

Lemma read_valued f v rest o r :
  existsb (String.eqb f) VALUED_OPTIONS = true → read_options rest = Some (o, r) →
  read_options (f :: v :: rest) = Some ((f, v) :: o, r).
Proof.
  intros Hf Hr. cbn [read_options]. rewrite Hf, Hr.
  destruct (String.eqb_spec f "--") as [->|_]; [done|]. by destruct (String.eqb_spec f "--read-only") as [->|_].
Qed.

Lemma read_switch rest o r :
  read_options rest = Some (o, r) → read_options ("--read-only" :: rest) = Some (("--read-only", "") :: o, r).
Proof. intros Hr. cbn [read_options]. by rewrite Hr. Qed.

Lemma read_end rest : read_options ("--" :: rest) = Some ([], rest).
Proof. done. Qed.

Lemma read_set_each vs rest o r :
  read_options rest = Some (o, r) → read_options (set_each vs ++ rest) = Some (map (λ v, ("-e", v)) vs ++ o, r).
Proof.
  intros Hr. induction vs as [|v vs IH]; [done|]. cbn [set_each flat_map app map]. fold (set_each vs).
  by apply read_valued.
Qed.

(** A variable of the environment is what is in front of the first [=]. *)
Definition sets (name v : string) : Prop := ∃ val, split_once "=" v = Some (name, val).

(** The container of the sandbox: no capability, no way to gain privileges, a
    read-only root, no network but [none] or its own, the workspace of the
    sandbox the only thing mounted, and the variables that name a proxy set by
    the runner only *)
Definition confined (spec : SandboxSpec) (args : list string) : Prop :=
  ∃ opts, read_options args = Some (opts, im_image_ref (ss_image spec) :: ss_command spec) ∧
    values "--cap-drop" opts = ["ALL"] ∧
    values "--security-opt" opts = ["no-new-privileges:true"] ∧
    values "--read-only" opts = [""] ∧
    (values "--network" opts = ["none"] ∨
     values "--network" opts = ["aegis-cage-egress-" +:+ ss_sandbox_id spec]) ∧
    values "-v" opts = [Workspace.join workspace_root (ss_sandbox_id spec) +:+ ":" +:+ ss_working_dir spec] ∧
    (Forall (λ e, has_byte "=" e.1 = false) (ss_environment spec) →
     ∀ v name, v ∈ values "-e" opts → sets name v → DockerCli.forced_key name = true →
       v ∈ proxy_values spec (DockerCli.ep_proxy_url (DockerCli.plan_egress_network spec egress_proxy_container))).

Lemma values_env f vs : values f (map (λ v, ("-e", v)) vs) = if "-e" == f then vs else [].
Proof.
  unfold values. induction vs as [|v vs IH]; simpl; [by destruct ("-e" == f)|].
  destruct ("-e" == f); [|done]. simpl. by rewrite IH.
Qed.

Lemma split_once_name key val : has_byte "=" key = false → split_once "=" (key +:+ "=" +:+ val) = Some (key, val).
Proof.
  induction key as [|a key IH]; [done|]. simpl. intros [Ha Hk]%orb_false_iff. rewrite Ha, IH by done. done.
Qed.

Lemma tenant_sets_no_proxy env v name :
  Forall (λ e, has_byte "=" e.1 = false) env → v ∈ tenant_values env → sets name v → DockerCli.forced_key name = false.
Proof.
  intros Hf Hv [val Hs]. apply list_elem_of_In, in_flat_map in Hv as ([k x] & Hin & Hv). simpl in Hv.
  destruct (DockerCli.forced_key k) eqn:Hk; [done|]. destruct Hv as [<-|[]].
  rewrite Forall_forall in Hf. specialize (Hf _ Hin). simpl in Hf.
  rewrite split_once_name in Hs by done. by injection Hs as <- <-.
Qed.

Lemma create_args_confined spec dir :
  im_read_only_rootfs (ss_image spec) = true → dir = Workspace.join workspace_root (ss_sandbox_id spec) →
  ∃ args, DockerCli.build_create_args spec (DockerRt.container_name (ss_sandbox_id spec)) dir
    (DockerCli.plan_egress_network spec egress_proxy_container) = "create" :: args ∧ confined spec args.
Proof.
  intros Hro ->. unfold DockerCli.build_create_args. rewrite Hro, tenant_env_set, proxy_env_set.
  set (plan := DockerCli.plan_egress_network spec egress_proxy_container).
  rewrite (app_assoc (set_each (tenant_values _))), <- set_each_app.
  set (vs := tenant_values (ss_environment spec) ++ proxy_values spec (DockerCli.ep_proxy_url plan)).
  eexists. split; [reflexivity|]. unfold confined.
  eexists. split.
  { cbn [app]. repeat first [apply read_set_each | apply read_end | apply read_switch |
      apply read_valued; [reflexivity|]]. }
  rewrite app_nil_r.
  assert (∀ f fixed, values f (fixed ++ map (λ v, ("-e", v)) vs) = values f fixed ++ if "-e" == f then vs else []) as Hvals.
  { intros f fixed. rewrite <- values_env. unfold values. by rewrite List.filter_app, map_app. }
  match goal with |- context [("-w", ?d) :: map ?g vs] =>
    match goal with |- context [values "--cap-drop" ?l] =>
      let fixed := eval pattern (map g vs) in l in
      match fixed with ?h _ => set (fx := h []); change l with (fx ++ map g vs) end end end.
  rewrite !Hvals. unfold fx, values.
  cbn [List.filter map fst snd app String.eqb Ascii.eqb Bool.eqb].
  assert (DockerCli.ep_docker_network plan = "none" ∨
    DockerCli.ep_docker_network plan = "aegis-cage-egress-" +:+ ss_sandbox_id spec) as Hnet.
  { unfold plan, DockerCli.plan_egress_network. case_match; auto. }
  do 3 (split; [reflexivity|]). split; [destruct Hnet as [-> | ->]; auto|]. split; [reflexivity|].
  intros Hf v name Hv Hs Hk. change (v ∈ vs) in Hv. apply elem_of_app in Hv as [Hv|Hv]; [|done].
  by rewrite (tenant_sets_no_proxy _ _ _ Hf Hv Hs) in Hk.
Qed.

Definition creates (spec : SandboxSpec) T (e : CageE T) : Prop :=
  match e with Docker ("create" :: args) => confined spec args | _ => True end.
Definition runner_creates (spec : SandboxSpec) T (e : RunnerE T) : Prop :=
  match e with InCage e => creates spec _ e | _ => True end.

Lemma quiet_creates spec T (e : CageE T) : cage_quiet T e → creates spec T e.
Proof.
  destruct e; try done. intros [Hc _]. destruct args as [|a args]; [done|].
  unfold is_create in Hc. simpl in *. apply bool_decide_eq_false in Hc.
  destruct (decide (a = "create")) as [->|Hne]; [done|]. unfold creates. by repeat case_match; simplify_eq.
Qed.

Lemma quiet_runs_create {A} spec (p : prog CageE A) t a :
  all_calls cage_quiet p → runs p t a → Forall (event_sat (creates spec)) t.
Proof. intros Hp. apply all_calls_runs. eapply all_calls_impl; [|exact Hp]. apply quiet_creates. Qed.

Lemma create_calls spec rt t a :
  im_read_only_rootfs (ss_image spec) = true →
  runs (DockerRt.create workspace_root egress_proxy_container spec rt) t a →
  Forall (event_sat (creates spec)) t.
Proof.
  intros Hro H. unfold DockerRt.create in H. destruct (Spec.validate spec); [|by destruct H as [-> _]].
  apply runs_bind in H as (t1 & w & t2 & -> & H1 & H). apply Forall_app. split.
  { eapply quiet_runs_create; [apply create_workspace_quiet|exact H1]. }
  destruct w as [dir|e]; [|by destruct H as [-> _]].
  assert (dir = Workspace.join workspace_root (ss_sandbox_id spec)) as Hdir.
  { unfold Workspace.create_isolated_workspace in H1. prog_run H1. by destruct r0; simplify_eq. }
  apply runs_bind in H as (t3 & r & t4 & -> & H3 & H). apply Forall_app. split.
  2: { destruct r as [[id net]|e]; [eapply (quiet_runs_create (A := Result SandboxHandle CageError * DockerRuntime));
         [|exact H]; calls; done|].
       eapply quiet_runs_create; [|exact H]. calls. apply destroy_workspace_quiet. }
  clear H. unfold DockerCli.create in H3. apply runs_try_bind in H3 as [(t5 & u & t6 & -> & H5 & H)|(e & _ & H)].
  2: { eapply quiet_runs_create; [apply prepare_network_quiet|exact H]. }
  apply Forall_app. split; [eapply quiet_runs_create; [apply prepare_network_quiet|exact H5]|].
  apply runs_bind in H as (t7 & r' & t8 & -> & H7 & H). apply Forall_app. split.
  - destruct (create_args_confined spec dir Hro Hdir) as (args & Heq & Hc). rewrite Heq in H7.
    unfold DockerCli.run_docker in H7. apply runs_bind in H7 as (t9 & o & t10 & -> & H9 & H7).
    apply runs_trigger in H9 as ->. constructor; [exact Hc|].
    destruct o as [out|e]; [destruct (negb (dk_success out))|]; by destruct H7 as [-> _].
  - destruct r' as [id|e]; [by destruct H as [-> _]|]. eapply quiet_runs_create; [|exact H]. calls. apply drop_network_quiet.
Qed.

Lemma in_cage_runs {A} (P : ∀ T, CageE T → Prop) (p : prog CageE A) t a :
  (∀ t', runs p t' a → Forall (event_sat P) t') → runs (Runner.in_cage p) t a →
  Forall (event_sat (λ T (e : RunnerE T), match e with InCage e => P _ e | _ => True end)) t.
Proof.
  intros HP (t' & ts & Hr & -> & Hf)%interp_runs. specialize (HP t' Hr). clear Hr.
  induction Hf as [|ev tr t' ts Hi _ IH]; [done|]. apply list.Forall_cons in HP as [Hev HP].
  simpl. apply Forall_app. split; [|auto]. destruct ev as [T e r]. simpl in Hi. destruct Hi as (x & t2 & -> & [-> _]).
  by constructor.
Qed.

Lemma spec_read_only run id spec :
  Spec.build_sandbox_spec run id = Ok spec → im_read_only_rootfs (ss_image spec) = true ∧ ss_sandbox_id spec = id.
Proof.
  unfold Spec.build_sandbox_spec, Spec.and_then. repeat case_match; try done. by intros [= <-].
Qed.

Lemma runner_quiet_creates {A} spec (p : prog RunnerE A) t a :
  all_calls quiet p → runs p t a → Forall (event_sat (runner_creates spec)) t.
Proof.
  intros Hp. apply all_calls_runs. eapply all_calls_impl; [|exact Hp]. intros T e He. destruct e; try done.
  by apply quiet_creates.
Qed.

(** ** After the container was created *)

Section Rest.
Context (spec : SandboxSpec).
Abbreviation rule := (Prog.checked (λ (_ : list (event RunnerE)) T (e : RunnerE T), runner_creates spec T e)).

Lemma rest_quiet {A} s (p : prog RunnerE A) : all_calls quiet p → safe rule (λ _ _, True) s p.
Proof.
  intros Hp. eapply safe_impl; [apply checked_monotone| |apply (all_calls_checked quiet)]; [done| |done].
  intros s' T e He. destruct e; try done. by apply quiet_creates.
Qed.

Lemma settle_safe {A} s (p : prog CageE A) :
  all_calls cage_quiet p → safe rule (λ _ w, all_calls cage_quiet w) s (Runner.settle p).
Proof.
  revert s. induction p as [x|T e k IH]; intros s; simpl; [done|]. intros [He Hk].
  destruct (Runner.awaited e); [done|]. simpl. split; [by apply quiet_creates|]. intros r. by apply IH.
Qed.

Lemma advance_safe {A} s (w : prog CageE A) :
  all_calls cage_quiet w → safe rule (λ _ w, all_calls cage_quiet w) s (Runner.advance w).
Proof.
  destruct w as [x|T e k]; [done|]. intros [He Hk]. split; [by apply quiet_creates|]. intros r. by apply settle_safe.
Qed.

Lemma destroy_safe s h rt : safe rule (λ _ _, True) s (Runner.destroy egress_proxy_container h rt).
Proof.
  assert (all_calls (runner_creates spec) (Runner.destroy egress_proxy_container h rt)) as H.
  { unfold Runner.destroy. calls. apply (all_calls_in_cage (runner_creates spec)).
    apply (all_calls_impl (λ T e, cage_quiet T e ∨ ∃ id, creates spec T e ∧
      match e with Docker args => args = ["rm"; "-f"; id] | _ => False end)).
    { intros T e [He|(id & He & _)]; [by apply quiet_creates|done]. }
    unfold DockerRt.destroy, DockerCli.remove, DockerCli.run_docker_unit, DockerCli.run_docker, DockerRt.destroy_network.
    calls; try done.
    - right. by exists (sh_backend_id h).
    - eapply all_calls_impl; [|apply destroy_workspace_quiet]. by left.
    - eapply all_calls_impl; [|apply drop_network_quiet]. by left.
    - eapply all_calls_impl; [|apply emit_quiet]. by left. }
  eapply safe_impl; [apply checked_monotone| |apply (all_calls_checked (runner_creates spec))]; done.
Qed.

Lemma killed_safe {B} s run_id runner_id (k : B) :
  safe rule (λ _ _, True) s (prog_bind (λ _, Ret k) (Runner.killed_now run_id runner_id)).
Proof. apply rest_quiet. unfold Runner.killed_now, Runner.update_run_status. calls; done. Qed.

Lemma loop_safe turns run_id runner_id h w sh rt s :
  all_calls cage_quiet w →
  safe rule (λ _ _, True) s (Runner.loop egress_proxy_container turns run_id runner_id h w sh rt).
Proof.
  revert w sh s. induction turns as [|turns IH]; intros w sh s Hw; cbn [Runner.loop]; [done|].
  eapply (safe_mbind _ (λ _ _, True)); [apply checked_monotone|by split|].
  intros s1 [|[]| |] _.
  - eapply safe_mbind; [apply checked_monotone|by apply advance_safe|].
    intros s2 [[| |state]|T e k] Hw'; [done..|by apply IH].
  - eapply safe_mbind; [apply checked_monotone|apply rest_quiet, in_cage_quiet, kill_quiet|]. intros s2 _ _.
    eapply safe_mbind; [apply checked_monotone|apply destroy_safe|]. intros s3 rt' _. apply killed_safe.
  - by apply IH.
  - eapply safe_mbind; [apply checked_monotone|apply rest_quiet; unfold Runner.heartbeat_run; calls; done|].
    intros s2 r _. destruct (Runner.lease_lost r); [|by apply IH].
    eapply safe_mbind; [apply checked_monotone|apply rest_quiet, in_cage_quiet, kill_quiet|]. intros s3 _ _.
    eapply safe_mbind; [apply checked_monotone|apply destroy_safe|]. done.
  - eapply safe_mbind; [apply checked_monotone|apply rest_quiet, poll_quiet|]. intros s2 sh' _. by apply IH.
Qed.

Lemma supervise_safe polls turns run_id runner_id timeout h sh rt s :
  safe rule (λ _ _, True) s (Runner.supervise egress_proxy_container polls turns run_id runner_id timeout h sh rt).
Proof.
  unfold Runner.supervise. eapply safe_mbind; [apply checked_monotone|apply settle_safe, wait_or_kill_quiet|].
  intros s1 w Hw. apply (safe_mbind _ (λ _ _, True)); [apply checked_monotone| |].
  { destruct w as [[| |x]|T e k]; try (by apply loop_safe); done. }
  intros s2 [| |[[[st|] sh'] rt']] _; [done|done| |done]. destruct (Runner.final_status _ _) as [status code].
  eapply (safe_mbind _ (λ _ _, True)); [apply checked_monotone|by split|]. intros s3 now _.
  eapply safe_mbind; [apply checked_monotone|apply destroy_safe|]. intros s4 rt2 _.
  apply rest_quiet. unfold Runner.update_run_status. calls; done.
Qed.
End Rest.

(** C25: every container is confined.  Whatever run the gateway hands out, each
    [docker create] that its execution makes is read by [docker] as the image and
    the command of the run, with the options of a container that has no
    capabilities, cannot gain privileges, has a read-only root, is on no network
    or on the one made for it, mounts nothing but the new workspace of its
    sandbox, and sets the variables that name a proxy only to the runner's own
    values (when no name in the environment of the run has a [=] in it).  In
    particular neither the image, the command nor the environment can add an
    option. *)
Theorem every_container_is_confined polls turns run runner_id receiver rt t a args o :
  runs (Runner.run_one workspace_root egress_proxy_container polls turns run runner_id receiver rt) t a →
  Call (InCage (Docker ("create" :: args))) o ∈ t →
  ∃ id spec, Call RunnerUuid id ∈ t ∧ Spec.build_sandbox_spec run (uuid_to_string id) = Ok spec ∧ confined spec args.
Proof.
  intros H Hin. unfold Runner.run_one in H. apply runs_bind in H as (t1 & id & t2 & -> & H1 & H).
  apply runs_trigger in H1 as ->. apply elem_of_cons in Hin as [[=]|Hin].
  destruct (Spec.build_sandbox_spec run (uuid_to_string id)) as [spec|e] eqn:Hspec.
  2: { assert (Forall (event_sat quiet) t2) as Hq.
       { eapply all_calls_runs; [|exact H]. unfold Runner.killed_now, Runner.update_run_status. calls; done. }
       rewrite Forall_forall in Hq. by destruct (Hq _ (proj1 (list_elem_of_In _ _) Hin)). }
  exists id, spec. split; [by left|]. split; [done|].
  assert (Forall (event_sat (runner_creates spec)) t2) as Hall; [|].
  2: { rewrite Forall_forall in Hall. exact (Hall _ (proj1 (list_elem_of_In _ _) Hin)). }
  destruct (spec_read_only _ _ _ Hspec) as [Hro _].
  apply runs_bind in H as (t3 & [created rt1] & t4 & -> & H3 & H). apply Forall_app. split.
  { eapply (in_cage_runs (creates spec)); [|exact H3]. intros t'. by apply create_calls. }
  destruct created as [h|e].
  2: { eapply (checked_all _ (λ _ _, True) []); [apply killed_safe|exact H]. }
  eapply (checked_all _ (λ _ _, True) []); [|exact H].
  eapply safe_mbind; [apply checked_monotone|apply rest_quiet, in_cage_quiet, start_quiet|]. intros s1 [[]|e] _.
  2: { eapply safe_mbind; [apply checked_monotone|apply destroy_safe|]. intros s2 rt2 _. apply killed_safe. }
  eapply safe_mbind; [apply checked_monotone|apply rest_quiet; unfold Runner.update_run_status; calls; done|].
  intros s2 _ _. eapply safe_mbind; [apply checked_monotone|apply supervise_safe|]. by intros s3 r _.
Qed.
End Confined.

(** ** What is executed is what was registered *)

(** What the runner reads of a row that the gateway answers *)
Definition payload_of (r : AgentRunRecord) : AgentRunPayload :=
  {| ap_id := arn_id r; ap_tenant_id := arn_tenant_id r; ap_agent_id := arn_agent_id r; ap_mode := arn_mode r;
     ap_status := arn_status r; ap_claimed_by := arn_claimed_by r; ap_image_ref := arn_image_ref r;
     ap_image_digest := arn_image_digest r; ap_command_json := arn_command_json r;
     ap_working_dir := arn_working_dir r; ap_resource_limits_json := arn_resource_limits_json r;
     ap_network_spec_json := arn_network_spec_json r; ap_tooling_spec_json := arn_tooling_spec_json r;
     ap_environment_json := arn_environment_json r; ap_workspace_spec_json := arn_workspace_spec_json r;
     ap_controlled_mounts_json := arn_controlled_mounts_json r; ap_exit_code := arn_exit_code r |}.

Section Registered.
Context {X : External} {HX : HostExternal} {ED : Ed25519} {RX : RunExternal} {CX : CageExternal}.

(** [serde_json] writes every value of these types, and reads back what it wrote. *)
Definition reads_back {T} (to_string : T → option string) (from_str : string → Result T string) : Prop :=
  ∀ v, ∃ s, to_string v = Some s ∧ from_str s = Ok v.

Record json_round_trips : Prop := {
  jr_strings : reads_back json_of_strings strings_of_json;
  jr_resources : reads_back json_of_resources resources_of_json;
  jr_network : reads_back json_of_network network_of_json;
  jr_tooling : reads_back json_of_tooling tooling_of_json;
  jr_environment : reads_back json_of_environment environment_of_json;
  jr_workspace : reads_back json_of_workspace workspace_of_json;
  jr_mounts : reads_back json_of_mounts mounts_of_json }.

(** The sandbox of a registered specification *)
Definition sandbox_of (record : AgentRunRecord) (cs : CageRunSpecRequest) (sandbox_id : string) : SandboxSpec :=
  {| ss_tenant_id := arn_tenant_id record; ss_run_id := arn_id record;
     ss_agent_id := default "anon" (arn_agent_id record); ss_sandbox_id := sandbox_id; ss_mode := arn_mode record;
     ss_image := {| im_image_ref := crs_image_ref cs; im_digest := default "" (crs_image_digest cs);
                    im_read_only_rootfs := true |};
     ss_command := crs_command cs; ss_working_dir := crs_working_dir cs; ss_workspace := crs_workspace cs;
     ss_resources := crs_resources cs; ss_network := crs_network cs; ss_tooling := crs_tooling cs;
     ss_environment := crs_environment cs; ss_controlled_mounts := crs_controlled_mounts cs |}.

Lemma unless_denied_answered {A} value denial (k : prog RunE (Answer A)) t st x :
  runs (RunApi.unless_denied value denial k) t (Answered st x) → ∃ t', runs k t' (Answered st x).
Proof.
  unfold RunApi.unless_denied. destruct value as [v|]; [|by exists t].
  intros (t1 & r & t2 & -> & _ & H)%runs_bind. destruct r as [[e|]|e]; [by destruct H|by exists t2|by destruct H].
Qed.

Lemma created_record key t req tr record cs :
  runs (RunApi.create_agent_run key t req) tr (Answered 201 record) → crr_cage_spec req = Some cs →
  RunApi.validate_cage_spec cs = Ok tt ∧ ∃ id now, record = RunApi.run_record t id req now.
Proof.
  intros H Hcs. unfold RunApi.create_agent_run in H. apply runs_bind in H as (t1 & now & t2 & -> & _ & H).
  apply runs_bind in H as (t3 & id & t4 & -> & _ & H).
  apply unless_denied_answered in H as [t5 H]. apply unless_denied_answered in H as [t6 H].
  apply runs_bind in H as (t7 & start & t8 & -> & Hp & H). destruct start as [start|e]; [|by destruct H].
  apply runs_bind in H as (t9 & r & t10 & -> & _ & H). destruct r as [[]|e]; [|by destruct H].
  destruct H as [_ H]. injection H as ->. split; [|by exists (uuid_to_string id), now].
  rewrite Hcs in Hp. unfold RunApi.prepare_start in Hp. destruct key; [|by destruct Hp].
  destruct (RunApi.validate_cage_spec cs) as [[]|e]; [done|by destruct Hp].
Qed.

Lemma built_from_record t id req now cs sandbox_id :
  json_round_trips → crr_cage_spec req = Some cs →
  Spec.build_sandbox_spec (payload_of (RunApi.run_record t id req now)) sandbox_id =
  Ok (sandbox_of (RunApi.run_record t id req now) cs sandbox_id).
Proof.
  intros [J1 J2 J3 J4 J5 J6 J7] Hcs. unfold Spec.build_sandbox_spec, payload_of, RunApi.run_record, sandbox_of.
  rewrite Hcs. cbn.
  destruct (J1 (crs_command cs)) as (s1 & -> & E1), (J2 (crs_resources cs)) as (s2 & -> & E2),
    (J3 (crs_network cs)) as (s3 & -> & E3), (J4 (crs_tooling cs)) as (s4 & -> & E4),
    (J5 (crs_environment cs)) as (s5 & -> & E5), (J6 (crs_workspace cs)) as (s6 & -> & E6),
    (J7 (crs_controlled_mounts cs)) as (s7 & -> & E7).
  unfold Spec.parse_json_field. by rewrite E1, E2, E3, E4, E5, E6, E7.
Qed.

Definition not_blank (d : string) : Prop := is_empty (trim d) = false.

Lemma network_accepted n :
  RunApi.validate_network n = Ok tt → Forall not_blank (cns_allowed_destinations n) →
  cns_direct_internet n = false ∧ Spec.validate_network n = Ok tt.
Proof.
  unfold RunApi.validate_network, Spec.validate_network. destruct (cns_direct_internet n); [done|].
  intros H Hd. split; [done|]. destruct (_ && _); [done|].
  assert (existsb (λ d, is_empty (trim d)) (cns_allowed_destinations n) = false) as ->.
  { apply not_true_is_false. intros (d & Hin & He)%existsb_exists. rewrite Forall_forall in Hd.
    unfold not_blank in Hd. rewrite (Hd d Hin) in He. done. }
  destruct (RunApi.proxy_of n) as [url|]; [|by destruct (cns_egress_proxy_url n)].
  destruct (negb _); [done|]. destruct (RunApi.has_whitespace url) eqn:Hw; [done|].
  assert (∀ w, w ∈ whitespace_seqs → contains w url = false) as Hc.
  { intros w Hin. apply not_true_is_false. intros Hc. apply not_true_iff_false in Hw. apply Hw, existsb_exists.
    exists w. split; [by apply list_elem_of_In|done]. }
  rewrite !Hc; [done| | |]; apply list_elem_of_In; vm_compute; repeat first [left; reflexivity | right].
Qed.

(** C28: what is executed is what was registered.  When the gateway has accepted
    a run with a sandbox specification, the runner that is answered its row
    builds exactly that specification from the stored columns, for whatever
    sandbox identifier it chose; and its own checks accept what the gateway's
    have accepted, when the identifier is one and no allowed destination is
    blank. *)
Theorem registered_spec_is_executed key t req tr record cs sandbox_id :
  json_round_trips → runs (RunApi.create_agent_run key t req) tr (Answered 201 record) →
  crr_cage_spec req = Some cs →
  Spec.build_sandbox_spec (payload_of record) sandbox_id = Ok (sandbox_of record cs sandbox_id) ∧
  (Spec.valid_id sandbox_id = true → Forall not_blank (cns_allowed_destinations (crs_network cs)) →
   Spec.validate (sandbox_of record cs sandbox_id) = Ok tt).
Proof.
  intros HJ H Hcs. destruct (created_record _ _ _ _ _ _ H Hcs) as (Hv & id & now & ->).
  split; [by apply built_from_record|]. intros Hid Hd. unfold RunApi.validate_cage_spec in Hv.
  unfold Spec.validate, Spec.validate_mounts, Spec.validate_environment, sandbox_of.
  cbn [ss_image im_image_ref ss_sandbox_id ss_command ss_resources ss_network ss_controlled_mounts ss_environment].
  destruct (is_empty (trim (crs_image_ref cs))); [done|]. destruct (starts_with "-" (crs_image_ref cs)); [done|].
  rewrite Hid. cbn [negb]. destruct (bool_decide (crs_command cs = [])); [done|].
  destruct (crl_timeout_seconds (crs_resources cs) =? 0)%Z; [done|].
  destruct (RunApi.validate_network (crs_network cs)) as [[]|] eqn:Hn; [|done].
  destruct (network_accepted _ Hn Hd) as [-> ->].
  destruct (find RunApi.forbidden_mount _); [done|]. by destruct (find RunApi.looks_like_credential _).
Qed.
End Registered.
