(* ===== verification/RunScenarios.v ===== *)
(** * Runs and commands at work

    The tables, the handlers and a sensor on concrete requests: the witnesses of
    the theorems on them, and the runs in which a command is lost or a state is
    overwritten. *)

From stdpp Require Import gmap pretty.
From S2P Require Import Prelude RustString Prog Canon Models Records External Runtime Bans Gateway EgressApi Spool Shipper RunStore Signing Sensor RunApi RunSafety CommandSafety Cage Runner RunnerSafety.

Local Open Scope Z_scope.

(** ** Stand-ins for the crates *)

(** JSON text that keeps the fields apart *)
Definition text_of (v : Canon.Value) : string :=
  match v with
  | Canon.Null => "null"
  | Canon.Bool b => if b then "true" else "false"
  | Canon.Str s => "'" +:+ s +:+ "'"
  | _ => "?"
  end.
Definition json_text (v : Canon.Value) : string :=
  match v with
  | Canon.Object es => foldr (λ e s, e.1 +:+ ":" +:+ text_of e.2 +:+ "," +:+ s) "" es
  | v => text_of v
  end.

Definition run_host : HostExternal := {|
  uuid_to_string i := pretty i; to_rfc3339 t := pretty t; json_of_value := json_text;
  json_of_tool_call _ := "{}"; json_of_decision _ := "{}"; json_of_approval _ := "{}";
  json_of_tiers _ _ := "{}"; host_sha256_hex s := s; socket_ip a := a; url_parse _ := Err "no url";
  dns_resolve _ _ := None; display_callback_error _ := "blocked" |}.

Definition run_ext : RunExternal := {|
  debug_str s := s; debug_strs _ := "[..]"; json_of_strings _ := Some "[]"; json_of_resources _ := Some "{}";
  json_of_network _ := Some "{}"; json_of_tooling _ := Some "{}"; json_of_environment _ := Some "{}";
  json_of_workspace _ := Some "{}"; json_of_mounts _ := Some "[]" |}.

(** A keyed checksum of 64 characters in the place of a signature; the public
    key is the secret. *)
Definition checksum (s : string) : Z :=
  foldr (λ c h, (h * 31 + Z.of_nat (nat_of_ascii c)) `mod` 2 ^ 61) 7 (String.list_ascii_of_string s).
Definition pad64 (s : string) : string :=
  String.string_of_list_ascii (take 64 (String.list_ascii_of_string s ++ replicate 64 "0"%char)).

Definition toy_ed25519 : Ed25519 := {|
  VerifyingKey := string;
  public_key sk := sk;
  sign_bytes sk m := pad64 (pretty (checksum (sk +:+ m)));
  key_from_bytes k := Some k;
  verify_bytes vk m sig := sig == pad64 (pretty (checksum (vk +:+ m))) |}.

#[local] Existing Instances sample_external run_host run_ext toy_ed25519.

Lemma length_of_list l : String.length (String.string_of_list_ascii l) = length l.
Proof. induction l; simpl; congruence. Qed.

#[local] Instance toy_laws : Ed25519Laws.
Proof.
  constructor; simpl; [done| |].
  - intros sk m _. unfold pad64. rewrite length_of_list, length_take, length_app, length_replicate. lia.
  - intros sk m _. exists sk. split; [done|]. apply String.eqb_refl.
Qed.

Definition secret : string := "0123456789abcdef0123456789abcdef".

(** ** A run and two runners *)

(** A database whose clock and identifiers count its calls *)
Definition db_handler : handler RunE (Tables * Z) := λ T e w,
  let '(r, ts) := db_answer (w.2 * 1000000000 + 123) w.2 e w.1 in (r, (ts, w.2 + 1)).

Lemma db_handled {T} (e : RunE T) ts n :
  db_handler T e (ts, n) =
  ((db_answer (n * 1000000000 + 123) n e ts).1, ((db_answer (n * 1000000000 + 123) n e ts).2, n + 1)).
Proof. unfold db_handler. simpl. by destruct (db_answer _ _ _ _). Qed.

(** A handler that runs by itself extends the log. *)
Lemma run_extends {A} (p : prog RunE A) h w ts n :
  run_system w ts →
  run_system (w ++ (OfRun h <$> (run db_handler p (ts, n)).2)) (run db_handler p (ts, n)).1.2.1.
Proof.
  revert w ts n. induction p as [x|T e k IH]; intros w ts n Hw; cbn [run]; [by rewrite app_nil_r|].
  rewrite db_handled. destruct (db_answer (n * 1000000000 + 123) n e ts) as [r ts1] eqn:He. simpl.
  specialize (IH r (w ++ [OfRun h (Call e r)]) ts1 (n + 1)).
  destruct (run db_handler (k r) (ts1, n + 1)) as [[a [ts2 n2]] t]. simpl in *.
  rewrite <- app_assoc in IH. apply IH. econstructor; [done|]. simpl. exists (n * 1000000000 + 123), n.
  left. by rewrite He.
Qed.

Definition cage_spec : CageRunSpecRequest := {|
  crs_image_ref := "alpine"; crs_image_digest := Some "sha256:aa"; crs_command := ["sleep"; "1"];
  crs_working_dir := "/workspace";
  crs_resources := {| crl_cpu_millis := 100; crl_memory_bytes := 1024; crl_process_limit := 4;
                      crl_timeout_seconds := 60; crl_max_stdout_bytes := None; crl_max_stderr_bytes := None |};
  crs_workspace := {| cws_template_id := None; cws_max_bytes := 0; cws_max_files := 0; cws_preserve_on_failure := false |};
  crs_network := {| cns_direct_internet := false; cns_egress_proxy_url := Some "http://proxy:3128";
                    cns_allowed_destinations := ["example.com"] |};
  crs_tooling := {| cts_tool_broker_url := None; cts_mcp_gateway_url := None |};
  crs_environment := [("AEGIS_RUN_ID", "x"); ("LANG", "C")]; crs_controlled_mounts := [] |}.

Definition create_request : CreateAgentRunRequest := {|
  crr_run_key := "k1"; crr_agent_id := Some "agent-1"; crr_source_component := "sdk"; crr_mode := None;
  crr_root_trace_id := None; crr_root_trust_level := None; crr_cage_spec := Some cage_spec |}.

(** The run gets the second identifier. *)
Definition the_run : string := "1".

Definition requests (h : nat) : RunRequest :=
  match h with
  | 0%nat => RqCreate "acme" create_request
  | 1%nat => RqClaim "acme" the_run "runner-a"
  | 2%nat => RqClaim "acme" the_run "runner-b"
  | 3%nat => RqHeartbeat "acme" the_run "runner-a"
  | 4%nat => RqKill "acme" the_run {| rcr_actor := "ops"; rcr_reason := Some "exfil" |}
  | _ => RqGet "acme" the_run
  end.

Definition served (h : nat) (w : Tables * Z) : unit * (Tables * Z) * list (event RunE) :=
  run db_handler (serve_run (Some secret) (requests h)) w.

Definition w0 : Tables * Z := (no_rows, 0).
Definition w1 := (served 0 w0).1.2.
Definition w2 := (served 1 w1).1.2.
Definition w3 := (served 2 w2).1.2.
Definition w4 := (served 3 w3).1.2.

Definition run_log : list RunItem :=
  ((([] ++ (OfRun 0 <$> (served 0 w0).2)) ++ (OfRun 1 <$> (served 1 w1).2)) ++
    (OfRun 2 <$> (served 2 w2).2)) ++ (OfRun 3 <$> (served 3 w3).2).

Lemma run_log_system : run_system run_log w4.1.
Proof.
  unfold run_log, w4. assert (∀ h w ts, run_system w ts.1 →
    run_system (w ++ (OfRun h <$> (served h ts).2)) (served h ts).1.2.1) as H.
  { intros h w [ts n] Hw. by apply run_extends. }
  do 4 apply H. constructor.
Qed.

Lemma calls_of_same h (t : list (event RunE)) : run_calls_of h (OfRun h <$> t) = t.
Proof. induction t as [|ev t IH]; [done|]. cbn. rewrite decide_True by done. f_equal. exact IH. Qed.
Lemma calls_of_other h h' (t : list (event RunE)) : h ≠ h' → run_calls_of h (OfRun h' <$> t) = [].
Proof. intros Hne. induction t as [|ev t IH]; [done|]. cbn. rewrite decide_False by done. exact IH. Qed.
Lemma partial_nil {E : Type → Type} {A} (p : prog E A) : partial p [].
Proof. destruct p; [done|by left]. Qed.

Lemma served_partial h w : partial (serve_run (Some secret) (requests h)) (served h w).2.
Proof.
  unfold served. generalize (serve_run (Some secret) (requests h)). intros p.
  apply runs_partial with tt. pose proof (run_runs db_handler p w) as H. by destruct (run db_handler p w).1.1.
Qed.

Lemma run_log_serving : serving_pool (Some secret) requests run_log.
Proof.
  intros h. unfold run_log. rewrite !run_calls_of_app.
  generalize (served_partial 0 w0), (served_partial 1 w1), (served_partial 2 w2), (served_partial 3 w3).
  generalize (served 0 w0).2, (served 1 w1).2, (served 2 w2).2, (served 3 w3).2. intros t0 t1 t2 t3 H0 H1 H2 H3.
  destruct h as [|[|[|[|h]]]];
    rewrite ?calls_of_same, !calls_of_other, ?app_nil_r, ?app_nil_l by (intros [=]); try done.
  apply partial_nil.
Qed.

(** ** The witnesses of the theorems on runs *)

Definition claimed_at : DateTime := 17000000123.
Definition renewed_at : DateTime := 30000000123.

Lemma claim_position :
  run_log !! 18%nat = Some (OfRun 1 (Call (RnClaim "acme" the_run "runner-a" claimed_at) (Ok true))).
Proof. vm_compute. reflexivity. Qed.

Lemma renewal_position :
  run_log !! 31%nat = Some (OfRun 3 (Call (RnHeartbeat "acme" the_run "runner-a" renewed_at) (Ok true))).
Proof. vm_compute. reflexivity. Qed.

(** The second runner was refused. *)
Example second_runner_refused :
  (run db_handler (RunApi.claim_run "acme" the_run "runner-b") w2).1.1 =
  Refused 409 "run is not claimable (already claimed, not started, or has no cage_spec)".
Proof. vm_compute. reflexivity. Qed.

Lemma one_runner_per_run_witness : "runner-a" = "runner-a" ∧ false = false.
Proof.
  exact (one_runner_per_run (Some secret) requests run_log w4.1 18 31 1 3 _ _ true false "acme" the_run
    "runner-a" "runner-a" run_log_system run_log_serving ltac:(lia) claim_position renewal_position eq_refl eq_refl).
Defined.

Lemma claimed_run_was_cleared_witness :
  ∃ run, once run_log 18 (λ ts, Runs.get_agent_run (tb_runs ts) "acme" the_run = Some run) ∧
    (∀ agent, arn_agent_id run = Some agent →
       (∃ at_, Call RnUtcNow at_ ∈ run_calls_of 1 (take 18 run_log) ∧
          once run_log 18 (λ ts, Bans.is_banned (tb_bans ts) "acme" "agent" agent at_ = false)) ∧
       once run_log 18 (λ ts, Quarantine.is_quarantined (tb_quarantines ts) "acme" "agent" agent = false)) ∧
    (∀ digest, arn_image_digest run = Some digest →
       ∃ at_, Call RnUtcNow at_ ∈ run_calls_of 1 (take 18 run_log) ∧
         once run_log 18 (λ ts, Bans.is_banned (tb_bans ts) "acme" "image_digest" digest at_ = false)) ∧
    once run_log 18 (λ ts, Quarantine.is_quarantined (tb_quarantines ts) "acme" "run" the_run = false).
Proof.
  exact (claimed_run_was_cleared (Some secret) requests run_log w4.1 18 1 "acme" the_run "runner-a" claimed_at
    (Ok true) run_log_system run_log_serving claim_position).
Defined.

(** ** A kill and a sensor *)

Definition killed := run db_handler (RunApi.kill_run (Some secret) "acme" the_run
  {| rcr_actor := "ops"; rcr_reason := Some "exfil" |}) w4.

Definition signer : Signing.CommandSigner :=
  {| Signing.cs_signing_key := secret; Signing.cs_key_id := None |}.

(** The command of the answer *)
Definition kill_command : ControlCommandRecord :=
  match killed.1.1 with Answered _ c => c | Refused _ _ => 
    RunApi.unsigned_command "" "" "" None "" 0 0 false 0 0 end.

Lemma kill_answered : killed.1.1 = Answered 201 kill_command.
Proof. vm_compute. reflexivity. Qed.

(** The rows of the table, the sensor's receiver, and the process it tracks *)
Definition command_rows : list ControlCommandRecord := tb_commands killed.1.2.1.
Definition receiver : Signing.CommandReceiver := Signing.new (Some (Signing.public_key_hex signer)) "acme".
Definition tracked : Enforcer.Runs := {[ the_run := {| tr_pid := 4242; tr_state := Running |} ]}.
Definition listed_keys (m : Enforcer.Runs) : list string := (map_to_list m).*1.

(** The gateway answers the page; the clock is a minute after the command was
    issued; the process ends on SIGTERM. *)
Definition sensor_handler (rows : list ControlCommandRecord) (now : DateTime) (kill : Result ProcessOutput string) :
    handler Poll.SensorE unit := λ T e w,
  match e with
  | Poll.Client e =>
      match e with
      | Poll.ListCommands => (Ok (page rows "acme" 50 0), w)
      | Poll.UpdateStatus _ _ => (Ok tt, w)
      | Poll.PollUtcNow => (now, w)
      end
  | Poll.Os e =>
      match e with
      | KillOutput _ _ => (kill, w)
      | KillZero _ => (Ok false, w)
      | OsSleepMillis _ => (tt, w)
      end
  end.

Definition ended : Result ProcessOutput string := Ok {| po_success := true; po_stderr := ""; po_status := "0" |}.
Definition a_minute_later : DateTime := 92000000123.

Definition sensor_run := run (sensor_handler command_rows a_minute_later ended)
  (Poll.with_enforcer listed_keys (Poll.poll_and_process_commands "sensor-1" receiver) tracked) tt.

Lemma sensor_runs : runs (Poll.with_enforcer listed_keys (Poll.poll_and_process_commands "sensor-1" receiver) tracked)
  sensor_run.2 sensor_run.1.1.
Proof. apply run_runs. Qed.

Definition sensor_tail : list (event Poll.SensorE) := tail sensor_run.2.

Lemma sensor_trace :
  sensor_run.2 = Call (Poll.Client Poll.ListCommands) (Ok (page command_rows "acme" 50 0)) :: sensor_tail.
Proof. vm_compute. reflexivity. Qed.

Lemma command_rows_wf : CommandsWf command_rows.
Proof.
  assert (∃ l, l = (λ c, (cc_tenant_id c, cc_nonce c)) <$> command_rows ∧ NoDup l) as (l & -> & H); [|done].
  exists [("acme", "8"); ("acme", "35")]. split; [vm_compute; reflexivity|].
  constructor; [intros ?%list_elem_of_singleton; done|apply NoDup_singleton].
Qed.

Lemma kill_listed : kill_command ∈ Commands.list_control_commands command_rows "acme" 50 0.
Proof.
  apply list_elem_of_lookup_2 with 0%nat. vm_compute. reflexivity.
Qed.

Lemma kill_request_runs : runs (RunApi.kill_run (Some secret) "acme" the_run
  {| rcr_actor := "ops"; rcr_reason := Some "exfil" |}) killed.2 (Answered 201 kill_command).
Proof. rewrite <- kill_answered. apply run_runs. Qed.

Lemma issued_kill_reaches_process_witness :
  ∃ issued_at, Call RnUtcNow issued_at ∈ killed.2 ∧
    ((∀ now, Call (Poll.Client Poll.PollUtcNow) now ∈ sensor_tail → now < issued_at + 300 * 1000000000) →
     signalled sensor_tail 4242).
Proof.
  refine (issued_kill_reaches_process listed_keys secret signer "acme" the_run
    {| rcr_actor := "ops"; rcr_reason := Some "exfil" |} killed.2 kill_command command_rows 50 0 "sensor-1"
    receiver tracked sensor_tail sensor_run.1.1.1 sensor_run.1.1.2 4242 _ _ kill_request_runs command_rows_wf kill_listed
    _ _ _ _ _ _).
  - by intros b.
  - vm_compute. reflexivity.
  - reflexivity.
  - reflexivity.
  - intros H. apply elem_of_empty in H. done.
  - lia.
  - eexists. split; [apply lookup_singleton_eq|]. done.
  - rewrite <- sensor_trace, <- surjective_pairing. exact sensor_runs.
Defined.

(** The clock was in time, so the signal was sent. *)
Example process_was_signalled : signalled sensor_tail 4242.
Proof. eexists. vm_compute. right. left. Qed.

(** ** The polls of a sensor *)

(** Every poll gets the same two commands, and executes the one to kill. *)
Definition poll_handler : handler Poll.PollE unit := λ T e w,
  match e with
  | Poll.OnClient e =>
      match e with
      | Poll.ListCommands => (Ok (page command_rows "acme" 50 0), w)
      | Poll.UpdateStatus _ _ => (Err "timeout", w)
      | Poll.PollUtcNow => (a_minute_later, w)
      end
  | Poll.HasRun id => (id == the_run, w)
  | Poll.Execute cmd => (Acked, w)
  end.

Definition polled := run poll_handler (Poll.polls 2 "sensor-1" receiver) tt.

Lemma executed_commands_are_authentic_witness :
  NoDup (sc_nonce <$> executed polled.2) ∧
  ∀ cmd, cmd ∈ executed polled.2 →
    sc_status cmd = "issued" ∧ listed polled.2 cmd ∧ sc_nonce cmd ∉ Signing.cr_seen_nonces receiver ∧
    ∃ now, Call (Poll.OnClient Poll.PollUtcNow) now ∈ polled.2 ∧ Signing.authentic receiver cmd now.
Proof. exact (executed_commands_are_authentic 2 "sensor-1" receiver polled.2 polled.1.1 (run_runs _ _ _)). Defined.

(** Four looks at a command, and two executions *)
Example polls_execute_once : sc_action <$> executed polled.2 = ["kill_run"; "start_run"].
Proof. vm_compute. reflexivity. Qed.

(** ** What goes wrong *)

(** A quarantined run is running again as soon as its runner says so: the report
    of the holder overwrites every state. *)
Definition quarantined_world := (run db_handler (RunApi.quarantine_run (Some secret) "acme" the_run
  {| rcr_actor := "ops"; rcr_reason := None |}) w4).1.2.
Definition reported_world := (run db_handler (RunApi.update_run_status "acme" the_run
  {| urs_runner_id := "runner-a"; urs_status := "running"; urs_finished_at := None; urs_exit_code := None |})
  quarantined_world).1.2.

Example report_overwrites_quarantine :
  (arn_status <$> Runs.get_agent_run (tb_runs quarantined_world.1) "acme" the_run,
   arn_status <$> Runs.get_agent_run (tb_runs reported_world.1) "acme" the_run) =
  (Some "quarantined", Some "running").
Proof. vm_compute. reflexivity. Qed.

(** A kill whose signal fails is refused, and the run counts as killed: the kill
    that is sent again is accepted and signals nothing. *)
Definition no_permission : handler OsE unit := λ T e w,
  match e with
  | KillOutput _ _ => (Ok {| po_success := false; po_stderr := "Operation not permitted"; po_status := "1" |}, w)
  | KillZero _ => (Ok true, w)
  | OsSleepMillis _ => (tt, w)
  end.

Definition a_kill : SignedCommand := on_wire kill_command.
Definition first_kill := run no_permission (Enforcer.execute listed_keys a_kill tracked) tt.
Definition second_kill := run no_permission (Enforcer.execute listed_keys a_kill first_kill.1.1.2) tt.

Example failed_kill_is_acked_on_retry :
  (first_kill.1.1.1, second_kill.1.1.1, second_kill.2) =
  (Nacked "process 4242 signal 15 failed: Operation not permitted", Acked, []).
Proof. vm_compute. reflexivity. Qed.

(** A command of the caller's own is signed before the gateway chooses its
    identifier and its time, and does not verify. *)
Definition wished : IssueControlCommandRequest := {|
  icc_target_type := "run"; icc_target_id := the_run; icc_action := "kill_run"; icc_reason := None;
  icc_issued_by := "ops"; icc_expires_at := 333000000123; icc_nonce := "n-1"; icc_requires_ack := true;
  icc_receipt_required := true; icc_signature := "" |}.
Definition signed_wish : IssueControlCommandRequest := {|
  icc_target_type := "run"; icc_target_id := the_run; icc_action := "kill_run"; icc_reason := None;
  icc_issued_by := "ops"; icc_expires_at := 333000000123; icc_nonce := "n-1"; icc_requires_ack := true;
  icc_receipt_required := true;
  icc_signature := cc_signature (Signing.signed signer (RunApi.caller_command "acme" wished 0 33000000123)) |}.

Example callers_command_never_verifies :
  match (run db_handler (RunApi.issue_control_command "acme" signed_wish) w4).1.1 with
  | Answered _ c => (Signing.verify receiver (on_wire c) a_minute_later).1 = Err InvalidSignature
  | Refused _ _ => False
  end.
Proof. vm_compute. reflexivity. Qed.

(** A store that keeps microseconds gives back a command that does not verify. *)
Definition to_micros (t : DateTime) : DateTime := t / 1000 * 1000.
Definition as_postgres (c : ControlCommandRecord) : ControlCommandRecord :=
  {| cc_command_id := cc_command_id c; cc_tenant_id := cc_tenant_id c;
     cc_target_type := cc_target_type c; cc_target_id := cc_target_id c; cc_action := cc_action c;
     cc_reason := cc_reason c; cc_issued_by := cc_issued_by c; cc_issued_at := to_micros (cc_issued_at c);
     cc_expires_at := to_micros (cc_expires_at c); cc_nonce := cc_nonce c; cc_requires_ack := cc_requires_ack c;
     cc_receipt_required := cc_receipt_required c; cc_signature := cc_signature c;
     cc_status := cc_status c; cc_created_at := to_micros (cc_created_at c) |}.

Example truncated_times_do_not_verify :
  ((Signing.verify receiver a_kill a_minute_later).1,
   (Signing.verify receiver (on_wire (as_postgres kill_command)) a_minute_later).1) =
  (Ok tt, Err InvalidSignature).
Proof. vm_compute. reflexivity. Qed.

(** The nonces are in memory: a receiver that was restarted accepts a command it
    has executed. *)
Example restart_forgets_nonces :
  let again := (Signing.verify receiver a_kill a_minute_later).2 in
  ((Signing.verify again a_kill a_minute_later).1, (Signing.verify receiver a_kill a_minute_later).1) =
  (Err (ReplayedNonce "35"), Ok tt).
Proof. vm_compute. reflexivity. Qed.

(** A mount on a forbidden path that is spelled another way passes. *)
Definition mounting (path : string) : CageRunSpecRequest := {|
  crs_image_ref := crs_image_ref cage_spec; crs_image_digest := None; crs_command := crs_command cage_spec;
  crs_working_dir := "/workspace"; crs_resources := crs_resources cage_spec; crs_workspace := crs_workspace cage_spec;
  crs_network := crs_network cage_spec; crs_tooling := crs_tooling cage_spec; crs_environment := [];
  crs_controlled_mounts := [{| ccm_mount_id := "m"; ccm_source_type := GitSnapshot; ccm_target_path := path;
    ccm_read_only := true; ccm_reason := "r"; ccm_approved_by := "ops" |}] |}.

Example mount_prefix_is_text :
  (RunApi.validate_cage_spec (mounting "/root/.ssh"), RunApi.validate_cage_spec (mounting "//root/.ssh")) =
  (Err "controlled mount m targets forbidden path /root/.ssh", Ok tt).
Proof. vm_compute. reflexivity. Qed.

(** The sensor sees the fifty newest commands: an older one waits behind them. *)
Definition newer (n : nat) : ControlCommandRecord :=
  Signing.signed signer (RunApi.unsigned_command "acme" "other" "pause_run" None "ops"
    (34000000000 + Z.of_nat n) 300 true (100 + Z.of_nat n) (200 + Z.of_nat n)).
Definition crowded : list ControlCommandRecord := command_rows ++ (newer <$> seq 0 50).
Definition crowded_run := run (sensor_handler crowded a_minute_later ended)
  (Poll.with_enforcer listed_keys (Poll.poll_and_process_commands "sensor-1" receiver) tracked) tt.

Example kill_waits_behind_newer_commands :
  (length crowded_run.2, sc_command_id <$> filter (λ c, sc_command_id c = cc_command_id kill_command)
     (page crowded "acme" 50 0)) = (1%nat, []).
Proof. vm_compute. reflexivity. Qed.

(** ** A run in a cage *)

(** JSON text from which every value is read back: its code, in binary *)
Fixpoint pos_text (p : positive) : string :=
  match p with
  | xH => ""
  | xO p => String "0" (pos_text p)
  | xI p => String "1" (pos_text p)
  end.
Fixpoint text_pos (s : string) : positive :=
  match s with
  | EmptyString => xH
  | String a s => if Ascii.eqb a "1" then xI (text_pos s) else xO (text_pos s)
  end.
Lemma text_pos_text p : text_pos (pos_text p) = p.
Proof. induction p; simpl; congruence. Qed.

Definition coded `{Countable A} (v : A) : option string := Some (pos_text (encode v)).
Definition decoded `{Countable A} (s : string) : Result A string :=
  match decode (text_pos s) with Some v => Ok v | None => Err "not JSON" end.
Lemma coded_reads_back `{Countable A} : reads_back (@coded A _ _) decoded.
Proof. intros v. eexists. split; [reflexivity|]. unfold decoded. by rewrite text_pos_text, decode_encode. Qed.

#[local] Instance resources_eq_dec : EqDecision CageResourceLimitsRequest.
Proof. solve_decision. Defined.
#[local] Instance network_eq_dec : EqDecision CageNetworkSpecRequest.
Proof. solve_decision. Defined.
#[local] Instance tooling_eq_dec : EqDecision CageToolingSpecRequest.
Proof. solve_decision. Defined.
#[local] Instance workspace_eq_dec : EqDecision CageWorkspaceSpecRequest.
Proof. solve_decision. Defined.
#[local] Instance source_eq_dec : EqDecision CageMountSourceType.
Proof. solve_decision. Defined.
#[local] Instance mount_eq_dec : EqDecision CageControlledMountRequest.
Proof. solve_decision. Defined.

#[local] Instance resources_countable : Countable CageResourceLimitsRequest.
Proof.
  refine (inj_countable' (λ r, (crl_cpu_millis r, crl_memory_bytes r, crl_process_limit r, crl_timeout_seconds r,
      crl_max_stdout_bytes r, crl_max_stderr_bytes r))
    (λ '(a, b, c, d, e, f), Build_CageResourceLimitsRequest a b c d e f) _); by intros [].
Defined.
#[local] Instance network_countable : Countable CageNetworkSpecRequest.
Proof.
  refine (inj_countable' (λ r, (cns_direct_internet r, cns_egress_proxy_url r, cns_allowed_destinations r))
    (λ '(a, b, c), Build_CageNetworkSpecRequest a b c) _); by intros [].
Defined.
#[local] Instance tooling_countable : Countable CageToolingSpecRequest.
Proof.
  refine (inj_countable' (λ r, (cts_tool_broker_url r, cts_mcp_gateway_url r))
    (λ '(a, b), Build_CageToolingSpecRequest a b) _); by intros [].
Defined.
#[local] Instance workspace_countable : Countable CageWorkspaceSpecRequest.
Proof.
  refine (inj_countable' (λ r, (cws_template_id r, cws_max_bytes r, cws_max_files r, cws_preserve_on_failure r))
    (λ '(a, b, c, d), Build_CageWorkspaceSpecRequest a b c d) _); by intros [].
Defined.
#[local] Instance source_countable : Countable CageMountSourceType.
Proof.
  refine (inj_countable' (λ s, match s with GitSnapshot => 0 | Artifact => 1 | SecretlessConfig => 2 | Tmpfs => 3 end)
    (λ n, if n =? 0 then GitSnapshot else if n =? 1 then Artifact else if n =? 2 then SecretlessConfig else Tmpfs) _);
    by intros [].
Defined.
#[local] Instance mount_countable : Countable CageControlledMountRequest.
Proof.
  refine (inj_countable' (λ m, (ccm_mount_id m, ccm_source_type m, ccm_target_path m, ccm_read_only m, ccm_reason m,
      ccm_approved_by m))
    (λ '(a, b, c, d, e, f), Build_CageControlledMountRequest a b c d e f) _); by intros [].
Defined.

Definition coding_run_ext : RunExternal := {|
  debug_str s := s; debug_strs _ := "[..]"; json_of_strings := coded; json_of_resources := coded;
  json_of_network := coded; json_of_tooling := coded; json_of_environment := coded; json_of_workspace := coded;
  json_of_mounts := coded |}.
Definition coding_cage_ext : CageExternal := {|
  strings_of_json := decoded; resources_of_json := decoded; network_of_json := decoded; tooling_of_json := decoded;
  environment_of_json := decoded; workspace_of_json := decoded; mounts_of_json := decoded;
  cpus_text n := pretty n |}.
#[local] Existing Instances coding_run_ext coding_cage_ext.

Lemma coding_round_trips : json_round_trips.
Proof. constructor; apply coded_reads_back. Qed.

Definition registered := run db_handler (RunApi.create_agent_run (Some secret) "acme" create_request) w0.
Definition the_record : AgentRunRecord := RunApi.run_record "acme" the_run create_request 123.

Lemma registered_answer : registered.1.1 = Answered 201 the_record.
Proof. vm_compute. reflexivity. Qed.

Lemma registered_runs :
  runs (RunApi.create_agent_run (Some secret) "acme" create_request) registered.2 (Answered 201 the_record).
Proof. rewrite <- registered_answer. apply run_runs. Qed.

Lemma registered_spec_is_executed_witness :
  Spec.build_sandbox_spec (payload_of the_record) "42" = Ok (sandbox_of the_record cage_spec "42") ∧
  (Spec.valid_id "42" = true → Forall not_blank (cns_allowed_destinations (crs_network cage_spec)) →
   Spec.validate (sandbox_of the_record cage_spec "42") = Ok tt).
Proof.
  exact (registered_spec_is_executed (Some secret) "acme" create_request registered.2 the_record cage_spec "42"
    coding_round_trips registered_runs eq_refl).
Defined.

Example registered_spec_is_valid : Spec.validate (sandbox_of the_record cage_spec "42") = Ok tt.
Proof. vm_compute. reflexivity. Qed.

(** The gateway, [docker] and the timers around a runner: the branches that are
    taken, the commands that are listed, the states the container is found in,
    and how the gateway answers a claim and a heartbeat *)
Record Script := {
  sp_branches : list Branch;
  sp_commands : list SignedCommand;
  sp_states : list string;
  sp_claim : Z;
  sp_heartbeat : Z }.

Definition answer {T} (status : Z) (body : T) : Result (HttpResponse T) string :=
  Ok {| hr_status := status; hr_text := Ok ""; hr_json := Ok body |}.

Definition docker_answer (args : list string) (states : list string) : DockerOutput :=
  {| dk_success := true; dk_stderr := "";
     dk_stdout := if bool_decide (head args = Some "create") then "c1"
                  else if bool_decide (head args = Some "inspect") then default "exited" (head states) +:+ String DockerCli.tab "0"
                  else "" |}.

Definition cage_answer {T} (e : CageE T) (s : Script * Z) : T * (Script * Z) :=
  match e with
  | Docker args =>
      (Ok (docker_answer args (sp_states s.1)),
       (if bool_decide (head args = Some "inspect")
        then {| sp_branches := sp_branches s.1; sp_commands := sp_commands s.1; sp_states := tail (sp_states s.1);
                sp_claim := sp_claim s.1; sp_heartbeat := sp_heartbeat s.1 |} else s.1, s.2))
  | PathExists _ => (false, s)
  | CreateDirAll _ | RemoveDirAll _ => (Ok tt, s)
  | CageUtcNow => (a_minute_later, s)
  | InstantNow => (s.2, s)
  | CageSleep d => (tt, (s.1, s.2 + Z.max 0 d))
  | RecordEvent _ => (tt, s)
  end.

Definition runner_handler : handler RunnerE (Script * Z) := λ T e s,
  match e with
  | InCage e => cage_answer e s
  | PostClaim _ _ => (answer (sp_claim s.1) (payload_of the_record), s)
  | PostHeartbeat _ _ => (answer (sp_heartbeat s.1) tt, s)
  | PostRunStatus _ _ _ _ _ => (answer 200 (payload_of the_record), s)
  | GetCommands => (answer 200 (sp_commands s.1), s)
  | PostCommandStatus _ _ => (answer 200 tt, s)
  | RunnerUuid => (42, s)
  | Select => (default WaitReady (head (sp_branches s.1)),
      ({| sp_branches := tail (sp_branches s.1); sp_commands := sp_commands s.1; sp_states := sp_states s.1;
          sp_claim := sp_claim s.1; sp_heartbeat := sp_heartbeat s.1 |}, s.2))
  end.

Definition quiet_script : Script :=
  {| sp_branches := [WaitReady; WaitReady; HeartbeatTick; ControlTick; WaitReady]; sp_commands := [];
     sp_states := ["running"; "exited"]; sp_claim := 200; sp_heartbeat := 200 |}.

Definition caged (s : Script) :=
  run runner_handler (Runner.run_one "/var/cages" (Some "egress-proxy") 9 9 (payload_of the_record) "runner-a" receiver
    new_runtime) (s, 0).

(** What was asked of [docker], and the states that were reported *)
Definition docker_verbs (t : list (event RunnerE)) : list string :=
  omap (λ ev, match ev with
              | Call e r => match e with InCage (Docker args) => head args | _ => None end
              end) t.
Definition reported (t : list (event RunnerE)) : list string :=
  omap (λ ev, match ev with
              | Call e r => match e with PostRunStatus _ _ s _ _ => Some s | _ => None end
              end) t.

Example quiet_run :
  (docker_verbs (caged quiet_script).2, reported (caged quiet_script).2) =
  (["network"; "network"; "create"; "start"; "inspect"; "inspect"; "rm"; "network"; "network"],
   ["running"; "finished"]).
Proof. vm_compute. reflexivity. Qed.

Definition quiet_end : Signing.CommandReceiver * DockerRuntime :=
  match (caged quiet_script).1.1 with Ended x => x | _ => (receiver, new_runtime) end.

Definition has_ended {A} (f : Fate A) : bool := match f with Ended _ => true | _ => false end.

Lemma quiet_ends : (caged quiet_script).1.1 = Ended quiet_end.
Proof.
  assert (has_ended (caged quiet_script).1.1 = true) as H by (vm_compute; reflexivity).
  unfold quiet_end. by destruct (caged quiet_script).1.1.
Qed.

Lemma caged_runs s :
  runs (Runner.run_one "/var/cages" (Some "egress-proxy") 9 9 (payload_of the_record) "runner-a" receiver new_runtime)
    (caged s).2 (caged s).1.1.
Proof. exact (run_runs _ _ _). Qed.

Lemma quiet_runs :
  runs (Runner.run_one "/var/cages" (Some "egress-proxy") 9 9 (payload_of the_record) "runner-a" receiver new_runtime)
    (caged quiet_script).2 (Ended quiet_end).
Proof. exact (eq_ind _ (λ a, runs _ (caged quiet_script).2 a) (caged_runs quiet_script) _ quiet_ends). Qed.

Lemma finished_run_leaves_nothing_witness :
  (∀ t1 args out t2, (caged quiet_script).2 = t1 ++ Call (InCage (Docker ("create" :: args))) (Ok out) :: t2 →
     dk_success out = true → ∃ r, Call (InCage (Docker ["rm"; "-f"; container_of out])) r ∈ t2) ∧
  ((∃ t0 st now code r,
      (caged quiet_script).2 = t0 ++ [Call (PostRunStatus the_run "runner-a" st (Some now) code) r]) ∨
   ∃ resp, Call (PostHeartbeat the_run "runner-a") (Ok resp) ∈ (caged quiet_script).2 ∧ hr_status resp = 409).
Proof.
  exact (finished_run_leaves_nothing "/var/cages" (Some "egress-proxy") 9 9 (payload_of the_record) "runner-a" receiver
    new_runtime (caged quiet_script).2 (Ended quiet_end) quiet_runs).
Defined.

(** The command line of the container *)
Definition create_args : list string :=
  tail (DockerCli.build_create_args (sandbox_of the_record cage_spec "42") "aegis-cage-42" "/var/cages/42"
    (DockerCli.plan_egress_network (sandbox_of the_record cage_spec "42") (Some "egress-proxy"))).

Lemma container_created :
  Call (InCage (Docker ("create" :: create_args))) (Ok (docker_answer ["create"] [])) ∈ (caged quiet_script).2.
Proof. apply list_elem_of_lookup_2 with 5%nat. vm_compute. reflexivity. Qed.

Lemma every_container_is_confined_witness :
  ∃ id spec, Call RunnerUuid id ∈ (caged quiet_script).2 ∧
    Spec.build_sandbox_spec (payload_of the_record) (uuid_to_string id) = Ok spec ∧
    confined "/var/cages" (Some "egress-proxy") spec create_args.
Proof.
  exact (every_container_is_confined "/var/cages" (Some "egress-proxy") 9 9 (payload_of the_record) "runner-a" receiver
    new_runtime (caged quiet_script).2 (Ended quiet_end) create_args (Ok (docker_answer ["create"] [])) quiet_runs
    container_created).
Defined.

(** A container that does not end, a timeout of two fifths of a second *)
Definition stuck_handler : handler CageE (Script * Z) := λ T e s, cage_answer e s.
Definition stuck_script : Script :=
  {| sp_branches := []; sp_commands := []; sp_states := ["running"; "running"; "running"; "running"]; sp_claim := 200;
     sp_heartbeat := 200 |}.
Definition the_handle : SandboxHandle :=
  {| sh_sandbox_id := "42"; sh_backend_id := "c1"; sh_tenant_id := "acme"; sh_run_id := the_run; sh_created_at := 0 |}.
Definition stuck := run stuck_handler (DockerRt.wait_or_kill_on_timeout 3 the_handle 400000000) (stuck_script, 7).

Lemma stuck_ticks : ticking 0 stuck.2.
Proof. vm_compute. repeat split; discriminate. Qed.

Lemma wait_ends_by_deadline_witness :
  match stuck.1.1 with
  | Unfinished => False
  | Panicked => ∃ now, stuck.2 = [Call InstantNow now] ∧ DockerRt.INSTANT_MAX < now + 400000000
  | Ended (Ok state) => sx_status state ≠ StRunning ∧
      (sx_status state = StTimedOut → ∃ o, Call (Docker ["kill"; "c1"]) o ∈ stuck.2)
  | Ended (Err _) => True
  end.
Proof.
  refine (wait_ends_by_deadline 3 the_handle 400000000 0 stuck.2 stuck.1.1 (run_runs _ _ _) stuck_ticks _ _); lia.
Defined.

Example stuck_is_killed : stuck.1.1 = Ended (Ok {| sx_status := StTimedOut; sx_exit_code := None |}).
Proof. vm_compute. reflexivity. Qed.

(** ** What goes wrong in a cage *)

Definition command_for (action : string) (id nonce : Uuid) : SignedCommand :=
  on_wire (Signing.signed signer
    (RunApi.unsigned_command "acme" the_run action None "ops" 33000000123 300 true id nonce)).

(** A run with the longest timeout a request can ask for *)
Definition endless_spec : CageRunSpecRequest := {|
  crs_image_ref := crs_image_ref cage_spec; crs_image_digest := None; crs_command := crs_command cage_spec;
  crs_working_dir := "/workspace";
  crs_resources := {| crl_cpu_millis := 100; crl_memory_bytes := 1024; crl_process_limit := 4;
                      crl_timeout_seconds := 2 ^ 64 - 1; crl_max_stdout_bytes := None; crl_max_stderr_bytes := None |};
  crs_workspace := crs_workspace cage_spec; crs_network := crs_network cage_spec; crs_tooling := crs_tooling cage_spec;
  crs_environment := []; crs_controlled_mounts := [] |}.
Definition endless_record : AgentRunRecord := RunApi.run_record "acme" the_run {|
  crr_run_key := "k1"; crr_agent_id := Some "agent-1"; crr_source_component := "sdk"; crr_mode := None;
  crr_root_trace_id := None; crr_root_trust_level := None; crr_cage_spec := Some endless_spec |} 123.
Definition endless := run runner_handler
  (Runner.run_one "/var/cages" (Some "egress-proxy") 9 9 (payload_of endless_record) "runner-a" receiver new_runtime)
  (quiet_script, 0).

Definition has_panicked {A} (f : Fate A) : bool := match f with Panicked => true | _ => false end.

(** The gateway accepts it, the runner starts its container, and the sum of the
    clock and the timeout panics: no one waits for the container any more,
    nothing removes it, and the gateway believes that it runs. *)
Example huge_timeout_leaves_container :
  (RunApi.validate_cage_spec endless_spec, has_panicked endless.1.1, docker_verbs endless.2, reported endless.2) =
  (Ok tt, true, ["network"; "network"; "create"; "start"], ["running"]).
Proof. vm_compute. reflexivity. Qed.

(** Pausing a run ends it: the wait takes the paused container for one that is
    not running any more, the container is removed and the run reported as
    finished. *)
Definition pausing : Script :=
  {| sp_branches := [WaitReady; ControlTick; WaitReady; WaitReady]; sp_commands := [command_for "pause_run" 50 51];
     sp_states := ["running"; "paused"]; sp_claim := 200; sp_heartbeat := 200 |}.

Example paused_run_is_removed :
  (docker_verbs (caged pausing).2, reported (caged pausing).2) =
  (["network"; "network"; "create"; "start"; "inspect"; "pause"; "inspect"; "rm"; "network"; "network"],
   ["running"; "paused"; "finished"]).
Proof. vm_compute. reflexivity. Qed.

(** A run that is reported as paused has no lease: its runner is told that it
    lost the claim, and kills it. *)
Definition paused_world := (run db_handler (RunApi.update_run_status "acme" the_run
  {| urs_runner_id := "runner-a"; urs_status := "paused"; urs_finished_at := None; urs_exit_code := None |}) w4).1.2.

Example paused_run_has_no_lease :
  (run db_handler (RunApi.heartbeat_run "acme" the_run "runner-a") paused_world).1.1 =
  Refused 409 "caller does not hold the claim on this run".
Proof. vm_compute. reflexivity. Qed.

(** The runner reports a quarantine with a status the gateway refuses, and the
    workspace of a quarantined run is removed. *)
Definition quarantining : Script :=
  {| sp_branches := [WaitReady; ControlTick; WaitReady; WaitReady]; sp_commands := [command_for "quarantine_run" 50 51];
     sp_states := ["running"; "exited"]; sp_claim := 200; sp_heartbeat := 200 |}.
Definition looked_for (t : list (event RunnerE)) : list string :=
  omap (λ ev, match ev with Call e r => match e with InCage (PathExists p) => Some p | _ => None end end) t.

Example quarantined_run_is_removed :
  (reported (caged quarantining).2, looked_for (caged quarantining).2,
   (run db_handler (RunApi.update_run_status "acme" the_run
      {| urs_runner_id := "runner-a"; urs_status := "quarantined"; urs_finished_at := Some 1; urs_exit_code := None |})
      w4).1.1) =
  (["running"; "quarantined"; "quarantined"], ["/var/cages/42"; "/var/cages/42"],
   Refused 400 "status must be one of [..]").
Proof. vm_compute. reflexivity. Qed.

(** A command to start whose claim fails once is rejected as a replay when it is
    looked at again. *)
Definition claiming (status : Z) : Script :=
  {| sp_branches := []; sp_commands := [command_for "start_run" 50 51]; sp_states := []; sp_claim := status;
     sp_heartbeat := 200 |}.
Definition first_look := run runner_handler (Runner.find_and_claim_a_run "runner-a" receiver) (claiming 500, 0).
Definition second_look := run runner_handler (Runner.find_and_claim_a_run "runner-a" first_look.1.1.2) (claiming 200, 0).
Definition answered_commands (t : list (event RunnerE)) : list string :=
  omap (λ ev, match ev with Call e r => match e with PostCommandStatus _ s => Some s | _ => None end end) t.

Example failed_claim_burns_command :
  (answered_commands first_look.2, answered_commands second_look.2,
   bool_decide (is_Some first_look.1.1.1), bool_decide (is_Some second_look.1.1.1)) = ([], ["nacked"], false, false).
Proof. vm_compute. reflexivity. Qed.

(** The gateway accepts a destination the runner refuses. *)
Definition blank_network : CageNetworkSpecRequest :=
  {| cns_direct_internet := false; cns_egress_proxy_url := Some "http://proxy:3128"; cns_allowed_destinations := [" "] |}.

Example blank_destination_accepted_then_refused :
  (RunApi.validate_network blank_network, Spec.validate_network blank_network) =
  (Ok tt, Err (InvalidSpec "network.allowed_destinations entries must not be empty")).
Proof. vm_compute. reflexivity. Qed.

(** A name with a [=] in it sets a variable that is meant to be removed. *)
Example name_with_equals_sets_proxy :
  split_once "=" (default "" (head (tenant_values [("ALL_PROXY=socks5://elsewhere:1080", "")]))) =
  Some ("ALL_PROXY", "socks5://elsewhere:1080=").
Proof. vm_compute. reflexivity. Qed.
