(* ===== verification/GatewaySafety.v ===== *)
(** * What the gateway guarantees

    The guarantees of the pipeline carried to the collaborators of the gateway
    by [interp_runs]: a run of the gateway is a run of the pipeline whose port
    calls are answered by the modelled methods. *)

From S2P Require Import Prelude RustString Prog Trust Canon Models Records External Validation Risk Caches Net Ssrf Runtime Admit Preflight Guard Metadata Evaluate Effects Pipeline Gateway.

Module GatewaySafety.
Section Safety.
Context {X : External} {H : HostExternal}.

(** The REST and gRPC entry points: the pipeline against the gateway's
    runtime. *)
Definition authorize (ctx : AuthorizeContext) (raw_body : string) (started_at : Instant)
    (config : EvaluateConfig) : Host DecisionOutcome :=
  interp Gateway.gateway (Pipeline.run_authorize_pipeline ctx raw_body started_at config).

(** ** Host calls that write *)

(** Rows, receipts, approvals, agent state, heartbeats, events and GitHub
    notifications; caches, metrics, counters and logs are not included. *)
Definition host_writes {T} (e : HostE T) : bool :=
  match e with
  | StInsertDecision _ | StInsertAuditEvent _ | StAppendReceipt _ _ | StSetAgentStatus _ _ _
  | StInsertApproval _ | StMaybeEscalate _ _ _ | HeartbeatTouch _ _ | AuditBatchEmit _
  | ReceiptBatchEmit _ _ | SpawnRiskScoreWrite _ _ _ _ _ | EventEmit _ | GithubPrComment _ _ _
  | GithubRecordDecision _ _ _ _ _ _ _ => true
  | _ => false
  end.

Definition quiet (T : Type) (e : HostE T) : Prop := host_writes e = false.

Lemma gateway_dry T (e : DecisionE T) : dry_call T e → all_calls quiet (Gateway.gateway T e).
Proof.
  intros [Hp|Hn].
  - destruct e; try discriminate Hp; unfold Gateway.gateway, Gateway.get_agent_by_token,
      Gateway.get_agent_by_mtls_cn, Gateway.auth_failure_blocked, Gateway.record_auth_failure,
      Gateway.call_admission_webhook, Gateway.enforcement_status, Gateway.skill_action_meta,
      Gateway.mcp_server_status, Gateway.mcp_tool_meta, Gateway.ensure_policies_loaded,
      Gateway.evaluate_cedar, Gateway.idempotent_replay, Gateway.write_decision_and_audit,
      Gateway.get_cached_risk_weights;
      try (simpl in Hp; apply negb_false_iff in Hp; rewrite Hp); by calls.
  - destruct e; try discriminate Hn. unfold Gateway.gateway, Gateway.check_and_record_nonce. by calls.
Qed.

(** A dry run writes nothing.  When the request asks for a dry run, no run
    of the gateway inserts a row, a receipt, an approval or an audit event,
    changes the agent, emits a security event or notifies GitHub; of the
    durable stores only the nonce store can be touched. *)
Theorem gateway_dry_run_writes_nothing ctx body started config t o request :
  json_parse_request body = Some request → rq_dry_run request = Some true →
  runs (authorize ctx body started config) t o →
  Forall (event_sat quiet) t.
Proof.
  intros Hj Hd (t' & ts & Hrun & -> & Himp)%interp_runs.
  eapply implements_all; [apply gateway_dry|exact Himp|].
  by eapply Pipeline.dry_run_calls.
Qed.

(** ** The methods, one run at a time *)

Lemma get_agent_token_run tenant token tr a :
  runs (Gateway.get_agent_by_token tenant token) tr (Ok (Some a)) →
  ∃ rec, Call (StGetAgentByToken tenant token) (Ok (Some rec)) ∈ tr ∧
         a = Gateway.agent_record_to_authorize_agent rec.
Proof.
  unfold Gateway.get_agent_by_token. intros Hr. prog_run Hr; simplify_eq.
  match goal with He : Some _ = option_map _ ?o |- _ => destruct o as [rec|]; simplify_eq/= end.
  eexists. split; [in_trace|done].
Qed.

Lemma get_agent_cn_run tenant cn tr a :
  runs (Gateway.get_agent_by_mtls_cn tenant cn) tr (Ok (Some a)) →
  ∃ rec, Call (StGetAgentByMtlsCn tenant cn) (Ok (Some rec)) ∈ tr ∧
         a = Gateway.agent_record_to_authorize_agent rec.
Proof.
  unfold Gateway.get_agent_by_mtls_cn. intros Hr. prog_run Hr; simplify_eq.
  match goal with He : Some _ = option_map _ ?o |- _ => destruct o as [rec|]; simplify_eq/= end.
  eexists. split; [in_trace|done].
Qed.

Lemma enforcement_clear tenant agent tool tr :
  runs (Gateway.enforcement_status tenant agent tool) tr (Ok Clear) →
  ∃ now, Call (StIsBanned tenant "agent" agent now) (Ok false) ∈ tr ∧
         Call (StIsBanned tenant "tool" tool now) (Ok false) ∈ tr ∧
         Call (StIsQuarantined tenant "agent" agent) (Ok false) ∈ tr.
Proof.
  unfold Gateway.enforcement_status. intros Hr. prog_run Hr.
  repeat match goal with r : Fallible bool |- _ => destruct r as [[]|?] end; try discriminate Hr.
  eexists. repeat split; in_trace.
Qed.

Lemma evaluate_cedar_run tenant request tier known mtls tr view :
  runs (Gateway.evaluate_cedar tenant request tier known mtls) tr (Ok view) →
  Call (EngineAuthorize tenant request tier known mtls) (Ok view) ∈ tr.
Proof.
  unfold Gateway.evaluate_cedar. intros Hr. prog_run Hr.
  match type of Hr with _ = map_err _ ?o => destruct o; simplify_eq/= end. in_trace.
Qed.

Lemma write_run w tr c :
  runs (Gateway.write_decision_and_audit w) tr (Ok c) → wr_dry_run w = false →
  ∃ rec, Call (StInsertDecision rec) (Ok tt) ∈ tr ∧ dr_decision rec = wr_decision w ∧
         dr_request_id rec = rq_request_id (wr_request w) ∧ dr_tenant_id rec = wr_tenant_id w.
Proof.
  unfold Gateway.write_decision_and_audit. intros Hr Hd. rewrite Hd in Hr.
  prog_run Hr; simplify_eq; destruct_units; eexists; (split; [in_trace|done]).
Qed.

Lemma replay_run record tr r :
  runs (Gateway.idempotent_replay record) tr (Ok r) → rs_decision r = dr_decision record.
Proof. unfold Gateway.idempotent_replay. intros Hr. prog_run Hr; by simplify_eq/=. Qed.

(** The agent a credential resolved to is a stored row. *)
Lemma credential_row ctx agent t' ts :
  Forall2 (implements Gateway.gateway) t' ts →
  match ctx_credential ctx with
  | BearerToken token => token ≠ "" ∧ Call (GetAgentByToken (ctx_tenant_id ctx) token) (Ok (Some agent)) ∈ t'
  | MtlsCn cn => cn ≠ "" ∧ Call (GetAgentByMtlsCn (ctx_tenant_id ctx) cn) (Ok (Some agent)) ∈ t'
  end →
  ∃ rec, agent = Gateway.agent_record_to_authorize_agent rec ∧
    match ctx_credential ctx with
    | BearerToken token => Call (StGetAgentByToken (ctx_tenant_id ctx) token) (Ok (Some rec)) ∈ concat ts
    | MtlsCn cn => Call (StGetAgentByMtlsCn (ctx_tenant_id ctx) cn) (Ok (Some rec)) ∈ concat ts
    end.
Proof.
  intros Himp Hauth.
  destruct (ctx_credential ctx); destruct Hauth as [_ Hc];
    destruct (implements_in _ _ _ _ Himp Hc) as (tr & Himpl & Hsub);
    [apply get_agent_token_run in Himpl|apply get_agent_cn_run in Himpl];
    destruct Himpl as (rec & ? & ->); exists rec; auto.
Qed.

(** The answer [r] is the replay of an [allow] that storage holds: the request is
    not a dry run and has an identifier, its credential matched a stored agent
    that may use the tool, storage answered the lookup of that agent and
    identifier with an [allow], and [r] is what is rebuilt from that row. *)
Definition replayed_allow (ctx : AuthorizeContext) (body : string) (t : list (event HostE))
    (r : AuthorizeResponse) : Prop :=
  ∃ request rid agent record tr,
    json_parse_request body = Some request ∧ default false (rq_dry_run request) = false ∧
    rq_request_id request = Some rid ∧ rid ≠ "" ∧
    match ctx_credential ctx with
    | BearerToken token => Call (StGetAgentByToken (ctx_tenant_id ctx) token) (Ok (Some agent)) ∈ t
    | MtlsCn cn => Call (StGetAgentByMtlsCn (ctx_tenant_id ctx) cn) (Ok (Some agent)) ∈ t
    end ∧
    Call (StAgentToolPermission (ar_tenant_id agent) (ar_id agent)
            (tc_tool (rq_tool_call request))) (Ok true) ∈ t ∧
    Call (StDecisionByRequestId (ar_tenant_id agent) (ar_id agent) rid) (Ok (Some record)) ∈ t ∧
    dr_decision record = "allow" ∧
    runs (Gateway.idempotent_replay record) tr (Ok r) ∧ tr ⊆ t.

(** The host calls behind a replay of the pipeline. *)
Lemma replay_backed ctx body t' ts agent request rid record r :
  Forall2 (implements Gateway.gateway) t' ts →
  Pipeline.replayed ctx body t' agent request rid record → Call (IdempotentReplay record) (Ok r) ∈ t' →
  rs_decision r = "allow" → replayed_allow ctx body (concat ts) r.
Proof.
  intros Himp [? ? [? ?] Hauth Hperm Hfound] Hrep Hallow.
  destruct (credential_row _ _ _ _ Himp Hauth) as (rec & -> & Hcred).
  destruct (implements_in _ _ _ _ Himp Hrep) as (tr & Himpl & Hsub).
  assert (Hone : ∀ T (e : HostE T) (d : DecisionE T) x, Gateway.gateway T d = trigger e → Call d x ∈ t' →
    Call e x ∈ concat ts).
  { intros T e d x Hd Hin. destruct (implements_in _ _ _ _ Himp Hin) as (tr' & Himpl' & Hsub').
    simpl in Himpl'. rewrite Hd in Himpl'. apply runs_trigger in Himpl' as ->. apply Hsub'. by left. }
  exists request, rid, rec, record, tr. do 5 (split; [done|]).
  split; [by eapply Hone; [|exact Hperm]|]. split; [by eapply Hone; [|exact Hfound]|].
  split; [by rewrite <- (replay_run _ _ _ Himpl)|done].
Qed.

(** C2: an [allow] of the gateway is backed by the stores.  In every run of
    the gateway that answers [allow], either storage answered the lookup of the
    agent and the request id with a recorded [allow] and the answer is rebuilt
    from it ([replayed_allow]), or the stored agent's credential matched, the tool is
    permitted, storage reported neither the agent nor the tool banned nor
    the agent quarantined, the policy engine itself answered [allow], and
    the decision row was inserted unless the call mutates nothing or is a
    dry run. *)
Theorem gateway_allow_backed_by_stores ctx body started config t o r :
  runs (authorize ctx body started config) t o →
  decision_of o = Some r → rs_decision r = "allow" →
  replayed_allow ctx body t r ∨
  ∃ agent request asked,
    json_parse_request body = Some request ∧
    match ctx_credential ctx with
    | BearerToken token => Call (StGetAgentByToken (ctx_tenant_id ctx) token) (Ok (Some agent)) ∈ t
    | MtlsCn cn => Call (StGetAgentByMtlsCn (ctx_tenant_id ctx) cn) (Ok (Some agent)) ∈ t
    end ∧
    ar_status agent ≠ "frozen" ∧ ar_status agent ≠ "revoked" ∧ ar_force_approval agent = false ∧
    Call (StAgentToolPermission (ar_tenant_id agent) (ar_id agent)
            (tc_tool (rq_tool_call request))) (Ok true) ∈ t ∧
    (∃ now, Call (StIsBanned (ar_tenant_id agent) "agent" (ar_id agent) now) (Ok false) ∈ t ∧
            Call (StIsBanned (ar_tenant_id agent) "tool" (Validation.normalize_tool_identifier
              (tc_tool (rq_tool_call request))) now) (Ok false) ∈ t ∧
            Call (StIsQuarantined (ar_tenant_id agent) "agent" (ar_id agent)) (Ok false) ∈ t) ∧
    (∃ known mtls view, Call (EngineAuthorize (ar_tenant_id agent) asked (ar_risk_tier agent)
                                known mtls) (Ok view) ∈ t ∧ pd_decision view = "allow") ∧
    (tc_mutates_state (rq_tool_call asked) = false ∨ default false (rq_dry_run request) = true ∨
     ∃ rec, Call (StInsertDecision rec) (Ok tt) ∈ t ∧ dr_decision rec = "allow").
Proof.
  intros (t' & ts & Hrun & -> & Himp)%interp_runs Hr Hallow.
  assert (∀ ev, ev ∈ t' → ∃ tr, implements Gateway.gateway ev tr ∧ tr ⊆ concat ts) as Hin
    by (intros ev; by apply implements_in).
  destruct (Pipeline.allow_gates _ _ _ _ _ _ _ Hrun Hr Hallow)
    as [(a & request & rid & record & Hrep & Hcall)|(agent & request & asked & [])].
  - left. by eapply replay_backed.
  - right.
    destruct (credential_row _ _ _ _ Himp gp_authenticated) as (rec & -> & Hcred).
    exists rec, request, asked. split; [done|]. split; [done|].
    destruct gp_active. split; [done|]. split; [done|]. split; [done|].
    split; [|split; [|split]].
    + destruct (Hin _ gp_tool_permitted) as (tr & Himpl & Hsub).
      apply runs_trigger in Himpl as ->. apply Hsub. by left.
    + destruct (Hin _ gp_clear) as (tr & Himpl & Hsub).
      apply enforcement_clear in Himpl as (now & ? & ? & ?). exists now. auto.
    + destruct gp_cedar as (known & mtls & view & Hc & Hv).
      destruct (Hin _ Hc) as (tr & Himpl & Hsub). apply evaluate_cedar_run in Himpl.
      exists known, mtls, view. auto.
    + destruct gp_audited as (w & Hw & Hreq & _ & Hdry & res & Hcall & [Hok|Hmut]); [|by left].
      right. rewrite <- Hdry. destruct (wr_dry_run w) eqn:Hd; [by left|right].
      destruct res as [c|]; [|done]. destruct (Hin _ Hcall) as (tr & Himpl & Hsub).
      apply write_run in Himpl as (record & ? & Hdec & _); [|done]. exists record. rewrite Hdec. auto.
Qed.

(** An approval is bound to the action it was created for.  When
    [create_approval] succeeds it inserted one approval in state [created]
    whose effective hash is the action hash of the decision and whose
    decision id is the decision's, returned that hash, kept the callback
    secret only as a digest, and the callback URL, if there is one, passed
    the SSRF guard; when it fails no approval is reported. *)
Theorem approval_bound_to_action tenant agent request params tr info :
  runs (Gateway.create_approval tenant agent request params) tr (Ok info) →
  apr_action_hash info = acp_action_hash params ∧
  (∃ rec, Call (StInsertApproval rec) (Ok tt) ∈ tr ∧ apv_status rec = "created" ∧
    effective_action_hash rec = acp_action_hash params ∧ apv_tenant_id rec = tenant ∧
    apv_decision_id rec = uuid_to_string (acp_decision_id params) ∧
    apv_callback_secret_hash rec = host_sha256_hex <$> acp_callback_secret params) ∧
  ∀ url, acp_callback_url params = Some url →
    Ssrf.validate_callback_url url_parse dns_resolve url = Ok tt.
Proof.
  unfold Gateway.create_approval. intros Hr. prog_run Hr; simplify_eq; destruct_units.
  split; [done|]. split; [eexists; split; [in_trace|done]|].
  intros url Hu.
  match goal with Hc : Gateway.check_callback _ = Ok _ |- _ => unfold Gateway.check_callback in Hc;
    rewrite Hu in Hc; case_match; [by destruct_units|done] end.
Qed.

(** What a replay gives back.  The response rebuilt from a written row
    has the decision id, decision, both risk scores, reason, matched
    policies and effective trust of the original decision, provided policy
    names are non-empty and contain no comma; the redacted fields of a
    [redact] decision and the receipt are not in the row and come back
    empty. *)
Theorem recorded_decision_replays_same w composite ms created_at approval :
  uuid_parse (uuid_to_string (wr_decision_id w)) = Some (wr_decision_id w) →
  Forall (λ p, p ≠ "" ∧ has_byte "," p = false) (wr_matched_policies w) →
  let r := Pipeline.authorize_response_from_decision_record
             (Gateway.build_decision_record w composite ms created_at) approval in
  rs_decision_id r = wr_decision_id w ∧ rs_decision r = wr_decision w ∧
  rs_risk_score r = wr_risk_score w ∧ rs_composite_risk_score r = composite ∧
  rs_reason r = wr_reason w ∧ rs_matched_policies r = wr_matched_policies w ∧
  rs_root_trust_level r = effective_trust (wr_request w) ∧
  rs_redacted_fields r = [] ∧ rs_receipt r = None.
Proof.
  intros Hid Hps r. unfold r, Pipeline.authorize_response_from_decision_record. simpl.
  rewrite Hid, split_join_policies by done. done.
Qed.

(** The durable write gives up after a bounded number of attempts.  A
    receipt append is tried at most four times; every attempt but the last
    failed with a busy or locked database, and the answer is that of the
    last attempt. *)
Theorem receipt_append_retries_bounded tenant receipt tr r :
  runs (Gateway.retry_on_busy 3 (trigger (StAppendReceipt tenant receipt))) tr r →
  ∃ errs, tr = ((λ e, Call (StAppendReceipt tenant receipt) (Err e)) <$> errs) ++
               [Call (StAppendReceipt tenant receipt) r] ∧
    (length errs ≤ 3)%nat ∧ Forall (λ e, Gateway.is_retryable e = true) errs ∧
    ∀ e, r = Err e → Gateway.is_retryable e = true → length errs = 3%nat.
Proof.
  generalize 3%nat. intros n. revert tr. induction n as [|n IH]; intros tr Hr; cbn [Gateway.retry_on_busy] in Hr.
  - exists []. prog_run Hr; subst; (split; [done|]); (split; [simpl; lia|]); (split; [constructor|]); naive_solver.
  - prog_red Hr. destruct Hr as (res & t1 & -> & Hr). destruct res as [v|e].
    + prog_run Hr. subst. exists []. split; [done|]. split; [simpl; lia|]. split; [constructor|done].
    + destruct (Gateway.is_retryable e) eqn:He.
      * destruct (IH _ Hr) as (errs & -> & Hlen & Hall & Hlast). exists (e :: errs).
        split; [done|]. split; [simpl; lia|]. split; [by constructor|].
        intros e' Hre He'. simpl. f_equal. by eapply Hlast.
      * prog_run Hr. subst. exists []. split; [done|]. split; [simpl; lia|]. split; [constructor|].
        intros e' [= <-] He'. congruence.
Qed.
End Safety.
End GatewaySafety.
