(* ===== verification/Containment.v ===== *)
(** * What the drain may do, and what it must do

    Three theorems about [Drain.drain]: a response, an alert, a notification
    concerns the tenant and the agent of the event that caused it, and an agent
    is touched only where the tenant's settings arm the response engine; a
    storm of denials gets the agent frozen whatever else fails; and a frozen
    agent is given no fresh [allow] by the decision pipeline. *)

From S2P Require Import Prelude RustString Prog Canon Models Records External Runtime Bans Agents Pipeline Gateway AgentApi Soc SocStore Detect Correlate Respond Drain GatewaySafety.

Abbreviation strace := (list (event SocE)).

(** ** Rules for programs that obey a condition on their calls *)

(** More calls keep it. *)
Class Grows (R : strace → Prop) := grows : ∀ s s', s ⊆ s' → R s → R s'.

Lemma grows_const P : Grows (λ _, P).
Proof. by intros s s' _. Qed.
Lemma grows_in ev : Grows (λ t, ev ∈ t).
Proof. intros s s' Hs Hin. by apply Hs. Qed.
Lemma grows_and R Q : Grows R → Grows Q → Grows (λ t, R t ∧ Q t).
Proof. intros HR HQ s s' Hs [? ?]. split; [by eapply HR|by eapply HQ]. Qed.
Lemma grows_or R Q : Grows R → Grows Q → Grows (λ t, R t ∨ Q t).
Proof. intros HR HQ s s' Hs [?|?]; [left; by eapply HR|right; by eapply HQ]. Qed.
Lemma grows_ex {A} (R : A → strace → Prop) : (∀ a, Grows (R a)) → Grows (λ t, ∃ a, R a t).
Proof. intros HR s s' Hs [a ?]. exists a. by eapply (HR a). Qed.
Lemma grows_impl (P : Prop) R : Grows R → Grows (λ t, P → R t).
Proof. intros HR s s' Hs H HP. eapply HR; eauto. Qed.

Ltac grow :=
  lazymatch goal with
  | |- Grows (λ t, @?R t ∧ @?Q t) => apply (grows_and R Q); grow
  | |- Grows (λ t, @?R t ∨ @?Q t) => apply (grows_or R Q); grow
  | |- Grows (λ t, ∃ a, @?R a t) => apply (grows_ex (λ a t, R a t)); intros ?; cbv beta; grow
  | |- Grows (λ t, ?ev ∈ t) => apply (grows_in ev)
  | |- Grows (λ _, ?P) => apply (grows_const P)
  | |- Grows (λ t, ?P → @?R t) => apply (grows_impl P R); grow
  | |- _ => typeclasses eauto
  end.

Section Obeys.
Context (permitted : strace → ∀ T, SocE T → Prop).

(** From a trace where [R] holds, every call of [p] is permitted, and at the
    end [R] still holds and the result is as [φ] says. *)
Definition obeys {A} (R : strace → Prop) (φ : strace → A → Prop) (p : OnSoc A) : Prop :=
  ∀ s, R s → safe (checked permitted) (λ t a, R t ∧ φ t a) s p.

Lemma obeys_ret {A} R (φ : strace → A → Prop) a : (∀ s, R s → φ s a) → obeys R φ (mret a).
Proof. intros H s HR. split; auto. Qed.

Lemma obeys_bind {A B} R (φ : strace → A → Prop) (ψ : strace → B → Prop) p f :
  obeys R φ p → (∀ a, obeys (λ t, R t ∧ φ t a) ψ (f a)) → obeys R ψ (p ≫= f).
Proof.
  intros Hp Hf s HR. eapply safe_mbind; [apply checked_monotone|by apply Hp|].
  intros t a Ha. eapply safe_impl; [apply checked_monotone| |by apply Hf].
  by intros t' b [[? _] ?].
Qed.

Lemma obeys_trigger {T} R (e : SocE T) :
  Grows R → (∀ s, R s → permitted s T e) → obeys R (λ t r, Call e r ∈ t) (trigger e).
Proof.
  intros HG He s HR. split; [by apply He|]. intros r. split; [|set_solver].
  eapply HG; [|exact HR]. set_solver.
Qed.

Lemma obeys_post {A} R (φ φ' : strace → A → Prop) p :
  obeys R φ p → (∀ t a, R t → φ t a → φ' t a) → obeys R φ' p.
Proof.
  intros Hp Hφ s HR. eapply safe_impl; [apply checked_monotone| |by apply Hp].
  intros t a [? ?]. auto.
Qed.

(** A fact that is known at the start may be used. *)
Lemma obeys_fact {A} R (P : Prop) (φ : strace → A → Prop) p :
  (P → obeys (λ t, R t ∧ P) φ p) → obeys (λ t, R t ∧ P) φ p.
Proof. intros H s HR. apply H; [apply HR|done]. Qed.

(** Each identifier is drawn; the records are the functions applied to them. *)
Lemma obeys_mint {A} R (φ : A → Prop) (l : list (Uuid → A)) :
  Grows R → (∀ s, R s → permitted s _ SoUuid) → Forall (λ f, ∀ id, φ (f id)) l →
  obeys R (λ _, Forall φ) (mint l).
Proof.
  intros HG Hu Hl. revert R HG Hu. induction Hl as [|f l Hf _ IH]; intros R HG Hu; cbn [mint].
  { by apply obeys_ret. }
  eapply obeys_bind; [by apply obeys_trigger|]. intros id. cbv beta.
  eapply obeys_bind; [apply IH; [grow|by intros s [HR _]; apply Hu]|].
  intros rest. apply obeys_ret. intros s [_ Hr]. by constructor.
Qed.
End Obeys.

(** ** The tenant and the agent of the event *)

Section Scope.
Context {X : External} {HX : HostExternal} {SX : SocExternal}.
Context (tenant agent : string).

(** The arguments of a call are the tenant's and the agent's.  The calls of
    the spawned tasks are not made by the loop. *)
Definition in_scope {T} (e : SocE T) : Prop :=
  match e with
  | SoAutoRespond tn | SoAutonomyRow tn | SoListRules tn | SoListPlaybooks tn | SoQuarantineMcp tn _
  | SoSubscriptions tn _ => tn = tenant
  | SoGetAgent tn ag | SoSetFrozenReason tn ag _ | SoKnownToolAction tn ag _ _ _ | SoIncrementHour tn ag _
  | SoHourlyCounts tn ag _ _ => tn = tenant ∧ ag = agent
  | SoSetAgentStatus tn ag status => tn = tenant ∧ ag = agent ∧ status = "frozen"
  | SoSetForceApproval tn ag value => tn = tenant ∧ ag = agent ∧ value = true
  | SoInsertAlert r | SoSpawnTriage r => sal_tenant_id r = tenant ∧ sal_agent_id r = agent
  | SoUpsertIncident r => sin_tenant_id r = tenant ∧ sin_agent_id r = agent
  | SoInsertAudit r => aud_tenant_id r = tenant ∧ aud_agent_id r = Some agent
  | SoNotify m => nm_tenant_id m = tenant ∧ nm_agent_id m = agent
  | SoSilenced tn _ ag _ => tn = tenant ∧ ag = Some agent
  | SoSpawnDelivery _ p => we_tenant_id p = tenant ∧ we_agent_id p = agent
  | SoSpawnExport ev => ase_tenant_id ev = tenant ∧ ase_agent_id ev = agent
  | SoPost _ _ | SoMetric _ _ | SoEnv _ | SoNow | SoUuid => True
  | SoCountSimilar _ _ _ _ | SoCountRecent _ _ | SoSetTriage _ _ _ | SoClaude _ _ _ _ | SoDeliver _ _ _ _
  | SoSleepMs _ | SoRecordDelivery _ _ _ => False
  end.

(** The calls of a response. *)
Definition responds {T} (e : SocE T) : bool :=
  match e with
  | SoSetAgentStatus _ _ _ | SoSetFrozenReason _ _ _ | SoSetForceApproval _ _ _ | SoQuarantineMcp _ _
  | SoPost _ _ => true
  | _ => false
  end.

(** A message that is not about an incident. *)
Definition speaks {T} (e : SocE T) : bool :=
  match e with
  | SoNotify m => nm_kind m != "incident"
  | SoSpawnDelivery _ p => we_kind p != "incident"
  | _ => false
  end.

(** The level the tenant's row or, failing that, the environment gave. *)
Definition resolved (level : string) (t : strace) : Prop :=
  (∃ row, Call (SoAutonomyRow tenant) (Ok (Some row)) ∈ t ∧ Autonomy.recognised row = Some level) ∨
  (∃ v, Call (SoEnv "AEGIS_SOC_AUTONOMY_LEVEL") v ∈ t ∧
        level = default "L1" (Autonomy.recognised v)).

Definition armed (t : strace) : Prop :=
  Call (SoAutoRespond tenant) (Ok (Some true)) ∈ t ∧
  (∃ level, (level = "L3" ∨ level = "L4") ∧ resolved level t) ∧
  ∃ a, Call (SoGetAgent tenant agent) (Ok (Some a)) ∈ t.

Definition voiced (t : strace) : Prop := ∃ level, level ≠ "L0" ∧ resolved level t.

Definition permitted (s : strace) (T : Type) (e : SocE T) : Prop :=
  in_scope e ∧ (responds e = true → armed s) ∧ (speaks e = true → voiced s).

#[local] Instance resolved_grows level : Grows (resolved level).
Proof. unfold resolved. grow. Qed.
#[local] Instance armed_grows : Grows armed.
Proof. unfold armed. grow. Qed.
#[local] Instance voiced_grows : Grows voiced.
Proof. unfold voiced. grow. Qed.

(** A call that is neither a response nor a message. *)
Lemma permitted_plain s {T} (e : SocE T) :
  in_scope e → responds e = false → speaks e = false → permitted s T e.
Proof. intros He Hr Hs. split; [done|]. by rewrite Hr, Hs. Qed.

Definition alert_in_scope (a : Alert) : Prop := al_tenant_id a = tenant ∧ al_agent_id a = agent.
Definition incident_in_scope (i : Incident) : Prop := in_tenant_id i = tenant ∧ in_agent_id i = agent.

Abbreviation ok R p := (obeys permitted R (λ _ _, True) p).

Lemma call_ok R {T} (e : SocE T) : Grows R → (∀ s, R s → permitted s T e) → ok R (trigger e).
Proof. intros HG He. eapply obeys_post; [by apply obeys_trigger|done]. Qed.

(** The branches and calls of a program. *)
Ltac obey :=
  repeat first
    [ progress cbv beta
    | lazymatch goal with
      | |- obeys _ _ _ (mret _) => apply obeys_ret; intros
      | |- obeys _ _ _ (try_bind _ _) => unfold try_bind
      | |- obeys _ _ _ (trigger _ ≫= _) => eapply obeys_bind; [apply obeys_trigger; [grow|intros ? ?]|intros ?]
      | |- obeys _ _ _ ((_ ≫= _) ≫= _) => eapply (obeys_bind _ _ (λ _ _, True)); [|intros ?]
      | |- obeys _ _ _ (trigger _) => apply call_ok; [grow|intros ? ?]
      | |- obeys _ _ _ (if ?b then _ else _) => destruct b eqn:?
      | |- obeys _ _ _ (match ?x with _ => _ end) => destruct x eqn:?
      end ].

Ltac fact H :=
  cbv beta;
  lazymatch goal with
  | |- obeys ?pm (λ t, @?R t ∧ ?P) ?φ ?p => apply (obeys_fact pm R P φ p); intros H
  end.

Lemma autonomy_obeys R :
  Grows R → obeys permitted R (λ t level, resolved level t) (Autonomy.get_soc_autonomy_level tenant).
Proof.
  intros HG. unfold Autonomy.get_soc_autonomy_level. obey; try by apply permitted_plain.
  - destruct a as [[row|]|]; [|done..]. left. exists row. naive_solver.
  - right. naive_solver.
Qed.

Lemma spawn_obeys R l p :
  Grows R → we_tenant_id p = tenant → we_agent_id p = agent →
  (we_kind p = "incident" ∨ ∀ s, R s → voiced s) → ok R (WebhookExport.spawn_deliveries l p).
Proof.
  intros HG Ht Ha Hv. revert R HG Hv.
  induction l as [|x l IH]; intros R HG Hv; cbn [WebhookExport.spawn_deliveries]; [by apply obeys_ret|].
  obey; [|apply IH; [grow|naive_solver]|by apply IH].
  split; [done|]. split; [done|]. cbn [speaks]. intros Hk. destruct Hv as [Hv|Hv]; [|auto].
  by rewrite Hv in Hk.
Qed.

Lemma export_obeys R p :
  Grows R → we_tenant_id p = tenant → we_agent_id p = agent →
  (we_kind p = "incident" ∨ ∀ s, R s → voiced s) → ok R (WebhookExport.dispatch p).
Proof.
  intros HG Ht Ha Hv. unfold WebhookExport.dispatch. rewrite Ht, Ha.
  obey; try (by apply permitted_plain); try done; apply spawn_obeys; try done; try grow; naive_solver.
Qed.

(** A message and its export. *)
Lemma announce_obeys R m p :
  Grows R → nm_tenant_id m = tenant → nm_agent_id m = agent → we_tenant_id p = tenant →
  we_agent_id p = agent → (nm_kind m = "incident" ∧ we_kind p = "incident" ∨ ∀ s, R s → voiced s) →
  ok R (_ ← trigger (SoNotify m); WebhookExport.dispatch p).
Proof.
  intros HG Hm1 Hm2 Hp1 Hp2 Hv. obey.
  - split; [done|]. split; [done|]. cbn [speaks]. intros Hk. destruct Hv as [[Hv _]|Hv]; [|auto].
    by rewrite Hv in Hk.
  - apply export_obeys; [grow|done..|]. naive_solver.
Qed.

Lemma handle_alert_obeys R enabled a :
  Grows R → alert_in_scope a → (enabled = true → ∀ s, R s → voiced s) →
  ok R (Drain.handle_alert enabled a).
Proof.
  intros HG [Ht Ha] Hv. unfold Drain.handle_alert. obey; [by apply permitted_plain|].
  eapply (obeys_bind _ _ (λ _ _, True)).
  { unfold Drain.observe_mttd. obey; try (by apply permitted_plain); done. }
  intros []. eapply (obeys_bind _ _ (λ _ _, True)).
  { destruct ((al_severity a == "high") && enabled) eqn:Hb; [|by apply obeys_ret].
    apply andb_true_iff in Hb as [_ ->]. apply announce_obeys; try done; [grow|].
    right. intros s [[HR _] _]. by apply Hv. }
  intros []. obey; try (by apply permitted_plain); done.
Qed.

Lemma handle_alerts_obeys R enabled l :
  Grows R → Forall alert_in_scope l → (enabled = true → ∀ s, R s → voiced s) →
  ok R (Drain.handle_alerts enabled l).
Proof.
  intros HG Hl. revert R HG. induction Hl as [|a l Ha _ IH]; intros R HG Hv; cbn [Drain.handle_alerts].
  { by apply obeys_ret. }
  eapply obeys_bind; [by apply handle_alert_obeys|]. intros []. apply IH; [grow|naive_solver].
Qed.

Lemma auto_respond_obeys R :
  Grows R → obeys permitted R (λ t r, r = Ok true → Call (SoAutoRespond tenant) (Ok (Some true)) ∈ t)
              (Autonomy.is_auto_respond_enabled tenant).
Proof.
  intros HG. unfold Autonomy.is_auto_respond_enabled. obey; [by apply permitted_plain| |done].
  destruct a0 as [[]|]; simpl; naive_solver.
Qed.

Section OfEvent.
Context (ev : AseEvent).
Hypothesis Hscope : ase_tenant_id ev = tenant ∧ ase_agent_id ev = agent.

Lemma minted_obeys R l :
  Grows R → Forall (λ f, ∀ id, alert_in_scope (f id)) l →
  obeys permitted R (λ _, Forall alert_in_scope) (mint l).
Proof using Type. intros HG. apply obeys_mint; [done|]. intros. by apply permitted_plain. Qed.

Lemma detector_obeys R rules :
  Grows R → obeys permitted R (λ _, Forall alert_in_scope) (Detect.evaluate ev rules).
Proof using Hscope.
  intros HG. apply minted_obeys; [done|]. apply list.Forall_fmap, Forall_true. intros rule id. exact Hscope.
Qed.

Lemma enabled_ok R name : Grows R → ok R (PromptInjection.enabled_from_env name).
Proof using Type. intros HG. unfold PromptInjection.enabled_from_env. obey; by try apply permitted_plain. Qed.

Lemma min_score_ok R name : Grows R → ok R (PromptInjection.min_score_from_env name).
Proof using Type. intros HG. unfold PromptInjection.min_score_from_env. obey; by try apply permitted_plain. Qed.

Lemma injection_obeys R :
  Grows R → obeys permitted R (λ _, Forall alert_in_scope) (PromptInjection.evaluate ev).
Proof using Hscope.
  intros HG. unfold PromptInjection.evaluate. eapply obeys_bind; [by apply enabled_ok|]. intros enabled.
  obey; [by constructor..| |by constructor]. eapply obeys_bind; [apply min_score_ok; grow|]. intros score.
  obey; [by constructor|]. apply minted_obeys; [grow|]. apply list.Forall_fmap, Forall_true.
  intros [kind hits] id. exact Hscope.
Qed.

Lemma poisoning_obeys R :
  Grows R → obeys permitted R (λ _, Forall alert_in_scope) (RagPoisoning.evaluate ev).
Proof using Hscope.
  intros HG. unfold RagPoisoning.evaluate. eapply obeys_bind; [by apply enabled_ok|]. intros enabled.
  obey; [by constructor..| |by constructor]. eapply obeys_bind; [apply min_score_ok; grow|]. intros score.
  obey; [by constructor|]. apply minted_obeys; [grow|]. unfold RagPoisoning.poisoning_alerts.
  rewrite !Forall_app. split_and!; case_match; repeat constructor; apply Hscope.
Qed.

Lemma baseline_obeys R :
  Grows R → obeys permitted R (λ _ r, match r with Ok l => Forall alert_in_scope l | Err _ => True end)
              (Baseline.evaluate ev).
Proof using Hscope.
  intros HG. destruct Hscope as [Ht Ha].
  assert (∀ o : option (Uuid → Alert), (∀ f, o = Some f → ∀ id, alert_in_scope (f id)) →
            Forall (λ f, ∀ id, alert_in_scope (f id)) (Correlate.opt_list o)) as Hopt.
  { intros [f|] Hf; repeat constructor; by apply Hf. }
  unfold Baseline.evaluate. obey; try (by apply permitted_plain); try done.
  eapply obeys_bind; [apply minted_obeys; [grow|destruct a0; repeat constructor; done]|]. intros alerts.
  obey; try (by apply permitted_plain); try naive_solver.
  eapply obeys_bind; [apply minted_obeys; [grow|]|].
  - apply Hopt. unfold Baseline.rate_alert. intros f Hf id. by repeat case_match; simplify_eq.
  - intros more. obey. apply Forall_app. naive_solver.
Qed.

Lemma detect_phase_obeys R enabled :
  Grows R → (enabled = true → ∀ s, R s → voiced s) → ok R (Drain.detect_phase enabled ev).
Proof using Hscope.
  intros HG Hv. unfold Drain.detect_phase.
  eapply (obeys_bind _ _ (λ _ _, True)).
  { unfold Drain.load_rules. obey; try done. apply permitted_plain; [apply Hscope|done..]. }
  intros rules. cbv beta.
  eapply obeys_bind; [apply detector_obeys; grow|]. intros alerts. fact Hl1.
  eapply obeys_bind; [apply handle_alerts_obeys; [grow|done|naive_solver]|]. intros []. cbv beta.
  eapply obeys_bind; [apply injection_obeys; grow|]. intros injection. fact Hl2.
  eapply obeys_bind; [apply handle_alerts_obeys; [grow|done|naive_solver]|]. intros []. cbv beta.
  eapply obeys_bind; [apply poisoning_obeys; grow|]. intros poisoning. fact Hl3.
  eapply obeys_bind; [apply handle_alerts_obeys; [grow|done|naive_solver]|]. intros []. cbv beta.
  eapply obeys_bind; [apply baseline_obeys; grow|]. intros [l|]; fact Hl4.
  - apply handle_alerts_obeys; [grow|done|naive_solver].
  - by apply obeys_ret.
Qed.

End OfEvent.

(** *** Responses *)

Section OfIncident.
Context (i : Incident).
Hypothesis Hincident : incident_in_scope i.

Lemma permitted_armed s {T} (e : SocE T) : in_scope e → armed s → speaks e = false → permitted s T e.
Proof using Type. intros He Hr Hs. split; [done|]. split; [done|]. by rewrite Hs. Qed.

Lemma execute_step_obeys R step a :
  Grows R → (∀ s, R s → armed s) → ok R (Playbook.execute_step step i a).
Proof using Hincident.
  intros HG Har. destruct Hincident as [Ht Ha]. unfold Playbook.execute_step, Playbook.stored.
  destruct step; rewrite ?Ht, ?Ha;
    obey; try (apply permitted_armed; [by rewrite ?Ht, ?Ha|naive_solver|done]); done.
Qed.

Lemma execute_steps_obeys R steps a :
  Grows R → (∀ s, R s → armed s) → ok R (Respond.execute_steps steps i a).
Proof using Hincident.
  revert R. induction steps as [|step steps IH]; intros R HG Har; cbn [Respond.execute_steps].
  { by apply obeys_ret. }
  eapply obeys_bind; [by apply execute_step_obeys|]. intros r. apply IH; [grow|naive_solver].
Qed.

Lemma respond_default_obeys R :
  Grows R → (∀ s, R s → armed s) → ok R (Respond.respond_default i).
Proof using Hincident.
  intros HG Har. destruct Hincident as [Ht Ha]. unfold Respond.respond_default, Respond.freeze_agent, try_bind.
  rewrite Ht, Ha. obey; try (apply permitted_armed; [done|naive_solver|done]); done.
Qed.

Lemma dispatch_obeys R : Grows R → ok R (Respond.dispatch i).
Proof using Hincident.
  intros HG. pose proof Hincident as [Ht Ha]. unfold Respond.dispatch, try_bind. rewrite Ht, Ha.
  eapply obeys_bind; [by apply auto_respond_obeys|]. intros [[]|e]; cbn [negb]; [|by apply obeys_ret..].
  eapply obeys_bind; [apply autonomy_obeys; grow|]. intros level.
  assert (∀ t a, ((R t ∧ (Ok (E := SqlxError) true = Ok true →
             Call (SoAutoRespond tenant) (Ok (Some true)) ∈ t)) ∧ resolved level t) →
            (level != "L3") && (level != "L4") = false →
            Call (SoGetAgent tenant agent) (Ok (Some a)) ∈ t → armed t) as Harmed.
  { intros t a [[_ H1] H2] Hb Hg. split; [auto|]. split; [exists level|by exists a].
    apply andb_false_iff in Hb as [Hb|Hb]; apply negb_false_iff, String.eqb_eq in Hb; auto. }
  obey; try (by apply permitted_plain); try done.
  - apply respond_default_obeys; [grow|naive_solver].
  - eapply obeys_bind; [apply execute_steps_obeys; [grow|naive_solver]|]. by intros []; apply obeys_ret.
Qed.

Lemma handle_incident_obeys R autonomy :
  Grows R → (∀ s, R s → resolved autonomy s) → ok R (Drain.handle_incident autonomy i).
Proof using Hincident.
  intros HG Hl. pose proof Hincident as [Ht Ha]. unfold Drain.handle_incident.
  obey; try by apply permitted_plain.
  eapply (obeys_bind _ _ (λ _ _, True)).
  { case_match; [|by apply obeys_ret]. apply announce_obeys; try done; [grow|by left]. }
  intros []. eapply obeys_bind; [apply dispatch_obeys; grow|]. intros [[action|]|]; [|by apply obeys_ret..].
  eapply (obeys_bind _ _ (λ _ _, True)).
  - obey; [|done]. split; [done|]. split; [done|]. intros _. exists autonomy. split; [|naive_solver].
    apply andb_true_iff in Heqb as [Heq%String.eqb_eq _]. by rewrite Heq.
  - intros []. obey; try (by apply permitted_plain); [|done]. apply permitted_plain; [|done..].
    unfold Drain.response_audit. simpl. by rewrite Ht, Ha.
Qed.
End OfIncident.

Lemma handle_incidents_obeys R autonomy l :
  Grows R → (∀ s, R s → resolved autonomy s) → Forall incident_in_scope l →
  ok R (Drain.handle_incidents autonomy l).
Proof.
  intros HG Hl Hs. revert R HG Hl. induction Hs as [|i l Hi _ IH]; intros R HG Hl; cbn [Drain.handle_incidents].
  { by apply obeys_ret. }
  eapply obeys_bind; [by apply handle_incident_obeys|]. intros []. apply IH; [grow|naive_solver].
Qed.

(** The incidents of an event concern its tenant and its agent. *)
Lemma observed_in_scope c ev :
  ase_tenant_id ev = tenant → ase_agent_id ev = agent →
  Forall (λ f, ∀ id, incident_in_scope (f id)) (Correlate.observe_memory c ev).1.
Proof.
  intros Ht Ha.
  assert (∀ kind severity summary ids id,
    incident_in_scope (Correlate.new_incident ev kind severity summary ids id)) as Hnew by done.
  unfold Correlate.observe_memory, Correlate.rule_deny_storm, Correlate.rule_runaway,
    Correlate.rule_repeated_approval, Correlate.rule_data_exfil, Correlate.rule_trust_escalation.
  repeat case_match; simplify_eq; simpl; repeat (apply Forall_app; split); repeat constructor; intros;
    try apply Hnew.
Qed.

Lemma drain_event_obeys exporter c ev :
  ase_tenant_id ev = tenant → ase_agent_id ev = agent →
  obeys permitted (λ _, True) (λ _ c', c' = (Correlate.observe_memory c ev).2)
    (Drain.drain_event exporter c ev).
Proof.
  intros Ht Ha. unfold Drain.drain_event. eapply (obeys_bind _ _ (λ _ _, True)).
  { obey; [by apply permitted_plain|done]. }
  intros []. rewrite Ht. eapply obeys_bind; [apply autonomy_obeys; grow|]. intros level. cbv beta.
  assert (∀ t, ((True ∧ True) ∧ resolved level t) → (level != "L0") = true → voiced t) as Hv.
  { intros t [_ Hr] Hb. exists level. split; [|done]. intros ->. done. }
  eapply (obeys_bind _ _ (λ _ _, True)).
  { unfold Drain.notify_decision. case_match eqn:Hb; [|by apply obeys_ret]. apply andb_true_iff in Hb as [Hb _].
    apply announce_obeys; try done; [grow|]. right. naive_solver. }
  intros []. eapply obeys_bind; [apply detect_phase_obeys; [done|grow|naive_solver]|]. intros [].
  pose proof (observed_in_scope c ev Ht Ha) as Hin.
  destruct (Correlate.observe_memory c ev) as [found c'] eqn:Ho. simpl in Hin.
  eapply obeys_bind; [apply obeys_mint; [grow|intros; by apply permitted_plain|exact Hin]|].
  intros incidents. fact Hi. eapply obeys_bind; [apply handle_incidents_obeys; [grow|naive_solver|done]|].
  intros []. by apply obeys_ret.
Qed.
End Scope.

(** C12: the drain minds its own business.  Handling an event, every call that
    names a tenant or an agent names those of the event: what is read, stored,
    announced or exported, and the one agent whose status or approval flag is
    touched, which is only ever frozen or put under forced approval.  A
    containment call or a playbook's outbound request is made only after the
    tenant was found to have automatic response enabled, its autonomy level to
    be L3 or L4 and the agent to exist; a message that is not about an incident
    only after the level was found not to be L0. *)
Theorem responses_are_authorised {X : External} {HX : HostExternal} {SX : SocExternal}
    exporter c ev t1 T (e : SocE T) r t2 :
  partial (Drain.drain_event exporter c ev) (t1 ++ Call e r :: t2) →
  let tenant := ase_tenant_id ev in
  let agent := ase_agent_id ev in
  in_scope tenant agent e ∧
  (responds e = true → armed tenant agent t1) ∧
  (speaks e = true → voiced tenant t1).
Proof.
  intros Hp. eapply (checked_partial (permitted (ase_tenant_id ev) (ase_agent_id ev)) _ _ []); [|exact Hp].
  by apply drain_event_obeys.
Qed.

(** ** A storm gets the agent frozen *)

Section Liveness.
Context {X : External} {HX : HostExternal} {SX : SocExternal}.

Lemma drain_event_run exporter c ev t c' :
  runs (Drain.drain_event exporter c ev) t c' →
  c' = (Correlate.observe_memory c ev).2 ∧
  ∃ autonomy incidents t', t' ⊆ t ∧ runs (Drain.handle_incidents autonomy incidents) t' tt ∧
    Forall2 (λ f i, ∃ id, i = f id) (Correlate.observe_memory c ev).1 incidents.
Proof.
  unfold Drain.drain_event. intros Hr. do 4 prog_step Hr.
  destruct (Correlate.observe_memory c ev) as [found c1]. do 3 prog_step Hr. subst c'.
  split; [done|]. destruct_units. do 3 eexists. split; [|split; [eassumption|]]; [set_solver|].
  by eapply mint_runs.
Qed.

Lemma handle_incidents_run autonomy l i t :
  runs (Drain.handle_incidents autonomy l) t tt → i ∈ l →
  ∃ t' r, t' ⊆ t ∧ runs (Respond.dispatch i) t' r.
Proof.
  revert t. induction l as [|i' l IH]; [by intros t _ ?%elem_of_nil|]. intros t Hr [<-|Hin]%elem_of_cons.
  - cbn [Drain.handle_incidents] in Hr. prog_step Hr. unfold Drain.handle_incident in Hr0.
    do 5 prog_step Hr0. do 2 eexists. split; [|eassumption]. set_solver.
  - cbn [Drain.handle_incidents] in Hr. prog_step Hr.
    destruct (IH _ Hr Hin) as (t' & r & ? & ?). exists t', r. split; [set_solver|done].
Qed.

Lemma drain_from_run exporter c n evs t m k ev :
  runs (Drain.drain_from exporter c n evs) t m → evs !! k = Some ev →
  ∃ c' t' c'', t' ⊆ t ∧ runs (Drain.drain_event exporter c' ev) t' c'' ∧
    (Correlate.observe_all c evs).1 !! k = Some (Correlate.observe_memory c' ev).1.
Proof.
  revert c n t k. induction evs as [|ev0 evs IH]; [done|]. intros c n t k Hr Hk.
  cbn [Drain.drain_from] in Hr. prog_step Hr.
  destruct (drain_event_run _ _ _ _ _ Hr0) as [-> _].
  cbn [Correlate.observe_all]. destruct (Correlate.observe_memory c ev0) as [out c1] eqn:Ho.
  destruct (Correlate.observe_all c1 evs) as [outs c2] eqn:Hall.
  destruct k as [|k]; simpl in Hk.
  - injection Hk as ->. exists c. do 2 eexists. split; [|split; [exact Hr0|by rewrite Ho]]. set_solver.
  - destruct (IH _ _ _ _ Hr Hk) as (c' & t' & c'' & Hsub & Hrun & Hl). exists c', t', c''.
    split; [set_solver|]. split; [done|]. simpl in *. by rewrite Hall in Hl.
Qed.

Lemma drain_count exporter c n evs t m :
  runs (Drain.drain_from exporter c n evs) t m → m = (n + length evs)%nat.
Proof.
  revert c n t. induction evs as [|ev evs IH]; intros c n t; cbn [Drain.drain_from].
  - intros [_ ->]. simpl. lia.
  - intros Hr. prog_step Hr. apply IH in Hr as ->. simpl. lia.
Qed.

(** The answers that arm the engine for an agent, and leave incidents of this
    kind to its default. *)
Record arming (tenant agent kind : string) (t : strace) : Prop := {
  arm_enabled r : Call (SoAutoRespond tenant) r ∈ t → r = Ok (Some true);
  arm_level r : Call (SoAutonomyRow tenant) r ∈ t →
    ∃ row level, r = Ok (Some row) ∧ Autonomy.recognised row = Some level ∧ (level = "L3" ∨ level = "L4");
  arm_agent r : Call (SoGetAgent tenant agent) r ∈ t → ∃ a, r = Ok (Some a);
  arm_playbooks r : Call (SoListPlaybooks tenant) r ∈ t →
    ∃ l, r = Ok l ∧ ∀ p, p ∈ l → pbr_enabled p = false ∨ pbr_trigger_kind p ≠ kind }.

Lemma arming_sub tenant agent kind t t' : t' ⊆ t → arming tenant agent kind t → arming tenant agent kind t'.
Proof. intros Hs []. constructor; eauto. Qed.

Lemma no_playbook_matches l i a :
  (∀ p, p ∈ l → pbr_enabled p = false ∨ pbr_trigger_kind p ≠ in_kind i) → Respond.matched l i a = [].
Proof.
  intros Hl. unfold Respond.matched. apply FullHistory.filter_nil, list.Forall_forall.
  intros p (r & Hr & Hp)%list_elem_of_omap.
  apply list_elem_of_In, filter_In in Hr as [Hr%list_elem_of_In He].
  destruct (Hl r Hr) as [Hd|Hk]; [congruence|].
  unfold Playbook.from_record in Hp. destruct (parse_trigger_severity _); [|done].
  destruct (parse_steps _); [|done]. injection Hp as <-. unfold Playbook.matches. simpl.
  by rewrite (proj2 (String.eqb_neq _ _) Hk).
Qed.

Lemma dispatch_freezes i t r :
  arming (in_tenant_id i) (in_agent_id i) (in_kind i) t →
  (in_kind i = "deny_storm" ∨ in_kind i = "runaway" ∨ in_kind i = "data_exfil_pattern") →
  runs (Respond.dispatch i) t r →
  ∃ x, Call (SoSetAgentStatus (in_tenant_id i) (in_agent_id i) "frozen") x ∈ t.
Proof.
  intros [H1 H2 H3 H4] Hk. unfold Respond.dispatch, Autonomy.is_auto_respond_enabled,
    Autonomy.get_soc_autonomy_level. intros Hr.
  do 2 prog_step Hr. pose proof (H1 r0 ltac:(in_trace)) as ->. destruct Hr0 as [-> ->]. simpl in Hr.
  destruct Hr as (r1 & t2 & -> & Hr). destruct (H2 r1) as (row & level & -> & Hrow & Hl); [in_trace|].
  rewrite Hrow in Hr. simpl in Hr.
  assert ((level != "L3") && (level != "L4") = false) as Hb by (by destruct Hl as [->| ->]).
  rewrite Hb in Hr. destruct Hr as (r2 & t3 & -> & Hr). destruct (H3 r2) as [a ->]; [in_trace|].
  destruct Hr as (r3 & t4 & -> & Hr). destruct (H4 r3) as (l & -> & Hno); [in_trace|].
  cbn [prog_bind] in Hr. rewrite (no_playbook_matches l i a Hno) in Hr.
  assert (∃ action, Respond.recommended_action i = Some action ∧ ra_action action = "agent_frozen")
    as (action & Hact & Hfr).
  { unfold Respond.recommended_action. by destruct Hk as [->|[->| ->]]; eexists. }
  unfold Respond.respond_default, Respond.freeze_agent in Hr. rewrite Hact, Hfr in Hr. simpl in Hr.
  destruct Hr as (x & t5 & -> & _). exists x. in_trace.
Qed.

(** C13: a storm is contained.  Let the drained events have distinct
    identifiers and arrive, agent by agent, in the order of their times.  Once
    those of an agent include five denials within 60 seconds, or twenty actions
    within ten, the drain has asked for the agent to be frozen, whatever the
    answers to its other calls were, when the tenant has automatic response at L3
    or L4, the agent is found, and no enabled playbook is for incidents of that
    kind.  Events that arrive out of order can be missed
    ([SocScenarios.storm_out_of_order_missed]). *)
Theorem storm_freezes_agent exporter evs t m n secs test kind pre ev post :
  runs (Drain.drain exporter evs) t m →
  NoDup (map ase_event_id evs) → FullHistory.chronological evs →
  (n, secs, test, kind) ∈ FullHistory.counting_rules → kind ≠ "repeated_approval" →
  evs = pre ++ ev :: post → (n ≤ length (FullHistory.recent ev secs test (pre ++ [ev])))%nat →
  arming (ase_tenant_id ev) (ase_agent_id ev) kind t →
  m = length evs ∧
  ∃ x, Call (SoSetAgentStatus (ase_tenant_id ev) (ase_agent_id ev) "frozen") x ∈ t.
Proof.
  intros Hr Hnd Hch Hrule Hkind Hevs Hcount Harm. split; [by apply drain_count in Hr|].
  destruct (FullHistory.storm_never_missed evs n secs test kind pre ev post Hnd Hch Hrule Hevs Hcount)
    as (pre' & ev' & mid & out & Hsplit & Hkey & Hout & (inc & Hinc & Hid) & _).
  assert (evs !! length pre' = Some ev') as Hk.
  { rewrite Hevs. rewrite (cons_middle ev pre post), app_assoc, Hsplit, <- app_assoc.
    by rewrite lookup_app_r, Nat.sub_diag. }
  destruct (drain_from_run _ _ _ _ _ _ _ _ Hr Hk) as (c & t1 & c' & Hs1 & Hrun & Hobs).
  rewrite Hobs in Hout. injection Hout as <-.
  destruct (drain_event_run _ _ _ _ _ Hrun) as (_ & autonomy & incidents & t2 & Hs2 & Hhandle & Hmint).
  apply list_elem_of_lookup in Hinc as [j Hj].
  destruct (Forall2_lookup_l _ _ _ _ _ Hmint Hj) as (i & Hi & id & ->).
  destruct (Hid id) as (Hk1 & _ & Ht & Ha).
  destruct (handle_incidents_run _ _ (inc id) _ Hhandle) as (t3 & r & Hs3 & Hdis); [by eapply list_elem_of_lookup_2|].
  unfold Correlate.window_key in Hkey. injection Hkey as Hkt Hka.
  rewrite <- Hkt, <- Hka, <- Ht, <- Ha, <- Hk1 in Harm.
  destruct (dispatch_freezes (inc id) t3 r) as [x Hx]; [|..|exact Hdis|].
  - eapply arming_sub; [|exact Harm]. set_solver.
  - rewrite Hk1. unfold FullHistory.counting_rules in Hrule.
    rewrite !elem_of_cons in Hrule. destruct Hrule as [?|[?|[?|?%elem_of_nil]]]; [| | |done]; simplify_eq; auto.
  - exists x. rewrite <- Hkt, <- Hka, <- Ht, <- Ha. set_solver.
Qed.
End Liveness.

(** ** A frozen agent *)

Section Frozen.
Context {X : External} {HX : HostExternal} (hash_token : string → string).
Import Agents AgentTable.

(** The storage answers the lookups of a credential from this table. *)
Definition answered_from (rows : list AgentRecord) (t : list (event HostE)) : Prop :=
  (∀ tn token r, Call (StGetAgentByToken tn token) r ∈ t →
     r = Ok (get_agent_by_token hash_token rows tn token)) ∧
  (∀ tn cn r, Call (StGetAgentByMtlsCn tn cn) r ∈ t → r = Ok (get_agent_by_mtls_cn rows tn cn)).

(** C14: a frozen agent is given no fresh [allow].  After the statement that
    freezes an agent and any statements that neither write its status nor delete
    its tenant (inserts, token rotations, risk tiers, flags, updates of other
    agents, deletions of other tenants), an [allow] of
    the gateway is the replay of an [allow] that storage holds for the same
    agent and request id ([replayed_allow]), or its credential resolved to another agent. *)
Theorem frozen_agent_gets_no_fresh_allow rows tenant id now stmts ctx body started config t o r :
  (∃ row, row ∈ rows ∧ same_agent tenant id row = true) →
  Forall (λ x, spares tenant id x.2 = true) stmts →
  answered_from (exec_all hash_token stmts (set_agent_status rows tenant id "frozen" now).2) t →
  runs (GatewaySafety.authorize ctx body started config) t o →
  decision_of o = Some r → rs_decision r = "allow" →
  GatewaySafety.replayed_allow ctx body t r ∨
  ∃ agent, same_agent tenant id agent = false ∧
    agent ∈ exec_all hash_token stmts (set_agent_status rows tenant id "frozen" now).2 ∧
    match ctx_credential ctx with
    | BearerToken token => Call (StGetAgentByToken (ctx_tenant_id ctx) token) (Ok (Some agent)) ∈ t
    | MtlsCn cn => Call (StGetAgentByMtlsCn (ctx_tenant_id ctx) cn) (Ok (Some agent)) ∈ t
    end.
Proof.
  intros Hrow Hsp [Htok Hcn] (t' & ts & Hrun & -> & Himp)%interp_runs Hr Hallow.
  set (rows' := exec_all _ _ _) in *.
  assert (has_status tenant id "frozen" rows') as [_ Hst].
  { apply exec_all_has_status; [|done]. by apply set_status_has. }
  destruct (Pipeline.allow_gates _ _ _ _ _ _ _ Hrun Hr Hallow)
    as [(a & request & rid & record & Hrep & Hcall)|(agent & request & asked & [])].
  - left. by eapply GatewaySafety.replay_backed.
  - right. destruct (GatewaySafety.credential_row _ _ _ _ Himp gp_authenticated) as (rec & -> & Hcred).
    exists rec. destruct gp_active as [Hfr _]. simpl in Hfr.
    assert (rec ∈ rows') as Hin.
    { destruct (ctx_credential ctx); [apply Htok in Hcred|apply Hcn in Hcred]; injection Hcred as Hcred;
        symmetry in Hcred; apply find_some in Hcred as [Hin _]; by apply list_elem_of_In. }
    split; [|split; [done|exact Hcred]]. apply not_true_is_false. intros Hs. by apply Hfr, Hst.
Qed.
End Frozen.
