(* ===== verification/McpSafety.v ===== *)
(** * MCP servers: what the API, the caches and the decision path guarantee

    The MCP handlers ([McpApi.v]), the two lookups of the decision path
    ([Gateway.mcp_server_status], [Gateway.mcp_tool_meta]) and the tables
    ([McpStore.v]) together.  A world is the tables and the two caches of the
    process; [serves] says which answers storage and caches can give to a call
    and what they are afterwards, failures included, and [executes] serves the
    calls of a run one after the other. *)

From S2P Require Import Prelude RustString Prog Canon Models Records External Runtime Lru Caches Bans Service Gateway ApprovalApi AgentApi McpStore Soc Manifest Inspect McpApi Guard Validation Pipeline GatewaySafety.

Record McpWorld := {
  mw_tables : McpTables;
  mw_server_cache : lru McpServerRecord;
  mw_tool_cache : lru McpToolRecord }.

Definition set_tables (m : McpTables) (w : McpWorld) : McpWorld :=
  {| mw_tables := m; mw_server_cache := mw_server_cache w; mw_tool_cache := mw_tool_cache w |}.
Definition set_server_cache (c : lru McpServerRecord) (w : McpWorld) : McpWorld :=
  {| mw_tables := mw_tables w; mw_server_cache := c; mw_tool_cache := mw_tool_cache w |}.
Definition set_tool_cache (c : lru McpToolRecord) (w : McpWorld) : McpWorld :=
  {| mw_tables := mw_tables w; mw_server_cache := mw_server_cache w; mw_tool_cache := c |}.

Section World.
Context (schema_to_string : Canon.Value → string) (server_capacity tool_capacity : nat).

(** What the statements of a discovery that failed may have left. *)
Definition partly_discovered (m : McpTables) (tenant_id server_key : string)
    (tools : list McpToolManifestItem) (m' : McpTables) : Prop :=
  m' = m ∨
  ∃ server fresh skill_id m0 n ids now,
    McpStore.get_mcp_server_by_key m tenant_id server_key = Some server ∧
    McpStore.insert_skill m tenant_id ("mcp:" +:+ server_key) (msr_name server) "mcp" None
      (msr_owner_team server) None fresh now = Some (skill_id, m0) ∧
    let m1 := (McpStore.discover_each schema_to_string tenant_id (msr_id server) skill_id
                 (take n tools) ids now m0).2 in
    m' = m1 ∨ ∃ tool id, tools !! n = Some tool ∧
      McpStore.upsert_mcp_tool schema_to_string m1 tenant_id (msr_id server) tool id now = Some m'.

(** The call [e] is answered [r] in the world [w], which is [w'] then.  A
    failed statement changes nothing; an operation of several statements may
    have run some of them. *)
Definition serves {T} (e : McE T) : T → McpWorld → McpWorld → Prop :=
  match e in McE T return T → McpWorld → McpWorld → Prop with
  | McRegister rec => λ r w w',
      match r with
      | Ok _ => ∃ now m', McpStore.register_mcp_server (mw_tables w) rec now = Some m' ∧ w' = set_tables m' w
      | Err _ => w' = w
      end
  | McGetServer tenant key => λ r w w',
      w' = w ∧ ∀ o, r = Ok o → o = McpStore.get_mcp_server_by_key (mw_tables w) tenant key
  | McUpdate tenant key p => λ r w w',
      match r with
      | Ok o => ∃ m', McpStore.update_mcp_server (mw_tables w) tenant key p = (o, m') ∧ w' = set_tables m' w
      | Err _ => w' = w ∨ w' = set_tables (McpStore.update_columns (mw_tables w) tenant key p).2 w ∨
                 w' = set_tables (McpStore.update_mcp_server (mw_tables w) tenant key p).2 w
      end
  | McDelete tenant key => λ r w w',
      match r with
      | Ok b => ∃ now m', McpStore.delete_mcp_server (mw_tables w) tenant key now = (b, m') ∧ w' = set_tables m' w
      | Err _ => w' = w
      end
  | McSetHash tenant key hash => λ r w w',
      match r with
      | Ok _ => w' = set_tables (McpStore.set_mcp_server_manifest_hash (mw_tables w) tenant key hash) w
      | Err _ => w' = w
      end
  | McTouch tenant key => λ r w w',
      match r with
      | Ok _ => ∃ now, w' = set_tables (McpStore.touch_mcp_server_discovery (mw_tables w) tenant key now) w
      | Err _ => w' = w
      end
  | McDiscover tenant key tools _ => λ r w w',
      match r with
      | Ok rows => ∃ sid ids now m', length ids = length tools ∧
          McpStore.discover_mcp_tools schema_to_string (mw_tables w) tenant key tools sid ids now =
            (Some rows, m') ∧ w' = set_tables m' w
      | Err _ => ∃ m', partly_discovered (mw_tables w) tenant key tools m' ∧ w' = set_tables m' w
      end
  | McListTools tenant key => λ r w w',
      w' = w ∧ ∀ l, r = Ok l → l = McpStore.list_mcp_tools (mw_tables w) tenant key
  | McSetToolStatus tenant key tool status => λ r w w',
      match r with
      | Ok b => ∃ now m', McpStore.set_mcp_tool_status (mw_tables w) tenant key tool status now = (b, m') ∧
                          w' = set_tables m' w
      | Err _ => w' = w
      end
  | McInsertSnapshot rec => λ r w w',
      match r with
      | Ok _ => ∃ id now m', McpStore.insert_mcp_manifest_snapshot (mw_tables w) (mss_tenant_id rec)
                  (mss_server_key rec) (mss_manifest_hash rec) (mss_manifest_json rec) id now = Some m' ∧
                  w' = set_tables m' w
      | Err _ => w' = w
      end
  | McListSnapshots tenant key limit => λ r w w',
      w' = w ∧ ∀ l, r = Ok l → l = McpStore.list_mcp_manifest_snapshots (mw_tables w) tenant key limit
  | McServerInvalidate key => λ _ w w',
      w' = set_server_cache (McpServerCache.invalidate (mw_server_cache w) key) w
  | McToolInvalidate key => λ _ w w',
      w' = set_tool_cache (McpToolCache.invalidate (mw_tool_cache w) key) w
  | McToolInvalidateServer tenant key => λ _ w w',
      w' = set_tool_cache (McpToolCache.invalidate_server (mw_tool_cache w) tenant key) w
  | McInsertAudit _ | McInsertAlert _ => λ _ w w', w' = w
  | McSkillInvalidate _ | McEmit _ | McNow | McUuid => λ _ w w', w' = w
  end.

Fixpoint executes (t : list (event McE)) (w w' : McpWorld) : Prop :=
  match t with
  | [] => w' = w
  | Call e r :: t => ∃ w1, serves e r w w1 ∧ executes t w1 w'
  end.

(** The calls of the two lookups of the decision path. *)
Definition serves_lookup {T} (e : HostE T) : T → McpWorld → McpWorld → Prop :=
  match e in HostE T return T → McpWorld → McpWorld → Prop with
  | ServerCacheGet key => λ r w w',
      ∃ c, McpServerCache.get server_capacity (mw_server_cache w) key = (r, c) ∧ w' = set_server_cache c w
  | ServerCacheInsert key rec => λ _ w w',
      w' = set_server_cache (McpServerCache.insert server_capacity (mw_server_cache w) key rec) w
  | ToolCacheGet key => λ r w w',
      ∃ c, McpToolCache.get tool_capacity (mw_tool_cache w) key = (r, c) ∧ w' = set_tool_cache c w
  | ToolCacheInsert key rec => λ _ w w',
      w' = set_tool_cache (McpToolCache.insert tool_capacity (mw_tool_cache w) key rec) w
  | StGetMcpServer tenant key => λ r w w',
      w' = w ∧ ∀ o, r = Ok o → o = McpStore.get_mcp_server_by_key (mw_tables w) tenant key
  | StGetMcpTool tenant key tool => λ r w w',
      w' = w ∧ ∀ o, r = Ok o → o = McpStore.get_mcp_tool_by_key (mw_tables w) tenant key tool
  | _ => λ _ _ _, False
  end.

Fixpoint looks_up (t : list (event HostE)) (w w' : McpWorld) : Prop :=
  match t with
  | [] => w' = w
  | Call e r :: t => ∃ w1, serves_lookup e r w w1 ∧ looks_up t w1 w'
  end.

Lemma executes_app t t' w w' : executes (t ++ t') w w' ↔ ∃ w1, executes t w w1 ∧ executes t' w1 w'.
Proof.
  revert w. induction t as [|[T e r] t IH]; intros w; simpl.
  - split; [by eauto|]. by intros (? & -> & ?).
  - setoid_rewrite IH. naive_solver.
Qed.

(** ** The caches and the tables *)

(** No separator of the cache keys. *)
Definition clean (s : string) : Prop := has_byte (ascii_of_nat 31) s = false.

(** The tables are well formed, and what is cached is what they hold, for the
    servers outside [S] and the tools outside [T]. *)
Record coherent_but (S : string → string → Prop) (T : string → string → string → Prop)
    (w : McpWorld) : Prop := {
  co_wf : McpView.wf (mw_tables w);
  co_server t k rec : clean t → ¬ S t k →
    lru_map (mw_server_cache w) !! McpServerCache.cache_key t k = Some rec →
    McpStore.get_mcp_server_by_key (mw_tables w) t k = Some rec;
  co_tool t k x rec : clean t → clean k → ¬ T t k x →
    lru_map (mw_tool_cache w) !! McpToolCache.cache_key t k x = Some rec →
    McpStore.get_mcp_tool_by_key (mw_tables w) t k x = Some rec }.

Definition coherent : McpWorld → Prop := coherent_but McpView.nowhere McpView.no_tool.

Lemma coherent_weaken S T S' T' w :
  coherent_but S T w → (∀ t k, S t k → S' t k) → (∀ t k x, T t k x → T' t k x) → coherent_but S' T' w.
Proof. intros [Hw Hs Ht] HS HT. split; eauto. Qed.

Lemma coherent_footprint S T w m' :
  coherent_but S T w → McpView.footprint S T (mw_tables w) m' → coherent_but S T (set_tables m' w).
Proof.
  intros [Hw Hs Ht] Hf. destruct (Hf Hw) as (Hw' & Hs' & Ht'). split; simpl; [done| |].
  - intros t k rec Hc Hn Hl. rewrite Hs' by done. by apply Hs.
  - intros t k x rec Hc Hk Hn Hl. rewrite Ht' by done. by apply Ht.
Qed.

Lemma coherent_server_removed S S' T w t0 k0 :
  coherent_but S T w → (∀ t k, clean t → S t k → S' t k ∨ t = t0 ∧ k = k0) →
  coherent_but S' T (set_server_cache (McpServerCache.invalidate (mw_server_cache w)
                       (McpServerCache.cache_key t0 k0)) w).
Proof.
  intros [Hw Hs Ht] HS. split; simpl; [done| |done].
  intros t k rec Hc Hn Hl. apply lookup_delete_Some in Hl as [Hne Hl]. apply Hs; [done| |done].
  intros [?|[-> ->]]%HS; done.
Qed.

Lemma coherent_tool_removed S T T' w t0 k0 x0 :
  coherent_but S T w →
  (∀ t k x, clean t → clean k → T t k x → T' t k x ∨ t = t0 ∧ k = k0 ∧ x = x0) →
  coherent_but S T' (set_tool_cache (McpToolCache.invalidate (mw_tool_cache w)
                       (McpToolCache.cache_key t0 k0 x0)) w).
Proof.
  intros [Hw Hs Ht] HT. split; simpl; [done|done|].
  intros t k x rec Hc Hk Hn Hl. apply lookup_delete_Some in Hl as [Hne Hl]. apply Ht; [done..| |done].
  intros [?|(-> & -> & ->)]%HT; done.
Qed.

Lemma coherent_tools_removed S T T' w t0 k0 :
  coherent_but S T w →
  (∀ t k x, clean t → clean k → T t k x → T' t k x ∨ t = t0 ∧ k = k0) →
  coherent_but S T' (set_tool_cache (McpToolCache.invalidate_server (mw_tool_cache w) t0 k0) w).
Proof.
  intros [Hw Hs Ht] HT. split; simpl; [done|done|].
  intros t k x rec Hc Hk Hn Hl. apply map_lookup_filter_Some in Hl as [Hl Hp]. apply Ht; [done..| |done].
  intros [?|[-> ->]]%HT; [done| |done|done].
  unfold McpToolCache.cache_key in Hp. cbn [fst] in Hp. rewrite join3_prefix in Hp.
  by rewrite starts_with_app in Hp.
Qed.

(** A server was changed and its entry invalidated. *)
Lemma coherent_server_changed w t0 k0 m' :
  coherent w → McpView.footprint (McpView.at_server t0 k0) McpView.no_tool (mw_tables w) m' →
  coherent (set_server_cache (McpServerCache.invalidate (mw_server_cache w)
              (McpServerCache.cache_key t0 k0)) (set_tables m' w)).
Proof.
  intros Hco Hf.
  apply (coherent_server_removed (McpView.at_server t0 k0) _ _ (set_tables m' w)).
  - apply coherent_footprint; [|done].
    eapply coherent_weaken; [exact Hco| |]; [by intros ?? []|by intros ??? []].
  - intros t k _ [-> ->]. by right.
Qed.

(** ** Handlers *)

(** An operation of several statements did not fail half-way. *)
Definition unbroken {T} (e : McE T) : T → Prop :=
  match e in McE T return T → Prop with
  | McUpdate _ _ _ => λ r, is_ok r = true
  | McDiscover _ _ _ _ => λ r, is_ok r = true
  | _ => λ _, True
  end.

Definition rule : protocol (E := McE) McpWorld :=
  λ T e w post, ∀ r w', serves e r w w' → unbroken e r → post r w'.

Lemma rule_monotone : monotone rule.
Proof. intros T e w P Q HPQ H r w' Hs Hu. by apply HPQ, H. Qed.

Lemma safe_executes {A} (Q : McpWorld → A → Prop) p w t a w' :
  safe rule Q w p → runs p t a → executes t w w' →
  Forall (λ ev, match ev with Call e r => unbroken e r end) t → Q w' a.
Proof.
  revert w t. induction p as [x|T e k IH]; intros w t; simpl.
  - intros HQ [-> ->] ->. done.
  - intros Hk (r & t' & -> & Hr) (w1 & Hs & He) [Hu Hus]%list.Forall_cons. eauto.
Qed.

(** Calls that leave the world alone. *)
Definition neutral T (e : McE T) : Prop := ∀ r w w', serves e r w w' → w' = w.

Lemma neutral_safe {A} (p : OnMcp A) w : all_calls neutral p → safe rule (λ w' _, w' = w) w p.
Proof.
  induction p as [x|T e k IH]; simpl; [done|]. intros [Hn Hk] r w' ->%Hn _. by apply IH.
Qed.

Section Handlers.
Context {X : External} {HX : HostExternal} {AX : ApprovalExternal} {GX : AgentExternal}
        {MX : McpExternal} {SX : SocExternal}.

(** One call of the program in the goal. *)
Ltac call r w1 H := cbn [safe prog_bind]; intros r w1 H _; cbn [serves] in H.
Ltac unfold_prog := cbv [mret prog_mret mbind prog_mbind trigger]; cbn [safe prog_bind].

Lemma audit_neutral tenant ty action key json :
  all_calls neutral (McpApi.insert_audit tenant ty action key json).
Proof. unfold McpApi.insert_audit. calls; by intros ? w w'. Qed.

Lemma record_tools_neutral tenant key tools : all_calls neutral (McpApi.record_tools tenant key tools).
Proof.
  induction tools as [|tool tools IH]; cbn [McpApi.record_tools]; [done|].
  apply all_calls_bind; [by split; [intros ? w w'|]|]. intros _.
  apply all_calls_bind; [apply audit_neutral|]. by intros _.
Qed.

Lemma admin_audit_neutral tenant action key details :
  all_calls neutral (McpApi.admin_audit tenant action key details).
Proof. unfold McpApi.admin_audit. calls; by intros ? w w'. Qed.

(** A program that leaves the world alone, and then the rest. *)
Lemma neutral_then {A B} (p : OnMcp A) (f : A → OnMcp B) Q w :
  all_calls neutral p → (∀ a, safe rule Q w (f a)) → safe rule Q w (p ≫= f).
Proof.
  intros Hp Hf. eapply safe_mbind; [apply rule_monotone|by apply neutral_safe|].
  by intros ? a ->.
Qed.

Lemma register_coherent tenant payload w :
  coherent w → safe rule (λ w' _, coherent w') w (McpApi.register_mcp_server tenant payload).
Proof.
  intros Hco. unfold McpApi.register_mcp_server, McpApi.register_mcp_server_inner. unfold_prog.
  intros id w1 -> _ now w2 -> _ [[]|e] w3 Hr _; cbn [serves] in Hr; cbn [safe prog_bind]; [|by subst].
  destruct Hr as (at_ & m' & Hreg & ->). intros r w4 [-> _] _ [] w5 -> _. cbn [safe].
  apply (coherent_server_changed w); [done|]. by apply McpView.register_footprint in Hreg.
Qed.

(** A change of one server, answered with the row as it is then, and the
    invalidation of its entry. *)
Lemma quarantine_coherent tenant key status action reason w :
  coherent w →
  safe rule (λ w' _, coherent w') w (McpApi.update_mcp_server_quarantine tenant key status action reason).
Proof.
  intros Hco. unfold McpApi.update_mcp_server_quarantine. unfold_prog.
  intros [[rec|]|e] w1 Hr Hu; cbn [serves] in Hr; cbn [safe prog_bind]; [| |by simpl in Hu].
  - destruct Hr as (m' & Hup & ->).
    apply (neutral_then (McpApi.insert_audit _ _ _ _ _)); [apply audit_neutral|]. intros [].
    unfold McpApi.invalidate_server. unfold_prog. intros [] w2 -> _. cbn [safe].
    apply (coherent_server_changed w); [done|].
    pose proof (McpView.update_footprint (mw_tables w) tenant key (McpStore.only_status status)) as Hf.
    rewrite Hup in Hf. exact Hf.
  - destruct Hr as (m' & Hup & ->). apply coherent_footprint; [done|].
    eapply McpView.update_unseen; [apply Hco|exact Hup].
Qed.

Lemma patch_coherent tenant key patch w :
  coherent w → safe rule (λ w' _, coherent w') w (McpApi.update_mcp_server tenant key patch).
Proof.
  intros Hco. unfold McpApi.update_mcp_server. unfold_prog.
  intros [[old|]|e] w0 [-> _] _; cbn [safe prog_bind]; [|done..].
  intros [[rec|]|e] w1 Hr Hu; cbn [serves] in Hr; cbn [safe prog_bind]; [| |by simpl in Hu].
  - destruct Hr as (m' & Hup & ->). intros [] w2 -> _. cbn [safe].
    apply (coherent_server_changed w); [done|].
    pose proof (McpView.update_footprint (mw_tables w) tenant key patch) as Hf.
    rewrite Hup in Hf. exact Hf.
  - destruct Hr as (m' & Hup & ->). apply coherent_footprint; [done|].
    eapply McpView.update_unseen; [apply Hco|exact Hup].
Qed.

Lemma delete_coherent tenant key w :
  coherent w → safe rule (λ w' _, coherent w') w (McpApi.delete_mcp_server tenant key).
Proof.
  intros Hco. unfold McpApi.delete_mcp_server. unfold_prog.
  intros [[]|e] w1 Hr _; cbn [serves] in Hr; cbn [safe prog_bind]; [..|by subst];
    destruct Hr as (now & m' & Hdel & ->); apply McpView.delete_footprint in Hdel.
  - apply (neutral_then (McpApi.admin_audit _ _ _ _)); [apply admin_audit_neutral|]. intros [].
    unfold McpApi.invalidate_server. unfold_prog. intros [] w2 -> _ [] w3 -> _. cbn [safe].
    eapply coherent_tools_removed; [by apply (coherent_server_changed w)|]. by intros ????? [].
  - by apply coherent_footprint.
Qed.

Lemma tool_status_coherent tenant key tool status w :
  coherent w →
  safe rule (λ w' _, coherent w') w (McpApi.update_mcp_tool_status tenant key tool status).
Proof.
  intros Hco. unfold McpApi.update_mcp_tool_status. unfold_prog.
  intros [[]|e] w1 Hr _; cbn [serves] in Hr; cbn [safe prog_bind]; [..|by subst];
    destruct Hr as (now & m' & Hset & ->); apply McpView.tool_status_footprint in Hset.
  - apply (neutral_then (McpApi.insert_audit _ _ _ _ _)); [apply audit_neutral|]. intros [].
    unfold_prog. intros [] w2 -> _. cbn [safe].
    eapply coherent_tool_removed; [eapply coherent_footprint; [|exact Hset]|].
    + eapply coherent_weaken; [exact Hco| |]; [by intros ?? []|by intros ??? []].
    + intros t k x _ _ (-> & -> & ->). by right.
  - by apply coherent_footprint.
Qed.

(** What a discovery may change: its server and the tools of it. *)
Definition at_discovery (tenant key : string) : McpWorld → Prop :=
  coherent_but (McpView.at_server tenant key) (McpView.tools_of tenant key).

Lemma at_server_change tenant key w m' :
  at_discovery tenant key w →
  McpView.footprint (McpView.at_server tenant key) McpView.no_tool (mw_tables w) m' →
  at_discovery tenant key (set_tables m' w).
Proof.
  intros Hco Hf. apply coherent_footprint; [done|]. eapply McpView.footprint_weaken; [exact Hf|done|].
  by intros ??? [].
Qed.

Lemma snapshot_kept tenant key hash tools w :
  at_discovery tenant key w →
  safe rule (λ w' _, at_discovery tenant key w') w (McpApi.record_snapshot tenant key hash tools).
Proof.
  intros Hco. unfold McpApi.record_snapshot. unfold_prog.
  intros id w1 -> _ now w2 -> _ [[]|e] w3 Hr _; cbn [serves] in Hr; cbn [safe]; [|by subst].
  destruct Hr as (i & n & m' & Hins & ->). apply coherent_footprint; [done|].
  by eapply McpView.snapshot_footprint.
Qed.

Lemma drift_kept tenant key server tools hash w :
  at_discovery tenant key w →
  safe rule (λ w' _, at_discovery tenant key w') w (McpApi.respond_to_drift tenant key server tools hash).
Proof.
  intros Hco. unfold McpApi.respond_to_drift. unfold_prog.
  intros snaps w1 [-> _] _. destruct (Manifest.classify_manifest_drift _ _) as [c d]. unfold_prog.
  intros id w2 -> _ now w3 -> _ [] w4 -> _ [o|e] w5 Hr Hu; cbn [serves] in Hr; [|done].
  destruct Hr as (m' & Hup & ->).
  assert (at_discovery tenant key (set_tables m' w)) as Hco'.
  { apply at_server_change; [done|].
    pose proof (McpView.update_footprint (mw_tables w) tenant key (McpStore.only_status "quarantined")) as Hf.
    rewrite Hup in Hf. exact Hf. }
  destruct o; [|done]. eapply safe_impl; [apply rule_monotone| |apply neutral_safe, audit_neutral].
  by intros w' [] ->.
Qed.

Lemma pin_kept tenant key server tools hash w :
  at_discovery tenant key w →
  safe rule (λ w' _, at_discovery tenant key w') w (McpApi.pin_manifest tenant key server tools hash).
Proof.
  intros Hco. unfold McpApi.pin_manifest.
  apply (safe_mbind _ (λ w' _, at_discovery tenant key w')); [apply rule_monotone| |].
  { destruct (negb (is_empty _) && _); [by apply drift_kept|done]. }
  intros w1 [] Hco1. destruct (msr_manifest_hash server != hash); [|done]. unfold_prog.
  intros [[]|e] w2 Hr _; cbn [serves] in Hr; cbn [safe]; subst; [|done].
  apply at_server_change; [done|]. apply McpView.set_hash_footprint.
Qed.

Lemma discover_coherent tenant key payload w :
  coherent w → safe rule (λ w' _, coherent w') w (McpApi.discover_mcp_tools tenant key payload).
Proof.
  intros Hco. unfold McpApi.discover_mcp_tools, McpApi.discover_mcp_tools_inner.
  apply (safe_mbind _ (λ w' _, coherent w')); [apply rule_monotone| |by intros].
  unfold_prog. intros [[server|]|e] w1 [-> _] _; cbn [safe prog_bind]; [|done..].
  destruct (negb _); [done|]. unfold_prog.
  intros [rows|e] w2 Hr Hu; cbn [serves] in Hr; [|done].
  destruct Hr as (sid & ids & now & m' & _ & Hd & ->).
  assert (at_discovery tenant key (set_tables m' w)) as Hco1.
  { apply coherent_footprint.
    - eapply coherent_weaken; [exact Hco| |]; [by intros ?? []|by intros ??? []].
    - apply McpView.discover_footprint in Hd; [|apply Hco].
      eapply McpView.footprint_weaken; [exact Hd|by intros ?? []|done]. }
  apply (neutral_then (McpApi.record_tools _ _ _)); [apply record_tools_neutral|]. intros [].
  apply (safe_mbind _ (λ w' _, at_discovery tenant key w')); [apply rule_monotone|by apply snapshot_kept|].
  intros w3 [] Hco3.
  apply (safe_mbind _ (λ w' _, at_discovery tenant key w')); [apply rule_monotone|by apply pin_kept|].
  intros w4 [] Hco4. unfold McpApi.invalidate_server. unfold_prog.
  intros r w5 Hr _. cbn [serves] in Hr.
  assert (at_discovery tenant key w5) as Hco5.
  { destruct r as [[]|e]; [|by subst]. destruct Hr as [n ->]. apply at_server_change; [done|].
    apply McpView.touch_footprint. }
  intros [] w6 -> _ [] w7 -> _. cbn [safe].
  eapply coherent_tools_removed; [eapply coherent_server_removed; [exact Hco5|]|].
  - intros t k _ [-> ->]. by right.
  - intros t k x _ _ [-> ->]. by right.
Qed.

Lemma neutral_coherent {A} (p : OnMcp A) w :
  all_calls neutral p → coherent w → safe rule (λ w' _, coherent w') w p.
Proof.
  intros Hp Hco. eapply safe_impl; [apply rule_monotone| |by apply neutral_safe]. by intros w' a ->.
Qed.

Lemma alerts_neutral tenant key agent tool src now fs :
  all_calls neutral (McpApi.insert_alerts tenant key agent tool src now fs).
Proof.
  induction fs as [|f fs IH]; cbn [McpApi.insert_alerts]; [done|]. calls; by intros ? w w' || done.
Qed.

Lemma inspect_neutral tenant key payload :
  all_calls neutral (McpApi.inspect_mcp_response tenant key payload).
Proof.
  unfold McpApi.inspect_mcp_response, McpApi.report_scan.
  calls; try apply alerts_neutral; intros ? w w'; by try intros [-> _].
Qed.

(** ** The lookups of the decision path *)

Lemma lru_get_map {V} n (c : lru V) key o c' :
  Lru.get n c key = (o, c') → lru_map c' = lru_map c ∧ (∀ v, o = Some v → lru_map c !! key = Some v).
Proof.
  unfold Lru.get. destruct (n =? 0)%nat; [by intros [= <- <-]|].
  destruct (lru_map c !! key) as [v|] eqn:Hv; intros [= <- <-]; [|done]. split; [done|].
  by intros ? [= <-].
Qed.

Lemma lru_insert_map {V} n (c : lru V) key v k u :
  lru_map (Lru.insert n c key v) !! k = Some u → (k = key ∧ u = v) ∨ lru_map c !! k = Some u.
Proof.
  unfold Lru.insert. destruct (n =? 0)%nat; [by right|]. intros H.
  pose proof (lookup_weaken _ _ _ _ H (Lru.evict_subseteq n _ _)) as H'.
  apply lookup_insert_Some in H' as [[<- <-]|[_ H']]; auto.
Qed.

Lemma coherent_server_kept w c :
  coherent w → lru_map c ⊆ lru_map (mw_server_cache w) → coherent (set_server_cache c w).
Proof.
  intros [Hw Hs Ht] Hsub. split; simpl; [done| |done]. intros t k rec Hc _ Hl.
  apply Hs; [done|by intros []|]. by eapply lookup_weaken.
Qed.

Lemma coherent_tool_kept w c :
  coherent w → lru_map c ⊆ lru_map (mw_tool_cache w) → coherent (set_tool_cache c w).
Proof.
  intros [Hw Hs Ht] Hsub. split; simpl; [done|done|]. intros t k x rec Hc Hk _ Hl.
  apply Ht; [done..|by intros []|]. by eapply lookup_weaken.
Qed.

Lemma server_cached w tenant key rec :
  coherent w → clean tenant → McpStore.get_mcp_server_by_key (mw_tables w) tenant key = Some rec →
  coherent (set_server_cache (McpServerCache.insert server_capacity (mw_server_cache w)
              (McpServerCache.cache_key tenant key) rec) w).
Proof.
  intros [Hw Hs Ht] Hc Hrec. split; simpl; [done| |done]. intros t k u Hct Hn Hl.
  apply lru_insert_map in Hl as [[Hk ->]|Hl]; [|by apply Hs].
  apply join2_inj in Hk as [-> ->]; done.
Qed.

Lemma tool_cached w tenant key tool rec :
  coherent w → clean tenant → clean key →
  McpStore.get_mcp_tool_by_key (mw_tables w) tenant key tool = Some rec →
  coherent (set_tool_cache (McpToolCache.insert tool_capacity (mw_tool_cache w)
              (McpToolCache.cache_key tenant key tool) rec) w).
Proof.
  intros [Hw Hs Ht] Hc Hck Hrec. split; simpl; [done|done|]. intros t k x u Hct Hk Hn Hl.
  apply lru_insert_map in Hl as [[Hkey ->]|Hl]; [|by apply Ht].
  apply join3_inj in Hkey as (-> & -> & ->); done.
Qed.

Lemma server_lookup tenant key t r w w' :
  coherent w → clean tenant →
  runs (Gateway.mcp_server_status tenant key) t r → looks_up t w w' →
  coherent w' ∧ mw_tables w' = mw_tables w ∧
  (∀ s, r = Ok s → s = msr_status <$> McpStore.get_mcp_server_by_key (mw_tables w) tenant key).
Proof.
  intros Hco Hc Hr Hl. unfold Gateway.mcp_server_status in Hr. prog_step Hr. cbn [looks_up] in Hl.
  destruct Hl as (w1 & (c & Hget & ->) & Hl). apply lru_get_map in Hget as [Hm Hhit].
  assert (coherent (set_server_cache c w)) as Hco1 by (apply coherent_server_kept; [done|by rewrite Hm]).
  destruct r0 as [rec|].
  - destruct Hr as [-> ->]. simpl in Hl. subst w'. split; [done|]. split; [done|].
    intros s [= <-]. rewrite (co_server _ _ w Hco tenant key rec); auto.
  - prog_run Hr; simpl in Hl; destruct Hl as (w2 & [-> Hst] & Hl); simplify_eq.
    + destruct Hl as (w2 & -> & ->). specialize (Hst _ eq_refl).
      split; [by apply (server_cached (set_server_cache c w))|]. split; [done|].
      intros s [= <-]. by rewrite <- Hst.
    + specialize (Hst _ eq_refl). split; [done|]. split; [done|]. intros s [= <-]. by rewrite <- Hst.
    + split; [done|]. split; [done|]. intros s [=].
Qed.

Lemma tool_lookup tenant key tool t r w w' :
  coherent w → clean tenant → clean key →
  runs (Gateway.mcp_tool_meta tenant key tool) t r → looks_up t w w' →
  coherent w' ∧ mw_tables w' = mw_tables w ∧
  (∀ s, r = Ok s →
     s = Gateway.tool_meta_of <$> McpStore.get_mcp_tool_by_key (mw_tables w) tenant key tool).
Proof.
  intros Hco Hc Hck Hr Hl. unfold Gateway.mcp_tool_meta in Hr. prog_step Hr. cbn [looks_up] in Hl.
  destruct Hl as (w1 & (c & Hget & ->) & Hl). apply lru_get_map in Hget as [Hm Hhit].
  assert (coherent (set_tool_cache c w)) as Hco1 by (apply coherent_tool_kept; [done|by rewrite Hm]).
  destruct r0 as [rec|].
  - destruct Hr as [-> ->]. simpl in Hl. subst w'. split; [done|]. split; [done|].
    intros s [= <-]. rewrite (co_tool _ _ w Hco tenant key tool rec); auto.
  - prog_run Hr; simpl in Hl; destruct Hl as (w2 & [-> Hst] & Hl); simplify_eq.
    + destruct Hl as (w2 & -> & ->). specialize (Hst _ eq_refl).
      split; [by apply (tool_cached (set_tool_cache c w))|]. split; [done|].
      intros s [= <-]. by rewrite <- Hst.
    + specialize (Hst _ eq_refl). split; [done|]. split; [done|]. intros s [= <-]. by rewrite <- Hst.
    + split; [done|]. split; [done|]. intros s [=].
Qed.

(** ** Histories *)

Inductive McpOp :=
| OpRegister (tenant_id : string) (payload : RegisterMcpServerRequest)
| OpDiscover (tenant_id server_key : string) (payload : DiscoverMcpToolsRequest)
| OpToolStatus (tenant_id server_key tool_key status : string)
| OpServerStatus (tenant_id server_key status audit_action : string) (reason : option string)
| OpPatch (tenant_id server_key : string) (patch : McpStore.McpServerPatch)
| OpDelete (tenant_id server_key : string)
| OpInspect (tenant_id server_key : string) (payload : InspectMcpResponseRequest).

Definition op_prog (op : McpOp) : OnMcp Response :=
  match op with
  | OpRegister t payload => McpApi.register_mcp_server t payload
  | OpDiscover t k payload => McpApi.discover_mcp_tools t k payload
  | OpToolStatus t k x status => McpApi.update_mcp_tool_status t k x status
  | OpServerStatus t k status action reason =>
      McpApi.update_mcp_server_quarantine t k status action reason
  | OpPatch t k patch => McpApi.update_mcp_server t k patch
  | OpDelete t k => McpApi.delete_mcp_server t k
  | OpInspect t k payload => McpApi.inspect_mcp_response t k payload
  end.

(** Handlers and lookups, one after the other, no operation of several
    statements failing half-way. *)
Inductive history : McpWorld → McpWorld → Prop :=
| history_nil w : history w w
| history_op op t r w w1 w' :
    runs (op_prog op) t r → executes t w w1 →
    Forall (λ ev, match ev with Call e r => unbroken e r end) t → history w1 w' → history w w'
| history_server tenant key t r w w1 w' :
    clean tenant → runs (Gateway.mcp_server_status tenant key) t r → looks_up t w w1 →
    history w1 w' → history w w'
| history_tool tenant key tool t r w w1 w' :
    clean tenant → clean key → runs (Gateway.mcp_tool_meta tenant key tool) t r → looks_up t w w1 →
    history w1 w' → history w w'.

Lemma history_coherent w w' : coherent w → history w w' → coherent w'.
Proof.
  intros Hco H. revert Hco.
  induction H as [w|op t r w w1 w' Hr He Hu _ IH|tn k t r w w1 w' Hc Hr Hl _ IH
    |tn k x t r w w1 w' Hc Hck Hr Hl _ IH]; intros Hco; [done| | |].
  - apply IH. eapply (safe_executes (λ w' _, coherent w')); [|exact Hr|exact He|exact Hu].
    destruct op; cbn [op_prog];
      auto using register_coherent, discover_coherent, tool_status_coherent, quarantine_coherent,
        patch_coherent, delete_coherent.
    apply neutral_coherent; [apply inspect_neutral|done].
  - apply IH. by destruct (server_lookup _ _ _ _ _ _ Hco Hc Hr Hl).
  - apply IH. by destruct (tool_lookup _ _ _ _ _ _ _ Hco Hc Hck Hr Hl).
Qed.

(** C16: the caches of the decision path are invisible.  After any history of
    MCP handlers and lookups that ran one after the other, from well-formed
    tables and coherent (for instance empty) caches, what the pipeline is told
    of a server and of a tool is what the tables hold, provided that no compound
    storage operation failed half-way and that neither the lookups of the history
    nor this one are for a tenant or a server key that contains U+001F, the
    separator of the cache keys.  Nothing refuses such a server key, and with one
    two tools share an entry ([McpScenarios.separator_shares_entry]). *)
Theorem mcp_lookups_answer_from_tables w0 w tenant key tool :
  coherent w0 → history w0 w → clean tenant → clean key →
  (∀ t s w', runs (Gateway.mcp_server_status tenant key) t (Ok s) → looks_up t w w' →
     s = msr_status <$> McpStore.get_mcp_server_by_key (mw_tables w) tenant key) ∧
  (∀ t s w', runs (Gateway.mcp_tool_meta tenant key tool) t (Ok s) → looks_up t w w' →
     s = Gateway.tool_meta_of <$> McpStore.get_mcp_tool_by_key (mw_tables w) tenant key tool).
Proof.
  intros Hco Hh Hc Hck. pose proof (history_coherent _ _ Hco Hh) as Hco'. split; intros t s w' Hr Hl.
  - by destruct (server_lookup _ _ _ _ _ _ Hco' Hc Hr Hl) as (_ & _ & H); apply H.
  - by destruct (tool_lookup _ _ _ _ _ _ _ Hco' Hc Hck Hr Hl) as (_ & _ & H); apply H.
Qed.
(** ** What a discovery does *)

(** The server has this status and these tools wait for approval. *)
Record stands (tenant key status : string) (tools : list McpToolManifestItem) (m : McpTables) : Prop := {
  sd_wf : McpView.wf m;
  sd_server : ∃ rec, McpStore.get_mcp_server_by_key m tenant key = Some rec ∧ msr_status rec = status;
  sd_tools tool : tool ∈ tools → ∃ row,
    McpStore.get_mcp_tool_by_key m tenant key (mti_tool_key tool) = Some row ∧ mtr_status row = "pending" }.

Lemma stands_server_edit tenant key status status' tools m g :
  stands tenant key status tools m →
  (∀ r, msr_id (g r) = msr_id r) → (∀ r, msr_tenant_id (g r) = msr_tenant_id r) →
  (∀ r, msr_server_key (g r) = msr_server_key r) →
  (∀ r, msr_status r = status → msr_status (g r) = status') →
  stands tenant key status' tools (McpStore.update_server m tenant key (McpStore.with_record g)).2.
Proof.
  intros [Hwf (rec & Hrec & Hst) Ht] H1 H2 H3 Hg.
  destruct (McpView.update_server_footprint m tenant key (McpStore.with_record g)) as (Hwf' & _ & Ht');
    [| |done|].
  { intros r. unfold McpView.row_key. simpl. by rewrite H2, H3. }
  { intros r. unfold McpView.row_id. simpl. by rewrite H1. }
  split; [done| |].
  - exists (g rec). rewrite McpView.get_update, Hrec by done. split; [done|]. by apply Hg.
  - intros tool Hin. rewrite Ht' by (by intros []). by apply Ht.
Qed.

Lemma stands_update tenant key status tools m o m' status' :
  stands tenant key status tools m →
  McpStore.update_mcp_server m tenant key (McpStore.only_status status') = (o, m') →
  stands tenant key status' tools m'.
Proof.
  intros Hs [= _ <-].
  change (stands tenant key status' tools
    (McpStore.update_server m tenant key
       (McpStore.with_record (McpStore.patched (McpStore.only_status status')))).2).
  by eapply stands_server_edit.
Qed.

Lemma stands_snapshot tenant key status tools m t k h j id now m' :
  stands tenant key status tools m →
  McpStore.insert_mcp_manifest_snapshot m t k h j id now = Some m' → stands tenant key status tools m'.
Proof.
  intros [Hwf Hs Ht] Hi.
  destruct (McpView.snapshot_footprint McpView.nowhere McpView.no_tool _ _ _ _ _ _ _ _ Hi Hwf)
    as (Hwf' & Hs' & Ht'). split; [done| |].
  - rewrite Hs' by (by intros []). done.
  - intros tool Hin. rewrite Ht' by (by intros []). by apply Ht.
Qed.

(** The manifest is not the pinned one. *)
Definition drifted (server : McpServerRecord) (tools : list McpToolManifestItem) : bool :=
  negb (is_empty (msr_manifest_hash server)) &&
  (msr_manifest_hash server != McpApi.manifest_hash tools).

Lemma drift_quarantines tenant key server tools pending_tools hash status w :
  stands tenant key status pending_tools (mw_tables w) →
  safe rule (λ w' _, stands tenant key "quarantined" pending_tools (mw_tables w')) w
    (McpApi.respond_to_drift tenant key server tools hash).
Proof.
  intros Hs. unfold McpApi.respond_to_drift. unfold_prog.
  intros snaps w1 [-> _] _. destruct (Manifest.classify_manifest_drift _ _) as [c d]. unfold_prog.
  intros id w2 -> _ now w3 -> _ [] w4 -> _ [o|e] w5 Hr Hu; cbn [serves] in Hr; [|done].
  destruct Hr as (m' & Hup & ->). apply (stands_update _ _ _ _ _ _ _ _ Hs) in Hup.
  destruct o; [|done]. eapply safe_impl; [apply rule_monotone| |apply neutral_safe, audit_neutral].
  by intros w' [] ->.
Qed.

Lemma pin_quarantines tenant key server tools pending_tools status w :
  stands tenant key status pending_tools (mw_tables w) →
  safe rule (λ w' _, stands tenant key (if drifted server tools then "quarantined" else status)
                       pending_tools (mw_tables w')) w
    (McpApi.pin_manifest tenant key server tools (McpApi.manifest_hash tools)).
Proof.
  intros Hs. unfold McpApi.pin_manifest. fold (drifted server tools).
  apply (safe_mbind _ (λ w' _, stands tenant key (if drifted server tools then "quarantined" else status)
                                 pending_tools (mw_tables w'))); [apply rule_monotone| |].
  { destruct (drifted server tools); [by eapply drift_quarantines|done]. }
  intros w1 [] Hs1. destruct (msr_manifest_hash server != _); [|done]. unfold_prog.
  intros [[]|e] w2 Hr _; cbn [serves] in Hr; cbn [safe]; subst; [|done].
  by eapply stands_server_edit.
Qed.

Lemma discover_effect tenant key payload w server :
  McpView.wf (mw_tables w) →
  McpStore.get_mcp_server_by_key (mw_tables w) tenant key = Some server →
  safe rule (λ w' resp, rp_status resp = 200%Z →
    stands tenant key (if drifted server (dmr_tools payload) then "quarantined" else msr_status server)
      (dmr_tools payload) (mw_tables w')) w
    (McpApi.discover_mcp_tools tenant key payload).
Proof.
  intros Hwf Hserver. unfold McpApi.discover_mcp_tools, McpApi.discover_mcp_tools_inner.
  apply (safe_mbind _ (λ w' o, rp_status (outcome_to_response o) = 200%Z →
    stands tenant key (if drifted server (dmr_tools payload) then "quarantined" else msr_status server)
      (dmr_tools payload) (mw_tables w'))); [apply rule_monotone| |by intros].
  unfold_prog. intros [o|e] w1 [-> Ho] _; [|done]. rewrite (Ho o eq_refl), Hserver.
  destruct (negb _); [done|]. unfold_prog.
  intros [rows|e] w2 Hr Hu; cbn [serves] in Hr; [|done].
  destruct Hr as (sid & ids & now & m' & Hlen & Hd & ->).
  assert (stands tenant key (msr_status server) (dmr_tools payload) (mw_tables (set_tables m' w))) as Hs.
  { destruct (McpView.discover_footprint _ _ _ _ _ _ _ _ _ _ Hd Hwf Hwf) as (Hwf' & Hs' & _).
    split; [done| |].
    - exists server. rewrite Hs' by (by intros []). done.
    - intros tool Hin. by eapply (McpView.discover_pending schema_to_string (mw_tables w)). }
  apply (neutral_then (McpApi.record_tools _ _ _)); [apply record_tools_neutral|]. intros [].
  apply (safe_mbind _ (λ w' _, stands tenant key (msr_status server) (dmr_tools payload) (mw_tables w')));
    [apply rule_monotone| |].
  { unfold McpApi.record_snapshot. unfold_prog.
    intros id w3 -> _ n w4 -> _ [[]|e] w5 Hr _; cbn [serves] in Hr; cbn [safe]; [|by subst].
    destruct Hr as (i & n' & m2 & Hins & ->). by eapply stands_snapshot. }
  intros w3 [] Hs3.
  eapply safe_mbind; [apply rule_monotone|by apply pin_quarantines|]. intros w4 [] Hs4.
  unfold McpApi.invalidate_server. unfold_prog. intros r w5 Hr _. cbn [serves] in Hr.
  assert (stands tenant key (if drifted server (dmr_tools payload) then "quarantined" else msr_status server)
            (dmr_tools payload) (mw_tables w5)) as Hs5.
  { destruct r as [[]|e]; [|by subst]. destruct Hr as [n ->]. by eapply stands_server_edit. }
  intros [] w6 -> _ [] w7 -> _. cbn [safe]. by intros _.
Qed.

(** ** The decision path after a quarantine *)

(** The two lookups of this server answer from the tables [m]. *)
Definition server_answered_from (m : McpTables) (tenant key : string) (t : list (event HostE)) : Prop :=
  (∀ rec, Call (ServerCacheGet (McpServerCache.cache_key tenant key)) (Some rec) ∈ t →
     McpStore.get_mcp_server_by_key m tenant key = Some rec) ∧
  (∀ o, Call (StGetMcpServer tenant key) (Ok o) ∈ t →
     o = McpStore.get_mcp_server_by_key m tenant key).

(** What an [allow] is when the server [key] of [tenant] is quarantined: the
    replay of an [allow] that storage holds for the agent and request id, or the answer to a call of an agent
    of another tenant or of a tool of another server. *)
Definition elsewhere (tenant key : string) (ctx : AuthorizeContext) (body : string)
    (t : list (event HostE)) (r : AuthorizeResponse) : Prop :=
  GatewaySafety.replayed_allow ctx body t r ∨
  ∃ request agent, json_parse_request body = Some request ∧
    match ctx_credential ctx with
    | BearerToken token => Call (StGetAgentByToken (ctx_tenant_id ctx) token) (Ok (Some agent)) ∈ t
    | MtlsCn cn => Call (StGetAgentByMtlsCn (ctx_tenant_id ctx) cn) (Ok (Some agent)) ∈ t
    end ∧
    ¬ (ar_tenant_id agent = tenant ∧
       Guard.mcp_server_key_from_tool
         (Validation.normalize_tool_identifier (tc_tool (rq_tool_call request))) = Some key).

Lemma quarantined_server_denies m tenant key rec ctx body started config t o r :
  McpStore.get_mcp_server_by_key m tenant key = Some rec → msr_status rec = "quarantined" →
  server_answered_from m tenant key t →
  runs (GatewaySafety.authorize ctx body started config) t o →
  decision_of o = Some r → rs_decision r = "allow" → elsewhere tenant key ctx body t r.
Proof.
  intros Hrec Hst [Hcache Hstore] (t' & ts & Hrun & -> & Himp)%interp_runs Hr Hallow.
  destruct (Pipeline.allow_gates _ _ _ _ _ _ _ Hrun Hr Hallow)
    as [(a & request & rid & record & Hrep & Hcall)|(agent & request & asked & [])].
  - left. by eapply GatewaySafety.replay_backed.
  - right. destruct (GatewaySafety.credential_row _ _ _ _ Himp gp_authenticated) as (arec & -> & Hcred).
    exists request, arec. split; [done|]. split; [exact Hcred|]. intros [Hten Hkey].
    destruct (gp_mcp key Hkey) as (_ & (status & Hstat & Hnq) & _). apply Hnq. simpl in Hstat. rewrite Hten in Hstat.
    destruct (implements_in _ _ _ _ Himp Hstat) as (tr & Himpl & Hsub). simpl in Himpl.
    unfold Gateway.mcp_server_status in Himpl. prog_step Himpl.
    destruct r0 as [cached|].
    + destruct Himpl as [-> [= ->]]. f_equal. rewrite (Hcache cached) in Hrec by (apply Hsub; in_trace).
      congruence.
    + prog_run Himpl; simplify_eq.
      * assert (Some m0 = Some rec) as [= ->] by (rewrite <- Hrec; apply Hstore, Hsub; in_trace). congruence.
      * assert (None = Some rec) by (rewrite <- Hrec; apply Hstore, Hsub; in_trace). done.
Qed.

(** ** A discovery that answers 200 *)

(** The update that quarantines the server, failed. *)
Definition quarantine_failed (tenant key : string) (t : list (event McE)) : Prop :=
  ∃ e, Call (McUpdate tenant key (McpStore.only_status "quarantined")) (Err e) ∈ t.

(** Single statements: they succeed or change nothing. *)
Definition single T (e : McE T) : Prop := ∀ r, unbroken e r.

Lemma single_unbroken {A} (p : OnMcp A) t a :
  all_calls single p → runs p t a → Forall (λ ev, match ev with Call e r => unbroken e r end) t.
Proof.
  intros Hp Hr. eapply list.Forall_impl; [by eapply all_calls_runs|]. intros [T e r] H. apply H.
Qed.

Lemma record_tools_single tenant key tools : all_calls single (McpApi.record_tools tenant key tools).
Proof.
  induction tools as [|tool tools IH]; cbn [McpApi.record_tools]; [done|].
  unfold McpApi.insert_audit. calls; done.
Qed.

Lemma drift_unbroken tenant key server tools hash t u :
  runs (McpApi.respond_to_drift tenant key server tools hash) t u → ¬ quarantine_failed tenant key t →
  Forall (λ ev, match ev with Call e r => unbroken e r end) t.
Proof.
  unfold McpApi.respond_to_drift, McpApi.insert_audit. intros H Hq. prog_run H; simplify_eq.
  all: repeat (apply list.Forall_cons; split; [try exact I|]); try apply list.Forall_nil; try done.
  exfalso. apply Hq. eexists. in_trace.
Qed.

Lemma discover_unbroken tenant key payload t resp :
  runs (McpApi.discover_mcp_tools tenant key payload) t resp → rp_status resp = 200%Z →
  ¬ quarantine_failed tenant key t → Forall (λ ev, match ev with Call e r => unbroken e r end) t.
Proof.
  intros H Hok Hq. unfold McpApi.discover_mcp_tools, McpApi.discover_mcp_tools_inner in H.
  apply runs_bind in H as (t1 & o & t2 & -> & H & [-> ->]). rewrite app_nil_r in *.
  prog_step H. destruct r as [[server|]|e]; [|by destruct H as [-> ->]..]. apply list.Forall_cons. split; [exact I|].
  prog_step H. 1: by destruct H as [-> ->].
  prog_step H. destruct r as [tools|e]; [|by destruct H as [-> ->]]. apply list.Forall_cons. split; [done|].
  apply runs_bind in H as (t2 & [] & t3 & -> & H1 & H). apply list.Forall_app. split.
  { eapply single_unbroken; [apply record_tools_single|exact H1]. }
  apply runs_bind in H as (t4 & [] & t5 & -> & H2 & H). apply list.Forall_app. split.
  { eapply single_unbroken; [|exact H2]. unfold McpApi.record_snapshot. calls; done. }
  apply runs_bind in H as (t6 & [] & t7 & -> & H3 & H). apply list.Forall_app. split.
  { unfold McpApi.pin_manifest in H3. apply runs_bind in H3 as (t8 & [] & t9 & -> & H3 & H4).
    apply list.Forall_app. split.
    - destruct (negb _ && _); [|by destruct H3 as [-> _]]. eapply drift_unbroken; [exact H3|].
      intros [e He]. apply Hq. exists e. set_solver.
    - eapply single_unbroken; [|exact H4]. calls; done. }
  eapply single_unbroken; [|exact H]. unfold McpApi.invalidate_server. calls; done.
Qed.

(** C15: a changed manifest stops its server.  A discovery that answers 200
    leaves every discovered tool waiting for approval.  When the server had
    been pinned to the manifest [old] and the tools are the same, in any order,
    its status stays; when they are not (and SHA-256 does not collide) the server
    is quarantined, and from then on, as long as the lookups of the decision
    path answer from these tables, an [allow] of the gateway is the replay of an
    [allow] that storage holds for the agent and request id, or is not for a tool
    of this server.  Conditions: the update that quarantines the server did not
    fail (the handler only logs that failure and answers 200 all the same), both
    manifests list each tool key once, their schemas are values as the JSON
    parser builds them (no key twice in an object), and the serialiser prints the
    two canonical forms alike only if they are equal. *)
Theorem manifest_drift_contained w w' tenant key payload server old t resp :
  McpView.wf (mw_tables w) →
  McpStore.get_mcp_server_by_key (mw_tables w) tenant key = Some server →
  msr_manifest_hash server = McpApi.manifest_hash old →
  NoDup (map mti_tool_key old) → NoDup (map mti_tool_key (dmr_tools payload)) →
  Forall Manifest.well_formed_item old → Forall Manifest.well_formed_item (dmr_tools payload) →
  Manifest.printed_apart manifest_to_string old (dmr_tools payload) →
  runs (McpApi.discover_mcp_tools tenant key payload) t resp → executes t w w' →
  ¬ quarantine_failed tenant key t → rp_status resp = 200%Z →
  (∀ tool, tool ∈ dmr_tools payload → ∃ row,
     McpStore.get_mcp_tool_by_key (mw_tables w') tenant key (mti_tool_key tool) = Some row ∧
     mtr_status row = "pending") ∧
  (Manifest.same_manifest old (dmr_tools payload) →
     msr_status <$> McpStore.get_mcp_server_by_key (mw_tables w') tenant key = Some (msr_status server)) ∧
  (¬ Manifest.same_manifest old (dmr_tools payload) →
     Manifest.manifest_collision manifest_to_string host_sha256_hex old (dmr_tools payload) ∨
     msr_status <$> McpStore.get_mcp_server_by_key (mw_tables w') tenant key = Some "quarantined" ∧
     ∀ ctx body started config ta o r,
       server_answered_from (mw_tables w') tenant key ta →
       runs (GatewaySafety.authorize ctx body started config) ta o →
       decision_of o = Some r → rs_decision r = "allow" → elsewhere tenant key ctx body ta r).
Proof.
  intros Hwf Hserver Hpin Hnd Hnd' Hw Hw' Hp Hrun Hex Hu Hok.
  apply (discover_unbroken _ _ _ _ _ Hrun Hok) in Hu.
  pose proof (safe_executes _ _ _ _ _ _ (discover_effect tenant key payload w server Hwf Hserver) Hrun Hex Hu Hok)
    as [_ (rec & Hrec & Hst) Htools].
  destruct (Manifest.manifest_hash_exact manifest_to_string host_sha256_hex old (dmr_tools payload)
              Hnd Hnd' Hw Hw' Hp) as [Hsame Hdiff].
  assert (is_empty (msr_manifest_hash server) = false) as Hne by by rewrite Hpin.
  unfold drifted in Hst. rewrite Hne in Hst. simpl in Hst.
  destruct (msr_manifest_hash server == McpApi.manifest_hash (dmr_tools payload)) eqn:Heq; simpl in Hst;
    str_eq; (split; [done|]); rewrite Hrec; simpl; split.
  - by intros _; f_equal.
  - intros Hns. left. rewrite Hpin in Heq. by destruct (Hdiff Heq).
  - intros Hs. destruct Heq. rewrite Hpin. by apply Hsame.
  - intros _. right. split; [by f_equal|]. intros. by eapply quarantined_server_denies.
Qed.

(** What the lookup of the server answered. *)
Definition found_server (ev : event McE) (server : McpServerRecord) : Prop :=
  match ev with
  | @Call _ T e r => match e in McE T return T → Prop with
                     | McGetServer _ _ => λ r, r = Ok (Some server)
                     | _ => λ _, False
                     end r
  end.

(** A manifest without a valid signature leaves no trace: when the looked-up
    server has a pinned key, nothing else is called and the answer is 403. *)
Theorem unsigned_manifest_leaves_no_trace tenant key payload server pubkey ev t resp :
  msr_manifest_signing_public_key server = Some pubkey →
  (∀ s, dmr_manifest_signature payload = Some s →
     verify_signature pubkey (McpApi.signed_hash (dmr_tools payload)) s = false) →
  found_server ev server →
  runs (McpApi.discover_mcp_tools tenant key payload) (ev :: t) resp →
  t = [] ∧ rp_status resp = 403%Z.
Proof.
  intros Hk Hs Hf Hr. unfold McpApi.discover_mcp_tools, McpApi.discover_mcp_tools_inner in Hr.
  apply runs_bind in Hr as (t1 & o & t2 & Ht & (r & t3 & -> & Hr) & [-> ->]).
  rewrite app_nil_r in Ht. injection Ht as -> ->. simpl in Hf. subst r.
  assert (McpApi.signature_accepted server payload = false) as Hsig.
  { unfold McpApi.signature_accepted. rewrite Hk. destruct (dmr_manifest_signature payload); auto. }
  unfold prog_mbind in Hr. cbn [prog_bind] in Hr. rewrite Hsig in Hr. by destruct Hr as [-> ->].
Qed.

(** ** Where the guarantees end *)

(** A deleted server is not found, and its tools still are: the join of the
    tool lookup does not look at [deleted_at]. *)
Theorem deleted_server_keeps_its_tools m tenant key now m' :
  McpView.wf m → McpStore.delete_mcp_server m tenant key now = (true, m') →
  McpStore.get_mcp_server_by_key m' tenant key = None ∧
  ∀ x, McpStore.get_mcp_tool_by_key m' tenant key x = McpStore.get_mcp_tool_by_key m tenant key x.
Proof.
  intros Hwf Hd. pose proof (McpView.delete_footprint _ _ _ _ _ _ Hd Hwf) as (Hwf' & _ & Ht).
  split; [|intros x; apply Ht; by intros []].
  unfold McpStore.delete_mcp_server in Hd. injection Hd as _ <-.
  rewrite McpView.get_server_view by done.
  change (McpStore.with_servers _ m) with
    (McpStore.with_servers (update_rows (λ r, McpStore.same_server tenant key r && McpStore.not_deleted r)
       (λ r, {| msw_record := msw_record r; msw_deleted_at := Some now |}) (mt_servers m)).2 m).
  rewrite McpView.server_edit_view by done.
  destruct (McpView.server_row m tenant key) as [r|] eqn:Hr; [|done]. simpl.
  apply McpView.server_row_Some in Hr as [_ Hr%McpView.same_server_iff]. rewrite Hr. simpl.
  by destruct (McpStore.not_deleted r) eqn:Hn; simpl; [|rewrite Hn].
Qed.

(** Registering a known key again makes the server active, whatever its status
    was, and replaces the pinned signing key by the one of the request. *)
Theorem registering_again_lifts_quarantine m tenant payload id now stamp m' old :
  McpView.wf m →
  McpStore.get_mcp_server_by_key m tenant (rms_server_key payload) = Some old →
  McpStore.register_mcp_server m (McpApi.new_server tenant payload id now) stamp = Some m' →
  ∃ rec, McpStore.get_mcp_server_by_key m' tenant (rms_server_key payload) = Some rec ∧
    msr_status rec = "active" ∧ msr_manifest_hash rec = msr_manifest_hash old ∧
    msr_manifest_signing_public_key rec = rms_manifest_signing_public_key payload.
Proof.
  intros Hwf Hold Hreg. pose proof (McpView.register_footprint _ _ _ _ Hreg Hwf) as (Hwf' & _ & _).
  rewrite McpView.get_server_view in Hold by done.
  destruct (McpView.server_row m tenant (rms_server_key payload)) as [r|] eqn:Hr; [|done].
  simpl in Hold. destruct (McpStore.not_deleted r) eqn:Hn; [|done]. injection Hold as <-.
  pose proof Hr as [Hin Hk%McpView.same_server_iff]%McpView.server_row_Some.
  unfold McpStore.register_mcp_server in Hreg. cbv zeta in Hreg. simpl in Hreg.
  destruct (existsb (λ x, msr_id (msw_record x) == _) _); [done|].
  assert (existsb (McpStore.same_server tenant (rms_server_key payload)) (mt_servers m) = true) as He.
  { apply existsb_exists. exists r. split; [by apply list_elem_of_In|done]. }
  rewrite He in Hreg. injection Hreg as <-.
  rewrite McpView.get_server_view by done.
  unfold McpView.server_row. cbn [mt_servers McpStore.with_servers].
  rewrite find_map_update.
  - unfold McpView.server_row in Hr. rewrite Hr. simpl. rewrite Hk. simpl. eauto.
  - intros x Hx. apply eq_true_iff_eq. rewrite !McpView.same_server_iff.
    apply McpView.same_server_iff in Hx. by rewrite Hx.
Qed.
End Handlers.
End World.
