(* ===== verification/Scenarios.v ===== *)
(** * End-to-end scenarios

    Runs of the pipeline and of the gateway on the concrete host of the first section:
    the witnesses of the pipeline's and the gateway's properties, and the
    scenarios in which a fail-closed answer is later replayed as [allow]. *)

From S2P Require Import Prelude RustString Prog Trust Canon Models Records External Validation Risk Caches Net Ssrf Runtime Admit Preflight Guard Metadata Evaluate Effects Pipeline Service Gateway GatewaySafety.

(** * A concrete gateway

    An executable instance of every parameter of the development: third-party
    functions, one agent, one policy answer, an in-memory store of decision
    rows.  The witnesses and the end-to-end scenarios run on it. *)

Definition sample_request_for (mutates dry_run : bool) : AuthorizeRequest := {|
  rq_request_id := Some "req-1";
  rq_agent := {| actx_id := "agent-1"; actx_environment := "production" |};
  rq_user := None;
  rq_tool_call := {| tc_tool := "github"; tc_action := "merge"; tc_resource := Some "acme/repo#7";
                     tc_mutates_state := mutates; tc_parameters := Canon.Object [] |};
  rq_context := {| dctx_source_trust := "trusted_internal_signed";
                   dctx_contains_sensitive_data := false |};
  rq_trace := None; rq_callback := None; rq_nonce := None; rq_timestamp := None;
  rq_dry_run := Some dry_run |}.

Definition sample_request := sample_request_for true.

(** The body is the name of a request. *)
Definition sample_ext : External := {|
  json_parse_request s :=
    if s == "merge" then Some (sample_request false)
    else if s == "dry" then Some (sample_request true)
    else if s == "read" then Some (sample_request_for false false) else None;
  json_parse_strings s := Some (split_on "," s);
  percent_decode_utf8 s := Some s;
  nfc s := s;
  to_lowercase s := to_ascii_lowercase s;
  num_seconds d := (d ÷ 1000000000)%Z;
  hmac_sha256 k b := Some (k +:+ ":" +:+ b);
  hex_encode s := s;
  hex_decode s := Some s;
  uuid_parse s := if s == "uuid" then Some 1%Z else None |}.

Definition sample_host_ext : HostExternal := {|
  uuid_to_string _ := "uuid";
  to_rfc3339 _ := "1970-01-01T00:00:00Z";
  json_of_value _ := "{}";
  json_of_tool_call _ := "{}";
  json_of_decision _ := "{}";
  json_of_approval _ := "{}";
  json_of_tiers _ _ := "{}";
  host_sha256_hex s := s;
  socket_ip a := a;
  url_parse _ := Err "no url";
 
  dns_resolve _ _ := None;
  display_callback_error _ := "blocked" |}.

Definition sample_agent : AgentRecord := {|
  ar_id := "agent-1"; ar_tenant_id := "acme"; ar_agent_key := "bot"; ar_agent_token := "tok";
  ar_name := "bot"; ar_owner_team := None; ar_owner_email := None; ar_environment := "production";
  ar_framework := None; ar_model_provider := None; ar_model_name := None; ar_purpose := None;
  ar_risk_tier := "low"; ar_status := "active"; ar_last_seen_at := None; ar_frozen_reason := None;
  ar_quarantined_at := None; ar_force_approval := false; ar_signing_key := None;
  ar_allowed_environments := None; ar_mtls_cn := None; ar_created_at := 0%Z; ar_updated_at := 0%Z |}.

(** What can go wrong in the sample host. *)
Record faults := { receipt_fails : bool; audit_fails : bool; insert_fails : bool }.
Definition no_faults : faults := {| receipt_fails := false; audit_fails := false; insert_fails := false |}.

Definition db_down : AegisError := Database (OtherSqlx "disk full").

(** The host's state: the decision rows. *)
Definition world := list DecisionRecord.

Definition find_row (tenant agent rid : string) (w : world) : option DecisionRecord :=
  List.find (λ r, (dr_tenant_id r == tenant) && (dr_agent_id r == agent)
                  && bool_decide (dr_request_id r = Some rid)) w.

Definition sample_host (f : faults) (cedar : string) (risk : string) : handler HostE world :=
  λ T e w,
    match e in HostE T return T * world with
    | StGetAgentByToken t tok =>
        (Ok (if (t == "acme") && (tok == "tok") then Some sample_agent else None), w)
    | StGetAgentByMtlsCn _ _ => (Ok None, w)
    | StAgentToolPermission _ _ _ => (Ok true, w)
    | StDecisionByRequestId t a rid => (Ok (find_row t a rid w), w)
    | StCheckAndInsertNonce _ _ _ _ => (Ok false, w)
    | StIsBanned _ _ _ _ => (Ok false, w)
    | StIsQuarantined _ _ _ => (Ok false, w)
    | StGetSkillAction _ _ action =>
        (Ok (Some {| sar_id := "s"; sar_skill_id := "k"; sar_action_key := action;
                     sar_description := None; sar_risk := risk; sar_mutates_state := true;
                     sar_data_access := None; sar_approval_required := false;
                     sar_default_decision := "policy"; sar_created_at := 0%Z |}), w)
    | StAgentMcpServerPermission _ _ _ => (Ok true, w)
    | StGetMcpServer _ _ => (Ok None, w)
    | StGetMcpTool _ _ _ => (Ok None, w)
    | StListPolicies _ => (Ok [], w)
    | StGetRiskWeights _ => (Ok None, w)
    | StInsertDecision r => if insert_fails f then (Err db_down, w) else (Ok tt, w ++ [r])
    | StInsertAuditEvent _ => if audit_fails f then (Err db_down, w) else (Ok tt, w)
    | StAppendReceipt _ r => if receipt_fails f then (Err db_down, w) else (Ok r, w)
    | StSetAgentStatus _ _ _ => (Ok true, w)
    | StInsertApproval _ => (Ok tt, w)
    | StApprovalByDecision _ _ => (Ok None, w)
    | StMaybeEscalate _ _ _ => (Ok None, w)
    | TrackerIsBlocked _ => (false, w)
    | TrackerRecordFailure _ => (tt, w)
    | ReplayStoreDb => (false, w)
    | NonceCheckAndInsert _ _ => (false, w)
    | RateLimiterCheck _ => (true, w)
    | QuotaCheck _ => (true, w)
    | HeartbeatTouch _ _ => (tt, w)
    | SkillCacheGet _ => (None, w)
    | SkillCacheInsert _ _ => (tt, w)
    | ServerCacheGet _ => (None, w)
    | ServerCacheInsert _ _ => (tt, w)
    | ToolCacheGet _ => (None, w)
    | ToolCacheInsert _ _ => (tt, w)
    | WeightsCacheGet _ _ => (None, w)
    | WeightsCacheInsert _ _ _ => (tt, w)
    | HashToolCallCached _ _ tc => (tc_action tc, w)
    | AdmissionWebhookCall _ => (None, w)
    | EngineHasTenant _ => (true, w)
    | EngineReload _ _ => (Ok tt, w)
    | EngineAuthorize _ _ _ _ _ =>
        (Ok {| pd_decision := cedar; pd_matched_policies := ["policy1"]; pd_approver_group := None;
               pd_reason := "permitted"; pd_redacted_fields := ["token"] |}, w)
    | AuditBatchEmit _ => if audit_fails f then (Err (OtherSqlx "disk full"), w) else (Ok tt, w)
    | ReceiptBatchEmit _ _ => (Ok tt, w)
    | SpawnRiskScoreWrite _ _ _ _ _ => (tt, w)
    | EventEmit _ => (tt, w)
    | EventsHasCapacity => (true, w)
    | Metric _ => (tt, w)
    | StoreAuditWriterUnhealthy _ => (tt, w)
    | GithubCommenterEnabled => (false, w)
    | GithubPrComment _ _ _ => (tt, w)
    | GithubChecksEnabled => (false, w)
    | GithubRecordDecision _ _ _ _ _ _ _ => (tt, w)
    | UtcNow => (0%Z, w)
    | InstantNow => (0%Z, w)
    | FreshUuid => (1%Z, w)
    end.

Definition sample_ctx : AuthorizeContext :=
  AuthorizeContext_new "acme" "10.0.0.1:4711" Rest (BearerToken "tok").

(** One request against the sample gateway: the outcome, the rows afterwards
    and the calls made. *)
Definition serve (f : faults) (cedar risk body : string) (w : world) :
    DecisionOutcome * world * list (event HostE) :=
  run (sample_host f cedar risk)
    (GatewaySafety.authorize (X := sample_ext) (H := sample_host_ext) sample_ctx body 0%Z
       EvaluateConfig_default) w.

(** The decision in an outcome, if any, with its receipt. *)
Definition answer (o : DecisionOutcome) : option (string * bool) :=
  r ← decision_of o; Some (rs_decision r, bool_decide (is_Some (rs_receipt r))).

(** * Runs *)

#[local] Existing Instance sample_ext.
#[local] Existing Instance sample_host_ext.

(** ** Pipeline runs *)

(** The decision ports answered by the sample gateway. *)
Definition pipe_handler (f : faults) (cedar risk : string) : handler DecisionE world :=
  λ T e w, let '(r, w', _) := run (sample_host f cedar risk) (Gateway.gateway T e) w in (r, w').

Definition pipe_run (f : faults) (cedar risk body : string) (w : world) :
    DecisionOutcome * world * dtrace :=
  run (pipe_handler f cedar risk)
    (Pipeline.run_authorize_pipeline sample_ctx body 0%Z EvaluateConfig_default) w.

Lemma pipe_run_runs f cedar risk body w :
  runs (Pipeline.run_authorize_pipeline sample_ctx body 0%Z EvaluateConfig_default)
    (pipe_run f cedar risk body w).2 (pipe_run f cedar risk body w).1.1.
Proof. apply run_runs. Qed.

Definition no_response : AuthorizeResponse :=
  Guard.early_deny_response 0%Z 0%Z "" 0%Z "" [] "" false.

(** The clean run: a mutating call Cedar allows. *)
Definition clean := pipe_run no_faults "allow" "low" "merge" [].
Definition clean_response : AuthorizeResponse :=
  Eval vm_compute in default no_response (decision_of clean.1.1).

Lemma allow_passes_every_gate_witness :
  rs_decision clean_response = "allow" ∧
  ((∃ agent request rid record, Pipeline.replayed sample_ctx "merge" clean.2 agent request rid record ∧
      Call (IdempotentReplay record) (Ok clean_response) ∈ clean.2) ∨
   ∃ agent request asked,
     Pipeline.gates_passed sample_ctx "merge" 0%Z clean.2 agent request asked).
Proof.
  split; [reflexivity|].
  apply (Pipeline.allow_passes_every_gate sample_ctx "merge" 0%Z EvaluateConfig_default clean.2
    clean.1.1 clean_response (pipe_run_runs _ _ _ _ _)).
  - vm_compute. reflexivity.
  - reflexivity.
Defined.

Lemma protocols_agree_witness :
  outcome_to_tonic (W := sample_wire) (decision_outcome_to_authorized clean.1.1) = Ok clean_response ∧
  rp_status (outcome_to_response (decision_outcome_to_authorized clean.1.1)) = 200%Z.
Proof.
  destruct (protocols_agree (W := sample_wire) (λ _, eq_refl) sample_ctx "merge" 0%Z
    EvaluateConfig_default clean.2 clean.1.1 (pipe_run_runs _ _ _ _ _)) as [_ H].
  split; [vm_compute; reflexivity|].
  destruct (outcome_to_tonic _) as [resp|st] eqn:Ht; [apply H|vm_compute in Ht; discriminate].
Defined.

Lemma pipeline_calls_stay_in_tenant_witness :
  Forall (event_sat (scoped "acme")) clean.2.
Proof.
  apply (Pipeline.pipeline_calls_stay_in_tenant sample_ctx "merge" 0%Z EvaluateConfig_default clean.2
    clean.1.1).
  - vm_compute. repeat constructor.
  - apply pipe_run_runs.
Defined.

Lemma effects_only_after_audit_row_witness : acts_after_write clean.2.
Proof.
  apply (Pipeline.effects_only_after_audit_row sample_ctx "merge" 0%Z EvaluateConfig_default clean.2
    clean.1.1). apply pipe_run_runs.
Defined.

Lemma at_most_one_row_per_request_witness : rows clean.2 = 1%nat ∧ (rows clean.2 ≤ 1)%nat.
Proof.
  split; [vm_compute; reflexivity|].
  apply (Pipeline.at_most_one_row_per_request sample_ctx "merge" 0%Z EvaluateConfig_default clean.2
    clean.1.1). apply pipe_run_runs.
Defined.

Lemma protected_decision_carries_receipt_witness :
  ∃ rc agent asked hash, rs_receipt clean_response = Some rc ∧
    Call (EmitReceiptDurable (ag_tenant_id agent) (ag_id agent) asked (rs_decision_id clean_response)
            (rs_decision clean_response) hash) (Ok rc) ∈ clean.2.
Proof.
  apply (Pipeline.protected_decision_carries_receipt sample_ctx "merge" 0%Z EvaluateConfig_default
    clean.2 clean.1.1 clean_response (sample_request false) (pipe_run_runs _ _ _ _ _)).
  - vm_compute. reflexivity.
  - discriminate.
  - reflexivity.
  - intros record. apply fresh_no_replay. vm_compute. repeat constructor.
  - reflexivity.
  - left. reflexivity.
Defined.

(** The second run of the same request finds the row of the first. *)
Definition again := pipe_run no_faults "allow" "low" "merge" clean.1.2.
Definition the_row : DecisionRecord :=
  Eval vm_compute in
    match clean.1.2 with r :: _ => r | [] => Gateway.build_decision_record
      {| wr_tenant_id := ""; wr_agent_id := ""; wr_request := sample_request false;
         wr_decision_id := 0%Z; wr_decision := ""; wr_risk_score := 0%Z; wr_reason := "";
         wr_matched_policies := []; wr_audit_event_type := ""; wr_started_at := 0%Z;
         wr_dry_run := false; wr_action_hash := ""; wr_root_trust_level := "" |} 0%Z 0%Z 0%Z end.
Definition replayed_response : AuthorizeResponse :=
  Eval vm_compute in Pipeline.authorize_response_from_decision_record the_row None.

Lemma replay_only_of_own_record_witness :
  again.1.1 = outcome_decision replayed_response ∧ rows again.2 = 0%nat.
Proof.
  destruct (Pipeline.replay_only_of_own_record sample_ctx "merge" 0%Z EvaluateConfig_default
    again.2 again.1.1 the_row (Ok replayed_response) (pipe_run_runs _ _ _ _ _)) as (Hrows & Ho & _).
  - vm_compute. repeat constructor.
  - split; [exact Ho|exact Hrows].
Defined.

(** Cedar says [quarantine] while the decision table cannot be written. *)
Definition outage := pipe_run {| receipt_fails := false; audit_fails := false; insert_fails := true |}
  "quarantine" "low" "read" [].

Lemma audit_outage_skips_effects_witness :
  answer outage.1.1 = Some ("quarantine", false) ∧ Forall (event_sat inert) outage.2.
Proof.
  split; [vm_compute; reflexivity|].
  assert (∃ w, Call (WriteDecisionAndAudit w) (Err db_down) ∈ outage.2) as [w Hw]
    by (eexists; vm_compute; repeat constructor).
  apply (Pipeline.audit_outage_skips_effects sample_ctx "read" 0%Z EvaluateConfig_default
    outage.2 outage.1.1 w db_down); [apply pipe_run_runs|exact Hw].
Defined.

(** ** Gateway runs *)

Lemma serve_runs f cedar risk body w :
  runs (GatewaySafety.authorize sample_ctx body 0%Z EvaluateConfig_default)
    (serve f cedar risk body w).2 (serve f cedar risk body w).1.1.
Proof. apply run_runs. Qed.

Lemma gateway_dry_run_writes_nothing_witness :
  answer (serve no_faults "allow" "low" "dry" []).1.1 = Some ("allow", false) ∧
  Forall (event_sat GatewaySafety.quiet) (serve no_faults "allow" "low" "dry" []).2.
Proof.
  split; [vm_compute; reflexivity|].
  apply (GatewaySafety.gateway_dry_run_writes_nothing sample_ctx "dry" 0%Z EvaluateConfig_default
    (serve no_faults "allow" "low" "dry" []).2 (serve no_faults "allow" "low" "dry" []).1.1
    (sample_request true)); [reflexivity|reflexivity|apply serve_runs].
Defined.

(** Storage answered a lookup by request id with a row. *)
Definition found_decision (ev : event HostE) : bool :=
  match ev with
  | @Call _ T e r => match e in HostE T return T → bool with
                     | StDecisionByRequestId _ _ _ => λ r, match r with Ok (Some _) => true | _ => false end
                     | _ => λ _, false
                     end r
  end.

Lemma not_replayed ctx body t r :
  existsb found_decision t = false → ¬ GatewaySafety.replayed_allow ctx body t r.
Proof.
  intros Hf (request & rid & agent & record & tr & _ & _ & _ & _ & _ & _ & Hfound & _).
  apply not_true_iff_false in Hf. apply Hf, existsb_exists. eexists. split; [by apply list_elem_of_In|done].
Qed.

Lemma gateway_allow_backed_by_stores_witness :
  ∃ agent request, json_parse_request "merge" = Some request ∧
    Call (StGetAgentByToken "acme" "tok") (Ok (Some agent)) ∈ (serve no_faults "allow" "low" "merge" []).2 ∧
    ar_force_approval agent = false.
Proof.
  destruct (GatewaySafety.gateway_allow_backed_by_stores sample_ctx "merge" 0%Z EvaluateConfig_default
    (serve no_faults "allow" "low" "merge" []).2 (serve no_faults "allow" "low" "merge" []).1.1
    clean_response (serve_runs _ _ _ _ _)) as [Hl|(agent & request & asked & Hj & Hc & _ & _ & Hf & _)].
  - vm_compute. reflexivity.
  - reflexivity.
  - exfalso. revert Hl. apply not_replayed. vm_compute. reflexivity.
  - exists agent, request. auto.
Defined.

Definition sample_params : ApprovalCreateParams :=
  {| acp_decision_id := 1%Z; acp_action_hash := "h"; acp_approver_group := None;
     acp_callback_url := None; acp_callback_secret := None; acp_approval_ttl_secs := 1800%Z |}.
Definition approval_run := run (sample_host no_faults "allow" "low")
  (Gateway.create_approval "acme" "agent-1" (sample_request false) sample_params) [].
Definition sample_info : ApprovalResponseInfo :=
  {| apr_approval_id := 1%Z; apr_status := "created"; apr_approver_group := None;
     apr_expires_at := 1800000000000%Z; apr_action_hash := "h" |}.

Lemma approval_bound_to_action_witness :
  ∃ rec, Call (StInsertApproval rec) (Ok tt) ∈ approval_run.2 ∧ effective_action_hash rec = "h".
Proof.
  assert (runs (Gateway.create_approval "acme" "agent-1" (sample_request false) sample_params)
    approval_run.2 (Ok sample_info)) as Hr by (apply (run_runs (sample_host no_faults "allow" "low")
      (Gateway.create_approval "acme" "agent-1" (sample_request false) sample_params) [])).
  destruct (GatewaySafety.approval_bound_to_action "acme" "agent-1" (sample_request false) sample_params
    approval_run.2 sample_info Hr) as (_ & (rec & Hin & _ & Hh & _) & _).
  exists rec. split; [exact Hin|exact Hh].
Defined.

Definition sample_write : DecisionAuditWrite :=
  {| wr_tenant_id := "acme"; wr_agent_id := "agent-1"; wr_request := sample_request false;
     wr_decision_id := 1%Z; wr_decision := "redact"; wr_risk_score := 40%Z; wr_reason := "pii";
     wr_matched_policies := ["p1"; "p2"]; wr_audit_event_type := "tool_call_intercepted";
     wr_started_at := 0%Z; wr_dry_run := false; wr_action_hash := "h";
     wr_root_trust_level := "trusted_internal_signed" |}.

Lemma recorded_decision_replays_same_witness :
  rs_matched_policies (Pipeline.authorize_response_from_decision_record
    (Gateway.build_decision_record sample_write 40%Z 0%Z 0%Z) None) = ["p1"; "p2"].
Proof.
  apply (GatewaySafety.recorded_decision_replays_same sample_write 40%Z 0%Z 0%Z None).
  - reflexivity.
  - repeat constructor; discriminate.
Defined.

Definition busy : AegisError := Database (DatabaseError (Some "5") "database is locked").

Lemma receipt_append_retries_bounded_witness :
  let rec := Gateway.build_decision_receipt "acme" "agent-1" (sample_request false) 1%Z "allow" "h" 1%Z 0%Z 0%Z in
  ∃ errs, [Call (StAppendReceipt "acme" rec) (Err busy); Call (StAppendReceipt "acme" rec) (Ok rec)] =
    ((λ e, Call (StAppendReceipt "acme" rec) (Err e)) <$> errs) ++ [Call (StAppendReceipt "acme" rec) (Ok rec)]
    ∧ (length errs ≤ 3)%nat.
Proof.
  intros rec.
  destruct (GatewaySafety.receipt_append_retries_bounded "acme" rec
    [Call (StAppendReceipt "acme" rec) (Err busy); Call (StAppendReceipt "acme" rec) (Ok rec)] (Ok rec))
    as (errs & He & Hl & _).
  - simpl. do 2 eexists. split; [reflexivity|]. do 2 eexists. split; [reflexivity|]. split; reflexivity.
  - exists errs. split; [exact He|exact Hl].
Defined.

(** ** Fail-closed answers that are replayed as [allow] *)

(** A refusal for missing evidence turns into an [allow] on retry.  The
    durable receipt of a mutating call cannot be written, so the gateway
    answers 500 with no decision; but the [allow] row is already stored, and
    the same request sent again is answered [allow] from that row, without a
    receipt. *)
Theorem failed_receipt_replayed_as_allow :
  let '(first, rows, _) :=
    serve {| receipt_fails := true; audit_fails := false; insert_fails := false |}
      "allow" "low" "merge" [] in
  let '(retry, _, _) :=
    serve {| receipt_fails := true; audit_fails := false; insert_fails := false |}
      "allow" "low" "merge" rows in
  oc_http_status first = 500%Z ∧ decision_of first = None ∧
  answer retry = Some ("allow", false).
Proof. vm_compute. auto. Qed.

(** A fail-closed [deny] turns into an [allow] on retry.  The decision row
    is inserted but the audit event behind it cannot be written, so the
    gateway denies the mutating call (audit writer unavailable); the stored
    row still says [allow], and the same request sent again is answered
    [allow] from it. *)
Theorem failed_audit_deny_replayed_as_allow :
  let '(first, rows, _) :=
    serve {| receipt_fails := false; audit_fails := true; insert_fails := false |}
      "allow" "low" "merge" [] in
  let '(retry, _, _) :=
    serve {| receipt_fails := false; audit_fails := true; insert_fails := false |}
      "allow" "low" "merge" rows in
  answer first = Some ("deny", false) ∧ answer retry = Some ("allow", false).
Proof. vm_compute. auto. Qed.
