(* ===== verification/SocScenarios.v ===== *)
(** * Scenarios of the security operations plane

    A concrete host for the drain (one tenant at level L3 with automatic
    response, the table of agents as its state), the witnesses of the
    properties of detection, correlation, response and ingestion, and three
    scenarios: a storm whose events arrive out of order is missed, an incident is
    reported again by an event that does not belong to it, and external messages
    alone get an agent frozen. *)

From S2P Require Import Prelude RustString Prog Canon Models Records External Runtime Evaluate Pipeline Bans Agents Service Gateway GatewaySafety Soc SocStore Detect Ingest Correlate Respond Drain Containment Scenarios.
From stdpp Require Import pretty countable.

#[local] Existing Instance sample_ext.
#[local] Existing Instance sample_host_ext.

(** A list of identifiers as text: the bits of its code. *)
Fixpoint bits (p : positive) : string :=
  match p with
  | xH => ""
  | xO p' => String "0" (bits p')
  | xI p' => String "1" (bits p')
  end.
Fixpoint of_bits (s : string) : positive :=
  match s with
  | EmptyString => xH
  | String c s' => if Ascii.eqb c "0" then xO (of_bits s') else xI (of_bits s')
  end.

Lemma of_bits_bits p : of_bits (bits p) = p.
Proof. induction p as [p IH|p IH|]; simpl; by rewrite ?IH. Qed.

(** The time is the length of its text, in seconds. *)
#[local] Instance sample_soc_ext : SocExternal := {
  parse_condition _ := Ok any_event;
  parse_from_rfc3339 s := Some (Z.of_nat (String.length s) * 1000000000)%Z;
  parse_naive _ := None;
  format_hour _ := "2026-06-12T12";
  json_of_ids l := bits (encode l);
  parse_ids s := decode (of_bits s);
  parse_trigger_severity _ := None;
  parse_steps _ := None;
  parse_payload _ := None;
  json_of_triage _ := "{}";
  parse_i32 _ := None;
  parse_i64 _ := None;
  to_uppercase s := s;
  debug_opt o := default "None" o;
  show_f64 _ := "0.00";
  sha256_digest s := s }.

Lemma ids_round_trip l : parse_ids (json_of_ids l) = Some l.
Proof. simpl. rewrite of_bits_bits. apply decode_encode. Qed.

Definition sample_soc_host : handler SocE (list AgentRecord) :=
  λ T e rows,
    match e in SocE T return T * list AgentRecord with
    | SoAutoRespond _ => (Ok (Some true), rows)
    | SoAutonomyRow _ => (Ok (Some (Some "L3")), rows)
    | SoGetAgent tn id => (Ok (Some sample_agent), rows)
    | SoSetAgentStatus tn id status =>
        let '(b, rows) := Agents.set_agent_status rows tn id status 0%Z in (Ok b, rows)
    | SoSetFrozenReason tn id reason => (Ok tt, Agents.set_agent_frozen_reason rows tn id reason)
    | SoSetForceApproval tn id v => (Ok tt, Agents.set_agent_force_approval rows tn id v)
    | SoQuarantineMcp _ _ => (Ok tt, rows)
    | SoListRules _ => (Ok [], rows)
    | SoListPlaybooks _ => (Ok [], rows)
    | SoKnownToolAction _ _ _ _ _ => (Ok false, rows)
    | SoIncrementHour _ _ _ => (Ok 1%Z, rows)
    | SoHourlyCounts _ _ _ _ => (Ok [], rows)
    | SoInsertAlert _ => (Ok tt, rows)
    | SoCountSimilar _ _ _ _ => (Ok 0%Z, rows)
    | SoCountRecent _ _ => (Ok 0%Z, rows)
    | SoSetTriage _ _ _ => (Ok true, rows)
    | SoClaude _ _ _ _ => (None, rows)
    | SoUpsertIncident _ => (Ok Inserted, rows)
    | SoInsertAudit _ => (Ok tt, rows)
    | SoNotify _ => (tt, rows)
    | SoSilenced _ _ _ _ => (Ok false, rows)
    | SoSubscriptions _ _ => (Ok [], rows)
    | SoSpawnDelivery _ _ => (tt, rows)
    | SoSpawnTriage _ => (tt, rows)
    | SoPost _ _ => (tt, rows)
    | SoDeliver _ _ _ _ => (None, rows)
    | SoSleepMs _ => (tt, rows)
    | SoRecordDelivery _ _ _ => (Ok tt, rows)
    | SoSpawnExport _ => (tt, rows)
    | SoMetric _ _ => (tt, rows)
    | SoEnv _ => (None, rows)
    | SoNow => (0%Z, rows)
    | SoUuid => (1%Z, rows)
    end.

(** A decision of the sample agent. *)
Definition soc_event (decision id : string) : AseEvent := {|
  ase_event_id := id; ase_occurred_at := "t"; ase_tenant_id := "acme"; ase_kind := "authorize_decision";
  ase_agent_id := "agent-1"; ase_decision := decision; ase_tool := "github"; ase_action := "merge_pr";
  ase_resource := None; ase_risk_score := 80; ase_reason := ""; ase_run_id := None; ase_trace_id := None;
  ase_matched_policies := []; ase_redacted_fields := []; ase_schema_version := 1; ase_evidence := None;
  ase_prompt_injection := None; ase_rag_poisoning := None |}.

Definition denials (ids : list string) : list AseEvent := map (soc_event "deny") ids.

Lemma denials_chronological ids : FullHistory.chronological (denials ids).
Proof.
  intros i j e e' _ Hi%list_elem_of_lookup_2 Hj%list_elem_of_lookup_2 _.
  apply list_elem_of_fmap in Hi as (x & -> & _). apply list_elem_of_fmap in Hj as (y & -> & _). done.
Qed.

Definition five : list string := ["e1"; "e2"; "e3"; "e4"; "e5"].
Definition storm_run := run sample_soc_host (Drain.drain false (denials five)) [sample_agent].

(** ** Correlation and response *)

Lemma correlator_refines_full_history_witness :
  (Correlate.observe_all ∅ (denials five)).1 =
  (FullHistory.ledger_all FullHistory.empty_ledger (denials five)).1 ∧
  map length (Correlate.observe_all ∅ (denials five)).1 = [0; 0; 0; 0; 1]%nat.
Proof.
  split; [|vm_compute; reflexivity].
  apply (FullHistory.correlator_refines_full_history (denials five)); [|apply denials_chronological].
  vm_compute. repeat constructor; set_solver.
Defined.

(** Denials of the sample agent at these seconds *)
Definition denial_at (secs : nat) : AseEvent := {|
  ase_event_id := pretty secs; ase_occurred_at := foldr String EmptyString (repeat "s"%char secs); ase_tenant_id := "acme";
  ase_kind := "authorize_decision"; ase_agent_id := "agent-1"; ase_decision := "deny"; ase_tool := "github";
  ase_action := "merge_pr"; ase_resource := None; ase_risk_score := 80; ase_reason := ""; ase_run_id := None;
  ase_trace_id := None; ase_matched_policies := []; ase_redacted_fields := []; ase_schema_version := 1;
  ase_evidence := None; ase_prompt_injection := None; ase_rag_poisoning := None |}.

(** A storm that is missed: the denials at 96 to 100 seconds are five within
    sixty, but the one at 99 arrives last.  Its window reaches back to the denial
    at 39, so the count goes from four to six and is never five. *)
Example storm_out_of_order_missed :
  map FullHistory.ts (denial_at <$> [39; 96; 97; 98; 100; 99]%nat) = [39; 96; 97; 98; 100; 99]%Z ∧
  map length (Correlate.observe_all ∅ (denial_at <$> [39; 96; 97; 98; 100; 99]%nat)).1 = [0; 0; 0; 0; 0; 0]%nat.
Proof. vm_compute. auto. Qed.

(** What the sample host answers about the tenant. *)
Definition arming_answer {T} (e : SocE T) : T → Prop :=
  match e in SocE T return T → Prop with
  | SoAutoRespond _ => λ r, r = Ok (Some true)
  | SoAutonomyRow _ => λ r, r = Ok (Some (Some "L3"))
  | SoGetAgent _ _ => λ r, r = Ok (Some sample_agent)
  | SoListPlaybooks _ => λ r, r = Ok []
  | _ => λ _, True
  end.

Lemma sample_answers T (e : SocE T) rows : arming_answer e (sample_soc_host T e rows).1.
Proof. by destruct e. Qed.

Lemma storm_run_arms kind : arming "acme" "agent-1" kind storm_run.2.
Proof.
  assert (∀ T (e : SocE T) r, Call e r ∈ storm_run.2 → arming_answer e r) as Ha.
  { intros T e r. apply (run_answers sample_soc_host (λ T e r, arming_answer e r)). apply sample_answers. }
  constructor; intros r Hr; apply Ha in Hr; simpl in Hr; subst r; [done|..]; repeat eexists; eauto.
  by intros p ?%elem_of_nil.
Qed.

Lemma storm_freezes_agent_witness :
  (∃ x, Call (SoSetAgentStatus "acme" "agent-1" "frozen") x ∈ storm_run.2) ∧
  map ar_status storm_run.1.2 = ["frozen"].
Proof.
  split; [|vm_compute; reflexivity].
  apply (storm_freezes_agent false (denials five) storm_run.2 storm_run.1.1 5 60%Z
           (FullHistory.is_decision "deny") "deny_storm" (denials ["e1"; "e2"; "e3"; "e4"])
           (soc_event "deny" "e5") []).
  - apply run_runs.
  - vm_compute. repeat constructor; set_solver.
  - apply denials_chronological.
  - by left.
  - done.
  - reflexivity.
  - vm_compute. lia.
  - apply storm_run_arms.
Defined.

Definition one_run := run sample_soc_host (Drain.drain_event true ∅ (soc_event "deny" "e1")) [sample_agent].

Lemma responses_are_authorised_witness :
  (∃ t1 t2 r, one_run.2 = t1 ++ Call (SoNotify (Drain.decision_message (soc_event "deny" "e1"))) r :: t2) ∧
  voiced "acme" (take 2 one_run.2).
Proof.
  assert (∃ r t2, one_run.2 = take 2 one_run.2 ++
            Call (SoNotify (Drain.decision_message (soc_event "deny" "e1"))) r :: t2) as (r & t2 & Heq).
  { do 2 eexists. vm_compute. reflexivity. }
  split; [by exists (take 2 one_run.2), t2, r|].
  apply (responses_are_authorised true ∅ (soc_event "deny" "e1") (take 2 one_run.2) _
           (SoNotify (Drain.decision_message (soc_event "deny" "e1"))) r t2); [|done].
  rewrite <- Heq. eapply runs_partial. apply run_runs.
Defined.

(** The storm is over, but a call that is allowed while the five denials are
    still in the window is reported as a storm again. *)
Example storm_reported_again_by_an_allowed_call :
  map (map (λ f, in_kind (f 1%Z)))
    (Correlate.observe_all ∅ (denials five ++ [soc_event "require_approval" "e6"])).1 =
  [[]; []; []; []; ["deny_storm"]; ["deny_storm"]].
Proof. vm_compute. reflexivity. Qed.

(** ** Ingested messages count as the agent's actions *)

#[local] Instance sample_header_ext : HeaderExternal := {
  HeaderValue := string; hv_from_str s := Some s; hv_to_str s := Some s }.
#[local] Instance sample_ingest_ext : IngestExternal := {
  parse_ingest s := Ok {| igr_source := "agent_input";
                          igr_payload := Canon.Object [("agent_id", Canon.Str "agent-1");
                                                       ("input_text", Canon.Str s)] |};
  parse_json_body _ := Err "no body" }.

Definition ingest_host : handler IngestE nat :=
  λ T e n,
    match e in IngestE T return T * nat with
    | IgEmit _ => (tt, n)
    | IgNow => (0%Z, n)
    | IgUuid => (Z.of_nat n, S n)
    end.

Definition message_run := run ingest_host (Ingest.ingest_event None "acme" ∅ "hello") 0%nat.

Lemma ingestion_observes_only_witness :
  rp_status message_run.1.1 = 202%Z ∧ Forall (observation "acme") (emitted message_run.2) ∧
  length (emitted message_run.2) = 1%nat.
Proof.
  pose proof (proj1 (ingestion_observes_only None "acme" ∅ "hello" message_run.2 message_run.1.1)
                (run_runs _ _ _)) as H.
  destruct (emitted message_run.2) as [|ev [|? ?]] eqn:He; [by vm_compute in He| |by vm_compute in He].
  destruct H as (Hst & Hobs & _). split; [exact Hst|]. split; [|reflexivity]. by constructor.
Defined.

(** Twenty messages from outside, and the agent they name is frozen. *)
Example ingested_messages_freeze_agent :
  let evs := concat (repeat (emitted message_run.2) 20) in
  Forall (λ ev, ase_kind ev = "agent_input" ∧ ase_decision ev = "allow") evs ∧
  map ar_status (run sample_soc_host (Drain.drain false evs) [sample_agent]).1.2 = ["frozen"].
Proof. split; [repeat constructor|vm_compute; reflexivity]. Qed.

(** ** Detection and incidents *)

Definition detect_run :=
  run sample_soc_host (Detect.evaluate (soc_event "require_approval" "e1") []) [].

Lemma detector_alerts_exact_witness :
  al_rule <$> detect_run.1.1 = ["approval_required_surface"] ∧ NoDup (al_rule <$> detect_run.1.1).
Proof.
  split; [vm_compute; reflexivity|].
  apply (detector_alerts_exact (soc_event "require_approval" "e1") [] detect_run.2), run_runs.
Defined.

Definition sample_write : DecisionAuditWrite := {|
  wr_tenant_id := "acme"; wr_agent_id := "agent-1"; wr_request := sample_request false; wr_decision_id := 1%Z;
  wr_decision := "deny"; wr_risk_score := 100; wr_reason := "mutation by an untrusted source";
  wr_matched_policies := ["p1"; "p2"]; wr_audit_event_type := "authorize"; wr_started_at := 0%Z;
  wr_dry_run := false; wr_action_hash := "h"; wr_root_trust_level := "untrusted_external" |}.

Definition confused_deputy : YamlRule := default (Rules.drift_rule "" "" None None) (head Rules.default_rules).

Lemma backtest_agrees_with_live_witness :
  Detect.run_backtest confused_deputy "acme"
    [Gateway.build_decision_record sample_write 90 5 0%Z] = ["uuid"] ∧
  Rules.matches (yr_condition confused_deputy) (Gateway.decision_event sample_write 2%Z 0%Z) = true.
Proof.
  split; [|vm_compute; reflexivity].
  refine (eq_trans (backtest_agrees_with_live confused_deputy "acme" [(sample_write, 90%Z, 5%Z, 0%Z)] 2%Z 0%Z _) _);
    [by repeat constructor|vm_compute; reflexivity].
Defined.

Definition incident_of (id : string) (events : list string) : SocIncidentRecord := {|
  sin_id := id; sin_tenant_id := "acme"; sin_kind := "deny_storm"; sin_severity := "high";
  sin_agent_id := "agent-1"; sin_summary := "five denials"; sin_source_event_ids := json_of_ids events;
  sin_opened_at := "2026-06-12T12:00:00Z"; sin_status := "open"; sin_closed_at := None |}.

Lemma upsert_keeps_evidence_witness :
  ∃ res rows', Incidents.upsert_soc_incident None 0%Z [incident_of "i1" ["e1"; "e2"]]
                 (incident_of "i2" ["e2"; "e3"]) = Some (res, rows') ∧
    res = Merged "i1" ∧ map Incidents.evidence rows' = [["e1"; "e2"; "e3"]] ∧
    ∃ row, row ∈ rows' ∧ ["e2"; "e3"] ⊆ Incidents.evidence row.
Proof.
  do 2 eexists. split; [reflexivity|]. split; [reflexivity|]. split; [vm_compute; reflexivity|].
  edestruct (upsert_keeps_evidence None 0%Z [incident_of "i1" ["e1"; "e2"]] (incident_of "i2" ["e2"; "e3"]))
    as [(row & Hin & _ & _ & _ & _ & Hev) _].
  - apply ids_round_trip.
  - apply NoDup_singleton.
  - reflexivity.
  - exists row. split; [exact Hin|]. unfold Incidents.evidence in Hev at 1.
    cbn [incident_of sin_source_event_ids] in Hev. by rewrite ids_round_trip in Hev.
Defined.

(** ** A frozen agent *)

Definition other_agent : AgentRecord := table_agent "agent-2" "bot2" "tok".
Definition frozen_one : AgentRecord := table_agent "agent-1" "bot" "tok1".

(** Both agents are stored, and the first one has been frozen. *)
Definition frozen_rows : list AgentRecord :=
  AgentTable.exec_all (λ t, t) [(5%Z, AgentTable.SetRiskTier "acme" "agent-1" "high")]
    (Agents.set_agent_status [frozen_one; other_agent] "acme" "agent-1" "frozen" 1%Z).2.

Definition table_host (rows : list AgentRecord) : handler HostE world :=
  λ T e, match e in HostE T return (world → T * world) → world → T * world with
         | StGetAgentByToken tn tok => λ _ w, (Ok (Agents.get_agent_by_token (λ t, t) rows tn tok), w)
         | StGetAgentByMtlsCn tn cn => λ _ w, (Ok (Agents.get_agent_by_mtls_cn rows tn cn), w)
         | _ => λ d, d
         end (sample_host no_faults "allow" "low" T e).

Definition table_run (rows : list AgentRecord) (token : string) (w : world) :=
  run (table_host rows)
    (GatewaySafety.authorize (AuthorizeContext_new "acme" "10.0.0.1:4711" Rest (BearerToken token))
       "merge" 0%Z EvaluateConfig_default) w.

Definition frozen_run (token : string) := table_run frozen_rows token [].

Definition lookup_answer {T} (e : HostE T) : T → Prop :=
  match e in HostE T return T → Prop with
  | StGetAgentByToken tn tok => λ r, r = Ok (Agents.get_agent_by_token (λ t, t) frozen_rows tn tok)
  | StGetAgentByMtlsCn tn cn => λ r, r = Ok (Agents.get_agent_by_mtls_cn frozen_rows tn cn)
  | _ => λ _, True
  end.

Lemma frozen_run_answers token : answered_from (λ t, t) frozen_rows (frozen_run token).2.
Proof.
  assert (∀ T (e : HostE T) r, Call e r ∈ (frozen_run token).2 → lookup_answer e r) as Ha.
  { intros T e r. apply (run_answers (table_host frozen_rows) (λ T e r, lookup_answer e r)). intros T' e' w. by destruct e'. }
  split; intros; by apply Ha in H.
Qed.

Definition allowed_response : AuthorizeResponse :=
  Eval vm_compute in match decision_of (frozen_run "tok").1.1 with Some r => r | None => clean_response end.

Lemma frozen_agent_gets_no_fresh_allow_witness :
  answer (frozen_run "tok1").1.1 = Some ("deny", false) ∧
  answer (frozen_run "tok").1.1 = Some ("allow", true) ∧
  ∃ agent, Agents.same_agent "acme" "agent-1" agent = false ∧ agent ∈ frozen_rows.
Proof.
  split; [vm_compute; reflexivity|]. split; [vm_compute; reflexivity|].
  destruct (frozen_agent_gets_no_fresh_allow (λ t, t) [frozen_one; other_agent] "acme" "agent-1" 1%Z
    [(5%Z, AgentTable.SetRiskTier "acme" "agent-1" "high")]
    (AuthorizeContext_new "acme" "10.0.0.1:4711" Rest (BearerToken "tok")) "merge" 0%Z EvaluateConfig_default
    (frozen_run "tok").2 (frozen_run "tok").1.1 allowed_response) as [Hl|(agent & Hs & Hin & _)].
  - exists frozen_one. split; [set_solver|reflexivity].
  - by repeat constructor.
  - apply frozen_run_answers.
  - apply run_runs.
  - vm_compute. reflexivity.
  - reflexivity.
  - exfalso. revert Hl. apply not_replayed. vm_compute. reflexivity.
  - exists agent. split; [exact Hs|exact Hin].
Defined.

(** The request of an active agent is allowed and recorded; sent again after
    the agent was frozen it is allowed again, from the record. *)
Example frozen_agent_replays_its_allow :
  let first := table_run [frozen_one; other_agent] "tok1" [] in
  answer first.1.1 = Some ("allow", true) ∧
  answer (table_run frozen_rows "tok1" []).1.1 = Some ("deny", false) ∧
  answer (table_run frozen_rows "tok1" first.1.2).1.1 = Some ("allow", false).
Proof. vm_compute. auto. Qed.
