(* ===== verification/McpScenarios.v ===== *)
(** * Scenarios of the MCP plane

    A concrete storage for the MCP handlers, the witnesses of the properties of
    [McpSafety.v], a quarantine that fails and is forgotten, and three runs in which a quarantine is in the tables and not
    in the answers of the decision path: a lookup that overlaps the quarantine, a
    quarantine by a playbook, and a discovery that fails half-way. *)

From S2P Require Import Prelude RustString Prog Canon Models Records External Runtime Lru Caches Bans Service Gateway ApprovalApi AgentApi McpStore Soc Manifest Inspect McpApi Guard Validation Pipeline GatewaySafety McpSafety Scenarios.
From stdpp Require Import pretty.

#[local] Existing Instance sample_ext.
#[local] Existing Instance sample_host_ext.

Fixpoint show_value (v : Canon.Value) : string :=
  match v with
  | Canon.Null => "null"
  | Canon.Bool b => if b then "true" else "false"
  | Canon.Number_ _ => "0"
  | Canon.Str s => "'" +:+ s +:+ "'"
  | Canon.Array l => foldr (λ v s, show_value v +:+ "," +:+ s) "" l
  | Canon.Object m => foldr (λ e s, e.1 +:+ ":" +:+ show_value e.2 +:+ "," +:+ s) "" m
  end.

#[local] Instance sample_mcp_ext : McpExternal := {
  json_of_tool _ := "{}";
  json_of_tools _ := "[]";
  tools_from_json _ := None;
  value_of_server _ := Canon.Null;
  value_of_tools _ := Canon.Null;
  value_of_snapshots _ := Canon.Null;
  manifest_to_string v := Some (show_value v);
  verify_signature _ _ _ := false }.

Definition schema_text (_ : Canon.Value) : string := "{}".

(** A storage in which every statement succeeds whose constraints hold. *)
Definition sample_storage : handler McE McpWorld :=
  λ T e w,
    let m := mw_tables w in
    match e in McE T return T * McpWorld with
    | McRegister rec =>
        match McpStore.register_mcp_server m rec 0%Z with
        | Some m => (Ok tt, set_tables m w) | None => (Err db_down, w)
        end
    | McGetServer t k => (Ok (McpStore.get_mcp_server_by_key m t k), w)
    | McUpdate t k p => let '(o, m) := McpStore.update_mcp_server m t k p in (Ok o, set_tables m w)
    | McDelete t k => let '(b, m) := McpStore.delete_mcp_server m t k 0%Z in (Ok b, set_tables m w)
    | McSetHash t k h => (Ok tt, set_tables (McpStore.set_mcp_server_manifest_hash m t k h) w)
    | McTouch t k => (Ok tt, set_tables (McpStore.touch_mcp_server_discovery m t k 0%Z) w)
    | McDiscover t k tools _ =>
        let ids := map (λ n, ("t" +:+ pretty n, "a" +:+ pretty n)) (seq (length (mt_tools m)) (length tools)) in
        match McpStore.discover_mcp_tools schema_text m t k tools
                ("s" +:+ pretty (length (mt_skills m))) ids 0%Z with
        | (Some rows, m) => (Ok rows, set_tables m w) | (None, _) => (Err db_down, w)
        end
    | McListTools t k => (Ok (McpStore.list_mcp_tools m t k), w)
    | McSetToolStatus t k x status =>
        let '(b, m) := McpStore.set_mcp_tool_status m t k x status 0%Z in (Ok b, set_tables m w)
    | McInsertSnapshot rec =>
        match McpStore.insert_mcp_manifest_snapshot m (mss_tenant_id rec) (mss_server_key rec)
                (mss_manifest_hash rec) (mss_manifest_json rec)
                ("m" +:+ pretty (length (mt_snapshots m))) 0%Z with
        | Some m => (Ok tt, set_tables m w) | None => (Err db_down, w)
        end
    | McListSnapshots t k n => (Ok (McpStore.list_mcp_manifest_snapshots m t k n), w)
    | McInsertAudit _ | McInsertAlert _ => (Ok tt, w)
    | McSkillInvalidate _ => (tt, w)
    | McServerInvalidate key =>
        (tt, set_server_cache (McpServerCache.invalidate (mw_server_cache w) key) w)
    | McToolInvalidate key => (tt, set_tool_cache (McpToolCache.invalidate (mw_tool_cache w) key) w)
    | McToolInvalidateServer t k =>
        (tt, set_tool_cache (McpToolCache.invalidate_server (mw_tool_cache w) t k) w)
    | McEmit _ => (tt, w)
    | McNow => (0%Z, w)
    | McUuid => (1%Z, w)
    end.

Lemma sample_serves T (e : McE T) w :
  serves schema_text e (sample_storage T e w).1 w (sample_storage T e w).2.
Proof.
  destruct e; simpl; try done.
  - destruct (McpStore.register_mcp_server _ _ _) eqn:H; simpl; eauto.
  - by split; [|intros ? [= ->]].
  - eauto.
  - eauto.
  - eauto.
  - match goal with |- context [McpStore.discover_mcp_tools ?a ?b ?c ?d ?e ?f ?g ?h] =>
      destruct (McpStore.discover_mcp_tools a b c d e f g h) as [[rows|] m] eqn:H end; simpl.
    + do 4 eexists. split; [|split; [exact H|done]]. by rewrite length_map, length_seq.
    + eexists. split; [by left|]. by destruct w.
  - by split; [|intros ? [= ->]].
  - eauto.
  - match goal with |- context [McpStore.insert_mcp_manifest_snapshot ?a ?b ?c ?d ?e ?f ?g] =>
      destruct (McpStore.insert_mcp_manifest_snapshot a b c d e f g) eqn:H end; simpl; eauto 10.
  - by split; [|intros ? [= ->]].
Qed.

Lemma sample_run_executes {A} (p : OnMcp A) w :
  executes schema_text (run sample_storage p w).2 w (run sample_storage p w).1.2.
Proof.
  revert w. induction p as [x|T e k IH]; intros w; simpl; [done|].
  pose proof (sample_serves T e w) as Hs. destruct (sample_storage T e w) as [r w1]. simpl in Hs.
  specialize (IH r w1). destruct (run sample_storage (k r) w1) as [[a w2] t]. simpl in *. eauto.
Qed.

(** ** A pinned server *)

Definition tool_read (risk : string) : McpToolManifestItem :=
  {| mti_tool_key := "read"; mti_name := "read"; mti_description := None; mti_input_schema := None;
     mti_risk := risk; mti_mutates_state := false; mti_approval_required := false |}.

Definition pinned_server (status : string) : McpServerRecord :=
  {| msr_id := "srv"; msr_tenant_id := "acme"; msr_server_key := "files"; msr_name := "Files";
     msr_owner_team := None; msr_transport := "http"; msr_source := None; msr_trust_level := "trusted";
     msr_endpoint := "http://files"; msr_version := None; msr_status := status;
     msr_manifest_hash := McpApi.manifest_hash [tool_read "low"]; msr_last_discovery_at := None;
     msr_inspection_enabled := false; msr_manifest_signing_public_key := None; msr_created_at := 0%Z |}.

Definition approved_read : McpToolRecord :=
  {| mtr_id := "t"; mtr_tenant_id := "acme"; mtr_server_id := "srv"; mtr_tool_key := "read";
     mtr_name := "read"; mtr_description := None; mtr_input_schema := None; mtr_risk := "low";
     mtr_mutates_state := false; mtr_approval_required := false; mtr_status := "approved";
     mtr_created_at := 0%Z; mtr_updated_at := 0%Z |}.

Definition sample_tables (status : string) : McpTables :=
  {| mt_servers := [{| msw_record := pinned_server status; msw_deleted_at := None |}];
     mt_tools := [approved_read]; mt_snapshots := []; mt_skills := []; mt_actions := [] |}.

Definition sample_world : McpWorld :=
  {| mw_tables := sample_tables "active"; mw_server_cache := Lru.empty; mw_tool_cache := Lru.empty |}.

Lemma sample_tables_wf status : McpView.wf (sample_tables status).
Proof.
  split; [apply NoDup_singleton|apply NoDup_singleton|].
  intros t ->%list_elem_of_singleton. by apply list_elem_of_singleton.
Qed.

Lemma empty_caches_coherent m :
  McpView.wf m →
  coherent {| mw_tables := m; mw_server_cache := Lru.empty; mw_tool_cache := Lru.empty |}.
Proof. by split. Qed.

Definition new_manifest : DiscoverMcpToolsRequest :=
  {| dmr_tools := [tool_read "high"]; dmr_manifest_signature := None |}.

Lemma read_tools_differ : ¬ Manifest.same_manifest [tool_read "low"] [tool_read "high"].
Proof.
  intros (l & Hp & Hf). apply Permutation_singleton_r in Hp as ->.
  apply Forall2_cons in Hf as [(_ & _ & _ & Hr & _) _]. discriminate Hr.
Qed.

(** An update of a server failed. *)
Definition failed_update (ev : event McE) : bool :=
  match ev with
  | @Call _ T e r => match e in McE T return T → bool with
                     | McUpdate _ _ _ => λ r, negb (is_ok r)
                     | _ => λ _, false
                     end r
  end.

Lemma no_failed_update tenant key t : existsb failed_update t = false → ¬ quarantine_failed tenant key t.
Proof.
  intros Hf [e He]. apply not_true_iff_false in Hf. apply Hf, existsb_exists.
  eexists. split; [by apply list_elem_of_In|done].
Qed.

(** The risk of a tool of a pinned server changes: it is quarantined. *)
Lemma manifest_drift_contained_witness :
  let r := run sample_storage (McpApi.discover_mcp_tools "acme" "files" new_manifest) sample_world in
  msr_status <$> McpStore.get_mcp_server_by_key (mw_tables r.1.2) "acme" "files" = Some "quarantined".
Proof.
  intros r.
  destruct (manifest_drift_contained schema_text sample_world r.1.2 "acme" "files" new_manifest
    (pinned_server "active") [tool_read "low"] r.2 r.1.1) as (_ & _ & H).
  - apply sample_tables_wf.
  - vm_compute. reflexivity.
  - reflexivity.
  - apply NoDup_singleton.
  - apply NoDup_singleton.
  - by repeat constructor.
  - by repeat constructor.
  - vm_compute. split; [by eexists|]. split; [by eexists|]. intros H. discriminate H.
  - apply run_runs.
  - apply sample_run_executes.
  - apply no_failed_update. vm_compute. reflexivity.
  - vm_compute. reflexivity.
  - destruct (H read_tools_differ) as [[_ Hc]|[Hq _]]; [|exact Hq].
    exfalso. vm_compute in Hc. discriminate Hc.
Defined.

(** ** Lookups *)

Definition files_key : string := McpServerCache.cache_key "acme" "files".

(** The lookup of the server that misses the cache and finds [rec]. *)
Definition miss (rec : McpServerRecord) : list (event HostE) :=
  [Call (ServerCacheGet files_key) None; Call (StGetMcpServer "acme" "files") (Ok (Some rec));
   Call (ServerCacheInsert files_key rec) tt].
Definition hit (rec : McpServerRecord) : list (event HostE) :=
  [Call (ServerCacheGet files_key) (Some rec)].

Lemma miss_runs rec : runs (Gateway.mcp_server_status "acme" "files") (miss rec) (Ok (Some (msr_status rec))).
Proof. do 3 (eexists _, _; split; [reflexivity|]). done. Qed.

Lemma hit_runs rec : runs (Gateway.mcp_server_status "acme" "files") (hit rec) (Ok (Some (msr_status rec))).
Proof. eexists _, _. split; [reflexivity|]. done. Qed.

(** The world in which the server is cached. *)
Definition cached_world (status : string) (cached : McpServerRecord) : McpWorld :=
  {| mw_tables := sample_tables status;
     mw_server_cache := McpServerCache.insert 8 Lru.empty files_key cached; mw_tool_cache := Lru.empty |}.

Lemma miss_caches :
  looks_up 8 8 (miss (pinned_server "active")) sample_world (cached_world "active" (pinned_server "active")).
Proof.
  eexists. split; [exists Lru.empty; split; vm_compute; reflexivity|].
  eexists. split; [split; [reflexivity|]; intros o [= <-]; vm_compute; reflexivity|].
  eexists. split; [reflexivity|]. reflexivity.
Qed.

(** The server is looked up, and so cached, and then quarantined by an operator:
    the next lookup says so. *)
Lemma mcp_lookups_answer_from_tables_witness :
  let r := run sample_storage
             (McpApi.quarantine_mcp_server "acme" "files" None)
             (cached_world "active" (pinned_server "active")) in
  msr_status <$> McpStore.get_mcp_server_by_key (mw_tables r.1.2) "acme" "files" = Some "quarantined" ∧
  ∀ t s w', runs (Gateway.mcp_server_status "acme" "files") t (Ok s) → looks_up 8 8 t r.1.2 w' →
    s = Some "quarantined".
Proof.
  intros r. split; [vm_compute; reflexivity|]. intros t s w' Hr Hl.
  destruct (mcp_lookups_answer_from_tables schema_text 8 8 sample_world r.1.2 "acme" "files" "read")
    as [H _].
  - apply empty_caches_coherent, sample_tables_wf.
  - eapply (history_server _ _ _ "acme" "files"); [reflexivity|apply (miss_runs (pinned_server "active"))|exact miss_caches|].
    eapply (history_op _ _ _ (OpServerStatus "acme" "files" "quarantined" "mcp_server_quarantined"
      (AgentApi.active_response_reason None)) r.2 r.1.1 _ r.1.2);
      [apply (run_runs sample_storage)|apply sample_run_executes| |apply history_nil].
    vm_compute. repeat constructor.
  - reflexivity.
  - reflexivity.
  - rewrite (H t s w' Hr Hl). vm_compute. reflexivity.
Defined.

(** A lookup reads the row, the server is quarantined and its entry removed, and
    the lookup caches what it had read: from then on the decision path is told
    that the server is active. *)
Example overlapping_lookup_hides_quarantine :
  ∃ w1 w2 w3, 
    looks_up 8 8 (take 2 (miss (pinned_server "active"))) sample_world w1 ∧
    (let r := run sample_storage (McpApi.quarantine_mcp_server "acme" "files" None) w1 in
     w2 = r.1.2 ∧ rp_status r.1.1 = 200%Z) ∧
    looks_up 8 8 (drop 2 (miss (pinned_server "active"))) w2 w3 ∧
    msr_status <$> McpStore.get_mcp_server_by_key (mw_tables w3) "acme" "files" = Some "quarantined" ∧
    ∃ w4, looks_up 8 8 (hit (pinned_server "active")) w3 w4.
Proof.
  exists sample_world. do 2 eexists. split; [|split; [|split; [|split]]].
  - eexists. split; [exists Lru.empty; split; vm_compute; reflexivity|].
    eexists. split; [split; [reflexivity|]; intros o [= <-]; vm_compute; reflexivity|]. reflexivity.
  - split; [reflexivity|]. vm_compute. reflexivity.
  - eexists. split; reflexivity.
  - vm_compute. reflexivity.
  - eexists. eexists. split; [|reflexivity]. eexists. split; vm_compute; reflexivity.
Qed.

(** A playbook quarantines a server by the storage operation alone; the entry of
    the server stays in the cache. *)
Example playbook_quarantine_not_seen :
  let w := cached_world "active" (pinned_server "active") in
  let '(o, m) := McpStore.update_mcp_server (mw_tables w) "acme" "files" (McpStore.only_status "quarantined") in
  o ≠ None ∧ ∃ w', looks_up 8 8 (hit (pinned_server "active")) (set_tables m w) w'.
Proof.
  vm_compute. split; [done|]. eexists. eexists. split; [|reflexivity]. eexists. split; reflexivity.
Qed.

(** The separator of the cache keys, U+001F *)
Definition US : string := String (ascii_of_nat 31) "".

(** Keys that contain the separator share an entry: the tool [re<US>ad] of the
    server [files] is cached, and a lookup of the tool [ad] of the server
    [files<US>re], which is in no table, is answered with it. *)
Example separator_shares_entry :
  let key := McpToolCache.cache_key "acme" "files" ("re" +:+ US +:+ "ad") in
  let w := {| mw_tables := sample_tables "active"; mw_server_cache := Lru.empty;
              mw_tool_cache := McpToolCache.insert 8 Lru.empty key approved_read |} in
  let t := [Call (ToolCacheGet key) (Some approved_read)] in
  runs (Gateway.mcp_tool_meta "acme" ("files" +:+ US +:+ "re") "ad") t (Ok (Some (Gateway.tool_meta_of approved_read))) ∧
  (∃ w', looks_up 8 8 t w w') ∧
  McpStore.get_mcp_tool_by_key (mw_tables w) "acme" ("files" +:+ US +:+ "re") "ad" = None.
Proof.
  intros key w t. split; [by eexists _, _|]. split; [|vm_compute; reflexivity].
  eexists. eexists. split; [|reflexivity]. eexists. split; vm_compute; reflexivity.
Qed.

(** A storage whose updates of a server fail *)
Definition update_fails : handler McE McpWorld :=
  λ T e w, match e in McE T return T * McpWorld with
           | McUpdate t k p => (Err db_down, w)
           | e => sample_storage _ e w
           end.

Definition unquarantined := run update_fails (McpApi.discover_mcp_tools "acme" "files" new_manifest) sample_world.

(** The quarantine of a changed manifest fails: the discovery answers 200, the
    server stays active, and it is pinned to the changed manifest, so that the
    next discovery of it is no drift. *)
Example failed_quarantine_pins_manifest :
  (rp_status unquarantined.1.1,
   (λ s, (msr_status s, drifted s (dmr_tools new_manifest))) <$>
     McpStore.get_mcp_server_by_key (mw_tables unquarantined.1.2) "acme" "files") =
  (200%Z, Some ("active", false)).
Proof. vm_compute. reflexivity. Qed.

(** A discovery of a changed tool fails after the tool was written: the handler
    answers 500, no entry is removed, and the tool that waits for approval in the
    table is still approved in the cache. *)
Example failed_discovery_keeps_approval :
  let w := {| mw_tables := sample_tables "active"; mw_server_cache := Lru.empty;
              mw_tool_cache := McpToolCache.insert 8 Lru.empty
                                 (McpToolCache.cache_key "acme" "files" "read") approved_read |} in
  let t := [Call (McGetServer "acme" "files") (Ok (Some (pinned_server "active")));
            Call (McDiscover "acme" "files" (dmr_tools new_manifest)
                    (McpApi.manifest_hash (dmr_tools new_manifest))) (Err db_down)] in
  ∃ resp w', runs (McpApi.discover_mcp_tools "acme" "files" new_manifest) t resp ∧
    rp_status resp = 500%Z ∧ executes schema_text t w w' ∧
    mtr_status <$> McpStore.get_mcp_tool_by_key (mw_tables w') "acme" "files" "read" = Some "pending" ∧
    lru_map (mw_tool_cache w') !! McpToolCache.cache_key "acme" "files" "read" = Some approved_read.
Proof.
  intros w t. do 2 eexists. split; [|split; [|split; [|split]]].
  - eexists _, _. split; [reflexivity|]. eexists _, _. split; [reflexivity|]. split; reflexivity.
  - reflexivity.
  - eexists. split; [split; [reflexivity|]; intros o [= <-]; vm_compute; reflexivity|].
    eexists. split; [|reflexivity]. eexists. split; [|reflexivity]. right.
    exists (pinned_server "active"), "s0", "s0". eexists _, 0%nat, [], 0%Z.
    split; [vm_compute; reflexivity|]. split; [vm_compute; reflexivity|]. right.
    exists (tool_read "high"), "t0". split; [reflexivity|]. vm_compute. reflexivity.
  - vm_compute. reflexivity.
  - vm_compute. reflexivity.
Qed.
